(* ===== verification/_CoqProject ===== *)
-Q . S2P
Prelude.v
Misc.v
W64.v
Coding.v
Sha256.v
Hmac.v
Hkdf.v
ChaCha.v
Poly1305.v
PolyLimbs.v
ChaChaPoly.v
XChaChaPoly.v
Tls.v
TlsSeq.v
TlsSend13.v
TlsPad.v
TlsHmac.v
DtlsWindow.v
Dtls13Epoch.v
TlsKeys13.v
TlsCipher13.v
Handshake12.v
Handshake13.v
TlsRecv13.v
TlsRecvSafe.v
TlsChannel13.v
DtlsCid.v
Dtls13Record.v
Dtls13Ack.v
DtlsFrag.v
DtlsRecv.v
