(* ===== verification/Prelude.v ===== *)
(** * A verification library for wolfSSL

    wolfSSL is a TLS/DTLS library in C: [wolfcrypt/] holds the cryptography
    and its helpers, [src/] the protocols.  This library models the parts of
    it in which the protocol's own logic lives - what is accepted, when, in
    which order, how often, and how it is encoded - and proves them correct.
    Of the cryptography, what a TLS 1.3 connection with
    TLS_CHACHA20_POLY1305_SHA256 uses after its key exchange is modelled down to
    machine words - SHA-256, HMAC, HKDF, the key schedule, ChaCha20, Poly1305,
    their AEAD - and the constant-time helpers; every other primitive the
    protocol calls is an argument of the definition.

    ** The parts of the program and their files

    Helpers
    - [Prelude]: C words as [Z] with explicit wrap-around ([wrap], [u32]),
      byte buffers ([list Z]), the notation for C statements with early return, bit-level
      lemmas, list lemmas and the tactics used throughout.
    - [Misc] (wolfcrypt/src/misc.c): rotation, byte order, [xorbuf],
      [ConstantCompare], the [ctMask] family, [c32toa]/[ato32] and friends.
    - [W64] (wolfcrypt/src/misc.c): [w64wrapper].  The class [W64] is what its
      clients rely on; the native and the two-word implementation are its
      two instances.
    - [Coding] (wolfcrypt/src/coding.c): Base64 with both decoders, Base16,
      UTF-8 decoding.
    - [Sha256] (wolfcrypt/src/sha256.c): both block functions and the
      streaming interface.  [wc_Sha256] is a record with the buffer as bytes.
    - [Hmac] (wolfcrypt/src/hmac.c): HMAC over the class [Hash] (operations)
      and [HashSpec] (their laws, for hashes with blocks of 64 bytes, so not SHA-384
      and SHA-512), with SHA-256 as an instance.
    - [Hkdf] (wolfcrypt/src/hmac.c, wolfcrypt/src/kdf.c): extract, expand and the
      labels of TLS 1.3, over the same classes.
    - [ChaCha] (wolfcrypt/src/chacha.c): ChaCha20, HChaCha20 and the key setup of
      XChaCha20; [ChaChaSpec] is RFC 8439.
    - [Poly1305] (wolfcrypt/src/poly1305.c): the streaming interface over the
      class [PolyOps], a field arithmetic, with the laws [PolyLaws]; [PolyLimbs]:
      the two implementations, on 44-bit limbs in 64-bit words and on 26-bit limbs
      in 32-bit words, as its instances.
    - [ChaChaPoly] (wolfcrypt/src/chacha20_poly1305.c): the AEAD for records, in
      one call and streamed; [AeadSpec] is RFC 8439, [AeadStream] the state machine
      of a session.  [XChaChaPoly]: the one-call XChaCha20-Poly1305.
    - [Tls] (wolfssl/internal.h): the enumerations shared by the files below.

    TLS
    - [TlsSeq] (src/internal.c, src/tls13.c): record sequence numbers in their
      three forms (TLS, DTLS 1.2, TLS 1.3), the nonce and the additional data
      of an AEAD record.
    - [TlsSend13] (src/internal.c, src/tls13.c): sending over TLS 1.3 -
      [SendData] with its retries, [SendBuffered], alerts, [SendTls13KeyUpdate],
      [BuildTls13Message], the limits of a key.  [Tx] is the sending half of
      [WOLFSSL]; the socket is a list of results, one per call of the send callback.
      The AEAD and the key schedule are the class [RecordCrypto], their laws
      [RecordCryptoSpec].
    - [TlsRecv13] (src/internal.c, src/tls13.c, src/ssl_api_rw.c): receiving -
      [ReceiveData], the state machine [DoProcessReply] with one definition
      per case of its switch, record headers, decryption, alerts,
      application data, fragments of handshake messages, KeyUpdate.
      [Rx] is the receiving half, [Ssl] the whole connection.  The handlers of the
      other handshake messages are the class [Handlers].
    - [TlsRecvSafe]: the invariant of the reading side, and that reading ends and
      stays in its buffer.
    - [TlsChannel13]: the sender of [TlsSend13] and the reader of [TlsRecv13] joined
      by a network: the integrity of the channel.
    - [TlsKeys13] (src/tls13.c, src/keys.c, src/dtls13.c): the TLS 1.3 key schedule,
      from the PSK and the shared secret to the keys of each epoch, over any
      [Hash]; [KeySpec] is RFC 8446, 7.
    - [TlsCipher13] (src/tls13.c, src/keys.c): the keys put in the cipher contexts,
      and records sealed and opened with them; the instance of
      [RecordCrypto] that ChaCha20-Poly1305 makes with the key schedule.
    - [TlsPad] (src/internal.c): the constant-time check of padding and MAC of
      a CBC record ([TimingPadVerify], [MaskPadding], [MaskMac]), its older
      direct form, and [VerifyMac] over them.
    - [TlsHmac] (src/tls.c): [TLS_hmac] and the constant-time
      [Hmac_UpdateFinal_CT], over the class [Hash].
    - [Handshake12] (src/internal.c): [SanityCheckMsgReceived] and
      [DoHandShakeMsgType] up to the transcript.  [msgsReceived] is a record of
      counters and flags, one per message type.
    - [Handshake13] (src/tls13.c): the same gate for TLS 1.3, with the state
      changes of the client's handlers.

    DTLS
    - [DtlsWindow] (src/internal.c): the anti-replay window of DTLS 1.2, and
      the abstract window [replay] which DTLS 1.3 shares.
    - [Dtls13Epoch] (src/dtls13.c, src/internal.c): epoch slots, key switches,
      reconstruction of truncated numbers, the DTLS 1.3 window.
    - [Dtls13Record] (src/dtls13.c): the unified record header.
    - [DtlsCid] (src/dtls.c, src/dtls13.c): connection IDs.
    - [Dtls13Ack] (src/dtls13.c): ACK messages, the retransmission queue,
      key updates and the limits on failed decryptions.
    - [DtlsFrag] (src/internal.c): reassembly of handshake messages from
      fragments, and the list of stored messages.
    - [DtlsRecv] (src/dtls13.c): reception of handshake fragments and delivery
      of complete messages in order.

    ** How they interact

    A datagram's record header is parsed ([Dtls13Record]) with the connection
    ID agreed in the handshake ([DtlsCid]); its epoch selects the keys and the
    window ([Dtls13Epoch]), which rebuilds the full record number, refuses
    replays and is updated after decryption.  A handshake record is
    queued for acknowledgement ([Dtls13Ack]) and its fragment is
    dropped, stored or processed ([DtlsRecv], over the store of [DtlsFrag]).  A
    complete message passes the gate ([Handshake12], [Handshake13]) before its
    handler runs.  [Dtls13Epoch] is written over the class [W64], so that its
    theorems hold for both builds of [w64wrapper]; [DtlsRecv] is written over
    the class [Connection], which stands for the handlers of complete messages.
    [ReceiveData] turns the bytes of the network into records and runs
    [DoProcessReply] on each; a handshake record ends in the gate of
    [Handshake13] and then in [DoTls13KeyUpdate] or an operation of
    [Handlers]; a KeyUpdate or a fatal error calls the sending half of
    [TlsSend13], whose buffer the next [SendData] finds.
    A TLS 1.2 CBC record is checked by [TlsPad] over the callback [ssl->hmac],
    which [TlsHmac] provides from [Hmac], which runs on any [Hash].
    [TlsKeys13] runs [Hkdf] and [Hmac] on the transcript's hash, stores the keys
    and, over DTLS, hands them to an epoch of [Dtls13Epoch]; [TlsCipher13] puts
    them in the contexts of [ChaChaPoly], whose Poly1305 is any [PolyOps], takes
    the nonces from [TlsSeq], and provides [RecordCrypto]: the theorems of
    [TlsSend13], [TlsRecv13] and [TlsChannel13] hold of it.

    ** Modelling conventions

    - A [w]-bit unsigned integer is a [Z] in [0, 2^w); the reductions C performs
      are written out.  Pointers into an array are indices, so that an update
      through one is visible through another; pointers into the
      linked list of [Dtls13Ack] are addresses of records.
    - A C function with early returns is written with the statement notation
      of the prelude: [when c then return x;; ...].  An error code is a value.
    - Memory accesses that could leave their buffer are explicit in [DtlsFrag],
      [Dtls13Record], [DtlsCid], [TlsPad] and [TlsHmac]: the result is [None].
    - Loops that run over an array are [Fixpoint]s on the list or on the
      number of iterations; loops over indices carry fuel, and the theorems state
      the result for all fuel that suffices.  The fuel is computed from the
      input: the number of stored messages plus one in [DtlsRecv.process_loop], the
      length of the data plus one in [TlsSend13.send_records] (every turn sends a
      byte), the bytes that are buffered or still to come, plus two or three, in the
      loops of [TlsRecv13] (every turn consumes a byte or is the last; this is
      [TlsRecvSafe.ReceiveData_safe]).
    - One build is modelled where the preprocessor offers many; each file's
      header says which.

    ** What the theorems show

    - What a TLS 1.3 peer sealed is what the application reads: in order,
      nothing lost, repeated or changed, across key updates, whatever the network
      delivers, as long as it cannot forge a record.
    - Reading ends on every input and never leaves the input buffer.
    - A write with retries seals exactly the bytes it reports, once and in
      order; every record has a nonce of its own; the additional
      data of a record fixes its number, type, version and length.
    - No record is delivered twice, in DTLS 1.2 and by a stateful DTLS 1.3
      connection (a stateless one does not keep its window,
      [Dtls13Epoch.stateless_replay]), whatever the network does; both windows refine the
      abstract [replay] on every branch, errors included.
    - Every message the gates accept comes in an order RFC 5246 and RFC 8446
      allow; no Finished is accepted from a peer that did not authenticate when
      authentication was asked for.  The options of the connection may change from
      message to message, as the handlers change them; every honest flight is
      accepted under all options that fit it.
    - A reassembled message is the message that was sent, fragments in
      any order and overlapping; no access leaves its buffer.
    - Handshake messages are delivered once each and in order.
    - The linked retransmission queue is the sequence of its records through every
      operation on it, a retransmission that blocks included; an ACK removes the
      records it names and no other; what one side writes as an ACK the
      other reads back.
    - The unified header, connection IDs and the fixed-width integers round
      trip; truncated record and epoch numbers are rebuilt exactly.
    - SHA-256 computes FIPS 180-4, HMAC RFC 2104, ChaCha20 and Poly1305 (in both
      word sizes) RFC 8439, however the message is cut into pieces; HKDF
      computes RFC 5869; the AEAD seals as RFC 8439 and opens exactly what was
      sealed, in one call, streamed or with keys that stay in place.  Test
      vectors of the standards are checked.
    - The key schedule derives the secrets and keys of RFC 8446; client and server
      agree on every generation of them; with the keys in place every sequence
      of records and KeyUpdates has the bytes of the abstract record layer, and
      the other end reads what was sent.
    - Base64 text is written, in every mode, and read as RFC 4648 says, both decoders agree and
      terminate inside their buffers; XChaCha20-Poly1305 in one call is pinned on
      all arguments; UTF-8 decoding accepts exactly RFC 3629.
    - The constant-time helpers compute what their names say; the
      constant-time MAC is the MAC; the constant-time check of a CBC record
      accepts exactly the records a direct check accepts (but for one byte
      of the longest padding, [TlsPad.longest_padding_unchecked]; a truncated MAC
      is compared in the wrong place there, [TlsPad.truncated_cbc_refused]).
    - The implementations of [w64wrapper] agree with arithmetic modulo 2^64.
    - Some properties record what the code does against what it
      means to do (for example [DtlsRecv.stale_head_blocks]).

    ** Not modelled, and why

    - The other algorithms of [wolfcrypt/] (AES, SHA-1, SHA-512, RSA, ECC,
      post-quantum, multi-precision [sp_*] and [tfm] code, assembly ports, and the
      fused and assembly paths of ChaCha20-Poly1305):
      where the protocol needs one it is an argument; each would be a
      verification project of its own.
    - ASN.1 and X.509 ([wolfcrypt/src/asn.c]), revocation ([src/ocsp.c],
      [src/crl.c]): parsing and chain building; nothing modelled here calls them.
    - The bodies of the TLS handshake handlers and the extension parsers
      ([src/tls.c]) other than connection_id: they appear through the flags
      they set and as operations of [Connection].
    - Sockets and callbacks ([src/wolfio.c]), key stores, the OpenSSL
      compatibility layer ([src/ssl*.c], [src/pk.c], [src/x509*.c], [src/bio.c]),
      QUIC and sniffer glue, language bindings, IDE projects, examples and
      tests.

    ** What is left

    The DTLS 1.2 transmit pool and message draining ([DtlsMsgPoolSave],
    [DtlsMsgDrain]); AES-GCM as a second instance of [RecordCrypto]; the progress of
    the TLS 1.3 channel on an honest network; the ASN.1 length coding. *)


From stdpp Require Export base tactics list numbers option.
From Stdlib Require Export ZArith Lia.
From coqutil Require Export Datatypes.RecordSetters.
Export OCamlLikeNotations.

Arguments constant {E} newValue _ /.

#[local] Open Scope Z_scope.

Create HintDb wolf.
#[export] Hint Extern 1 (_ <= _) => lia : wolf.
#[export] Hint Extern 1 (_ <= _ <= _) => lia : wolf.

(** ** Machine words

    A [w]-bit unsigned C integer is a [Z] in [0, 2^w); every operation that
    can leave that range is followed by the reduction C performs. *)

Definition wrap (w x : Z) : Z := x mod 2 ^ w.

Abbreviation u8 := (wrap 8).
Abbreviation u16 := (wrap 16).
Abbreviation u32 := (wrap 32).
Abbreviation u64 := (wrap 64).

(** The value of a [w]-bit pattern read as a two's complement integer. *)
Definition sint (w x : Z) : Z := (x + 2 ^ (w - 1)) mod 2 ^ w - 2 ^ (w - 1).

(** The C complement [~x] on a [w]-bit unsigned value. *)
Definition cnot (w x : Z) : Z := wrap w (Z.lnot x).

Definition is_word (w x : Z) : Prop := 0 <= x < 2 ^ w.

(** The truth value of a C comparison. *)
Definition c_bool (b : bool) : Z := if b then 1 else 0.

Declare Scope cword_scope.
Delimit Scope cword_scope with cw.
Notation "x +u32 y" := (u32 (x + y)) (at level 50, left associativity) : cword_scope.
Notation "x -u32 y" := (u32 (x - y)) (at level 50, left associativity) : cword_scope.
Notation "x +u64 y" := (u64 (x + y)) (at level 50, left associativity) : cword_scope.
Notation "x -u64 y" := (u64 (x - y)) (at level 50, left associativity) : cword_scope.
Notation "x <<u32 y" := (u32 (Z.shiftl x y)) (at level 51, left associativity) : cword_scope.
Notation "x <<u64 y" := (u64 (Z.shiftl x y)) (at level 51, left associativity) : cword_scope.
Notation "x >>u y" := (Z.shiftr x y) (at level 51, left associativity) : cword_scope.

(** Linear arithmetic over words: division and remainder by constants are
    turned into equations first. *)
Ltac word_lia :=
  unfold wrap, sint, is_word in *;
  Z.to_euclidean_division_equations; lia.

Lemma wrap_range w x : 0 <= w -> 0 <= wrap w x < 2 ^ w.
Proof. intros H. apply Z.mod_pos_bound, Z.pow_pos_nonneg; lia. Qed.

Lemma wrap_is_word w x : 0 <= w -> is_word w (wrap w x).
Proof. apply wrap_range. Qed.

Lemma wrap_small w x : is_word w x -> wrap w x = x.
Proof. apply Z.mod_small. Qed.

Lemma wrap_0 w : wrap w 0 = 0.
Proof. apply Zmod_0_l. Qed.

Lemma wrap_wrap w v x : 0 <= w <= v -> wrap w (wrap v x) = wrap w x.
Proof.
  intros [Hw Hv]. unfold wrap. replace v with (w + (v - w)) by lia.
  rewrite Z.pow_add_r by lia. symmetry.
  pose proof (Z.pow_pos_nonneg 2 w ltac:(lia) Hw).
  pose proof (Z.pow_pos_nonneg 2 (v - w) ltac:(lia) ltac:(lia)).
  rewrite Z.rem_mul_r by lia.
  rewrite Z.add_mod, (Z.mul_comm (2 ^ w)), Z.mod_mul, Z.add_0_r, !Z.mod_mod by lia.
  reflexivity.
Qed.

Lemma u32_add_l x y : u32 (u32 x + y) = u32 (x + y).
Proof. unfold wrap. apply Zplus_mod_idemp_l. Qed.

Lemma u32_add_r x y : u32 (x + u32 y) = u32 (x + y).
Proof. unfold wrap. apply Zplus_mod_idemp_r. Qed.

Lemma u32_add_m x y z : u32 (x + (u32 y + z)) = u32 (x + (y + z)).
Proof. rewrite !Z.add_assoc, !(Z.add_comm x), <- !Z.add_assoc. apply u32_add_l. Qed.

Lemma wrap_testbit w x i :
  0 <= w -> Z.testbit (wrap w x) i = (i <? w) && Z.testbit x i.
Proof.
  intros Hw. unfold wrap. destruct (Z.ltb_spec i w).
  - now rewrite Z.mod_pow2_bits_low by lia.
  - now rewrite Z.mod_pow2_bits_high by lia.
Qed.

Lemma wrap_land_ones w x : 0 <= w -> wrap w x = Z.land x (Z.ones w).
Proof. intros H. symmetry. now apply Z.land_ones. Qed.

Lemma word_testbit_high w x i :
  0 <= w <= i -> is_word w x -> Z.testbit x i = false.
Proof.
  intros Hi Hx. rewrite <- (wrap_small w x Hx), wrap_testbit by lia.
  destruct (Z.ltb_spec i w); [lia | reflexivity].
Qed.

(** A value all of whose bits from [w] on are clear is a [w]-bit word. *)
Lemma testbit_is_word w x :
  0 <= w -> 0 <= x -> (forall i, w <= i -> Z.testbit x i = false) -> is_word w x.
Proof.
  intros Hw Hx Hb. split; [exact Hx |].
  assert (E : x = wrap w x).
  { apply Z.bits_inj'. intros i Hi. rewrite wrap_testbit by lia.
    destruct (Z.ltb_spec i w); [reflexivity | now rewrite Hb]. }
  rewrite E. now apply wrap_range.
Qed.

Lemma lor_is_word w x y : 0 <= w -> is_word w x -> is_word w y -> is_word w (Z.lor x y).
Proof.
  intros Hw Hx Hy. apply testbit_is_word; [lia | |].
  - apply Z.lor_nonneg. unfold is_word in *; lia.
  - intros i Hi. rewrite Z.lor_spec, (word_testbit_high w x), (word_testbit_high w y) by auto.
    reflexivity.
Qed.

Lemma lxor_is_word w x y : 0 <= w -> is_word w x -> is_word w y -> is_word w (Z.lxor x y).
Proof.
  intros Hw Hx Hy. apply testbit_is_word; [lia | |].
  - apply Z.lxor_nonneg. unfold is_word in *; lia.
  - intros i Hi. rewrite Z.lxor_spec, (word_testbit_high w x), (word_testbit_high w y) by auto.
    reflexivity.
Qed.

Lemma land_is_word w x y : 0 <= w -> is_word w x -> 0 <= y -> is_word w (Z.land x y).
Proof.
  intros Hw Hx Hy. apply testbit_is_word; [lia | |].
  - apply Z.land_nonneg. auto.
  - intros i Hi. now rewrite Z.land_spec, (word_testbit_high w x) by auto.
Qed.

Lemma shiftr_is_word w x n : 0 <= w -> 0 <= n -> is_word w x -> is_word w (Z.shiftr x n).
Proof.
  intros Hw Hn Hx. apply testbit_is_word; [lia | |].
  - apply Z.shiftr_nonneg. unfold is_word in Hx; lia.
  - intros i Hi. rewrite Z.shiftr_spec by lia. apply (word_testbit_high w); [lia | exact Hx].
Qed.

#[export] Hint Resolve wrap_is_word lor_is_word lxor_is_word land_is_word shiftr_is_word : wolf.

(** ** Bit-level equality

    [zbits] proves an equality of integers bit by bit: the bit of every
    operator is pushed to the leaves, comparisons of indices are split, and
    what is left is propositional. *)

Lemma shiftl_testbit a n i : Z.testbit (Z.shiftl a n) i = (0 <=? i) && Z.testbit a (i - n).
Proof.
  destruct (Z.leb_spec 0 i); [now rewrite Z.shiftl_spec | now rewrite Z.testbit_neg_r].
Qed.

Lemma shiftr_testbit a n i : Z.testbit (Z.shiftr a n) i = (0 <=? i) && Z.testbit a (i + n).
Proof.
  destruct (Z.leb_spec 0 i); [now rewrite Z.shiftr_spec | now rewrite Z.testbit_neg_r].
Qed.

Lemma lnot_testbit a i : Z.testbit (Z.lnot a) i = (0 <=? i) && negb (Z.testbit a i).
Proof.
  destruct (Z.leb_spec 0 i); [now rewrite Z.lnot_spec | now rewrite Z.testbit_neg_r].
Qed.

Create Rewrite HintDb zbits.
#[export] Hint Rewrite Z.lor_spec Z.lxor_spec Z.land_spec Z.ldiff_spec Z.testbit_0_l
  shiftl_testbit shiftr_testbit lnot_testbit : zbits.
#[export] Hint Rewrite wrap_testbit Z.pow2_bits_eqb using lia : zbits.

Ltac zbits_split :=
  repeat match goal with
         | |- context [?a <=? ?b] => destruct (Z.leb_spec a b); cbn [andb orb negb xorb]
         | |- context [?a <? ?b] => destruct (Z.ltb_spec a b); cbn [andb orb negb xorb]
         | |- context [?a =? ?b] => destruct (Z.eqb_spec a b); cbn [andb orb negb xorb]
         end.

Ltac zbits :=
  apply Z.bits_inj'; intros; autorewrite with zbits; zbits_split;
  try reflexivity; try lia.

(** A bitwise or of disjoint parts is their sum. *)
Lemma lor_add_shift x y n : 0 <= n -> is_word n x -> Z.lor x (Z.shiftl y n) = x + y * 2 ^ n.
Proof.
  intros Hn Hx.
  assert (D : Z.land x (Z.shiftl y n) = 0).
  { apply Z.bits_inj'. intros i Hi. rewrite Z.land_spec, Z.testbit_0_l.
    destruct (Z.ltb_spec i n).
    - rewrite Z.shiftl_spec_low by lia. apply andb_false_r.
    - now rewrite (word_testbit_high n x i) by (lia || exact Hx). }
  rewrite <- Z.lxor_lor, <- Z.add_nocarry_lxor, Z.shiftl_mul_pow2 by assumption.
  reflexivity.
Qed.

Lemma lor_shift_add x y n : 0 <= n -> is_word n x -> Z.lor (Z.shiftl y n) x = y * 2 ^ n + x.
Proof. intros. rewrite Z.lor_comm, lor_add_shift by auto. lia. Qed.

(** ** Arrays

    A C array is a list; [rd] reads a cell (0 outside, where the C code has
    no defined behaviour and the theorems state the bounds), stdpp's
    [<[i:=x]>] writes one and [list_inserts] models [XMEMCPY]/[XMEMMOVE] of a
    block into a larger one. *)

Definition rd (l : list Z) (i : Z) : Z := default 0 (l !! Z.to_nat i).

Definition Zlen {A} (l : list A) : Z := Z.of_nat (length l).

Definition is_bytes (l : list Z) : Prop := Forall (is_word 8) l.

#[export] Instance is_word_dec w x : Decision (is_word w x).
Proof. unfold is_word. apply _. Defined.

#[export] Instance is_bytes_dec l : Decision (is_bytes l).
Proof. unfold is_bytes. apply _. Defined.

Lemma is_bytes_app a b : is_bytes (a ++ b) <-> is_bytes a /\ is_bytes b.
Proof. apply Forall_app. Qed.

Lemma rd_lookup l i x : l !! Z.to_nat i = Some x -> rd l i = x.
Proof. unfold rd. now intros ->. Qed.

Lemma rd_is_word w l i : 0 <= w -> Forall (is_word w) l -> is_word w (rd l i).
Proof.
  intros Hw Hl. unfold rd. destruct (l !! Z.to_nat i) eqn:E; cbn.
  - exact (Forall_lookup_1 _ _ _ _ Hl E).
  - split; [lia | apply Z.pow_pos_nonneg; lia].
Qed.

Lemma lookup_rd l i : (Z.to_nat i < length l)%nat -> l !! Z.to_nat i = Some (rd l i).
Proof.
  intros H. destruct (lookup_lt_is_Some_2 l (Z.to_nat i) H) as [x E].
  unfold rd. now rewrite E.
Qed.

#[export] Hint Resolve rd_is_word : wolf.

(** ** Byte order

    The integer a byte string denotes on a little-endian ([le_value]) and a
    big-endian ([be_value]) reading, and the byte strings of an integer. *)

Fixpoint le_value (l : list Z) : Z :=
  match l with
  | [] => 0
  | b :: l => Z.lor b (Z.shiftl (le_value l) 8)
  end.

Fixpoint le_bytes (n : nat) (x : Z) : list Z :=
  match n with
  | O => []
  | S n => u8 x :: le_bytes n (Z.shiftr x 8)
  end.

Definition be_value (l : list Z) : Z := le_value (rev l).
Definition be_bytes (n : nat) (x : Z) : list Z := rev (le_bytes n x).

Lemma le_bytes_length n x : length (le_bytes n x) = n.
Proof. revert x. induction n; intros; cbn; auto. Qed.

Lemma be_bytes_length n x : length (be_bytes n x) = n.
Proof. unfold be_bytes. now rewrite length_rev, le_bytes_length. Qed.

Lemma le_bytes_is_bytes n x : is_bytes (le_bytes n x).
Proof.
  revert x. induction n; intros; cbn; [constructor |].
  constructor; [apply wrap_is_word; lia | apply IHn].
Qed.

Lemma be_bytes_is_bytes n x : is_bytes (be_bytes n x).
Proof.
  apply Forall_rev, le_bytes_is_bytes.
Qed.

Lemma le_value_nonneg l : is_bytes l -> 0 <= le_value l.
Proof.
  induction 1 as [| b l Hb Hl IH]; cbn; [lia |].
  apply Z.lor_nonneg. split; [apply Hb | now apply Z.shiftl_nonneg].
Qed.

Lemma le_value_cons b l : is_word 8 b -> le_value (b :: l) = b + 256 * le_value l.
Proof. intros Hb. cbn [le_value]. rewrite lor_add_shift by (lia || exact Hb). lia. Qed.

Lemma le_value_bound l : is_bytes l -> 0 <= le_value l < 2 ^ (8 * Zlen l).
Proof.
  unfold Zlen. induction 1 as [| b l Hb Hl IH]; [cbn; lia |].
  rewrite le_value_cons by exact Hb. cbn [length]. rewrite Nat2Z.inj_succ.
  replace (8 * Z.succ (Z.of_nat (length l))) with (8 + 8 * Z.of_nat (length l)) by lia.
  rewrite Z.pow_add_r by lia. unfold is_word in Hb. change (2 ^ 8) with 256 in *. nia.
Qed.

Lemma le_value_bytes n x : le_value (le_bytes n x) = wrap (8 * Z.of_nat n) x.
Proof.
  revert x. induction n as [| n IH]; intros x.
  - cbn. unfold wrap. now rewrite Z.mod_1_r.
  - cbn [le_bytes le_value]. rewrite IH. apply Z.bits_inj'. intros i Hi.
    rewrite Z.lor_spec, Z.shiftl_spec, !wrap_testbit by lia.
    destruct (Z.ltb_spec i 8); cbn [andb orb].
    + rewrite (Z.testbit_neg_r _ (i - 8)), andb_false_r by lia.
      destruct (Z.ltb_spec i (8 * Z.of_nat (S n))); [apply orb_false_r | lia].
    + rewrite Z.shiftr_spec by lia. zbits_split; try lia; f_equal; lia.
Qed.

Lemma le_bytes_value l : is_bytes l -> le_bytes (length l) (le_value l) = l.
Proof.
  induction 1 as [| b l Hb Hl IH]; cbn [le_bytes le_value length]; [reflexivity |].
  f_equal.
  - rewrite <- (wrap_small 8 b Hb) at 2. zbits.
    rewrite (Z.testbit_neg_r _ (_ - 8)) by lia. apply orb_false_r.
  - transitivity (le_bytes (length l) (le_value l)); [| exact IH].
    f_equal. apply Z.bits_inj'. intros i Hi.
    rewrite Z.shiftr_spec, Z.lor_spec, Z.shiftl_spec, (word_testbit_high 8 b) by (lia || exact Hb).
    cbn [orb]. f_equal. lia.
Qed.

Lemma be_value_bytes n x : be_value (be_bytes n x) = wrap (8 * Z.of_nat n) x.
Proof. unfold be_value, be_bytes. now rewrite rev_involutive, le_value_bytes. Qed.

Lemma be_bytes_value l : is_bytes l -> be_bytes (length l) (be_value l) = l.
Proof.
  intros H. unfold be_bytes, be_value. rewrite <- (length_rev l), le_bytes_value.
  - apply rev_involutive.
  - now apply Forall_rev.
Qed.

Lemma le_value_app a b :
  is_bytes a -> le_value (a ++ b) = le_value a + 2 ^ (8 * Zlen a) * le_value b.
Proof.
  unfold Zlen. induction 1 as [| x a Hx Ha IH]; [cbn [app length]; cbn; lia |].
  cbn [app]. rewrite !le_value_cons, IH by exact Hx. cbn [length]. rewrite Nat2Z.inj_succ.
  replace (8 * Z.succ (Z.of_nat (length a))) with (8 + 8 * Z.of_nat (length a)) by lia.
  rewrite Z.pow_add_r by lia. change (2 ^ 8) with 256. ring.
Qed.

Lemma be_value_app a b :
  is_bytes b -> be_value (a ++ b) = be_value a * 2 ^ (8 * Zlen b) + be_value b.
Proof.
  intros Hb. unfold be_value. rewrite rev_app_distr, le_value_app by now apply Forall_rev.
  unfold Zlen. rewrite length_rev. ring.
Qed.

Lemma le_bytes_app k n x : le_bytes (k + n) x = le_bytes k x ++ le_bytes n (Z.shiftr x (8 * Z.of_nat k)).
Proof.
  revert x. induction k as [| k IH]; intros x.
  - now rewrite Z.shiftr_0_r.
  - cbn [Nat.add le_bytes app]. rewrite IH, Z.shiftr_shiftr by lia. do 4 f_equal. lia.
Qed.

Lemma be_bytes_app n k x : be_bytes (n + k) x = be_bytes n (Z.shiftr x (8 * Z.of_nat k)) ++ be_bytes k x.
Proof. unfold be_bytes. rewrite Nat.add_comm, le_bytes_app. apply rev_app_distr. Qed.

Lemma rd_cons x l i : 0 < i -> rd (x :: l) i = rd l (i - 1).
Proof.
  intros Hi. unfold rd. replace (Z.to_nat i) with (S (Z.to_nat (i - 1))) by lia. reflexivity.
Qed.

Lemma le_value_testbit l i :
  is_bytes l -> 0 <= i -> Z.testbit (le_value l) i = Z.testbit (rd l (i / 8)) (i mod 8).
Proof.
  intros Hl. revert i. induction Hl as [| b l Hb Hl IH]; intros i Hi; cbn [le_value].
  - unfold rd. now rewrite lookup_nil, !Z.testbit_0_l.
  - rewrite Z.lor_spec, Z.shiftl_spec by lia. destruct (Z.lt_ge_cases i 8).
    + rewrite (Z.testbit_neg_r _ (i - 8)), orb_false_r, Z.div_small, Z.mod_small by lia.
      reflexivity.
    + rewrite (word_testbit_high 8 b) by (lia || exact Hb). cbn [orb].
      rewrite IH by lia. replace i with ((i - 8) + 1 * 8) at 3 4 by lia.
      rewrite Z.div_add, Z.mod_add, rd_cons by (lia || word_lia). do 2 f_equal. lia.
Qed.

Lemma rd_le_bytes n x k : 0 <= k < Z.of_nat n -> rd (le_bytes n x) k = u8 (Z.shiftr x (8 * k)).
Proof.
  revert x k. induction n as [| n IH]; intros x k Hk; [lia |]. cbn [le_bytes].
  destruct (Z.eq_dec k 0) as [-> |].
  - now rewrite Z.shiftr_0_r.
  - rewrite rd_cons, IH, Z.shiftr_shiftr by lia. do 2 f_equal. lia.
Qed.

Lemma Zlen_nonneg {A} (l : list A) : 0 <= Zlen l.
Proof. unfold Zlen. lia. Qed.

Lemma rd_app l k i : 0 <= i -> rd (l ++ k) i = if i <? Zlen l then rd l i else rd k (i - Zlen l).
Proof.
  intros Hi. unfold rd, Zlen. rewrite lookup_app. destruct (Z.ltb_spec i (Z.of_nat (length l))).
  - destruct (lookup_lt_is_Some_2 l (Z.to_nat i)) as [x E]; [lia |]. now rewrite E.
  - rewrite lookup_ge_None_2 by lia. do 2 f_equal. lia.
Qed.

Lemma rd_take l n i : 0 <= i < n -> rd (take (Z.to_nat n) l) i = rd l i.
Proof. intros Hi. unfold rd. rewrite lookup_take, decide_True by lia. reflexivity. Qed.

Lemma rd_drop l n i : 0 <= n -> 0 <= i -> rd (drop (Z.to_nat n) l) i = rd l (n + i).
Proof. intros Hn Hi. unfold rd. rewrite lookup_drop. do 2 f_equal. lia. Qed.

Lemma Zlen_app {A} (l k : list A) : Zlen (l ++ k) = Zlen l + Zlen k.
Proof. unfold Zlen. rewrite length_app. lia. Qed.

Lemma Zlen_cons {A} (x : A) l : Zlen (x :: l) = 1 + Zlen l.
Proof. unfold Zlen. cbn. lia. Qed.

Lemma Zlen_take {A} (l : list A) n : 0 <= n <= Zlen l -> Zlen (take (Z.to_nat n) l) = n.
Proof. unfold Zlen. rewrite length_take. lia. Qed.

Lemma Zlen_drop {A} (l : list A) n : 0 <= n <= Zlen l -> Zlen (drop (Z.to_nat n) l) = Zlen l - n.
Proof. unfold Zlen. rewrite length_drop. lia. Qed.

(** The C code's [XMEMCPY] into the middle of the buffer. *)
Lemma inserts_app {A} (a l b : list A) : (length l <= length b)%nat ->
  list_inserts (length a) l (a ++ b) = a ++ l ++ drop (length l) b.
Proof.
  intros L. rewrite <- (Nat.add_0_r (length a)), list_inserts_app_r. f_equal.
  rewrite <- (take_drop (length l) b) at 1. apply list_inserts_0_r. rewrite length_take. lia.
Qed.

Lemma list_ext_rd l k : Zlen l = Zlen k -> (forall i, 0 <= i < Zlen l -> rd l i = rd k i) -> l = k.
Proof.
  intros E H. apply list_eq_same_length with (length l); [unfold Zlen in E; lia | reflexivity |].
  intros i x y Hi Hx Hy. specialize (H (Z.of_nat i)). unfold rd, Zlen in H. rewrite Nat2Z.id, Hx, Hy in H.
  apply H. lia.
Qed.

Lemma rd_app_l l l' i : 0 <= i < Zlen l -> rd (l ++ l') i = rd l i.
Proof. intros H. unfold rd, Zlen in *. now rewrite lookup_app_l by lia. Qed.

Lemma rd_app_end l x : rd (l ++ [x]) (Zlen l) = x.
Proof. unfold rd, Zlen. rewrite Nat2Z.id, lookup_app_r, Nat.sub_diag by lia. reflexivity. Qed.

Lemma rd_rev l k : 0 <= k < Zlen l -> rd (rev l) k = rd l (Zlen l - 1 - k).
Proof.
  intros Hk. unfold rd, Zlen in *. f_equal.
  rewrite rev_alt. change (rev_append l []) with (reverse l).
  rewrite reverse_lookup by lia. f_equal. lia.
Qed.

(** Reversing the bytes of a word moves bit [i] within its byte. *)
Lemma be_value_le_bytes_testbit n x i :
  0 <= i < 8 * Z.of_nat n ->
  Z.testbit (be_value (le_bytes n x)) i
  = Z.testbit x (8 * (Z.of_nat n - 1 - i / 8) + i mod 8).
Proof.
  intros Hi. unfold be_value.
  rewrite le_value_testbit by (lia || apply Forall_rev, le_bytes_is_bytes).
  assert (Hd : 0 <= i / 8 < Z.of_nat n) by word_lia.
  rewrite rd_rev; unfold Zlen; rewrite le_bytes_length; [| lia].
  rewrite rd_le_bytes, wrap_testbit, Z.shiftr_spec by word_lia.
  destruct (Z.ltb_spec (i mod 8) 8); [| word_lia]. cbn [andb]. f_equal. lia.
Qed.

(** Case analysis on a bit index below a constant. *)
Ltac index_cases i :=
  match goal with
  | H : 0 <= i < ?n |- _ =>
      let n' := eval vm_compute in n in
      let rec go k :=
        let b := eval vm_compute in (k <? n') in
        match b with
        | true => destruct (Z.eq_dec i k) as [-> |]; [ | let k' := eval vm_compute in (k + 1) in go k' ]
        | false => exfalso; lia
        end in go 0
  end.

(** ** C statements

    A statement transforms the state it runs on and either falls through
    ([None]) or leaves the function with a return code.  State changes made
    before an error return are kept, as in C. *)

Definition stmt (S : Type) : Type := S -> S * option Z.

Section Stmt.
  Context {S : Type}.

Definition skip : stmt S := fun s => (s, None).
Definition ret (r : Z) : stmt S := fun s => (s, Some r).
Definition assign (f : S -> S) : stmt S := fun s => (f s, None).
Definition seq (c d : stmt S) : stmt S :=
  fun s => match c s with (s', None) => d s' | r => r end.
Definition when (b : S -> bool) (c : stmt S) : stmt S :=
  fun s => if b s then c s else (s, None).

(** The value a function body returns: [dflt] when it falls off the end. *)
Definition run (dflt : Z) (c : stmt S) (s : S) : Z * S :=
  match c s with (s', None) => (dflt, s') | (s', Some r) => (r, s') end.

Lemma seq_fall c d s s' :
  seq c d s = (s', None) <-> exists m, c s = (m, None) /\ d m = (s', None).
Proof.
  unfold seq. destruct (c s) as [m [r |]]; split.
  - discriminate.
  - intros (m' & ? & _). discriminate.
  - eauto.
  - intros (m' & E & ?). now injection E as <-.
Qed.

Lemma when_ret_fall b r s s' :
  when b (ret r) s = (s', None) <-> b s = false /\ s' = s.
Proof.
  unfold when, ret. destruct (b s); split; intros H; try (now destruct H); try discriminate.
  - now injection H as <-.
  - destruct H as [_ ->]. reflexivity.
Qed.

Lemma assign_fall f s s' : assign f s = (s', None) <-> s' = f s.
Proof. unfold assign. split; congruence. Qed.

Lemma run_seq_ret r c d s :
  run r (seq c d) s = match c s with (s', None) => run r d s' | (s', Some x) => (x, s') end.
Proof. unfold run, seq. destruct (c s) as [m [x |]]; reflexivity. Qed.

(** A run that returns 0 while every early return carries another code fell
    through. *)
Lemma run_zero_fall c s s' :
  (forall m r, c s = (m, Some r) -> r <> 0) ->
  run 0 c s = (0, s') -> c s = (s', None).
Proof.
  unfold run. intros Hne. destruct (c s) as [m [r |]] eqn:E.
  - intros [= -> ->]. now destruct (Hne s' 0 eq_refl).
  - congruence.
Qed.

End Stmt.

Declare Scope cstmt_scope.
Delimit Scope cstmt_scope with cs.
Notation "c ;; d" := (seq c d) (at level 100, d at level 200, right associativity) : cstmt_scope.
Notation "'IF' b 'RETURN' r" := (when b (ret r)) (at level 60, b at level 9, r at level 9) : cstmt_scope.
Notation "'WHEN' b 'DO' c 'OD'" := (when b c) (at level 0, b at level 9, c at level 200) : cstmt_scope.

Arguments skip {S} s /.

#[local] Open Scope cstmt_scope.

(** A body that returns 0 while its early returns carry other codes: what
    each statement did. *)

Section Run0.
  Context {S : Type}.

Lemma run0_if b r c (m : S) m' : r <> 0 ->
  run 0 (when b (ret r) ;; c) m = (0, m') <-> b m = false /\ run 0 c m = (0, m').
Proof.
  intros Hr. unfold run, seq, when, ret. destruct (b m); split; intros H; try tauto.
  - injection H. contradiction.
  - now destruct H.
Qed.

Lemma run0_if_last b r (m : S) m' : r <> 0 ->
  run 0 (when b (ret r)) m = (0, m') <-> b m = false /\ m' = m.
Proof.
  intros Hr. unfold run, when, ret. destruct (b m); split; intros H.
  - injection H. contradiction.
  - now destruct H.
  - injection H as <-. auto.
  - now destruct H as [_ ->].
Qed.

Lemma run0_assign f c (m : S) m' : run 0 (assign f ;; c) m = (0, m') <-> run 0 c (f m) = (0, m').
Proof. reflexivity. Qed.

Lemma run0_assign_last f (m : S) m' : run 0 (assign f) m = (0, m') <-> m' = f m.
Proof. unfold run, assign. split; [intros [= <-]; reflexivity | intros ->; reflexivity]. Qed.

Lemma run0_when b c d (m : S) m' :
  run 0 (when b c ;; d) m = (0, m') <->
  if b m then run 0 (c ;; d) m = (0, m') else run 0 d m = (0, m').
Proof. unfold run, seq, when. destruct (b m); reflexivity. Qed.

Lemma run0_assoc c d e (m : S) m' :
  run 0 ((c ;; d) ;; e) m = (0, m') <-> run 0 (c ;; (d ;; e)) m = (0, m').
Proof. unfold run, seq. destruct (c m) as [x [r |]]; reflexivity. Qed.

End Run0.

(** ** Return codes (wolfssl/wolfcrypt/error-crypt.h, wolfssl/error-ssl.h) *)

Definition MEMORY_E : Z := -125.
Definition BUFFER_E : Z := -132.
Definition ASN_PARSE_E : Z := -140.
Definition ASN_INPUT_E : Z := -154.
Definition BAD_FUNC_ARG : Z := -173.
Definition BAD_STATE_E : Z := -192.
Definition LENGTH_ONLY_E : Z := -202.
Definition MAC_CMP_FAILED_E : Z := -213.
Definition MEMORY_ERROR : Z := -303.
Definition INCOMPLETE_DATA : Z := -310.
Definition VERSION_ERROR : Z := -326.
Definition SIDE_ERROR : Z := -344.
Definition OCSP_CERT_UNKNOWN : Z := -366.
Definition SEQUENCE_ERROR : Z := -370.
Definition OUT_OF_ORDER_E : Z := -373.
Definition NO_PEER_VERIFY : Z := -378.
Definition SESSION_TICKET_EXPECT_E : Z := -390.
Definition NO_CHANGE_CIPHER_E : Z := -393.
Definition SANITY_MSG_E : Z := -394.
Definition DUPLICATE_MSG_E : Z := -395.
Definition DTLS_TOO_MANY_FRAGMENTS_E : Z := -455.
