(* ===== verification/Misc.v ===== *)
(** * wolfcrypt/src/misc.c: word rotation and byte order, buffer xor and
    clearing, constant-time comparison and selection, opaque encodings

    The portable branches are modelled: the generic rotates, the shift-and-mask
    [ByteReverseWord32], little-endian hosts with 64-bit [wolfssl_word], both
    the [WOLFSSL_USE_ALIGN] and the word-store variants of [c32toa]/[ato32]. *)

From Stdlib Require Import Btauto.
From S2P Require Import Prelude.

#[local] Open Scope Z_scope.

(** ** Rotation and byte reversal *)
Module Rot.
#[local] Open Scope cword_scope.

Definition rotlFixed (x y : Z) : Z := Z.lor (x <<u32 y) (x >>u (32 - y)).
Definition rotrFixed (x y : Z) : Z := Z.lor (x >>u y) (x <<u32 (32 - y)).
Definition rotlFixed16 (x y : Z) : Z := u16 (Z.lor (Z.shiftl x y) (x >>u (16 - y))).
Definition rotrFixed16 (x y : Z) : Z := u16 (Z.lor (x >>u y) (Z.shiftl x (16 - y))).
Definition rotlFixed64 (x y : Z) : Z := Z.lor (x <<u64 y) (x >>u (64 - y)).
Definition rotrFixed64 (x y : Z) : Z := Z.lor (x >>u y) (x <<u64 (64 - y)).

Definition ByteReverseWord32 (value : Z) : Z :=
  let value := Z.lor (Z.land value 0xFF00FF00 >>u 8) (Z.land value 0x00FF00FF <<u32 8) in
  rotlFixed value 16.

(** The branch for 64-bit words without a swap instruction
    ([ByteReverseWord64], [!WOLFCRYPT_SLOW_WORD64]). *)
Definition ByteReverseWord64 (value : Z) : Z :=
  let value := Z.lor (Z.land value 0xFF00FF00FF00FF00 >>u 8)
                     (Z.land value 0x00FF00FF00FF00FF <<u64 8) in
  let value := Z.lor (Z.land value 0xFFFF0000FFFF0000 >>u 16)
                     (Z.land value 0x0000FFFF0000FFFF <<u64 16) in
  rotlFixed64 value 32.

Definition ByteReverseWords (inp : list Z) (byteCount : Z) : list Z :=
  ByteReverseWord32 <$> take (Z.to_nat (byteCount / 4)) inp.

End Rot.

(** ** Buffer operations

    The word-at-a-time loops read and write eight bytes at once through a
    little-endian load and store.  Buffers that take part in one call do not
    overlap; [addr_*] is the address of the first byte. *)
Module Buf.

Definition WOLFSSL_WORD_SIZE : Z := 8.

(** [XorWordsOut]/[XorWords] on [n] words: the xored words, as bytes. *)
Fixpoint XorWords (n : nat) (a b : list Z) : list Z :=
  match n with
  | O => []
  | S n => le_bytes 8 (Z.lxor (le_value (take 8 a)) (le_value (take 8 b)))
           ++ XorWords n (drop 8 a) (drop 8 b)
  end.

(** The bytewise loop [while (count > 0) *o++ = *b++ ^ *m++]. *)
Fixpoint XorBytes (count : nat) (b m : list Z) {struct count} : list Z :=
  match count, b, m with
  | S count, x :: b, y :: m => u8 (Z.lxor x y) :: XorBytes count b m
  | _, _, _ => []
  end.

(** The words and the trailing bytes, from aligned pointers. *)
Definition xor_aligned (b m : list Z) (count : nat) : list Z :=
  let words := (count / 8)%nat in
  XorWords words b m ++
  XorBytes (count mod 8) (drop (8 * words) b) (drop (8 * words) m).

(** [xorbufout(out, buf, mask, count)]: the [count] bytes stored at [out]. *)
Definition xorbufout (addr_o addr_b addr_m : Z) (b m : list Z) (count : nat) : list Z :=
  let al p := Z.land p (WOLFSSL_WORD_SIZE - 1) in
  if (al addr_o =? 0) && (al addr_b =? 0) && (al addr_m =? 0) then
    xor_aligned b m count
  else if (al addr_o =? al addr_b) && (al addr_b =? al addr_m) then
    let pre := Nat.min (Z.to_nat (WOLFSSL_WORD_SIZE - al addr_b)) count in
    XorBytes pre b m ++ xor_aligned (drop pre b) (drop pre m) (count - pre)
  else XorBytes count b m.

(** [xorbuf(buf, mask, count)]: the buffer afterwards; the bytes past
    [count] are not touched. *)
Definition xorbuf (addr_b addr_m : Z) (b m : list Z) (count : nat) : list Z :=
  let al p := Z.land p (WOLFSSL_WORD_SIZE - 1) in
  (if (al addr_b =? 0) && (al addr_m =? 0) then
     xor_aligned b m count
   else if al addr_b =? al addr_m then
     let pre := Nat.min (Z.to_nat (WOLFSSL_WORD_SIZE - al addr_b)) count in
     XorBytes pre b m ++ xor_aligned (drop pre b) (drop pre m) (count - pre)
   else XorBytes count b m) ++ drop count b.

(** [ForceZero(mem, len)]: bytes up to the first [unsigned long] boundary,
    then longs, then the trailing bytes. *)
Definition ForceZero (addr : Z) (mem : list Z) (len : nat) : list Z :=
  let mis := Z.land addr 7 in
  let pre := if mis =? 0 then 0%nat else Nat.min (Z.to_nat (8 - mis)) len in
  let longs := ((len - pre) / 8)%nat in
  let post := ((len - pre) mod 8)%nat in
  let mem := list_inserts 0 (replicate pre 0) mem in
  let mem := list_inserts pre (replicate (8 * longs) 0) mem in
  list_inserts (pre + 8 * longs) (replicate post 0) mem.

(** [ConstantCompare(a, b, length)]. *)
Fixpoint ConstantCompare_loop (a b : list Z) (length : nat) (compareSum : Z) {struct length} : Z :=
  match length, a, b with
  | S n, x :: a, y :: b => ConstantCompare_loop a b n (Z.lor compareSum (Z.lxor x y))
  | _, _, _ => compareSum
  end.

Definition ConstantCompare (a b : list Z) (length : nat) : Z :=
  ConstantCompare_loop a b length 0.

End Buf.

(** ** Constant-time masks

    The arguments are C [int]s; [(word32)a] is [u32 a]. *)
Module CT.
#[local] Open Scope cword_scope.

Definition ctMaskGT (a b : Z) : Z := u8 (((u32 a -u32 u32 b -u32 1) >>u 31) -u32 1).
Definition ctMaskGTE (a b : Z) : Z := u8 (((u32 a -u32 u32 b) >>u 31) -u32 1).
Definition ctMaskIntGTE (a b : Z) : Z := sint 32 (((u32 a -u32 u32 b) >>u 31) -u32 1).
Definition ctMaskWord32GTE (a b : Z) : Z := u32 (((a -u64 b) >>u 63) -u64 1).
Definition ctMaskLT (a b : Z) : Z := u8 (((u32 b -u32 u32 a -u32 1) >>u 31) -u32 1).
Definition ctMaskLTE (a b : Z) : Z := u8 (((u32 b -u32 u32 a) >>u 31) -u32 1).
Definition ctMaskEq (a b : Z) : Z :=
  u8 (Z.land (cnot 8 (ctMaskGT a b)) (cnot 8 (ctMaskLT a b))).
Definition ctMask16GT (a b : Z) : Z := u16 (((u32 a -u32 u32 b -u32 1) >>u 31) -u32 1).
Definition ctMask16GTE (a b : Z) : Z := u16 (((u32 a -u32 u32 b) >>u 31) -u32 1).
Definition ctMask16LT (a b : Z) : Z := u16 (((u32 b -u32 u32 a -u32 1) >>u 31) -u32 1).
Definition ctMask16LTE (a b : Z) : Z := u16 (((u32 b -u32 u32 a) >>u 31) -u32 1).
Definition ctMask16Eq (a b : Z) : Z :=
  u16 (Z.land (cnot 16 (ctMask16GT a b)) (cnot 16 (ctMask16LT a b))).
Definition ctMaskNotEq (a b : Z) : Z := u8 (Z.lor (ctMaskGT a b) (ctMaskLT a b)).
Definition ctMaskSel (m a b : Z) : Z := u8 (Z.lor (Z.land b (cnot 8 (u32 m))) (Z.land a m)).
Definition ctMaskSelInt (m a b : Z) : Z :=
  Z.lor (Z.land b (Z.lnot (sint 8 m))) (Z.land a (sint 8 m)).
Definition ctMaskSelWord32 (m a b : Z) : Z :=
  Z.lor (Z.land b (u32 (Z.lnot (sint 8 m)))) (Z.land a (u32 (sint 8 m))).
Definition ctSetLTE (a b : Z) : Z := u8 ((u32 a -u32 u32 b -u32 1) >>u 31).

Fixpoint ctMaskCopy (mask : Z) (dst src : list Z) (size : nat) {struct size} : list Z :=
  match size, dst, src with
  | S n, d :: dst, s :: src =>
      u8 (Z.lxor d (Z.land (Z.lxor d s) mask)) :: ctMaskCopy mask dst src n
  | _, _, _ => dst
  end.

(** [min]/[max] of two [word32]s. *)
Definition min (a b : Z) : Z :=
  let gte_mask := ctMaskWord32GTE a b in
  Z.lor (Z.land a (cnot 32 gte_mask)) (Z.land b gte_mask).
Definition max (a b : Z) : Z :=
  let gte_mask := ctMaskWord32GTE a b in
  Z.lor (Z.land a gte_mask) (Z.land b (cnot 32 gte_mask)).

End CT.

(** ** Opaque (big-endian) encodings *)
Module Opaque.
#[local] Open Scope cword_scope.

Definition c32to24 (x : Z) : list Z :=
  [u8 (Z.land (x >>u 16) 0xff); u8 (Z.land (x >>u 8) 0xff); u8 (Z.land x 0xff)].
Definition c16toa (x : Z) : list Z :=
  [u8 (Z.land (x >>u 8) 0xff); u8 (Z.land x 0xff)].
(** [WOLFSSL_USE_ALIGN] branch. *)
Definition c32toa_align (x : Z) : list Z :=
  [u8 (Z.land (x >>u 24) 0xff); u8 (Z.land (x >>u 16) 0xff);
   u8 (Z.land (x >>u 8) 0xff); u8 (Z.land x 0xff)].
(** [LITTLE_ENDIAN_ORDER] branch: a word store of the reversed value. *)
Definition c32toa (x : Z) : list Z := le_bytes 4 (Rot.ByteReverseWord32 x).

Definition c24to32 (c : list Z) : Z :=
  Z.lor (Z.lor (rd c 0 <<u32 16) (rd c 1 <<u32 8)) (rd c 2).
Definition ato24 (c : list Z) : Z :=
  Z.lor (Z.lor (rd c 0 <<u32 16) (rd c 1 <<u32 8)) (rd c 2).
Definition ato16 (c : list Z) : Z := u16 (Z.lor (Z.shiftl (rd c 0) 8) (rd c 1)).
Definition ato32_align (c : list Z) : Z :=
  Z.lor (Z.lor (Z.lor (rd c 0 <<u32 24) (rd c 1 <<u32 16)) (rd c 2 <<u32 8)) (rd c 3).
Definition ato32 (c : list Z) : Z := Rot.ByteReverseWord32 (le_value (take 4 c)).
Definition ato32le (c : list Z) : Z :=
  Z.lor (Z.lor (Z.lor (rd c 0) (rd c 1 <<u32 8)) (rd c 2 <<u32 16)) (rd c 3 <<u32 24).

Definition MakeWordFromHash (hashID : list Z) : Z :=
  Z.lor (Z.lor (Z.lor (rd hashID 0 <<u32 24) (rd hashID 1 <<u32 16)) (rd hashID 2 <<u32 8))
        (rd hashID 3).

(** [HexCharToByte]: [ch] is the value of a [char] (signed). *)
Definition HexCharToByte (ch : Z) : Z :=
  let ret := sint 8 ch in
  if (48 <=? ret) && (ret <=? 57) then sint 8 (ret - 48)
  else if (65 <=? ret) && (ret <=? 70) then sint 8 (ret - (65 - 10))
  else if (97 <=? ret) && (ret <=? 102) then sint 8 (ret - (97 - 10))
  else -1.

Definition kHexChar : list Z :=
  [48; 49; 50; 51; 52; 53; 54; 55; 56; 57; 65; 66; 67; 68; 69; 70].
Definition ByteToHex (x : Z) : Z := rd kHexChar (Z.land x 0xF).
Definition ByteToHexStr (x : Z) : list Z := [ByteToHex (u8 (x >>u 4)); ByteToHex (u8 (Z.land x 0xf))].

Definition CharIsWhiteSpace (ch : Z) : Z :=
  Z.land (Z.lor (Z.lor (CT.ctMaskEq ch 32) (CT.ctMaskEq ch 9)) (CT.ctMaskEq ch 10)) 1.

End Opaque.

(** ** Theorems: byte order *)

(** Bit [i] of an expression over constants, one index at a time. *)
#[local] Ltac fold_consts :=
  repeat match goal with
         | |- context [Z.testbit (Z.pos ?p) ?k] =>
             let v := eval vm_compute in (Z.testbit (Z.pos p) k) in
             change (Z.testbit (Z.pos p) k) with v
         | |- context [?a <? ?b] =>
             let v := eval vm_compute in (a <? b) in change (a <? b) with v
         | |- context [?a <=? ?b] =>
             let v := eval vm_compute in (a <=? b) in change (a <=? b) with v
         end.

#[local] Ltac bit_cases i :=
  index_cases i; autorewrite with zbits; fold_consts;
  cbn [andb orb negb xorb]; rewrite ?andb_true_r, ?andb_false_r, ?orb_false_r; reflexivity.

(** Two [w]-bit words with the same bits are equal. *)
Lemma word_bits_eq w x y :
  0 <= w -> is_word w x -> is_word w y ->
  (forall i, 0 <= i < w -> Z.testbit x i = Z.testbit y i) -> x = y.
Proof.
  intros Hw Hx Hy Hb. apply Z.bits_inj'. intros i Hi.
  destruct (Z.lt_ge_cases i w); [now apply Hb |].
  now rewrite (word_testbit_high w x), (word_testbit_high w y) by (lia || assumption).
Qed.

Lemma rotlFixed_is_word x y : 0 <= y <= 32 -> is_word 32 x -> is_word 32 (Rot.rotlFixed x y).
Proof. intros. unfold Rot.rotlFixed. auto 10 with wolf. Qed.

Lemma rotlFixed64_is_word x y : 0 <= y <= 64 -> is_word 64 x -> is_word 64 (Rot.rotlFixed64 x y).
Proof. intros. unfold Rot.rotlFixed64. auto 10 with wolf. Qed.

Lemma be_value_is_word n l : is_bytes l -> 8 * Zlen l = n -> is_word n (be_value l).
Proof.
  intros Hl <-. unfold be_value.
  replace (Zlen l) with (Zlen (rev l)) by (unfold Zlen; now rewrite length_rev).
  now apply le_value_bound, Forall_rev.
Qed.

(** The masked shifts exchange the bits whose indices differ in one bit. *)
Lemma swap8_bits x i :
  0 <= i < 64 ->
  Z.testbit (Z.lor (Z.shiftr (Z.land x 0xFF00FF00FF00FF00) 8)
                   (u64 (Z.shiftl (Z.land x 0x00FF00FF00FF00FF) 8))) i
  = Z.testbit x (Z.lxor i 8).
Proof. intros Hi. bit_cases i. Qed.

Lemma swap16_bits x i :
  0 <= i < 64 ->
  Z.testbit (Z.lor (Z.shiftr (Z.land x 0xFFFF0000FFFF0000) 16)
                   (u64 (Z.shiftl (Z.land x 0x0000FFFF0000FFFF) 16))) i
  = Z.testbit x (Z.lxor i 16).
Proof. intros Hi. bit_cases i. Qed.

Lemma swap8_32_bits x i :
  0 <= i < 32 ->
  Z.testbit (Z.lor (Z.shiftr (Z.land x 0xFF00FF00) 8)
                   (u32 (Z.shiftl (Z.land x 0x00FF00FF) 8))) i
  = Z.testbit x (Z.lxor i 8).
Proof. intros Hi. bit_cases i. Qed.

Lemma rotlFixed_half_bits x i :
  0 <= i < 32 -> is_word 32 x -> Z.testbit (Rot.rotlFixed x 16) i = Z.testbit x (Z.lxor i 16).
Proof.
  intros Hi Hx. rewrite <- (wrap_small 32 x Hx). unfold Rot.rotlFixed. bit_cases i.
Qed.

Lemma rotlFixed64_half_bits x i :
  0 <= i < 64 -> is_word 64 x -> Z.testbit (Rot.rotlFixed64 x 32) i = Z.testbit x (Z.lxor i 32).
Proof.
  intros Hi Hx. rewrite <- (wrap_small 64 x Hx). unfold Rot.rotlFixed64. bit_cases i.
Qed.

Lemma lxor_index w i k : 0 <= w -> is_word w i -> is_word w k -> 0 <= Z.lxor i k < 2 ^ w.
Proof. intros. now apply lxor_is_word. Qed.

(** [ByteReverseWord32] yields the big-endian reading of the bytes of [x]. *)
Lemma ByteReverseWord32_spec x :
  is_word 32 x -> Rot.ByteReverseWord32 x = be_value (le_bytes 4 x).
Proof.
  intros Hx. apply (word_bits_eq 32); [lia | | |].
  - apply rotlFixed_is_word; [lia |]. auto 10 with wolf.
  - apply be_value_is_word; [apply le_bytes_is_bytes | reflexivity].
  - intros i Hi. unfold Rot.ByteReverseWord32.
    rewrite rotlFixed_half_bits, swap8_32_bits by
      (lia || auto 10 with wolf || (apply (lxor_index 5); unfold is_word; lia)).
    rewrite be_value_le_bytes_testbit by (cbn; lia). f_equal. index_cases i; reflexivity.
Qed.

Lemma ByteReverseWord64_spec x :
  is_word 64 x -> Rot.ByteReverseWord64 x = be_value (le_bytes 8 x).
Proof.
  intros Hx. apply (word_bits_eq 64); [lia | | |].
  - apply rotlFixed64_is_word; [lia |]. auto 10 with wolf.
  - apply be_value_is_word; [apply le_bytes_is_bytes | reflexivity].
  - intros i Hi. unfold Rot.ByteReverseWord64.
    assert (H32 : 0 <= Z.lxor i 32 < 64) by (apply (lxor_index 6); unfold is_word; lia).
    assert (H16 : 0 <= Z.lxor (Z.lxor i 32) 16 < 64) by (apply (lxor_index 6); unfold is_word; lia).
    rewrite rotlFixed64_half_bits, swap16_bits, swap8_bits by (lia || auto 10 with wolf).
    rewrite be_value_le_bytes_testbit by (cbn; lia). f_equal. index_cases i; reflexivity.
Qed.


(** The word-store encoders and the byte-store encoders agree, and both
    readings invert them. *)
Lemma c32toa_be x : is_word 32 x -> Opaque.c32toa x = be_bytes 4 x.
Proof.
  intros Hx. unfold Opaque.c32toa, be_bytes. rewrite ByteReverseWord32_spec by exact Hx.
  unfold be_value. 
  assert (B : is_bytes (rev (le_bytes 4 x))) by apply Forall_rev, le_bytes_is_bytes.
  apply le_bytes_value in B. rewrite length_rev, le_bytes_length in B. exact B.
Qed.

Lemma land_ff_u8 x : u8 (Z.land x 0xff) = u8 x.
Proof. change 0xff with (Z.ones 8). rewrite Z.land_ones by lia. now apply (wrap_wrap 8 8). Qed.

Lemma c32toa_align_be x : Opaque.c32toa_align x = be_bytes 4 x.
Proof.
  unfold Opaque.c32toa_align, be_bytes. rewrite !land_ff_u8. cbn [le_bytes rev app].
  now rewrite !Z.shiftr_shiftr by lia.
Qed.

Lemma c32to24_be x : Opaque.c32to24 x = be_bytes 3 x.
Proof.
  unfold Opaque.c32to24, be_bytes. rewrite !land_ff_u8. cbn [le_bytes rev app].
  now rewrite !Z.shiftr_shiftr by lia.
Qed.

Lemma c16toa_be x : Opaque.c16toa x = be_bytes 2 x.
Proof. unfold Opaque.c16toa, be_bytes. now rewrite !land_ff_u8. Qed.

Lemma shl_byte w b n : 0 <= n -> n + 8 <= w -> is_word 8 b -> wrap w (Z.shiftl b n) = Z.shiftl b n.
Proof.
  intros Hn Hw Hb. apply wrap_small. rewrite Z.shiftl_mul_pow2 by lia. unfold is_word in *.
  assert (2 ^ (n + 8) <= 2 ^ w) by (apply Z.pow_le_mono_r; lia).
  rewrite Z.pow_add_r in * by lia. pose proof (Z.pow_pos_nonneg 2 n). nia.
Qed.

Lemma ato32_be c :
  is_bytes c -> (4 <= length c)%nat -> Opaque.ato32 c = be_value (take 4 c).
Proof.
  intros Hc Hl. unfold Opaque.ato32.
  assert (Hb : is_bytes (take 4 c)) by now apply Forall_take.
  assert (L : length (take 4 c) = 4%nat) by (rewrite length_take; lia).
  rewrite ByteReverseWord32_spec.
  - f_equal. rewrite <- L at 1. now apply le_bytes_value.
  - pose proof (le_value_bound _ Hb) as B. unfold Zlen in B. rewrite L in B. exact B.
Qed.

(** Shifted bytes combined by [|]: drop the reductions that cannot wrap and
    compare the two nestings of the same disjunction. *)
#[local] Ltac or_shifts :=
  cbn [rev app le_value];
  rewrite ?Z.shiftl_0_l, ?Z.lor_0_r, ?Z.shiftl_lor, ?Z.shiftl_shiftl by lia;
  change (8 + (8 + 8)) with 24; change (8 + 8) with 16;
  repeat rewrite shl_byte by (lia || assumption);
  apply Z.bits_inj'; intros; rewrite ?Z.lor_spec; btauto.

Lemma ato32_align_be c0 c1 c2 c3 l :
  is_word 8 c0 -> is_word 8 c1 -> is_word 8 c2 -> is_word 8 c3 ->
  Opaque.ato32_align (c0 :: c1 :: c2 :: c3 :: l) = be_value [c0; c1; c2; c3].
Proof.
  intros. unfold be_value.
  change (Opaque.ato32_align _) with
    (Z.lor (Z.lor (Z.lor (u32 (Z.shiftl c0 24)) (u32 (Z.shiftl c1 16))) (u32 (Z.shiftl c2 8))) c3).
  or_shifts.
Qed.

Lemma ato24_be c0 c1 c2 l :
  is_word 8 c0 -> is_word 8 c1 -> is_word 8 c2 ->
  Opaque.ato24 (c0 :: c1 :: c2 :: l) = be_value [c0; c1; c2].
Proof.
  intros. unfold be_value.
  change (Opaque.ato24 _) with
    (Z.lor (Z.lor (u32 (Z.shiftl c0 16)) (u32 (Z.shiftl c1 8))) c2).
  or_shifts.
Qed.

Lemma ato16_be c0 c1 l :
  is_word 8 c0 -> is_word 8 c1 -> Opaque.ato16 (c0 :: c1 :: l) = be_value [c0; c1].
Proof.
  intros. unfold be_value.
  change (Opaque.ato16 _) with (u16 (Z.lor (Z.shiftl c0 8) c1)).
  rewrite wrap_small.
  - or_shifts.
  - rewrite lor_shift_add by (lia || assumption). word_lia.
Qed.

Lemma ato16_take l : is_bytes (take 2 l) -> (2 <= length l)%nat -> Opaque.ato16 l = be_value (take 2 l).
Proof.
  destruct l as [| a [| b l]]; cbn [length]; intros Hb Hl; [lia | lia |].
  apply Forall_cons_1 in Hb as [Ha Hb]. apply Forall_cons_1 in Hb as [Hb _]. now apply ato16_be.
Qed.

(** Opaque encodings: for every 32-bit word the unaligned word store of
    [c32toa] writes the same four bytes as its byte-by-byte variant, the
    big-endian bytes of the word; [ato32] (both variants), [ato24] and [ato16]
    read back what [c32toa], [c32to24] and [c16toa] wrote, whatever follows in
    the buffer, as long as the value fits the width. *)
Theorem opaque_roundtrip x rest :
  is_word 32 x -> is_bytes rest ->
  Opaque.c32toa x = Opaque.c32toa_align x /\
  Opaque.c32toa x = be_bytes 4 x /\
  Opaque.ato32 (Opaque.c32toa x ++ rest) = x /\
  Opaque.ato32_align (Opaque.c32toa x ++ rest) = x /\
  (is_word 24 x -> Opaque.ato24 (Opaque.c32to24 x ++ rest) = x) /\
  (is_word 16 x -> Opaque.ato16 (Opaque.c16toa x ++ rest) = x).
Proof.
  intros Hx Hr. rewrite c32toa_align_be, c32toa_be by exact Hx.
  split; [reflexivity |]. split; [reflexivity |].
  assert (B4 : be_value (be_bytes 4 x) = x) by now rewrite be_value_bytes, wrap_small.
  repeat split.
  - rewrite ato32_be.
    + replace 4%nat with (length (be_bytes 4 x)) at 1 by reflexivity.
      rewrite take_app_length. exact B4.
    + apply is_bytes_app. auto using be_bytes_is_bytes.
    + rewrite length_app, be_bytes_length. lia.
  - etransitivity; [apply ato32_align_be; apply wrap_is_word; lia | exact B4].
  - intros H24. rewrite c32to24_be.
    etransitivity; [apply ato24_be; apply wrap_is_word; lia |].
    etransitivity; [apply (be_value_bytes 3) | now apply wrap_small].
  - intros H16. rewrite c16toa_be.
    etransitivity; [apply ato16_be; apply wrap_is_word; lia |].
    etransitivity; [apply (be_value_bytes 2) | now apply wrap_small].
Qed.

Lemma opaque_roundtrip_witness :
  is_word 32 0x0102 /\ Opaque.ato16 (Opaque.c16toa 0x0102 ++ [7]) = 0x0102.
Proof.
  split; [unfold is_word; lia |].
  apply (opaque_roundtrip 0x0102 [7]); try (unfold is_word; lia).
  constructor; [unfold is_word; lia | constructor].
Defined.

(** ** Theorems: buffers *)

Lemma lxor_bytes_is_bytes a b : is_bytes a -> is_bytes b -> is_bytes (zip_with Z.lxor a b).
Proof.
  intros Ha. revert b. induction Ha as [| x a Hx Ha IH]; intros b Hb; [constructor |].
  destruct Hb as [| y b Hy Hb]; cbn; [constructor |].
  constructor; [auto with wolf | now apply IH].
Qed.

Lemma le_value_lxor a b :
  is_bytes a -> is_bytes b -> length a = length b ->
  le_value (zip_with Z.lxor a b) = Z.lxor (le_value a) (le_value b).
Proof.
  intros Ha. revert b. induction Ha as [| x a Hx Ha IH]; intros b Hb Hl.
  - destruct b; [reflexivity | discriminate].
  - destruct Hb as [| y b Hy Hb]; [discriminate |]. cbn [zip_with le_value].
    injection Hl as Hl. rewrite (IH b Hb Hl). apply Z.bits_inj'. intros i Hi.
    rewrite !Z.lxor_spec, !Z.lor_spec, !shiftl_testbit, !Z.lxor_spec.
    destruct (Z.lt_ge_cases i 8).
    + rewrite !(Z.testbit_neg_r _ (i - 8)) by lia. cbn [xorb].
      now rewrite !andb_false_r, !orb_false_r.
    + rewrite (word_testbit_high 8 x), (word_testbit_high 8 y) by (lia || assumption).
      destruct (Z.leb_spec 0 i); [reflexivity | lia].
Qed.

Lemma XorBytes_spec n b m :
  is_bytes b -> is_bytes m -> Buf.XorBytes n b m = zip_with Z.lxor (take n b) (take n m).
Proof.
  intros Hb. revert n m. induction Hb as [| x b Hx Hb IH]; intros n m Hm; destruct n; try reflexivity.
  destruct Hm as [| y m Hy Hm]; [reflexivity |]. cbn.
  rewrite IH by assumption. f_equal. apply wrap_small. auto with wolf.
Qed.

Lemma XorWords_spec n b m :
  is_bytes b -> is_bytes m -> (8 * n <= length b)%nat -> (8 * n <= length m)%nat ->
  Buf.XorWords n b m = zip_with Z.lxor (take (8 * n) b) (take (8 * n) m).
Proof.
  revert b m. induction n as [| n IH]; intros b m Hb Hm Lb Lm; [reflexivity |].
  cbn [Buf.XorWords]. rewrite IH by (try apply Forall_drop; auto; rewrite length_drop; lia).
  replace (8 * S n)%nat with (8 + 8 * n)%nat by lia.
  rewrite <- !take_take_drop, zip_with_app by (rewrite !length_take; lia). f_equal.
  assert (Tb : is_bytes (take 8 b)) by now apply Forall_take.
  assert (Tm : is_bytes (take 8 m)) by now apply Forall_take.
  rewrite <- le_value_lxor by (auto; rewrite !length_take; lia).
  replace 8%nat with (length (zip_with Z.lxor (take 8 b) (take 8 m))) at 1.
  - apply le_bytes_value. now apply lxor_bytes_is_bytes.
  - rewrite length_zip_with, !length_take. lia.
Qed.

Lemma xor_aligned_spec b m n :
  is_bytes b -> is_bytes m -> (n <= length b)%nat -> (n <= length m)%nat ->
  Buf.xor_aligned b m n = zip_with Z.lxor (take n b) (take n m).
Proof.
  intros Hb Hm Lb Lm. unfold Buf.xor_aligned.
  pose proof (Nat.div_mod_eq n 8) as D.
  rewrite XorWords_spec, XorBytes_spec by (try apply Forall_drop; auto; lia).
  set (q := (n / 8)%nat) in *. set (r := (n mod 8)%nat) in *.
  rewrite D, <- !take_take_drop, zip_with_app by (rewrite !length_take; lia).
  reflexivity.
Qed.

Lemma xor_split_spec b m pre n :
  is_bytes b -> is_bytes m -> (n <= length b)%nat -> (n <= length m)%nat -> (pre <= n)%nat ->
  Buf.XorBytes pre b m ++ Buf.xor_aligned (drop pre b) (drop pre m) (n - pre)
  = zip_with Z.lxor (take n b) (take n m).
Proof.
  intros Hb Hm Lb Lm Hp.
  rewrite XorBytes_spec, xor_aligned_spec by (try apply Forall_drop; auto; rewrite ?length_drop; lia).
  replace n with (pre + (n - pre))%nat at 3 4 by lia.
  rewrite <- !take_take_drop, zip_with_app by (rewrite !length_take; lia). reflexivity.
Qed.

Lemma zip_lxor_involutive (b m : list Z) :
  length b = length m -> zip_with Z.lxor (zip_with Z.lxor b m) m = b.
Proof.
  revert m. induction b as [| x b IH]; intros [| y m] H; try discriminate; [reflexivity |].
  cbn. rewrite IH by now injection H. f_equal.
  now rewrite Z.lxor_assoc, Z.lxor_nilpotent, Z.lxor_0_r.
Qed.

Lemma xorbuf_zip ab am b m n :
  is_bytes b -> is_bytes m -> (n <= length b)%nat -> (n <= length m)%nat ->
  Buf.xorbuf ab am b m n = zip_with Z.lxor (take n b) (take n m) ++ drop n b.
Proof.
  intros Hc Hm Lc Lm. unfold Buf.xorbuf.
  repeat case_match; rewrite ?xor_aligned_spec, ?xor_split_spec, ?XorBytes_spec by
    (auto; lia); reflexivity.
Qed.

Lemma xorbuf_twice ab am cb cm b m n :
  is_bytes b -> is_bytes m -> (n <= length b)%nat -> (n <= length m)%nat ->
  Buf.xorbuf cb cm (Buf.xorbuf ab am b m n) m n = b.
Proof.
  intros Hb Hm Lb Lm. set (z := zip_with Z.lxor (take n b) (take n m)).
  assert (Lz : length z = n) by (unfold z; rewrite length_zip_with, !length_take; lia).
  assert (Bz : is_bytes (z ++ drop n b)).
  { apply is_bytes_app. split; [| now apply Forall_drop].
    apply lxor_bytes_is_bytes; now apply Forall_take. }
  rewrite (xorbuf_zip ab am b) by auto. fold z. rewrite xorbuf_zip by (auto; rewrite length_app, Lz; lia).
  rewrite take_app_length', drop_app_length' by now symmetry.
  rewrite <- (take_drop n b) at 2. f_equal. apply zip_lxor_involutive.
  rewrite !length_take. lia.
Qed.

(** [xorbuf] and [xorbufout] compute the bytewise exclusive or of their
    operands for every combination of pointer alignments: the word-at-a-time
    and the fix-up paths are equivalent to the byte loop, [xorbuf] leaves the
    bytes past [count] alone, and xoring twice with the same mask restores the
    buffer. *)
Theorem xorbuf_spec ab am ao b m n :
  is_bytes b -> is_bytes m -> (n <= length b)%nat -> (n <= length m)%nat ->
  Buf.xorbuf ab am b m n = zip_with Z.lxor (take n b) (take n m) ++ drop n b /\
  Buf.xorbufout ao ab am b m n = zip_with Z.lxor (take n b) (take n m) /\
  Buf.xorbuf ab am (Buf.xorbuf ab am b m n) m n = b.
Proof.
  intros Hb Hm Lb Lm. split; [now apply xorbuf_zip |]. split; [| now apply xorbuf_twice].
  unfold Buf.xorbufout.
  repeat case_match; rewrite ?xor_aligned_spec, ?xor_split_spec, ?XorBytes_spec by
    (auto; lia); reflexivity.
Qed.

Lemma xorbuf_spec_witness :
  Buf.xorbuf 3 11 (Buf.xorbuf 3 11 [1; 2; 3; 4; 5; 6; 7; 8; 9; 10; 11; 12; 13; 14]
    (replicate 14 255) 14) (replicate 14 255) 14 = [1; 2; 3; 4; 5; 6; 7; 8; 9; 10; 11; 12; 13; 14].
Proof.
  apply (xorbuf_spec 3 11 0 [1; 2; 3; 4; 5; 6; 7; 8; 9; 10; 11; 12; 13; 14] (replicate 14 255) 14);
    [ | | cbn; lia | cbn; lia]; repeat constructor; lia.
Defined.

Lemma ConstantCompare_loop_spec n a b acc :
  is_bytes a -> is_bytes b -> (n <= length a)%nat -> (n <= length b)%nat -> is_word 8 acc ->
  is_word 8 (Buf.ConstantCompare_loop a b n acc) /\
  (Buf.ConstantCompare_loop a b n acc = 0 <-> acc = 0 /\ take n a = take n b).
Proof.
  revert a b acc. induction n as [| n IH]; intros a b acc Ha Hb La Lb Hacc.
  { split; [exact Hacc | cbn; intuition congruence]. }
  destruct Ha as [| x a Hx Ha]; [cbn in La; lia |].
  destruct Hb as [| y b Hy Hb]; [cbn in Lb; lia |].
  cbn [Buf.ConstantCompare_loop length take] in *.
  destruct (IH a b (Z.lor acc (Z.lxor x y))) as [R E]; auto with wolf; [lia | lia |].
  split; [exact R |]. rewrite E, Z.lor_eq_0_iff, Z.lxor_eq_0_iff.
  intuition congruence.
Qed.

(** [ConstantCompare] returns 0 exactly when the first [length] bytes of
    its arguments agree (it inspects all of them: the result is the or of all
    byte differences, an [int] in 0..255). *)
Theorem ConstantCompare_zero_iff a b n :
  is_bytes a -> is_bytes b -> (n <= length a)%nat -> (n <= length b)%nat ->
  0 <= Buf.ConstantCompare a b n < 256 /\
  (Buf.ConstantCompare a b n = 0 <-> take n a = take n b).
Proof.
  intros Ha Hb La Lb. unfold Buf.ConstantCompare.
  destruct (ConstantCompare_loop_spec n a b 0) as [R E]; auto; [unfold is_word; lia |].
  split; [exact R | rewrite E; tauto].
Qed.

Lemma ConstantCompare_zero_iff_witness :
  Buf.ConstantCompare [1; 2; 3] [1; 2; 4] 2 = 0 <-> take 2 [1; 2; 3] = take 2 [1; 2; 4].
Proof.
  apply (ConstantCompare_zero_iff [1; 2; 3] [1; 2; 4] 2);
    [ | | cbn; lia | cbn; lia]; repeat constructor; lia.
Defined.

(** [ForceZero] clears exactly the first [len] bytes whatever the
    alignment of the buffer: the byte, long and trailing-byte loops together
    cover the region once and write nothing past it. *)
Theorem ForceZero_clears addr mem len :
  (len <= length mem)%nat -> Buf.ForceZero addr mem len = replicate len 0 ++ drop len mem.
Proof.
  intros Hl. unfold Buf.ForceZero.
  set (mis := Z.land addr 7).
  set (pre := if mis =? 0 then 0%nat else _).
  assert (Hp : (pre <= len)%nat) by (unfold pre; case_match; lia).
  clearbody pre. set (q := ((len - pre) / 8)%nat). set (r := ((len - pre) mod 8)%nat).
  assert (D : len = (pre + (8 * q + r))%nat)
    by (pose proof (Nat.div_mod_eq (len - pre) 8) as E; fold q r in E; lia).
  apply list_eq. intros i.
  assert (Li : forall k m, length (list_inserts k (replicate m 0) mem) = length mem)
    by (intros; apply length_inserts).
  destruct (decide (i < len)%nat) as [Hi | Hi].
  - rewrite lookup_app_l by (rewrite length_replicate; lia).
    rewrite lookup_replicate_2 by lia.
    destruct (decide (pre + 8 * q <= i)%nat).
    { rewrite list_lookup_inserts by (rewrite ?length_replicate, ?length_inserts; lia).
      apply lookup_replicate_2. lia. }
    rewrite list_lookup_inserts_lt by lia. destruct (decide (pre <= i)%nat).
    { rewrite list_lookup_inserts by (rewrite ?length_replicate, ?length_inserts; lia).
      apply lookup_replicate_2. lia. }
    rewrite list_lookup_inserts_lt, list_lookup_inserts by
      (rewrite ?length_replicate, ?length_inserts; lia).
    apply lookup_replicate_2. lia.
  - rewrite lookup_app_r, length_replicate, lookup_drop by (rewrite ?length_replicate; lia).
    rewrite !list_lookup_inserts_ge by (rewrite length_replicate; lia). f_equal. lia.
Qed.

Lemma ForceZero_clears_witness :
  Buf.ForceZero 3 (replicate 16 9) 14 = replicate 14 0 ++ [9; 9].
Proof. apply (ForceZero_clears 3 (replicate 16 9) 14). cbn. lia. Defined.

(** ** Theorems: constant-time masks *)

Definition mask (w : Z) (b : bool) : Z := if b then 2 ^ w - 1 else 0.

Lemma u32_sub x y : u32 (u32 x - u32 y) = u32 (x - y).
Proof. unfold wrap. symmetry. apply Zminus_mod. Qed.

Lemma u32_sub_1 x : u32 (u32 x - 1) = u32 (x - 1).
Proof. unfold wrap. now rewrite Zminus_mod_idemp_l. Qed.

(** The top bit of a difference that fits 32 bits is its sign. *)
Lemma sign_bit_mask w d :
  0 <= w <= 32 -> - 2 ^ 31 <= d < 2 ^ 31 ->
  wrap w (u32 (Z.shiftr (u32 d) 31 - 1)) = mask w (0 <=? d).
Proof.
  intros Hw Hd. unfold mask.
  assert (S : Z.shiftr (u32 d) 31 = if 0 <=? d then 0 else 1).
  { rewrite Z.shiftr_div_pow2 by lia. destruct (Z.leb_spec 0 d); word_lia. }
  rewrite S, wrap_wrap by lia. destruct (0 <=? d).
  - unfold wrap. rewrite <- (Z.mod_add (0 - 1) 1 (2 ^ w)) by (apply Z.pow_nonzero; lia).
    pose proof (Z.pow_pos_nonneg 2 w). rewrite Z.mod_small; lia.
  - apply wrap_0.
Qed.

Lemma mask_cnot w b : 0 <= w -> cnot w (mask w b) = mask w (negb b).
Proof.
  intros Hw. pose proof (Z.pow_pos_nonneg 2 w ltac:(lia) Hw). unfold cnot, mask, wrap, Z.lnot.
  destruct b; cbn [negb].
  - replace (Z.pred (- (2 ^ w - 1))) with (0 + (-1) * 2 ^ w) by lia.
    rewrite Z.mod_add by lia. apply Zmod_0_l.
  - replace (Z.pred (- 0)) with (2 ^ w - 1 + (-1) * 2 ^ w) by lia.
    rewrite Z.mod_add, Z.mod_small by lia. reflexivity.
Qed.

Lemma mask_ones w : mask w true = Z.ones w.
Proof. unfold mask. rewrite Z.ones_equiv. lia. Qed.

Lemma mask_is_word w b : 0 <= w -> is_word w (mask w b).
Proof.
  intros Hw. pose proof (Z.pow_pos_nonneg 2 w ltac:(lia) Hw).
  unfold mask, is_word. destruct b; lia.
Qed.

Lemma land_mask w x b : 0 <= w -> is_word w x -> Z.land x (mask w b) = if b then x else 0.
Proof.
  intros Hw Hx. destruct b.
  - rewrite mask_ones, Z.land_ones by exact Hw. now apply wrap_small.
  - apply Z.land_0_r.
Qed.

Lemma lor_mask w a b : 0 <= w -> Z.lor (mask w a) (mask w b) = mask w (a || b).
Proof.
  intros Hw. destruct a, b; cbn [orb]; rewrite ?Z.lor_diag; try reflexivity.
  apply Z.lor_0_r.
Qed.

#[local] Ltac ct_sign := rewrite ?u32_sub, ?u32_sub_1, sign_bit_mask by lia; f_equal; lia.

Lemma ctMaskGT_mask a b : - 2 ^ 31 < a - b < 2 ^ 31 -> CT.ctMaskGT a b = mask 8 (b <? a).
Proof. intros. unfold CT.ctMaskGT. ct_sign. Qed.

Lemma ctMaskLT_mask a b : - 2 ^ 31 < a - b < 2 ^ 31 -> CT.ctMaskLT a b = mask 8 (a <? b).
Proof. intros. unfold CT.ctMaskLT. ct_sign. Qed.

Lemma ctMask16GT_mask a b : - 2 ^ 31 < a - b < 2 ^ 31 -> CT.ctMask16GT a b = mask 16 (b <? a).
Proof. intros. unfold CT.ctMask16GT. ct_sign. Qed.

Lemma ctMask16LT_mask a b : - 2 ^ 31 < a - b < 2 ^ 31 -> CT.ctMask16LT a b = mask 16 (a <? b).
Proof. intros. unfold CT.ctMask16LT. ct_sign. Qed.

Lemma ctMaskGTE_mask a b : - 2 ^ 31 < a - b < 2 ^ 31 -> CT.ctMaskGTE a b = mask 8 (b <=? a).
Proof. intros. unfold CT.ctMaskGTE. ct_sign. Qed.

Lemma ctMaskLTE_mask a b : - 2 ^ 31 < a - b < 2 ^ 31 -> CT.ctMaskLTE a b = mask 8 (a <=? b).
Proof. intros. unfold CT.ctMaskLTE. ct_sign. Qed.

Lemma ctMaskIntGTE_mask a b :
  - 2 ^ 31 < a - b < 2 ^ 31 -> CT.ctMaskIntGTE a b = if b <=? a then -1 else 0.
Proof.
  intros H. unfold CT.ctMaskIntGTE.
  rewrite u32_sub, <- (wrap_wrap 32 32), sign_bit_mask by lia.
  replace (b <=? a) with (0 <=? a - b) by lia. now destruct (0 <=? a - b).
Qed.

Lemma ctMaskEq_mask a b : - 2 ^ 31 < a - b < 2 ^ 31 -> CT.ctMaskEq a b = mask 8 (a =? b).
Proof.
  intros H. unfold CT.ctMaskEq.
  rewrite ctMaskGT_mask, ctMaskLT_mask, !mask_cnot, land_mask by
    (lia || apply mask_is_word; lia).
  replace (a =? b) with (negb (a <? b) && negb (b <? a)) by lia.
  destruct (negb (a <? b)); cbn [andb]; apply wrap_small, mask_is_word; lia.
Qed.

Lemma ctMask16Eq_mask a b : - 2 ^ 31 < a - b < 2 ^ 31 -> CT.ctMask16Eq a b = mask 16 (a =? b).
Proof.
  intros H. unfold CT.ctMask16Eq.
  rewrite ctMask16GT_mask, ctMask16LT_mask, !mask_cnot, land_mask by
    (lia || apply mask_is_word; lia).
  replace (a =? b) with (negb (a <? b) && negb (b <? a)) by lia.
  destruct (negb (a <? b)); cbn [andb]; apply wrap_small, mask_is_word; lia.
Qed.

Lemma ctSetLTE_bool a b : - 2 ^ 31 < a - b < 2 ^ 31 -> CT.ctSetLTE a b = c_bool (a <=? b).
Proof.
  intros H. unfold CT.ctSetLTE, c_bool. rewrite u32_sub, u32_sub_1, Z.shiftr_div_pow2 by lia.
  destruct (Z.leb_spec a b); word_lia.
Qed.

(** Every constant-time comparison of misc.c returns the all-ones mask
    of its width when the comparison holds and 0 otherwise, for all pairs of
    [int]s whose difference fits an [int] (the arithmetic is done modulo 2^32,
    so outside that range the top bit is no longer the sign). *)
Theorem ct_comparisons_correct a b :
  - 2 ^ 31 < a - b < 2 ^ 31 ->
  CT.ctMaskGT a b = mask 8 (a >? b) /\ CT.ctMaskGTE a b = mask 8 (a >=? b) /\
  CT.ctMaskLT a b = mask 8 (a <? b) /\ CT.ctMaskLTE a b = mask 8 (a <=? b) /\
  CT.ctMaskEq a b = mask 8 (a =? b) /\ CT.ctMaskNotEq a b = mask 8 (negb (a =? b)) /\
  CT.ctMask16GT a b = mask 16 (a >? b) /\ CT.ctMask16GTE a b = mask 16 (a >=? b) /\
  CT.ctMask16LT a b = mask 16 (a <? b) /\ CT.ctMask16LTE a b = mask 16 (a <=? b) /\
  CT.ctMask16Eq a b = mask 16 (a =? b) /\
  CT.ctMaskIntGTE a b = (if a >=? b then -1 else 0) /\
  CT.ctSetLTE a b = c_bool (a <=? b).
Proof.
  intros H. rewrite !Z.gtb_ltb, !Z.geb_leb.
  rewrite ctMaskGT_mask, ctMaskLT_mask, ctMask16GT_mask, ctMask16LT_mask, ctMaskEq_mask,
    ctMask16Eq_mask, ctMaskGTE_mask, ctMaskLTE_mask, ctMaskIntGTE_mask by exact H.
  repeat split; try reflexivity.
  - unfold CT.ctMaskNotEq. rewrite ctMaskGT_mask, ctMaskLT_mask, lor_mask by lia.
    rewrite wrap_small by (apply mask_is_word; lia). f_equal. lia.
  - unfold CT.ctMask16GTE. ct_sign.
  - unfold CT.ctMask16LTE. ct_sign.
  - now apply ctSetLTE_bool.
Qed.

Lemma ct_comparisons_correct_witness : CT.ctMaskGT 5 (-3) = mask 8 (5 >? -3).
Proof. apply (ct_comparisons_correct 5 (-3)). lia. Defined.

Lemma sint8_mask b : sint 8 (mask 8 b) = if b then -1 else 0.
Proof. now destruct b. Qed.

Lemma ctMaskWord32GTE_mask a b :
  is_word 32 a -> is_word 32 b -> CT.ctMaskWord32GTE a b = mask 32 (b <=? a).
Proof.
  intros Ha Hb. unfold CT.ctMaskWord32GTE, mask.
  assert (S : Z.shiftr (u64 (a - b)) 63 = if b <=? a then 0 else 1).
  { rewrite Z.shiftr_div_pow2 by lia. unfold is_word in *. destruct (Z.leb_spec b a); word_lia. }
  rewrite S. now destruct (b <=? a).
Qed.

Lemma ctMaskSel_mask c a b :
  is_word 8 a -> is_word 8 b -> CT.ctMaskSel (mask 8 c) a b = if c then a else b.
Proof.
  intros Ha Hb. unfold CT.ctMaskSel. rewrite (wrap_small 32) by
    (pose proof (mask_is_word 8 c); unfold is_word in *; lia).
  rewrite mask_cnot, !land_mask by (lia || assumption).
  destruct c; cbn [negb]; rewrite ?Z.lor_0_l, ?Z.lor_0_r; now apply wrap_small.
Qed.

(** Constant-time selection: with a mask produced by the comparisons
    above, [ctMaskSel], [ctMaskSelInt] and [ctMaskSelWord32] return their
    first value when the mask is set and the second otherwise, [ctMaskCopy]
    copies the source over the destination or leaves it alone, and the
    branch-free [min]/[max] are the minimum and maximum of two [word32]s. *)
Theorem ct_selection_correct c a b x y dst src n :
  is_word 8 a -> is_word 8 b -> is_word 32 x -> is_word 32 y ->
  is_bytes dst -> is_bytes src -> (n <= length src)%nat -> (n <= length dst)%nat ->
  CT.ctMaskSel (mask 8 c) a b = (if c then a else b) /\
  CT.ctMaskSelInt (mask 8 c) a b = (if c then a else b) /\
  CT.ctMaskSelWord32 (mask 8 c) x y = (if c then x else y) /\
  CT.ctMaskCopy (mask 8 c) dst src n = (if c then take n src else take n dst) ++ drop n dst /\
  CT.min x y = Z.min x y /\ CT.max x y = Z.max x y.
Proof.
  intros Ha Hb Hx Hy Hd Hs Ls Ld. split; [| split; [| split; [| split; [| split]]]].
  - now apply ctMaskSel_mask.
  - unfold CT.ctMaskSelInt. rewrite sint8_mask. destruct c.
    + change (Z.lnot (-1)) with 0. now rewrite Z.land_0_r, Z.land_m1_r, Z.lor_0_l.
    + change (Z.lnot 0) with (-1). now rewrite Z.land_0_r, Z.land_m1_r, Z.lor_0_r.
  - unfold CT.ctMaskSelWord32. rewrite sint8_mask.
    replace (u32 (if c then -1 else 0)) with (mask 32 c) by now destruct c.
    replace (u32 (Z.lnot (if c then -1 else 0))) with (mask 32 (negb c)) by now destruct c.
    rewrite !land_mask by (lia || assumption).
    destruct c; cbn [negb]; now rewrite ?Z.lor_0_l, ?Z.lor_0_r.
  - clear - Hd Hs Ls Ld. revert n Ls Ld. revert dst Hd.
    induction Hs as [| s src Hs Hss IH]; intros dst Hd [| n] Ls Ld; cbn [length] in *; try lia.
    1, 2: now destruct c.
    destruct Hd as [| d dst Hd Hds]; cbn [length] in *; [lia |].
    cbn [CT.ctMaskCopy take drop]. rewrite IH by (auto; lia).
    rewrite land_mask by (lia || auto with wolf). destruct c.
    + rewrite <- Z.lxor_assoc, Z.lxor_nilpotent, Z.lxor_0_l. now rewrite wrap_small.
    + rewrite Z.lxor_0_r. now rewrite wrap_small.
  - unfold CT.min. rewrite ctMaskWord32GTE_mask, mask_cnot, !land_mask by (lia || assumption).
    destruct (Z.leb_spec y x); cbn [negb]; rewrite ?Z.lor_0_l, ?Z.lor_0_r; lia.
  - unfold CT.max. rewrite ctMaskWord32GTE_mask, mask_cnot, !land_mask by (lia || assumption).
    destruct (Z.leb_spec y x); cbn [negb]; rewrite ?Z.lor_0_l, ?Z.lor_0_r; lia.
Qed.

Lemma ct_selection_correct_witness :
  CT.ctMaskCopy (mask 8 true) [1; 2; 3] [4; 5; 6] 2 = [4; 5; 3].
Proof.
  apply (ct_selection_correct true 1 2 3 4 [1; 2; 3] [4; 5; 6] 2);
    try (unfold is_word; lia); try (cbn; lia); repeat constructor; lia.
Defined.

(** [min] alone. *)
Lemma ct_min_spec x y : is_word 32 x -> is_word 32 y -> CT.min x y = Z.min x y.
Proof.
  intros Hx Hy. assert (W : is_word 8 0) by (unfold is_word; lia).
  now destruct (ct_selection_correct true 0 0 x y [] [] 0 W W Hx Hy ltac:(constructor) ltac:(constructor)) as (_ & _ & _ & _ & E & _); [cbn; lia.. |].
Qed.
