(* ===== verification/W64.v ===== *)
(** * wolfcrypt/src/misc.c: the 64-bit integer wrapper [w64wrapper]

    misc.c implements [w64wrapper] twice: over a native [word64]
    ([WORD64_AVAILABLE]) and over two [word32]s.  The class [W64] states what
    its clients (the DTLS 1.3 record layer) may rely on, as equations on the
    value modulo 2^64; both implementations are instances, so every client
    theorem proved against the class holds for both builds. *)

From S2P Require Import Prelude Misc.

#[local] Open Scope Z_scope.

(** ** The operations and their laws *)

Class W64Ops (T : Type) := {
  w64Increment : T -> T;
  w64Decrement : T -> T;
  w64Equal : T -> T -> bool;
  w64GetLow32 : T -> Z;
  w64GetHigh32 : T -> Z;
  w64SetLow32 : T -> Z -> T;
  w64Add32 : T -> Z -> T * bool;        (* the flag: [*wrap] was set to 1 *)
  w64Add : T -> T -> T * bool;
  w64Sub32 : T -> Z -> T * bool;
  w64Sub : T -> T -> T;
  w64GT : T -> T -> bool;
  w64GTE : T -> T -> bool;
  w64LT : T -> T -> bool;
  w64IsZero : T -> bool;
  w64Zero : T;
  w64From32 : Z -> Z -> T;
  w64ShiftRight : T -> Z -> T;
  w64ShiftLeft : T -> Z -> T;
  w64Mul : Z -> Z -> T;
  c64toa : T -> list Z;
  ato64 : list Z -> T
}.

(** The integer a wrapper denotes and the well-formedness of its fields. *)
Class W64Val (T : Type) := {
  w64_val : T -> Z;
  w64_ok : T -> Prop
}.

Class W64 (T : Type) `{W64Ops T, W64Val T} : Prop := {
  w64_range n : w64_ok n -> is_word 64 (w64_val n);
  w64_inj a b : w64_ok a -> w64_ok b -> w64_val a = w64_val b -> a = b;
  w64Increment_val n : w64_ok n ->
    w64_ok (w64Increment n) /\ w64_val (w64Increment n) = u64 (w64_val n + 1);
  w64Decrement_val n : w64_ok n ->
    w64_ok (w64Decrement n) /\ w64_val (w64Decrement n) = u64 (w64_val n - 1);
  w64Equal_val a b : w64_ok a -> w64_ok b -> w64Equal a b = (w64_val a =? w64_val b);
  w64GetLow32_val n : w64_ok n -> w64GetLow32 n = u32 (w64_val n);
  w64GetHigh32_val n : w64_ok n -> w64GetHigh32 n = w64_val n / 2 ^ 32;
  w64SetLow32_val n lo : w64_ok n -> is_word 32 lo ->
    w64_ok (w64SetLow32 n lo) /\
    w64_val (w64SetLow32 n lo) = w64_val n / 2 ^ 32 * 2 ^ 32 + lo;
  w64Add32_val a b : w64_ok a -> is_word 32 b ->
    w64_ok (w64Add32 a b).1 /\ w64_val (w64Add32 a b).1 = u64 (w64_val a + b) /\
    (w64Add32 a b).2 = (2 ^ 64 <=? w64_val a + b);
  w64Add_val a b : w64_ok a -> w64_ok b ->
    w64_ok (w64Add a b).1 /\ w64_val (w64Add a b).1 = u64 (w64_val a + w64_val b) /\
    (w64Add a b).2 = (2 ^ 64 <=? w64_val a + w64_val b);
  w64Sub32_val a b : w64_ok a -> is_word 32 b ->
    w64_ok (w64Sub32 a b).1 /\ w64_val (w64Sub32 a b).1 = u64 (w64_val a - b) /\
    (w64Sub32 a b).2 = (w64_val a <? b);
  w64Sub_val a b : w64_ok a -> w64_ok b ->
    w64_ok (w64Sub a b) /\ w64_val (w64Sub a b) = u64 (w64_val a - w64_val b);
  w64GT_val a b : w64_ok a -> w64_ok b -> w64GT a b = (w64_val b <? w64_val a);
  w64GTE_val a b : w64_ok a -> w64_ok b -> w64GTE a b = (w64_val b <=? w64_val a);
  w64LT_val a b : w64_ok a -> w64_ok b -> w64LT a b = (w64_val a <? w64_val b);
  w64IsZero_val a : w64_ok a -> w64IsZero a = (w64_val a =? 0);
  w64Zero_val : w64_ok w64Zero /\ w64_val w64Zero = 0;
  w64From32_val hi lo : is_word 32 hi -> is_word 32 lo ->
    w64_ok (w64From32 hi lo) /\ w64_val (w64From32 hi lo) = hi * 2 ^ 32 + lo;
  (* a shift by 0 is undefined behaviour in the two-word build, see below *)
  w64ShiftRight_val a n : w64_ok a -> 0 < n < 64 ->
    w64_ok (w64ShiftRight a n) /\ w64_val (w64ShiftRight a n) = w64_val a / 2 ^ n;
  w64ShiftLeft_val a n : w64_ok a -> 0 < n < 64 ->
    w64_ok (w64ShiftLeft a n) /\ w64_val (w64ShiftLeft a n) = u64 (w64_val a * 2 ^ n);
  w64Mul_val a b : is_word 32 a -> is_word 32 b ->
    w64_ok (w64Mul a b) /\ w64_val (w64Mul a b) = a * b;
  c64toa_val a : w64_ok a -> c64toa a = be_bytes 8 (w64_val a);
  ato64_val c : is_bytes c -> (8 <= length c)%nat ->
    w64_ok (ato64 c) /\ w64_val (ato64 c) = be_value (take 8 c)
}.

(** ** [WORD64_AVAILABLE]: one native 64-bit word *)
Module Native.
#[local] Open Scope cword_scope.

Record w64wrapper := mk { n : Z }.

Definition w64Increment (a : w64wrapper) := mk (n a +u64 1).
Definition w64Decrement (a : w64wrapper) := mk (n a -u64 1).
Definition w64Equal (a b : w64wrapper) : bool := n a =? n b.
Definition w64GetLow32 (a : w64wrapper) : Z := u32 (n a).
Definition w64GetHigh32 (a : w64wrapper) : Z := u32 (n a >>u 32).
Definition w64SetLow32 (a : w64wrapper) (low : Z) :=
  mk (Z.lor (Z.land (n a) (cnot 64 0xffffffff)) low).
Definition w64Add32 (a : w64wrapper) (b : Z) : w64wrapper * bool :=
  let a := mk (n a +u64 b) in (a, n a <? b).
Definition w64Add (a b : w64wrapper) : w64wrapper * bool :=
  let a := mk (n a +u64 n b) in (a, n a <? n b).
Definition w64Sub32 (a : w64wrapper) (b : Z) : w64wrapper * bool :=
  (mk (n a -u64 b), n a <? b).
Definition w64Sub (a b : w64wrapper) := mk (n a -u64 n b).
Definition w64GT (a b : w64wrapper) : bool := n b <? n a.
Definition w64GTE (a b : w64wrapper) : bool := n b <=? n a.
Definition w64LT (a b : w64wrapper) : bool := n a <? n b.
Definition w64IsZero (a : w64wrapper) : bool := n a =? 0.
Definition w64Zero := mk 0.
Definition w64From32 (hi lo : Z) := mk (Z.lor (hi <<u64 32) lo).
Definition w64ShiftRight (a : w64wrapper) (shift : Z) := mk (n a >>u shift).
Definition w64ShiftLeft (a : w64wrapper) (shift : Z) := mk (n a <<u64 shift).
Definition w64Mul (a b : Z) := mk (u64 (a * b)).
Definition c64toa (a : w64wrapper) : list Z := le_bytes 8 (Rot.ByteReverseWord64 (n a)).
Definition ato64 (inp : list Z) := mk (Rot.ByteReverseWord64 (le_value (take 8 inp))).

End Native.

(** ** Otherwise: two 32-bit words, [n0] the high and [n1] the low one *)
Module Split.
#[local] Open Scope cword_scope.

Record w64wrapper := mk { n0 : Z; n1 : Z }.

Definition w64Increment (a : w64wrapper) :=
  let a := { a with n1 := n1 a +u32 1 } in
  if n1 a =? 0 then { a with n0 := n0 a +u32 1 } else a.
Definition w64Decrement (a : w64wrapper) :=
  let a := if n1 a =? 0 then { a with n0 := n0 a -u32 1 } else a in
  { a with n1 := n1 a -u32 1 }.
Definition w64Equal (a b : w64wrapper) : bool := (n0 a =? n0 b) && (n1 a =? n1 b).
Definition w64GetLow32 (a : w64wrapper) : Z := n1 a.
Definition w64GetHigh32 (a : w64wrapper) : Z := n0 a.
Definition w64SetLow32 (a : w64wrapper) (low : Z) := { a with n1 := low }.
Definition w64Add32 (a : w64wrapper) (b : Z) : w64wrapper * bool :=
  let a := { a with n1 := n1 a +u32 b } in
  if n1 a <? b then
    let a := { a with n0 := n0 a +u32 1 } in (a, n0 a =? 0)
  else (a, false).
Definition w64Add (a b : w64wrapper) : w64wrapper * bool :=
  let a := { a with n1 := n1 a +u32 n1 b } in
  let '(a, wrap1) :=
    if n1 a <? n1 b then
      let a := { a with n0 := n0 a +u32 1 } in (a, n0 a =? 0)
    else (a, false) in
  let a := { a with n0 := n0 a +u32 n0 b } in
  (a, wrap1 || (n0 a <? n0 b)).
Definition w64Sub32 (a : w64wrapper) (b : Z) : w64wrapper * bool :=
  let underflow := n1 a <? b in
  let a := { a with n1 := n1 a -u32 b } in
  if underflow then ({ a with n0 := n0 a -u32 1 }, n0 a =? 0) else (a, false).
Definition w64Sub (a b : w64wrapper) :=
  let a := if n1 a <? n1 b then { a with n0 := n0 a -u32 1 } else a in
  let a := { a with n1 := n1 a -u32 n1 b } in
  { a with n0 := n0 a -u32 n0 b }.
Definition w64Zero := mk 0 0.
Definition w64GT (a b : w64wrapper) : bool :=
  if n0 b <? n0 a then true else if n0 a =? n0 b then n1 b <? n1 a else false.
Definition w64GTE (a b : w64wrapper) : bool :=
  if n0 b <? n0 a then true else if n0 a =? n0 b then n1 b <=? n1 a else false.
Definition w64IsZero (a : w64wrapper) : bool := (n0 a =? 0) && (n1 a =? 0).
Definition c64toa (a : w64wrapper) : list Z := Opaque.c32toa (n0 a) ++ Opaque.c32toa (n1 a).
Definition ato64 (inp : list Z) := mk (Opaque.ato32 inp) (Opaque.ato32 (drop 4 inp)).
Definition w64From32 (hi lo : Z) := mk hi lo.
Definition w64LT (a b : w64wrapper) : bool :=
  if n0 a <? n0 b then true else if n0 a =? n0 b then n1 a <? n1 b else false.
Definition w64ShiftRight (a : w64wrapper) (shift : Z) :=
  if shift <? 32 then
    let a := { a with n1 := Z.lor (n1 a >>u shift) (n0 a <<u32 (32 - shift)) } in
    { a with n0 := n0 a >>u shift }
  else
    let a := { a with n1 := n0 a >>u (shift - 32) } in
    { a with n0 := 0 }.
Definition w64ShiftLeft (a : w64wrapper) (shift : Z) :=
  if shift <? 32 then
    let a := { a with n0 := Z.lor (n0 a <<u32 shift) (n1 a >>u (32 - shift)) } in
    { a with n1 := n1 a <<u32 shift }
  else
    let a := { a with n0 := n1 a <<u32 (shift - 32) } in
    { a with n1 := 0 }.
Definition w64Mul (a b : Z) :=
  let ltlA := Z.land a 0xFFFF in
  let ltlB := Z.land (a >>u 16) 0xFFFF in
  let ltlC := Z.land b 0xFFFF in
  let ltlD := Z.land (b >>u 16) 0xFFFF in
  let bigA := u32 (ltlA * ltlC) in
  let bigC := u32 (ltlB * ltlC) in
  let bigD := u32 (ltlA * ltlD) in
  let bigB := u32 (ltlB * ltlD) in
  let r := w64From32 0 bigB in
  let r := w64ShiftLeft r 16 in
  let r := (w64Add32 r bigD).1 in
  let r := (w64Add32 r bigC).1 in
  let r := w64ShiftLeft r 16 in
  (w64Add32 r bigA).1.

End Split.

(** ** The implementations satisfy the laws *)

#[export] Instance native_ops : W64Ops Native.w64wrapper := {|
  w64Increment := Native.w64Increment; w64Decrement := Native.w64Decrement;
  w64Equal := Native.w64Equal; w64GetLow32 := Native.w64GetLow32;
  w64GetHigh32 := Native.w64GetHigh32; w64SetLow32 := Native.w64SetLow32;
  w64Add32 := Native.w64Add32; w64Add := Native.w64Add; w64Sub32 := Native.w64Sub32;
  w64Sub := Native.w64Sub; w64GT := Native.w64GT; w64GTE := Native.w64GTE;
  w64LT := Native.w64LT; w64IsZero := Native.w64IsZero; w64Zero := Native.w64Zero;
  w64From32 := Native.w64From32; w64ShiftRight := Native.w64ShiftRight;
  w64ShiftLeft := Native.w64ShiftLeft; w64Mul := Native.w64Mul;
  c64toa := Native.c64toa; ato64 := Native.ato64 |}.

#[export] Instance split_ops : W64Ops Split.w64wrapper := {|
  w64Increment := Split.w64Increment; w64Decrement := Split.w64Decrement;
  w64Equal := Split.w64Equal; w64GetLow32 := Split.w64GetLow32;
  w64GetHigh32 := Split.w64GetHigh32; w64SetLow32 := Split.w64SetLow32;
  w64Add32 := Split.w64Add32; w64Add := Split.w64Add; w64Sub32 := Split.w64Sub32;
  w64Sub := Split.w64Sub; w64GT := Split.w64GT; w64GTE := Split.w64GTE;
  w64LT := Split.w64LT; w64IsZero := Split.w64IsZero; w64Zero := Split.w64Zero;
  w64From32 := Split.w64From32; w64ShiftRight := Split.w64ShiftRight;
  w64ShiftLeft := Split.w64ShiftLeft; w64Mul := Split.w64Mul;
  c64toa := Split.c64toa; ato64 := Split.ato64 |}.

Lemma le_be_bytes n x : le_bytes n (be_value (le_bytes n x)) = be_bytes n x.
Proof.
  unfold be_value, be_bytes.
  pose proof (le_bytes_value (rev (le_bytes n x)) ltac:(apply Forall_rev, le_bytes_is_bytes)) as E.
  now rewrite length_rev, le_bytes_length in E.
Qed.

Lemma le_value_take_word k c :
  is_bytes c -> (k <= length c)%nat -> is_word (8 * Z.of_nat k) (le_value (take k c)).
Proof.
  intros Hc Hl. pose proof (le_value_bound (take k c) ltac:(now apply Forall_take)) as B.
  unfold Zlen in B. rewrite length_take_le in B by exact Hl. exact B.
Qed.

Lemma be_value_take_word k c :
  is_bytes c -> (k <= length c)%nat -> is_word (8 * Z.of_nat k) (be_value (take k c)).
Proof.
  intros Hc Hl. apply be_value_is_word; [now apply Forall_take |].
  unfold Zlen. now rewrite length_take_le by exact Hl.
Qed.

Lemma le_bytes_take k c :
  is_bytes c -> (k <= length c)%nat -> le_bytes k (le_value (take k c)) = take k c.
Proof.
  intros Hc Hl. rewrite <- (length_take_le c k Hl) at 1.
  apply le_bytes_value. now apply Forall_take.
Qed.

Lemma lor_high_low hi lo : is_word 32 lo -> Z.lor (Z.shiftl hi 32) lo = hi * 2 ^ 32 + lo.
Proof. intros H. apply lor_shift_add; [lia | exact H]. Qed.

Lemma clear_low32 x : is_word 64 x -> Z.land x (cnot 64 0xffffffff) = Z.shiftl (x / 2 ^ 32) 32.
Proof.
  intros Hx. change 0xffffffff with (Z.ones 32). unfold cnot.
  rewrite <- Z.shiftr_div_pow2 by lia. apply Z.bits_inj'. intros i Hi.
  rewrite Z.land_spec, wrap_testbit, lnot_testbit, shiftl_testbit, shiftr_testbit by lia.
  destruct (Z.lt_ge_cases i 32).
  - rewrite Z.ones_spec_low by lia. cbn [negb]. rewrite !andb_false_r.
    destruct (Z.leb_spec 0 (i - 32)); [lia |]. now rewrite andb_false_l, andb_false_r.
  - rewrite Z.ones_spec_high by lia.
    destruct (Z.lt_ge_cases i 64).
    + replace (i - 32 + 32) with i by lia. zbits_split; try lia. now rewrite andb_true_r.
    + rewrite (word_testbit_high 64 x i), (word_testbit_high 64 x (i - 32 + 32)) by (lia || assumption).
      now rewrite !andb_false_r.
Qed.

#[export] Instance native_val : W64Val Native.w64wrapper :=
  {| w64_val := Native.n; w64_ok := fun a => is_word 64 (Native.n a) |}.

#[export] Instance native_w64 : W64 Native.w64wrapper.
Proof.
  split; cbn -[le_bytes be_bytes].
  - auto.
  - intros [a] [b] _ _ E. cbn in E. now subst.
  - intros. split; [apply wrap_is_word; lia | reflexivity].
  - intros. split; [apply wrap_is_word; lia | reflexivity].
  - reflexivity.
  - reflexivity.
  - intros [n] H. unfold Native.w64GetHigh32. cbn in *. rewrite Z.shiftr_div_pow2 by lia. word_lia.
  - intros [n] lo H Hlo. unfold Native.w64SetLow32. cbn in *. rewrite clear_low32, lor_high_low by assumption.
    word_lia.
  - intros [n] b H Hb. cbn in *. split; [apply wrap_is_word; lia |]. split; [reflexivity |]. word_lia.
  - intros [n] [m] H Hb. cbn in *. split; [apply wrap_is_word; lia |]. split; [reflexivity |]. word_lia.
  - intros [n] b H Hb. cbn in *. split; [apply wrap_is_word; lia |]. split; reflexivity.
  - intros. split; [apply wrap_is_word; lia | reflexivity].
  - reflexivity.
  - reflexivity.
  - reflexivity.
  - reflexivity.
  - unfold is_word; lia.
  - intros hi lo Hh Hl. unfold Native.w64From32. cbn.
    rewrite (wrap_small 64) by (rewrite Z.shiftl_mul_pow2 by lia; word_lia).
    rewrite lor_high_low by assumption. word_lia.
  - intros [n] k H Hk. cbn in *. rewrite Z.shiftr_div_pow2 by lia. split; [| reflexivity].
    rewrite <- Z.shiftr_div_pow2 by lia. apply shiftr_is_word; lia || assumption.
  - intros [n] k H Hk. cbn in *. rewrite Z.shiftl_mul_pow2 by lia.
    split; [apply wrap_is_word; lia | reflexivity].
  - intros a b Ha Hb. assert (is_word 64 (a * b)) by (unfold is_word in *; nia).
    rewrite wrap_small by assumption. auto.
  - intros [n] H. unfold Native.c64toa. cbn [Native.n] in *. rewrite ByteReverseWord64_spec by assumption.
    apply le_be_bytes.
  - intros c Hc Hl. rewrite ByteReverseWord64_spec by now apply (le_value_take_word 8).
    rewrite le_bytes_take by assumption. split; [now apply (be_value_take_word 8) | reflexivity].
Qed.

#[local] Ltac split_case :=
  intros; repeat match goal with a : Split.w64wrapper |- _ => destruct a end;
  cbn in *; unfold is_word, wrap in *;
  repeat (case_match; simplify_eq; cbn in *); Z.to_euclidean_division_equations; lia.

Definition split_val (a : Split.w64wrapper) : Z := Split.n0 a * 2 ^ 32 + Split.n1 a.
Definition split_ok (a : Split.w64wrapper) : Prop :=
  is_word 32 (Split.n0 a) /\ is_word 32 (Split.n1 a).

Lemma split_Add32_val a b : split_ok a -> is_word 32 b ->
  split_ok (Split.w64Add32 a b).1 /\ split_val (Split.w64Add32 a b).1 = u64 (split_val a + b) /\
  (Split.w64Add32 a b).2 = (2 ^ 64 <=? split_val a + b).
Proof. unfold split_ok, split_val, Split.w64Add32. split_case. Qed.

(** Bits of a two-word shift by [n]: split the index at the word borders;
    each remaining bit is then out of range or the same on both sides. *)
#[local] Ltac shift_bits n :=
  apply Z.bits_inj'; intros i Hi; autorewrite with zbits;
  destruct (Z.lt_ge_cases i 32), (Z.lt_ge_cases i 64), (Z.lt_ge_cases i n),
    (Z.lt_ge_cases i (n + 32)), (Z.lt_ge_cases (i + n) 32), (Z.lt_ge_cases (i + n) 64);
  try lia; zbits_split; try lia;
  repeat match goal with
         | |- context [Z.testbit ?x ?k] => rewrite (Z.testbit_neg_r x k) by lia
         | H : is_word ?w ?x |- context [Z.testbit ?x ?k] =>
             rewrite (word_testbit_high w x k) by (lia || exact H)
         end;
  rewrite ?orb_false_r; cbn [orb]; try reflexivity; f_equal; lia.

Lemma split_ShiftLeft_val a n : split_ok a -> 0 < n < 64 ->
  split_ok (Split.w64ShiftLeft a n) /\ split_val (Split.w64ShiftLeft a n) = u64 (split_val a * 2 ^ n).
Proof.
  intros [H0 H1] Hn. destruct a as [a0 a1]. unfold Split.w64ShiftLeft, split_ok, split_val in *. cbn in *.
  rewrite <- (lor_high_low a0 a1), <- (Z.shiftl_mul_pow2 _ n) by (lia || assumption).
  destruct (Z.ltb_spec n 32); cbn.
  - split; [split; auto with wolf |]. rewrite <- lor_high_low by auto with wolf. shift_bits n.
  - split; [split; [auto with wolf | unfold is_word; lia] |].
    rewrite <- lor_high_low by (unfold is_word; lia). shift_bits n.
Qed.

Lemma split_ShiftRight_val a n : split_ok a -> 0 < n < 64 ->
  split_ok (Split.w64ShiftRight a n) /\ split_val (Split.w64ShiftRight a n) = split_val a / 2 ^ n.
Proof.
  intros [H0 H1] Hn. destruct a as [a0 a1]. unfold Split.w64ShiftRight, split_ok, split_val in *. cbn in *.
  rewrite <- (Z.shiftr_div_pow2 _ n), <- (lor_high_low a0 a1) by (lia || assumption).
  destruct (Z.ltb_spec n 32); cbn.
  - split; [split; auto with wolf |]. rewrite <- lor_high_low by auto with wolf. shift_bits n.
  - split; [split; [unfold is_word; lia | auto with wolf] |]. rewrite Z.mul_0_l, Z.add_0_l. shift_bits n.
Qed.

Lemma mul16_is_word a b : is_word 16 a -> is_word 16 b -> is_word 32 (a * b).
Proof. unfold is_word. nia. Qed.

Lemma split_Mul_val a b : is_word 32 a -> is_word 32 b ->
  split_ok (Split.w64Mul a b) /\ split_val (Split.w64Mul a b) = a * b.
Proof.
  intros Ha Hb. unfold Split.w64Mul. change 0xFFFF with (Z.ones 16). rewrite !Z.land_ones by lia.
  set (a0 := a mod 2 ^ 16). set (b0 := b mod 2 ^ 16).
  set (a1 := Z.shiftr a 16 mod 2 ^ 16). set (b1 := Z.shiftr b 16 mod 2 ^ 16).
  assert (W : is_word 16 a0 /\ is_word 16 a1 /\ is_word 16 b0 /\ is_word 16 b1)
    by (repeat split; apply Z.mod_pos_bound; lia).
  assert (Ea : a = a1 * 2 ^ 16 + a0 /\ b = b1 * 2 ^ 16 + b0)
    by (unfold a1, a0, b1, b0; rewrite !Z.shiftr_div_pow2 by lia; split; word_lia).
  clearbody a0 a1 b0 b1. destruct W as (W1 & W2 & W3 & W4), Ea as [Ea Eb].
  rewrite !(wrap_small 32) by now apply mul16_is_word.
  assert (O1 : split_ok (Split.w64From32 0 (a1 * b1))).
  { split; cbn; [unfold is_word; lia | now apply mul16_is_word]. }
  destruct (split_ShiftLeft_val _ 16 O1 ltac:(lia)) as [O2 V2].
  destruct (split_Add32_val _ (a0 * b1) O2 ltac:(now apply mul16_is_word)) as (O3 & V3 & _).
  destruct (split_Add32_val _ (a1 * b0) O3 ltac:(now apply mul16_is_word)) as (O4 & V4 & _).
  destruct (split_ShiftLeft_val _ 16 O4 ltac:(lia)) as [O5 V5].
  destruct (split_Add32_val _ (a0 * b0) O5 ltac:(now apply mul16_is_word)) as (O6 & V6 & _).
  split; [exact O6 |].
  assert (P : forall u v, is_word 16 u -> is_word 16 v -> 0 <= u * v <= (2 ^ 16 - 1) * (2 ^ 16 - 1))
    by (unfold is_word; nia).
  pose proof (P a1 b1 W2 W4). pose proof (P a0 b1 W1 W4).
  pose proof (P a1 b0 W2 W3). pose proof (P a0 b0 W1 W3).
  assert (V1 : split_val (Split.w64From32 0 (a1 * b1)) = a1 * b1) by reflexivity.
  rewrite V1, wrap_small in V2 by (unfold is_word; lia).
  rewrite V2, wrap_small in V3 by (unfold is_word; lia).
  rewrite V3, wrap_small in V4 by (unfold is_word; lia).
  rewrite V4, wrap_small in V5 by (unfold is_word; lia).
  rewrite V5, wrap_small in V6 by (unfold is_word; lia).
  rewrite V6, Ea, Eb. ring.
Qed.

#[export] Instance split_valI : W64Val Split.w64wrapper :=
  {| w64_val := split_val; w64_ok := split_ok |}.

#[export] Instance split_w64 : W64 Split.w64wrapper.
Proof.
  split; cbn -[le_bytes be_bytes].
  - unfold split_ok, split_val. split_case.
  - intros [a0 a1] [b0 b1] [? ?] [? ?] E. unfold split_val, is_word in *. cbn in *. f_equal; lia.
  - unfold split_ok, split_val, Split.w64Increment. split_case.
  - unfold split_ok, split_val, Split.w64Decrement. split_case.
  - unfold split_ok, split_val, Split.w64Equal. split_case.
  - unfold split_ok, split_val, Split.w64GetLow32. split_case.
  - unfold split_ok, split_val, Split.w64GetHigh32. split_case.
  - unfold split_ok, split_val, Split.w64SetLow32. split_case.
  - exact split_Add32_val.
  - unfold split_ok, split_val, Split.w64Add. split_case.
  - unfold split_ok, split_val, Split.w64Sub32. split_case.
  - unfold split_ok, split_val, Split.w64Sub. split_case.
  - unfold split_ok, split_val, Split.w64GT. split_case.
  - unfold split_ok, split_val, Split.w64GTE. split_case.
  - unfold split_ok, split_val, Split.w64LT. split_case.
  - unfold split_ok, split_val, Split.w64IsZero. split_case.
  - unfold split_ok, split_val, Split.w64Zero. split_case.
  - unfold split_ok, split_val, Split.w64From32. split_case.
  - exact split_ShiftRight_val.
  - exact split_ShiftLeft_val.
  - exact split_Mul_val.
  - intros [a0 a1] [H0 H1]. unfold Split.c64toa, split_val. cbn [Split.n0 Split.n1] in *.
    rewrite !c32toa_be by assumption.
    assert (B : is_bytes (be_bytes 4 a0 ++ be_bytes 4 a1))
      by (apply is_bytes_app; auto using be_bytes_is_bytes).
    rewrite <- (be_bytes_value _ B), length_app, !be_bytes_length.
    rewrite be_value_app, !be_value_bytes, !wrap_small by auto using be_bytes_is_bytes.
    reflexivity.
  - intros c Hc Hl. unfold split_ok, split_val, Split.ato64. cbn [Split.n0 Split.n1].
    assert (Hd : is_bytes (drop 4 c)) by now apply Forall_drop.
    assert (Ld : (4 <= length (drop 4 c))%nat) by (rewrite length_drop; lia).
    rewrite !ato32_be by (auto; lia). split.
    + split; apply (be_value_take_word 4); auto; lia.
    + replace (take 8 c) with (take 4 c ++ take 4 (drop 4 c)) by apply (take_take_drop c 4 4).
      rewrite be_value_app by now apply Forall_take.
      unfold Zlen. rewrite (length_take_le (drop 4 c)) by exact Ld. reflexivity.
Qed.

(** ** Two implementations of the interface simulate each other *)

Section Simulation.
Context {A B : Type} `{W64 A} `{W64 B}.

Definition w64_sim (a : A) (b : B) : Prop := w64_ok a /\ w64_ok b /\ w64_val a = w64_val b.

#[local] Ltac sim_open :=
  intros; repeat match goal with S : w64_sim _ _ |- _ => destruct S as (? & ? & ?) end.

Lemma sim_Increment a b : w64_sim a b -> w64_sim (w64Increment a) (w64Increment b).
Proof. sim_open. destruct (w64Increment_val a), (w64Increment_val b); auto. repeat split; congruence. Qed.

Lemma sim_Decrement a b : w64_sim a b -> w64_sim (w64Decrement a) (w64Decrement b).
Proof. sim_open. destruct (w64Decrement_val a), (w64Decrement_val b); auto. repeat split; congruence. Qed.

Lemma sim_Add32 a b x : w64_sim a b -> is_word 32 x ->
  w64_sim (w64Add32 a x).1 (w64Add32 b x).1 /\ (w64Add32 a x).2 = (w64Add32 b x).2.
Proof.
  sim_open. destruct (w64Add32_val a x) as (? & ? & ?), (w64Add32_val b x) as (? & ? & ?); auto.
  repeat split; congruence.
Qed.

Lemma sim_Add a b c d : w64_sim a b -> w64_sim c d ->
  w64_sim (w64Add a c).1 (w64Add b d).1 /\ (w64Add a c).2 = (w64Add b d).2.
Proof.
  sim_open. destruct (w64Add_val a c) as (? & ? & ?), (w64Add_val b d) as (? & ? & ?); auto.
  repeat split; congruence.
Qed.

Lemma sim_Sub32 a b x : w64_sim a b -> is_word 32 x ->
  w64_sim (w64Sub32 a x).1 (w64Sub32 b x).1 /\ (w64Sub32 a x).2 = (w64Sub32 b x).2.
Proof.
  sim_open. destruct (w64Sub32_val a x) as (? & ? & ?), (w64Sub32_val b x) as (? & ? & ?); auto.
  repeat split; congruence.
Qed.

Lemma sim_Sub a b c d : w64_sim a b -> w64_sim c d -> w64_sim (w64Sub a c) (w64Sub b d).
Proof. sim_open. destruct (w64Sub_val a c), (w64Sub_val b d); auto. repeat split; congruence. Qed.

Lemma sim_ShiftLeft a b n : w64_sim a b -> 0 < n < 64 -> w64_sim (w64ShiftLeft a n) (w64ShiftLeft b n).
Proof. sim_open. destruct (w64ShiftLeft_val a n), (w64ShiftLeft_val b n); auto. repeat split; congruence. Qed.

Lemma sim_ShiftRight a b n : w64_sim a b -> 0 < n < 64 -> w64_sim (w64ShiftRight a n) (w64ShiftRight b n).
Proof. sim_open. destruct (w64ShiftRight_val a n), (w64ShiftRight_val b n); auto. repeat split; congruence. Qed.

Lemma sim_Mul x y : is_word 32 x -> is_word 32 y -> w64_sim (w64Mul x y) (w64Mul x y).
Proof.
  intros. destruct (w64Mul_val (T := A) x y), (w64Mul_val (T := B) x y); auto. repeat split; congruence.
Qed.

Lemma sim_From32 x y : is_word 32 x -> is_word 32 y -> w64_sim (w64From32 x y) (w64From32 x y).
Proof.
  intros. destruct (w64From32_val (T := A) x y), (w64From32_val (T := B) x y); auto.
  repeat split; congruence.
Qed.

Lemma sim_SetLow32 a b x : w64_sim a b -> is_word 32 x -> w64_sim (w64SetLow32 a x) (w64SetLow32 b x).
Proof. sim_open. destruct (w64SetLow32_val a x), (w64SetLow32_val b x); auto. repeat split; congruence. Qed.

Lemma sim_tests a b c d : w64_sim a b -> w64_sim c d ->
  w64Equal a c = w64Equal b d /\ w64GT a c = w64GT b d /\ w64GTE a c = w64GTE b d /\
  w64LT a c = w64LT b d /\ w64IsZero a = w64IsZero b.
Proof.
  sim_open. rewrite !w64Equal_val, !w64GT_val, !w64GTE_val, !w64LT_val, !w64IsZero_val by assumption.
  repeat split; congruence.
Qed.

Lemma sim_parts a b : w64_sim a b ->
  w64GetLow32 a = w64GetLow32 b /\ w64GetHigh32 a = w64GetHigh32 b /\ c64toa a = c64toa b.
Proof.
  sim_open. rewrite !w64GetLow32_val, !w64GetHigh32_val, !c64toa_val by assumption.
  repeat split; congruence.
Qed.

Lemma sim_Zero : w64_sim w64Zero w64Zero.
Proof. destruct (w64Zero_val (T := A)), (w64Zero_val (T := B)). repeat split; congruence. Qed.

Lemma sim_ato64 c : is_bytes c -> (8 <= length c)%nat -> w64_sim (ato64 c) (ato64 c).
Proof. intros Hc Hl. destruct (ato64_val (T := A) c Hc Hl), (ato64_val (T := B) c Hc Hl). repeat split; congruence. Qed.

End Simulation.

(** Conversion unfolds the class projections before the operations. *)
#[local] Strategy 100 [Split.w64Mul Split.w64Add Split.w64Add32 Split.w64Sub32 Split.w64ShiftLeft
  Split.w64ShiftRight Native.w64Mul].

(** [C28] The two builds of [w64wrapper] are interchangeable, on every one of their
    operations: related values (same 64-bit integer) stay related through
    all arithmetic, multiplication, shifts (by 1 to 63 bits: by 0 the two-word build's shift is
    undefined) and assembly from parts, zero and the eight bytes read
    by [ato64] are related, the carry/borrow flags written through [wrap] and all
    tests and parts agree, and [c64toa] emits the same bytes. *)
Theorem split_refines_native (a b : Native.w64wrapper) (a' b' : Split.w64wrapper) x y n c :
  w64_sim a a' -> w64_sim b b' -> is_word 32 x -> is_word 32 y -> 0 < n < 64 -> is_bytes c -> (8 <= length c)%nat ->
  w64_sim (Native.w64Increment a) (Split.w64Increment a') /\
  w64_sim (Native.w64Decrement a) (Split.w64Decrement a') /\
  w64_sim (Native.w64Add32 a x).1 (Split.w64Add32 a' x).1 /\
  (Native.w64Add32 a x).2 = (Split.w64Add32 a' x).2 /\
  w64_sim (Native.w64Add a b).1 (Split.w64Add a' b').1 /\
  (Native.w64Add a b).2 = (Split.w64Add a' b').2 /\
  w64_sim (Native.w64Sub32 a x).1 (Split.w64Sub32 a' x).1 /\
  (Native.w64Sub32 a x).2 = (Split.w64Sub32 a' x).2 /\
  w64_sim (Native.w64Sub a b) (Split.w64Sub a' b') /\
  w64_sim (Native.w64ShiftLeft a n) (Split.w64ShiftLeft a' n) /\
  w64_sim (Native.w64ShiftRight a n) (Split.w64ShiftRight a' n) /\
  w64_sim (Native.w64Mul x y) (Split.w64Mul x y) /\
  w64_sim (Native.w64From32 x y) (Split.w64From32 x y) /\
  w64_sim (Native.w64SetLow32 a x) (Split.w64SetLow32 a' x) /\
  Native.w64Equal a b = Split.w64Equal a' b' /\
  Native.w64GT a b = Split.w64GT a' b' /\
  Native.w64GTE a b = Split.w64GTE a' b' /\
  Native.w64LT a b = Split.w64LT a' b' /\
  Native.w64IsZero a = Split.w64IsZero a' /\
  Native.w64GetLow32 a = Split.w64GetLow32 a' /\
  Native.w64GetHigh32 a = Split.w64GetHigh32 a' /\
  Native.c64toa a = Split.c64toa a' /\
  w64_sim (Native.ato64 c) (Split.ato64 c) /\
  w64_sim Native.w64Zero Split.w64Zero.
Proof.
  intros Ha Hb Hx Hy Hn Hc Hl.
  destruct (sim_Add32 a a' x Ha Hx) as [S1 F1], (sim_Add a a' b b' Ha Hb) as [S2 F2],
    (sim_Sub32 a a' x Ha Hx) as [S3 F3], (sim_tests a a' b b' Ha Hb) as (T1 & T2 & T3 & T4 & T5),
    (sim_parts a a' Ha) as (P1 & P2 & P3).
  pose proof (sim_Mul (A := Native.w64wrapper) (B := Split.w64wrapper) x y Hx Hy) as M1.
  pose proof (sim_From32 (A := Native.w64wrapper) (B := Split.w64wrapper) x y Hx Hy) as M2.
  cbn [w64Mul w64From32 native_ops split_ops] in M1, M2.
  split; [exact (sim_Increment a a' Ha) |]. split; [exact (sim_Decrement a a' Ha) |].
  split; [exact S1 |]. split; [exact F1 |]. split; [exact S2 |]. split; [exact F2 |].
  split; [exact S3 |]. split; [exact F3 |]. split; [exact (sim_Sub a a' b b' Ha Hb) |].
  split; [exact (sim_ShiftLeft a a' n Ha Hn) |]. split; [exact (sim_ShiftRight a a' n Ha Hn) |].
  split; [exact M1 |]. split; [exact M2 |].
  split; [exact (sim_SetLow32 a a' x Ha Hx) |].
  split; [exact T1 |]. split; [exact T2 |]. split; [exact T3 |]. split; [exact T4 |].
  split; [exact T5 |]. split; [exact P1 |]. split; [exact P2 |]. split; [exact P3 |].
  split; [exact (sim_ato64 (A := Native.w64wrapper) (B := Split.w64wrapper) c Hc Hl) | exact (sim_Zero (A := Native.w64wrapper) (B := Split.w64wrapper))].
Qed.

Lemma split_refines_native_witness :
  w64_sim (Native.w64Mul 3 5) (Split.w64Mul 3 5) /\ w64_sim (Native.ato64 [1; 2; 3; 4; 5; 6; 7; 8; 9]) (Split.ato64 [1; 2; 3; 4; 5; 6; 7; 8; 9]).
Proof.
  assert (S : w64_sim (Native.mk (2 ^ 32 + 7)) (Split.mk 1 7)).
  { split; [| split]; [cbn; unfold is_word; lia | split; cbn; unfold is_word; lia | reflexivity]. }
  assert (B : is_bytes [1; 2; 3; 4; 5; 6; 7; 8; 9]) by (repeat constructor; unfold is_word; lia).
  split; apply (split_refines_native _ _ _ _ 3 5 1 [1; 2; 3; 4; 5; 6; 7; 8; 9] S S); try exact B; unfold is_word; cbn; lia.
Defined.
