(* ===== verification/Coding.v ===== *)
(** * wolfcrypt/src/coding.c: Base64, Base16 and UTF-8

    The encoders write to a buffer of a given size, or only count
    ([out == NULL]); the decoders skip blanks and line ends.  Base64 has two decoders,
    one with a table and one in constant time.

    In the decoders the index [j] and the remaining length [inLen] always move
    together, so the model keeps the rest of the input as a list.  The output is
    the list of bytes written to [out], also when the call fails.  The pointers
    the code insists on are not [NULL]; the encoder's [out] may be.

    The specification is RFC 4648 for Base64 ([Rfc4648]) and RFC 3629 for UTF-8
    ([Rfc3629]): both are stated by arithmetic on the value encoded, not by bit
    operations. *)

From S2P Require Import Prelude Misc.
From stdpp Require Import list.

#[local] Open Scope Z_scope.
#[local] Open Scope cword_scope.

Definition BAD : Z := 0xFF.
Definition PAD : Z := 0x3D.
Definition BASE64_MIN : Z := 0x2B.
Definition BASE16_MIN : Z := 0x30.
Definition BASE64_LINE_SZ : Z := 64.
Definition SPACE : Z := 0x20.
Definition CR : Z := 0x0D.
Definition LF : Z := 0x0A.

(** ** Base64: decoding *)

Definition Base64_Char2Val_CT (c : Z) : Z :=
  let smallEnd := c - 0x7b in
  let smallStart := c - 0x61 in
  let bigEnd := c - 0x5b in
  let bigStart := c - 0x41 in
  let numEnd := c - 0x3a in
  let numStart := c - 0x30 in
  let slashEnd := c - 0x30 in
  let slashStart := c - 0x2f in
  let plusEnd := c - 0x2c in
  let plusStart := c - 0x2b in
  let pick s e v := Z.land (Z.lxor (Z.shiftr s 8) (Z.shiftr e 8)) v in
  let v := pick smallStart smallEnd (smallStart + 26 + 1) in
  let v := Z.lor v (pick bigStart bigEnd (bigStart + 0 + 1)) in
  let v := Z.lor v (pick numStart numEnd (numStart + 52 + 1)) in
  let v := Z.lor v (pick slashStart slashEnd (slashStart + 63 + 1)) in
  let v := Z.lor v (pick plusStart plusEnd (plusStart + 62 + 1)) in
  u8 (v - 1).

Definition base64Decode_table : list Z :=
  [62; BAD; BAD; BAD; 63;
   52; 53; 54; 55; 56; 57; 58; 59;
   60; 61; BAD; BAD; BAD; BAD; BAD; BAD;
   BAD; 0; 1; 2; 3; 4; 5; 6;
   7; 8; 9; 10; 11; 12; 13; 14;
   15; 16; 17; 18; 19; 20; 21; 22;
   23; 24; 25; BAD; BAD; BAD; BAD; BAD;
   BAD; 26; 27; 28; 29; 30; 31; 32;
   33; 34; 35; 36; 37; 38; 39; 40;
   41; 42; 43; 44; 45; 46; 47; 48;
   49; 50; 51].

Definition BASE64DECODE_TABLE_SZ : Z := u8 (Zlen base64Decode_table).

(** The table, directly or (with [WC_CACHE_RESISTANT_BASE64_TABLE]) reading
    both cache lines every time.  [None]: outside of the table. *)
Definition Base64_Char2Val_by_table (cache_resistant : bool) (c : Z) : option Z :=
  if cache_resistant then
    let c := u8 (c - BASE64_MIN) in
    let mask := u8 (Z.shiftr (u8 (0x3f - c)) 7 - 1) in
    a ← base64Decode_table !! Z.to_nat (Z.land c 0x3f);
    b ← base64Decode_table !! Z.to_nat (Z.lor (Z.land c 0x0f) 0x40);
    Some (u8 (Z.lor (u8 (Z.land a mask)) (u8 (Z.land b (Z.lnot mask)))))
  else if BASE64_MIN <=? c then base64Decode_table !! Z.to_nat (c - BASE64_MIN) else None.

(** [while (len > 1 && curChar == ' ')] *)
Fixpoint skip_spaces (rest : list Z) : list Z :=
  match rest with
  | c :: ((_ :: _) as t) => if c =? SPACE then skip_spaces t else rest
  | _ => rest
  end.

(** [while (len && curChar == ' ')] *)
Fixpoint skip_all_spaces (rest : list Z) : list Z :=
  match rest with
  | c :: t => if c =? SPACE then skip_all_spaces t else rest
  | [] => []
  end.

(** [Base64_SkipNewline]: an error, or the input from the next character on. *)
Definition Base64_SkipNewline (rest : list Z) : Z + list Z :=
  match rest with
  | [] => inl BUFFER_E
  | _ =>
      let rest := skip_spaces rest in
      match rest with
      | [] => inl BUFFER_E
      | curChar :: t =>
          let r :=
            if curChar =? CR then
              match t with
              | c :: t' => if c =? LF then inr t' else inl ASN_INPUT_E
              | [] => inl ASN_INPUT_E
              end
            else if curChar =? LF then inr t
            else inr rest in
          match r with
          | inl e => inl e
          | inr rest =>
              match skip_all_spaces rest with
              | [] => inl BUFFER_E
              | rest => inr rest
              end
          end
      end
  end.

(** What is done with a group of four characters: the test of the two
    implementations, [None] for [ASN_INPUT_E], and the values. *)
Definition quad := (Z * Z * Z * Z)%type.

Definition convert_by_table (cache_resistant : bool) (q : quad) : option quad :=
  let '(e1, e2, e3, e4) := q in
  let maxIdx := BASE64DECODE_TABLE_SZ + BASE64_MIN - 1 in
  if (e1 <? BASE64_MIN) || (e2 <? BASE64_MIN) || (e3 <? BASE64_MIN) || (e4 <? BASE64_MIN) then None
  else if (e1 >? maxIdx) || (e2 >? maxIdx) || (e3 >? maxIdx) || (e4 >? maxIdx) then None
  else
    v1 ← Base64_Char2Val_by_table cache_resistant e1;
    v2 ← Base64_Char2Val_by_table cache_resistant e2;
    v3 ← (if e3 =? PAD then Some 0 else Base64_Char2Val_by_table cache_resistant e3);
    v4 ← (if e4 =? PAD then Some 0 else Base64_Char2Val_by_table cache_resistant e4);
    if (v1 =? BAD) || (v2 =? BAD) || (v3 =? BAD) || (v4 =? BAD) then None
    else Some (v1, v2, v3, v4).

Definition convert_CT (q : quad) : option quad :=
  let '(e1, e2, e3, e4) := q in
  let v1 := Base64_Char2Val_CT e1 in
  let v2 := Base64_Char2Val_CT e2 in
  let v3 := if e3 =? PAD then 0 else Base64_Char2Val_CT e3 in
  let v4 := if e4 =? PAD then 0 else Base64_Char2Val_CT e4 in
  if (v1 =? BAD) || (v2 =? BAD) || (v3 =? BAD) || (v4 =? BAD) then None
  else Some (v1, v2, v3, v4).

Section Decode.
  Variable convert : quad -> option quad.

(** Skip to the next character and take it. *)
Definition next_char (rest : list Z) : Z + Z * list Z :=
  match Base64_SkipNewline rest with
  | inl e => inl e
  | inr [] => inl BUFFER_E
  | inr (c :: t) => inr (c, t)
  end.

(** The second to fourth character of a group. *)
Definition next3 (rest : list Z) : Z + Z * Z * Z * list Z :=
  match next_char rest with
  | inl e => inl e
  | inr (e2, rest) =>
      match next_char rest with
      | inl e => inl e
      | inr (e3, rest) =>
          match next_char rest with
          | inl e => inl e
          | inr (e4, rest) => inr (e2, e3, e4, rest)
          end
      end
  end.

(** What is done with a group: an error, or the output and whether to go on. *)
Definition decode_group (outLen : Z) (q : quad) (out : list Z) : Z + list Z * bool :=
  let '(_, _, e3, e4) := q in
  let pad3 := e3 =? PAD in
  let pad4 := e4 =? PAD in
  if pad3 && negb pad4 then inl ASN_INPUT_E
  else
    match convert q with
    | None => inl ASN_INPUT_E
    | Some (v1, v2, v3, v4) =>
        if u32 (Zlen out + 1 + c_bool (negb pad3) + c_bool (negb pad4)) >? outLen then inl BUFFER_E
        else
          let b1 := u8 (Z.lor (Z.shiftl v1 2) (Z.shiftr v2 4)) in
          let b2 := u8 (Z.lor (Z.shiftl (Z.land v2 0xF) 4) (Z.shiftr v3 2)) in
          let b3 := u8 (Z.lor (Z.shiftl (Z.land v3 0x3) 6) v4) in
          let out := out ++ [b1] in
          let out := if pad3 then out else out ++ [b2] in
          if pad4 then inr (out, false) else inr (out ++ [b3], true)
    end.

(** [while (inLen > 3)]: an error with what was written, or the rest of the
    input and the output.  [fuel] bounds the number of groups. *)
Fixpoint decode_loop (fuel : nat) (outLen : Z) (rest out : list Z) : option (Z * list Z + list Z * list Z) :=
  if Zlen rest >? 3 then
    match fuel with
    | O => None
    | S fuel =>
        match next_char rest with
        | inl e => Some (if e =? BUFFER_E then inr (rest, out) else inl (e, out))
        | inr (e1, t) =>
            if e1 =? 0 then Some (inr ([], out))
            else
              match next3 t with
              | inl e => Some (inl (e, out))
              | inr (e2, e3, e4, t) =>
                  match decode_group outLen (e1, e2, e3, e4) out with
                  | inl e => Some (inl (e, out))
                  | inr (out, true) => decode_loop fuel outLen t out
                  | inr (out, false) => Some (inr (t, out))
                  end
              end
        end
    end
  else Some (inr (rest, out)).

(** What follows the groups: only blanks, line ends or a null byte. *)
Fixpoint decode_tail (fuel : nat) (rest : list Z) : option Z :=
  match rest with
  | [] => Some 0
  | c :: _ =>
      match fuel with
      | O => None
      | S fuel =>
          if c =? 0 then Some 0
          else
            match Base64_SkipNewline rest with
            | inl e => Some (if e =? BUFFER_E then 0 else e)
            | inr rest' => if Zlen rest' =? Zlen rest then Some ASN_INPUT_E else decode_tail fuel rest'
            end
      end
  end.

(** The decoder: the code, what is in [out] (with the terminating null byte
    when there is room) and [*outLen]. *)
Definition decode (inp : list Z) (outLen : Z) : option (Z * list Z * Z) :=
  r ← decode_loop (length inp) outLen inp [];
  match r with
  | inl (e, out) => Some (e, out, outLen)
  | inr (rest, out) =>
      ret ← decode_tail (length rest) rest;
      if negb (ret =? 0) then Some (ret, out, outLen)
      else Some (0, (if outLen >? Zlen out then out ++ [0] else out), Zlen out)
  end.

End Decode.

Definition Base64_Decode : list Z -> Z -> option (Z * list Z * Z) := decode convert_CT.
Definition Base64_Decode_nonCT (cache_resistant : bool) : list Z -> Z -> option (Z * list Z * Z) :=
  decode (convert_by_table cache_resistant).

(** ** Base64: encoding *)

Definition WC_STD_ENC : Z := 0.
Definition WC_ESC_NL_ENC : Z := 1.
Definition WC_NO_NL_ENC : Z := 2.

Definition base64Encode : list Z :=
  [0x41; 0x42; 0x43; 0x44; 0x45; 0x46; 0x47; 0x48; 0x49; 0x4A;
   0x4B; 0x4C; 0x4D; 0x4E; 0x4F; 0x50; 0x51; 0x52; 0x53; 0x54;
   0x55; 0x56; 0x57; 0x58; 0x59; 0x5A;
   0x61; 0x62; 0x63; 0x64; 0x65; 0x66; 0x67; 0x68; 0x69; 0x6A;
   0x6B; 0x6C; 0x6D; 0x6E; 0x6F; 0x70; 0x71; 0x72; 0x73; 0x74;
   0x75; 0x76; 0x77; 0x78; 0x79; 0x7A;
   0x30; 0x31; 0x32; 0x33; 0x34; 0x35; 0x36; 0x37; 0x38; 0x39;
   0x2B; 0x2F].

(** The state of the encoder: the index [i] and what is in [out]. *)
Definition enc_state := (Z * list Z)%type.

Section Encode.
  Context (escaped maxSz : Z) (getSzOnly : bool).

Definition CEscape (e : Z) (raw : bool) (s : enc_state) : Z * enc_state :=
  let '(idx, out) := s in
  match (if raw then Some e else base64Encode !! Z.to_nat e) with
  | None => (BAD_FUNC_ARG, s)
  | Some basic =>
      let plus := (escaped =? WC_ESC_NL_ENC) && (basic =? 0x2B) in
      let equals := (escaped =? WC_ESC_NL_ENC) && (basic =? PAD) in
      let newline := (escaped =? WC_ESC_NL_ENC) && (basic =? LF) in
      let doEscape := plus || equals || newline in
      let needed := if doEscape then 3 else 1 in
      if (u32 (idx + needed) >? maxSz) && negb getSzOnly then (BUFFER_E, s)
      else if negb doEscape then (0, (u32 (idx + 1), if getSzOnly then out else out ++ [basic]))
      else
        (0, (u32 (idx + 3),
             if getSzOnly then out
             else out ++ 0x25 :: (if plus then [0x32; 0x42] else if equals then [0x33; 0x44] else [0x30; 0x41])))
  end.

(** Stop at the first error. *)
Definition andthen (r : Z * enc_state) (k : enc_state -> Z * enc_state) : Z * enc_state :=
  if fst r =? 0 then k (snd r) else r.

Definition encode_group (b1 b2 b3 : Z) (s : enc_state) : Z * enc_state :=
  let e1 := Z.shiftr b1 2 in
  let e2 := u8 (Z.lor (Z.shiftl (Z.land b1 0x3) 4) (Z.shiftr b2 4)) in
  let e3 := u8 (Z.lor (Z.shiftl (Z.land b2 0xF) 2) (Z.shiftr b3 6)) in
  let e4 := Z.land b3 0x3F in
  andthen (andthen (andthen (CEscape e1 false s) (CEscape e2 false)) (CEscape e3 false)) (CEscape e4 false).

(** [while (inLen > 2)]: the code, the rest of the input and the state. *)
Fixpoint encode_loop (n : Z) (inp : list Z) (s : enc_state) : Z * list Z * enc_state :=
  match inp with
  | b1 :: b2 :: b3 :: rest =>
      let '(ret, s) := encode_group b1 b2 b3 s in
      if negb (ret =? 0) then (ret, inp, s)
      else if negb (escaped =? WC_NO_NL_ENC) then
        let n := u32 (n + 1) in
        if (n mod (BASE64_LINE_SZ / 4) =? 0) && (0 <? Zlen rest) then
          let '(ret, s) := CEscape LF true s in
          if negb (ret =? 0) then (ret, rest, s) else encode_loop n rest s
        else encode_loop n rest s
      else encode_loop n rest s
  | _ => (0, inp, s)
  end.

(** The last one or two bytes. *)
Definition encode_last (inp : list Z) (s : enc_state) : Z * enc_state :=
  match inp with
  | [] => (0, s)
  | b1 :: t =>
      let twoBytes := Zlen inp =? 2 in
      let b2 := if twoBytes then rd t 0 else 0 in
      let e1 := Z.shiftr b1 2 in
      let e2 := u8 (Z.lor (Z.shiftl (Z.land b1 0x3) 4) (Z.shiftr b2 4)) in
      let e3 := u8 (Z.shiftl (Z.land b2 0xF) 2) in
      andthen (andthen (andthen (CEscape e1 false s) (CEscape e2 false))
                 (if twoBytes then CEscape e3 false else CEscape PAD true))
        (CEscape PAD true)
  end.

End Encode.

(** The size the code asks for. *)
Definition encoded_size (inLen escaped : Z) : Z :=
  let outSz := (inLen + 3 - 1) / 3 * 4 in
  let addSz := (outSz + BASE64_LINE_SZ - 1) / BASE64_LINE_SZ in
  let addSz := if escaped =? WC_ESC_NL_ENC then addSz * 3
               else if escaped =? WC_NO_NL_ENC then 0 else addSz in
  outSz + addSz.

(** [DoBase64_Encode]: the code, what is in [out] and [*outLen];
    [getSzOnly] is [out == NULL]. *)
Definition DoBase64_Encode (inp : list Z) (getSzOnly : bool) (outLen escaped : Z) : Z * list Z * Z :=
  if Zlen inp >=? 0xFFFFFFFF / 4 then (BAD_FUNC_ARG, [], outLen)
  else
    let outSz := u32 (encoded_size (Zlen inp) escaped) in
    if (outSz >? outLen) && negb getSzOnly then (BAD_FUNC_ARG, [], outLen)
    else
      let '(ret, rest, s) := encode_loop escaped outLen getSzOnly 0 inp (0, []) in
      let '(ret, s) := if (0 <? Zlen rest) && (ret =? 0) then encode_last escaped outLen getSzOnly rest s
                       else (ret, s) in
      let '(ret, (i, out)) :=
        if (ret =? 0) && negb (escaped =? WC_NO_NL_ENC) then CEscape escaped outLen getSzOnly LF true s
        else (ret, s) in
      if negb (i =? outSz) && negb (escaped =? 1) && (ret =? 0) then (ASN_INPUT_E, out, outLen)
      else
        let out := if negb getSzOnly && (outLen >? i) then out ++ [0] else out in
        ((if (ret =? 0) && getSzOnly then LENGTH_ONLY_E else ret), out, i).

Definition Base64_Encode inp getSzOnly outLen := DoBase64_Encode inp getSzOnly outLen WC_STD_ENC.
Definition Base64_EncodeEsc inp getSzOnly outLen := DoBase64_Encode inp getSzOnly outLen WC_ESC_NL_ENC.
Definition Base64_Encode_NoNl inp getSzOnly outLen := DoBase64_Encode inp getSzOnly outLen WC_NO_NL_ENC.

(** ** Base16 *)

Definition hexDecode : list Z :=
  [0; 1; 2; 3; 4; 5; 6; 7; 8; 9;
   BAD; BAD; BAD; BAD; BAD; BAD; BAD;
   10; 11; 12; 13; 14; 15;
   BAD; BAD; BAD; BAD; BAD; BAD; BAD; BAD;
   BAD; BAD; BAD; BAD; BAD; BAD; BAD; BAD;
   BAD; BAD; BAD; BAD; BAD; BAD; BAD; BAD;
   BAD; BAD;
   10; 11; 12; 13; 14; 15].

(** One hexadecimal digit: the sanity check and the table. *)
Definition hex_digit (c : Z) : option Z :=
  let b := u8 (c - BASE16_MIN) in
  if b >=? Zlen hexDecode then None
  else let b := rd hexDecode b in if b =? BAD then None else Some b.

(** The pairs: an error with what was written, or the output. *)
Fixpoint hex_pairs (inp out : list Z) : Z * list Z :=
  match inp with
  | c :: c2 :: rest =>
      match hex_digit c, hex_digit c2 with
      | Some b, Some b2 => hex_pairs rest (out ++ [u8 (Z.lor (Z.shiftl b 4) b2)])
      | _, _ => (ASN_INPUT_E, out)
      end
  | _ => (0, out)
  end.

Definition Base16_Decode (inp : list Z) (outLen : Z) : Z * list Z * Z :=
  if (Zlen inp =? 1) && negb (outLen =? 0) then
    match hex_digit (rd inp 0) with
    | None => (ASN_INPUT_E, [], outLen)
    | Some b => (0, [b], 1)
    end
  else if negb (Zlen inp mod 2 =? 0) then (BAD_FUNC_ARG, [], outLen)
  else if outLen <? Zlen inp / 2 then (BUFFER_E, [], outLen)
  else
    let '(ret, out) := hex_pairs inp [] in
    if ret =? 0 then (0, out, Zlen out) else (ret, out, outLen).

Definition hexEncode : list Z :=
  [0x30; 0x31; 0x32; 0x33; 0x34; 0x35; 0x36; 0x37;
   0x38; 0x39; 0x41; 0x42; 0x43; 0x44; 0x45; 0x46].

(** The terminating null byte is counted in [*outLen]. *)
Definition Base16_Encode (inp : list Z) (outLen : Z) : Z * list Z * Z :=
  if Zlen inp >? 0xFFFFFFFF / 2 then (BAD_FUNC_ARG, [], outLen)
  else if outLen <? 2 * Zlen inp then (BAD_FUNC_ARG, [], outLen)
  else
    let out := flat_map (fun b => [rd hexEncode (Z.shiftr b 4); rd hexEncode (Z.land b 0x0f)]) inp in
    let out := if outLen >? Zlen out then out ++ [0] else out in
    (0, out, Zlen out).

(** ** UTF-8 *)

Definition WC_UNICODE_MAX_CODEPOINT : Z := 0x10FFFF.
Definition WC_UTF16_HI_SURROGATE_MIN : Z := 0xD800.
Definition WC_UTF16_LO_SURROGATE_MAX : Z := 0xDFFF.

(** The lead octet: how many octets follow, the least code point of the form
    and the bits of the code point in it. *)
Definition utf8_lead (c : Z) : option (Z * Z * Z) :=
  if Z.land c 0xE0 =? 0xC0 then Some (1, 0x80, Z.land c 0x1F)
  else if Z.land c 0xF0 =? 0xE0 then Some (2, 0x800, Z.land c 0x0F)
  else if Z.land c 0xF8 =? 0xF0 then Some (3, 0x10000, Z.land c 0x07)
  else None.

(** [for (i = 1; i <= need; i++)] over the octets that follow: an error or
    the code point. *)
Fixpoint utf8_continue (need : nat) (rest : list Z) (c : Z) : Z + Z :=
  match need with
  | O => inr c
  | S need =>
      match rest with
      | [] => inl BUFFER_E
      | b :: rest =>
          if negb (Z.land b 0xC0 =? 0x80) then inl ASN_INPUT_E
          else utf8_continue need rest (Z.lor (u32 (Z.shiftl c 6)) (Z.land b 0x3F))
      end
  end.

(** An error, or the new [*inOutIdx] and the code point. *)
Definition wc_Utf8_DecodeChar (inp : list Z) (idx : Z) : Z + Z * Z :=
  if idx >=? Zlen inp then inl BUFFER_E
  else
    let c := rd inp idx in
    if c <? 0x80 then inr (u32 (idx + 1), c)
    else
      match utf8_lead c with
      | None => inl ASN_INPUT_E
      | Some (need, minCp, c) =>
          if Zlen inp - idx <=? need then inl BUFFER_E
          else
            match utf8_continue (Z.to_nat need) (skipn (Z.to_nat (idx + 1)) inp) c with
            | inl e => inl e
            | inr c =>
                if (c <? minCp) || (c >? WC_UNICODE_MAX_CODEPOINT) ||
                   ((c >=? WC_UTF16_HI_SURROGATE_MIN) && (c <=? WC_UTF16_LO_SURROGATE_MAX))
                then inl ASN_INPUT_E
                else inr (u32 (u32 (idx + need) + 1), c)
            end
      end.

(** ** The specifications *)

Module Rfc4648.

(** Table 1 of RFC 4648: A-Z, a-z, 0-9, + and /. *)
Definition alphabet : list Z := seqZ 0x41 26 ++ seqZ 0x61 26 ++ seqZ 0x30 10 ++ [0x2B; 0x2F].

Definition chr (v : Z) : Z := rd alphabet v.

(** A group of 24 bits as four digits of six bits. *)
Definition digits (n : Z) : list Z := [n / 64 ^ 3; n / 64 ^ 2 mod 64; n / 64 mod 64; n mod 64].

Fixpoint encode (l : list Z) : list Z :=
  match l with
  | b1 :: b2 :: b3 :: t => map chr (digits (be_value [b1; b2; b3])) ++ encode t
  | [b1; b2] => map chr (firstn 3 (digits (be_value [b1; b2; 0]))) ++ [PAD]
  | [b1] => map chr (firstn 2 (digits (be_value [b1; 0; 0]))) ++ [PAD; PAD]
  | [] => []
  end.

(** Lines of 64 characters; [k] characters of the line are there already. *)
Fixpoint fold_lines (k : Z) (l : list Z) : list Z :=
  match l with
  | [] => []
  | [c] => [c]
  | c :: t => c :: if k =? 63 then LF :: fold_lines 0 t else fold_lines (k + 1) t
  end.

(** The text of a mode, before its characters are escaped. *)
Definition layout (mode : Z) (l : list Z) : list Z :=
  if mode =? WC_NO_NL_ENC then encode l else fold_lines 0 (encode l) ++ [LF].

(** [%2B], [%3D] and [%0A] (RFC 3986) in the escaping mode. *)
Definition esc (mode c : Z) : list Z :=
  if (mode =? WC_ESC_NL_ENC) && ((c =? 0x2B) || (c =? PAD) || (c =? LF))
  then [0x25; 0x30 + c / 16; if c mod 16 <? 10 then 0x30 + c mod 16 else 0x37 + c mod 16]
  else [c].

Definition text (mode : Z) (l : list Z) : list Z := flat_map (esc mode) (layout mode l).





End Rfc4648.
Export Rfc4648.

Module Rfc3629.

(** The Unicode scalar values. *)
Definition scalar (cp : Z) : Prop := 0 <= cp <= 0x10FFFF /\ ~ (0xD800 <= cp <= 0xDFFF).

Definition utf8 (cp : Z) : list Z :=
  if cp <? 0x80 then [cp]
  else if cp <? 0x800 then [0xC0 + cp / 64; 0x80 + cp mod 64]
  else if cp <? 0x10000 then [0xE0 + cp / 64 ^ 2; 0x80 + cp / 64 mod 64; 0x80 + cp mod 64]
  else [0xF0 + cp / 64 ^ 3; 0x80 + cp / 64 ^ 2 mod 64; 0x80 + cp / 64 mod 64; 0x80 + cp mod 64].

End Rfc3629.

(** ** Facts checked over all the values of a byte *)

Lemma below_seqZ n (P : Z -> bool) : forallb P (seqZ 0 n) = true -> forall v, 0 <= v < n -> P v = true.
Proof. intros H v Hv. rewrite forallb_forall in H. apply H, list_elem_of_In, elem_of_seqZ. lia. Qed.

(** [by_cases v n P]: [P v] for a [v] below [n], by evaluating the cases. *)
Ltac by_values v n P := let H := fresh in
  assert (H : P v = true) by (apply (below_seqZ n P); [vm_compute; reflexivity | lia]); revert H; cbv beta.

Lemma byte_range b : is_word 8 b -> 0 <= b < 256.
Proof. exact id. Qed.


Definition out_of_table (c : Z) : bool := (c <? BASE64_MIN) || (c >? BASE64DECODE_TABLE_SZ + BASE64_MIN - 1).

Lemma Char2Val_agree cr c : is_word 8 c ->
  (if out_of_table c then Some BAD else Base64_Char2Val_by_table cr c) = Some (Base64_Char2Val_CT c).
Proof.
  intros H%byte_range.
  destruct cr; [set (t := true) | set (t := false)];
    by_values c 256 (fun c => bool_decide ((if out_of_table c then Some BAD else
      Base64_Char2Val_by_table t c) = Some (Base64_Char2Val_CT c)));
    apply bool_decide_eq_true_1.
Qed.

Definition quad_bytes (q : quad) : Prop := let '(e1, e2, e3, e4) := q in is_bytes [e1; e2; e3; e4].

(** The two tests of a group agree. *)
Lemma convert_agree cr q : quad_bytes q -> convert_by_table cr q = convert_CT q.
Proof.
  destruct q as [[[e1 e2] e3] e4]. intros H.
  repeat match goal with H : quad_bytes _ |- _ => unfold quad_bytes, is_bytes in H
                    | H : Forall _ (_ :: _) |- _ => apply Forall_cons in H as [?%(Char2Val_agree cr) H] end.
  unfold convert_by_table, convert_CT. cbv zeta.
  match goal with |- (if ?a then None else if ?b then None else ?X) = _ =>
    transitivity (if out_of_table e1 || out_of_table e2 || out_of_table e3 || out_of_table e4 then None else X) end.
  { unfold out_of_table. destruct (e1 <? _), (e2 <? _), (e3 <? _), (e4 <? _), (e1 >? _), (e2 >? _), (e3 >? _); reflexivity. }
  assert (P3 : out_of_table e3 = true -> (e3 =? PAD) = false) by (unfold out_of_table; vm_compute (BASE64DECODE_TABLE_SZ); unfold PAD, BASE64_MIN; lia).
  assert (P4 : out_of_table e4 = true -> (e4 =? PAD) = false) by (unfold out_of_table; vm_compute (BASE64DECODE_TABLE_SZ); unfold PAD, BASE64_MIN; lia).
  destruct (out_of_table e1), (out_of_table e2), (out_of_table e3), (out_of_table e4); cbn [orb];
    rewrite ?P3, ?P4 by reflexivity;
    repeat match goal with H : Some BAD = Some _ |- _ => injection H as <- end;
    rewrite ?(Z.eqb_refl BAD), ?orb_true_r; try reflexivity.
  repeat match goal with H : Base64_Char2Val_by_table _ _ = _ |- _ => rewrite H; clear H end.
  cbn [mbind option_bind]. destruct (e3 =? PAD), (e4 =? PAD); reflexivity.
Qed.

(** ** Skipping blanks and line ends *)

Lemma skip_spaces_suffix l : skip_spaces l `suffix_of` l.
Proof.
  induction l as [| c t IH]; [done |]. cbn [skip_spaces]. destruct t as [| c' t]; [done |].
  destruct (c =? SPACE); [| done]. apply suffix_cons_r, IH.
Qed.

Lemma skip_all_spaces_suffix l : skip_all_spaces l `suffix_of` l.
Proof.
  induction l as [| c t IH]; [done |]. cbn [skip_all_spaces].
  destruct (c =? SPACE); [apply suffix_cons_r, IH | done].
Qed.

(** A character is left, and it is part of the input; the errors are two. *)
Lemma SkipNewline_suffix l :
  match Base64_SkipNewline l with
  | inl e => e = BUFFER_E \/ e = ASN_INPUT_E
  | inr r => r `suffix_of` l /\ r <> []
  end.
Proof.
  unfold Base64_SkipNewline. destruct l as [| c0 l0]; [tauto |]. set (l := c0 :: l0).
  pose proof (skip_spaces_suffix l) as S. destruct (skip_spaces l) as [| c t] eqn:El; [tauto |].
  assert (T : t `suffix_of` l) by (etrans; [apply suffix_cons_r; reflexivity | exact S]).
  assert (fin : forall r, r `suffix_of` l ->
    match (match skip_all_spaces r with [] => inl BUFFER_E | rest => inr rest end : Z + list Z) with
    | inl e => e = BUFFER_E \/ e = ASN_INPUT_E
    | inr r => r `suffix_of` l /\ r <> []
    end).
  { intros r Hr. pose proof (skip_all_spaces_suffix r) as Sr. destruct (skip_all_spaces r) as [| x k]; [tauto |].
    split; [etrans; eassumption | discriminate]. }
  destruct (c =? CR).
  - destruct t as [| c' t']; [tauto |]. destruct (c' =? LF); [| tauto].
    apply fin. etrans; [apply suffix_cons_r; reflexivity | exact T].
  - destruct (c =? LF); now apply fin.
Qed.

Lemma suffix_bytes l r : r `suffix_of` l -> is_bytes l -> is_bytes r.
Proof. intros [k ->] [_ H]%is_bytes_app. exact H. Qed.

Lemma suffix_Zlen {A} (l r : list A) : r `suffix_of` l -> Zlen r <= Zlen l.
Proof. intros [k ->]. rewrite Zlen_app. pose proof (Zlen_nonneg k). lia. Qed.

Lemma next_char_suffix l :
  match next_char l with
  | inl e => e = BUFFER_E \/ e = ASN_INPUT_E
  | inr (c, t) => c :: t `suffix_of` l
  end.
Proof.
  unfold next_char. pose proof (SkipNewline_suffix l) as S.
  destruct (Base64_SkipNewline l) as [e | [| c t]]; tauto.
Qed.

Lemma next3_suffix l :
  match next3 l with
  | inl e => e = BUFFER_E \/ e = ASN_INPUT_E
  | inr (e2, e3, e4, t) => t `suffix_of` l /\ Zlen t + 3 <= Zlen l /\
      (is_bytes l -> is_bytes [e2; e3; e4])
  end.
Proof.
  unfold next3.
  pose proof (next_char_suffix l) as S1. destruct (next_char l) as [e | [e2 t1]]; [exact S1 |].
  pose proof (next_char_suffix t1) as S2. destruct (next_char t1) as [e | [e3 t2]]; [exact S2 |].
  pose proof (next_char_suffix t2) as S3. destruct (next_char t2) as [e | [e4 t3]]; [exact S3 |].
  assert (T1 : t1 `suffix_of` l) by (etrans; [apply suffix_cons_r; reflexivity | exact S1]).
  assert (T2 : t2 `suffix_of` t1) by (etrans; [apply suffix_cons_r; reflexivity | exact S2]).
  assert (T3 : t3 `suffix_of` t2) by (etrans; [apply suffix_cons_r; reflexivity | exact S3]).

  split; [repeat (etrans; [eassumption |]); reflexivity |]. split.
  - apply suffix_Zlen in S1, S2, S3. rewrite Zlen_cons in *. lia.
  - intros B. pose proof (suffix_bytes _ _ S1 B) as [B1 C1]%Forall_cons.
    pose proof (suffix_bytes _ _ S2 C1) as [B2 C2]%Forall_cons.
    pose proof (suffix_bytes _ _ S3 C2) as [B3 _]%Forall_cons.
    unfold is_bytes. auto.
Qed.

(** ** The two decoders agree *)

Lemma decode_group_agree f g outLen q out : f q = g q -> decode_group f outLen q out = decode_group g outLen q out.
Proof. unfold decode_group. now intros ->. Qed.

Lemma decode_loop_agree f g outLen fuel : (forall q, quad_bytes q -> f q = g q) ->
  forall rest out, is_bytes rest -> decode_loop f fuel outLen rest out = decode_loop g fuel outLen rest out.
Proof.
  intros E. induction fuel as [| fuel IH]; intros rest out B; [reflexivity |].
  cbn [decode_loop]. destruct (Zlen rest >? 3); [| reflexivity].
  pose proof (next_char_suffix rest) as S1. destruct (next_char rest) as [e | [e1 t]]; [reflexivity |].
  destruct (e1 =? 0); [reflexivity |].
  pose proof (suffix_bytes _ _ S1 B) as [B1 Bt]%Forall_cons.
  pose proof (next3_suffix t) as S2. destruct (next3 t) as [e | [[[e2 e3] e4] k]]; [reflexivity |].
  destruct S2 as (Sk & _ & B3).
  rewrite (decode_group_agree f g) by (apply E; constructor; [exact B1 | exact (B3 Bt)]).
  destruct (decode_group g outLen _ out) as [e | [out' []]]; try reflexivity.
  apply IH. exact (suffix_bytes _ _ Sk Bt).
Qed.

Lemma decode_agree f g inp outLen : (forall q, quad_bytes q -> f q = g q) -> is_bytes inp ->
  decode f inp outLen = decode g inp outLen.
Proof. intros E B. unfold decode. now rewrite (decode_loop_agree f g). Qed.

(** The constant-time decoder and the table decoder, in either form of the
    table access, return the same code, the same bytes and the same length on
    every input, valid or not. *)
Theorem Base64_decoders_agree cr inp outLen :
  is_bytes inp -> Base64_Decode_nonCT cr inp outLen = Base64_Decode inp outLen.
Proof. apply decode_agree. auto using convert_agree. Qed.

(** ** They terminate inside their buffers *)

Lemma decode_group_inv f outLen q out :
  Zlen out + 3 < 2 ^ 32 -> is_bytes out ->
  match decode_group f outLen q out with
  | inl e => e = BUFFER_E \/ e = ASN_INPUT_E
  | inr (out', _) => is_bytes out' /\ Zlen out' <= outLen /\ Zlen out' <= Zlen out + 3
  end.
Proof.
  intros W B. destruct q as [[[e1 e2] e3] e4]. unfold decode_group.
  destruct ((e3 =? PAD) && negb (e4 =? PAD)) eqn:P; [auto |].
  destruct (f _) as [[[[v1 v2] v3] v4] |]; [| auto].
  set (k := Zlen out + 1 + _ + _).
  assert (K : 0 <= k < 2 ^ 32) by (pose proof (Zlen_nonneg out); unfold k, c_bool; destruct (e3 =? PAD), (e4 =? PAD); cbn; lia).
  rewrite (wrap_small 32 k) by exact K. destruct (k >? outLen) eqn:Ek; [auto |].
  unfold k, c_bool in *. destruct (e3 =? PAD), (e4 =? PAD); try discriminate P; cbn [negb] in *;
    (split; [unfold is_bytes; rewrite ?Forall_app; repeat split; auto using wrap_is_word |
             rewrite !Zlen_app, !Zlen_cons; change (Zlen []) with 0; lia]).
  all: repeat constructor; try apply wrap_is_word; lia.
Qed.

Ltac ranges := cbv beta iota; cbn [In]; repeat split; first [assumption | lia | tauto | idtac].

(** Every group takes four characters at least and writes three bytes at most. *)
Lemma decode_loop_inv f outLen N fuel : N < 2 ^ 32 ->
  forall rest out, (length rest <= fuel)%nat -> is_bytes out -> Zlen out <= outLen ->
  4 * Zlen out + 3 * Zlen rest <= 3 * N ->
  exists r, decode_loop f fuel outLen rest out = Some r /\
  match r with
  | inl (e, out') => (e = BUFFER_E \/ e = ASN_INPUT_E) /\ is_bytes out' /\ Zlen out' <= outLen
  | inr (rest', out') => is_bytes out' /\ Zlen out' <= outLen /\ 4 * Zlen out' <= 3 * N
  end.
Proof.
  intros HN. induction fuel as [| fuel IH]; intros rest out Hf B L I.
  - destruct rest; [| cbn in Hf; lia]. eexists. split; [reflexivity |]. change (Zlen []) with 0 in I. ranges.
  - cbn [decode_loop]. pose proof (Zlen_nonneg rest) as Pr. destruct (Z.gtb_spec (Zlen rest) 3) as [G |];
      [| eexists; split; [reflexivity | ranges]].
    pose proof (next_char_suffix rest) as S1. destruct (next_char rest) as [e | [e1 t]].
    { eexists. split; [reflexivity |]. destruct (e =? BUFFER_E) eqn:Ee; ranges. }
    destruct (e1 =? 0); [eexists; split; [reflexivity | ranges] |].
    pose proof (suffix_Zlen _ _ S1) as L1. rewrite Zlen_cons in L1.
    pose proof (next3_suffix t) as S2. destruct (next3 t) as [e | [[[e2 e3] e4] k]];
      [eexists; split; [reflexivity | ranges] |].
    destruct S2 as (_ & L2 & _).
    pose proof (decode_group_inv f outLen (e1, e2, e3, e4) out ltac:(lia) B) as D.
    destruct (decode_group f outLen _ out) as [e | [out' []]]; [eexists; split; [reflexivity | ranges] | |].
    + destruct D as (B' & L' & M). apply IH; [unfold Zlen in *; lia | exact B' | exact L' | lia].
    + destruct D as (B' & L' & M). eexists. split; [reflexivity |]. ranges.
Qed.

Lemma decode_tail_inv fuel rest : (length rest <= fuel)%nat ->
  exists e, decode_tail fuel rest = Some e /\ (e = 0 \/ e = ASN_INPUT_E).
Proof.
  revert rest. induction fuel as [| fuel IH]; intros [| c t] Hf; cbn [decode_tail]; [eauto | cbn in Hf; lia | eauto |].
  destruct (c =? 0); [eauto |].
  pose proof (SkipNewline_suffix (c :: t)) as S. destruct (Base64_SkipNewline (c :: t)) as [e | r].
  - eexists. split; [reflexivity |]. destruct S as [-> | ->]; cbn; auto.
  - destruct S as [S _]. destruct (Zlen r =? Zlen (c :: t)) eqn:E; [eauto |].
    apply IH. apply suffix_Zlen in S. apply Z.eqb_neq in E. unfold Zlen in *. cbn [length] in *. lia.
Qed.

(** Base64 decoding terminates on every input, with success, "bad input" or
    "buffer too small"; it never writes past the end of the caller's buffer, the
    terminating null byte included, and the length it reports is at most three
    quarters of the input's. *)
Theorem Base64_Decode_bounds inp outLen :
  Zlen inp < 2 ^ 32 -> 0 <= outLen ->
  exists ret out n, Base64_Decode inp outLen = Some (ret, out, n) /\
    In ret [0; ASN_INPUT_E; BUFFER_E] /\ is_bytes out /\ Zlen out <= outLen /\ n <= outLen /\
    (if ret =? 0 then 4 * n <= 3 * Zlen inp else n = outLen).
Proof.
  intros Li Lo. unfold Base64_Decode, decode.
  destruct (decode_loop_inv convert_CT outLen (Zlen inp) (length inp) Li inp []) as (r & -> & H);
    [reflexivity | constructor | exact Lo | change (Zlen []) with 0; lia |].
  cbn [mbind option_bind]. destruct r as [[e out] | [rest out]].
  - destruct H as (He & B & L). exists e, out, outLen. cbn. destruct He as [-> | ->]; cbn; ranges.
  - destruct H as (B & L & M). destruct (decode_tail_inv _ rest (le_n _)) as (e & -> & He).
    cbn [mbind option_bind]. destruct He as [-> | ->]; cbn [negb Z.eqb ASN_INPUT_E].
    + exists 0, (if outLen >? Zlen out then out ++ [0] else out), (Zlen out).
      repeat split; try (cbn; auto; fail); try lia.
      * destruct (outLen >? _); [apply is_bytes_app; split; [exact B | repeat constructor; lia] | exact B].
      * destruct (outLen >? _) eqn:G; [rewrite Zlen_app; change (Zlen [0]) with 1; lia | lia].
    + exists ASN_INPUT_E, out, outLen. cbn. ranges.
Qed.

(** The decoder needs the room for a group only after it has read it. *)
Lemma Base64_Decode_bounds_witness :
  exists ret out n, Base64_Decode [0x51; 0x55; 0x4A; 0x44] 2 = Some (ret, out, n) /\
    In ret [0; ASN_INPUT_E; BUFFER_E] /\ is_bytes out /\ Zlen out <= 2 /\ n <= 2 /\
    (if ret =? 0 then 4 * n <= 3 * Zlen [0x51; 0x55; 0x4A; 0x44] else n = 2).
Proof. apply (Base64_Decode_bounds [0x51; 0x55; 0x4A; 0x44] 2); vm_compute; [reflexivity | discriminate]. Defined.

Lemma Base64_decoders_agree_witness :
  Base64_Decode_nonCT true [0x51; 0x55; 0x4A; 0x3D] 9 = Base64_Decode [0x51; 0x55; 0x4A; 0x3D] 9.
Proof.
  apply (Base64_decoders_agree true [0x51; 0x55; 0x4A; 0x3D] 9).
  repeat constructor; discriminate.
Defined.

(** ** Text with blanks and line ends is read *)










(** ** A group is read back *)





Lemma digits_bytes b1 b2 b3 : is_word 8 b1 -> is_word 8 b2 -> is_word 8 b3 ->
  digits (be_value [b1; b2; b3]) =
  [b1 / 4; 16 * (b1 mod 4) + b2 / 16; 4 * (b2 mod 16) + b3 / 64; b3 mod 64].
Proof.
  intros H1 H2 H3. unfold digits.
  replace (be_value [b1; b2; b3]) with (65536 * b1 + 256 * b2 + b3)
    by (unfold be_value; cbn [rev app]; rewrite !le_value_cons by assumption; change (le_value []) with 0; lia).
  apply byte_range in H1, H2, H3.
  change (64 ^ 3) with 262144. change (64 ^ 2) with 4096.
  repeat (apply (f_equal2 cons)); try reflexivity; Z.to_euclidean_division_equations; lia.
Qed.







(** Induction by groups of three. *)
Lemma list_ind3 {A} (P : list A -> Prop) :
  P [] -> (forall a, P [a]) -> (forall a b, P [a; b]) -> (forall a b c l, P l -> P (a :: b :: c :: l)) -> forall l, P l.
Proof.
  intros P0 P1 P2 P3. fix IH 1. intros [| a [| b [| c l]]]; [exact P0 | apply P1 | apply P2 | apply P3, IH].
Qed.


Lemma sextet_ranges b1 b2 b3 : is_word 8 b1 -> is_word 8 b2 -> is_word 8 b3 ->
  0 <= b1 / 4 < 64 /\ 0 <= 16 * (b1 mod 4) + b2 / 16 < 64 /\ 0 <= 4 * (b2 mod 16) + b3 / 64 < 64 /\ 0 <= b3 mod 64 < 64.
Proof. intros H1%byte_range H2%byte_range H3%byte_range. Z.to_euclidean_division_equations; lia. Qed.

Lemma encode_3 b1 b2 b3 t : is_word 8 b1 -> is_word 8 b2 -> is_word 8 b3 ->
  encode (b1 :: b2 :: b3 :: t) =
  chr (b1 / 4) :: chr (16 * (b1 mod 4) + b2 / 16) :: chr (4 * (b2 mod 16) + b3 / 64) :: chr (b3 mod 64) :: encode t.
Proof. intros. cbn [encode]. now rewrite digits_bytes. Qed.

Lemma encode_2 b1 b2 : is_word 8 b1 -> is_word 8 b2 ->
  encode [b1; b2] = [chr (b1 / 4); chr (16 * (b1 mod 4) + b2 / 16); chr (4 * (b2 mod 16)); PAD].
Proof.
  intros. cbn [encode]. rewrite digits_bytes by first [assumption | unfold is_word; lia].
  cbn [firstn map app]. do 5 f_equal. change (0 / 64) with 0. lia.
Qed.

Lemma encode_1 b1 : is_word 8 b1 -> encode [b1] = [chr (b1 / 4); chr (16 * (b1 mod 4)); PAD; PAD].
Proof.
  intros. cbn [encode]. rewrite digits_bytes by first [assumption | unfold is_word; lia].
  cbn [firstn map app]. do 4 f_equal. change (0 / 16) with 0. lia.
Qed.

Ltac sextet :=
  repeat match goal with H : is_word 8 _ |- _ => apply byte_range in H end; Z.to_euclidean_division_equations; lia.


(** ** The encoder writes the text *)

Section Emit.
  Context (escaped maxSz : Z) (getSzOnly : bool).
  Hypothesis Hmax : maxSz < 2 ^ 32.

(** The state after characters were written, and the room they need. *)
Definition emit (xs : list Z) (s : enc_state) : enc_state :=
  (fst s + Zlen xs, if getSzOnly then snd s else snd s ++ xs).

Definition fits (xs : list Z) (s : enc_state) : Prop := 0 <= fst s /\ fst s + Zlen xs < 2 ^ 32.
Definition has_room (xs : list Z) (s : enc_state) : bool := getSzOnly || (Zlen xs =? 0) || (fst s + Zlen xs <=? maxSz).

(** A call that writes [xs], or fails for want of room. *)
Definition writes (xs : list Z) (s : enc_state) (r : Z * enc_state) : Prop :=
  fits xs s -> if has_room xs s then r = (0, emit xs s) else fst r = BUFFER_E.

Lemma emit_app xs ys s : emit (xs ++ ys) s = emit ys (emit xs s).
Proof using. unfold emit. cbn. rewrite Zlen_app. destruct getSzOnly; f_equal; try lia. apply app_assoc. Qed.

Lemma fits_app xs ys s : fits (xs ++ ys) s -> fits xs s /\ fits ys (emit xs s).
Proof using.
  unfold fits, emit. cbn. rewrite Zlen_app. pose proof (Zlen_nonneg xs). pose proof (Zlen_nonneg ys). lia.
Qed.

Lemma has_room_app xs ys s :
  (has_room xs s = true -> has_room (xs ++ ys) s = has_room ys (emit xs s)) /\ (has_room xs s = false -> has_room (xs ++ ys) s = false).
Proof using.
  unfold has_room, emit. cbn [fst]. rewrite Zlen_app. pose proof (Zlen_nonneg xs). pose proof (Zlen_nonneg ys).
  destruct getSzOnly; cbn [orb]; [easy |].
  destruct (Z.eqb_spec (Zlen xs) 0), (Z.eqb_spec (Zlen ys) 0), (Z.eqb_spec (Zlen xs + Zlen ys) 0); try lia; cbn [orb];
    split; intros H1; rewrite ?Z.leb_le, ?Z.leb_gt in *; try reflexivity; try lia; f_equal; lia.
Qed.

(** One write after another. *)
Lemma writes_app xs ys s r k : writes xs s r -> (r = (0, emit xs s) -> writes ys (emit xs s) k) ->
  (has_room xs s = false -> fst r = BUFFER_E -> fst k = BUFFER_E) -> writes (xs ++ ys) s k.
Proof using.
  intros H1 H2 H3 F. destruct (fits_app _ _ _ F) as [F1 F2], (has_room_app xs ys s) as [E N].
  specialize (H1 F1). destruct (has_room xs s).
  - specialize (H2 H1 F2). now rewrite E, emit_app.
  - rewrite N by reflexivity. auto.
Qed.

Lemma emit_nil s : emit [] s = s.
Proof using. destruct s as [i o]. unfold emit. cbn. rewrite app_nil_r. f_equal; [change (Zlen (@nil Z)) with 0; lia | now destruct getSzOnly]. Qed.

Lemma writes_nil s : writes [] s (0, s).
Proof using. intros _. unfold has_room. change (Zlen (@nil Z) =? 0) with true. rewrite orb_true_r, emit_nil. reflexivity. Qed.

Lemma CEscape_emit e (raw : bool) c s :
  (if raw then Some e else base64Encode !! Z.to_nat e) = Some c ->
  writes (esc escaped c) s (CEscape escaped maxSz getSzOnly e raw s).
Proof using.
  intros E R. destruct s as [idx out]. unfold CEscape, fits, has_room, emit in *. rewrite E. clear E. unfold esc in *. cbn [fst snd] in *.
  destruct (escaped =? WC_ESC_NL_ENC); cbn [andb] in *;
    [destruct (Z.eqb_spec c 0x2B) as [-> |]; [| destruct (Z.eqb_spec c PAD) as [-> |]; [| destruct (Z.eqb_spec c LF) as [-> |]]] |];
    try change (0x2B =? PAD) with false; try change (0x2B =? LF) with false; try change (PAD =? LF) with false;
    cbn [orb negb] in *; unfold Zlen in *; cbn [length] in *; destruct R as (R1 & R2);
    rewrite !wrap_small by (unfold is_word; lia);
    match goal with |- context [?a >? maxSz] => destruct (Z.gtb_spec a maxSz) end;
    match goal with |- context [?a <=? maxSz] => destruct (Z.leb_spec a maxSz) end;
    destruct getSzOnly; cbn [negb andb orb Z.eqb Z.of_nat length]; try lia; reflexivity.
Qed.

(** The characters of the code table are those of the standard. *)
Lemma base64Encode_chr v : 0 <= v < 64 -> base64Encode !! Z.to_nat v = Some (chr v).
Proof using.
  intros H. by_values v 64 (fun v => bool_decide (base64Encode !! Z.to_nat v = Some (chr v))).
  apply bool_decide_eq_true_1.
Qed.

Lemma CEscape_chr v s : 0 <= v < 64 -> writes (esc escaped (chr v)) s (CEscape escaped maxSz getSzOnly v false s).
Proof using. intros H. apply CEscape_emit. now apply base64Encode_chr. Qed.

Lemma CEscape_raw c s : writes (esc escaped c) s (CEscape escaped maxSz getSzOnly c true s).
Proof using. now apply CEscape_emit. Qed.

Definition out_text (l : list Z) : list Z := flat_map (esc escaped) l.

Lemma out_text_cons c l : out_text (c :: l) = esc escaped c ++ out_text l.
Proof using. reflexivity. Qed.

Lemma out_text_app l k : out_text (l ++ k) = out_text l ++ out_text k.
Proof using. apply flat_map_app. Qed.

(** The sextets as the code computes them. *)
Lemma sextets_of b1 b2 b3 : is_word 8 b1 -> is_word 8 b2 -> is_word 8 b3 ->
  Z.shiftr b1 2 = b1 / 4 /\
  u8 (Z.lor (Z.shiftl (Z.land b1 0x3) 4) (Z.shiftr b2 4)) = 16 * (b1 mod 4) + b2 / 16 /\
  u8 (Z.lor (Z.shiftl (Z.land b2 0xF) 2) (Z.shiftr b3 6)) = 4 * (b2 mod 16) + b3 / 64 /\
  Z.land b3 0x3F = b3 mod 64 /\
  u8 (Z.shiftl (Z.land b2 0xF) 2) = 4 * (b2 mod 16).
Proof using.
  intros H1%byte_range H2%byte_range H3%byte_range. rewrite !Z.shiftr_div_pow2 by lia.
  change 0x3F with (Z.ones 6). change 0xF with (Z.ones 4). change 0x3 with (Z.ones 2). rewrite !Z.land_ones by lia.
  rewrite !Z.shiftl_mul_pow2 by lia.
  rewrite <- !Z.shiftl_mul_pow2 by lia.
  rewrite !lor_shift_add by (unfold is_word; Z.to_euclidean_division_equations; lia).
  rewrite !Z.shiftl_mul_pow2 by lia. change (2 ^ 2) with 4. change (2 ^ 4) with 16. change (2 ^ 6) with 64.
  repeat split; try (rewrite wrap_small by (unfold is_word; change (2 ^ 8) with 256; Z.to_euclidean_division_equations; lia)); lia.
Qed.

(** A sequence of characters, stopping at an error. *)
Lemma andthen_emit r xs s k ys : writes xs s r -> (forall s, writes ys s (k s)) -> writes (xs ++ ys) s (andthen r k).
Proof using.
  intros H1 H2. apply (writes_app _ _ _ r _ H1).
  - intros ->. exact (H2 _).
  - intros _ E. unfold andthen. now rewrite E.
Qed.

Lemma andthen4 v1 v2 c3 c4 r3 r4 s :
  0 <= v1 < 64 -> 0 <= v2 < 64 ->
  (forall s, writes (esc escaped c3) s (r3 s)) -> (forall s, writes (esc escaped c4) s (r4 s)) ->
  writes (out_text [chr v1; chr v2; c3; c4]) s
    (andthen (andthen (andthen (CEscape escaped maxSz getSzOnly v1 false s) (CEscape escaped maxSz getSzOnly v2 false)) r3) r4).
Proof using.
  intros H1 H2 H3 H4.
  replace (out_text [chr v1; chr v2; c3; c4])
    with (((esc escaped (chr v1) ++ esc escaped (chr v2)) ++ esc escaped c3) ++ esc escaped c4)
    by (cbn; now rewrite app_nil_r, <- !app_assoc).
  repeat (apply andthen_emit; auto using CEscape_chr).
Qed.

Lemma encode_group_emit b1 b2 b3 s : is_word 8 b1 -> is_word 8 b2 -> is_word 8 b3 ->
  let cs := [chr (b1 / 4); chr (16 * (b1 mod 4) + b2 / 16); chr (4 * (b2 mod 16) + b3 / 64); chr (b3 mod 64)] in
  writes (out_text cs) s (encode_group escaped maxSz getSzOnly b1 b2 b3 s).
Proof using.
  intros H1 H2 H3 cs. unfold encode_group. destruct (sextets_of b1 b2 b3) as (-> & -> & -> & -> & _); auto.
  destruct (sextet_ranges b1 b2 b3) as (R1 & R2 & R3 & R4); auto.
  apply andthen4; auto using CEscape_chr.
Qed.

Lemma encode_last_emit inp s : is_bytes inp -> Zlen inp < 3 -> writes (out_text (encode inp)) s (encode_last escaped maxSz getSzOnly inp s).
Proof using.
  intros B L. destruct inp as [| b1 [| b2 [| b3 t]]].
  - exact (writes_nil s).
  - apply Forall_cons in B as [B1 _]. rewrite encode_1 in * by exact B1.
    unfold encode_last. change (Zlen [b1] =? 2) with false. cbv iota zeta.
    destruct (sextets_of b1 0 0) as (-> & -> & _ & _ & _); [assumption | unfold is_word; lia .. |].
    change (0 / 16) with 0. rewrite Z.add_0_r. apply andthen4; auto using CEscape_raw; sextet.
  - apply Forall_cons in B as [B1 [B2 _]%Forall_cons]. rewrite encode_2 in * by assumption.
    unfold encode_last. change (Zlen [b1; b2] =? 2) with true. cbv iota zeta. change (rd [b2] 0) with b2.
    destruct (sextets_of b1 b2 0) as (-> & -> & _ & _ & ->); [assumption | assumption | unfold is_word; lia |].
    apply andthen4; auto using CEscape_raw; try sextet. intros s'. apply CEscape_chr. sextet.
  - rewrite !Zlen_cons in L. pose proof (Zlen_nonneg t). lia.
Qed.

(** The characters with their line ends, when [n] groups are written. *)
Definition lined (n : Z) (l : list Z) : list Z :=
  if escaped =? WC_NO_NL_ENC then l else fold_lines (4 * (n mod 16)) l.

Lemma fold_lines_group m c1 c2 c3 c4 t : 0 <= m < 16 ->
  fold_lines (4 * m) (c1 :: c2 :: c3 :: c4 :: t) =
  [c1; c2; c3; c4] ++ (if (m =? 15) && (0 <? Zlen t) then LF :: fold_lines 0 t else fold_lines (4 * ((m + 1) mod 16)) t).
Proof using.
  intros H. cbn [fold_lines app].
  destruct (Z.eqb_spec (4 * m) 63), (Z.eqb_spec (4 * m + 1) 63), (Z.eqb_spec (4 * m + 1 + 1) 63); try lia.
  destruct t as [| c t]; [rewrite andb_false_r; reflexivity |].
  rewrite Zlen_cons. pose proof (Zlen_nonneg t). rewrite (proj2 (Z.ltb_lt 0 (1 + Zlen t))) by lia.
  destruct (Z.eqb_spec m 15) as [-> |]; [reflexivity |]. destruct (Z.eqb_spec (4 * m + 1 + 1 + 1) 63); [lia |].
  rewrite Z.mod_small by lia. cbn [andb]. do 5 f_equal. lia.
Qed.

(** The loop and what follows it. *)
Definition encode_all (n : Z) (inp : list Z) (s : enc_state) : Z * enc_state :=
  let '(ret, rest, s) := encode_loop escaped maxSz getSzOnly n inp s in
  if (0 <? Zlen rest) && (ret =? 0) then encode_last escaped maxSz getSzOnly rest s else (ret, s).

Lemma encode_all_last n inp s : Zlen inp < 3 -> encode_all n inp s = encode_last escaped maxSz getSzOnly inp s.
Proof using.
  intros L. unfold encode_all. destruct inp as [| b1 [| b2 [| b3 t]]]; cbn [encode_loop]; try reflexivity.
  rewrite !Zlen_cons in L. pose proof (Zlen_nonneg t). lia.
Qed.

Lemma encode_all_group n b1 b2 b3 t s :
  let nl := negb (escaped =? WC_NO_NL_ENC) && ((u32 (n + 1)) mod 16 =? 0) && (0 <? Zlen t) in
  let n' := if negb (escaped =? WC_NO_NL_ENC) then u32 (n + 1) else n in
  let r := encode_group escaped maxSz getSzOnly b1 b2 b3 s in
  let r' := if nl then andthen r (CEscape escaped maxSz getSzOnly LF true) else r in
  let r1 := encode_all n (b1 :: b2 :: b3 :: t) s in
  (fst r' = 0 -> r1 = encode_all n' t (snd r')) /\ (fst r' <> 0 -> fst r1 = fst r').
Proof using.
  cbv zeta. unfold encode_all at 1 3. cbn [encode_loop]. change (BASE64_LINE_SZ / 4) with 16. unfold andthen.
  destruct (encode_group _ _ _ b1 b2 b3 s) as [ret s1]. cbn [fst snd].
  destruct (Z.eqb_spec ret 0) as [-> | N]; cbn [negb fst snd].
  - destruct (escaped =? WC_NO_NL_ENC); cbn [negb andb fst snd]; [split; [reflexivity | contradiction] |].
    destruct ((u32 (n + 1)) mod 16 =? 0), (0 <? Zlen t); cbn [andb fst snd]; try (split; [reflexivity | contradiction]).
    destruct (CEscape escaped maxSz getSzOnly LF true s1) as [ret s2]. cbn [fst snd].
    destruct (Z.eqb_spec ret 0) as [-> | N]; cbn [negb]; (split; [try contradiction | try contradiction]).
    + reflexivity.
    + intros _. now rewrite (proj2 (Z.eqb_neq _ _) N), andb_false_r.
  - assert (E : fst (if (0 <? Zlen (b1 :: b2 :: b3 :: t)) && (ret =? 0) then encode_last escaped maxSz getSzOnly (b1 :: b2 :: b3 :: t) s1 else (ret, s1)) = ret)
      by now rewrite (proj2 (Z.eqb_neq _ _) N), andb_false_r.
    destruct (_ && _ && _); cbn [fst]; rewrite E; split; (contradiction || reflexivity).
Qed.

Lemma esc_nonempty c : 1 <= Zlen (esc escaped c).
Proof using. unfold esc, Zlen. destruct (_ && _); cbn; lia. Qed.

Lemma encode_nil l : (0 <? Zlen (encode l)) = (0 <? Zlen l).
Proof using. destruct l as [| a [| b [| c l]]]; reflexivity. Qed.

Lemma encode_all_emit inp : forall n s, is_bytes inp -> 0 <= n -> n + Zlen inp < 2 ^ 32 ->
  writes (out_text (lined n (encode inp))) s (encode_all n inp s).
Proof using.
  assert (short : forall inp n s, Zlen inp < 3 -> is_bytes inp -> writes (out_text (lined n (encode inp))) s (encode_all n inp s)).
  { clear. intros inp n s L B. rewrite encode_all_last by exact L.
    assert (E : lined n (encode inp) = encode inp).
    { unfold lined. destruct (escaped =? WC_NO_NL_ENC); [reflexivity |].
      destruct inp as [| b1 [| b2 [| b3 t]]]; [reflexivity | | | rewrite !Zlen_cons in L; pose proof (Zlen_nonneg t); lia];
        cbn [encode firstn digits map app]; rewrite fold_lines_group by (apply Z.mod_pos_bound; lia);
        rewrite andb_false_r; reflexivity. }
    rewrite E in *. now apply encode_last_emit. }
  induction inp as [| b1 | b1 b2 | b1 b2 b3 t IH] using list_ind3; intros n s B Hn L;
    [now apply short; [reflexivity | ..] .. |].
  apply Forall_cons in B as [B1 B]. apply Forall_cons in B as [B2 B]. apply Forall_cons in B as [B3 B].
  rewrite !Zlen_cons in L. pose proof (Zlen_nonneg t) as Lt. pose proof (Z.mod_pos_bound n 16 ltac:(lia)) as Hm.
  rewrite encode_3 in * by assumption.
  set (cs := [chr (b1 / 4); chr (16 * (b1 mod 4) + b2 / 16); chr (4 * (b2 mod 16) + b3 / 64); chr (b3 mod 64)]).
  set (n' := if negb (escaped =? WC_NO_NL_ENC) then u32 (n + 1) else n).
  set (nl := if negb (escaped =? WC_NO_NL_ENC) && ((u32 (n + 1)) mod 16 =? 0) && (0 <? Zlen t) then [LF] else []).
  assert (W : u32 (n + 1) = n + 1) by (apply wrap_small; unfold is_word; lia).
  assert (M : (n + 1) mod 16 = (n mod 16 + 1) mod 16) by (rewrite Z.add_mod by lia; rewrite (Z.mod_small 1) by lia; reflexivity).
  assert (T : lined n (cs ++ encode t) = cs ++ nl ++ lined n' (encode t)).
  { unfold lined, nl, n', cs. destruct (escaped =? WC_NO_NL_ENC); cbn [negb andb]; [reflexivity |].
    cbn [app]. rewrite fold_lines_group, encode_nil, W, M by lia. cbn [app]. do 4 f_equal.
    destruct (Z.eqb_spec (n mod 16) 15) as [E | E].
    - rewrite E. change ((15 + 1) mod 16) with 0. cbn [andb Z.eqb]. destruct (0 <? Zlen t); reflexivity.
    - rewrite (Z.mod_small (n mod 16 + 1)) by lia.
      destruct (Z.eqb_spec (n mod 16 + 1) 0); [lia |]. reflexivity. }
  change (chr (b1 / 4) :: _) with (cs ++ encode t). rewrite T.
  rewrite !out_text_app.
  pose proof (encode_group_emit b1 b2 b3 s B1 B2 B3) as Hg. cbv zeta in Hg. fold cs in Hg.
  destruct (encode_all_group n b1 b2 b3 t s) as [G1 G2]. cbv zeta in G1, G2. fold n' in G1.
  assert (Hw : writes (out_text cs ++ out_text nl) s
    (if negb (escaped =? WC_NO_NL_ENC) && ((u32 (n + 1)) mod 16 =? 0) && (0 <? Zlen t)
     then andthen (encode_group escaped maxSz getSzOnly b1 b2 b3 s) (CEscape escaped maxSz getSzOnly LF true)
     else encode_group escaped maxSz getSzOnly b1 b2 b3 s)).
  { unfold nl. destruct (_ && _); [| cbn [out_text flat_map]; now rewrite app_nil_r].
    apply andthen_emit; [exact Hg |]. intros s'. cbn [out_text flat_map]. rewrite app_nil_r. apply CEscape_raw. }
  rewrite app_assoc. refine (writes_app _ _ _ _ _ Hw _ _).
  - intros E. rewrite G1 by (rewrite E; reflexivity). rewrite E. cbn [snd].
    apply IH; [assumption | |]; unfold n'; destruct (negb _); rewrite ?W; lia.
  - intros _ E. rewrite G2, E by (rewrite E; discriminate). reflexivity.
Qed.

End Emit.

(** ** The whole encoder *)

Lemma encode_length l : Zlen (encode l) = (Zlen l + 2) / 3 * 4.
Proof.
  induction l as [| b1 | b1 b2 | b1 b2 b3 l IH] using list_ind3; try reflexivity.
  cbn [encode map digits app]. rewrite !Zlen_cons, IH.
  replace (1 + (1 + (1 + Zlen l)) + 2) with (Zlen l + 2 + 1 * 3) by lia. rewrite Z.div_add by lia. lia.
Qed.

Lemma fold_lines_cons k c c' t :
  fold_lines k (c :: c' :: t) = c :: if k =? 63 then LF :: fold_lines 0 (c' :: t) else fold_lines (k + 1) (c' :: t).
Proof. reflexivity. Qed.

Lemma fold_lines_length l : forall k, l <> [] -> 0 <= k <= 63 ->
  Zlen (fold_lines k l) = Zlen l + (k + Zlen l - 1) / 64.
Proof.
  induction l as [| c t IH]; intros k Hl Hk; [contradiction |]. destruct t as [| c' t].
  - change (Zlen [c]) with 1. cbn [fold_lines]. change (Zlen [c]) with 1. rewrite Z.div_small; lia.
  - rewrite fold_lines_cons. pose proof (Zlen_nonneg t). rewrite !(Zlen_cons c).
    destruct (Z.eqb_spec k 63) as [-> |].
    + rewrite Zlen_cons, IH by (lia || discriminate). rewrite !Zlen_cons.
      replace (63 + (1 + (1 + Zlen t)) - 1) with (0 + (1 + Zlen t) - 1 + 1 * 64) by lia. rewrite Z.div_add; lia.
    + rewrite IH by (lia || discriminate). rewrite !Zlen_cons. 
      replace (k + 1 + (1 + Zlen t) - 1) with (k + (1 + (1 + Zlen t)) - 1) by lia. lia.
Qed.

Lemma esc_plain mode l : mode <> WC_ESC_NL_ENC -> flat_map (esc mode) l = l.
Proof.
  intros H. induction l as [| c l IH]; [reflexivity |]. cbn [flat_map]. rewrite IH.
  unfold esc. destruct (Z.eqb_spec mode WC_ESC_NL_ENC); [contradiction | reflexivity].
Qed.

Definition is_mode (mode : Z) : Prop := mode = WC_STD_ENC \/ mode = WC_ESC_NL_ENC \/ mode = WC_NO_NL_ENC.

(** The size computed beforehand is the size of the text. *)
Lemma encoded_size_text mode l :
  mode = WC_STD_ENC /\ l <> [] \/ mode = WC_NO_NL_ENC -> Zlen (text mode l) = encoded_size (Zlen l) mode.
Proof.
  intros H. unfold text, layout, encoded_size. rewrite esc_plain by (destruct H as [[-> _] | ->]; discriminate).
  replace (Zlen l + 3 - 1) with (Zlen l + 2) by lia.
  destruct H as [[-> Hl] | ->]; cbv [Z.eqb Pos.eqb WC_STD_ENC WC_NO_NL_ENC WC_ESC_NL_ENC].
  - rewrite Zlen_app, fold_lines_length, encode_length by (lia || (destruct l as [| ? [| ? [|]]]; [contradiction | discriminate ..])).
    change (Zlen [LF]) with 1. change BASE64_LINE_SZ with 64.
    replace ((Zlen l + 2) / 3 * 4 + 64 - 1) with (0 + (Zlen l + 2) / 3 * 4 - 1 + 1 * 64) by lia. rewrite Z.div_add; lia.
  - rewrite encode_length. lia.
Qed.

Lemma encoded_size_word n mode : 0 <= n < 0xFFFFFFFF / 4 -> is_word 32 (encoded_size n mode).
Proof.
  intros H. change (0xFFFFFFFF / 4) with 1073741823 in H. unfold encoded_size, is_word. change BASE64_LINE_SZ with 64.
  destruct (mode =? _), (mode =? WC_NO_NL_ENC); Z.to_euclidean_division_equations; lia.
Qed.

(** What a call returns when the text has room. *)
Definition encoded (getSzOnly : bool) (outLen : Z) (txt : list Z) : Z * list Z * Z :=
  if getSzOnly then (LENGTH_ONLY_E, [], Zlen txt)
  else (0, (if outLen >? Zlen txt then txt ++ [0] else txt), Zlen txt).

(** Everything a call can do. *)
Definition encode_outcome (mode : Z) (inp : list Z) (getSzOnly : bool) (outLen : Z) (r : Z * list Z * Z) : Prop :=
  if negb getSzOnly && (outLen <? encoded_size (Zlen inp) mode) then r = (BAD_FUNC_ARG, [], outLen)
  else if negb getSzOnly && (outLen <? Zlen (text mode inp)) then fst (fst r) = BUFFER_E
  else if (mode =? WC_STD_ENC) && (Zlen inp =? 0) then fst (fst r) = ASN_INPUT_E
  else r = encoded getSzOnly outLen (text mode inp).

(** The loop, the last bytes and the final line end write the text. *)
Lemma encode_writes mode inp getSzOnly outLen : is_bytes inp -> Zlen inp < 0xFFFFFFFF / 4 -> outLen < 2 ^ 32 ->
  let '(ret, rest, s) := encode_loop mode outLen getSzOnly 0 inp (0, []) in
  let '(ret, s) := if (0 <? Zlen rest) && (ret =? 0) then encode_last mode outLen getSzOnly rest s else (ret, s) in
  writes outLen getSzOnly (text mode inp) (0, [])
    (if (ret =? 0) && negb (mode =? WC_NO_NL_ENC) then CEscape mode outLen getSzOnly LF true s else (ret, s)).
Proof.
  intros B L Lo. change (0xFFFFFFFF / 4) with 1073741823 in L. pose proof (Zlen_nonneg inp) as Ln.
  pose proof (encode_all_emit mode outLen getSzOnly inp 0 (0, []) B ltac:(lia) ltac:(lia)) as A. unfold encode_all in A.
  destruct (encode_loop mode outLen getSzOnly 0 inp (0, [])) as [[ret rest] s]. destruct (if _ && _ then _ else _) as [ret' s'].
  unfold text, layout. unfold lined in A. destruct (mode =? WC_NO_NL_ENC) eqn:E; cbn [negb].
  - rewrite andb_false_r. exact A.
  - rewrite andb_true_r. change (if ret' =? 0 then _ else _) with (andthen (ret', s') (CEscape mode outLen getSzOnly LF true)).
    rewrite flat_map_app. apply andthen_emit; [exact A |]. intros s0. cbn [flat_map]. rewrite app_nil_r. apply CEscape_raw.
Qed.

Lemma DoBase64_Encode_spec mode inp getSzOnly outLen :
  is_mode mode -> is_bytes inp -> Zlen inp < 0xFFFFFFFF / 4 -> 0 <= outLen < 2 ^ 32 -> Zlen (text mode inp) < 2 ^ 32 ->
  encode_outcome mode inp getSzOnly outLen (DoBase64_Encode inp getSzOnly outLen mode).
Proof.
  intros Hm B L Lo Lt. unfold DoBase64_Encode, encode_outcome.
  destruct (Z.geb_spec (Zlen inp) (0xFFFFFFFF / 4)) as [G | _]; [lia |]. cbv zeta.
  pose proof (Zlen_nonneg inp) as Ln. pose proof (Zlen_nonneg (text mode inp)) as Lx.
  rewrite (wrap_small 32 (encoded_size _ _)) by (apply encoded_size_word; lia).
  replace ((encoded_size (Zlen inp) mode >? outLen) && negb getSzOnly) with (negb getSzOnly && (outLen <? encoded_size (Zlen inp) mode))
    by (rewrite andb_comm; f_equal; symmetry; apply Z.gtb_ltb).
  destruct (negb getSzOnly && (outLen <? encoded_size (Zlen inp) mode)); [reflexivity |].
  pose proof (encode_writes mode inp getSzOnly outLen B L ltac:(lia)) as W.
  destruct (encode_loop mode outLen getSzOnly 0 inp (0, [])) as [[ret rest] s]. destruct (if _ && _ then _ else _) as [ret1 s1].
  destruct (if (ret1 =? 0) && _ then _ else _) as [ret2 [i out]].
  specialize (W ltac:(split; cbn [fst]; lia)). unfold has_room in W. cbn [fst] in W.
  destruct (negb getSzOnly && (outLen <? Zlen (text mode inp))) eqn:Er.
  - apply andb_prop in Er as [E1 E2]. apply negb_true_iff in E1. subst getSzOnly.
    replace (false || (Zlen (text mode inp) =? 0) || (0 + Zlen (text mode inp) <=? outLen)) with false in W by lia.
    cbn [fst] in W. subst ret2. change (BUFFER_E =? 0) with false. now rewrite andb_false_r.
  - replace (getSzOnly || (Zlen (text mode inp) =? 0) || (0 + Zlen (text mode inp) <=? outLen)) with true in W
      by (symmetry; destruct getSzOnly; [reflexivity |]; cbn [negb andb orb] in *; lia).
    unfold emit in W. cbn [fst snd app] in W. rewrite Z.add_0_l in W. injection W as -> -> ->.
    change (0 =? 0) with true. rewrite andb_true_r. unfold encoded.
    destruct Hm as [-> | [-> | ->]].
    + cbn [Z.eqb Pos.eqb WC_STD_ENC andb negb]. rewrite andb_true_r. destruct (Z.eqb_spec (Zlen inp) 0) as [E | N].
      * assert (inp = []) as -> by (now apply nil_length_inv, Nat2Z.inj). reflexivity.
      * rewrite encoded_size_text by (left; split; [reflexivity | intros ->; now apply N]).
        rewrite Z.eqb_refl. destruct getSzOnly; reflexivity.
    + cbn [Z.eqb Pos.eqb WC_STD_ENC WC_ESC_NL_ENC andb negb]. rewrite andb_false_r. destruct getSzOnly; reflexivity.
    + cbn [Z.eqb Pos.eqb WC_STD_ENC WC_NO_NL_ENC andb negb]. rewrite encoded_size_text by auto.
      rewrite Z.eqb_refl. destruct getSzOnly; reflexivity.
Qed.

(** ** Round trips *)
















(** ** Empty input *)

(** The empty input: PEM style, the call fails whatever the room, since the
    final line end is written but not counted in the size; without line ends it
    succeeds with nothing written, and escaped it gives [%0A]. *)
Theorem Base64_Encode_empty outLen : 0 <= outLen < 2 ^ 32 ->
  fst (fst (Base64_Encode [] false outLen)) = (if outLen =? 0 then BUFFER_E else ASN_INPUT_E) /\
  Base64_Encode_NoNl [] false outLen = (0, (if outLen =? 0 then [] else [0]), 0) /\
  (4 <= outLen -> Base64_EncodeEsc [] false outLen = (0, [0x25; 0x30; 0x41; 0], 3)).
Proof.
  intros L. split; [| split].
  - destruct (Z.eqb_spec outLen 0) as [-> |]; [reflexivity |]. unfold Base64_Encode, DoBase64_Encode. change (Zlen (@nil Z) >=? 0xFFFFFFFF / 4) with false.
    change (u32 (encoded_size (Zlen (@nil Z)) WC_STD_ENC)) with 0. cbv beta iota zeta.
    destruct (Z.gtb_spec 0 outLen); [lia |]. cbn [andb encode_loop]. change (0 <? Zlen (@nil Z)) with false.
    cbn [andb]. change ((0 =? 0) && negb (WC_STD_ENC =? WC_NO_NL_ENC)) with true. cbv iota. unfold CEscape.
    cbn [andb orb negb Z.eqb WC_STD_ENC WC_ESC_NL_ENC]. change (u32 (0 + 1)) with 1.
    destruct (Z.gtb_spec 1 outLen); [lia |]. reflexivity.
  - pose proof (DoBase64_Encode_spec WC_NO_NL_ENC [] false outLen ltac:(unfold is_mode; tauto) ltac:(constructor) ltac:(reflexivity) L ltac:(reflexivity)) as E.
    unfold encode_outcome, encoded in E. change (text WC_NO_NL_ENC []) with (@nil Z) in E. change (encoded_size (Zlen (@nil Z)) WC_NO_NL_ENC) with 0 in E.
    change (Zlen (@nil Z)) with 0 in E. replace (outLen <? 0) with false in E by lia. unfold Base64_Encode_NoNl. rewrite E.
    destruct (Z.gtb_spec outLen 0), (Z.eqb_spec outLen 0); try lia; reflexivity.
  - intros L4. pose proof (DoBase64_Encode_spec WC_ESC_NL_ENC [] false outLen ltac:(unfold is_mode; tauto) ltac:(constructor) ltac:(reflexivity) L ltac:(reflexivity)) as E.
    unfold encode_outcome, encoded in E. change (text WC_ESC_NL_ENC []) with [0x25; 0x30; 0x41] in E. change (encoded_size (Zlen (@nil Z)) WC_ESC_NL_ENC) with 0 in E.
    change (Zlen [0x25; 0x30; 0x41]) with 3 in E. replace (outLen <? 0) with false in E by lia. replace (outLen <? 3) with false in E by lia.
    unfold Base64_EncodeEsc. etransitivity; [exact E |].
    destruct (Z.gtb_spec outLen 3); [reflexivity | lia].
Qed.

Lemma Base64_Encode_empty_witness :
  fst (fst (Base64_Encode [] false 8)) = ASN_INPUT_E /\
  Base64_Encode_NoNl [] false 8 = (0, [0], 0) /\
  (4 <= 8 -> Base64_EncodeEsc [] false 8 = (0, [0x25; 0x30; 0x41; 0], 3)).
Proof. apply (Base64_Encode_empty 8). split; [discriminate | reflexivity]. Defined.

(** ** Base16 *)

Lemma hex_digit_back v : 0 <= v < 16 -> hex_digit (rd hexEncode v) = Some v.
Proof.
  intros H. by_values v 16 (fun v => bool_decide (hex_digit (rd hexEncode v) = Some v)). apply bool_decide_eq_true_1.
Qed.

Definition hex_text (l : list Z) : list Z := flat_map (fun b => [rd hexEncode (b / 16); rd hexEncode (b mod 16)]) l.

Lemma hex_text_length l : Zlen (hex_text l) = 2 * Zlen l.
Proof. induction l as [| b l IH]; [reflexivity |]. cbn [hex_text flat_map app]. fold (hex_text l). rewrite !Zlen_cons, IH. lia. Qed.

Lemma hex_pairs_text l : is_bytes l -> forall out, hex_pairs (hex_text l) out = (0, out ++ l).
Proof.
  induction 1 as [| b l Hb B IH]; intros out; [cbn; now rewrite app_nil_r |].
  apply byte_range in Hb. cbn [hex_text flat_map app hex_pairs]. fold (hex_text l).
  rewrite !hex_digit_back by (Z.to_euclidean_division_equations; lia). rewrite IH, <- app_assoc. do 3 f_equal. cbn [app]. f_equal.
  rewrite lor_shift_add by (unfold is_word; Z.to_euclidean_division_equations; lia).
  rewrite wrap_small by (unfold is_word; change (2 ^ 4) with 16; Z.to_euclidean_division_equations; lia).
  change (2 ^ 4) with 16. Z.to_euclidean_division_equations; lia.
Qed.

(** The digits are upper case, two for a byte.  [*outLen] counts the null byte
    that follows them when there is room; decoding the digits gives the bytes back, but
    decoding as many characters as were reported is refused when a null byte
    was counted. *)
Lemma Base16_roundtrip l outLen decLen :
  is_bytes l -> 2 * Zlen l <= outLen < 2 ^ 32 -> Zlen l <= decLen ->
  Base16_Encode l outLen =
    (0, (if outLen >? 2 * Zlen l then hex_text l ++ [0] else hex_text l), 2 * Zlen l + c_bool (outLen >? 2 * Zlen l)) /\
  Base16_Decode (hex_text l) decLen = (0, l, Zlen l) /\
  (l <> [] -> Base16_Decode (hex_text l ++ [0]) decLen = (BAD_FUNC_ARG, [], decLen)).
Proof.
  intros B L D. pose proof (Zlen_nonneg l) as Ln. split; [| split].
  - unfold Base16_Encode. change (0xFFFFFFFF / 2) with 2147483647.
    destruct (Z.gtb_spec (Zlen l) 2147483647), (Z.ltb_spec outLen (2 * Zlen l)); try lia.
    assert (T : flat_map (fun b => [rd hexEncode (Z.shiftr b 4); rd hexEncode (Z.land b 0x0f)]) l = hex_text l).
    { clear - B. induction B as [| b l Hb B IH]; [reflexivity |]. cbn [flat_map]. rewrite IH.
      change 0x0f with (Z.ones 4). rewrite Z.land_ones, Z.shiftr_div_pow2 by lia. reflexivity. }
    rewrite T, hex_text_length. cbv zeta. unfold c_bool.
    destruct (outLen >? 2 * Zlen l); rewrite ?Zlen_app, hex_text_length; [reflexivity |]. now rewrite Z.add_0_r.
  - unfold Base16_Decode. rewrite hex_text_length. destruct (Z.eqb_spec (2 * Zlen l) 1); [lia |]. cbn [andb].
    rewrite (Z.mul_comm 2), Z.mod_mul, Z.div_mul by lia. cbn [negb Z.eqb].
    destruct (Z.ltb_spec decLen (Zlen l)); [lia |]. now rewrite hex_pairs_text.
  - intros Hl. unfold Base16_Decode. rewrite Zlen_app, hex_text_length. change (Zlen [0]) with 1.
    assert (0 < Zlen l) by (destruct l; [contradiction | rewrite Zlen_cons; pose proof (Zlen_nonneg l); lia]).
    destruct (Z.eqb_spec (2 * Zlen l + 1) 1); [lia |]. cbn [andb].
    rewrite (Z.add_comm (2 * _)), (Z.mul_comm 2), Z.mod_add by lia. reflexivity.
Qed.

(** ** UTF-8 *)

Lemma utf8_lead_spec c : is_word 8 c ->
  utf8_lead c =
  if c <? 0xC0 then None else if c <? 0xE0 then Some (1, 0x80, c - 0xC0)
  else if c <? 0xF0 then Some (2, 0x800, c - 0xE0)
  else if c <? 0xF8 then Some (3, 0x10000, c - 0xF0) else None.
Proof.
  intros H%byte_range. by_values c 256 (fun c => bool_decide (utf8_lead c =
    if c <? 0xC0 then None else if c <? 0xE0 then Some (1, 0x80, c - 0xC0)
    else if c <? 0xF0 then Some (2, 0x800, c - 0xE0)
    else if c <? 0xF8 then Some (3, 0x10000, c - 0xF0) else None)).
  apply bool_decide_eq_true_1.
Qed.

Lemma continuation b : is_word 8 b ->
  (Z.land b 0xC0 =? 0x80) = (0x80 <=? b) && (b <? 0xC0) /\ Z.land b 0x3F = b mod 64.
Proof.
  intros H%byte_range. split; [| exact (Z.land_ones b 6 ltac:(lia))].
  by_values b 256 (fun b => bool_decide ((Z.land b 0xC0 =? 0x80) = (0x80 <=? b) && (b <? 0xC0))).
  apply bool_decide_eq_true_1.
Qed.

Lemma utf8_continue_S n b rest c : is_word 8 b -> 0 <= c < 2 ^ 26 ->
  utf8_continue (S n) (b :: rest) c =
  if (0x80 <=? b) && (b <? 0xC0) then utf8_continue n rest (64 * c + b mod 64) else inl ASN_INPUT_E.
Proof.
  intros Hb Hc. cbn [utf8_continue]. destruct (continuation b Hb) as [-> ->].
  destruct (_ && _); [| reflexivity]. cbn [negb]. f_equal.
  pose proof (Z.mod_pos_bound b 64 ltac:(lia)).
  rewrite wrap_small by (unfold is_word; rewrite Z.shiftl_mul_pow2 by lia; lia).
  rewrite lor_shift_add by (unfold is_word; lia). lia.
Qed.

(** The decoder on the octets [k] from [idx] on. *)
Definition decode_at (idx : Z) (k : list Z) : Z + Z * Z :=
  match k with
  | [] => inl BUFFER_E
  | c :: t =>
      if c <? 0x80 then inr (u32 (idx + 1), c)
      else
        match utf8_lead c with
        | None => inl ASN_INPUT_E
        | Some (need, minCp, c) =>
            if Zlen t <? need then inl BUFFER_E
            else
              match utf8_continue (Z.to_nat need) t c with
              | inl e => inl e
              | inr c =>
                  if (c <? minCp) || (c >? WC_UNICODE_MAX_CODEPOINT) ||
                     ((c >=? WC_UTF16_HI_SURROGATE_MIN) && (c <=? WC_UTF16_LO_SURROGATE_MAX))
                  then inl ASN_INPUT_E
                  else inr (u32 (u32 (idx + need) + 1), c)
              end
        end
  end.

Lemma DecodeChar_at l idx : 0 <= idx -> wc_Utf8_DecodeChar l idx = decode_at idx (drop (Z.to_nat idx) l).
Proof.
  intros Hi. unfold wc_Utf8_DecodeChar, decode_at. destruct (drop (Z.to_nat idx) l) as [| c t] eqn:E.
  - apply (f_equal length) in E. rewrite length_drop in E. cbn in E.
    destruct (Z.geb_spec idx (Zlen l)); [reflexivity | unfold Zlen in *; lia].
  - pose proof (f_equal length E) as EL. rewrite length_drop in EL. cbn in EL.
    destruct (Z.geb_spec idx (Zlen l)); [unfold Zlen in *; lia |].
    assert (R : rd l idx = c).
    { apply rd_lookup. rewrite <- (Nat.add_0_r (Z.to_nat idx)), <- lookup_drop, E. reflexivity. }
    assert (T : skipn (Z.to_nat (idx + 1)) l = t).
    { replace (Z.to_nat (idx + 1)) with (Z.to_nat idx + 1)%nat by lia. rewrite <- drop_drop, E. reflexivity. }
    rewrite R, T. destruct (c <? 0x80); [reflexivity |]. destruct (utf8_lead c) as [[[need minCp] c0] |]; [| reflexivity].
    destruct (Z.leb_spec (Zlen l - idx) need), (Z.ltb_spec (Zlen t) need); try reflexivity; unfold Zlen in *; lia.
Qed.

Ltac euclid := Z.to_euclidean_division_equations; lia.

Lemma utf8_form2 c b : 0xC0 <= c < 0xE0 -> 0x80 <= b < 0xC0 -> 0x80 <= 64 * (c - 0xC0) + b mod 64 ->
  Rfc3629.utf8 (64 * (c - 0xC0) + b mod 64) = [c; b].
Proof.
  intros Hc Hb Hm. pose proof (Z.mod_pos_bound b 64 ltac:(lia)) as M. unfold Rfc3629.utf8. set (v := 64 * _ + _) in *.
  destruct (Z.ltb_spec v 0x80), (Z.ltb_spec v 0x800); try lia.
  repeat (apply (f_equal2 cons)); try reflexivity; subst v; euclid.
Qed.

Lemma utf8_form3 c b1 b2 : 0xE0 <= c < 0xF0 -> 0x80 <= b1 < 0xC0 -> 0x80 <= b2 < 0xC0 ->
  let v := 64 * (64 * (c - 0xE0) + b1 mod 64) + b2 mod 64 in 0x800 <= v ->
  Rfc3629.utf8 v = [c; b1; b2].
Proof.
  intros Hc H1 H2 v Hm. pose proof (Z.mod_pos_bound b1 64 ltac:(lia)) as M1. pose proof (Z.mod_pos_bound b2 64 ltac:(lia)) as M2.
  unfold Rfc3629.utf8. destruct (Z.ltb_spec v 0x80), (Z.ltb_spec v 0x800), (Z.ltb_spec v 0x10000); try lia.
  change (64 ^ 2) with 4096. repeat (apply (f_equal2 cons)); try reflexivity; subst v; euclid.
Qed.

Lemma utf8_form4 c b1 b2 b3 : 0xF0 <= c < 0xF8 -> 0x80 <= b1 < 0xC0 -> 0x80 <= b2 < 0xC0 -> 0x80 <= b3 < 0xC0 ->
  let v := 64 * (64 * (64 * (c - 0xF0) + b1 mod 64) + b2 mod 64) + b3 mod 64 in 0x10000 <= v ->
  Rfc3629.utf8 v = [c; b1; b2; b3].
Proof.
  intros Hc H1 H2 H3 v Hm. pose proof (Z.mod_pos_bound b1 64 ltac:(lia)) as M1.
  pose proof (Z.mod_pos_bound b2 64 ltac:(lia)) as M2. pose proof (Z.mod_pos_bound b3 64 ltac:(lia)) as M3.
  unfold Rfc3629.utf8. destruct (Z.ltb_spec v 0x80), (Z.ltb_spec v 0x800), (Z.ltb_spec v 0x10000); try lia.
  change (64 ^ 3) with 262144. change (64 ^ 2) with 4096.
  repeat (apply (f_equal2 cons)); try reflexivity; subst v; euclid.
Qed.

(** The last test of the code is membership in the scalar values. *)
Lemma scalar_test c minCp : 0 <= c -> 0x80 <= minCp ->
  ((c <? minCp) || (c >? WC_UNICODE_MAX_CODEPOINT) ||
   ((c >=? WC_UTF16_HI_SURROGATE_MIN) && (c <=? WC_UTF16_LO_SURROGATE_MAX))) = false <->
  minCp <= c /\ Rfc3629.scalar c.
Proof.
  intros H0 Hm. unfold Rfc3629.scalar, WC_UNICODE_MAX_CODEPOINT, WC_UTF16_HI_SURROGATE_MIN, WC_UTF16_LO_SURROGATE_MAX. lia.
Qed.

(** The octets that follow the lead, and what they add to the code point. *)
Definition cont (b : Z) : Prop := 0x80 <= b < 0xC0.

Definition octets (c : Z) (bs : list Z) : Z := foldl (fun c b => 64 * c + b mod 64) c bs.

Lemma utf8_continue_iff n : forall t c v, is_bytes t -> 0 <= c -> (c + 1) * 64 ^ Z.of_nat n <= 2 ^ 32 ->
  utf8_continue n t c = inr v <->
  exists bs t', t = bs ++ t' /\ length bs = n /\ Forall cont bs /\ v = octets c bs.
Proof.
  induction n as [| n IH]; intros t c v B Hc Hn.
  - cbn [utf8_continue]. split.
    + intros [= <-]. exists [], t. auto.
    + intros (bs & t' & _ & E & _ & ->). apply nil_length_inv in E. now subst bs.
  - rewrite Nat2Z.inj_succ, Z.pow_succ_r in Hn by lia. pose proof (Z.pow_pos_nonneg 64 (Z.of_nat n) ltac:(lia) ltac:(lia)) as P.
    destruct t as [| b t].
    + split; [discriminate |]. intros (bs & t' & E & L & _). destruct bs; discriminate.
    + apply Forall_cons in B as [Bb Bt]. pose proof (Z.mod_pos_bound b 64 ltac:(lia)) as M.
      assert (Hc26 : 0 <= c < 2 ^ 26) by (change (2 ^ 32) with (64 * 2 ^ 26) in Hn; nia).
      rewrite utf8_continue_S by assumption. destruct ((0x80 <=? b) && (b <? 0xC0)) eqn:T.
      * rewrite IH by (auto; nia). split.
        -- intros (bs & t' & -> & L & F & ->). exists (b :: bs), t'. repeat split; [cbn; lia |]. constructor; [unfold cont; lia | exact F].
        -- intros (bs & t' & E & L & F & ->). destruct bs as [| b' bs]; [discriminate |]. injection E as <- ->.
           apply Forall_cons in F as [_ F]. exists bs, t'. repeat split; auto.
      * split; [discriminate |]. intros (bs & t' & E & L & F & _). destruct bs as [| b' bs]; [discriminate |].
        injection E as <- _. apply Forall_cons in F as [F _]. unfold cont in F. lia.
Qed.

(** A decoded character: the octets from [idx] on begin with its encoding. *)
Definition decodes (k : list Z) (idx idx' cp : Z) : Prop :=
  Rfc3629.scalar cp /\ idx' = idx + Zlen (Rfc3629.utf8 cp) /\
  exists t, k = Rfc3629.utf8 cp ++ t.

(** The four forms of an encoding, by the code point. *)
Lemma utf8_forms cp : Rfc3629.scalar cp ->
  0 <= cp < 0x80 /\ Rfc3629.utf8 cp = [cp] \/
  exists c bs minCp lead, Rfc3629.utf8 cp = c :: bs /\ is_word 8 c /\ 0x80 <= c /\ Forall cont bs /\
    utf8_lead c = Some (Zlen bs, minCp, lead) /\ cp = octets lead bs /\ 0x80 <= minCp <= cp /\ 0 <= lead /\
    (lead + 1) * 64 ^ Zlen bs <= 2 ^ 32.
Proof.
  intros [R _]. unfold Rfc3629.utf8. change (64 ^ 3) with 262144. change (64 ^ 2) with 4096.
  destruct (Z.ltb_spec cp 0x80) as [| L1]; [left; split; [lia | reflexivity] | right].
  destruct (Z.ltb_spec cp 0x800); [| destruct (Z.ltb_spec cp 0x10000)].
  - exists (0xC0 + cp / 64), [0x80 + cp mod 64], 0x80, (cp / 64).
    rewrite utf8_lead_spec by (unfold is_word; euclid).
    destruct (Z.ltb_spec (0xC0 + cp / 64) 0xC0), (Z.ltb_spec (0xC0 + cp / 64) 0xE0); try (exfalso; euclid).
    repeat split; try (unfold is_word, octets; cbn [foldl]; change (Zlen [_]) with 1; euclid).
    + repeat constructor; euclid.
    + do 2 f_equal. lia.
  - exists (0xE0 + cp / 4096), [0x80 + cp / 64 mod 64; 0x80 + cp mod 64], 0x800, (cp / 4096).
    rewrite utf8_lead_spec by (unfold is_word; euclid).
    destruct (Z.ltb_spec (0xE0 + cp / 4096) 0xC0), (Z.ltb_spec (0xE0 + cp / 4096) 0xE0), (Z.ltb_spec (0xE0 + cp / 4096) 0xF0);
      try (exfalso; euclid).
    repeat split; try (unfold is_word, octets; cbn [foldl]; change (Zlen [_; _]) with 2; euclid).
    + repeat constructor; euclid.
    + do 2 f_equal. lia.
  - exists (0xF0 + cp / 262144), [0x80 + cp / 4096 mod 64; 0x80 + cp / 64 mod 64; 0x80 + cp mod 64], 0x10000, (cp / 262144).
    rewrite utf8_lead_spec by (unfold is_word; euclid).
    destruct (Z.ltb_spec (0xF0 + cp / 262144) 0xC0), (Z.ltb_spec (0xF0 + cp / 262144) 0xE0), (Z.ltb_spec (0xF0 + cp / 262144) 0xF0),
      (Z.ltb_spec (0xF0 + cp / 262144) 0xF8); try (exfalso; euclid).
    repeat split; try (unfold is_word, octets; cbn [foldl]; change (Zlen [_; _; _]) with 3; euclid).
    + repeat constructor; euclid.
    + do 2 f_equal. lia.
Qed.

(** Conversely, what the code computes from a lead and as many octets as it
    calls for is encoded by them. *)
Lemma utf8_of_octets c need minCp lead bs : is_word 8 c -> utf8_lead c = Some (need, minCp, lead) ->
  length bs = Z.to_nat need -> Forall cont bs -> minCp <= octets lead bs ->
  Rfc3629.utf8 (octets lead bs) = c :: bs /\ Zlen bs = need /\ 0x80 <= minCp /\ 0 <= lead /\
  (lead + 1) * 64 ^ need <= 2 ^ 32 /\ 0 <= octets lead bs.
Proof.
  intros Hc. rewrite utf8_lead_spec by exact Hc. unfold cont.
  destruct (Z.ltb_spec c 0xC0), (Z.ltb_spec c 0xE0), (Z.ltb_spec c 0xF0), (Z.ltb_spec c 0xF8); try discriminate; try lia;
    intros [= <- <- <-] Lb F Hm; destruct bs as [| b1 [| b2 [| b3 [| b4 bs]]]]; try discriminate Lb;
    repeat (apply Forall_cons in F as [? F]); unfold octets in *; cbn [foldl] in *;
    (split; [first [apply utf8_form2 | apply utf8_form3 | apply utf8_form4]; assumption || lia |]);
    repeat match goal with |- context [?b mod 64] => pose proof (Z.mod_pos_bound b 64 ltac:(lia)); generalize dependent (b mod 64); intros end;
    repeat split; try reflexivity; lia.
Qed.

Lemma octets_nonneg bs : forall c, 0 <= c -> 0 <= octets c bs.
Proof.
  unfold octets. induction bs as [| b bs IH]; intros c H; [exact H |]. cbn [foldl]. apply IH.
  pose proof (Z.mod_pos_bound b 64 ltac:(lia)). lia.
Qed.

Section At.
  Context (k : list Z) (idx n : Z).
  Hypothesis (Bk : is_bytes k) (Hi : 0 <= idx) (L : n < 2 ^ 32) (Lk : k <> [] -> idx + Zlen k = n).

Lemma utf8_at_sound idx' cp : decode_at idx k = inr (idx', cp) -> decodes k idx idx' cp.
Proof using All.
  unfold decode_at, decodes.
  intros H. destruct k as [| c t]; [discriminate |]. specialize (Lk ltac:(discriminate)). rewrite Zlen_cons in Lk.
  pose proof (Zlen_nonneg t). apply Forall_cons in Bk as [Bc Bt]. pose proof (byte_range c Bc).
  destruct (Z.ltb_spec c 0x80).
  + injection H as <- <-. assert (E : Rfc3629.utf8 c = [c]) by (unfold Rfc3629.utf8; destruct (Z.ltb_spec c 0x80); [reflexivity | lia]).
    rewrite E. unfold Rfc3629.scalar. repeat split; try lia; [| now exists t].
    change (Zlen [c]) with 1. apply wrap_small. unfold is_word. lia.
  + destruct (utf8_lead c) as [[[need minCp] lead] |] eqn:EL; [| discriminate].
    destruct (Z.ltb_spec (Zlen t) need); [discriminate |].
    assert (Hn : 0 <= need /\ 0 <= lead /\ (lead + 1) * 64 ^ Z.of_nat (Z.to_nat need) <= 2 ^ 32 /\ 0x80 <= minCp).
    { clear - EL Bc. rewrite utf8_lead_spec in EL by exact Bc. apply byte_range in Bc.
      destruct (Z.ltb_spec c 0xC0), (Z.ltb_spec c 0xE0), (Z.ltb_spec c 0xF0), (Z.ltb_spec c 0xF8); try discriminate;
        injection EL as <- <- <-; change (64 ^ Z.of_nat (Z.to_nat 1)) with 64; change (64 ^ Z.of_nat (Z.to_nat 2)) with 4096;
        change (64 ^ Z.of_nat (Z.to_nat 3)) with 262144; lia. }
    destruct Hn as (Hn & Hl & Hw & Hm).
    destruct (utf8_continue (Z.to_nat need) t lead) as [e | v] eqn:EC; [discriminate |].
    apply utf8_continue_iff in EC as (bs & t' & -> & Lb & F & ->); [| assumption ..].
    match type of H with (if ?b then _ else _) = _ => destruct b eqn:T; [discriminate |] end. injection H as <- <-.
    assert (P : 0 <= octets lead bs).
    { apply octets_nonneg; assumption. }
    apply scalar_test in T as [Tm Ts]; [| assumption ..].
    destruct (utf8_of_octets c need minCp lead bs Bc EL Lb F Tm) as (-> & Lbs & _).
    split; [exact Ts | split; [| now exists t']].
    rewrite Zlen_cons, Lbs, Zlen_app in *. pose proof (Zlen_nonneg t').
    rewrite !wrap_small by (unfold is_word; rewrite ?wrap_small by (unfold is_word; lia); lia). lia.
Qed.

Lemma utf8_at_complete idx' cp : decodes k idx idx' cp -> decode_at idx k = inr (idx', cp).
Proof using All.
  unfold decode_at, decodes.
  intros (S & -> & t & ->). specialize (Lk ltac:(intros E; apply app_eq_nil in E as [E _]; revert E; unfold Rfc3629.utf8; repeat (destruct (_ <? _)); discriminate)).
  destruct (utf8_forms cp S) as [[R E] | (c & bs & minCp & lead & E & Bc & Hc & F & EL & Ev & Hm & H0 & Hw)]; rewrite E in *; cbn [app] in *;
    rewrite !Zlen_cons in *.
  + destruct (Z.ltb_spec cp 0x80); [| lia]. change (Zlen []) with 0 in *. do 2 f_equal. apply wrap_small. unfold is_word.
    pose proof (Zlen_nonneg t). cbn [app] in Lk. lia.
  + destruct (Z.ltb_spec c 0x80); [lia |]. rewrite EL. apply Forall_cons in Bk as [_ Bk]. rewrite Zlen_app in *.
    pose proof (Zlen_nonneg t). pose proof (Zlen_nonneg bs).
    destruct (Z.ltb_spec (Zlen bs + Zlen t) (Zlen bs)); [lia |].
    rewrite (proj2 (utf8_continue_iff (Z.to_nat (Zlen bs)) (bs ++ t) lead cp Bk H0 ltac:(rewrite Z2Nat.id by lia; exact Hw)))
      by (exists bs, t; repeat split; [unfold Zlen; lia | exact F | exact Ev]).
    rewrite (proj2 (scalar_test cp minCp ltac:(lia) ltac:(lia))) by (split; [lia | exact S]).
    do 2 f_equal. rewrite !wrap_small by (unfold is_word; rewrite ?wrap_small by (unfold is_word; lia); lia). lia.
Qed.

End At.

Lemma utf8_at_iff l idx idx' cp : is_bytes l -> 0 <= idx -> Zlen l < 2 ^ 32 ->
  wc_Utf8_DecodeChar l idx = inr (idx', cp) <-> decodes (drop (Z.to_nat idx) l) idx idx' cp.
Proof.
  intros B Hi L. rewrite DecodeChar_at by exact Hi.
  assert (Bk : is_bytes (drop (Z.to_nat idx) l)) by (apply Forall_drop; exact B).
  assert (Lk : drop (Z.to_nat idx) l <> [] -> idx + Zlen (drop (Z.to_nat idx) l) = Zlen l).
  { intros N. unfold Zlen. rewrite length_drop. destruct (decide (Z.to_nat idx < length l)%nat); [lia |].
    now rewrite drop_ge in N by lia. }
  split; [apply (utf8_at_sound _ _ (Zlen l)) | apply (utf8_at_complete _ _ (Zlen l))]; assumption.
Qed.

(** UTF-8 decoding is exact: a call at [idx] succeeds with code point [cp] and
    new index [idx'] if and only if [cp] is a Unicode scalar value and the octets from
    [idx] on begin with the one encoding RFC 3629 gives it.  So overlong forms,
    surrogates, code points past U+10FFFF and truncated or malformed sequences
    are all refused, and nothing else is. *)
Theorem wc_Utf8_DecodeChar_exact l idx idx' cp : is_bytes l -> 0 <= idx -> Zlen l < 2 ^ 32 ->
  wc_Utf8_DecodeChar l idx = inr (idx', cp) <->
  Rfc3629.scalar cp /\ idx' = idx + Zlen (Rfc3629.utf8 cp) /\
  exists t, drop (Z.to_nat idx) l = Rfc3629.utf8 cp ++ t.
Proof. apply utf8_at_iff. Qed.

Lemma wc_Utf8_DecodeChar_exact_witness :
  wc_Utf8_DecodeChar [0x41; 0xE2; 0x82; 0xAC] 1 = inr (4, 0x20AC) <->
  Rfc3629.scalar 0x20AC /\ 4 = 1 + Zlen (Rfc3629.utf8 0x20AC) /\
  exists t, drop (Z.to_nat 1) [0x41; 0xE2; 0x82; 0xAC] = Rfc3629.utf8 0x20AC ++ t.
Proof.
  apply (wc_Utf8_DecodeChar_exact [0x41; 0xE2; 0x82; 0xAC] 1 4 0x20AC); [repeat constructor; discriminate | discriminate | reflexivity].
Defined.
