(* ===== verification/Sha256.v ===== *)
(** * wolfcrypt/src/sha256.c: SHA-256

    The portable implementation: [wc_Sha256Update] absorbs a message in
    pieces of any size, through a buffer of one block, and [wc_Sha256Final]
    pads and returns the digest.  Both forms of the block function are
    modelled, the default one and the one that keeps its data in registers
    ([SHA256_MANY_REGISTERS]), in which the message schedule is a circular
    array of 16 words.

    The build modelled is software only, little-endian, with bytes of 8 bits,
    where the block function cannot fail.  [buffer] is the memory of the
    word array, as bytes, because the code writes it as bytes and reads it as
    words.  The state is [wc_Sha256] without the fields for heaps and devices.

    The specification, FIPS 180-4, comes first. *)

From S2P Require Import Prelude Misc.
From stdpp Require Import list.

#[local] Open Scope Z_scope.
#[local] Open Scope cword_scope.

Definition WC_SHA256_BLOCK_SIZE : Z := 64.
Definition WC_SHA256_PAD_SIZE : Z := 56.
Definition WC_SHA256_DIGEST_SIZE : Z := 32.

(** ** Words in memory *)

Fixpoint le_words (l : list Z) : list Z :=
  match l with
  | a :: b :: c :: d :: l => le_value [a; b; c; d] :: le_words l
  | _ => []
  end.

Fixpoint be_words (l : list Z) : list Z :=
  match l with
  | a :: b :: c :: d :: l => be_value [a; b; c; d] :: be_words l
  | _ => []
  end.

Definition le_memory (ws : list Z) : list Z := concat (map (le_bytes 4) ws).
Definition be_memory (ws : list Z) : list Z := concat (map (be_bytes 4) ws).

(** ** FIPS 180-4 *)
Module Spec.

(** The constants are the fractional parts, to 32 bits, of the cube roots of
    the first 64 primes and of the square roots of the first 8. *)
Definition is_prime (p : Z) : bool :=
  forallb (fun d => negb (p mod d =? 0)) (map Z.of_nat (seq 2 (Z.to_nat p - 2))).
Definition primes (below : nat) : list Z :=
  List.filter is_prime (map Z.of_nat (seq 2 (below - 2))).

(** The integer cube root, bit by bit. *)
Fixpoint icbrt (bits : nat) (n r : Z) : Z :=
  match bits with
  | O => r
  | S b =>
      let r' := r + 2 ^ Z.of_nat b in
      icbrt b n (if r' * r' * r' <=? n then r' else r)
  end.

Definition K256 : list Z := map (fun p => u32 (icbrt 36 (p * 2 ^ 96) 0)) (primes 312).
Definition H0 : list Z := map (fun p => u32 (Z.sqrt (p * 2 ^ 64))) (primes 20).

Definition ROTR (n x : Z) : Z := Z.lor (Z.shiftr x n) (u32 (Z.shiftl x (32 - n))).
Definition SHR (n x : Z) : Z := Z.shiftr x n.

Definition ch (x y z : Z) : Z := Z.lxor (Z.land x y) (Z.land (cnot 32 x) z).
Definition maj (x y z : Z) : Z := Z.lxor (Z.lxor (Z.land x y) (Z.land x z)) (Z.land y z).
Definition big_sigma0 (x : Z) : Z := Z.lxor (Z.lxor (ROTR 2 x) (ROTR 13 x)) (ROTR 22 x).
Definition big_sigma1 (x : Z) : Z := Z.lxor (Z.lxor (ROTR 6 x) (ROTR 11 x)) (ROTR 25 x).
Definition sigma0 (x : Z) : Z := Z.lxor (Z.lxor (ROTR 7 x) (ROTR 18 x)) (SHR 3 x).
Definition sigma1 (x : Z) : Z := Z.lxor (Z.lxor (ROTR 17 x) (ROTR 19 x)) (SHR 10 x).

(** The message schedule: the 16 words of the block, extended to 64. *)
Fixpoint extend (n : nat) (W : list Z) : list Z :=
  match n with
  | O => W
  | S n =>
      let t := Zlen W in
      extend n (W ++ [u32 (sigma1 (rd W (t - 2)) + rd W (t - 7) + sigma0 (rd W (t - 15)) + rd W (t - 16))])
  end.

Definition schedule (M : list Z) : list Z := extend 48 (be_words M).

(** One round on the working variables [a..h]. *)
Definition round (v : list Z) (k w : Z) : list Z :=
  match v with
  | [a; b; c; d; e; f; g; h] =>
      let T1 := u32 (h + big_sigma1 e + ch e f g + k + w) in
      let T2 := u32 (big_sigma0 a + maj a b c) in
      [u32 (T1 + T2); a; b; c; u32 (d + T1); e; f; g]
  | _ => v
  end.

(** Rounds [t], [t+1], ... of a schedule. *)
Fixpoint rounds (n : nat) (t : Z) (W v : list Z) : list Z :=
  match n with
  | O => v
  | S n => rounds n (t + 1) W (round v (rd K256 t) (rd W t))
  end.

Definition compress (H M : list Z) : list Z :=
  zip_with (fun x y => u32 (x + y)) H (rounds 64 0 (schedule M) H).

(** [n] blocks of a message. *)
Fixpoint compress_blocks (n : nat) (H m : list Z) : list Z :=
  match n with
  | O => H
  | S n => compress_blocks n (compress H (take 64 m)) (drop 64 m)
  end.

(** The padding of a message of [len] bytes. *)
Definition padding (len : Z) : list Z :=
  [0x80] ++ replicate (Z.to_nat ((55 - len) mod 64)) 0 ++ be_bytes 8 (8 * len).

Definition sha256 (m : list Z) : list Z :=
  let p := m ++ padding (Zlen m) in
  be_memory (compress_blocks (length p / 64) H0 p).

End Spec.

(** ** The block function *)

Definition K : list Z :=
  [0x428A2F98; 0x71374491; 0xB5C0FBCF; 0xE9B5DBA5; 0x3956C25B; 0x59F111F1; 0x923F82A4; 0xAB1C5ED5;
   0xD807AA98; 0x12835B01; 0x243185BE; 0x550C7DC3; 0x72BE5D74; 0x80DEB1FE; 0x9BDC06A7; 0xC19BF174;
   0xE49B69C1; 0xEFBE4786; 0x0FC19DC6; 0x240CA1CC; 0x2DE92C6F; 0x4A7484AA; 0x5CB0A9DC; 0x76F988DA;
   0x983E5152; 0xA831C66D; 0xB00327C8; 0xBF597FC7; 0xC6E00BF3; 0xD5A79147; 0x06CA6351; 0x14292967;
   0x27B70A85; 0x2E1B2138; 0x4D2C6DFC; 0x53380D13; 0x650A7354; 0x766A0ABB; 0x81C2C92E; 0x92722C85;
   0xA2BFE8A1; 0xA81A664B; 0xC24B8B70; 0xC76C51A3; 0xD192E819; 0xD6990624; 0xF40E3585; 0x106AA070;
   0x19A4C116; 0x1E376C08; 0x2748774C; 0x34B0BCB5; 0x391C0CB3; 0x4ED8AA4A; 0x5B9CCA4F; 0x682E6FF3;
   0x748F82EE; 0x78A5636F; 0x84C87814; 0x8CC70208; 0x90BEFFFA; 0xA4506CEB; 0xBEF9A3F7; 0xC67178F2].

(** The macros; [Ch] and [Maj] in the form reworked for the compiler. *)
Definition Ch (x y z : Z) : Z := Z.lxor (Z.land (Z.lxor y z) x) z.
Definition Maj (x y z : Z) : Z := Z.lxor (Z.land (Z.lxor x y) (Z.lxor y z)) y.
Definition R (x n : Z) : Z := Z.shiftr (Z.land x 0xFFFFFFFF) n.
Definition Sigma0 (x : Z) : Z :=
  Z.lxor (Z.lxor (Rot.rotrFixed x 2) (Rot.rotrFixed x 13)) (Rot.rotrFixed x 22).
Definition Sigma1 (x : Z) : Z :=
  Z.lxor (Z.lxor (Rot.rotrFixed x 6) (Rot.rotrFixed x 11)) (Rot.rotrFixed x 25).
Definition Gamma0 (x : Z) : Z := Z.lxor (Z.lxor (Rot.rotrFixed x 7) (Rot.rotrFixed x 18)) (R x 3).
Definition Gamma1 (x : Z) : Z := Z.lxor (Z.lxor (Rot.rotrFixed x 17) (Rot.rotrFixed x 19)) (R x 10).

(** The cell of the working variable number [k] ([a] is 0, [h] is 7) in round
    [j] of eight: the variables rotate through the array [S]. *)
Definition at_ (k j : Z) : Z := Z.land (k - j) 7.

(** [RND(j)], given the word [W[i+j]]. *)
Definition RND (i j w : Z) (V : list Z) : list Z :=
  let v k := rd V (at_ k j) in
  let t0 := v 7 +u32 Sigma1 (v 4) +u32 Ch (v 4) (v 5) (v 6) +u32 rd K (i + j) +u32 w in
  let t1 := Sigma0 (v 0) +u32 Maj (v 0) (v 1) (v 2) in
  let V := <[Z.to_nat (at_ 3 j) := v 3 +u32 t0]> V in
  <[Z.to_nat (at_ 7 j) := t0 +u32 t1]> V.

(** [for (i = 16; i < 64; i++) W[i] = ...], [n] iterations. *)
Fixpoint fill_W (n : nat) (W : list Z) : list Z :=
  match n with
  | O => W
  | S n =>
      let i := Zlen W in
      fill_W n (W ++ [Gamma1 (rd W (i - 2)) +u32 rd W (i - 7) +u32 Gamma0 (rd W (i - 15)) +u32 rd W (i - 16)])
  end.

Definition eight : list Z := [0; 1; 2; 3; 4; 5; 6; 7].
Definition sixteen : list Z := [0; 1; 2; 3; 4; 5; 6; 7; 8; 9; 10; 11; 12; 13; 14; 15].

(** [Transform_Sha256]: the digest after the block [data]. *)
Definition Transform_Sha256 (digest data : list Z) : list Z :=
  let W := fill_W 48 (le_words data) in
  let V := foldl (fun V i => foldl (fun V j => RND i j (rd W (i + j)) V) V eight) digest
             [0; 8; 16; 24; 32; 40; 48; 56] in
  zip_with (fun x y => x +u32 y) digest V.

(** [RND1(j)] and [RNDN(j)] on the working variables and the circular [W]. *)
Definition RND1 (i j : Z) (data : list Z) (SW : list Z * list Z) : list Z * list Z :=
  let '(V, W) := SW in
  let W := <[Z.to_nat j := rd (le_words data) j]> W in
  (RND i j (rd W j) V, W).

Definition RNDN (i j : Z) (SW : list Z * list Z) : list Z * list Z :=
  let '(V, W) := SW in
  let c k := Z.land k 15 in
  let w := rd W (c j) +u32
           (Gamma1 (rd W (c (j - 2))) +u32 rd W (c (j - 7)) +u32 Gamma0 (rd W (c (j - 15)))) in
  let W := <[Z.to_nat (c j) := w]> W in
  (RND i j (rd W (c j)) V, W).

(** [Transform_Sha256] with [SHA256_MANY_REGISTERS]; [W] is what the array on
    the stack holds. *)
Definition Transform_Sha256_regs (W digest data : list Z) : list Z :=
  let SW := foldl (fun SW j => RND1 0 j data SW) (digest, W) sixteen in
  let SW := foldl (fun SW i => foldl (fun SW j => RNDN i j SW) SW sixteen) SW [16; 32; 48] in
  zip_with (fun x y => x +u32 y) digest (fst SW).

(** ** The streaming interface

    [transform] is the block function the build uses. *)

Record wc_Sha256 := mk_sha256 {
  digest : list Z;    (* 8 words *)
  buffer : list Z;    (* 64 bytes of memory *)
  buffLen : Z;
  loLen : Z;          (* length in bytes, low word *)
  hiLen : Z }.

Definition InitSha256 : wc_Sha256 :=
  {| digest := [0x6A09E667; 0xBB67AE85; 0x3C6EF372; 0xA54FF53A; 0x510E527F; 0x9B05688C; 0x1F83D9AB;
                0x5BE0CD19];
     buffer := replicate 64 0; buffLen := 0; loLen := 0; hiLen := 0 |}.

(** [ByteReverseWords] on the first [n] bytes of memory. *)
Definition reverse_memory (mem : list Z) (n : Z) : list Z :=
  le_memory (Rot.ByteReverseWords (le_words mem) n) ++ drop (Z.to_nat n) mem.

(** [XMEMCPY(&local[pos], data, len)] *)
Definition put (pos : Z) (data mem : list Z) : list Z :=
  take (Z.to_nat pos) mem ++ data ++ drop (Z.to_nat pos + length data) mem.

Section Stream.
  Variable transform : list Z -> list Z -> list Z.

Definition AddLength (s : wc_Sha256) (len : Z) : wc_Sha256 :=
  let tmp := loLen s in
  let lo := loLen s +u32 len in
  mk_sha256 (digest s) (buffer s) (buffLen s) lo (if lo <? tmp then hiLen s +u32 1 else hiLen s).

(** [ByteReverseWords] over the buffer and [XTRANSFORM]. *)
Definition XTRANSFORM (s : wc_Sha256) : wc_Sha256 :=
  let buf := reverse_memory (buffer s) WC_SHA256_BLOCK_SIZE in
  mk_sha256 (transform (digest s) buf) buf (buffLen s) (loLen s) (hiLen s).

Definition set_buffer (b : list Z) (n : Z) (s : wc_Sha256) : wc_Sha256 :=
  mk_sha256 (digest s) b n (loLen s) (hiLen s).

(** [while (len >= WC_SHA256_BLOCK_SIZE)]: what is left of [data]. *)
Fixpoint update_blocks (fuel : nat) (s : wc_Sha256) (data : list Z) : wc_Sha256 * list Z :=
  if Zlen data >=? WC_SHA256_BLOCK_SIZE then
    match fuel with
    | O => (s, data)
    | S fuel =>
        let s := set_buffer (put 0 (take 64 data) (buffer s)) (buffLen s) s in
        update_blocks fuel (XTRANSFORM s) (drop 64 data)
    end
  else (s, data).

Definition Sha256Update (s : wc_Sha256) (data : list Z) : Z * wc_Sha256 :=
  if buffLen s >=? WC_SHA256_BLOCK_SIZE then (BUFFER_E, s)
  else
    let s := AddLength s (Zlen data) in
    let '(s, data) :=
      if buffLen s >? 0 then
        let blocksLen := Z.min (Zlen data) (WC_SHA256_BLOCK_SIZE - buffLen s) in
        let chunk := take (Z.to_nat blocksLen) data in
        let s := set_buffer (put (buffLen s) chunk (buffer s)) (buffLen s +u32 blocksLen) s in
        let data := drop (Z.to_nat blocksLen) data in
        if buffLen s =? WC_SHA256_BLOCK_SIZE
        then let s := XTRANSFORM s in (set_buffer (buffer s) 0 s, data)
        else (s, data)
      else (s, data) in
    let '(s, data) := update_blocks (length data) s data in
    if Zlen data >? 0 then (0, set_buffer (put 0 data (buffer s)) (Zlen data) s) else (0, s).

(** [wc_Sha256Update] on a context and data that are not [NULL]. *)
Definition wc_Sha256Update (s : wc_Sha256) (data : list Z) : Z * wc_Sha256 :=
  if Zlen data =? 0 then (0, s) else Sha256Update s data.

Definition Sha256Final (s : wc_Sha256) : Z * wc_Sha256 :=
  if buffLen s >? WC_SHA256_BLOCK_SIZE - 1 then (BAD_STATE_E, s)
  else
    let s := set_buffer (put (buffLen s) [0x80] (buffer s)) (buffLen s +u32 1) s in
    let s :=
      if buffLen s >? WC_SHA256_PAD_SIZE then
        let zeros := replicate (Z.to_nat (WC_SHA256_BLOCK_SIZE - buffLen s)) 0 in
        let s := if buffLen s <? WC_SHA256_BLOCK_SIZE
                 then set_buffer (put (buffLen s) zeros (buffer s)) (buffLen s) s else s in
        let s := XTRANSFORM s in set_buffer (buffer s) 0 s
      else s in
    let zeros := replicate (Z.to_nat (WC_SHA256_PAD_SIZE - buffLen s)) 0 in
    let b := put (buffLen s) zeros (buffer s) in
    let hi := (loLen s >>u 29) +u32 (hiLen s <<u32 3) in
    let lo := loLen s <<u32 3 in
    let b := reverse_memory b WC_SHA256_PAD_SIZE in
    let b := put WC_SHA256_PAD_SIZE (le_bytes 4 hi) b in
    let b := put (WC_SHA256_PAD_SIZE + 4) (le_bytes 4 lo) b in
    (0, mk_sha256 (transform (digest s) b) b (buffLen s) lo hi).

Definition wc_Sha256FinalRaw (s : wc_Sha256) : list Z :=
  le_memory (Rot.ByteReverseWords (digest s) WC_SHA256_DIGEST_SIZE).

Definition wc_Sha256Final (s : wc_Sha256) : Z * list Z * wc_Sha256 :=
  let '(ret, s) := Sha256Final s in
  if negb (ret =? 0) then (ret, [], s)
  else
    let d := Rot.ByteReverseWords (digest s) WC_SHA256_DIGEST_SIZE in
    (0, le_memory d, InitSha256).

(** [wc_Sha256GetHash]: the digest so far, of a copy. *)
Definition wc_Sha256GetHash (s : wc_Sha256) : Z * list Z := fst (wc_Sha256Final s).

End Stream.

(** ** Words in memory: lemmas *)

Lemma four_cases {A} (l : list A) (P : list A -> Prop) :
  (forall a b c d l', l = a :: b :: c :: d :: l' -> P l) -> ((length l < 4)%nat -> P l) -> P l.
Proof.
  intros H1 H2. destruct l as [| a [| b [| c [| d l]]]]; [| | | | eauto]; apply H2; cbn; lia.
Qed.

(** Induction by blocks of four. *)
Lemma list_ind4 {A} (P : list A -> Prop) :
  (forall l, (length l < 4)%nat -> P l) ->
  (forall a b c d l, P l -> P (a :: b :: c :: d :: l)) -> forall l, P l.
Proof.
  intros H0 H4 l. remember (length l) as n eqn:E. assert (L : (length l <= n)%nat) by lia. clear E.
  revert l L. induction n as [n IH] using lt_wf_ind. intros l L.
  apply (four_cases l); [intros a b c d l' -> | now apply H0].
  apply H4. apply (IH (length l')); cbn in L; lia.
Qed.

Lemma le_words_short l : (length l < 4)%nat -> le_words l = [].
Proof. destruct l as [| a [| b [| c [| d l]]]]; cbn; intros; lia || reflexivity. Qed.

Lemma be_words_short l : (length l < 4)%nat -> be_words l = [].
Proof. destruct l as [| a [| b [| c [| d l]]]]; cbn; intros; lia || reflexivity. Qed.

Lemma le_words_length l : length (le_words l) = (length l / 4)%nat.
Proof.
  induction l as [l H | a b c d l IH] using list_ind4.
  - rewrite le_words_short, Nat.div_small by exact H. reflexivity.
  - cbn [le_words length]. rewrite IH. change (S (S (S (S (length l))))) with (4 + length l)%nat.
    replace (4 + length l)%nat with (length l + 1 * 4)%nat by lia. rewrite Nat.div_add by lia. lia.
Qed.

Lemma be_words_length l : length (be_words l) = (length l / 4)%nat.
Proof.
  induction l as [l H | a b c d l IH] using list_ind4.
  - rewrite be_words_short, Nat.div_small by exact H. reflexivity.
  - cbn [be_words length]. rewrite IH. change (S (S (S (S (length l))))) with (4 + length l)%nat.
    replace (4 + length l)%nat with (length l + 1 * 4)%nat by lia. rewrite Nat.div_add by lia. lia.
Qed.

Lemma bytes4_word a b c d : is_bytes [a; b; c; d] -> is_word 32 (le_value [a; b; c; d]).
Proof. intros H. apply le_value_bound in H. exact H. Qed.

(** Reversing the bytes of each word turns the little-endian reading of a
    memory into the big-endian one. *)
Lemma reverse_words l :
  is_bytes l -> Rot.ByteReverseWord32 <$> le_words l = be_words l.
Proof.
  induction l as [l H | a b c d l IH] using list_ind4; intros B.
  - now rewrite le_words_short, be_words_short by exact H.
  - change (a :: b :: c :: d :: l) with ([a; b; c; d] ++ l) in B. apply is_bytes_app in B as [B4 Bl].
    cbn [le_words be_words fmap list_fmap]. rewrite IH by exact Bl. f_equal.
    rewrite ByteReverseWord32_spec by now apply bytes4_word.
    f_equal. exact (le_bytes_value [a; b; c; d] B4).
Qed.

Lemma le_words_memory ws : Forall (is_word 32) ws -> le_words (le_memory ws) = ws.
Proof.
  induction 1 as [| w ws Hw _ IH]; [reflexivity |].
  change (le_words (le_bytes 4 w ++ le_memory ws) = w :: ws). cbn [le_bytes app].
  set (m := le_memory ws) in *. cbn [le_words]. rewrite IH. f_equal.
  change (le_value (le_bytes 4 w) = w). rewrite le_value_bytes. now apply wrap_small.
Qed.

Lemma le_words_app l l' :
  (length l mod 4 = 0)%nat -> le_words (l ++ l') = le_words l ++ le_words l'.
Proof.
  induction l as [l H | a b c d l IH] using list_ind4; intros M.
  - rewrite Nat.mod_small in M by exact H. now destruct l.
  - cbn [app le_words]. rewrite IH; [reflexivity |]. cbn [length] in M.
    replace (S (S (S (S (length l))))) with (length l + 1 * 4)%nat in M by lia.
    now rewrite Nat.Div0.mod_add in M.
Qed.

Lemma be_words_app l l' :
  (length l mod 4 = 0)%nat -> be_words (l ++ l') = be_words l ++ be_words l'.
Proof.
  induction l as [l H | a b c d l IH] using list_ind4; intros M.
  - rewrite Nat.mod_small in M by exact H. now destruct l.
  - cbn [app be_words]. rewrite IH; [reflexivity |]. cbn [length] in M.
    replace (S (S (S (S (length l))))) with (length l + 1 * 4)%nat in M by lia.
    now rewrite Nat.Div0.mod_add in M.
Qed.

Lemma be_words_word l : is_bytes l -> Forall (is_word 32) (be_words l).
Proof.
  induction l as [l H | a b c d l IH] using list_ind4; intros B.
  - rewrite be_words_short by exact H. constructor.
  - change (a :: b :: c :: d :: l) with ([a; b; c; d] ++ l) in B. apply is_bytes_app in B as [B4 Bl].
    constructor; [| now apply IH]. apply be_value_is_word; [exact B4 | reflexivity].
Qed.

(** ** The block function computes FIPS 180-4 *)

Lemma K_eq : Spec.K256 = K.
Proof. vm_compute. reflexivity. Qed.

(** Sums of words are equal when the sums of integers are. *)
Ltac u32_sum :=
  repeat first [ rewrite u32_add_r | rewrite u32_add_l | rewrite u32_add_m
               | progress repeat rewrite <- Z.add_assoc ]; f_equal; lia.

Lemma R_SHR x n : is_word 32 x -> R x n = Spec.SHR n x.
Proof.
  intros Hx. unfold R, Spec.SHR. change 0xFFFFFFFF with (Z.ones 32).
  rewrite Z.land_ones by lia. fold (u32 x). now rewrite wrap_small.
Qed.

Lemma Gamma0_sigma0 x : is_word 32 x -> Gamma0 x = Spec.sigma0 x.
Proof. intros Hx. unfold Gamma0. now rewrite R_SHR. Qed.

Lemma Gamma1_sigma1 x : is_word 32 x -> Gamma1 x = Spec.sigma1 x.
Proof. intros Hx. unfold Gamma1. now rewrite R_SHR. Qed.

Lemma Ch_spec x y z : is_word 32 z -> Ch x y z = Spec.ch x y z.
Proof.
  intros Hz. unfold Ch, Spec.ch, cnot. apply Z.bits_inj'. intros i Hi.
  rewrite !Z.lxor_spec, !Z.land_spec, Z.lxor_spec, wrap_testbit, Z.lnot_spec by lia.
  destruct (Z.ltb_spec i 32) as [| Hh].
  - now destruct (Z.testbit x i), (Z.testbit y i), (Z.testbit z i).
  - rewrite (word_testbit_high 32 z) by (lia || exact Hz).
    now destruct (Z.testbit x i), (Z.testbit y i).
Qed.

Lemma Maj_spec x y z : Maj x y z = Spec.maj x y z.
Proof.
  unfold Maj, Spec.maj. apply Z.bits_inj'. intros i Hi.
  rewrite !Z.lxor_spec, !Z.land_spec, !Z.lxor_spec.
  now destruct (Z.testbit x i), (Z.testbit y i), (Z.testbit z i).
Qed.

(** *** The rotating variables *)

Lemma at_mod k j : at_ k j = (k - j) mod 8.
Proof. exact (Z.land_ones (k - j) 3 ltac:(lia)). Qed.

(** The working variables [a..h] in round [t]. *)
Definition view (t : Z) (V : list Z) : list Z := map (fun k => rd V (at_ k t)) eight.

Definition words8 (V : list Z) : Prop := length V = 8%nat /\ Forall (is_word 32) V.

Lemma view_period t V : t mod 8 = 0 -> words8 V -> view t V = V.
Proof.
  intros Ht [L _]. destruct V as [| v0 [| v1 [| v2 [| v3 [| v4 [| v5 [| v6 [| v7 [|]]]]]]]]]; try discriminate L.
  unfold view, eight. cbn [map]. rewrite !at_mod.
  rewrite !(Zminus_mod _ t), Ht. reflexivity.
Qed.

Lemma view_words t V : words8 V -> words8 (view t V).
Proof.
  intros [L F]. split; [reflexivity |]. unfold view. apply Forall_map, Forall_forall.
  intros k _. apply rd_is_word; [lia | exact F].
Qed.

Lemma RND_words i j w V : words8 V -> words8 (RND i j w V).
Proof.
  intros [L F]. unfold RND. split; [now rewrite !length_insert |].
  apply Forall_insert; [apply Forall_insert; [exact F |] |]; apply wrap_is_word; lia.
Qed.

#[local] Ltac mod8_literal :=
  match goal with
  | |- context [Z.modulo ?a 8] => let v := eval vm_compute in (Z.modulo a 8) in change (Z.modulo a 8) with v
  end.

Lemma RND_view i j w V :
  i mod 8 = 0 -> words8 V ->
  view (i + j + 1) (RND i j w V) = Spec.round (view (i + j) V) (rd Spec.K256 (i + j)) w.
Proof.
  intros Hi [L F]. rewrite K_eq. unfold view, RND.
  assert (E : forall k t, at_ k (i + t) = (k - t mod 8) mod 8).
  { intros k t. rewrite at_mod, Z.sub_add_distr, (Zminus_mod (k - i)), (Zminus_mod k i), Hi, Z.sub_0_r,
      Zmod_mod. symmetry. rewrite Zminus_mod, Zmod_mod. reflexivity. }
  assert (E' : forall k, at_ k j = (k - j mod 8) mod 8).
  { intros k. rewrite at_mod, Zminus_mod. symmetry. now rewrite Zminus_mod, Zmod_mod. }
  unfold eight. cbn [map]. rewrite <- !Z.add_assoc, !E, !E'.
  replace ((j + 1) mod 8) with ((j mod 8 + 1) mod 8) by apply Zplus_mod_idemp_l.
  pose proof (Z.mod_pos_bound j 8 ltac:(lia)) as Hj. set (r := j mod 8) in *. clearbody r.
  destruct V as [| v0 [| v1 [| v2 [| v3 [| v4 [| v5 [| v6 [| v7 [|]]]]]]]]]; try discriminate L.
  repeat (apply Forall_cons_1 in F as [? F]).
  set (k := rd K (i + j)). clearbody k.
  index_cases r; repeat mod8_literal;
    cbv [Spec.round rd lookup list_lookup insert list_insert Z.to_nat Pos.to_nat Pos.iter_op
         Nat.add default from_option id];
    change Spec.big_sigma0 with Sigma0; change Spec.big_sigma1 with Sigma1;
    rewrite !Ch_spec, !Maj_spec by assumption;
    repeat (apply (f_equal2 cons)); try reflexivity; u32_sum.
Qed.

(** *** The message schedule *)

Lemma fill_W_extend n W : Forall (is_word 32) W -> fill_W n W = Spec.extend n W.
Proof.
  revert W. induction n as [| n IH]; intros W HW; [reflexivity |].
  cbn [fill_W Spec.extend].
  rewrite !Gamma0_sigma0, !Gamma1_sigma1 by (apply rd_is_word; [lia | exact HW]).
  rewrite IH by (apply Forall_app_2; [exact HW |]; repeat constructor; apply wrap_is_word; lia).
  match goal with |- Spec.extend _ (_ ++ [?a]) = Spec.extend _ (_ ++ [?b]) =>
    assert (E : a = b) by u32_sum; rewrite E end.
  reflexivity.
Qed.

Lemma extend_length n W : length (Spec.extend n W) = (length W + n)%nat.
Proof.
  revert W. induction n as [| n IH]; intros W; cbn [Spec.extend]; [lia |].
  rewrite IH, length_app. cbn [length]. lia.
Qed.

Lemma extend_words n W : Forall (is_word 32) W -> Forall (is_word 32) (Spec.extend n W).
Proof.
  revert W. induction n as [| n IH]; intros W HW; [exact HW |]. cbn [Spec.extend]. apply IH.
  apply Forall_app_2; [exact HW |]. repeat constructor; apply wrap_is_word; lia.
Qed.

Lemma extend_rd n W t : 0 <= t < Zlen W -> rd (Spec.extend n W) t = rd W t.
Proof.
  revert W. induction n as [| n IH]; intros W Ht; [reflexivity |]. cbn [Spec.extend].
  rewrite IH by (rewrite Zlen_app; unfold Zlen at 2; cbn [length]; lia).
  now apply rd_app_l.
Qed.

(** The recurrence of the schedule. *)
Lemma extend_rec n W t :
  16 <= Zlen W <= t -> t < Zlen W + Z.of_nat n ->
  let F := Spec.extend n W in
  rd F t = u32 (Spec.sigma1 (rd F (t - 2)) + rd F (t - 7) + Spec.sigma0 (rd F (t - 15)) + rd F (t - 16)).
Proof.
  revert W. induction n as [| n IH]; intros W Hw Ht; [lia |]. cbn [Spec.extend].
  set (x := u32 _). set (W' := W ++ [x]).
  assert (L : Zlen W' = Zlen W + 1) by (unfold W'; rewrite Zlen_app; reflexivity).
  destruct (Z.eq_dec t (Zlen W)) as [-> |].
  - cbv zeta. rewrite !extend_rd by lia. unfold W'. rewrite rd_app_end.
    rewrite !rd_app_l by lia. reflexivity.
  - apply IH; lia.
Qed.

(** *** The rounds *)

Lemma rounds_app n m t W v : Spec.rounds (n + m) t W v = Spec.rounds m (t + Z.of_nat n) W (Spec.rounds n t W v).
Proof.
  revert t v. induction n as [| n IH]; intros t v; cbn [Nat.add Spec.rounds].
  - now rewrite Z.add_0_r.
  - rewrite IH. f_equal. lia.
Qed.

Lemma rounds_words n t W v : words8 v -> words8 (Spec.rounds n t W v).
Proof.
  revert t v. induction n as [| n IH]; intros t v Hv; [exact Hv |]. cbn [Spec.rounds]. apply IH.
  destruct Hv as [L F].
  destruct v as [| v0 [| v1 [| v2 [| v3 [| v4 [| v5 [| v6 [| v7 [|]]]]]]]]]; try discriminate L.
  repeat (apply Forall_cons_1 in F as [? F]). split; [reflexivity |].
  repeat (apply Forall_cons_2; [assumption || (apply wrap_is_word; lia) |]). apply Forall_nil_2.
Qed.

(** Eight rounds of the default form, from [j] on. *)
Lemma RND_fold (g : Z -> Z) W i n j V :
  i mod 8 = 0 -> words8 V -> (forall k, j <= k < j + Z.of_nat n -> g k = rd W (i + k)) ->
  let V' := foldl (fun V j => RND i j (g j) V) V (seqZ j (Z.of_nat n)) in
  words8 V' /\ view (i + j + Z.of_nat n) V' = Spec.rounds n (i + j) W (view (i + j) V).
Proof.
  intros Hi. revert j V. induction n as [| n IH]; intros j V HV Hg.
  - cbn. rewrite !Z.add_0_r. auto.
  - rewrite seqZ_cons by lia. cbn [foldl Spec.rounds].
    replace (Z.pred (Z.of_nat (S n))) with (Z.of_nat n) by lia.
    destruct (IH (Z.succ j) (RND i j (g j) V)) as [H1 H2].
    + now apply RND_words.
    + intros k Hk. apply Hg. lia.
    + split; [exact H1 |]. replace (i + Z.succ j) with (i + j + 1) in H2 by lia.
      replace (i + j + Z.of_nat (S n)) with (i + j + 1 + Z.of_nat n) by lia.
      rewrite H2, RND_view, Hg by (assumption || lia). reflexivity.
Qed.

Definition is_block (data : list Z) : Prop := length data = 64%nat /\ is_bytes data.

Lemma block_words data : is_block data -> length (be_words data) = 16%nat /\ Forall (is_word 32) (be_words data).
Proof.
  intros [L B]. split; [rewrite be_words_length, L; reflexivity | now apply be_words_word].
Qed.

(** The memory of a block after [ByteReverseWords]. *)
Definition reversed (data : list Z) : list Z := le_memory (be_words data).

Lemma le_words_reversed data : is_bytes data -> le_words (reversed data) = be_words data.
Proof. intros B. apply le_words_memory. now apply be_words_word. Qed.

Lemma Transform_Sha256_spec H data :
  words8 H -> is_block data -> Transform_Sha256 H (reversed data) = Spec.compress H data.
Proof.
  intros HH Hd. destruct (block_words data Hd) as [L F]. unfold Transform_Sha256, Spec.compress.
  rewrite le_words_reversed by apply Hd. rewrite fill_W_extend by exact F.
  unfold Spec.schedule. set (W := Spec.extend 48 (be_words data)). clearbody W. 
  set (inner := fun i V => foldl (fun V j => RND i j (rd W (i + j)) V) V eight).
  assert (I : forall i V, i mod 8 = 0 -> words8 V ->
            words8 (inner i V) /\ inner i V = Spec.rounds 8 i W V).
  { intros i V Hi HV. unfold inner. change eight with (seqZ 0 (Z.of_nat 8)).
    destruct (RND_fold (fun j => rd W (i + j)) W i 8 0 V Hi HV ltac:(auto)) as [H1 H2].
    split; [exact H1 |]. rewrite !Z.add_0_r, !view_period in H2; auto.
    rewrite <- Zplus_mod_idemp_l, Hi. reflexivity. }
  change (zip_with (fun x y => u32 (x + y)) H (foldl (fun V i => inner i V) H [0; 8; 16; 24; 32; 40; 48; 56]) =
          zip_with (fun x y => u32 (x + y)) H (Spec.rounds 64 0 W H)).
  f_equal. cbn [foldl].
  change 64%nat with (8 + (8 + (8 + (8 + (8 + (8 + (8 + 8)))))))%nat. rewrite !rounds_app.
  change (Z.of_nat 8) with 8. cbn [Z.add Pos.add Pos.succ].
  do 8 match goal with
  | |- context [inner ?i ?V] =>
      lazymatch V with context [inner] => fail | _ => idtac end;
      let P := fresh in assert (P : words8 V) by (repeat apply rounds_words; exact HH);
      rewrite (proj2 (I i V eq_refl P)); clear P
  end.
  reflexivity.
Qed.

(** *** The form with a circular schedule *)

Lemma land15 k : Z.land k 15 = k mod 16.
Proof. exact (Z.land_ones k 4 ltac:(lia)). Qed.

#[local] Opaque Spec.extend Spec.rounds.

Section Regs.
  Context (H data : list Z).
  Hypothesis (HH : words8 H) (Hd : is_block data).
Let F := Spec.schedule data.

(** After [t] rounds the array holds the last 16 words of the schedule. *)
Definition regs_inv (t : Z) (SW : list Z * list Z) : Prop :=
  words8 (fst SW) /\ view t (fst SW) = Spec.rounds (Z.to_nat t) 0 F H /\ length (snd SW) = 16%nat /\
  forall k, Z.max 0 (t - 16) <= k < t -> rd (snd SW) (k mod 16) = rd F k.

Lemma schedule_words : Forall (is_word 32) F.
Proof using Hd.
  unfold F, Spec.schedule. apply extend_words. exact (proj2 (block_words data Hd)).
Qed.

Lemma rd_schedule k : 0 <= k < 16 -> rd F k = rd (be_words data) k.
Proof using Hd.
  intros Hk. unfold F, Spec.schedule. apply extend_rd. unfold Zlen. rewrite (proj1 (block_words data Hd)). lia.
Qed.

(** Storing word [t] and running round [t] with it. *)
Lemma regs_step i j V W :
  i mod 16 = 0 -> 0 <= i + j -> regs_inv (i + j) (V, W) ->
  regs_inv (i + j + 1)
    (RND i j (rd F (i + j)) V, <[Z.to_nat ((i + j) mod 16) := rd F (i + j)]> W).
Proof using HH.
  intros Hi Ht (HV & EV & LW & EW). cbn [fst snd] in *. set (t := i + j) in *.
  assert (Hi8 : i mod 8 = 0) by word_lia.
  pose proof (Z.mod_pos_bound t 16 ltac:(lia)) as Bt.
  split; [now apply RND_words |]. split; [| split].
  - cbn [fst]. unfold t. rewrite RND_view by assumption. fold t. rewrite EV.
    replace (Z.to_nat (t + 1)) with (Z.to_nat t + 1)%nat by lia. rewrite rounds_app.
    rewrite Z2Nat.id, Z.add_0_l by lia. reflexivity.
  - cbn [snd]. now rewrite length_insert.
  - cbn [snd]. intros k Hk. pose proof (Z.mod_pos_bound k 16 ltac:(lia)) as Bk.
    assert (LZ : Zlen W = 16) by (unfold Zlen; lia).
    destruct (Z.eq_dec k t) as [-> |].
    + unfold rd at 1. rewrite list_lookup_insert_eq by lia. reflexivity.
    + unfold rd at 1. rewrite list_lookup_insert_ne.
      * apply EW. lia.
      * intros E. assert (t mod 16 = k mod 16) by lia. word_lia.
Qed.

Lemma RND1_inv t V W :
  0 <= t < 16 -> regs_inv t (V, W) -> regs_inv (t + 1) (RND1 0 t (reversed data) (V, W)).
Proof using All.
  intros Ht I. unfold RND1. rewrite le_words_reversed by apply Hd.
  destruct I as (HV & EV & LW & EW). cbn [fst snd] in *.
  assert (E : rd (<[Z.to_nat t:=rd (be_words data) t]> W) t = rd F t).
  { unfold rd at 1. rewrite list_lookup_insert_eq by lia. cbn. now rewrite rd_schedule. }
  rewrite E, <- rd_schedule by exact Ht.
  pose proof (regs_step 0 t V W eq_refl ltac:(lia)) as S. rewrite Z.add_0_l, Z.mod_small in S by lia.
  apply S. repeat split; assumption || apply HV.
Qed.

Lemma RNDN_inv i j V W :
  i mod 16 = 0 -> 0 <= j < 16 -> 16 <= i + j < 64 ->
  regs_inv (i + j) (V, W) -> regs_inv (i + j + 1) (RNDN i j (V, W)).
Proof using All.
  intros Hi Hj Ht I. unfold RNDN. destruct I as (HV & EV & LW & EW). cbn [fst snd] in *.
  rewrite !land15.
  assert (Ej : j mod 16 = (i + j) mod 16) by (rewrite <- Zplus_mod_idemp_l, Hi; reflexivity).
  assert (E : forall d, 0 < d <= 16 -> rd W ((j - d) mod 16) = rd F (i + j - d)).
  { intros d Hd'. rewrite <- EW by lia. f_equal.
    replace (i + j - d) with (i + (j - d)) by lia. now rewrite <- (Zplus_mod_idemp_l i), Hi. }
  assert (E16 : rd W (j mod 16) = rd F (i + j - 16)).
  { rewrite <- E by lia. f_equal. word_lia. }
  rewrite !E, E16 by lia.
  assert (Fw : forall k, is_word 32 (rd F k)) by (intros; apply rd_is_word; [lia | apply schedule_words]).
  rewrite Gamma0_sigma0, Gamma1_sigma1 by apply Fw.
  match goal with |- context [<[_ := ?w]> W] => assert (Ew : w = rd F (i + j)) end.
  { unfold F, Spec.schedule. rewrite (extend_rec 48 (be_words data) (i + j)).
    - u32_sum.
    - unfold Zlen. rewrite (proj1 (block_words data Hd)). lia.
    - unfold Zlen. rewrite (proj1 (block_words data Hd)). lia. }
  rewrite Ew.
  assert (Er : rd (<[Z.to_nat (j mod 16):=rd F (i + j)]> W) (j mod 16) = rd F (i + j)).
  { unfold rd at 1. rewrite list_lookup_insert_eq by word_lia. reflexivity. }
  rewrite Er, Ej. apply regs_step; [exact Hi | lia |]. repeat split; assumption || apply HV.
Qed.

(** A loop body that moves an invariant on by one moves it on by [n]. *)
Lemma foldl_inv {A} (P : Z -> A -> Prop) (f : A -> Z -> A) (lo hi : Z) :
  (forall t x, lo <= t < hi -> P t x -> P (t + 1) (f x t)) ->
  forall n t x, lo <= t -> t + Z.of_nat n <= hi -> P t x -> P (t + Z.of_nat n) (foldl f x (seqZ t (Z.of_nat n))).
Proof.
  intros Hf n. induction n as [| n IH]; intros t x Hlo Hhi Hx.
  - cbn. now rewrite Z.add_0_r.
  - rewrite seqZ_cons by lia. cbn [foldl].
    replace (Z.pred (Z.of_nat (S n))) with (Z.of_nat n) by lia.
    replace (t + Z.of_nat (S n)) with (Z.succ t + Z.of_nat n) by lia.
    apply IH; [lia | lia |]. apply Hf; [lia | exact Hx].
Qed.

Lemma RND1_fold V W :
  regs_inv 0 (V, W) -> regs_inv 16 (foldl (fun SW j => RND1 0 j (reversed data) SW) (V, W) sixteen).
Proof using All.
  intros I. change sixteen with (seqZ 0 (Z.of_nat 16)). change 16 with (0 + Z.of_nat 16) at 1.
  apply (foldl_inv regs_inv (fun SW j => RND1 0 j (reversed data) SW) 0 16); [| lia | lia | exact I].
  intros t [V' W'] Ht I'. now apply RND1_inv.
Qed.

Lemma RNDN_fold i SW :
  i mod 16 = 0 -> 16 <= i < 64 -> regs_inv i SW ->
  regs_inv (i + 16) (foldl (fun SW j => RNDN i j SW) SW sixteen).
Proof using All.
  intros Hi Bi I. change sixteen with (seqZ 0 (Z.of_nat 16)). change 16 with (0 + Z.of_nat 16) at 1.
  apply (foldl_inv (fun t => regs_inv (i + t)) (fun SW j => RNDN i j SW) 0 16); [| lia | lia |].
  - intros t [V' W'] Ht I'. rewrite Z.add_assoc. apply RNDN_inv; [exact Hi | lia | word_lia | exact I'].
  - now rewrite Z.add_0_r.
Qed.

Lemma Transform_Sha256_regs_spec W :
  length W = 16%nat -> Transform_Sha256_regs W H (reversed data) = Spec.compress H data.
Proof using All.
  intros LW. unfold Transform_Sha256_regs, Spec.compress. fold F.
  assert (I0 : regs_inv 0 (H, W)).
  { split; [exact HH |]. split; [now apply view_period |]. split; [exact LW |]. cbn [snd]. lia. }
  pose proof (RND1_fold H W I0) as I1. cbn [foldl].
  pose proof (RNDN_fold 16 _ eq_refl ltac:(lia) I1) as I2.
  pose proof (RNDN_fold 32 _ eq_refl ltac:(lia) I2) as I3.
  pose proof (RNDN_fold 48 _ eq_refl ltac:(lia) I3) as I4.
  destruct I4 as (HV & EV & _). rewrite view_period in EV by (reflexivity || exact HV).
  change (Z.to_nat (48 + 16)) with 64%nat in EV. rewrite <- EV. reflexivity.
Qed.
End Regs.

(** ** The stream computes the digest of what it absorbed *)

Lemma compress_words H M : words8 H -> words8 (Spec.compress H M).
Proof.
  intros HH. pose proof (rounds_words 64 0 (Spec.schedule M) H HH) as [L _].
  unfold Spec.compress. destruct HH as [LH _]. split.
  - rewrite length_zip_with, LH, L. reflexivity.
  - apply Forall_lookup. intros i x E. apply lookup_zip_with_Some in E as (a & b & -> & _).
    apply wrap_is_word. lia.
Qed.

Lemma compress_blocks_words n H m : words8 H -> words8 (Spec.compress_blocks n H m).
Proof.
  revert H m. induction n as [| n IH]; intros H m HH; [exact HH |].
  apply IH. now apply compress_words.
Qed.

(** The blocks of a prefix. *)
Lemma compress_blocks_app n H m m' :
  (64 * n <= length m)%nat -> Spec.compress_blocks n H (m ++ m') = Spec.compress_blocks n H m.
Proof.
  revert H m. induction n as [| n IH]; intros H m L; [reflexivity |]. cbn [Spec.compress_blocks].
  rewrite take_app_le, drop_app_le by lia. apply IH. rewrite length_drop. lia.
Qed.

Lemma compress_blocks_snoc n H m :
  Spec.compress_blocks (S n) H m =
  Spec.compress (Spec.compress_blocks n H m) (take 64 (drop (64 * n) m)).
Proof.
  revert H m. induction n as [| n IH]; intros H m; [reflexivity |].
  change (Spec.compress_blocks (S (S n)) H m)
    with (Spec.compress_blocks (S n) (Spec.compress H (take 64 m)) (drop 64 m)).
  rewrite IH. cbn [Spec.compress_blocks]. do 2 f_equal. rewrite drop_drop. f_equal. lia.
Qed.

Lemma H0_words : words8 (digest InitSha256).
Proof. split; [reflexivity |]. repeat (apply Forall_cons_2; [unfold is_word; lia |]). apply Forall_nil_2. Qed.

Lemma H0_eq : digest InitSha256 = Spec.H0.
Proof. vm_compute. reflexivity. Qed.

Lemma put_length pos d mem :
  0 <= pos -> pos + Zlen d <= Zlen mem -> length (put pos d mem) = length mem.
Proof. intros. unfold put, Zlen in *. rewrite !length_app, length_take, length_drop. lia. Qed.

Lemma put_take pos d mem :
  0 <= pos -> pos + Zlen d <= Zlen mem ->
  take (Z.to_nat (pos + Zlen d)) (put pos d mem) = take (Z.to_nat pos) mem ++ d.
Proof.
  intros. unfold put, Zlen in *. rewrite app_assoc, take_app_le.
  - apply firstn_all2. rewrite length_app, length_take. lia.
  - rewrite length_app, length_take. lia.
Qed.

Lemma put_bytes pos d mem : is_bytes d -> is_bytes mem -> is_bytes (put pos d mem).
Proof.
  intros Hd Hm. unfold put. apply is_bytes_app. split; [now apply Forall_take |].
  apply is_bytes_app. split; [exact Hd | now apply Forall_drop].
Qed.

Lemma memory_bytes ws : is_bytes (le_memory ws).
Proof.
  induction ws as [| w ws IH]; [constructor |].
  change (is_bytes (le_bytes 4 w ++ le_memory ws)). apply is_bytes_app. split; [apply le_bytes_is_bytes | exact IH].
Qed.

Lemma le_memory_length ws : length (le_memory ws) = (4 * length ws)%nat.
Proof.
  induction ws as [| w ws IH]; [reflexivity |].
  change (length (le_bytes 4 w ++ le_memory ws) = (4 * S (length ws))%nat).
  rewrite length_app, le_bytes_length, IH. lia.
Qed.

Lemma reverse_memory_prefix b n :
  is_bytes b -> (n mod 4 = 0)%nat -> (n <= length b)%nat ->
  reverse_memory b (Z.of_nat n) = reversed (take n b) ++ drop n b.
Proof.
  intros Hb Hn L. unfold reverse_memory, reversed, Rot.ByteReverseWords.
  rewrite Nat2Z.id. f_equal. f_equal.
  assert (E : le_words b = le_words (take n b) ++ le_words (drop n b)).
  { rewrite <- le_words_app; [now rewrite take_drop |]. now rewrite length_take_le. }
  assert (Ln : length (le_words (take n b)) = (n / 4)%nat) by now rewrite le_words_length, length_take_le.
  rewrite E, take_app_length'.
  - apply reverse_words. now apply Forall_take.
  - rewrite Ln, <- (Nat2Z.id (n / 4)), Nat2Z.inj_div. reflexivity.
Qed.

Lemma reversed_block b : is_block b -> is_block (reversed b) /\ reverse_memory b 64 = reversed b.
Proof.
  intros [L B]. split; [split |].
  - unfold reversed. rewrite le_memory_length, be_words_length, L. reflexivity.
  - apply memory_bytes.
  - change 64 with (Z.of_nat 64). rewrite reverse_memory_prefix by (rewrite ?L; auto || lia).
    rewrite firstn_all2, skipn_all2, app_nil_r by lia. reflexivity.
Qed.

Section StreamCorrect.
  Context (transform : list Z -> list Z -> list Z).
  Hypothesis transform_ok : forall H data,
    words8 H -> is_block data -> transform H (reversed data) = Spec.compress H data.

(** [q] blocks of [m] are in the digest, the rest in the buffer. *)
Definition core (s : wc_Sha256) (q : nat) (m : list Z) : Prop :=
  digest s = Spec.compress_blocks q Spec.H0 m /\ is_block (buffer s) /\ is_bytes m /\
  Zlen m = 64 * Z.of_nat q + buffLen s /\ 0 <= buffLen s <= 64 /\
  take (Z.to_nat (buffLen s)) (buffer s) = drop (64 * q) m.

Lemma core_words s q m : core s q m -> words8 (digest s).
Proof using. intros (-> & _). rewrite <- H0_eq. apply compress_blocks_words, H0_words. Qed.

Lemma core_put s q m d n :
  core s q m -> is_bytes d -> n = buffLen s + Zlen d -> n <= 64 ->
  core (set_buffer (put (buffLen s) d (buffer s)) n s) q (m ++ d).
Proof using.
  intros (ED & [Lb Bb] & Bm & Lm & R & EB) Bd -> Hn. unfold core, set_buffer. cbn [digest buffer buffLen].
  assert (Zb : Zlen (buffer s) = 64) by (unfold Zlen; lia).
  split; [| split; [| split; [| split; [| split]]]].
  - rewrite ED. symmetry. apply compress_blocks_app. unfold Zlen in *. lia.
  - split; [rewrite put_length by lia; exact Lb | now apply put_bytes].
  - apply is_bytes_app. auto.
  - rewrite Zlen_app. lia.
  - unfold Zlen in *. lia.
  - rewrite put_take, EB by lia. rewrite drop_app_le by (unfold Zlen in *; lia). reflexivity.
Qed.

Lemma core_transform s q m :
  core s q m -> buffLen s = 64 ->
  core (set_buffer (buffer (XTRANSFORM transform s)) 0 (XTRANSFORM transform s)) (S q) m.
Proof using transform_ok.
  intros C E64. pose proof (core_words s q m C) as HW. destruct C as (ED & Bb & Bm & Lm & R & EB).
  destruct (reversed_block (buffer s) Bb) as [Br Er].
  unfold core, set_buffer, XTRANSFORM, WC_SHA256_BLOCK_SIZE. cbn [digest buffer buffLen]. rewrite Er.
  rewrite E64 in EB, Lm. destruct Bb as [Lb Bb].
  change (Z.to_nat 64) with 64%nat in EB. rewrite firstn_all2 in EB by lia.
  split; [| split; [| split; [| split; [| split]]]]; try assumption; try lia.
  - rewrite transform_ok by (assumption || (split; assumption)).
    rewrite compress_blocks_snoc, ED. f_equal. rewrite <- EB, firstn_all2 by lia. reflexivity.
  - cbn [take]. symmetry. apply skipn_all2. unfold Zlen in Lm. lia.
Qed.

(** The loop over whole blocks. *)
Lemma update_blocks_core fuel s q m data :
  core s q m -> buffLen s = 0 \/ data = [] -> is_bytes data -> (length data <= fuel)%nat ->
  exists s' q' done rest, update_blocks transform fuel s data = (s', rest) /\ data = done ++ rest /\
    core s' q' (m ++ done) /\ buffLen s' = buffLen s /\ Zlen rest < 64 /\
    loLen s' = loLen s /\ hiLen s' = hiLen s.
Proof using transform_ok.
  revert s q m data. induction fuel as [| fuel IH]; intros s q m data C B0 Bd L; cbn [update_blocks];
    unfold WC_SHA256_BLOCK_SIZE; destruct (Z.geb_spec (Zlen data) 64) as [Hge | Hlt].
  2,4: exists s, q, [], data; rewrite app_nil_r; auto 10 with lia.
  { unfold Zlen in Hge. lia. }
  destruct B0 as [B0 | ->]; [| unfold Zlen in Hge; cbn [length] in Hge; lia].
  assert (Lt : Zlen (take 64 data) = 64) by (unfold Zlen in *; rewrite length_take; lia).
  pose proof (core_put s q m (take 64 data) 64 C (Forall_take _ _ _ Bd) ltac:(lia) ltac:(lia)) as C1.
  apply core_transform in C1; [| reflexivity].
  rewrite B0 in *. set (s1 := XTRANSFORM transform _).
  assert (C2 : core s1 (S q) (m ++ take 64 data)) by exact C1.
  destruct (IH s1 (S q) (m ++ take 64 data) (drop 64 data) C2) as (s' & q' & done & rest & E & ED & C' & BL & LR & LL & LH).
  - left. reflexivity.
  - now apply Forall_drop.
  - rewrite length_drop. unfold Zlen in Hge. lia.
  - exists s', q', (take 64 data ++ done), rest. rewrite E. split; [reflexivity |]. split.
    { rewrite <- app_assoc, <- ED. symmetry. apply take_drop. }
    rewrite app_assoc. auto 10.
Qed.

(** The context holds the message [m]. *)
Definition rep (s : wc_Sha256) (m : list Z) : Prop :=
  (exists q, core s q m) /\ buffLen s < 64 /\ is_word 32 (loLen s) /\ is_word 32 (hiLen s) /\
  loLen s + 2 ^ 32 * hiLen s = Zlen m mod 2 ^ 64.

Lemma rep_init : rep InitSha256 [].
Proof using.
  split; [| repeat split; vm_compute; reflexivity || discriminate]. exists 0%nat. unfold core. cbn [InitSha256 digest buffer buffLen].
  split; [exact H0_eq |]. split; [split; [reflexivity | apply Forall_replicate; unfold is_word; lia] |].
  split; [constructor |]. repeat split; lia.
Qed.

Lemma AddLength_spec s m d :
  rep s m -> Zlen d < 2 ^ 32 ->
  let s' := AddLength s (Zlen d) in
  is_word 32 (loLen s') /\ is_word 32 (hiLen s') /\
  loLen s' + 2 ^ 32 * hiLen s' = Zlen (m ++ d) mod 2 ^ 64.
Proof using.
  intros (_ & _ & Wl & Wh & El) Hd. unfold AddLength. cbn [loLen hiLen]. rewrite Zlen_app.
  assert (0 <= Zlen d) by (unfold Zlen; lia).
  rewrite <- Zplus_mod_idemp_l, <- El. clear El. unfold is_word, wrap in *.
  destruct (Z.ltb_spec ((loLen s + Zlen d) mod 2 ^ 32) (loLen s)); word_lia.
Qed.

(** The pieces of [Sha256Update] leave the lengths alone. *)
Lemma Sha256Update_rep s m d :
  rep s m -> is_bytes d -> Zlen d < 2 ^ 32 ->
  exists s', Sha256Update transform s d = (0, s') /\ rep s' (m ++ d).
Proof using transform_ok.
  intros Rep Bd Ld. pose proof (AddLength_spec s m d Rep Ld) as (Wl & Wh & El).
  destruct Rep as ([q C] & BL & _). unfold Sha256Update, WC_SHA256_BLOCK_SIZE.
  destruct (Z.geb_spec (buffLen s) 64); [lia |].
  set (s0 := AddLength s (Zlen d)) in *.
  assert (C0 : core s0 q m) by exact C. assert (B0 : buffLen s0 = buffLen s) by reflexivity.
  clearbody s0. clear C. pose proof C0 as (_ & _ & _ & Lm & R & _).
  (* the remainder of an earlier call *)
  match goal with |- context [if buffLen s0 >? 0 then ?A else ?B] =>
    assert (P : exists s1 q1 chunk rest, (if buffLen s0 >? 0 then A else B) = (s1, rest) /\
              d = chunk ++ rest /\ core s1 q1 (m ++ chunk) /\ (buffLen s1 = 0 \/ rest = []) /\
              buffLen s1 < 64 /\ loLen s1 = loLen s0 /\ hiLen s1 = hiLen s0) end.
  { destruct (Z.gtb_spec (buffLen s0) 0) as [Hpos | Hz].
    2: { exists s0, q, [], d. rewrite app_nil_r. split; [reflexivity |]. split; [reflexivity |].
         split; [exact C0 |]. split; [left; lia |]. repeat split. lia. }
    set (c := Z.min (Zlen d) (64 - buffLen s0)).
    assert (Lc : Zlen (take (Z.to_nat c) d) = c) by (unfold Zlen in *; rewrite length_take; lia).
    assert (En : u32 (buffLen s0 + c) = buffLen s0 + c) by (apply wrap_small; unfold is_word, c, Zlen in *; lia).
    rewrite En.
    pose proof (core_put s0 q m (take (Z.to_nat c) d) (buffLen s0 + c) C0 (Forall_take _ _ _ Bd)
                  ltac:(lia) ltac:(lia)) as C1.
    set (s1 := set_buffer _ (buffLen s0 + c) s0) in *.
    assert (B1 : buffLen s1 = buffLen s0 + c) by reflexivity.
    assert (LH1 : loLen s1 = loLen s0 /\ hiLen s1 = hiLen s0) by (split; reflexivity). clearbody s1.
    destruct (Z.eqb_spec (buffLen s1) 64) as [E64 | N64].
    - eexists _, (S q), (take (Z.to_nat c) d), (drop (Z.to_nat c) d). split; [reflexivity |].
      split; [symmetry; apply take_drop |]. split; [now apply core_transform |].
      cbn. repeat split; tauto || lia.
    - exists s1, q, (take (Z.to_nat c) d), (drop (Z.to_nat c) d). split; [reflexivity |].
      split; [symmetry; apply take_drop |]. split; [exact C1 |].
      assert (drop (Z.to_nat c) d = []) by (apply skipn_all2; unfold Zlen in *; lia).
      repeat split; tauto || lia. }
  destruct P as (s1 & q1 & chunk & rest & -> & Ed & C1 & Hz & BL1 & L1 & H1).
  rewrite Ed in Bd. apply is_bytes_app in Bd as [_ Br].
  destruct (update_blocks_core (length rest) s1 q1 (m ++ chunk) rest C1 Hz Br (le_n _))
    as (s2 & q2 & done & rest2 & -> & Er & C2 & BL2 & LR & L2 & H2).
  rewrite Er in Br. apply is_bytes_app in Br as [_ Br2].
  assert (Em : m ++ d = ((m ++ chunk) ++ done) ++ rest2) by (rewrite Ed, Er, !app_assoc; reflexivity).
  destruct (Z.gtb_spec (Zlen rest2) 0) as [Hpos | Hnil].
  - destruct Hz as [Hz | Hz].
    2: { rewrite Hz in Er. symmetry in Er. apply app_nil in Er as [_ ->]. unfold Zlen in Hpos. cbn in Hpos. lia. }
    eexists. split; [reflexivity |].
    assert (B2 : buffLen s2 = 0) by lia.
    pose proof (core_put s2 q2 _ rest2 (Zlen rest2) C2 Br2 ltac:(lia) ltac:(lia)) as C3.
    rewrite B2 in C3. split; [exists q2; rewrite Em; exact C3 |].
    cbn [set_buffer buffLen loLen hiLen]. rewrite L2, H2, L1, H1. auto.
  - assert (rest2 = []) as -> by (destruct rest2; [reflexivity | unfold Zlen in Hnil; cbn in Hnil; lia]).
    exists s2. split; [reflexivity |]. rewrite app_nil_r in Em.
    split; [exists q2; rewrite Em; exact C2 |]. split; [lia |]. rewrite L2, H2, L1, H1. auto.
Qed.

(** *** Padding *)

Lemma be_bytes_wrap n x : be_bytes n (wrap (8 * Z.of_nat n) x) = be_bytes n x.
Proof.
  rewrite <- be_value_bytes. rewrite <- (be_bytes_length n x) at 1.
  apply be_bytes_value, be_bytes_is_bytes.
Qed.

(** The two words of the length in bits. *)
Lemma length_words lo hi M :
  is_word 32 lo -> is_word 32 hi -> lo + 2 ^ 32 * hi = M mod 2 ^ 64 ->
  be_bytes 8 (8 * M) = be_bytes 4 ((lo >>u 29) +u32 (hi <<u32 3)) ++ be_bytes 4 (lo <<u32 3).
Proof.
  intros Hl Hh E. rewrite (be_bytes_app 4 4). change (8 * Z.of_nat 4) with 32.
  rewrite <- (be_bytes_wrap 4 (Z.shiftr _ _)), <- (be_bytes_wrap 4 (8 * M)).
  change (8 * Z.of_nat 4) with 32. rewrite Z.shiftr_div_pow2 by lia. f_equal; f_equal.
  - rewrite Z.shiftl_mul_pow2, Z.shiftr_div_pow2 by lia. word_lia.
  - rewrite Z.shiftl_mul_pow2 by lia. word_lia.
Qed.

Lemma be_words_of_word x : is_word 32 x -> be_words (be_bytes 4 x) = [x].
Proof.
  intros Hx. pose proof (be_value_bytes 4 x) as E. rewrite (wrap_small 32) in E by exact Hx.
  rewrite <- E at 2. reflexivity.
Qed.

Lemma put_app pos l t d :
  length l = Z.to_nat pos -> put pos d (l ++ t) = l ++ d ++ drop (length d) t.
Proof.
  intros L. unfold put. rewrite take_app_length', drop_app_add' by lia. reflexivity.
Qed.

(** The last block in memory. *)
Lemma last_block b hi lo :
  length b = 64%nat -> is_bytes b -> is_word 32 hi -> is_word 32 lo ->
  put (WC_SHA256_PAD_SIZE + 4) (le_bytes 4 lo)
    (put WC_SHA256_PAD_SIZE (le_bytes 4 hi) (reverse_memory b WC_SHA256_PAD_SIZE)) =
  reversed (take 56 b ++ be_bytes 4 hi ++ be_bytes 4 lo).
Proof.
  intros L B Hh Hl. unfold WC_SHA256_PAD_SIZE. change 56 with (Z.of_nat 56) at 3.
  rewrite reverse_memory_prefix by (rewrite ?L; auto || lia).
  assert (Lt : length (take 56 b) = 56%nat) by (rewrite length_take; lia).
  unfold reversed at 2. rewrite be_words_app by (rewrite Lt; reflexivity).
  rewrite be_words_app by reflexivity. rewrite !be_words_of_word by assumption.
  set (r := reversed (take 56 b)).
  assert (Lr : length r = 56%nat)
    by (unfold r, reversed; rewrite le_memory_length, be_words_length, Lt; reflexivity).
  assert (E : le_memory (be_words (take 56 b) ++ [hi] ++ [lo]) = r ++ le_bytes 4 hi ++ le_bytes 4 lo).
  { unfold le_memory. rewrite map_app, concat_app. cbn [app map concat]. now rewrite app_nil_r. }
  rewrite E, put_app by exact Lr.
  rewrite (app_assoc r), put_app by (rewrite length_app, Lr, le_bytes_length; reflexivity).
  rewrite !drop_drop, !le_bytes_length, (skipn_all2 b), !app_nil_r, <- app_assoc by lia.
  reflexivity.
Qed.

(** [Sha256Final] up to the last block: everything but the length is in the
    buffer. *)
Lemma final_zeros s q m :
  core s q m -> buffLen s <= 56 ->
  is_block (put (buffLen s) (replicate (Z.to_nat (56 - buffLen s)) 0) (buffer s)) /\
  let z := replicate (Z.to_nat (56 - buffLen s)) 0 in
  take 56 (put (buffLen s) z (buffer s)) = drop (64 * q) (m ++ z) /\
  Zlen (m ++ z) = 64 * Z.of_nat q + 56 /\ is_bytes (m ++ z) /\
  digest s = Spec.compress_blocks q Spec.H0 (m ++ z).
Proof using.
  intros C Hb. pose proof C as (_ & _ & _ & _ & R & _).
  set (z := replicate (Z.to_nat (56 - buffLen s)) 0).
  assert (Lz : Zlen z = 56 - buffLen s) by (unfold z, Zlen; rewrite length_replicate; lia).
  assert (Bz : is_bytes z) by (apply Forall_replicate; unfold is_word; lia).
  destruct (core_put s q m z 56 C Bz ltac:(lia) ltac:(lia)) as (ED & EB & Bm & Lm & _ & ET).
  cbn [set_buffer digest buffer buffLen] in *. auto 10.
Qed.

Lemma Sha256Final_rep s m :
  rep s m ->
  exists s', Sha256Final transform s = (0, s') /\
    let p := m ++ Spec.padding (Zlen m) in
    digest s' = Spec.compress_blocks (length p / 64) Spec.H0 p /\ words8 (digest s').
Proof using transform_ok.
  intros ([q C] & BL & Wl & Wh & El). pose proof C as (_ & _ & _ & Lm & R & _).
  unfold Sha256Final, WC_SHA256_BLOCK_SIZE.
  destruct (Z.gtb_spec (buffLen s) (64 - 1)); [lia |].
  assert (E1 : u32 (buffLen s + 1) = buffLen s + 1) by (apply wrap_small; unfold is_word; lia).
  rewrite E1. clear E1.
  pose proof (core_put s q m [0x80] (buffLen s + 1) C ltac:(repeat constructor; lia) eq_refl ltac:(lia)) as C1.
  set (s1 := set_buffer _ (buffLen s + 1) s) in *.
  assert (H1 : buffLen s1 = buffLen s + 1 /\ loLen s1 = loLen s /\ hiLen s1 = hiLen s) by auto.
  clearbody s1. destruct H1 as (B1 & L1 & H1).
  (* a block of its own for the byte 0x80, when the length does not fit *)
  match goal with |- context [if buffLen s1 >? WC_SHA256_PAD_SIZE then ?A else _] =>
    assert (P : exists s2 q2 n, (if buffLen s1 >? WC_SHA256_PAD_SIZE then A else s1) = s2 /\
              core s2 q2 (m ++ [0x80] ++ replicate n 0) /\ buffLen s2 <= 56 /\
              (Z.of_nat n + (56 - buffLen s2)) = (55 - Zlen m) mod 64 /\
              loLen s2 = loLen s /\ hiLen s2 = hiLen s) end.
  { unfold WC_SHA256_PAD_SIZE. destruct (Z.gtb_spec (buffLen s1) 56) as [Hbig | Hsmall].
    - set (n := Z.to_nat (64 - buffLen s1)). set (z := replicate n 0).
      assert (Lz : Zlen z = 64 - buffLen s1) by (unfold z, Zlen, n; rewrite length_replicate; lia).
      assert (Bz : is_bytes z) by (apply Forall_replicate; unfold is_word; lia).
      pose proof (core_put s1 q _ z 64 C1 Bz ltac:(lia) ltac:(lia)) as C2.
      apply core_transform in C2; [| reflexivity]. rewrite <- app_assoc in C2.
      eexists _, (S q), n. split; [reflexivity |].
      destruct (Z.ltb_spec (buffLen s1) 64).
      + split; [exact C2 |]. cbn. repeat split; lia || assumption || word_lia.
      + assert (En : z = []) by (destruct z; [reflexivity | unfold Zlen in Lz; cbn in Lz; lia]).
        rewrite En in C2. unfold put in C2. cbn [length app] in C2. rewrite Nat.add_0_r, take_drop in C2.
        fold z. rewrite En. split; [exact C2 |]. cbn. repeat split; lia || assumption || word_lia.
    - exists s1, q, 0%nat. split; [reflexivity |]. split; [exact C1 |].
      repeat split; lia || assumption || word_lia. }
  destruct P as (s2 & q2 & n & -> & C2 & B2 & En & L2 & H2).
  destruct (final_zeros s2 q2 _ C2 B2) as (Eb' & Eb & Lp & Bp & ED). unfold WC_SHA256_PAD_SIZE at 1 2.
  set (z2 := replicate (Z.to_nat (56 - buffLen s2)) 0) in *.
  set (b := put (buffLen s2) z2 (buffer s2)) in *.
  rewrite L2, H2, last_block by (apply Eb' || (apply wrap_is_word; lia)).
  rewrite <- length_words with (M := Zlen m) by assumption.
  eexists. split; [reflexivity |]. cbn [digest].
  set (t := be_bytes 8 (8 * Zlen m)). set (m2 := m ++ [0x80] ++ replicate n 0) in *.
  assert (Ep : m ++ Spec.padding (Zlen m) = (m2 ++ z2) ++ t).
  { unfold Spec.padding, m2, z2. rewrite <- En, Z2Nat.inj_add, Nat2Z.id, replicate_add by lia.
    now rewrite <- !app_assoc. }
  assert (Lt : length t = 8%nat) by apply be_bytes_length.
  assert (Lq : length ((m2 ++ z2) ++ t) = (64 * S q2)%nat) by (rewrite length_app, Lt; unfold Zlen in Lp; lia).
  rewrite Ep, Lq, (Nat.mul_comm 64), Nat.div_mul, compress_blocks_snoc, compress_blocks_app
    by (unfold Zlen in *; lia).
  assert (L56 : length (take 56 b) = 56%nat) by (rewrite length_take, (proj1 Eb'); reflexivity).
  rewrite drop_app_le, <- Eb, (firstn_all2 (take 56 b ++ t)), <- ED
    by (rewrite ?(length_app (take _ _)), ?L56, ?Lt; unfold Zlen in *; lia).
  pose proof (core_words s2 q2 m2 C2) as HW.
  assert (Bl : is_block (take 56 b ++ t)).
  { split; [rewrite length_app, L56, Lt; reflexivity |].
    apply is_bytes_app. split; [apply Forall_take, Eb' | apply be_bytes_is_bytes]. }
  rewrite transform_ok by assumption. split; [reflexivity | now apply compress_words].
Qed.

(** The bytes of a digest. *)
Lemma digest_bytes H : words8 H -> le_memory (Rot.ByteReverseWords H 32) = be_memory H.
Proof using.
  intros [L F]. unfold Rot.ByteReverseWords. change (Z.to_nat (32 / 4)) with 8%nat.
  rewrite firstn_all2 by lia. clear L. unfold le_memory, be_memory.
  induction F as [| w H Hw F IH]; [reflexivity |]. cbn [fmap list_fmap map concat]. f_equal; [| exact IH].
  rewrite ByteReverseWord32_spec by exact Hw. unfold be_value, be_bytes.
  rewrite <- (le_bytes_length 4 w) at 1. rewrite <- length_rev. apply le_bytes_value, Forall_rev, le_bytes_is_bytes.
Qed.

Lemma wc_Sha256Update_rep s m d :
  rep s m -> is_bytes d -> Zlen d < 2 ^ 32 ->
  exists s', wc_Sha256Update transform s d = (0, s') /\ rep s' (m ++ d).
Proof using transform_ok.
  intros Rep Bd Ld. unfold wc_Sha256Update. destruct (Z.eqb_spec (Zlen d) 0) as [E |].
  - exists s. split; [reflexivity |]. destruct d; [now rewrite app_nil_r | unfold Zlen in E; cbn in E; lia].
  - now apply Sha256Update_rep.
Qed.

Lemma wc_Sha256Final_rep s m :
  rep s m -> wc_Sha256Final transform s = (0, Spec.sha256 m, InitSha256).
Proof using transform_ok.
  intros Rep. destruct (Sha256Final_rep s m Rep) as (s' & E & ED & W). unfold wc_Sha256Final.
  rewrite E. cbn [Z.eqb negb]. unfold WC_SHA256_DIGEST_SIZE. rewrite digest_bytes by exact W.
  unfold Spec.sha256. now rewrite <- ED.
Qed.

(** A sequence of updates. *)
Fixpoint updates (s : wc_Sha256) (ds : list (list Z)) : Z * wc_Sha256 :=
  match ds with
  | [] => (0, s)
  | d :: ds =>
      let '(ret, s) := wc_Sha256Update transform s d in
      if negb (ret =? 0) then (ret, s) else updates s ds
  end.

Lemma updates_rep ds s m :
  rep s m -> Forall (fun d => is_bytes d /\ Zlen d < 2 ^ 32) ds ->
  exists s', updates s ds = (0, s') /\ rep s' (m ++ concat ds).
Proof using transform_ok.
  intros Rep F. revert s m Rep. induction F as [| d ds [Bd Ld] F IH]; intros s m Rep; cbn [updates concat].
  - exists s. now rewrite app_nil_r.
  - destruct (wc_Sha256Update_rep s m d Rep Bd Ld) as (s1 & -> & R1). cbn [Z.eqb negb].
    destruct (IH s1 _ R1) as (s2 & E & R2). exists s2. now rewrite app_assoc.
Qed.
End StreamCorrect.

(** The block functions of the two builds; [W] is what the circular array
    holds before. *)
Inductive block_function : (list Z -> list Z -> list Z) -> Prop :=
  | block_default : block_function Transform_Sha256
  | block_registers W : length W = 16%nat -> block_function (Transform_Sha256_regs W).

Lemma block_function_ok transform H data :
  block_function transform -> words8 H -> is_block data ->
  transform H (reversed data) = Spec.compress H data.
Proof.
  intros [| W LW] HH Hd; [now apply Transform_Sha256_spec | now apply Transform_Sha256_regs_spec].
Qed.

(** ** Theorems *)

(** [C21] SHA-256 computes FIPS 180-4: from a fresh context, absorbing a message
    in pieces of any sizes (empty ones included, each shorter than 2^32 bytes)
    never fails, and [wc_Sha256Final] returns the digest the standard gives
    to the whole message and a fresh context again, with either form of the
    block function.  The constants of the specification are computed from the
    primes, not copied from the code. *)
Theorem sha256_stream transform ds :
  block_function transform -> Forall (fun d => is_bytes d /\ Zlen d < 2 ^ 32) ds ->
  exists s, updates transform InitSha256 ds = (0, s) /\
            wc_Sha256Final transform s = (0, Spec.sha256 (concat ds), InitSha256).
Proof.
  intros Ht F.
  pose proof (fun H data => block_function_ok transform H data Ht) as ok.
  destruct (updates_rep transform ok ds InitSha256 [] rep_init F) as (s & E & R).
  exists s. split; [exact E |]. exact (wc_Sha256Final_rep transform ok s _ R).
Qed.

Lemma sha256_stream_witness :
  exists s, updates Transform_Sha256 InitSha256 [[97]; []; [98; 99]] = (0, s) /\
            wc_Sha256Final Transform_Sha256 s = (0, Spec.sha256 [97; 98; 99], InitSha256).
Proof.
  apply (sha256_stream Transform_Sha256 [[97]; []; [98; 99]] block_default).
  repeat apply Forall_cons_2; try apply Forall_nil_2; (split; [| reflexivity]);
    repeat constructor; discriminate.
Defined.

(** The digest of "abc" the standard lists. *)
Example sha256_abc :
  be_value (Spec.sha256 [97; 98; 99]) =
  0xba7816bf8f01cfea414140de5dae2223b00361a396177a9cb410ff61f20015ad.
Proof. vm_compute. reflexivity. Qed.

(** [wc_Sha256FinalRaw] at the end of a block: the chaining value. *)
Lemma wc_Sha256FinalRaw_rep s m :
  rep s m -> Zlen m mod 64 = 0 ->
  wc_Sha256FinalRaw s = be_memory (Spec.compress_blocks (length m / 64) Spec.H0 m).
Proof.
  intros ([q C] & BL & _) Hm. pose proof (core_words s q m C) as W.
  unfold wc_Sha256FinalRaw, WC_SHA256_DIGEST_SIZE. rewrite digest_bytes by exact W.
  destruct C as (ED & _ & _ & Lm & R & _). rewrite ED. do 2 f_equal.
  assert (L : length m = (q * 64)%nat) by (unfold Zlen in *; word_lia).
  rewrite L. symmetry. apply Nat.div_mul. lia.
Qed.
