(* ===== verification/Hmac.v ===== *)
(** * wolfcrypt/src/hmac.c: HMAC

    HMAC is written once over the hash functions of wolfcrypt: the class
    [Hash] lists the operations [wc_Sha256Update], [wc_Sha256Final],
    [wc_Sha256FinalRaw] and their kin, [HashSpec] what a client may rely on,
    and the instance for SHA-256 discharges it with the theorems of [Sha256].
    The switches of the C code over [macType] select an instance.

    The build is software only, without [WOLFSSL_HMAC_COPY_HASH].  Only the
    first block of [ipad] and [opad] is used, so that is what the model keeps. *)

From S2P Require Import Prelude Misc Sha256.
From stdpp Require Import list.

#[local] Open Scope Z_scope.
#[local] Open Scope cword_scope.

(** ** The interface of a hash function *)

Class Hash := {
  hctx : Type;
  h_init : hctx;                                  (* wc_Init<Hash> *)
  h_update : hctx -> list Z -> Z * hctx;          (* wc_<Hash>Update *)
  h_final : hctx -> Z * list Z * hctx;            (* wc_<Hash>Final *)
  h_finalRaw : hctx -> list Z;                    (* wc_<Hash>FinalRaw *)
  h_block : Z;                                    (* WC_<HASH>_BLOCK_SIZE *)
  h_pad_size : Z;                                 (* WC_<HASH>_PAD_SIZE *)
  h_digest : Z                                    (* WC_<HASH>_DIGEST_SIZE *)
}.

(** The padding of a message of [len] bytes: a one bit, zeros, and the length
    in bits at the end of a block. *)
Definition md_padding {H : Hash} (len : Z) : list Z :=
  [0x80] ++ replicate (Z.to_nat ((h_block - 9 - len) mod h_block)) 0 ++ be_bytes 8 (8 * len).

(** What the operations promise, for the hashes with blocks of 64 bytes (MD5, SHA-1,
    SHA-256, SM3; not SHA-384 and SHA-512): a context holds the message absorbed so far;
    its digest is the chaining value of the padded message. *)
Class HashSpec (H : Hash) := {
  holds : hctx -> list Z -> Prop;
  chain : list Z -> list Z;
  hash (m : list Z) : list Z := chain (m ++ md_padding (Zlen m));
  holds_init : holds h_init [];
  holds_update c m d : holds c m -> is_bytes d -> Zlen d < 2 ^ 32 ->
    exists c', h_update c d = (0, c') /\ holds c' (m ++ d);
  holds_final c m : holds c m -> h_final c = (0, hash m, h_init);
  holds_finalRaw c m : holds c m -> Zlen m mod h_block = 0 -> h_finalRaw c = chain m;
  chain_bytes m : is_bytes (chain m);
  chain_length m : Zlen (chain m) = h_digest;
  h_sizes : h_block = 64 /\ h_pad_size = 56;
  h_digest_le : 0 < h_digest <= 64
}.

(** ** The operations *)

Definition IPAD : Z := 0x36.
Definition OPAD : Z := 0x5C.

Section Hmac.
  Context {H : Hash} {HS : HashSpec H}.

Record Hmac := mk_hmac {
  hmac_hash : hctx;
  ipad : list Z;
  opad : list Z;
  innerHash : list Z;
  innerHashKeyed : bool }.

Definition set_hash (c : hctx) (h : Hmac) : Hmac :=
  mk_hmac c (ipad h) (opad h) (innerHash h) (innerHashKeyed h).

(** [HmacKeyHashUpdate] *)
Definition HmacKeyHashUpdate (c : hctx) (pad : list Z) : Z * hctx := h_update c pad.

(** [wc_HmacSetKey] (with [_InitHmac]) on a key that is not [NULL]. *)
Definition wc_HmacSetKey (h : Hmac) (key : list Z) : Z * Hmac :=
  let c := h_init in
  let '(ret, ip, c) :=
    if Zlen key <=? h_block then (0, key, c)
    else
      let '(ret, c) := h_update c key in
      if negb (ret =? 0) then (ret, ipad h, c)
      else let '(ret, d, c) := h_final c in (ret, d, c) in
  if negb (ret =? 0) then (ret, mk_hmac c ip (opad h) (innerHash h) false)
  else
    let ip := ip ++ replicate (Z.to_nat (h_block - Zlen ip)) 0 in
    let op := map (fun b => u8 (Z.lxor b OPAD)) ip in
    let ip := map (fun b => u8 (Z.lxor b IPAD)) ip in
    (0, mk_hmac c ip op (innerHash h) false).

(** The inner hash is keyed when the first byte, or the end, arrives. *)
Definition key_inner (h : Hmac) : Z * Hmac :=
  if innerHashKeyed h then (0, h)
  else
    let '(ret, c) := HmacKeyHashUpdate (hmac_hash h) (ipad h) in
    if negb (ret =? 0) then (ret, set_hash c h)
    else (0, mk_hmac c (ipad h) (opad h) (innerHash h) true).

Definition wc_HmacUpdate (h : Hmac) (msg : list Z) : Z * Hmac :=
  if Zlen msg =? 0 then (0, h)
  else
    let '(ret, h) := key_inner h in
    if negb (ret =? 0) then (ret, h)
    else let '(ret, c) := h_update (hmac_hash h) msg in (ret, set_hash c h).

(** [wc_HmacFinal]: the code, the MAC and the context. *)
Definition wc_HmacFinal (h : Hmac) : Z * list Z * Hmac :=
  let '(ret, h) := key_inner h in
  if negb (ret =? 0) then (ret, [], h)
  else
    let '(ret, inner, c) := h_final (hmac_hash h) in
    let h := mk_hmac c (ipad h) (opad h) inner (innerHashKeyed h) in
    if negb (ret =? 0) then (ret, [], h)
    else
      let '(ret, c) := h_update (hmac_hash h) (opad h) in
      if negb (ret =? 0) then (ret, [], set_hash c h)
      else
        let '(ret, c) := h_update c (innerHash h) in
        if negb (ret =? 0) then (ret, [], set_hash c h)
        else
          let '(ret, d, c) := h_final c in
          if negb (ret =? 0) then (ret, [], set_hash c h)
          else (0, d, mk_hmac c (ipad h) (opad h) (innerHash h) false).

(** ** RFC 2104 *)

(** The key, brought to the length of a block. *)
Definition block_key (K : list Z) : list Z :=
  let k := if Zlen K <=? h_block then K else hash K in
  k ++ replicate (Z.to_nat (h_block - Zlen k)) 0.

Definition xor_pad (K : list Z) (p : Z) : list Z := map (fun b => Z.lxor b p) (block_key K).

Definition HMAC (K m : list Z) : list Z :=
  hash (xor_pad K OPAD ++ hash (xor_pad K IPAD ++ m)).

(** ** The operations compute it *)

Lemma hash_bytes m : is_bytes (hash m).
Proof using. apply chain_bytes. Qed.

Lemma hash_length m : Zlen (hash m) = h_digest.
Proof using. apply chain_length. Qed.

Lemma block_key_spec K : is_bytes K -> is_bytes (block_key K) /\ Zlen (block_key K) = h_block.
Proof using.
  intros HK. destruct h_sizes as [Hb _]. pose proof h_digest_le as Hd. unfold block_key.
  set (k := if Zlen K <=? h_block then K else hash K).
  assert (Hk : is_bytes k /\ Zlen k <= h_block).
  { unfold k. destruct (Z.leb_spec (Zlen K) h_block); [auto |].
    split; [apply hash_bytes | rewrite hash_length; lia]. }
  destruct Hk as [Bk Lk]. split.
  - apply is_bytes_app. split; [exact Bk |]. apply Forall_replicate. unfold is_word. lia.
  - rewrite Zlen_app. unfold Zlen in *. rewrite length_replicate. lia.
Qed.

Lemma xor_pad_spec K p :
  is_bytes K -> is_word 8 p -> is_bytes (xor_pad K p) /\ Zlen (xor_pad K p) = h_block.
Proof using.
  intros HK Hp. destruct (block_key_spec K HK) as [B L]. unfold xor_pad. split.
  - apply Forall_map. apply (Forall_impl _ _ _ B). intros b Hb.
    apply lxor_is_word; [lia | exact Hb | exact Hp].
  - unfold Zlen in *. now rewrite length_map.
Qed.

Lemma pads_are_bytes K : is_bytes K ->
  is_bytes (xor_pad K IPAD) /\ Zlen (xor_pad K IPAD) = 64 /\
  is_bytes (xor_pad K OPAD) /\ Zlen (xor_pad K OPAD) = 64.
Proof using.
  intros HK. destruct h_sizes as [Hb _]. rewrite <- Hb.
  destruct (xor_pad_spec K IPAD HK) as [? ?]; [unfold is_word, IPAD; lia |].
  destruct (xor_pad_spec K OPAD HK) as [? ?]; [unfold is_word, OPAD; lia |]. auto.
Qed.

(** The context has absorbed [m] under the key [K]. *)
Definition hmac_rep (h : Hmac) (K m : list Z) : Prop :=
  ipad h = xor_pad K IPAD /\ opad h = xor_pad K OPAD /\
  if innerHashKeyed h then holds (hmac_hash h) (xor_pad K IPAD ++ m)
  else m = [] /\ holds (hmac_hash h) [].

Lemma map_u8_lxor p l :
  is_bytes l -> is_word 8 p -> map (fun b => u8 (Z.lxor b p)) l = map (fun b => Z.lxor b p) l.
Proof using.
  intros B Hp. apply map_ext_in. intros b Hb. apply wrap_small.
  apply lxor_is_word; [lia | | exact Hp]. apply (proj1 (List.Forall_forall _ _) B b Hb).
Qed.

Lemma wc_HmacSetKey_rep h K :
  is_bytes K -> Zlen K < 2 ^ 32 ->
  exists h', wc_HmacSetKey h K = (0, h') /\ hmac_rep h' K [] /\ innerHashKeyed h' = false.
Proof using.
  intros HK LK. destruct (block_key_spec K HK) as [BK _].
  assert (E : forall op inner, hmac_rep (mk_hmac h_init
               (map (fun b => u8 (Z.lxor b IPAD)) (block_key K))
               (map (fun b => u8 (Z.lxor b OPAD)) (block_key K)) inner op) K [] <->
             (if op then holds h_init (xor_pad K IPAD ++ []) else True)).
  { intros op inner. unfold hmac_rep. cbn [ipad opad innerHashKeyed hmac_hash].
    rewrite !map_u8_lxor by (exact BK || (unfold is_word, IPAD, OPAD; lia)).
    destruct op; [tauto |]. split; [tauto |]. intros _. repeat split. apply holds_init. }
  unfold wc_HmacSetKey, block_key in *. destruct (Z.leb_spec (Zlen K) h_block).
  - cbn [negb Z.eqb]. eexists. split; [reflexivity |]. split; [now apply E | reflexivity].
  - destruct (holds_update h_init [] K holds_init HK LK) as (c & -> & Hc).
    cbn [negb Z.eqb app] in *. rewrite (holds_final c K Hc). cbn [negb Z.eqb].
    eexists. split; [reflexivity |]. split; [now apply E | reflexivity].
Qed.

Lemma key_inner_rep h K m :
  is_bytes K -> hmac_rep h K m ->
  exists h', key_inner h = (0, h') /\ hmac_rep h' K m /\ innerHashKeyed h' = true.
Proof using.
  intros HK (Ei & Eo & Hh). unfold key_inner. destruct (innerHashKeyed h) eqn:Ek.
  - exists h. unfold hmac_rep. rewrite Ek. auto.
  - destruct Hh as [-> Hc]. destruct (pads_are_bytes K HK) as (Bi & Li & _).
    unfold HmacKeyHashUpdate. rewrite Ei.
    destruct (holds_update (hmac_hash h) [] (xor_pad K IPAD) Hc Bi ltac:(lia)) as (c & -> & Hc').
    cbn [negb Z.eqb]. eexists. split; [reflexivity |]. split; [| reflexivity].
    split; [reflexivity |]. split; [exact Eo |]. cbn. now rewrite app_nil_r.
Qed.

Lemma wc_HmacUpdate_rep h K m d :
  is_bytes K -> hmac_rep h K m -> is_bytes d -> Zlen d < 2 ^ 32 ->
  exists h', wc_HmacUpdate h d = (0, h') /\ hmac_rep h' K (m ++ d).
Proof using.
  intros HK Rep Bd Ld. unfold wc_HmacUpdate. destruct (Z.eqb_spec (Zlen d) 0) as [E |].
  - exists h. split; [reflexivity |].
    destruct d; [now rewrite app_nil_r | unfold Zlen in E; cbn in E; lia].
  - destruct (key_inner_rep h K m HK Rep) as (h1 & -> & (Ei & Eo & Hh) & Ek). rewrite Ek in Hh.
    cbn [negb Z.eqb]. destruct (holds_update _ _ d Hh Bd Ld) as (c & -> & Hc).
    eexists. split; [reflexivity |]. unfold hmac_rep, set_hash. cbn [ipad opad innerHashKeyed hmac_hash].
    rewrite Ek, app_assoc. auto.
Qed.

(** After the inner hash: the outer one. *)
Lemma wc_HmacFinal_rep h K m :
  is_bytes K -> hmac_rep h K m ->
  exists h', wc_HmacFinal h = (0, HMAC K m, h') /\ hmac_rep h' K [].
Proof using.
  intros HK Rep. unfold wc_HmacFinal.
  destruct (key_inner_rep h K m HK Rep) as (h1 & -> & (Ei & Eo & Hh) & Ek). rewrite Ek in Hh.
  cbn [negb Z.eqb]. rewrite (holds_final _ _ Hh). cbn [negb Z.eqb hmac_hash opad innerHash ipad].
  destruct (pads_are_bytes K HK) as (_ & _ & Bo & Lo). rewrite Eo.
  destruct (holds_update h_init [] (xor_pad K OPAD) holds_init Bo ltac:(lia)) as (c & -> & Hc).
  cbn [negb Z.eqb app] in *. pose proof h_digest_le.
  destruct (holds_update c _ (hash (xor_pad K IPAD ++ m)) Hc (hash_bytes _)) as (c' & -> & Hc').
  { rewrite hash_length. lia. }
  cbn [negb Z.eqb]. rewrite (holds_final _ _ Hc'). cbn [negb Z.eqb].
  eexists. split; [reflexivity |]. unfold hmac_rep. cbn [ipad opad innerHashKeyed hmac_hash].
  rewrite Ei. repeat split. apply holds_init.
Qed.

(** A sequence of updates. *)
Fixpoint hmac_updates (h : Hmac) (ds : list (list Z)) : Z * Hmac :=
  match ds with
  | [] => (0, h)
  | d :: ds =>
      let '(ret, h) := wc_HmacUpdate h d in
      if negb (ret =? 0) then (ret, h) else hmac_updates h ds
  end.

Lemma hmac_updates_rep ds h K m :
  is_bytes K -> hmac_rep h K m -> Forall (fun d => is_bytes d /\ Zlen d < 2 ^ 32) ds ->
  exists h', hmac_updates h ds = (0, h') /\ hmac_rep h' K (m ++ concat ds).
Proof using.
  intros HK Rep F. revert h m Rep. induction F as [| d ds [Bd Ld] F IH]; intros h m Rep; cbn [hmac_updates concat].
  - exists h. now rewrite app_nil_r.
  - destruct (wc_HmacUpdate_rep h K m d HK Rep Bd Ld) as (h1 & -> & R1). cbn [Z.eqb negb].
    destruct (IH h1 _ R1) as (h2 & E & R2). exists h2. now rewrite app_assoc.
Qed.

End Hmac.

(** ** Theorems *)

(** [C22] HMAC over any hash with blocks of 64 bytes computes RFC 2104: setting a key of any
    length (longer than a block included), absorbing a message in pieces and
    finishing never fails and returns H((K xor opad) || H((K xor ipad) || m));
    the context is then ready for the next message under the same key, which
    the second message shows. *)
Theorem hmac_stream {H : Hash} {HS : HashSpec H} h K ds ds' :
  is_bytes K -> Zlen K < 2 ^ 32 ->
  Forall (fun d => is_bytes d /\ Zlen d < 2 ^ 32) ds ->
  Forall (fun d => is_bytes d /\ Zlen d < 2 ^ 32) ds' ->
  exists h1 h2 h3 h4 h5,
    wc_HmacSetKey h K = (0, h1) /\
    hmac_updates h1 ds = (0, h2) /\ wc_HmacFinal h2 = (0, HMAC K (concat ds), h3) /\
    hmac_updates h3 ds' = (0, h4) /\ wc_HmacFinal h4 = (0, HMAC K (concat ds'), h5).
Proof.
  intros HK LK F F'.
  destruct (wc_HmacSetKey_rep h K HK LK) as (h1 & E1 & R1 & _).
  destruct (hmac_updates_rep ds h1 K [] HK R1 F) as (h2 & E2 & R2).
  destruct (wc_HmacFinal_rep h2 K _ HK R2) as (h3 & E3 & R3).
  destruct (hmac_updates_rep ds' h3 K [] HK R3 F') as (h4 & E4 & R4).
  destruct (wc_HmacFinal_rep h4 K _ HK R4) as (h5 & E5 & _).
  exists h1, h2, h3, h4, h5. auto.
Qed.

(** ** SHA-256 as a hash *)

#[export] Instance Sha256_hash (transform : list Z -> list Z -> list Z) : Hash := {|
  hctx := wc_Sha256;
  h_init := InitSha256;
  h_update := wc_Sha256Update transform;
  h_final := wc_Sha256Final transform;
  h_finalRaw := wc_Sha256FinalRaw;
  h_block := WC_SHA256_BLOCK_SIZE;
  h_pad_size := WC_SHA256_PAD_SIZE;
  h_digest := WC_SHA256_DIGEST_SIZE |}.

Lemma be_memory_bytes ws : is_bytes (be_memory ws).
Proof.
  induction ws as [| w ws IH]; [constructor |].
  change (is_bytes (be_bytes 4 w ++ be_memory ws)). apply is_bytes_app.
  split; [apply be_bytes_is_bytes | exact IH].
Qed.

Lemma be_memory_length ws : length (be_memory ws) = (4 * length ws)%nat.
Proof.
  induction ws as [| w ws IH]; [reflexivity |].
  change (length (be_bytes 4 w ++ be_memory ws) = (4 * S (length ws))%nat).
  rewrite length_app, be_bytes_length, IH. lia.
Qed.

Definition sha256_chain (m : list Z) : list Z :=
  be_memory (Spec.compress_blocks (length m / 64) Spec.H0 m).

Lemma sha256_chain_length m : Zlen (sha256_chain m) = 32.
Proof.
  unfold Zlen, sha256_chain. rewrite be_memory_length, <- H0_eq.
  now rewrite (proj1 (compress_blocks_words (length m / 64) _ m H0_words)).
Qed.

(** Either form of the block function gives SHA-256 these laws. *)
#[export] Instance Sha256_spec transform (Ht : block_function transform) :
  HashSpec (Sha256_hash transform).
Proof.
  pose proof (fun H data => block_function_ok transform H data Ht) as ok.
  refine (@Build_HashSpec (Sha256_hash transform) rep sha256_chain rep_init _ _ _ _ _ _ _).
  - exact (wc_Sha256Update_rep transform ok).
  - exact (wc_Sha256Final_rep transform ok).
  - exact wc_Sha256FinalRaw_rep.
  - intros m. apply be_memory_bytes.
  - exact sha256_chain_length.
  - split; reflexivity.
  - cbn. unfold WC_SHA256_DIGEST_SIZE. lia.
Defined.

Definition blank_hmac transform : @Hmac (Sha256_hash transform) :=
  @mk_hmac (Sha256_hash transform) InitSha256 [] [] [] false.

Lemma hmac_stream_witness :
  exists h1 h2 h3 h4 h5,
    wc_HmacSetKey (blank_hmac Transform_Sha256) [1; 2; 3] = (0, h1) /\
    hmac_updates h1 [[4]; [5; 6]] = (0, h2) /\
    wc_HmacFinal h2 =
      (0, @HMAC _ (Sha256_spec Transform_Sha256 block_default) [1; 2; 3] [4; 5; 6], h3) /\
    hmac_updates h3 [] = (0, h4) /\
    wc_HmacFinal h4 = (0, @HMAC _ (Sha256_spec Transform_Sha256 block_default) [1; 2; 3] [], h5).
Proof.
  apply (@hmac_stream _ (Sha256_spec Transform_Sha256 block_default)
           (blank_hmac Transform_Sha256) [1; 2; 3] [[4]; [5; 6]] []).
  - repeat constructor; discriminate.
  - reflexivity.
  - repeat apply Forall_cons_2; try apply Forall_nil_2; (split; [| reflexivity]);
      repeat constructor; discriminate.
  - apply Forall_nil_2.
Defined.

(** Test case 2 of RFC 4231: key "Jefe", message "what do ya want for nothing?". *)
Example hmac_rfc4231 :
  be_value (@HMAC _ (Sha256_spec Transform_Sha256 block_default) [74; 101; 102; 101]
    [119; 104; 97; 116; 32; 100; 111; 32; 121; 97; 32; 119; 97; 110; 116; 32; 102; 111; 114; 32;
     110; 111; 116; 104; 105; 110; 103; 63]) =
  0x5bdcc146bf60754e6a042426089575c75a003f089d2739839dec58b964ec3843.
Proof. vm_compute. reflexivity. Qed.
