(* ===== verification/Hkdf.v ===== *)
(** * wolfcrypt/src/hmac.c, wolfcrypt/src/kdf.c: HKDF

    [wc_HKDF_Extract_ex], [wc_HKDF_Expand_ex] and [wc_HKDF_ex], and their TLS 1.3
    forms [wc_Tls13_HKDF_Extract_ex] and [wc_Tls13_HKDF_Expand_Label_ex], over a
    hash of the class [Hash]: the [type] or [digest] argument selects the
    instance.  Without crypto callbacks; a salt that is [NULL] is [None]. *)

From S2P Require Import Prelude Misc Sha256 Hmac.
From stdpp Require Import list.

#[local] Open Scope Z_scope.
#[local] Open Scope cword_scope.

Definition WC_MAX_DIGEST_SIZE : Z := 64.
Definition MAX_TLS13_HKDF_LABEL_SZ : Z := 47 + WC_MAX_DIGEST_SIZE.

Section Hkdf.
  Context {H : Hash}.

(** The context on the stack, after [wc_HmacInit]. *)
Definition stack_hmac : Hmac := mk_hmac h_init [] [] [] false.

(** A code and the output. *)
Definition wc_HKDF_Extract_ex (salt : option (list Z)) (inKey : list Z) : Z * list Z :=
  let hashSz := h_digest in
  let localSalt := match salt with None => replicate (Z.to_nat hashSz) 0 | Some s => s end in
  let '(ret, myHmac) := wc_HmacSetKey stack_hmac localSalt in
  let '(ret, myHmac) := if ret =? 0 then wc_HmacUpdate myHmac inKey else (ret, myHmac) in
  if ret =? 0 then let '(ret, out, myHmac) := wc_HmacFinal myHmac in (ret, out) else (ret, []).

(** One turn of the loop: the code, [tmp] and the context. *)
Definition expand_turn (myHmac : Hmac) (inKey info tmp : list Z) (n : Z) : Z * list Z * Hmac :=
  let tmpSz := if n =? 1 then 0 else h_digest in
  let '(ret, myHmac) := wc_HmacSetKey myHmac inKey in
  if negb (ret =? 0) then (ret, tmp, myHmac)
  else
    let '(ret, myHmac) := wc_HmacUpdate myHmac (take (Z.to_nat tmpSz) tmp) in
    if negb (ret =? 0) then (ret, tmp, myHmac)
    else
      let '(ret, myHmac) := wc_HmacUpdate myHmac info in
      if negb (ret =? 0) then (ret, tmp, myHmac)
      else
        let '(ret, myHmac) := wc_HmacUpdate myHmac [n] in
        if negb (ret =? 0) then (ret, tmp, myHmac)
        else wc_HmacFinal myHmac.

(** [while (outIdx < outSz)]; [out]: what is written so far. *)
Fixpoint expand_loop (fuel : nat) (myHmac : Hmac) (inKey info tmp : list Z) (n outSz : Z) (out : list Z) : Z * list Z :=
  match fuel with
  | O => (0, out)
  | S fuel =>
      if Zlen out <? outSz then
        let left := outSz - Zlen out in
        let '(ret, tmp, myHmac) := expand_turn myHmac inKey info tmp n in
        if negb (ret =? 0) then (ret, out)
        else
          let left := CT.min left h_digest in
          expand_loop fuel myHmac inKey info tmp (u8 (n + 1)) outSz (out ++ take (Z.to_nat left) tmp)
      else (0, out)
  end.

Definition wc_HKDF_Expand_ex (inKey info : list Z) (outSz : Z) : Z * list Z :=
  let hashSz := h_digest in
  if hashSz =? 0 then (BAD_FUNC_ARG, [])
  else if outSz / hashSz + (if negb (outSz mod hashSz =? 0) then 1 else 0) >? 255 then (BAD_FUNC_ARG, [])
  else expand_loop (S (Z.to_nat (outSz / hashSz))) stack_hmac inKey info (replicate (Z.to_nat WC_MAX_DIGEST_SIZE) 0) 1 outSz [].

Definition wc_HKDF_ex (inKey : list Z) (salt : option (list Z)) (info : list Z) (outSz : Z) : Z * list Z :=
  let '(ret, prk) := wc_HKDF_Extract_ex salt inKey in
  if ret =? 0 then wc_HKDF_Expand_ex prk info outSz else (ret, []).

Definition wc_Tls13_HKDF_Extract_ex (salt : option (list Z)) (ikm : list Z) : Z * list Z :=
  let len := h_digest in
  let localIkm := if Zlen ikm =? 0 then replicate (Z.to_nat len) 0 else ikm in
  wc_HKDF_Extract_ex salt localIkm.

Definition wc_Tls13_HKDF_Expand_Label_ex (okmLen : Z) (prk protocol label info : list Z) : Z * list Z :=
  let idx := 4 +u32 Zlen protocol +u32 Zlen label +u32 Zlen info in
  if idx >? MAX_TLS13_HKDF_LABEL_SZ then (BUFFER_E, [])
  else
    let data := [u8 (okmLen >>u 8); u8 okmLen; u8 (Zlen protocol + Zlen label)] ++ protocol ++ label ++ [u8 (Zlen info)] ++ info in
    wc_HKDF_Expand_ex prk data okmLen.

End Hkdf.

(** ** RFC 5869 and RFC 8446, 7.1 *)
Module HkdfSpec.
Section Spec.
  Context {H : Hash} {HS : HashSpec H}.

Definition zeros : list Z := replicate (Z.to_nat h_digest) 0.

Definition extract (salt : option (list Z)) (ikm : list Z) : list Z := HMAC (default zeros salt) ikm.

(** T(i) *)
Fixpoint T (prk info : list Z) (i : nat) : list Z :=
  match i with
  | O => []
  | S i => HMAC prk (T prk info i ++ info ++ [Z.of_nat (S i)])
  end.

(** T(1) | ... | T(n) *)
Definition stream (prk info : list Z) (n : nat) : list Z := concat (map (T prk info) (seq 1 n)).

Definition expand (prk info : list Z) (L : Z) : list Z :=
  take (Z.to_nat L) (stream prk info (S (Z.to_nat (L / h_digest)))).

(** A vector with a length of one byte. *)
Definition opaque8 (l : list Z) : list Z := Zlen l :: l.

Definition label_info (L : Z) (label context : list Z) : list Z := be_bytes 2 L ++ opaque8 label ++ opaque8 context.

(** The label with its prefix. *)
Definition expand_label (secret label context : list Z) (L : Z) : list Z := expand secret (label_info L label context) L.

End Spec.
End HkdfSpec.

(** ** The operations compute them *)

Section HkdfProofs.
  Context {H : Hash} {HS : HashSpec H}.

Lemma h_digest_pos : 0 < h_digest.
Proof using HS. exact (proj1 h_digest_le). Qed.

Lemma HMAC_length K m : Zlen (HMAC K m) = h_digest.
Proof using. apply hash_length. Qed.

Lemma HMAC_bytes K m : is_bytes (HMAC K m).
Proof using. apply hash_bytes. Qed.

Lemma zeros_bytes n : is_bytes (replicate n 0).
Proof using. apply Forall_replicate. unfold is_word. lia. Qed.

Lemma hmac_once h K m : is_bytes K -> Zlen K < 2 ^ 32 -> is_bytes m -> Zlen m < 2 ^ 32 ->
  exists h1 h2 h3, wc_HmacSetKey h K = (0, h1) /\ wc_HmacUpdate h1 m = (0, h2) /\ wc_HmacFinal h2 = (0, HMAC K m, h3).
Proof using.
  intros BK LK Bm Lm. destruct (wc_HmacSetKey_rep h K BK LK) as (h1 & E1 & R1 & _).
  destruct (wc_HmacUpdate_rep h1 K [] m BK R1 Bm Lm) as (h2 & E2 & R2).
  destruct (wc_HmacFinal_rep h2 K _ BK R2) as (h3 & E3 & _). exists h1, h2, h3. auto.
Qed.

Lemma Extract_spec salt ikm : is_bytes (default [] salt) -> Zlen (default [] salt) < 2 ^ 32 -> is_bytes ikm -> Zlen ikm < 2 ^ 32 ->
  wc_HKDF_Extract_ex salt ikm = (0, HkdfSpec.extract salt ikm).
Proof using.
  intros Bs Ls Bi Li. unfold wc_HKDF_Extract_ex, HkdfSpec.extract.
  assert (Es : (match salt with None => replicate (Z.to_nat h_digest) 0 | Some s => s end) = default HkdfSpec.zeros salt) by (destruct salt; reflexivity).
  rewrite Es. pose proof h_digest_le.
  destruct (hmac_once stack_hmac (default HkdfSpec.zeros salt) ikm) as (h1 & h2 & h3 & -> & E2 & E3); [| | exact Bi | exact Li |].
  - destruct salt; [exact Bs | apply zeros_bytes].
  - destruct salt; [exact Ls | unfold default, HkdfSpec.zeros, Zlen; rewrite length_replicate; lia].
  - cbn [Z.eqb]. rewrite E2. cbn [Z.eqb]. now rewrite E3.
Qed.

Lemma T_length prk info i : Zlen (HkdfSpec.T prk info (S i)) = h_digest.
Proof using. apply HMAC_length. Qed.

Lemma T_bytes prk info i : is_bytes (HkdfSpec.T prk info i).
Proof using. destruct i; [constructor | apply HMAC_bytes]. Qed.

Lemma stream_S prk info n : HkdfSpec.stream prk info (S n) = HkdfSpec.stream prk info n ++ HkdfSpec.T prk info (S n).
Proof using.
  unfold HkdfSpec.stream. rewrite seq_S, map_app, concat_app. cbn [map concat Nat.add]. now rewrite app_nil_r.
Qed.

Lemma okm_length prk info n : Zlen (HkdfSpec.stream prk info n) = Z.of_nat n * h_digest.
Proof using.
  induction n as [| n IH]; [reflexivity |]. rewrite stream_S, Zlen_app, IH, T_length. lia.
Qed.

(** The turn that computes T(i + 1). *)
Lemma expand_turn_spec h prk info tmp i : is_bytes prk -> Zlen prk < 2 ^ 32 -> is_bytes info -> Zlen info < 2 ^ 32 -> (i < 255)%nat ->
  (i = 0%nat \/ tmp = HkdfSpec.T prk info i) ->
  exists h', expand_turn h prk info tmp (Z.of_nat (S i)) = (0, HkdfSpec.T prk info (S i), h').
Proof using.
  intros BK LK Bi Li Hi Ht. unfold expand_turn. pose proof h_digest_le.
  assert (Et : take (Z.to_nat (if Z.of_nat (S i) =? 1 then 0 else h_digest)) tmp = HkdfSpec.T prk info i).
  { destruct i as [| i]; [reflexivity |]. destruct Ht as [[=] | ->]. destruct (Z.eqb_spec (Z.of_nat (S (S i))) 1); [lia |].
    apply take_ge. pose proof (T_length prk info i) as L. unfold Zlen in L. lia. }
  rewrite Et. destruct (wc_HmacSetKey_rep h prk BK LK) as (h1 & -> & R1 & _). cbn [Z.eqb negb].
  destruct (wc_HmacUpdate_rep h1 prk [] (HkdfSpec.T prk info i) BK R1 (T_bytes _ _ _)) as (h2 & -> & R2);
    [destruct i; [reflexivity | rewrite T_length; lia] |]. cbn [Z.eqb negb].
  destruct (wc_HmacUpdate_rep h2 prk _ info BK R2 Bi Li) as (h3 & -> & R3). cbn [Z.eqb negb].
  destruct (wc_HmacUpdate_rep h3 prk _ [Z.of_nat (S i)] BK R3) as (h4 & -> & R4);
    [repeat constructor; unfold is_word; lia | reflexivity |]. cbn [Z.eqb negb].
  destruct (wc_HmacFinal_rep h4 prk _ BK R4) as (h5 & -> & _). exists h5. cbn [app HkdfSpec.T]. now rewrite <- app_assoc.
Qed.

Lemma stream_take prk info n m L : (n <= m)%nat -> 0 <= L <= Z.of_nat n * h_digest ->
  take (Z.to_nat L) (HkdfSpec.stream prk info m) = take (Z.to_nat L) (HkdfSpec.stream prk info n).
Proof using.
  intros Hm HL. induction Hm as [| m Hm IH]; [reflexivity |].
  rewrite stream_S, take_app_le, IH; [reflexivity |]. pose proof (okm_length prk info m) as E. unfold Zlen in E.
  pose proof h_digest_pos. assert (Z.of_nat n * h_digest <= Z.of_nat m * h_digest) by (apply Z.mul_le_mono_nonneg_r; lia). lia.
Qed.

Lemma expand_loop_spec prk info L : is_bytes prk -> Zlen prk < 2 ^ 32 -> is_bytes info -> Zlen info < 2 ^ 32 -> 0 <= L <= 255 * h_digest ->
  forall fuel i h tmp, i = 0%nat \/ tmp = HkdfSpec.T prk info i ->
    expand_loop fuel h prk info tmp (u8 (Z.of_nat (S i))) L (take (Z.to_nat L) (HkdfSpec.stream prk info i)) =
    (0, take (Z.to_nat L) (HkdfSpec.stream prk info (i + fuel))).
Proof using.
  intros BK LK Bi Li HL. pose proof h_digest_le as Hd. induction fuel as [| fuel IH]; intros i h tmp Ht; cbn [expand_loop]; [now rewrite Nat.add_0_r |].
  pose proof (okm_length prk info i) as Ls. unfold Zlen at 1 in Ls.
  set (out := take _ (HkdfSpec.stream prk info i)).
  assert (Lo : Zlen out = Z.min L (Z.of_nat i * h_digest)) by (unfold out, Zlen; rewrite length_take; lia).
  destruct (Z.ltb_spec (Zlen out) L) as [Hlt | Hge].
  - assert (Li' : Zlen out = Z.of_nat i * h_digest) by lia. assert (Hi : (i < 255)%nat) by nia.
    rewrite (wrap_small 8) by (unfold is_word; lia).
    destruct (expand_turn_spec h prk info tmp i BK LK Bi Li Hi Ht) as (h' & ->). cbn [Z.eqb negb].
    rewrite ct_min_spec by (unfold is_word; lia). replace (Z.of_nat (S i) + 1) with (Z.of_nat (S (S i))) by lia.
    assert (Eo : out ++ take (Z.to_nat (Z.min (L - Zlen out) h_digest)) (HkdfSpec.T prk info (S i)) =
                 take (Z.to_nat L) (HkdfSpec.stream prk info (S i))).
    { pose proof (T_length prk info i) as LT. unfold Zlen in LT. rewrite stream_S, take_app. fold out. f_equal.
      destruct (Z.min_spec (L - Zlen out) h_digest) as [[Hm ->] | [Hm ->]]; [f_equal; lia |]. rewrite !(take_ge (HkdfSpec.T prk info (S i))) by lia. reflexivity. }
    rewrite Eo, (IH (S i) h' _ (or_intror eq_refl)). do 3 f_equal. lia.
  - f_equal. unfold out. symmetry. apply stream_take; lia.
Qed.

Lemma Expand_spec prk info L : is_bytes prk -> Zlen prk < 2 ^ 32 -> is_bytes info -> Zlen info < 2 ^ 32 -> is_word 32 L ->
  wc_HKDF_Expand_ex prk info L = if L <=? 255 * h_digest then (0, HkdfSpec.expand prk info L) else (BAD_FUNC_ARG, []).
Proof using.
  intros BK LK Bi Li HL. pose proof h_digest_le as Hd. unfold wc_HKDF_Expand_ex, HkdfSpec.expand. unfold is_word in HL.
  destruct (Z.eqb_spec h_digest 0) as [N | N]; [lia |].
  assert (E : (L / h_digest + (if negb (L mod h_digest =? 0) then 1 else 0) >? 255) = negb (L <=? 255 * h_digest)).
  { pose proof (Z.div_mod L h_digest N) as Ed. pose proof (Z.mod_pos_bound L h_digest (proj1 Hd)) as Hr.
    generalize dependent (L mod h_digest). generalize dependent (L / h_digest). revert Hd. clear. generalize h_digest. intros d Hd q r Ed Hr.
    destruct (Z.leb_spec L (255 * d)), (Z.eqb_spec r 0); cbn [negb]; match goal with |- (?x >? 255) = _ => destruct (Z.gtb_spec x 255) end; reflexivity || nia. }
  rewrite E. destruct (Z.leb_spec L (255 * h_digest)); cbn [negb]; [| reflexivity].
  assert (R : 0 <= L <= 255 * h_digest) by lia.
  pose proof (expand_loop_spec prk info L BK LK Bi Li R (S (Z.to_nat (L / h_digest))) 0 stack_hmac
                (replicate (Z.to_nat WC_MAX_DIGEST_SIZE) 0) (or_introl eq_refl)) as X.
  change (HkdfSpec.stream prk info 0) with (@nil Z) in X. rewrite take_nil in X. exact X.
Qed.

Lemma expand_length prk info L : 0 <= L -> Zlen (HkdfSpec.expand prk info L) = L.
Proof using.
  intros HL. pose proof h_digest_pos as Hd. assert (N : h_digest <> 0) by lia. unfold HkdfSpec.expand. apply Zlen_take. rewrite okm_length. split; [exact HL |].
  pose proof (Z.div_mod L h_digest N). pose proof (Z.mod_pos_bound L h_digest Hd).
  rewrite Nat2Z.inj_succ, Z2Nat.id by (apply Z.div_pos; lia). nia.
Qed.

Lemma expand_bytes prk info L : is_bytes (HkdfSpec.expand prk info L).
Proof using.
  apply Forall_take. unfold HkdfSpec.stream. generalize (seq 1 (S (Z.to_nat (L / h_digest)))). intros l. induction l as [| i l IH]; [constructor |].
  cbn [map concat]. apply Forall_app. split; [apply T_bytes | exact IH].
Qed.

(** *** TLS 1.3 *)

Lemma Tls13_Extract_spec salt ikm : is_bytes (default [] salt) -> Zlen (default [] salt) < 2 ^ 32 -> is_bytes ikm -> Zlen ikm < 2 ^ 32 ->
  wc_Tls13_HKDF_Extract_ex salt ikm = (0, HkdfSpec.extract salt (if decide (ikm = []) then HkdfSpec.zeros else ikm)).
Proof using.
  intros Bs Ls Bi Li. unfold wc_Tls13_HKDF_Extract_ex. pose proof h_digest_le.
  destruct (Z.eqb_spec (Zlen ikm) 0) as [E | E], (decide (ikm = [])) as [N | N].
  - apply Extract_spec; [exact Bs | exact Ls | apply zeros_bytes | unfold HkdfSpec.zeros, Zlen; rewrite length_replicate; lia].
  - destruct N. apply length_zero_iff_nil. unfold Zlen in E. lia.
  - subst. now destruct E.
  - now apply Extract_spec.
Qed.

Lemma label_info_bytes L label context : is_bytes label -> is_bytes context -> Zlen label < 256 -> Zlen context < 256 ->
  is_bytes (HkdfSpec.label_info L label context).
Proof using.
  intros Bl Bc Ll Lc. pose proof (Zlen_nonneg label). pose proof (Zlen_nonneg context). unfold HkdfSpec.label_info, HkdfSpec.opaque8.
  apply Forall_app; split; [apply be_bytes_is_bytes |]. apply Forall_app; split; constructor; auto; unfold is_word; lia.
Qed.

(** The structure fits one length byte each, and 16 bits for the length. *)
Lemma Expand_Label_spec L prk protocol label info : is_bytes prk -> Zlen prk < 2 ^ 32 ->
  is_bytes protocol -> is_bytes label -> is_bytes info -> Zlen protocol < 2 ^ 30 -> Zlen label < 2 ^ 30 -> Zlen info < 2 ^ 30 -> is_word 16 L ->
  wc_Tls13_HKDF_Expand_Label_ex L prk protocol label info =
  if 4 + Zlen protocol + Zlen label + Zlen info >? MAX_TLS13_HKDF_LABEL_SZ then (BUFFER_E, [])
  else if L <=? 255 * h_digest then (0, HkdfSpec.expand_label prk (protocol ++ label) info L) else (BAD_FUNC_ARG, []).
Proof using.
  intros BK LK Bp Bl Bi Lp Ll Li HL. pose proof (Zlen_nonneg protocol). pose proof (Zlen_nonneg label). pose proof (Zlen_nonneg info).
  unfold wc_Tls13_HKDF_Expand_Label_ex. 
  rewrite (wrap_small 32 (4 + Zlen protocol)), (wrap_small 32 (4 + Zlen protocol + Zlen label)), (wrap_small 32 (_ + Zlen info)) by (unfold is_word; lia).
  destruct (Z.gtb_spec (4 + Zlen protocol + Zlen label + Zlen info) MAX_TLS13_HKDF_LABEL_SZ) as [G | G]; [reflexivity |].
  change MAX_TLS13_HKDF_LABEL_SZ with 111 in G.
  assert (E : [u8 (Z.shiftr L 8); u8 L; u8 (Zlen protocol + Zlen label)] ++ protocol ++ label ++ [u8 (Zlen info)] ++ info =
              HkdfSpec.label_info L (protocol ++ label) info).
  { unfold HkdfSpec.label_info, HkdfSpec.opaque8, be_bytes. cbn [le_bytes rev app]. rewrite Zlen_app, !(wrap_small 8 (_ + _)), !(wrap_small 8 (Zlen info)) by (unfold is_word; lia).
    now rewrite <- app_assoc. }
  rewrite E. rewrite Expand_spec; [reflexivity | exact BK | exact LK | | | unfold is_word in *; lia].
  - apply label_info_bytes; [now apply Forall_app | exact Bi | rewrite Zlen_app; lia | lia].
  - unfold HkdfSpec.label_info, HkdfSpec.opaque8. rewrite !Zlen_app, !Zlen_cons, !Zlen_app. unfold Zlen at 1. rewrite be_bytes_length. lia.
Qed.

End HkdfProofs.

(** ** Theorems *)

(** [C23] HKDF over any hash with blocks of 64 bytes is RFC 5869: with a salt or without, key and
    info of any size, [wc_HKDF_ex] returns exactly the first [L] bytes of
    T(1) | T(2) | ... under the extracted key for every [L] up to 255 digests -
    the block counter of one byte never wraps into a used value - and
    [BAD_FUNC_ARG] beyond; extraction alone is HMAC under the salt. *)
Theorem hkdf_rfc5869 {H : Hash} {HS : HashSpec H} (ikm : list Z) (salt : option (list Z)) (info : list Z) (L : Z) :
  is_bytes ikm -> Zlen ikm < 2 ^ 32 -> is_bytes (default [] salt) -> Zlen (default [] salt) < 2 ^ 32 ->
  is_bytes info -> Zlen info < 2 ^ 32 -> is_word 32 L ->
  wc_HKDF_Extract_ex salt ikm = (0, HkdfSpec.extract salt ikm) /\
  wc_HKDF_ex ikm salt info L =
    (if L <=? 255 * h_digest then (0, HkdfSpec.expand (HkdfSpec.extract salt ikm) info L) else (BAD_FUNC_ARG, [])) /\
  Zlen (HkdfSpec.expand (HkdfSpec.extract salt ikm) info L) = L.
Proof.
  intros Bi Li Bs Ls Bf Lf HL. pose proof (Extract_spec salt ikm Bs Ls Bi Li) as E. split; [exact E |]. split.
  - unfold wc_HKDF_ex. rewrite E. cbn [Z.eqb]. apply Expand_spec; [apply HMAC_bytes | | exact Bf | exact Lf | exact HL].
    unfold HkdfSpec.extract. rewrite HMAC_length. pose proof h_digest_le. lia.
  - apply expand_length. apply HL.
Qed.

(** Test case 1 of RFC 5869. *)
Example hkdf_case1 :
  let '(ret, okm) := wc_HKDF_ex (H := Sha256_hash Transform_Sha256) (replicate 22 0x0b) (Some (seqZ 0 13)) (seqZ 0xf0 10) 42 in
  (ret, be_value okm) = (0, 0x3cb25f25faacd57a90434f64d0362f2a2d2d0a90cf1a5a4c5db02d56ecc4c5bf34007208d5b887185865).
Proof. vm_compute. reflexivity. Qed.

Lemma hkdf_rfc5869_witness :
  let HS := Sha256_spec Transform_Sha256 block_default in
  wc_HKDF_ex (H := Sha256_hash Transform_Sha256) (replicate 22 0x0b) None [1; 2] 8161 = (BAD_FUNC_ARG, []) /\
  Zlen (@HkdfSpec.expand _ HS (@HkdfSpec.extract _ HS None (replicate 22 0x0b)) [1; 2] 8161) = 8161.
Proof.
  exact (proj2 (@hkdf_rfc5869 _ (Sha256_spec Transform_Sha256 block_default) (replicate 22 0x0b) None [1; 2] 8161
    ltac:(apply (bool_decide_unpack _); vm_compute; exact I) eq_refl ltac:(constructor) eq_refl
    ltac:(apply (bool_decide_unpack _); vm_compute; exact I) eq_refl ltac:(split; [discriminate | reflexivity]))).
Defined.
