(* ===== verification/ChaCha.v ===== *)
(** * wolfcrypt/src/chacha.c: ChaCha20 and XChaCha20

    The C implementation ([wc_Chacha_wordtobyte], [wc_Chacha_encrypt_bytes]), which
    the builds without an assembly back end use, on little-endian machines with
    bytes of 8 bits.  The cipher keeps no key stream: what is left of a block is
    generated again at the next call ([left] counts its bytes).

    A call names the addresses of its buffers, on which the word-wise exclusive or
    depends; input and output are the same buffer or do not overlap.  [NULL]
    arguments are left out.

    The specification, RFC 8439, comes first: the state as four rows of four words,
    a round as one operation on whole rows. *)

From S2P Require Import Prelude Misc.
From stdpp Require Import list.

#[local] Open Scope Z_scope.
#[local] Open Scope cword_scope.

Definition CHACHA_CHUNK_WORDS : nat := 16.
Definition CHACHA_CHUNK_BYTES : Z := 64.
Definition CHACHA_MATRIX_CNT_IV : nat := 12.
Definition CHACHA_MAX_KEY_SZ : Z := 32.
Definition CHACHA_IV_BYTES : Z := 12.
Definition XCHACHA_NONCE_BYTES : Z := 24.
Definition ROUNDS : nat := 20.
Definition MISSING_KEY : Z := -278.

(** ** RFC 8439 *)
Module ChaChaSpec.

Definition rotl (n x : Z) : Z := (x * 2 ^ n) mod 2 ^ 32 + x / 2 ^ (32 - n).

(** Row operations. *)
Definition radd : list Z -> list Z -> list Z := zip_with (fun x y => (x + y) mod 2 ^ 32).
Definition rxor : list Z -> list Z -> list Z := zip_with Z.lxor.
Definition rrot (n : Z) : list Z -> list Z := map (rotl n).
Definition turn (n : nat) (r : list Z) : list Z := drop n r ++ take n r.

Definition matrix := (list Z * list Z * list Z * list Z)%type.

Definition round (m : matrix) : matrix :=
  let '(a, b, c, d) := m in
  let a := radd a b in let d := rrot 16 (rxor d a) in
  let c := radd c d in let b := rrot 12 (rxor b c) in
  let a := radd a b in let d := rrot 8 (rxor d a) in
  let c := radd c d in let b := rrot 7 (rxor b c) in
  (a, b, c, d).

(** A column round and a diagonal round. *)
Definition double_round (m : matrix) : matrix :=
  let '(a, b, c, d) := round m in
  let '(a, b, c, d) := round (a, turn 1 b, turn 2 c, turn 3 d) in
  (a, turn 3 b, turn 2 c, turn 1 d).

Definition matrix_of (l : list Z) : matrix := (take 4 l, take 4 (drop 4 l), take 4 (drop 8 l), drop 12 l).
Definition cells (m : matrix) : list Z := let '(a, b, c, d) := m in a ++ b ++ c ++ d.

Definition permute (l : list Z) : list Z := cells (Nat.iter 10 double_round (matrix_of l)).

Definition words (l : list Z) (n : nat) : list Z := map (fun i => le_value (take 4 (drop (4 * i) l))) (seq 0 n).

(** "expand 32-byte k", "expand 16-byte k". *)
Definition constants (long : bool) : list Z :=
  if long then [0x61707865; 0x3320646e; 0x79622d32; 0x6b206574] else [0x61707865; 0x3120646e; 0x79622d36; 0x6b206574].

Definition init (key : list Z) (counter : Z) (nonce : list Z) : list Z :=
  (if Zlen key =? 32 then constants true ++ words key 8 else constants false ++ words key 4 ++ words key 4) ++
  [counter] ++ words nonce 3.

Definition block (key : list Z) (counter : Z) (nonce : list Z) : list Z :=
  let s := init key counter nonce in concat (map (le_bytes 4) (radd (permute s) s)).

(** Byte [i] of the key stream that starts at block [counter], which wraps. *)
Definition stream_byte (key : list Z) (counter : Z) (nonce : list Z) (i : Z) : Z :=
  rd (block key ((counter + i / 64) mod 2 ^ 32) nonce) (i mod 64).

Definition stream (key : list Z) (counter : Z) (nonce : list Z) (from : Z) (n : nat) : list Z :=
  map (stream_byte key counter nonce) (seqZ from (Z.of_nat n)).

Definition xor (key : list Z) (counter : Z) (nonce : list Z) (from : Z) (l : list Z) : list Z :=
  zip_with Z.lxor l (stream key counter nonce from (length l)).

(** HChaCha20: a key from a key and 16 bytes of a nonce. *)
Definition hchacha (key nonce : list Z) : list Z :=
  let s := permute (init key (le_value (take 4 nonce)) (drop 4 nonce)) in
  concat (map (le_bytes 4) (take 4 s ++ drop 12 s)).

End ChaChaSpec.

(** ** The operations *)

(** [left] bytes of the block of the current counter are still to be used. *)
Record ChaCha := mk_chacha { X : list Z; left : Z; keySet : bool }.

Definition cell (x : list Z) (i : nat) : Z := nth i x 0.

Definition ROTATE (v c : Z) : Z := Rot.rotlFixed v c.
Definition XOR (v w : Z) : Z := Z.lxor v w.
Definition PLUS (v w : Z) : Z := v +u32 w.
Definition PLUSONE (v : Z) : Z := PLUS v 1.

(** [x[a] = PLUS(x[a],x[b])] and [x[d] = ROTATE(XOR(x[d],x[a]),n)] *)
Definition add_cell (a b : nat) (x : list Z) : list Z := <[a := PLUS (cell x a) (cell x b)]> x.
Definition rot_cell (d a : nat) (n : Z) (x : list Z) : list Z := <[d := ROTATE (XOR (cell x d) (cell x a)) n]> x.

Definition QUARTERROUND (a b c d : nat) (x : list Z) : list Z :=
  let x := add_cell a b x in let x := rot_cell d a 16 x in
  let x := add_cell c d x in let x := rot_cell b c 12 x in
  let x := add_cell a b x in let x := rot_cell d a 8 x in
  let x := add_cell c d x in rot_cell b c 7 x.

Definition two_rounds (x : list Z) : list Z :=
  let x := QUARTERROUND 0 4 8 12 x in
  let x := QUARTERROUND 1 5 9 13 x in
  let x := QUARTERROUND 2 6 10 14 x in
  let x := QUARTERROUND 3 7 11 15 x in
  let x := QUARTERROUND 0 5 10 15 x in
  let x := QUARTERROUND 1 6 11 12 x in
  let x := QUARTERROUND 2 7 8 13 x in
  QUARTERROUND 3 4 9 14 x.

(** [for (i = nrounds; i > 0; i -= 2)] around a body. *)
Fixpoint by_twos {A} (body : A -> A) (i : nat) (x : A) : A :=
  match i with
  | S (S i) => by_twos body i (body x)
  | _ => x
  end.

Definition rounds : nat -> list Z -> list Z := by_twos two_rounds.

Definition wc_Chacha_wordtobyte (state : list Z) : list Z :=
  zip_with PLUS (rounds ROUNDS state) state.

(** The key stream block, as it lies in memory. *)
Definition gen_stream (ctx : ChaCha) : list Z := concat (map (le_bytes 4) (wc_Chacha_wordtobyte (X ctx))).

Definition U8TO32_LITTLE (p : list Z) : Z := le_value (take 4 p).

Definition wc_Chacha_SetIV (ctx : ChaCha) (inIv : list Z) (counter : Z) : Z * ChaCha :=
  let x := X ctx in
  let x := <[CHACHA_MATRIX_CNT_IV := counter]> x in
  let x := <[(CHACHA_MATRIX_CNT_IV + 1)%nat := U8TO32_LITTLE inIv]> x in
  let x := <[(CHACHA_MATRIX_CNT_IV + 2)%nat := U8TO32_LITTLE (drop 4 inIv)]> x in
  let x := <[(CHACHA_MATRIX_CNT_IV + 3)%nat := U8TO32_LITTLE (drop 8 inIv)]> x in
  (0, mk_chacha x 0 (keySet ctx)).

Definition sigma : list Z := [0x61707865; 0x3320646e; 0x79622d32; 0x6b206574].
Definition tau : list Z := [0x61707865; 0x3120646e; 0x79622d36; 0x6b206574].

Definition wc_Chacha_SetKey (ctx : ChaCha) (key : list Z) : Z * ChaCha :=
  let keySz := Zlen key in
  if negb (keySz =? CHACHA_MAX_KEY_SZ / 2) && negb (keySz =? CHACHA_MAX_KEY_SZ) then (BAD_FUNC_ARG, ctx)
  else
    let k := key in
    let x := X ctx in
    let x := <[4%nat := U8TO32_LITTLE k]> x in
    let x := <[5%nat := U8TO32_LITTLE (drop 4 k)]> x in
    let x := <[6%nat := U8TO32_LITTLE (drop 8 k)]> x in
    let x := <[7%nat := U8TO32_LITTLE (drop 12 k)]> x in
    let '(k, constants) := if keySz =? CHACHA_MAX_KEY_SZ then (drop 16 k, sigma) else (k, tau) in
    let x := <[8%nat := U8TO32_LITTLE k]> x in
    let x := <[9%nat := U8TO32_LITTLE (drop 4 k)]> x in
    let x := <[10%nat := U8TO32_LITTLE (drop 8 k)]> x in
    let x := <[11%nat := U8TO32_LITTLE (drop 12 k)]> x in
    let x := <[0%nat := cell constants 0]> x in
    let x := <[1%nat := cell constants 1]> x in
    let x := <[2%nat := cell constants 2]> x in
    let x := <[3%nat := cell constants 3]> x in
    (0, mk_chacha x 0 true).

Definition next_counter (ctx : ChaCha) : ChaCha :=
  mk_chacha (<[CHACHA_MATRIX_CNT_IV := PLUSONE (cell (X ctx) CHACHA_MATRIX_CNT_IV)]> (X ctx)) (left ctx) (keySet ctx).

Definition set_left (n : Z) (ctx : ChaCha) : ChaCha := mk_chacha (X ctx) n (keySet ctx).

Section Encrypt.
  Context (addr_state : Z).

(** The loop over whole blocks: [n] of them. *)
Fixpoint encrypt_blocks (n : nat) (addr_m addr_c : Z) (ctx : ChaCha) (m : list Z) : list Z * ChaCha :=
  match n with
  | O => ([], ctx)
  | S n =>
      let state := gen_stream ctx in
      let ctx := next_counter ctx in
      let out := Buf.xorbufout addr_c addr_m addr_state m state (Z.to_nat CHACHA_CHUNK_BYTES) in
      let '(rest, ctx) :=
        encrypt_blocks n (addr_m + CHACHA_CHUNK_BYTES) (addr_c + CHACHA_CHUNK_BYTES) ctx (drop (Z.to_nat CHACHA_CHUNK_BYTES) m) in
      (out ++ rest, ctx)
  end.

(** What is left of a block: the output, and how many bytes it covers. *)
Definition encrypt_leftover (addr_m addr_c : Z) (ctx : ChaCha) (m : list Z) : list Z * Z * ChaCha :=
  let bytes := Zlen m in
  if (0 <? bytes) && (0 <? left ctx) then
    let processed := CT.min bytes (left ctx) in
    let state := gen_stream ctx in
    let at_ := CHACHA_CHUNK_BYTES - left ctx in
    let out := Buf.xorbufout addr_c addr_m (addr_state + at_) m (drop (Z.to_nat at_) state) (Z.to_nat processed) in
    let ctx := set_left (left ctx -u32 processed) ctx in
    let ctx := if left ctx =? 0 then next_counter ctx else ctx in
    (out, processed, ctx)
  else ([], 0, ctx).

Definition wc_Chacha_encrypt_bytes (addr_m addr_c : Z) (ctx : ChaCha) (m : list Z) : list Z * ChaCha :=
  let '(out, processed, ctx) := encrypt_leftover addr_m addr_c ctx m in
  let m := drop (Z.to_nat processed) m in
  let addr_m := addr_m + processed in
  let addr_c := addr_c + processed in
  let n := Zlen m / CHACHA_CHUNK_BYTES in
  let '(blocks, ctx) := encrypt_blocks (Z.to_nat n) addr_m addr_c ctx m in
  let m := drop (Z.to_nat (n * CHACHA_CHUNK_BYTES)) m in
  let bytes := Zlen m in
  if negb (bytes =? 0) then
    let state := gen_stream ctx in
    let last := Buf.xorbufout (addr_c + n * CHACHA_CHUNK_BYTES) (addr_m + n * CHACHA_CHUNK_BYTES) addr_state m state (Z.to_nat bytes) in
    (out ++ blocks ++ last, set_left (CHACHA_CHUNK_BYTES - bytes) ctx)
  else (out ++ blocks, ctx).

(** The code, the output and the context. *)
Definition wc_Chacha_Process (addr_m addr_c : Z) (ctx : ChaCha) (m : list Z) : Z * list Z * ChaCha :=
  if negb (keySet ctx) then (MISSING_KEY, [], ctx)
  else let '(out, ctx) := wc_Chacha_encrypt_bytes addr_m addr_c ctx m in (0, out, ctx).

(** [wc_Chacha_purge_current_block]; [addr]: its scratch buffer. *)
Definition wc_Chacha_purge_current_block (addr : Z) (ctx : ChaCha) : ChaCha :=
  if left ctx >? 0 then
    snd (wc_Chacha_Process addr addr ctx (replicate (Z.to_nat (CHACHA_CHUNK_BYTES - left ctx)) 0))
  else ctx.

End Encrypt.

(** ** XChaCha *)

(** Half of the words of the permuted state. *)
Definition wc_HChacha_block (ctx : ChaCha) (nrounds : nat) : list Z :=
  let x := rounds nrounds (X ctx) in take 4 x ++ drop 12 x.

Definition wc_XChacha_SetKey (ctx : ChaCha) (key nonce : list Z) (counter : Z) : Z * ChaCha :=
  if negb (Zlen nonce =? XCHACHA_NONCE_BYTES) then (BAD_FUNC_ARG, ctx)
  else
    let '(ret, ctx) := wc_Chacha_SetKey ctx key in
    if ret <? 0 then (ret, ctx)
    else
      let '(ret, ctx) := wc_Chacha_SetIV ctx (drop 4 nonce) (U8TO32_LITTLE nonce) in
      if ret <? 0 then (ret, ctx)
      else
        let k := wc_HChacha_block ctx 20 in
        let ctx := mk_chacha (list_inserts 4 k (X ctx)) (left ctx) (keySet ctx) in
        let iv := replicate 4 0 ++ take 8 (drop 16 nonce) in
        let '(ret, ctx) := wc_Chacha_SetIV ctx iv counter in
        if ret <? 0 then (ret, ctx) else (0, ctx).

(** ** The permutation *)

(** The quarter round on four words, over its rotation. *)
Definition quarter (rot : Z -> Z -> Z) (a b c d : Z) : Z * Z * Z * Z :=
  let a := PLUS a b in let d := rot 16 (XOR d a) in
  let c := PLUS c d in let b := rot 12 (XOR b c) in
  let a := PLUS a b in let d := rot 8 (XOR d a) in
  let c := PLUS c d in let b := rot 7 (XOR b c) in
  (a, b, c, d).

Lemma rotate_rotl n x : 0 < n < 32 -> is_word 32 x -> ROTATE x n = ChaChaSpec.rotl n x /\ is_word 32 (ROTATE x n).
Proof.
  intros Hn Hx. split; [| apply rotlFixed_is_word; [lia | exact Hx]].
  unfold ROTATE, Rot.rotlFixed, ChaChaSpec.rotl.
  assert (B : is_word n (Z.shiftr x (32 - n))).
  { unfold is_word in *. rewrite Z.shiftr_div_pow2 by lia. split; [apply Z.div_pos; [lia | apply Z.pow_pos_nonneg; lia] |].
    apply Z.div_lt_upper_bound; [apply Z.pow_pos_nonneg; lia |]. rewrite <- Z.pow_add_r by lia. now replace (32 - n + n) with 32 by lia. }
  assert (E : u32 (Z.shiftl x n) = Z.shiftl (x mod 2 ^ (32 - n)) n).
  { unfold wrap. rewrite !Z.shiftl_mul_pow2 by lia. replace (2 ^ 32) with (2 ^ (32 - n) * 2 ^ n) by (rewrite <- Z.pow_add_r by lia; f_equal; lia).
    now rewrite Z.mul_mod_distr_r by (apply Z.pow_nonzero; lia). }
  rewrite E, lor_shift_add, <- Z.shiftl_mul_pow2, <- E by (lia || exact B).
  unfold wrap. now rewrite Z.shiftl_mul_pow2, Z.shiftr_div_pow2 by lia.
Qed.

Definition words4 (q : Z * Z * Z * Z) : Prop :=
  let '(a, b, c, d) := q in is_word 32 a /\ is_word 32 b /\ is_word 32 c /\ is_word 32 d.

Lemma quarter_words a b c d : words4 (a, b, c, d) ->
  quarter (fun n x => ROTATE x n) a b c d = quarter ChaChaSpec.rotl a b c d /\
  words4 (quarter (fun n x => ROTATE x n) a b c d).
Proof.
  intros (Wa & Wb & Wc & Wd). unfold quarter, PLUS, XOR.
  assert (Add : forall x y, is_word 32 (x +u32 y)) by (intros; apply wrap_is_word; lia).
  assert (Step : forall n x y, 0 < n < 32 -> is_word 32 x -> is_word 32 y ->
    ROTATE (Z.lxor x y) n = ChaChaSpec.rotl n (Z.lxor x y) /\ is_word 32 (ROTATE (Z.lxor x y) n)).
  { intros n x y Hn Hx Hy. apply rotate_rotl; [exact Hn | auto with wolf]. }
  cbv zeta.
  destruct (Step 16 d (a +u32 b) ltac:(lia) Wd (Add _ _)) as [<- W1].
  destruct (Step 12 b _ ltac:(lia) Wb (Add c (ROTATE (Z.lxor d (a +u32 b)) 16))) as [<- W2].
  destruct (Step 8 _ _ ltac:(lia) W1 (Add (a +u32 b) (ROTATE (Z.lxor b (c +u32 ROTATE (Z.lxor d (a +u32 b)) 16)) 12))) as [<- W3].
  match goal with |- context [ChaChaSpec.rotl 7 (Z.lxor ?x ?y)] => destruct (Step 7 x y ltac:(lia) W2 (Add _ _)) as [<- W4] end.
  split; [reflexivity |]. repeat split; try apply Add; try apply W3; apply W4.
Qed.

Definition state_ok (x : list Z) : Prop := length x = 16%nat /\ Forall (is_word 32) x.

Lemma sixteen (l : list Z) : length l = 16%nat -> exists x0 x1 x2 x3 x4 x5 x6 x7 x8 x9 x10 x11 x12 x13 x14 x15,
  l = [x0; x1; x2; x3; x4; x5; x6; x7; x8; x9; x10; x11; x12; x13; x14; x15].
Proof.
  intros H. do 16 (destruct l as [| ? l]; [discriminate H |]). destruct l; [| discriminate H]. now do 16 eexists.
Qed.

(** Both forms of a double round in terms of quarter rounds. *)
Definition lanes (rot : Z -> Z -> Z) (x : list Z) : list Z :=
  match x with
  | [x0; x1; x2; x3; x4; x5; x6; x7; x8; x9; x10; x11; x12; x13; x14; x15] =>
      let '(x0, x4, x8, x12) := quarter rot x0 x4 x8 x12 in
      let '(x1, x5, x9, x13) := quarter rot x1 x5 x9 x13 in
      let '(x2, x6, x10, x14) := quarter rot x2 x6 x10 x14 in
      let '(x3, x7, x11, x15) := quarter rot x3 x7 x11 x15 in
      let '(x0, x5, x10, x15) := quarter rot x0 x5 x10 x15 in
      let '(x1, x6, x11, x12) := quarter rot x1 x6 x11 x12 in
      let '(x2, x7, x8, x13) := quarter rot x2 x7 x8 x13 in
      let '(x3, x4, x9, x14) := quarter rot x3 x4 x9 x14 in
      [x0; x1; x2; x3; x4; x5; x6; x7; x8; x9; x10; x11; x12; x13; x14; x15]
  | _ => x
  end.

(** One quarter round of the code, on a list of cells. *)
#[local] Ltac quarter_step :=
  match goal with
  | |- context [QUARTERROUND ?i ?j ?k ?l ?L] =>
      lazymatch L with context [QUARTERROUND] => fail | _ => idtac end;
      let a := eval cbv [cell nth] in (cell L i) in let b := eval cbv [cell nth] in (cell L j) in
      let c := eval cbv [cell nth] in (cell L k) in let d := eval cbv [cell nth] in (cell L l) in
      let rot := constr:(fun n x => ROTATE x n) in
      assert (E : QUARTERROUND i j k l L =
                  let '(a', b', c', d') := quarter rot a b c d in <[i := a']> (<[j := b']> (<[k := c']> (<[l := d']> L))))
        by (lazy beta iota zeta delta [QUARTERROUND add_cell rot_cell quarter cell insert list_insert nth]; reflexivity);
      rewrite E; clear E; destruct (quarter rot a b c d) as [[[? ?] ?] ?]; cbv beta iota delta [insert list_insert]
  end.

Lemma two_rounds_lanes x : length x = 16%nat -> two_rounds x = lanes (fun n x => ROTATE x n) x.
Proof.
  intros H. destruct (sixteen x H) as (x0 & x1 & x2 & x3 & x4 & x5 & x6 & x7 & x8 & x9 & x10 & x11 & x12 & x13 & x14 & x15 & ->).
  clear H. unfold two_rounds, lanes. cbv zeta. do 8 quarter_step. reflexivity.
Qed.

Lemma round_lanes a0 a1 a2 a3 b0 b1 b2 b3 c0 c1 c2 c3 d0 d1 d2 d3 :
  ChaChaSpec.round ([a0; a1; a2; a3], [b0; b1; b2; b3], [c0; c1; c2; c3], [d0; d1; d2; d3]) =
  let '(a0, b0, c0, d0) := quarter ChaChaSpec.rotl a0 b0 c0 d0 in
  let '(a1, b1, c1, d1) := quarter ChaChaSpec.rotl a1 b1 c1 d1 in
  let '(a2, b2, c2, d2) := quarter ChaChaSpec.rotl a2 b2 c2 d2 in
  let '(a3, b3, c3, d3) := quarter ChaChaSpec.rotl a3 b3 c3 d3 in
  ([a0; a1; a2; a3], [b0; b1; b2; b3], [c0; c1; c2; c3], [d0; d1; d2; d3]).
Proof.
  cbv beta iota zeta delta [ChaChaSpec.round ChaChaSpec.radd ChaChaSpec.rxor ChaChaSpec.rrot zip_with map quarter PLUS XOR wrap].
  reflexivity.
Qed.

Lemma double_round_lanes x : length x = 16%nat ->
  ChaChaSpec.double_round (ChaChaSpec.matrix_of x) = ChaChaSpec.matrix_of (lanes ChaChaSpec.rotl x).
Proof.
  intros H. destruct (sixteen x H) as (x0 & x1 & x2 & x3 & x4 & x5 & x6 & x7 & x8 & x9 & x10 & x11 & x12 & x13 & x14 & x15 & ->).
  clear H. unfold ChaChaSpec.matrix_of, ChaChaSpec.double_round, lanes. cbn [take drop]. rewrite round_lanes.
  do 4 (match goal with |- context [quarter ChaChaSpec.rotl ?a ?b ?c ?d] => destruct (quarter ChaChaSpec.rotl a b c d) as [[[? ?] ?] ?] end).
  unfold ChaChaSpec.turn. cbn [take drop app]. rewrite round_lanes.
  repeat (match goal with |- context [quarter ChaChaSpec.rotl ?a ?b ?c ?d] => destruct (quarter ChaChaSpec.rotl a b c d) as [[[? ?] ?] ?] end).
  reflexivity.
Qed.

Lemma lanes_words x : state_ok x -> lanes (fun n x => ROTATE x n) x = lanes ChaChaSpec.rotl x /\ state_ok (lanes (fun n x => ROTATE x n) x).
Proof.
  intros [L W]. destruct (sixteen x L) as (x0 & x1 & x2 & x3 & x4 & x5 & x6 & x7 & x8 & x9 & x10 & x11 & x12 & x13 & x14 & x15 & ->).
  repeat (apply Forall_cons_1 in W as [? W]). clear W L. unfold lanes.
  do 8 (match goal with |- context [quarter (fun n x => ROTATE x n) ?a ?b ?c ?d] =>
    destruct (quarter_words a b c d) as [E W]; [cbn; auto |]; rewrite <- E; clear E;
    destruct (quarter (fun n x => ROTATE x n) a b c d) as [[[? ?] ?] ?]; cbn [words4] in W; destruct W as (? & ? & ? & ?); cbv beta iota end).
  split; [reflexivity |]. split; [reflexivity |].
  repeat (apply Forall_cons_2; [assumption |]). apply Forall_nil_2.
Qed.

Lemma two_rounds_spec x : state_ok x ->
  state_ok (two_rounds x) /\ ChaChaSpec.double_round (ChaChaSpec.matrix_of x) = ChaChaSpec.matrix_of (two_rounds x).
Proof.
  intros O. pose proof O as [L _]. destruct (lanes_words x O) as [E O'].
  rewrite two_rounds_lanes by exact L. split; [exact O' |]. rewrite E. now apply double_round_lanes.
Qed.

Lemma by_twos_SS {A} (f : A -> A) n x : by_twos f (S (S n)) x = by_twos f n (f x).
Proof. reflexivity. Qed.

#[local] Opaque two_rounds ChaChaSpec.double_round.

Lemma rounds_spec n x : state_ok x ->
  state_ok (rounds (2 * n) x) /\ Nat.iter n ChaChaSpec.double_round (ChaChaSpec.matrix_of x) = ChaChaSpec.matrix_of (rounds (2 * n) x).
Proof.
  unfold rounds. revert x. induction n as [| n IH]; intros x O; [split; [exact O | reflexivity] |].
  replace (2 * S n)%nat with (S (S (2 * n))) by lia. rewrite by_twos_SS.
  destruct (two_rounds_spec x O) as [O' E]. destruct (IH _ O') as [O2 E2]. split; [exact O2 |].
  rewrite Nat.iter_succ_r, E. exact E2.
Qed.

Lemma cells_matrix x : ChaChaSpec.cells (ChaChaSpec.matrix_of x) = x.
Proof.
  unfold ChaChaSpec.cells, ChaChaSpec.matrix_of.
  transitivity (take 4 x ++ drop 4 x); [| apply take_drop]. f_equal.
  rewrite <- (take_drop 4 (drop 4 x)) at 2. f_equal. rewrite drop_drop.
  rewrite <- (take_drop 4 (drop (4 + 4) x)) at 1. f_equal. now rewrite drop_drop.
Qed.

Lemma permute_spec x : state_ok x -> rounds ROUNDS x = ChaChaSpec.permute x.
Proof.
  intros O. unfold ChaChaSpec.permute. destruct (rounds_spec 10 x O) as [_ ->]. now rewrite cells_matrix.
Qed.

Lemma wordtobyte_spec x : state_ok x ->
  wc_Chacha_wordtobyte x = ChaChaSpec.radd (ChaChaSpec.permute x) x /\ length (wc_Chacha_wordtobyte x) = 16%nat.
Proof.
  intros O. unfold wc_Chacha_wordtobyte. destruct (rounds_spec 10 x O) as [[L _] _]. destruct O as [Lx Wx].
  split; [rewrite permute_spec by (split; assumption); reflexivity |].
  change (2 * 10)%nat with ROUNDS in L. rewrite length_zip_with, L, Lx. reflexivity.
Qed.

(** ** The state of a key, counter and nonce *)

Definition key_ok (key : list Z) : Prop := is_bytes key /\ (Zlen key = 16 \/ Zlen key = 32).
Definition nonce_ok (nonce : list Z) : Prop := is_bytes nonce /\ Zlen nonce = 12.

Lemma word_of_bytes l n : is_bytes l -> is_word 32 (le_value (take 4 (drop n l))).
Proof.
  intros B. assert (B' : is_bytes (take 4 (drop n l))) by now apply Forall_take, Forall_drop.
  pose proof (le_value_bound _ B') as R. unfold is_word. split; [lia |]. apply (Z.lt_le_trans _ _ _ (proj2 R)).
  apply Z.pow_le_mono_r; [lia |]. unfold Zlen. rewrite length_take. lia.
Qed.

Lemma words_ok l n : is_bytes l -> Forall (is_word 32) (ChaChaSpec.words l n) /\ length (ChaChaSpec.words l n) = n.
Proof.
  intros B. unfold ChaChaSpec.words. rewrite length_map, length_seq. split; [| reflexivity].
  apply Forall_map. apply Forall_forall. intros i _. now apply word_of_bytes.
Qed.

Lemma constants_words b : Forall (is_word 32) (ChaChaSpec.constants b).
Proof. destruct b; repeat apply Forall_cons_2; try apply Forall_nil_2; unfold is_word; lia. Qed.

Lemma init_ok key c nonce : is_bytes key -> is_word 32 c -> is_bytes nonce -> state_ok (ChaChaSpec.init key c nonce).
Proof.
  intros Bk Wc Bn. unfold ChaChaSpec.init.
  destruct (words_ok key 8 Bk) as [F8 L8], (words_ok key 4 Bk) as [F4 L4], (words_ok nonce 3 Bn) as [F3 L3].
  split.
  - case_match; rewrite !length_app, ?L8, ?L4, L3; reflexivity.
  - rewrite !Forall_app. split; [| split; [apply Forall_singleton; exact Wc | exact F3]].
    case_match; rewrite !Forall_app; repeat split; try apply constants_words; assumption.
Qed.

Lemma block_length key c nonce : is_bytes key -> is_word 32 c -> is_bytes nonce ->
  length (ChaChaSpec.block key c nonce) = 64%nat /\ is_bytes (ChaChaSpec.block key c nonce).
Proof.
  intros Bk Wc Bn. unfold ChaChaSpec.block.
  destruct (wordtobyte_spec _ (init_ok key c nonce Bk Wc Bn)) as [<- L]. revert L. generalize (wc_Chacha_wordtobyte (ChaChaSpec.init key c nonce)) as ws.
  assert (G : forall ws : list Z, length (concat (map (le_bytes 4) ws)) = (4 * length ws)%nat /\ is_bytes (concat (map (le_bytes 4) ws))).
  { induction ws as [| w ws [IHl IHb]]; [split; [reflexivity | constructor] |]. cbn [map concat]. split.
    - rewrite length_app, IHl, le_bytes_length. cbn [length]. lia.
    - apply is_bytes_app. split; [apply le_bytes_is_bytes | exact IHb]. }
  intros ws L. destruct (G ws) as [-> B]. rewrite L. split; [reflexivity | exact B].
Qed.

Lemma gen_stream_block ctx key c nonce : is_bytes key -> is_word 32 c -> is_bytes nonce ->
  X ctx = ChaChaSpec.init key c nonce -> gen_stream ctx = ChaChaSpec.block key c nonce.
Proof.
  intros Bk Wc Bn E. unfold gen_stream, ChaChaSpec.block. rewrite E.
  now destruct (wordtobyte_spec _ (init_ok key c nonce Bk Wc Bn)) as [-> _].
Qed.

Lemma init_counter key c c' nonce : <[CHACHA_MATRIX_CNT_IV := c']> (ChaChaSpec.init key c nonce) = ChaChaSpec.init key c' nonce.
Proof. unfold ChaChaSpec.init. destruct (Zlen key =? 32); reflexivity. Qed.

Lemma next_counter_init ctx key c nonce : X ctx = ChaChaSpec.init key c nonce ->
  X (next_counter ctx) = ChaChaSpec.init key (u32 (c + 1)) nonce.
Proof.
  intros E. unfold next_counter. cbn [X]. rewrite E, init_counter. f_equal.
  unfold ChaChaSpec.init. destruct (Zlen key =? 32); reflexivity.
Qed.

(** Setting the key, then the nonce and counter. *)
Lemma SetKey_SetIV ctx key nonce c : length (X ctx) = 16%nat -> key_ok key ->
  exists ctx1, wc_Chacha_SetKey ctx key = (0, ctx1) /\
    wc_Chacha_SetIV ctx1 nonce c = (0, mk_chacha (ChaChaSpec.init key c nonce) 0 true).
Proof.
  intros L [Bk Lk]. destruct ctx as [x lf ks]. cbn [X] in L.
  destruct (sixteen x L) as (x0 & x1 & x2 & x3 & x4 & x5 & x6 & x7 & x8 & x9 & x10 & x11 & x12 & x13 & x14 & x15 & ->).
  unfold wc_Chacha_SetKey, ChaChaSpec.init. change (CHACHA_MAX_KEY_SZ / 2) with 16. change CHACHA_MAX_KEY_SZ with 32.
  destruct Lk as [-> | ->]; cbn [Z.eqb Pos.eqb andb negb]; eexists; (split; [reflexivity |]);
    unfold wc_Chacha_SetIV, ChaChaSpec.words; cbn [X keySet map seq app Nat.mul Nat.add]; rewrite ?drop_drop, ?drop_0; reflexivity.
Qed.

(** A new nonce under the same key. *)
Lemma SetIV_again ctx key nonce c nonce' c' : X ctx = ChaChaSpec.init key c nonce ->
  wc_Chacha_SetIV ctx nonce' c' = (0, mk_chacha (ChaChaSpec.init key c' nonce') 0 (keySet ctx)).
Proof.
  intros E. unfold wc_Chacha_SetIV. rewrite E. unfold ChaChaSpec.init. destruct (Zlen key =? 32); reflexivity.
Qed.

(** ** The key stream *)

Section Stream.
  Context (key nonce : list Z) (c0 : Z).
  Hypothesis Bk : is_bytes key.
  Hypothesis Bn : is_bytes nonce.

(** The counter of the block of byte [pos]. *)
Definition counter_at (pos : Z) : Z := u32 (c0 + pos / 64).

#[local] Abbreviation block_at pos := (ChaChaSpec.block key (counter_at pos) nonce).
#[local] Abbreviation xor_at := (ChaChaSpec.xor key c0 nonce).

Lemma counter_word pos : is_word 32 (counter_at pos).
Proof using. apply wrap_is_word. lia. Qed.

Lemma xor_length pos l : length (xor_at pos l) = length l.
Proof using.
  unfold ChaChaSpec.xor, ChaChaSpec.stream. rewrite length_zip_with, length_map, length_seqZ. lia.
Qed.

Lemma xor_app pos a b : xor_at pos (a ++ b) = xor_at pos a ++ xor_at (pos + Zlen a) b.
Proof using.
  unfold ChaChaSpec.xor, ChaChaSpec.stream. rewrite length_app, Nat2Z.inj_add, seqZ_app, map_app by lia.
  apply zip_with_app. rewrite length_map, length_seqZ. lia.
Qed.

Lemma slice_map (l : list Z) r n : (r + n <= length l)%nat ->
  map (rd l) (seqZ (Z.of_nat r) (Z.of_nat n)) = take n (drop r l).
Proof using.
  intros H. apply list_eq. intros i. rewrite list_lookup_fmap, lookup_take, lookup_drop.
  case_decide as Hi.
  - rewrite lookup_seqZ_lt by lia. cbn. unfold rd. replace (Z.to_nat (Z.of_nat r + Z.of_nat i)) with (r + i)%nat by lia.
    destruct (lookup_lt_is_Some_2 l (r + i)) as [y E]; [lia | now rewrite E].
  - rewrite lookup_seqZ_ge by lia. reflexivity.
Qed.

(** The stream inside one block. *)
Lemma stream_in_block pos n : 0 <= pos -> pos mod 64 + Z.of_nat n <= 64 ->
  ChaChaSpec.stream key c0 nonce pos n = take n (drop (Z.to_nat (pos mod 64)) (block_at pos)).
Proof using Bk Bn.
  intros Hp Hn. destruct (block_length key (counter_at pos) nonce Bk (counter_word pos) Bn) as [L _].
  pose proof (Z.mod_pos_bound pos 64 ltac:(lia)). rewrite <- slice_map by lia. unfold ChaChaSpec.stream.
  apply list_eq. intros i. rewrite !list_lookup_fmap. destruct (decide (i < n)%nat) as [Hi | Hi].
  - rewrite !lookup_seqZ_lt by lia. cbn [fmap option_fmap option_map]. f_equal. unfold ChaChaSpec.stream_byte.
    assert (E : (pos + Z.of_nat i) / 64 = pos / 64 /\ (pos + Z.of_nat i) mod 64 = pos mod 64 + Z.of_nat i) by word_lia.
    destruct E as [-> ->]. rewrite Z2Nat.id by lia. reflexivity.
  - rewrite !lookup_seqZ_ge by lia. reflexivity.
Qed.

Lemma xorbufout_stream ao am as_ pos m n : 0 <= pos -> is_bytes m -> (n <= length m)%nat -> pos mod 64 + Z.of_nat n <= 64 ->
  Buf.xorbufout ao am as_ m (drop (Z.to_nat (pos mod 64)) (block_at pos)) n = xor_at pos (take n m).
Proof using Bk Bn.
  intros Hp Bm Ln Hn. destruct (block_length key (counter_at pos) nonce Bk (counter_word pos) Bn) as [L B].
  pose proof (Z.mod_pos_bound pos 64 ltac:(lia)).
  destruct (xorbuf_spec am as_ ao m (drop (Z.to_nat (pos mod 64)) (block_at pos)) n) as (_ & -> & _);
    [exact Bm | apply Forall_drop; exact B | exact Ln | rewrite length_drop; lia |].
  unfold ChaChaSpec.xor. rewrite length_take_le by exact Ln. now rewrite stream_in_block.
Qed.

(** The cipher at byte [pos] of its stream. *)
Definition at_pos (ctx : ChaCha) (pos : Z) : Prop :=
  X ctx = ChaChaSpec.init key (counter_at pos) nonce /\ left ctx = (- pos) mod 64 /\ keySet ctx = true.

Lemma counter_next pos : 0 <= pos -> u32 (counter_at pos + 1) = counter_at (pos + 64).
Proof using.
  intros Hp. unfold counter_at. rewrite u32_add_l. f_equal. replace (pos + 64) with (pos + 1 * 64) by lia. rewrite Z.div_add by lia. lia.
Qed.

Lemma encrypt_blocks_spec as_ n am ac ctx m pos :
  is_bytes m -> (64 * n <= length m)%nat -> 0 <= pos -> pos mod 64 = 0 -> at_pos ctx pos ->
  exists ctx', encrypt_blocks as_ n am ac ctx m = (xor_at pos (take (64 * n) m), ctx') /\ at_pos ctx' (pos + 64 * Z.of_nat n).
Proof using Bk Bn.
  revert am ac ctx m pos. induction n as [| n IH]; intros am ac ctx m pos Bm Lm Hp Hz A.
  - exists ctx. split; [reflexivity |]. now rewrite Z.add_0_r.
  - cbn [encrypt_blocks]. change (Z.to_nat CHACHA_CHUNK_BYTES) with 64%nat. destruct A as (EX & EL & EK).
    rewrite (gen_stream_block ctx key (counter_at pos) nonce Bk (counter_word pos) Bn EX).
    assert (E1 : Buf.xorbufout ac am as_ m (block_at pos) 64 = xor_at pos (take 64 m)).
    { rewrite <- (xorbufout_stream ac am as_ pos m 64 Hp Bm) by lia. now rewrite Hz. }
    rewrite E1.
    destruct (IH (am + CHACHA_CHUNK_BYTES) (ac + CHACHA_CHUNK_BYTES) (next_counter ctx) (drop 64 m) (pos + 64)) as (ctx' & E & A');
      [now apply Forall_drop | rewrite length_drop; lia | lia | word_lia | |].
    { split; [| split]; [| cbn [left next_counter]; rewrite EL; word_lia | exact EK].
      rewrite (next_counter_init ctx _ _ _ EX). f_equal. now apply counter_next. }
    rewrite E. exists ctx'. split; [| replace (pos + 64 * Z.of_nat (S n)) with (pos + 64 + 64 * Z.of_nat n) by lia; exact A'].
    f_equal. replace (64 * S n)%nat with (64 + 64 * n)%nat by lia. rewrite <- take_take_drop, xor_app. unfold Zlen. rewrite length_take_le by lia. reflexivity.
Qed.

Lemma encrypt_leftover_spec as_ am ac ctx m pos :
  is_bytes m -> Zlen m < 2 ^ 32 -> 0 <= pos -> at_pos ctx pos ->
  exists p ctx', encrypt_leftover as_ am ac ctx m = (xor_at pos (take (Z.to_nat p) m), p, ctx') /\
    0 <= p <= Zlen m /\ at_pos ctx' (pos + p) /\ (p = Zlen m \/ (pos + p) mod 64 = 0).
Proof using Bk Bn.
  intros Bm Lm Hp A. pose proof A as (EX & EL & EK). unfold encrypt_leftover. pose proof (Zlen_nonneg m) as N.
  assert (L64 : 0 <= left ctx < 64) by (rewrite EL; apply Z.mod_pos_bound; lia).
  destruct (Z.ltb_spec 0 (Zlen m)) as [Hm |]; cbn [andb].
  2: { exists 0, ctx. rewrite Z.add_0_r. repeat split; try assumption; lia. }
  destruct (Z.ltb_spec 0 (left ctx)) as [Hl |].
  2: { exists 0, ctx. rewrite Z.add_0_r. repeat split; try assumption; try lia. right. revert EL. word_lia. }
  rewrite ct_min_spec by (unfold is_word; lia). set (p := Z.min (Zlen m) (left ctx)).
  assert (Rp : 0 < p <= Zlen m /\ p <= left ctx /\ (p = Zlen m \/ p = left ctx)) by lia. clearbody p.
  assert (Hpos : CHACHA_CHUNK_BYTES - left ctx = pos mod 64).
  { unfold CHACHA_CHUNK_BYTES. revert EL Hl. word_lia. }
  rewrite Hpos, (gen_stream_block ctx key (counter_at pos) nonce Bk (counter_word pos) Bn EX).
  change CHACHA_CHUNK_BYTES with 64 in Hpos.
  rewrite xorbufout_stream by (first [assumption | unfold Zlen in *; lia]).
  rewrite (wrap_small 32) by (unfold is_word; lia). cbn [left set_left].
  exists p. eexists. split; [reflexivity |]. split; [lia |]. clear Hpos.
  destruct (Z.eqb_spec (left ctx - p) 0) as [E0 | E0].
  - assert (Hd : (pos + p) mod 64 = 0 /\ (- (pos + p)) mod 64 = 0 /\ (pos + p) / 64 = pos / 64 + 1) by (revert EL E0; clear - Hl; word_lia).
    destruct Hd as (Hd & Hd' & Hq). split; [| now right]. split; [| split; [cbn [left next_counter set_left]; lia | exact EK]].
    rewrite (next_counter_init _ key (counter_at pos) nonce) by exact EX. f_equal.
    unfold counter_at. rewrite Hq, u32_add_l. f_equal. lia.
  - split; [| left; lia]. assert (Hd : (- (pos + p)) mod 64 = left ctx - p /\ (pos + p) / 64 = pos / 64) by (revert EL E0 Rp; clear - Hl; word_lia).
    destruct Hd as [Hd Hq]. split; [| split; [cbn; lia | exact EK]]. cbn [X set_left]. unfold counter_at in *. now rewrite Hq.
Qed.

(** A call of the cipher moves on by the length of the message. *)
Lemma Process_spec as_ am ac ctx m pos : is_bytes m -> Zlen m < 2 ^ 32 -> 0 <= pos -> at_pos ctx pos ->
  exists ctx', wc_Chacha_Process as_ am ac ctx m = (0, xor_at pos m, ctx') /\ at_pos ctx' (pos + Zlen m).
Proof using Bk Bn.
  intros Bm Lm Hp A. unfold wc_Chacha_Process. pose proof A as (_ & _ & ->). cbn [negb]. unfold wc_Chacha_encrypt_bytes.
  destruct (encrypt_leftover_spec as_ am ac ctx m pos Bm Lm Hp A) as (p & ctx1 & -> & Rp & A1 & Ho).
  set (m1 := drop (Z.to_nat p) m). assert (Bm1 : is_bytes m1) by now apply Forall_drop.
  assert (L1 : Zlen m1 = Zlen m - p) by (apply Zlen_drop; lia).
  set (n := Zlen m1 / CHACHA_CHUNK_BYTES). assert (Hn : 0 <= n /\ 64 * n <= Zlen m1 < 64 * n + 64) by (subst n; unfold CHACHA_CHUNK_BYTES; word_lia).
  assert (Em : xor_at pos m = xor_at pos (take (Z.to_nat p) m) ++ xor_at (pos + p) m1).
  { rewrite <- (take_drop (Z.to_nat p) m) at 1. rewrite xor_app, Zlen_take by lia. reflexivity. }
  assert (B : exists ctx2, encrypt_blocks as_ (Z.to_nat n) (am + p) (ac + p) ctx1 m1 = (xor_at (pos + p) (take (Z.to_nat (n * 64)) m1), ctx2) /\
                at_pos ctx2 (pos + p + 64 * n)).
  { destruct Ho as [-> | Ho].
    - assert (n = 0) as -> by lia. exists ctx1. split; [reflexivity |]. now rewrite Z.add_0_r.
    - destruct (encrypt_blocks_spec as_ (Z.to_nat n) (am + p) (ac + p) ctx1 m1 (pos + p)) as (ctx2 & E & A2);
        [assumption | unfold Zlen in *; lia | lia | assumption | assumption |].
      rewrite E. exists ctx2. rewrite Z2Nat.id in A2 by lia. split; [| exact A2]. do 3 f_equal. lia. }
  destruct B as (ctx2 & -> & A2). change CHACHA_CHUNK_BYTES with 64.
  set (m2 := drop (Z.to_nat (n * 64)) m1). assert (Bm2 : is_bytes m2) by now apply Forall_drop.
  assert (L2 : Zlen m2 = Zlen m1 - n * 64) by (apply Zlen_drop; lia).
  assert (Em1 : xor_at (pos + p) m1 = xor_at (pos + p) (take (Z.to_nat (n * 64)) m1) ++ xor_at (pos + p + 64 * n) m2).
  { rewrite <- (take_drop (Z.to_nat (n * 64)) m1) at 1. rewrite xor_app, Zlen_take by lia. do 2 f_equal. lia. }
  rewrite Em, Em1. destruct (Z.eqb_spec (Zlen m2) 0) as [Z0 | Z0]; cbn [negb].
  - exists ctx2. assert (En : m2 = []) by (apply length_zero_iff_nil; unfold Zlen in Z0; lia).
    rewrite En, !app_nil_r. split; [reflexivity |]. replace (pos + Zlen m) with (pos + p + 64 * n) by lia. exact A2.
  - assert (Hz : (pos + p + 64 * n) mod 64 = 0).
    { destruct Ho as [-> | Ho]; [lia |]. replace (pos + p + 64 * n) with (pos + p + n * 64) by lia. rewrite Z.mod_add by lia. exact Ho. }
    pose proof A2 as (EX & _ & EK). rewrite (gen_stream_block ctx2 key _ nonce Bk (counter_word _) Bn EX).
    pose proof (xorbufout_stream (ac + p + n * 64) (am + p + n * 64) as_ (pos + p + 64 * n) m2 (Z.to_nat (Zlen m2)) ltac:(lia) Bm2) as Ex.
    rewrite Hz in Ex. change (Z.to_nat 0) with 0%nat in Ex. rewrite drop_0 in Ex. rewrite take_ge in Ex by (unfold Zlen; lia). rewrite Ex by (unfold Zlen in *; lia).
    eexists. split; [rewrite app_assoc; reflexivity |]. split; [| split; [| exact EK]].
    + cbn [X set_left]. rewrite EX. f_equal. unfold counter_at. do 2 f_equal. clear - Hz L1 L2 Hn Rp Z0. word_lia.
    + cbn [left set_left]. clear - Hz L1 L2 Hn Rp Z0. word_lia.
Qed.

End Stream.

Lemma at_start key nonce c : is_word 32 c -> at_pos key nonce c (mk_chacha (ChaChaSpec.init key c nonce) 0 true) 0.
Proof.
  intros Hc. split; [| now split]. cbn [X]. f_equal. unfold counter_at. change (0 / 64) with 0. rewrite Z.add_0_r. symmetry. now apply wrap_small.
Qed.

(** Encrypting is decrypting. *)
Lemma xor_twice key c nonce pos l : ChaChaSpec.xor key c nonce pos (ChaChaSpec.xor key c nonce pos l) = l.
Proof.
  unfold ChaChaSpec.xor at 1. rewrite xor_length. unfold ChaChaSpec.xor. apply zip_lxor_involutive.
  unfold ChaChaSpec.stream. rewrite length_map, length_seqZ. lia.
Qed.

Lemma stream_bytes key c nonce pos n : is_bytes key -> is_bytes nonce -> is_bytes (ChaChaSpec.stream key c nonce pos n).
Proof.
  intros Bk Bn. unfold ChaChaSpec.stream. apply Forall_map, Forall_forall. intros i _. unfold ChaChaSpec.stream_byte.
  apply rd_is_word; [lia |]. apply block_length; [exact Bk | | exact Bn]. apply (wrap_is_word 32). lia.
Qed.

Lemma xor_bytes key c nonce pos l : is_bytes key -> is_bytes nonce -> is_bytes l -> is_bytes (ChaChaSpec.xor key c nonce pos l).
Proof. intros Bk Bn Bl. apply lxor_bytes_is_bytes; [exact Bl | now apply stream_bytes]. Qed.

(** A message in pieces; each with the addresses of the key stream, input and
    output buffers of its call. *)
Definition piece := (Z * Z * Z * list Z)%type.
Definition piece_ok (p : piece) : Prop := is_bytes p.2 /\ Zlen p.2 < 2 ^ 32.
#[export] Instance piece_ok_dec p : Decision (piece_ok p).
Proof. unfold piece_ok. apply _. Defined.
Definition message (ps : list piece) : list Z := concat (map snd ps).

Fixpoint process_all (ctx : ChaCha) (ps : list piece) : Z * list Z * ChaCha :=
  match ps with
  | [] => (0, [], ctx)
  | (as_, am, ac, m) :: ps =>
      let '(ret, out, ctx) := wc_Chacha_Process as_ am ac ctx m in
      if negb (ret =? 0) then (ret, out, ctx)
      else let '(ret, rest, ctx) := process_all ctx ps in (ret, out ++ rest, ctx)
  end.

Lemma process_all_spec key nonce c ps ctx pos : is_bytes key -> is_bytes nonce -> Forall piece_ok ps -> 0 <= pos -> at_pos key nonce c ctx pos ->
  exists ctx', process_all ctx ps = (0, ChaChaSpec.xor key c nonce pos (message ps), ctx') /\ at_pos key nonce c ctx' (pos + Zlen (message ps)).
Proof.
  intros Bk Bn F. revert ctx pos. induction F as [| [[[as_ am] ac] m] ps [Bm Lm] F IH]; intros ctx pos Hp A; cbn [process_all].
  - exists ctx. unfold message, Zlen. cbn [map concat length]. now rewrite Z.add_0_r.
  - destruct (Process_spec key nonce c Bk Bn as_ am ac ctx m pos Bm Lm Hp A) as (ctx1 & -> & A1). cbn [Z.eqb negb].
    destruct (IH ctx1 (pos + Zlen m)) as (ctx' & -> & A'); [pose proof (Zlen_nonneg m); lia | exact A1 |].
    exists ctx'. unfold message. cbn [map concat snd]. rewrite xor_app, Zlen_app, Z.add_assoc. auto.
Qed.

(** [wc_Chacha_purge_current_block] skips as many bytes as are used of the block,
    not as are left of it: it reaches the next block only from the middle of
    one (or from its start), where XChaCha20-Poly1305 calls it. *)
Lemma purge_spec key nonce c as_ addr ctx pos : is_bytes key -> is_bytes nonce -> 0 <= pos -> at_pos key nonce c ctx pos ->
  at_pos key nonce c (wc_Chacha_purge_current_block as_ addr ctx) (pos + pos mod 64).
Proof.
  intros Bk Bn Hp A. pose proof A as (EX & EL & EK). unfold wc_Chacha_purge_current_block.
  destruct (Z.gtb_spec (left ctx) 0) as [G | G].
  - change CHACHA_CHUNK_BYTES with 64.
    assert (R : 64 - left ctx = pos mod 64 /\ 0 < pos mod 64 < 64) by (revert EL G; clear; word_lia).
    destruct R as [-> R]. set (z := replicate _ _).
    assert (Lz : Zlen z = pos mod 64) by (unfold Zlen, z; rewrite length_replicate; lia).
    destruct (Process_spec key nonce c Bk Bn as_ addr addr ctx z pos) as (ctx' & -> & A');
      [apply Forall_replicate; unfold is_word; lia | lia | exact Hp | exact A |].
    rewrite Lz in A'. exact A'.
  - replace (pos + pos mod 64) with pos; [exact A |].
    assert (H0 : (- pos) mod 64 = 0) by (pose proof (Z.mod_pos_bound (- pos) 64 ltac:(lia)); lia). clear - H0. word_lia.
Qed.

(** ** XChaCha *)

Lemma words_memory k : length k = 8%nat -> Forall (is_word 32) k -> ChaChaSpec.words (concat (map (le_bytes 4) k)) 8 = k.
Proof.
  intros L W. do 8 (destruct k as [| ? k]; [discriminate L |]). destruct k; [| discriminate L].
  unfold ChaChaSpec.words. cbn [map seq Nat.mul Nat.add concat le_bytes app drop take].
  repeat (apply Forall_cons_1 in W as [? W]).
  repeat match goal with |- context [le_value [u8 ?x; u8 (Z.shiftr ?x 8); ?b; ?d]] =>
    change (le_value [u8 x; u8 (Z.shiftr x 8); b; d]) with (le_value (le_bytes 4 x)) end.
  rewrite !le_value_bytes. rewrite !(wrap_small (8 * Z.of_nat 4)) by assumption. reflexivity.
Qed.

Lemma words_take key n m : (4 * n <= m)%nat -> ChaChaSpec.words (take m key) n = ChaChaSpec.words key n.
Proof.
  intros H. apply map_ext_in. intros i Hi. apply in_seq in Hi. f_equal.
  rewrite !take_drop_commute, !take_take. do 2 f_equal. lia.
Qed.

(** [wc_XChacha_SetKey] with a key of 256 bits is ChaCha20 under the key HChaCha20 derives from
    the first 16 bytes of the nonce, with the last 8 as nonce. *)
Lemma XChacha_SetKey_spec ctx key nonce c : length (X ctx) = 16%nat -> is_bytes key -> Zlen key = 32 -> is_bytes nonce -> Zlen nonce = 24 ->
  let subkey := ChaChaSpec.hchacha key (take 16 nonce) in
  wc_XChacha_SetKey ctx key nonce c =
    (0, mk_chacha (ChaChaSpec.init subkey c (replicate 4 0 ++ take 8 (drop 16 nonce))) 0 true) /\ key_ok subkey.
Proof.
  intros L Bk Lk Bn Ln subkey. unfold wc_XChacha_SetKey. rewrite Ln. change (negb (24 =? XCHACHA_NONCE_BYTES)) with false. cbn iota.
  destruct (SetKey_SetIV ctx key (drop 4 nonce) (U8TO32_LITTLE nonce) L) as (ctx1 & -> & E1); [split; [exact Bk | now right] |].
  change (0 <? 0) with false. cbn iota. rewrite E1. cbn iota.
  set (s0 := ChaChaSpec.init key (U8TO32_LITTLE nonce) (drop 4 nonce)).
  assert (O : state_ok s0) by (apply init_ok; [exact Bk | exact (word_of_bytes nonce 0 Bn) | now apply Forall_drop]).
  destruct (rounds_spec 10 s0 O) as [[Lr Wr] _]. change (2 * 10)%nat with 20%nat in *.
  unfold wc_HChacha_block. cbn [X left keySet]. set (k := take 4 _ ++ drop 12 _).
  assert (Lk8 : length k = 8%nat) by (unfold k; rewrite length_app, length_take, length_drop, Lr; reflexivity).
  assert (Wk : Forall (is_word 32) k) by (unfold k; apply Forall_app; split; [now apply Forall_take | now apply Forall_drop]).
  assert (Es : subkey = concat (map (le_bytes 4) k)).
  { unfold subkey, ChaChaSpec.hchacha, k.
    assert (E0 : ChaChaSpec.init key (le_value (take 4 (take 16 nonce))) (drop 4 (take 16 nonce)) = s0).
    { unfold s0, U8TO32_LITTLE. rewrite take_take. cbn [Nat.min]. unfold ChaChaSpec.init. rewrite Lk. cbn [Z.eqb Pos.eqb].
      replace (drop 4 (take 16 nonce)) with (take 12 (drop 4 nonce)) by (rewrite take_drop_commute; reflexivity).
      rewrite words_take by lia. reflexivity. }
    rewrite E0. now rewrite <- (permute_spec s0 O). }
  assert (Ek : key_ok subkey).
  { rewrite Es. split.
    - clear. induction k as [| w k IH]; [constructor |]. cbn [map concat]. apply is_bytes_app. split; [apply le_bytes_is_bytes | exact IH].
    - right. unfold Zlen. do 8 (destruct k as [| ? k]; [discriminate Lk8 |]). destruct k; [reflexivity | discriminate Lk8]. }
  split; [| exact Ek]. unfold wc_Chacha_SetIV. cbn [X keySet].
  change (0 <? 0) with false. cbn iota. repeat f_equal.
  unfold s0, ChaChaSpec.init. rewrite Lk. destruct Ek as [_ Lsub].
  assert (Ls32 : Zlen subkey = 32).
  { rewrite Es. unfold Zlen. clear - Lk8. do 8 (destruct k as [| ? k]; [discriminate Lk8 |]). destruct k; [reflexivity | discriminate Lk8]. }
  rewrite Ls32. cbn [Z.eqb Pos.eqb]. rewrite Es, words_memory by assumption.
  clear - Lk8. do 8 (destruct k as [| ? k]; [discriminate Lk8 |]). destruct k; [reflexivity | discriminate Lk8].
Qed.

(** ** Theorems *)

(** [C18] ChaCha20 in pieces is RFC 8439: with a key of 16 or 32 bytes, a nonce
    and a counter set, processing a message cut into pieces of any sizes - each
    in buffers of any alignment - returns the message with the key stream of the
    RFC added, the block counter wrapping at 2^32; and processing that, cut in
    any other way, under the same key, nonce and counter returns the message. *)
Theorem chacha_stream ctx key nonce c ps ps' :
  length (X ctx) = 16%nat -> key_ok key -> nonce_ok nonce -> is_word 32 c ->
  Forall piece_ok ps -> Forall piece_ok ps' ->
  message ps' = ChaChaSpec.xor key c nonce 0 (message ps) ->
  exists ctx1 ctx2 ctx3 ctx4 ctx5,
    wc_Chacha_SetKey ctx key = (0, ctx1) /\ wc_Chacha_SetIV ctx1 nonce c = (0, ctx2) /\
    process_all ctx2 ps = (0, ChaChaSpec.xor key c nonce 0 (message ps), ctx3) /\
    wc_Chacha_SetIV ctx3 nonce c = (0, ctx4) /\
    process_all ctx4 ps' = (0, message ps, ctx5).
Proof.
  intros L K [Bn Ln] Hc F F' E. pose proof K as [Bk _].
  destruct (SetKey_SetIV ctx key nonce c L K) as (ctx1 & E1 & E2).
  pose proof (at_start key nonce c Hc) as A.
  destruct (process_all_spec key nonce c ps _ 0 Bk Bn F ltac:(lia) A) as (ctx3 & E3 & A3).
  pose proof A3 as (EX & _ & EK).
  destruct (process_all_spec key nonce c ps' _ 0 Bk Bn F' ltac:(lia) A) as (ctx5 & E5 & _).
  exists ctx1. do 2 eexists. exists (mk_chacha (ChaChaSpec.init key c nonce) 0 true), ctx5.
  split; [exact E1 |]. split; [exact E2 |]. split; [exact E3 |].
  split; [rewrite (SetIV_again _ _ _ _ nonce c EX), EK; reflexivity |].
  rewrite E5, E. now rewrite xor_twice.
Qed.

Definition rfc_key : list Z := seqZ 0 32.
Definition rfc_nonce : list Z := [0; 0; 0; 9; 0; 0; 0; 0x4a; 0; 0; 0; 0].
Definition blank_chacha : ChaCha := mk_chacha (replicate 16 0) 0 false.

(** The key stream block of RFC 8439, 2.3.2. *)
Example chacha_rfc8439_block :
  be_value (ChaChaSpec.block rfc_key 1 [0; 0; 0; 9; 0; 0; 0; 0x4a; 0; 0; 0; 0]) =
  0x10f1e7e4d13b5915500fdd1fa32071c4c7d1f4c733c068030422aa9ac3d46c4ed2826446079faa0914c2d705d98b02a2b5129cd1de164eb9cbd083e8a2503c4e.
Proof. vm_compute. reflexivity. Qed.

(** The derived key of draft-irtf-cfrg-xchacha, 2.2.1. *)
Example hchacha_draft :
  be_value (ChaChaSpec.hchacha rfc_key [0; 0; 0; 9; 0; 0; 0; 0x4a; 0; 0; 0; 0; 0x31; 0x41; 0x59; 0x27]) =
  0x82413b4227b27bfed30e42508a877d73a0f9e4d58a74a853c12ec41326d3ecdc.
Proof. vm_compute. reflexivity. Qed.

Lemma chacha_stream_witness :
  exists ctx1 ctx2 ctx3 ctx4 ctx5,
    wc_Chacha_SetKey blank_chacha rfc_key = (0, ctx1) /\ wc_Chacha_SetIV ctx1 rfc_nonce 1 = (0, ctx2) /\
    process_all ctx2 [(0, 1, 2, [7; 8]); (0, 8, 8, replicate 70 9)] =
      (0, ChaChaSpec.xor rfc_key 1 rfc_nonce 0 ([7; 8] ++ replicate 70 9), ctx3) /\
    wc_Chacha_SetIV ctx3 rfc_nonce 1 = (0, ctx4) /\
    process_all ctx4 [(0, 0, 0, ChaChaSpec.xor rfc_key 1 rfc_nonce 0 ([7; 8] ++ replicate 70 9))] = (0, [7; 8] ++ replicate 70 9, ctx5).
Proof.
  apply (chacha_stream blank_chacha rfc_key rfc_nonce 1 [(0, 1, 2, [7; 8]); (0, 8, 8, replicate 70 9)]
           [(0, 0, 0, ChaChaSpec.xor rfc_key 1 rfc_nonce 0 ([7; 8] ++ replicate 70 9))]).
  - reflexivity.
  - split; [| right; reflexivity]. apply (bool_decide_unpack _). vm_compute. exact I.
  - split; [| reflexivity]. apply (bool_decide_unpack _). vm_compute. exact I.
  - split; [discriminate | reflexivity].
  - apply (bool_decide_unpack _). vm_compute. exact I.
  - apply (bool_decide_unpack _). vm_compute. exact I.
  - vm_compute. reflexivity.
Defined.
