(* ===== verification/Poly1305.v ===== *)
(** * wolfcrypt/src/poly1305.c: Poly1305

    The streaming functions over the limb arithmetic, which poly1305.c has in
    two forms; PolyLimbs.v models both.  The class [PolyOps] lists what the
    streaming functions call, [PolyLaws] what they rely on.  The assembly back
    ends and [NULL] arguments are left out; [buffer] holds the 16 bytes of the
    C array.

    The specification, RFC 8439 section 2.5, comes first. *)

From S2P Require Import Prelude Misc.
From stdpp Require Import list.

#[local] Open Scope Z_scope.
#[local] Open Scope cword_scope.

Definition POLY1305_BLOCK_SIZE : Z := 16.
Definition WC_POLY1305_PAD_SZ : Z := 16.
Definition WC_POLY1305_MAC_SZ : Z := 16.

(** ** RFC 8439 *)
Module PolySpec.

Definition p : Z := 2 ^ 130 - 5.

Definition clamp (r : Z) : Z := Z.land r 0x0ffffffc0ffffffc0ffffffc0fffffff.

(** A block, of 16 bytes or shorter, with a one behind it. *)
Definition number (chunk : list Z) : Z := le_value (chunk ++ [1]).

Definition step (r a : Z) (chunk : list Z) : Z := (a + number chunk) * r mod p.

(** The first [n] blocks of a message. *)
Fixpoint acc (n : nat) (r a : Z) (m : list Z) : Z :=
  match n with
  | O => a
  | S n => acc n r (step r a (take 16 m)) (drop 16 m)
  end.

Definition blocks (m : list Z) : nat := ((length m + 15) / 16)%nat.

Definition mac (key m : list Z) : list Z :=
  le_bytes 16 (acc (blocks m) (clamp (le_value (take 16 key))) 0 m + le_value (drop 16 key)).

(** Section 2.8: what is authenticated of additional data and ciphertext. *)
Definition pad16 (l : list Z) : list Z := l ++ replicate (Z.to_nat ((- Zlen l) mod 16)) 0.
Definition aead_data (aad c : list Z) : list Z := pad16 aad ++ pad16 c ++ le_bytes 8 (Zlen aad) ++ le_bytes 8 (Zlen c).

End PolySpec.

(** ** The interface of the block functions *)

(** The limbs of [r] and [h] and the words of [pad]. *)
Class PolyOps := {
  plimbs : Type;
  zero_limbs : plimbs;                            (* cleared memory *)
  c_setkey : list Z -> plimbs;                    (* poly1305_c_setkey *)
  c_blocks : bool -> plimbs -> list Z -> plimbs;  (* poly1305_c_blocks; the flag is [finished] *)
  c_final : plimbs -> list Z * plimbs             (* poly1305_c_final *)
}.

(** The limbs stand for [r], the pad and an accumulator modulo p. *)
Class PolyLaws (P : PolyOps) := {
  stands : plimbs -> Z -> Z -> Z -> Prop;
  setkey_stands key : is_bytes key -> Zlen key = 32 ->
    stands (c_setkey key) (PolySpec.clamp (le_value (take 16 key))) (le_value (drop 16 key)) 0;
  block_stands l r s a m (fin : bool) : stands l r s a -> is_bytes m -> Zlen m = 16 ->
    stands (c_blocks fin l m) r s ((a + le_value m + (if fin then 0 else 2 ^ 128)) * r mod PolySpec.p);
  blocks_app l m m' fin : Zlen m = 16 -> c_blocks fin l (m ++ m') = c_blocks fin (c_blocks fin l m) m';
  blocks_nil l fin : c_blocks fin l [] = l;
  final_stands l r s a : stands l r s a -> fst (c_final l) = le_bytes 16 (a mod PolySpec.p + s)
}.

(** ** The streaming interface *)

Section Stream.
  Context `{P : PolyOps}.

Record Poly1305 := mk_poly { limbs_of : plimbs; buffer : list Z; leftover : Z; finished : bool }.

Definition set_limbs (l : plimbs) (c : Poly1305) : Poly1305 := mk_poly l (buffer c) (leftover c) (finished c).

Definition poly1305_blocks (c : Poly1305) (m : list Z) : Poly1305 := set_limbs (c_blocks (finished c) (limbs_of c) m) c.
Definition poly1305_block (c : Poly1305) (m : list Z) : Poly1305 := poly1305_blocks c (take (Z.to_nat POLY1305_BLOCK_SIZE) m).

Definition wc_Poly1305SetKey (c : Poly1305) (key : list Z) : Z * Poly1305 :=
  if negb (Zlen key =? 32) then (BAD_FUNC_ARG, c)
  else (0, mk_poly (c_setkey key) (buffer c) 0 false).

(** The three parts of [wc_Poly1305Update]; the first says whether the call is
    over.  Each hands on what is left of the input. *)
Definition handle_leftover (c : Poly1305) (m : list Z) : bool * Poly1305 * list Z :=
  let bytes := Zlen m in
  if negb (leftover c =? 0) then
    let want := POLY1305_BLOCK_SIZE - leftover c in
    let want := if want >? bytes then bytes else want in
    let b := list_inserts (Z.to_nat (leftover c)) (take (Z.to_nat want) m) (buffer c) in
    let c := mk_poly (limbs_of c) b (leftover c + want) (finished c) in
    let m := drop (Z.to_nat want) m in
    if leftover c <? POLY1305_BLOCK_SIZE then (true, c, m)
    else
      let c := poly1305_block c (buffer c) in
      (false, mk_poly (limbs_of c) (buffer c) 0 (finished c), m)
  else (false, c, m).

Definition full_blocks (c : Poly1305) (m : list Z) : Poly1305 * list Z :=
  let bytes := Zlen m in
  if POLY1305_BLOCK_SIZE <=? bytes then
    let want := Z.land bytes (u64 (Z.lnot (POLY1305_BLOCK_SIZE - 1))) in
    (poly1305_blocks c (take (Z.to_nat want) m), drop (Z.to_nat want) m)
  else (c, m).

Definition store_leftover (c : Poly1305) (m : list Z) : Poly1305 :=
  let bytes := Zlen m in
  if negb (bytes =? 0)
  then mk_poly (limbs_of c) (list_inserts (Z.to_nat (leftover c)) m (buffer c)) (leftover c + bytes) (finished c)
  else c.

Definition wc_Poly1305Update (c : Poly1305) (m : list Z) : Z * Poly1305 :=
  if Zlen m =? 0 then (0, c)
  else
    let '(stop, c, m) := handle_leftover c m in
    if stop then (0, c)
    else
      let '(c, m) := full_blocks c m in
      (0, store_leftover c m).

(** The code, the tag and the context. *)
Definition wc_Poly1305Final (c : Poly1305) : Z * list Z * Poly1305 :=
  let c :=
    if negb (leftover c =? 0) then
      let i := leftover c in
      let b := <[Z.to_nat i := 1]> (buffer c) in
      let b := list_inserts (Z.to_nat (i + 1)) (replicate (Z.to_nat (POLY1305_BLOCK_SIZE - (i + 1))) 0) b in
      poly1305_block (mk_poly (limbs_of c) b (leftover c) true) b
    else c in
  let '(mac, l) := c_final (limbs_of c) in
  (0, mac, set_limbs l c).

Definition wc_Poly1305_Pad (c : Poly1305) (lenToPad : Z) : Z * Poly1305 :=
  if lenToPad =? 0 then (0, c)
  else
    let paddingLen := u32 (Z.land (- sint 32 lenToPad) (WC_POLY1305_PAD_SZ - 1)) in
    if (paddingLen >? 0) && (paddingLen <? WC_POLY1305_PAD_SZ)
    then wc_Poly1305Update c (replicate (Z.to_nat paddingLen) 0)
    else (0, c).

Definition u32tole64 (inLe32 : Z) : list Z :=
  [u8 (Z.land inLe32 0x000000FF); u8 (Z.land inLe32 0x0000FF00 >>u 8);
   u8 (Z.land inLe32 0x00FF0000 >>u 16); u8 (Z.land inLe32 0xFF000000 >>u 24); 0; 0; 0; 0].

Definition wc_Poly1305_EncodeSizes (c : Poly1305) (aadSz dataSz : Z) : Z * Poly1305 :=
  wc_Poly1305Update c (u32tole64 aadSz ++ u32tole64 dataSz).

Definition wc_Poly1305_EncodeSizes64 (c : Poly1305) (aadSz dataSz : Z) : Z * Poly1305 :=
  wc_Poly1305Update c (le_bytes 8 aadSz ++ le_bytes 8 dataSz).

(** The code, the tag and the context. *)
Definition wc_Poly1305_MAC (c : Poly1305) (additional input : list Z) (tagSz : Z) : Z * list Z * Poly1305 :=
  if tagSz <? WC_POLY1305_MAC_SZ then (BAD_FUNC_ARG, [], c)
  else
    let '(ret, c) :=
      if Zlen additional >? 0 then
        let '(ret, c) := wc_Poly1305Update c additional in
        if negb (ret =? 0) then (ret, c) else wc_Poly1305_Pad c (Zlen additional)
      else (0, c) in
    if negb (ret =? 0) then (ret, [], c)
    else
      let '(ret, c) := wc_Poly1305Update c input in
      if negb (ret =? 0) then (ret, [], c)
      else
        let '(ret, c) := wc_Poly1305_Pad c (Zlen input) in
        if negb (ret =? 0) then (ret, [], c)
        else
          let '(ret, c) := wc_Poly1305_EncodeSizes c (Zlen additional) (Zlen input) in
          if negb (ret =? 0) then (ret, [], c) else wc_Poly1305Final c.

End Stream.


(** ** The streaming functions against the specification *)

Lemma number_block m : is_bytes m -> PolySpec.number m = le_value m + 2 ^ (8 * Zlen m).
Proof.
  intros B. unfold PolySpec.number. rewrite le_value_app by exact B. change (le_value [1]) with 1. lia.
Qed.

Lemma acc_app n k r a m m' : length m = (16 * n)%nat ->
  PolySpec.acc (n + k) r a (m ++ m') = PolySpec.acc k r (PolySpec.acc n r a m) m'.
Proof.
  revert a m. induction n as [| n IH]; intros a m L; cbn [Nat.add PolySpec.acc].
  - destruct m; [reflexivity | cbn in L; lia].
  - rewrite take_app_le, drop_app_le by lia. apply IH. rewrite length_drop. lia.
Qed.

Lemma acc_mod n r a m : a mod PolySpec.p = a -> PolySpec.acc n r a m mod PolySpec.p = PolySpec.acc n r a m.
Proof. revert a m. induction n as [| n IH]; intros a m H; [exact H | apply IH, Z.mod_mod; discriminate]. Qed.

Section StreamSpec.
  Context {P : PolyOps} {L : PolyLaws P}.

Lemma blocks_spec n l r s a m : stands l r s a -> is_bytes m -> length m = (16 * n)%nat ->
  stands (c_blocks false l m) r s (PolySpec.acc n r a m).
Proof.
  revert l a m. induction n as [| n IH]; intros l a m H B Lm.
  - destruct m; [| cbn in Lm; lia]. now rewrite blocks_nil.
  - rewrite <- (take_drop 16 m) at 1. assert (L16 : Zlen (take 16 m) = 16) by (unfold Zlen; rewrite length_take; lia).
    rewrite blocks_app by exact L16. cbn [PolySpec.acc]. apply IH; [| now apply Forall_drop | rewrite length_drop; lia].
    unfold PolySpec.step. rewrite number_block, L16 by now apply Forall_take.
    change (2 ^ (8 * 16)) with (2 ^ 128). rewrite Z.add_assoc. apply (block_stands _ _ _ _ _ false); [exact H | now apply Forall_take | exact L16].
Qed.

(** The context of a MAC under [key] that has taken [m] so far: full blocks
    absorbed, the rest in the buffer. *)
Definition poly_rep (key m : list Z) (c : Poly1305) : Prop :=
  exists full part rest n, m = full ++ part /\ is_bytes m /\ length full = (16 * n)%nat /\ (length part < 16)%nat /\
    buffer c = part ++ rest /\ length (buffer c) = 16%nat /\ leftover c = Zlen part /\ finished c = false /\
    stands (limbs_of c) (PolySpec.clamp (le_value (take 16 key))) (le_value (drop 16 key))
           (PolySpec.acc n (PolySpec.clamp (le_value (take 16 key))) 0 full).

Lemma SetKey_rep c key : is_bytes key -> Zlen key = 32 -> length (buffer c) = 16%nat ->
  exists c', wc_Poly1305SetKey c key = (0, c') /\ poly_rep key [] c'.
Proof.
  intros B L32 Lb. unfold wc_Poly1305SetKey. rewrite L32. eexists. split; [reflexivity |].
  exists [], [], (buffer c), 0%nat. cbn. repeat (split; [first [reflexivity | lia | exact Lb | constructor] |]). now apply setkey_stands.
Qed.

(** [bytes & ~(16 - 1)] *)
Lemma want_spec n : 0 <= n < 2 ^ 32 -> Z.land n (u64 (Z.lnot (POLY1305_BLOCK_SIZE - 1))) = 16 * (n / 16).
Proof.
  intros Hn. change (u64 _) with (Z.ldiff (Z.ones 64) (Z.ones 4)). rewrite Z.ldiff_land, Z.land_assoc, Z.land_ones by lia.
  rewrite <- Z.ldiff_land, Z.ldiff_ones_r, Z.shiftl_mul_pow2, Z.shiftr_div_pow2 by lia. change (2 ^ 4) with 16. rewrite (Z.mod_small n (2 ^ 64)) by lia. lia.
Qed.

(** What is left of the input when the buffer is empty. *)
Lemma rest_rep key m c d : poly_rep key m c -> leftover c = 0 -> is_bytes d -> Zlen d < 2 ^ 32 ->
  let '(c', d') := full_blocks c d in poly_rep key (m ++ d) (store_leftover c' d').
Proof.
  intros (full & part & rest & n & -> & B & Lf & Lp & Eb & Lb & El & Ef & H) El0 Bd Ld.
  assert (part = []) as -> by (destruct part; [reflexivity | rewrite El in El0; unfold Zlen in El0; cbn in El0; lia]).
  rewrite app_nil_r in *. set (k := (length d / 16)%nat).
  assert (Ek : (16 * k <= length d < 16 * k + 16)%nat) by (unfold k; pose proof (Nat.div_mod_eq (length d) 16); pose proof (Nat.mod_upper_bound (length d) 16); lia).
  assert (Ew : Z.to_nat (16 * (Zlen d / 16)) = (16 * k)%nat) by (unfold Zlen, k; change 16 with (Z.of_nat 16) at 2; rewrite <- Nat2Z.inj_div; lia).
  clearbody k.
  assert (E : exists c', full_blocks c d = (c', drop (16 * k) d) /\ buffer c' = buffer c /\ leftover c' = 0 /\ finished c' = false /\
    stands (limbs_of c') (PolySpec.clamp (le_value (take 16 key))) (le_value (drop 16 key))
      (PolySpec.acc (n + k) (PolySpec.clamp (le_value (take 16 key))) 0 (full ++ take (16 * k) d))).
  { unfold full_blocks. change POLY1305_BLOCK_SIZE with 16 at 1. destruct (Z.leb_spec 16 (Zlen d)).
    - rewrite want_spec by (pose proof (Zlen_nonneg d); lia).
      rewrite Ew. eexists. split; [reflexivity |]. cbn. rewrite Ef. repeat (split; [first [reflexivity | assumption] |]).
      rewrite acc_app by exact Lf. apply blocks_spec; [exact H | now apply Forall_take | rewrite length_take; lia].
    - assert (k = 0%nat) as E0 by (unfold Zlen in *; clear -H0 Ek; lia). rewrite E0. cbn [Nat.mul]. rewrite drop_0, take_0, app_nil_r, Nat.add_0_r. eauto 10. }
  destruct E as (c' & -> & Eb' & El' & Ef' & H'). unfold store_leftover.
  exists (full ++ take (16 * k) d), (drop (16 * k) d), (drop (length (drop (16 * k) d)) (buffer c)), (n + k)%nat.
  split; [now rewrite <- app_assoc, take_drop |]. split; [now apply Forall_app |].
  split; [rewrite length_app, length_take; lia |]. split; [rewrite length_drop; lia |].
  assert (L0 : length (drop (16 * k) d) = (length d - 16 * k)%nat) by apply length_drop.
  destruct (Z.eqb_spec (Zlen (drop (16 * k) d)) 0) as [E0 | E0]; cbn [negb buffer leftover finished limbs_of].
  - assert (drop (16 * k) d = []) as -> by (apply length_zero_iff_nil; unfold Zlen in E0; lia). rewrite Eb', El', Lb. auto 10.
  - rewrite Eb', El', Ef'. rewrite (inserts_app [] _ (buffer c)) by lia. cbn [app]. repeat (split; [reflexivity || (rewrite ?length_app, ?length_drop; lia) |]). exact H'.
Qed.

Lemma fill_rep key m c d : poly_rep key m c -> is_bytes d -> d <> [] -> let '(stop, c', d') := handle_leftover c d in
  exists d0, d = d0 ++ d' /\ poly_rep key (m ++ d0) c' /\ (if stop then d' = [] else leftover c' = 0).
Proof.
  intros (full & part & rest & n & -> & B & Lf & Lp & Eb & Lb & El & Ef & H) Bd Nd. unfold handle_leftover. rewrite El.
  pose proof (f_equal length Eb) as Eb'. rewrite length_app, Lb in Eb'.
  destruct (Z.eqb_spec (Zlen part) 0) as [E0 | E0]; cbn [negb].
  { exists []. rewrite app_nil_r. split; [reflexivity |]. split; [| lia]. exists full, part, rest, n. auto 12. }
  set (sz := if POLY1305_BLOCK_SIZE - Zlen part >? Zlen d then Zlen d else POLY1305_BLOCK_SIZE - Zlen part).
  assert (Esz : sz = Z.min (16 - Zlen part) (Zlen d)) by (unfold sz; change POLY1305_BLOCK_SIZE with 16; destruct (Z.gtb_spec (16 - Zlen part) (Zlen d)); lia).
  clearbody sz. set (w := Z.to_nat sz).
  assert (Ew : w = Nat.min (16 - length part) (length d)) by (unfold w, Zlen in *; lia).
  assert (Lw : length (take w d) = w) by (rewrite length_take; lia).
  assert (Eb2 : list_inserts (Z.to_nat (Zlen part)) (take w d) (buffer c) = part ++ take w d ++ drop w rest).
  { unfold Zlen. rewrite Nat2Z.id, Eb, inserts_app, Lw by lia. reflexivity. }
  assert (El2 : Zlen part + sz = Zlen (part ++ take w d)) by (rewrite Zlen_app; unfold Zlen in *; rewrite Lw; lia).
  cbn [leftover buffer]. rewrite Eb2, El2. change POLY1305_BLOCK_SIZE with 16.
  assert (Bm : is_bytes ((full ++ part) ++ take w d)) by (apply Forall_app; split; [exact B | now apply Forall_take]).
  destruct (Z.ltb_spec (Zlen (part ++ take w d)) 16) as [Hw | Hw]; unfold Zlen in Hw; rewrite length_app, Lw in Hw;
    exists (take w d); (split; [symmetry; apply take_drop |]); (split; [| first [apply drop_ge; lia | reflexivity]]).
  - exists full, (part ++ take w d), (drop w rest), n. rewrite <- !app_assoc in *. cbn [buffer leftover finished limbs_of].
    repeat (split; [first [reflexivity | assumption | rewrite ?length_app, ?Lw, ?length_drop; cbn [length]; lia] |]). exact H.
  - exists (full ++ part ++ take w d), [], (part ++ take w d ++ drop w rest), (n + 1)%nat. rewrite <- !app_assoc in *. rewrite app_nil_r.
    cbn [app buffer leftover finished limbs_of poly1305_block poly1305_blocks set_limbs].
    repeat (split; [first [reflexivity | assumption | rewrite ?length_app, ?Lw, ?length_drop; cbn [length]; lia] |]).
    rewrite acc_app by exact Lf. rewrite Ef, (app_assoc part). change (Z.to_nat POLY1305_BLOCK_SIZE) with 16%nat. rewrite (take_app_le (part ++ take w d)), (take_ge (part ++ take w d)) by (rewrite length_app, Lw; lia).
    apply blocks_spec; [exact H | | rewrite length_app, Lw; lia]. apply Forall_app in Bm as [_ Bm]. exact Bm.
Qed.

Lemma Update_rep key m c d : poly_rep key m c -> is_bytes d -> Zlen d < 2 ^ 32 ->
  exists c', wc_Poly1305Update c d = (0, c') /\ poly_rep key (m ++ d) c'.
Proof.
  intros H Bd Ld. unfold wc_Poly1305Update. destruct (Z.eqb_spec (Zlen d) 0) as [E | E].
  - assert (d = []) as -> by (destruct d; [reflexivity | unfold Zlen in E; cbn in E; lia]). rewrite app_nil_r. eauto.
  - pose proof (fill_rep key m c d H Bd ltac:(intros ->; now apply E)) as F.
    destruct (handle_leftover c d) as [[stop c'] d']. destruct F as (d0 & -> & H' & S).
    destruct stop; [subst d'; rewrite app_nil_r; eauto |].
    apply Forall_app in Bd as [_ Bd]. rewrite Zlen_app in Ld. pose proof (Zlen_nonneg d0).
    pose proof (rest_rep key (m ++ d0) c' d' H' S Bd ltac:(lia)) as R. destruct (full_blocks c' d') as [c2 d2].
    rewrite <- app_assoc in R. eauto.
Qed.

(** Zeros behind a string do not change its value. *)
Lemma le_value_zeros l n : is_bytes l -> le_value (l ++ replicate n 0) = le_value l.
Proof.
  intros B. rewrite le_value_app by exact B. assert (le_value (replicate n 0) = 0) as -> by (induction n as [| n IH]; cbn; [reflexivity | now rewrite IH]). lia.
Qed.

Lemma blocks_full_part n full part : length full = (16 * n)%nat -> (length part < 16)%nat ->
  PolySpec.blocks (full ++ part) = (n + (if decide (part = []) then 0 else 1))%nat.
Proof.
  intros Lf Lp. unfold PolySpec.blocks. rewrite length_app, Lf.
  symmetry. destruct (decide (part = [])) as [-> | Np].
  - apply (Nat.div_unique _ _ _ 15); cbn; lia.
  - assert (length part <> 0%nat) by (now destruct part). apply (Nat.div_unique _ _ _ (length part - 1)); lia.
Qed.

Lemma Final_rep key m c : poly_rep key m c -> fst (wc_Poly1305Final c) = (0, PolySpec.mac key m).
Proof.
  intros (full & part & rest & n & -> & B & Lf & Lp & Eb & Lb & El & Ef & H). unfold wc_Poly1305Final, PolySpec.mac.
  rewrite (blocks_full_part n) by assumption. rewrite acc_app by exact Lf.
  pose proof (f_equal length Eb) as Eb'. rewrite length_app, Lb in Eb'. apply Forall_app in B as [_ B]. rewrite El.
  set (r := PolySpec.clamp _) in *. set (s := le_value (drop 16 key)) in *.
  destruct (Z.eqb_spec (Zlen part) 0) as [E0 | E0]; cbn [negb].
  - assert (part = []) as -> by (destruct part; [reflexivity | unfold Zlen in E0; cbn in E0; lia]). rewrite decide_True by reflexivity. cbn [PolySpec.acc].
    pose proof (final_stands _ _ _ _ H) as F. rewrite acc_mod in F by reflexivity. destruct (c_final (limbs_of c)) as [mac l]. cbn [fst] in *. now rewrite F.
  - set (b := list_inserts _ _ _).
    assert (Hb : b = part ++ [1] ++ replicate (15 - length part) 0).
    { unfold b, Zlen. rewrite Nat2Z.id, Eb. destruct rest as [| x rest]; [cbn in Eb'; lia |]. cbn [length] in Eb'. rewrite insert_app_r_alt, Nat.sub_diag by lia. cbn [insert list_insert].
      replace (Z.to_nat (Z.of_nat (length part) + 1)) with (length (part ++ [1])) by (rewrite length_app; cbn; lia).
      change (part ++ 1 :: rest) with (part ++ [1] ++ rest). rewrite app_assoc, inserts_app by (rewrite length_replicate; change POLY1305_BLOCK_SIZE with 16; lia).
      rewrite length_replicate, drop_ge by (change POLY1305_BLOCK_SIZE with 16; lia). rewrite app_nil_r, <- app_assoc. do 3 f_equal. change POLY1305_BLOCK_SIZE with 16. lia. }
    rewrite Hb. assert (B1 : is_bytes (part ++ [1])) by (apply Forall_app; split; [exact B | repeat constructor; unfold is_word; lia]).
    assert (BB : is_bytes (part ++ [1] ++ replicate (15 - length part) 0))
      by (rewrite app_assoc; apply Forall_app; split; [exact B1 | apply Forall_replicate; unfold is_word; lia]).
    assert (L16 : length (part ++ [1] ++ replicate (15 - length part) 0) = 16%nat) by (rewrite !length_app, length_replicate; cbn; lia).
    unfold poly1305_block, poly1305_blocks, set_limbs. cbn [limbs_of finished buffer leftover]. rewrite take_ge by (rewrite L16; reflexivity || lia).
    pose proof (block_stands _ _ _ _ _ true H BB ltac:(unfold Zlen; lia)) as H'.
    rewrite Z.add_0_r, app_assoc, le_value_zeros in H' by exact B1. rewrite app_assoc.
    pose proof (final_stands _ _ _ _ H') as F. destruct (c_final _) as [mac l]. cbn [fst] in *. rewrite F.
    destruct (decide (part = [])) as [-> | Np]; [now destruct E0 |]. cbn [PolySpec.acc]. unfold PolySpec.step, PolySpec.number.
    rewrite (take_ge part) by lia. rewrite Z.mod_mod by discriminate. reflexivity.
Qed.

(** *** Padding and lengths *)

(** From 2^31 on [(int)lenToPad] is negative, with the same last four bits. *)
Lemma Pad_rep key m c n : poly_rep key m c -> is_word 32 n ->
  exists c', wc_Poly1305_Pad c n = (0, c') /\ poly_rep key (m ++ replicate (Z.to_nat ((- n) mod 16)) 0) c'.
Proof.
  intros H Hn. unfold wc_Poly1305_Pad. destruct (Z.eqb_spec n 0) as [-> | N0].
  { change (Z.to_nat (- 0 mod 16)) with 0%nat. cbn [replicate]. rewrite app_nil_r. eauto. }
  assert (E : u32 (Z.land (- sint 32 n) (WC_POLY1305_PAD_SZ - 1)) = (- n) mod 16).
  { change (WC_POLY1305_PAD_SZ - 1) with (Z.ones 4). rewrite Z.land_ones by lia. change (2 ^ 4) with 16.
    assert (sint 32 n = n \/ sint 32 n = n - 2 ^ 32) as [-> | ->].
    { unfold sint, is_word in *. change (2 ^ (32 - 1)) with (2 ^ 31). Z.to_euclidean_division_equations. lia. }
    - apply (wrap_small 32). unfold is_word. pose proof (Z.mod_pos_bound (- n) 16). lia.
    - replace (- (n - 2 ^ 32)) with (- n + 2 ^ 28 * 16) by lia. rewrite Z_mod_plus_full. apply (wrap_small 32).
      unfold is_word. pose proof (Z.mod_pos_bound (- n) 16). lia. }
  rewrite E. change WC_POLY1305_PAD_SZ with 16. set (k := (- n) mod 16). assert (0 <= k < 16) by (apply Z.mod_pos_bound; lia).
  destruct (Z.gtb_spec k 0), (Z.ltb_spec k 16); try lia; cbn [andb].
  - apply Update_rep; [exact H | apply Forall_replicate; unfold is_word; lia | unfold Zlen; rewrite length_replicate; lia].
  - assert (k = 0) as -> by lia. cbn [Z.to_nat replicate]. rewrite app_nil_r. eauto.
Qed.

Lemma pad16_rep key m l c : poly_rep key m c -> is_bytes l -> Zlen l < 2 ^ 32 ->
  exists c' c'', wc_Poly1305Update c l = (0, c') /\ wc_Poly1305_Pad c' (Zlen l) = (0, c'') /\ poly_rep key (m ++ PolySpec.pad16 l) c''.
Proof.
  intros H B Ll. destruct (Update_rep key m c l H B Ll) as (c' & E & H'). pose proof (Zlen_nonneg l).
  destruct (Pad_rep key _ c' (Zlen l) H' ltac:(split; lia)) as (c'' & E' & H''). exists c', c''. unfold PolySpec.pad16. now rewrite app_assoc.
Qed.

Lemma u32tole64_spec n : is_word 32 n -> u32tole64 n = le_bytes 8 n.
Proof.
  intros Hn. unfold u32tole64. cbn [le_bytes]. rewrite !Z.shiftr_land, !Z.shiftr_shiftr by lia.
  assert (E : forall x, u8 (Z.land x 255) = u8 x) by (intros x; change 255 with (Z.ones 8); rewrite Z.land_ones by lia; apply Z.mod_mod; discriminate).
  change (Z.shiftr 0x0000FF00 8) with 255. change (Z.shiftr 0x00FF0000 16) with 255. change (Z.shiftr 0xFF000000 24) with 255.
  rewrite !E. rewrite !(Z.shiftr_div_pow2 n) by lia. unfold is_word in Hn.
  rewrite (Z.div_small n (2 ^ (8 + 8 + 8 + 8))), (Z.div_small n (2 ^ (8 + 8 + 8 + 8 + 8))), (Z.div_small n (2 ^ (8 + 8 + 8 + 8 + 8 + 8))),
    (Z.div_small n (2 ^ (8 + 8 + 8 + 8 + 8 + 8 + 8))) by lia. reflexivity.
Qed.

Lemma EncodeSizes_rep key m c a n : poly_rep key m c -> is_word 32 a -> is_word 32 n ->
  exists c', wc_Poly1305_EncodeSizes c a n = (0, c') /\ poly_rep key (m ++ le_bytes 8 a ++ le_bytes 8 n) c'.
Proof.
  intros H Ha Hn. unfold wc_Poly1305_EncodeSizes. rewrite !u32tole64_spec by assumption.
  apply Update_rep; [exact H | apply Forall_app; split; apply le_bytes_is_bytes |].
  unfold Zlen. rewrite length_app, !le_bytes_length. reflexivity.
Qed.

(** On a context fresh from [wc_Poly1305SetKey]. *)
Lemma MAC_rep key c aad input tagSz : poly_rep key [] c -> is_bytes aad -> is_bytes input -> Zlen aad < 2 ^ 32 -> Zlen input < 2 ^ 32 ->
  fst (wc_Poly1305_MAC c aad input tagSz) =
  if tagSz <? 16 then (BAD_FUNC_ARG, []) else (0, PolySpec.mac key (PolySpec.aead_data aad input)).
Proof.
  intros H Ba Bi La Li. unfold wc_Poly1305_MAC. change WC_POLY1305_MAC_SZ with 16. destruct (tagSz <? 16); [reflexivity |].
  pose proof (Zlen_nonneg aad). pose proof (Zlen_nonneg input).
  assert (E : exists c', (if Zlen aad >? 0 then let '(ret, c) := wc_Poly1305Update c aad in if negb (ret =? 0) then (ret, c) else wc_Poly1305_Pad c (Zlen aad) else (0, c)) = (0, c')
              /\ poly_rep key (PolySpec.pad16 aad) c').
  { destruct (Z.gtb_spec (Zlen aad) 0).
    - destruct (pad16_rep key [] aad c H Ba La) as (c' & c'' & -> & E & H'). cbn [Z.eqb negb]. rewrite E. eauto.
    - assert (aad = []) as -> by (destruct aad; [reflexivity | unfold Zlen in *; cbn in *; lia]). eauto. }
  destruct E as (c1 & -> & R1). cbn [Z.eqb negb].
  destruct (pad16_rep key _ input c1 R1 Bi Li) as (c2 & c3 & -> & E3 & R3). cbn [Z.eqb negb]. rewrite E3. cbn [Z.eqb negb].
  destruct (EncodeSizes_rep key _ c3 (Zlen aad) (Zlen input) R3) as (c4 & -> & R4); [unfold is_word; lia.. |]. cbn [Z.eqb negb].
  rewrite (Final_rep key _ c4 R4). unfold PolySpec.aead_data. now rewrite <- !app_assoc.
Qed.

(** A message in pieces. *)
Lemma poly_updates_rep key m c ds : poly_rep key m c -> Forall is_bytes ds -> Forall (fun d => Zlen d < 2 ^ 32) ds ->
  poly_rep key (m ++ concat ds) (fold_left (fun c d => snd (wc_Poly1305Update c d)) ds c).
Proof.
  intros H B. revert m c H. induction B as [| d ds Bd B IH]; intros m c H Ld; cbn [concat fold_left]; [now rewrite app_nil_r |].
  apply Forall_cons_1 in Ld as [L1 L2]. destruct (Update_rep key m c d H Bd L1) as (c' & -> & H'). rewrite app_assoc. now apply IH.
Qed.

End StreamSpec.
