(* ===== verification/PolyLimbs.v ===== *)
(** * poly1305_c_setkey, poly1305_c_blocks and poly1305_c_final of poly1305.c

    Poly1305 on limbs, for both word sizes: three limbs of 44, 44 and 42 bits
    with products of 128 bits ([POLY130564], module [P64]), and five limbs of
    26 bits with products of 64 bits (module [P32]).  [Poly64_laws] and
    [Poly32_laws] discharge the interface of Poly1305.v; the theorem at the
    end carries the streaming functions over to both builds. *)

From S2P Require Import Prelude Misc Poly1305.
From stdpp Require Import list.

#[local] Open Scope Z_scope.
#[local] Open Scope cword_scope.

(** [while (bytes >= POLY1305_BLOCK_SIZE)]; [n] turns. *)
Fixpoint while_blocks {A} (turn : A -> list Z -> A) (n : nat) (h : A) (m : list Z) : A :=
  match n with
  | O => h
  | S n => while_blocks turn n (turn h m) (drop 16 m)
  end.

Definition turns (m : list Z) : nat := Z.to_nat (Zlen m / POLY1305_BLOCK_SIZE).

(** ** Limbs of 44, 44 and 42 bits *)
Module P64.

Definition U8TO64 (p : list Z) : Z :=
  Z.lor (Z.lor (Z.lor (Z.lor (Z.lor (Z.lor (Z.lor (Z.land (rd p 0) 0xff) (Z.land (rd p 1) 0xff <<u64 8))
    (Z.land (rd p 2) 0xff <<u64 16)) (Z.land (rd p 3) 0xff <<u64 24)) (Z.land (rd p 4) 0xff <<u64 32))
    (Z.land (rd p 5) 0xff <<u64 40)) (Z.land (rd p 6) 0xff <<u64 48)) (Z.land (rd p 7) 0xff <<u64 56).

Definition U64TO8 (v : Z) : list Z :=
  [u8 v; u8 (v >>u 8); u8 (v >>u 16); u8 (v >>u 24); u8 (v >>u 32); u8 (v >>u 40); u8 (v >>u 48); u8 (v >>u 56)].

Record limbs := mk { r0 : Z; r1 : Z; r2 : Z; h0 : Z; h1 : Z; h2 : Z; pad0 : Z; pad1 : Z }.

Definition setkey (key : list Z) : limbs :=
  let t0 := U8TO64 key in
  let t1 := U8TO64 (drop 8 key) in
  mk (Z.land t0 0xffc0fffffff) (Z.land (Z.lor (t0 >>u 44) (t1 <<u64 20)) 0xfffffc0ffff) (Z.land (t1 >>u 24) 0x00ffffffc0f)
     0 0 0 (U8TO64 (drop 16 key)) (U8TO64 (drop 24 key)).

Definition u128 : Z -> Z := wrap 128.
Definition MUL (x y : Z) : Z := u128 (x * y).
Definition ADD (out inp : Z) : Z := u128 (out + inp).
Definition ADDLO (out inp : Z) : Z := u128 (out + inp).
Definition SHR (inp shift : Z) : Z := u64 (Z.shiftr inp shift).
Definition LO (inp : Z) : Z := u64 inp.

(** [h += m[i]] *)
Definition add_block (hibit : Z) (h : Z * Z * Z) (m : list Z) : Z * Z * Z :=
  let '(h0, h1, h2) := h in
  let t0 := U8TO64 m in
  let t1 := U8TO64 (drop 8 m) in
  (h0 +u64 Z.land t0 0xfffffffffff,
   h1 +u64 Z.land (Z.lor (t0 >>u 44) (t1 <<u64 20)) 0xfffffffffff,
   h2 +u64 Z.lor (Z.land (t1 >>u 24) 0x3ffffffffff) hibit).

(** [h *= r] *)
Definition mul_r (r0 r1 r2 s1 s2 : Z) (h : Z * Z * Z) : Z * Z * Z :=
  let '(h0, h1, h2) := h in
  (ADD (ADD (MUL h0 r0) (MUL h1 s2)) (MUL h2 s1),
   ADD (ADD (MUL h0 r1) (MUL h1 r0)) (MUL h2 s2),
   ADD (ADD (MUL h0 r2) (MUL h1 r1)) (MUL h2 r0)).

(** (partial) [h %= p] *)
Definition reduce (d : Z * Z * Z) : Z * Z * Z :=
  let '(d0, d1, d2) := d in
  let c := SHR d0 44 in let h0 := Z.land (LO d0) 0xfffffffffff in
  let d1 := ADDLO d1 c in let c := SHR d1 44 in let h1 := Z.land (LO d1) 0xfffffffffff in
  let d2 := ADDLO d2 c in let c := SHR d2 42 in let h2 := Z.land (LO d2) 0x3ffffffffff in
  let h0 := h0 +u64 u64 (c * 5) in let c := h0 >>u 44 in let h0 := Z.land h0 0xfffffffffff in
  let h1 := h1 +u64 c in
  (h0, h1, h2).

Definition turn (hibit r0 r1 r2 s1 s2 : Z) (h : Z * Z * Z) (m : list Z) : Z * Z * Z :=
  reduce (mul_r r0 r1 r2 s1 s2 (add_block hibit h m)).

Definition blocks (finished : bool) (l : limbs) (m : list Z) : limbs :=
  let hibit := if finished then 0 else 1 <<u64 40 in
  let s1 := u64 (r1 l * 20) in
  let s2 := u64 (r2 l * 20) in
  let '(h0, h1, h2) := while_blocks (turn hibit (r0 l) (r1 l) (r2 l) s1 s2) (turns m) (h0 l, h1 l, h2 l) m in
  mk (r0 l) (r1 l) (r2 l) h0 h1 h2 (pad0 l) (pad1 l).

(** The carries at the end. *)
Definition carry (h0 h1 h2 : Z) : Z * Z * Z :=
  let c := h1 >>u 44 in let h1 := Z.land h1 0xfffffffffff in
  let h2 := h2 +u64 c in let c := h2 >>u 42 in let h2 := Z.land h2 0x3ffffffffff in
  let h0 := h0 +u64 u64 (c * 5) in let c := h0 >>u 44 in let h0 := Z.land h0 0xfffffffffff in
  let h1 := h1 +u64 c in let c := h1 >>u 44 in let h1 := Z.land h1 0xfffffffffff in
  let h2 := h2 +u64 c in let c := h2 >>u 42 in let h2 := Z.land h2 0x3ffffffffff in
  let h0 := h0 +u64 u64 (c * 5) in let c := h0 >>u 44 in let h0 := Z.land h0 0xfffffffffff in
  let h1 := h1 +u64 c in
  (h0, h1, h2).

(** [h] if [h < p], or [h - p]. *)
Definition freeze (h0 h1 h2 : Z) : Z * Z * Z :=
  let g0 := h0 +u64 5 in let c := g0 >>u 44 in let g0 := Z.land g0 0xfffffffffff in
  let g1 := h1 +u64 c in let c := g1 >>u 44 in let g1 := Z.land g1 0xfffffffffff in
  let g2 := (h2 +u64 c) -u64 (1 <<u64 42) in
  let c := (g2 >>u 63) -u64 1 in
  let g0 := Z.land g0 c in
  let g1 := Z.land g1 c in
  let g2 := Z.land g2 c in
  let c := cnot 64 c in
  (Z.lor (Z.land h0 c) g0, Z.lor (Z.land h1 c) g1, Z.lor (Z.land h2 c) g2).

Definition final (l : limbs) : list Z * limbs :=
  let '(h0, h1, h2) := carry (h0 l) (h1 l) (h2 l) in
  let '(h0, h1, h2) := freeze h0 h1 h2 in
  let t0 := pad0 l in
  let t1 := pad1 l in
  let h0 := h0 +u64 Z.land t0 0xfffffffffff in
  let c := h0 >>u 44 in let h0 := Z.land h0 0xfffffffffff in
  let h1 := h1 +u64 u64 (Z.land (Z.lor (t0 >>u 44) (t1 <<u64 20)) 0xfffffffffff + c) in
  let c := h1 >>u 44 in let h1 := Z.land h1 0xfffffffffff in
  let h2 := h2 +u64 u64 (Z.land (t1 >>u 24) 0x3ffffffffff + c) in
  let h2 := Z.land h2 0x3ffffffffff in
  let h0 := Z.lor h0 (h1 <<u64 44) in
  let h1 := Z.lor (h1 >>u 20) (h2 <<u64 24) in
  (U64TO8 h0 ++ U64TO8 h1, mk 0 0 0 0 0 0 0 0).

End P64.

(** ** Limbs of 26 bits *)
Module P32.

Definition U8TO32 (p : list Z) : Z :=
  Z.lor (Z.lor (Z.lor (Z.land (rd p 0) 0xff) (Z.land (rd p 1) 0xff <<u32 8))
    (Z.land (rd p 2) 0xff <<u32 16)) (Z.land (rd p 3) 0xff <<u32 24).

Definition U32TO8 (v : Z) : list Z :=
  [u8 (Z.land v 0xff); u8 (Z.land (v >>u 8) 0xff); u8 (Z.land (v >>u 16) 0xff); u8 (Z.land (v >>u 24) 0xff)].

Record limbs := mk { r0 : Z; r1 : Z; r2 : Z; r3 : Z; r4 : Z; h0 : Z; h1 : Z; h2 : Z; h3 : Z; h4 : Z;
                     pad0 : Z; pad1 : Z; pad2 : Z; pad3 : Z }.

Definition setkey (key : list Z) : limbs :=
  mk (Z.land (U8TO32 key) 0x3ffffff) (Z.land (U8TO32 (drop 3 key) >>u 2) 0x3ffff03)
     (Z.land (U8TO32 (drop 6 key) >>u 4) 0x3ffc0ff) (Z.land (U8TO32 (drop 9 key) >>u 6) 0x3f03fff)
     (Z.land (U8TO32 (drop 12 key) >>u 8) 0x00fffff)
     0 0 0 0 0 (U8TO32 (drop 16 key)) (U8TO32 (drop 20 key)) (U8TO32 (drop 24 key)) (U8TO32 (drop 28 key)).

(** A sum of five products of 32-bit words, in 64 bits. *)
Definition dot (a0 b0 a1 b1 a2 b2 a3 b3 a4 b4 : Z) : Z :=
  u64 (a0 * b0) +u64 u64 (a1 * b1) +u64 u64 (a2 * b2) +u64 u64 (a3 * b3) +u64 u64 (a4 * b4).

Definition add_block (hibit : Z) (h : Z * Z * Z * Z * Z) (m : list Z) : Z * Z * Z * Z * Z :=
  let '(h0, h1, h2, h3, h4) := h in
  (h0 +u32 Z.land (U8TO32 m) 0x3ffffff,
   h1 +u32 Z.land (U8TO32 (drop 3 m) >>u 2) 0x3ffffff,
   h2 +u32 Z.land (U8TO32 (drop 6 m) >>u 4) 0x3ffffff,
   h3 +u32 Z.land (U8TO32 (drop 9 m) >>u 6) 0x3ffffff,
   h4 +u32 Z.lor (U8TO32 (drop 12 m) >>u 8) hibit).

Definition mul_r (r0 r1 r2 r3 r4 s1 s2 s3 s4 : Z) (h : Z * Z * Z * Z * Z) : Z * Z * Z * Z * Z :=
  let '(h0, h1, h2, h3, h4) := h in
  (dot h0 r0 h1 s4 h2 s3 h3 s2 h4 s1,
   dot h0 r1 h1 r0 h2 s4 h3 s3 h4 s2,
   dot h0 r2 h1 r1 h2 r0 h3 s4 h4 s3,
   dot h0 r3 h1 r2 h2 r1 h3 r0 h4 s4,
   dot h0 r4 h1 r3 h2 r2 h3 r1 h4 r0).

Definition reduce (d : Z * Z * Z * Z * Z) : Z * Z * Z * Z * Z :=
  let '(d0, d1, d2, d3, d4) := d in
  let c := u32 (d0 >>u 26) in let h0 := Z.land (u32 d0) 0x3ffffff in
  let d1 := d1 +u64 c in let c := u32 (d1 >>u 26) in let h1 := Z.land (u32 d1) 0x3ffffff in
  let d2 := d2 +u64 c in let c := u32 (d2 >>u 26) in let h2 := Z.land (u32 d2) 0x3ffffff in
  let d3 := d3 +u64 c in let c := u32 (d3 >>u 26) in let h3 := Z.land (u32 d3) 0x3ffffff in
  let d4 := d4 +u64 c in let c := u32 (d4 >>u 26) in let h4 := Z.land (u32 d4) 0x3ffffff in
  let h0 := h0 +u32 u32 (c * 5) in let c := h0 >>u 26 in let h0 := Z.land h0 0x3ffffff in
  let h1 := h1 +u32 c in
  (h0, h1, h2, h3, h4).

Definition turn (hibit r0 r1 r2 r3 r4 s1 s2 s3 s4 : Z) (h : Z * Z * Z * Z * Z) (m : list Z) : Z * Z * Z * Z * Z :=
  reduce (mul_r r0 r1 r2 r3 r4 s1 s2 s3 s4 (add_block hibit h m)).

Definition blocks (finished : bool) (l : limbs) (m : list Z) : limbs :=
  let hibit := if finished then 0 else 1 <<u32 24 in
  let s1 := u32 (r1 l * 5) in
  let s2 := u32 (r2 l * 5) in
  let s3 := u32 (r3 l * 5) in
  let s4 := u32 (r4 l * 5) in
  let '(h0, h1, h2, h3, h4) :=
    while_blocks (turn hibit (r0 l) (r1 l) (r2 l) (r3 l) (r4 l) s1 s2 s3 s4) (turns m) (h0 l, h1 l, h2 l, h3 l, h4 l) m in
  mk (r0 l) (r1 l) (r2 l) (r3 l) (r4 l) h0 h1 h2 h3 h4 (pad0 l) (pad1 l) (pad2 l) (pad3 l).

Definition carry (h0 h1 h2 h3 h4 : Z) : Z * Z * Z * Z * Z :=
  let c := h1 >>u 26 in let h1 := Z.land h1 0x3ffffff in
  let h2 := h2 +u32 c in let c := h2 >>u 26 in let h2 := Z.land h2 0x3ffffff in
  let h3 := h3 +u32 c in let c := h3 >>u 26 in let h3 := Z.land h3 0x3ffffff in
  let h4 := h4 +u32 c in let c := h4 >>u 26 in let h4 := Z.land h4 0x3ffffff in
  let h0 := h0 +u32 u32 (c * 5) in let c := h0 >>u 26 in let h0 := Z.land h0 0x3ffffff in
  let h1 := h1 +u32 c in
  (h0, h1, h2, h3, h4).

Definition freeze (h0 h1 h2 h3 h4 : Z) : Z * Z * Z * Z * Z :=
  let g0 := h0 +u32 5 in let c := g0 >>u 26 in let g0 := Z.land g0 0x3ffffff in
  let g1 := h1 +u32 c in let c := g1 >>u 26 in let g1 := Z.land g1 0x3ffffff in
  let g2 := h2 +u32 c in let c := g2 >>u 26 in let g2 := Z.land g2 0x3ffffff in
  let g3 := h3 +u32 c in let c := g3 >>u 26 in let g3 := Z.land g3 0x3ffffff in
  let g4 := (h4 +u32 c) -u32 (1 <<u32 26) in
  let mask := (g4 >>u 31) -u32 1 in
  let g0 := Z.land g0 mask in
  let g1 := Z.land g1 mask in
  let g2 := Z.land g2 mask in
  let g3 := Z.land g3 mask in
  let g4 := Z.land g4 mask in
  let mask := cnot 32 mask in
  (Z.lor (Z.land h0 mask) g0, Z.lor (Z.land h1 mask) g1, Z.lor (Z.land h2 mask) g2,
   Z.lor (Z.land h3 mask) g3, Z.lor (Z.land h4 mask) g4).

Definition final (l : limbs) : list Z * limbs :=
  let '(h0, h1, h2, h3, h4) := carry (h0 l) (h1 l) (h2 l) (h3 l) (h4 l) in
  let '(h0, h1, h2, h3, h4) := freeze h0 h1 h2 h3 h4 in
  let h0 := Z.land (Z.lor h0 (h1 <<u32 26)) 0xffffffff in
  let h1 := Z.land (Z.lor (h1 >>u 6) (h2 <<u32 20)) 0xffffffff in
  let h2 := Z.land (Z.lor (h2 >>u 12) (h3 <<u32 14)) 0xffffffff in
  let h3 := Z.land (Z.lor (h3 >>u 18) (h4 <<u32 8)) 0xffffffff in
  let f := h0 +u64 pad0 l in let h0 := u32 f in
  let f := h1 +u64 pad1 l +u64 (f >>u 32) in let h1 := u32 f in
  let f := h2 +u64 pad2 l +u64 (f >>u 32) in let h2 := u32 f in
  let f := h3 +u64 pad3 l +u64 (f >>u 32) in let h3 := u32 f in
  (U32TO8 h0 ++ U32TO8 h1 ++ U32TO8 h2 ++ U32TO8 h3, mk 0 0 0 0 0 0 0 0 0 0 0 0 0 0).

End P32.

Definition Poly64 : PolyOps :=
  {| plimbs := P64.limbs; zero_limbs := P64.mk 0 0 0 0 0 0 0 0; c_setkey := P64.setkey; c_blocks := P64.blocks; c_final := P64.final |}.
Definition Poly32 : PolyOps :=
  {| plimbs := P32.limbs; zero_limbs := P32.mk 0 0 0 0 0 0 0 0 0 0 0 0 0 0; c_setkey := P32.setkey; c_blocks := P32.blocks; c_final := P32.final |}.

Example poly1305_rfc8439 :
  let key := be_bytes 32 0x85d6be7857556d337f4452fe42d506a80103808afb0db2fd4abff6af4149f51b in
  let msg := be_bytes 34 0x43727970746f6772617068696320466f72756d2052657365617263682047726f7570 in
  let run (P : PolyOps) :=
    let c := mk_poly (c_setkey []) (replicate 16 0) 0 false in
    let c := snd (wc_Poly1305SetKey c key) in
    let c := snd (wc_Poly1305Update c (take 5 msg)) in
    let c := snd (wc_Poly1305Update c (drop 5 msg)) in
    be_value (snd (fst (wc_Poly1305Final c))) in
  (run Poly64, run Poly32, be_value (PolySpec.mac key msg)) =
  (0xa8061dc1305136c6c22b8baf0c0127a9, 0xa8061dc1305136c6c22b8baf0c0127a9, 0xa8061dc1305136c6c22b8baf0c0127a9).
Proof. vm_compute. reflexivity. Qed.

(** ** Slices of an integer *)

(** Bits [a] to [a + w - 1]. *)
Definition slice (a w x : Z) : Z := x / 2 ^ a mod 2 ^ w.

Lemma slice_testbit a w x i : 0 <= a -> 0 <= w -> 0 <= i -> Z.testbit (slice a w x) i = (i <? w) && Z.testbit x (i + a).
Proof.
  intros Ha Hw Hi. unfold slice. change (?y mod 2 ^ w) with (wrap w y). rewrite wrap_testbit by lia. f_equal. now apply Z.div_pow2_bits.
Qed.

Lemma slice_word a w x : 0 <= w -> is_word w (slice a w x).
Proof. intros Hw. now apply wrap_is_word. Qed.

Lemma slice_land a w x y : 0 <= a -> 0 <= w -> slice a w (Z.land x y) = Z.land (slice a w x) (slice a w y).
Proof.
  intros Ha Hw. apply Z.bits_inj'. intros i Hi. rewrite Z.land_spec, !slice_testbit, Z.land_spec by lia.
  destruct (i <? w), (Z.testbit x (i + a)), (Z.testbit y (i + a)); reflexivity.
Qed.

(** A shifted slice cut down by a mask. *)
Lemma slice_shift_mask a w b v x m : 0 <= a -> 0 <= b -> 0 <= v -> b + v <= w -> is_word v m ->
  Z.land (Z.shiftr (slice a w x) b) m = Z.land (slice (a + b) v x) m.
Proof.
  intros Ha Hb Hv Hw Hm. apply Z.bits_inj'. intros i Hi.
  rewrite !Z.land_spec, shiftr_testbit, !slice_testbit by lia.
  destruct (Z.ltb_spec i v).
  - destruct (Z.leb_spec 0 i), (Z.ltb_spec (i + b) w); try lia. cbn [andb]. do 2 f_equal. lia.
  - rewrite (word_testbit_high v m i) by (lia || exact Hm). now rewrite !andb_false_r.
Qed.

(** Bits of two neighbouring words. *)
Lemma slice_join x m : is_word 44 m ->
  Z.land (Z.lor (Z.shiftr (slice 0 64 x) 44) (u64 (Z.shiftl (slice 64 64 x) 20))) m = Z.land (slice 44 44 x) m.
Proof.
  intros Hm. apply Z.bits_inj'. intros i Hi.
  rewrite !Z.land_spec, Z.lor_spec, shiftr_testbit, wrap_testbit, shiftl_testbit by lia.
  destruct (Z.ltb_spec i 44).
  - rewrite (slice_testbit 0 64), (slice_testbit 44 44) by lia. destruct (Z.leb_spec 0 i), (Z.ltb_spec i 64), (Z.ltb_spec i 44); try lia. cbn [andb].
    destruct (Z.ltb_spec i 20).
    + rewrite (Z.testbit_neg_r (slice 64 64 x)) by lia. destruct (Z.ltb_spec (i + 44) 64); [| lia]. cbn [andb orb].
      rewrite orb_false_r. do 2 f_equal. lia.
    + destruct (Z.ltb_spec (i + 44) 64); [lia |]. cbn [andb orb]. rewrite slice_testbit by lia.
      destruct (Z.ltb_spec (i - 20) 64); [| lia]. cbn [andb]. do 2 f_equal. lia.
  - rewrite (word_testbit_high 44 m i) by (lia || exact Hm). now rewrite !andb_false_r.
Qed.

Lemma le_value_slice l k n : is_bytes l -> le_value (take n (drop k l)) = slice (8 * Z.of_nat k) (8 * Z.of_nat n) (le_value l).
Proof.
  intros B. apply Z.bits_inj'. intros i Hi. rewrite slice_testbit by lia.
  rewrite !le_value_testbit by (first [lia | exact B | now apply Forall_take, Forall_drop]).
  replace (i + 8 * Z.of_nat k) with (i + Z.of_nat k * 8) by lia. rewrite Z.div_add, Z.mod_add by lia.
  assert (0 <= i / 8) by (apply Z.div_pos; lia).
  destruct (Z.ltb_spec i (8 * Z.of_nat n)) as [H1 | H1]; cbn [andb].
  - unfold rd. rewrite lookup_take, lookup_drop. rewrite decide_True by (assert (i / 8 < Z.of_nat n) by (apply Z.div_lt_upper_bound; lia); lia).
    do 3 f_equal. lia.
  - unfold rd. rewrite lookup_take, decide_False by (assert (Z.of_nat n <= i / 8) by (apply Z.div_le_lower_bound; lia); lia).
    apply Z.testbit_0_l.
Qed.

#[local] Ltac load_word :=
  repeat match goal with |- context [rd ?l ?k] => let v := eval vm_compute in (rd l k) in change (rd l k) with v end;
  cbn [rev app le_value take]; rewrite ?Z.shiftl_0_l, ?Z.lor_0_r, ?Z.shiftl_lor, ?Z.shiftl_shiftl by lia;
  change 255 with (Z.ones 8); rewrite !Z.land_ones by lia; rewrite !(Z.mod_small _ (2 ^ 8)) by assumption;
  repeat rewrite shl_byte by (lia || assumption);
  repeat match goal with |- context [8 + Zpos ?k] => let v := eval vm_compute in (8 + Zpos k) in change (8 + Zpos k) with v end;
  rewrite ?Z.lor_assoc; reflexivity.

Lemma U8TO64_spec l : is_bytes l -> (8 <= length l)%nat -> P64.U8TO64 l = le_value (take 8 l).
Proof.
  intros B L. do 8 (destruct l as [| ? l]; [cbn in L; lia |]; apply Forall_cons_1 in B as [? B]).
  unfold P64.U8TO64.
  load_word.
Qed.

Lemma U8TO32_spec l : is_bytes l -> (4 <= length l)%nat -> P32.U8TO32 l = le_value (take 4 l).
Proof.
  intros B L. do 4 (destruct l as [| ? l]; [cbn in L; lia |]; apply Forall_cons_1 in B as [? B]).
  unfold P32.U8TO32.
  load_word.
Qed.

(** Words of a string as slices of its value. *)
Lemma U8TO64_slice l k : is_bytes l -> (k + 8 <= length l)%nat -> P64.U8TO64 (drop k l) = slice (8 * Z.of_nat k) 64 (le_value l).
Proof.
  intros B L. rewrite U8TO64_spec by (first [now apply Forall_drop | rewrite length_drop; lia]).
  now rewrite le_value_slice.
Qed.

Lemma U8TO32_slice l k : is_bytes l -> (k + 4 <= length l)%nat -> P32.U8TO32 (drop k l) = slice (8 * Z.of_nat k) 32 (le_value l).
Proof.
  intros B L. rewrite U8TO32_spec by (first [now apply Forall_drop | rewrite length_drop; lia]).
  now rewrite le_value_slice.
Qed.

(** The limbs of a 128-bit value. *)
Lemma limbs64_value x : is_word 128 x -> slice 0 44 x + slice 44 44 x * 2 ^ 44 + slice 88 40 x * 2 ^ 88 = x.
Proof. unfold is_word, slice. intros H. change (2 ^ 0) with 1. rewrite Z.div_1_r. Z.to_euclidean_division_equations. lia. Qed.

Lemma limbs32_value x : is_word 128 x ->
  slice 0 26 x + slice 26 26 x * 2 ^ 26 + slice 52 26 x * 2 ^ 52 + slice 78 26 x * 2 ^ 78 + slice 104 24 x * 2 ^ 104 = x.
Proof. unfold is_word, slice. intros H. change (2 ^ 0) with 1. rewrite Z.div_1_r. Z.to_euclidean_division_equations. lia. Qed.

(** ** Arithmetic on limbs *)

Lemma land_low w m x : 0 <= w -> m = Z.ones w -> Z.land x m = x mod 2 ^ w.
Proof. intros Hw ->. now apply Z.land_ones. Qed.

Lemma mul_range a b A B : 0 <= a <= A -> 0 <= b <= B -> 0 <= a * b <= A * B.
Proof. nia. Qed.

(** Masks become remainders and shifts divisions; a reduction whose
    argument is in range is dropped. *)
#[local] Ltac limbs_arith :=
  rewrite ?(land_low 44 0xfffffffffff), ?(land_low 42 0x3ffffffffff), ?(land_low 26 0x3ffffff) by (lia || reflexivity);
  rewrite ?Z.shiftr_div_pow2 by lia.

(** Innermost reductions first. *)
#[local] Ltac drop_wraps :=
  repeat match goal with
         | |- context [wrap ?w ?x] =>
             lazymatch x with context [wrap] => fail | _ => rewrite (wrap_small w x) by (unfold is_word; lia) end
         end.

(** Quotient and remainder of a limb, by name. *)
#[local] Ltac split_limb x m q r E :=
  let q' := fresh q in let r' := fresh r in
  pose proof (Z.div_mod x m ltac:(lia)) as E; pose proof (Z.mod_pos_bound x m ltac:(lia));
  set (q := x / m) in *; set (r := x mod m) in *; clearbody q r.

Definition val64 (h : Z * Z * Z) : Z := let '(h0, h1, h2) := h in h0 + h1 * 2 ^ 44 + h2 * 2 ^ 88.
Definition ok64 (h : Z * Z * Z) : Prop :=
  let '(h0, h1, h2) := h in 0 <= h0 < 2 ^ 44 /\ 0 <= h1 < 2 ^ 44 + 2 ^ 20 /\ 0 <= h2 < 2 ^ 42.

(** Equality modulo p, as a multiple. *)
Definition eqp (x y : Z) : Prop := exists k, x = y + k * PolySpec.p.

Lemma eqp_mod x y : eqp x y -> x mod PolySpec.p = y mod PolySpec.p.
Proof. intros [k ->]. apply Z_mod_plus_full. Qed.

Lemma eqp_trans x y z : eqp x y -> eqp y z -> eqp x z.
Proof. intros [k ->] [j ->]. exists (k + j). ring. Qed.

Lemma low_bits v w x : 0 <= w <= v -> wrap v x mod 2 ^ w = x mod 2 ^ w.
Proof. intros H. exact (wrap_wrap w v x H). Qed.

Lemma reduce64_eq d0 d1 d2 : 0 <= d0 < 2 ^ 100 -> 0 <= d1 < 2 ^ 100 -> 0 <= d2 < 2 ^ 100 ->
  let e1 := d1 + d0 / 2 ^ 44 in let e2 := d2 + e1 / 2 ^ 44 in let f := d0 mod 2 ^ 44 + e2 / 2 ^ 42 * 5 in
  P64.reduce (d0, d1, d2) = (f mod 2 ^ 44, e1 mod 2 ^ 44 + f / 2 ^ 44, e2 mod 2 ^ 42).
Proof.
  intros R0 R1 R2 e1 e2 f.
  assert (B1 : 0 <= e1 < 2 ^ 101) by (unfold e1; Z.to_euclidean_division_equations; lia).
  assert (B2 : 0 <= e2 < 2 ^ 102) by (clearbody e1; unfold e2; Z.to_euclidean_division_equations; lia).
  assert (Bf : 0 <= f < 2 ^ 63) by (clearbody e2; unfold f; Z.to_euclidean_division_equations; lia).
  unfold P64.reduce, P64.SHR, P64.LO, P64.ADDLO, P64.u128. limbs_arith. rewrite !(low_bits 64) by lia. cbv zeta.
  rewrite (wrap_small 64 (d0 / 2 ^ 44)) by (unfold is_word; Z.to_euclidean_division_equations; lia). fold e1.
  rewrite (wrap_small 128 e1) by (unfold is_word; lia).
  rewrite (wrap_small 64 (e1 / 2 ^ 44)) by (clearbody e1; unfold is_word; Z.to_euclidean_division_equations; lia). fold e2.
  rewrite (wrap_small 128 e2) by (unfold is_word; lia).
  rewrite (wrap_small 64 (e2 / 2 ^ 42)) by (clearbody e2; unfold is_word; Z.to_euclidean_division_equations; lia).
  rewrite (wrap_small 64 (e2 / 2 ^ 42 * 5)) by (clearbody e2; unfold is_word; Z.to_euclidean_division_equations; lia). fold f.
  rewrite (wrap_small 64 f) by (unfold is_word; lia).
  rewrite (wrap_small 64 (e1 mod 2 ^ 44 + f / 2 ^ 44)) by (clearbody f e1; unfold is_word; Z.to_euclidean_division_equations; lia).
  reflexivity.
Qed.

Lemma reduce64_spec d0 d1 d2 : 0 <= d0 < 2 ^ 100 -> 0 <= d1 < 2 ^ 100 -> 0 <= d2 < 2 ^ 100 ->
  ok64 (P64.reduce (d0, d1, d2)) /\ eqp (val64 (P64.reduce (d0, d1, d2))) (d0 + d1 * 2 ^ 44 + d2 * 2 ^ 88).
Proof.
  intros R0 R1 R2. rewrite reduce64_eq by assumption. cbv zeta.
  set (e1 := d1 + d0 / 2 ^ 44). set (e2 := d2 + e1 / 2 ^ 44). set (f := d0 mod 2 ^ 44 + e2 / 2 ^ 42 * 5).
  assert (B1 : 0 <= e1 < 2 ^ 101) by (unfold e1; Z.to_euclidean_division_equations; lia).
  assert (B2 : 0 <= e2 < 2 ^ 102) by (clearbody e1; unfold e2; Z.to_euclidean_division_equations; lia).
  assert (Bf : 0 <= f < 2 ^ 63) by (clearbody e2; unfold f; Z.to_euclidean_division_equations; lia).
  unfold ok64, val64, eqp. split.
  - clearbody f e2 e1. Z.to_euclidean_division_equations. lia.
  - exists (- (e2 / 2 ^ 42)). unfold PolySpec.p, f, e2, e1. Z.to_euclidean_division_equations. lia.
Qed.

(** The limbs of [r] after clamping. *)
Definition r_ok64 (r0 r1 r2 : Z) : Prop := 0 <= r0 < 2 ^ 44 /\ 0 <= r1 < 2 ^ 44 /\ 0 <= r2 < 2 ^ 36.

Lemma mul64_spec r0 r1 r2 h0 h1 h2 : r_ok64 r0 r1 r2 -> 0 <= h0 < 2 ^ 45 -> 0 <= h1 < 2 ^ 46 -> 0 <= h2 < 2 ^ 43 ->
  exists d0 d1 d2, P64.mul_r r0 r1 r2 (u64 (r1 * 20)) (u64 (r2 * 20)) (h0, h1, h2) = (d0, d1, d2) /\
    0 <= d0 < 2 ^ 100 /\ 0 <= d1 < 2 ^ 100 /\ 0 <= d2 < 2 ^ 100 /\
    eqp (d0 + d1 * 2 ^ 44 + d2 * 2 ^ 88) (val64 (h0, h1, h2) * val64 (r0, r1, r2)).
Proof.
  intros (R0 & R1 & R2) H0 H1 H2. unfold P64.mul_r, P64.ADD, P64.MUL, P64.u128.
  rewrite !(wrap_small 64) by (unfold is_word; lia).
  pose proof (mul_range h0 r0 (2 ^ 45) (2 ^ 44) ltac:(lia) ltac:(lia)). pose proof (mul_range h1 (r2 * 20) (2 ^ 46) (2 ^ 41) ltac:(lia) ltac:(lia)).
  pose proof (mul_range h2 (r1 * 20) (2 ^ 43) (2 ^ 49) ltac:(lia) ltac:(lia)). pose proof (mul_range h0 r1 (2 ^ 45) (2 ^ 44) ltac:(lia) ltac:(lia)).
  pose proof (mul_range h1 r0 (2 ^ 46) (2 ^ 44) ltac:(lia) ltac:(lia)). pose proof (mul_range h2 (r2 * 20) (2 ^ 43) (2 ^ 41) ltac:(lia) ltac:(lia)).
  pose proof (mul_range h0 r2 (2 ^ 45) (2 ^ 36) ltac:(lia) ltac:(lia)). pose proof (mul_range h1 r1 (2 ^ 46) (2 ^ 44) ltac:(lia) ltac:(lia)).
  pose proof (mul_range h2 r0 (2 ^ 43) (2 ^ 44) ltac:(lia) ltac:(lia)).
  drop_wraps.
  do 3 eexists. split; [reflexivity |]. split; [lia |]. split; [lia |]. split; [lia |].
  unfold val64, eqp, PolySpec.p. exists (- (4 * (h1 * r2 + h2 * r1) + 2 ^ 46 * h2 * r2)). ring.
Qed.

Lemma lor_hibit x w : 0 <= w -> is_word w x -> Z.lor x (2 ^ w) = x + 2 ^ w.
Proof. intros Hw Hx. rewrite <- (Z.mul_1_l (2 ^ w)) at 1. rewrite <- Z.shiftl_mul_pow2, lor_add_shift by (lia || exact Hx). lia. Qed.

Lemma slice_slice a w b v x : 0 <= a -> 0 <= w -> 0 <= b -> a + w <= v -> slice a w (slice b v x) = slice (a + b) w x.
Proof.
  intros Ha Hw Hb Hv. apply Z.bits_inj'. intros i Hi. rewrite !slice_testbit by lia.
  destruct (Z.ltb_spec i w); [| reflexivity]. destruct (Z.ltb_spec (i + a) v); [| lia]. cbn [andb]. f_equal. lia.
Qed.

Lemma slice_shift_whole a w b x : 0 <= a -> 0 <= b <= w -> Z.shiftr (slice a w x) b = slice (a + b) (w - b) x.
Proof.
  intros Ha Hb. apply Z.bits_inj'. intros i Hi. rewrite shiftr_testbit, !slice_testbit by lia.
  destruct (Z.leb_spec 0 i), (Z.ltb_spec (i + b) w), (Z.ltb_spec i (w - b)); try lia; cbn [andb]; first [reflexivity | f_equal; lia].
Qed.

Definition hibit64 (fin : bool) : Z := if fin then 0 else u64 (Z.shiftl 1 40).

Lemma add64_spec fin h m : ok64 h -> is_bytes m -> (16 <= length m)%nat ->
  exists h0 h1 h2, P64.add_block (hibit64 fin) h m = (h0, h1, h2) /\ 0 <= h0 < 2 ^ 45 /\ 0 <= h1 < 2 ^ 46 /\ 0 <= h2 < 2 ^ 43 /\
    val64 (h0, h1, h2) = val64 h + le_value (take 16 m) + (if fin then 0 else 2 ^ 128).
Proof.
  intros O B L. destruct h as [[h0 h1] h2]. destruct O as (O0 & O1 & O2). unfold P64.add_block.
  pose proof (U8TO64_slice m 0 B ltac:(lia)) as E0. rewrite drop_0 in E0. rewrite E0, (U8TO64_slice m 8) by (auto; lia).
  change (8 * Z.of_nat 0) with 0. change (8 * Z.of_nat 8) with 64. set (x := le_value m).
  assert (Ex : le_value (take 16 m) = slice 0 128 x) by (rewrite <- (drop_0 m) at 1; exact (le_value_slice m 0 16 B)).
  rewrite Ex. set (y := slice 0 128 x). assert (Wy : is_word 128 y) by now apply slice_word.
  assert (S0 : Z.land (slice 0 64 x) 0xfffffffffff = slice 0 44 y).
  { rewrite <- (Z.shiftr_0_r (slice 0 64 x)), slice_shift_mask with (v := 44) by (lia || (unfold is_word; lia)).
    rewrite (land_low 44) by (lia || reflexivity). unfold y. rewrite slice_slice by lia. apply (wrap_small 44), slice_word. lia. }
  assert (S1 : Z.land (Z.lor (Z.shiftr (slice 0 64 x) 44) (u64 (Z.shiftl (slice 64 64 x) 20))) 0xfffffffffff = slice 44 44 y).
  { rewrite slice_join by (unfold is_word; lia). rewrite (land_low 44) by (lia || reflexivity). unfold y. rewrite slice_slice by lia.
    apply (wrap_small 44), slice_word. lia. }
  assert (S2 : Z.land (Z.shiftr (slice 64 64 x) 24) 0x3ffffffffff = slice 88 40 y).
  { rewrite slice_shift_whole by lia. rewrite (land_low 42) by (lia || reflexivity). unfold y. rewrite slice_slice by lia. change (64 + 24) with 88.
    change (88 + 0) with 88. apply (wrap_small 42). pose proof (slice_word 88 40 x ltac:(lia)). unfold is_word in *. lia. }
  rewrite S0, S1, S2. pose proof (limbs64_value y Wy) as V.
  pose proof (slice_word 0 44 y ltac:(lia)) as W0. pose proof (slice_word 44 44 y ltac:(lia)) as W1. pose proof (slice_word 88 40 y ltac:(lia)) as W2.
  assert (Eh : Z.lor (slice 88 40 y) (hibit64 fin) = slice 88 40 y + (if fin then 0 else 2 ^ 40)).
  { unfold hibit64. destruct fin; [rewrite Z.lor_0_r; lia | exact (lor_hibit _ 40 ltac:(lia) W2)]. }
  rewrite Eh. unfold is_word in *. unfold val64.
  rewrite !(wrap_small 64) by (unfold is_word; destruct fin; lia).
  do 3 eexists. split; [reflexivity |]. destruct fin; repeat split; lia.
Qed.

(** The value of the limbs of [r]: clamped. *)
Lemma clamp64 R : is_word 128 R ->
  let C := PolySpec.clamp R in
  Z.land (slice 0 44 R) 0xffc0fffffff = slice 0 44 C /\
  Z.land (slice 44 44 R) 0xfffffc0ffff = slice 44 44 C /\
  Z.land (slice 88 40 R) 0x00ffffffc0f = slice 88 40 C /\ is_word 124 C.
Proof.
  intros HR C. unfold C, PolySpec.clamp. rewrite !slice_land by lia. repeat (split; [reflexivity |]).
  rewrite Z.land_comm. apply land_is_word; [lia | split; [discriminate | reflexivity] | apply HR].
Qed.

Definition stands64 (l : P64.limbs) (r s a : Z) : Prop :=
  r = val64 (P64.r0 l, P64.r1 l, P64.r2 l) /\ r_ok64 (P64.r0 l) (P64.r1 l) (P64.r2 l) /\
  ok64 (P64.h0 l, P64.h1 l, P64.h2 l) /\ eqp (val64 (P64.h0 l, P64.h1 l, P64.h2 l)) a /\
  is_word 64 (P64.pad0 l) /\ is_word 64 (P64.pad1 l) /\ s = P64.pad0 l + P64.pad1 l * 2 ^ 64.

Lemma word64_of_slice a x : is_word 64 (slice a 64 x).
Proof. apply slice_word. lia. Qed.

Lemma setkey64 key : is_bytes key -> Zlen key = 32 ->
  stands64 (P64.setkey key) (PolySpec.clamp (le_value (take 16 key))) (le_value (drop 16 key)) 0.
Proof.
  intros B L. assert (Ln : length key = 32%nat) by (unfold Zlen in L; lia).
  unfold P64.setkey, stands64. cbn [P64.r0 P64.r1 P64.r2 P64.h0 P64.h1 P64.h2 P64.pad0 P64.pad1].
  pose proof (U8TO64_slice key 0 B ltac:(lia)) as E0. rewrite drop_0 in E0. rewrite E0, !U8TO64_slice by (auto; lia).
  change (8 * Z.of_nat 0) with 0. change (8 * Z.of_nat 8) with 64. change (8 * Z.of_nat 16) with 128. change (8 * Z.of_nat 24) with 192.
  set (x := le_value key).
  assert (ER : le_value (take 16 key) = slice 0 128 x) by (rewrite <- (drop_0 key) at 1; exact (le_value_slice key 0 16 B)).
  assert (ES : le_value (drop 16 key) = slice 128 128 x).
  { rewrite <- (take_ge (drop 16 key) 16) by (rewrite length_drop; lia). exact (le_value_slice key 16 16 B). }
  rewrite ER, ES. set (R := slice 0 128 x). destruct (clamp64 R (slice_word 0 128 x ltac:(lia))) as (C0 & C1 & C2 & WC).
  assert (T : forall a w, 0 <= a -> 0 <= w -> a + w <= 128 -> slice a w R = slice a w x).
  { intros a w Ha Hw Haw. unfold R. rewrite slice_slice by lia. f_equal. lia. }
  rewrite !T in * by lia.
  rewrite <- (Z.shiftr_0_r (slice 0 64 x)) at 1 2 3. rewrite !(slice_shift_mask 0 64 0 44) by (lia || (unfold is_word; lia)).
  rewrite Z.shiftr_0_r, slice_join by (unfold is_word; lia). rewrite slice_shift_whole by lia.
  change (0 + 0) with 0. change (64 + 24) with 88. change (64 - 24) with 40. rewrite C0, C1, C2.
  set (C := PolySpec.clamp R) in *.
  split. { unfold val64. symmetry. apply limbs64_value. unfold is_word in *. lia. }
  split. { unfold r_ok64, slice. clearbody C. unfold is_word in WC. Z.to_euclidean_division_equations. lia. }
  split. { unfold ok64. lia. }
  split. { exists 0. reflexivity. }
  split; [apply word64_of_slice |]. split; [apply word64_of_slice |].
  unfold slice. clear. Z.to_euclidean_division_equations. lia.
Qed.

Lemma turn64_spec fin r0 r1 r2 h m : r_ok64 r0 r1 r2 -> ok64 h -> is_bytes m -> (16 <= length m)%nat ->
  let h' := P64.turn (hibit64 fin) r0 r1 r2 (u64 (r1 * 20)) (u64 (r2 * 20)) h m in
  ok64 h' /\ eqp (val64 h') ((val64 h + le_value (take 16 m) + (if fin then 0 else 2 ^ 128)) * val64 (r0, r1, r2)).
Proof.
  intros R O B L. unfold P64.turn.
  destruct (add64_spec fin h m O B L) as (a0 & a1 & a2 & -> & A0 & A1 & A2 & <-).
  destruct (mul64_spec r0 r1 r2 a0 a1 a2 R A0 A1 A2) as (d0 & d1 & d2 & -> & D0 & D1 & D2 & E).
  destruct (reduce64_spec d0 d1 d2 D0 D1 D2) as [O' E']. split; [exact O' |]. exact (eqp_trans _ _ _ E' E).
Qed.

Lemma eqp_step x a r b : eqp x a -> eqp ((x + b) * r) ((a + b) * r).
Proof. intros [k ->]. exists (k * r). ring. Qed.

Lemma eqp_sym x y : eqp x y -> eqp y x.
Proof. intros [k ->]. exists (- k). ring. Qed.

Lemma eqp_of_mod x : eqp x (x mod PolySpec.p).
Proof. exists (x / PolySpec.p). pose proof (Z_div_mod_eq_full x PolySpec.p). lia. Qed.

Lemma block64 l r s a m (fin : bool) : stands64 l r s a -> is_bytes m -> Zlen m = 16 ->
  stands64 (P64.blocks fin l m) r s ((a + le_value m + (if fin then 0 else 2 ^ 128)) * r mod PolySpec.p).
Proof.
  intros (Er & Ro & O & E & W0 & W1 & Es) B L. assert (Ln : length m = 16%nat) by (unfold Zlen in L; lia).
  unfold P64.blocks. assert (turns m = 1%nat) as -> by (unfold turns; rewrite L; reflexivity). cbn [while_blocks].
  destruct (turn64_spec fin _ _ _ _ m Ro O B ltac:(lia)) as [O' E'].
  change (if fin then 0 else u64 (Z.shiftl 1 40)) with (hibit64 fin).
  destruct (P64.turn _ _ _ _ _ _ _ m) as [[h0 h1] h2]. rewrite take_ge in E' by lia.
  unfold stands64. cbn [P64.r0 P64.r1 P64.r2 P64.h0 P64.h1 P64.h2 P64.pad0 P64.pad1]. repeat (split; [assumption |]).
  split; [| auto]. rewrite <- Er in E'. refine (eqp_trans _ _ _ E' _). rewrite <- !Z.add_assoc.
  refine (eqp_trans _ _ _ (eqp_step _ _ _ _ E) _). apply eqp_of_mod.
Qed.

(** ** The end of a MAC *)

(** After the carries the limbs are in range and stand for the same value below 2^130. *)
Lemma carry64_spec h0 h1 h2 : ok64 (h0, h1, h2) ->
  exists g0 g1 g2, P64.carry h0 h1 h2 = (g0, g1, g2) /\ 0 <= g0 < 2 ^ 44 /\ 0 <= g1 < 2 ^ 44 /\ 0 <= g2 < 2 ^ 42 /\
    eqp (val64 (g0, g1, g2)) (val64 (h0, h1, h2)).
Proof.
  intros (O0 & O1 & O2). unfold P64.carry. limbs_arith. cbv zeta.
  split_limb h1 (2 ^ 44) k1 b1 E1. drop_wraps. split_limb (h2 + k1) (2 ^ 42) k2 b2 E2. drop_wraps.
  split_limb (h0 + k2 * 5) (2 ^ 44) k3 b0 E3. drop_wraps. split_limb (b1 + k3) (2 ^ 44) k4 b1' E4. drop_wraps.
  split_limb (b2 + k4) (2 ^ 42) k5 b2' E5. drop_wraps. split_limb (b0 + k5 * 5) (2 ^ 44) k6 b0' E6. drop_wraps.
  do 3 eexists. split; [reflexivity |]. split; [lia |]. split; [lia |]. split; [lia |].
  exists (- k2 - k5). unfold val64, PolySpec.p. lia.
Qed.

(** The masks of [freeze]. *)
Lemma select w (b : bool) x y : 0 <= w -> is_word w x -> is_word w y ->
  Z.lor (Z.land x (Misc.mask w b)) (Z.land y (Misc.mask w (negb b))) = if b then x else y.
Proof.
  intros Hw Hx Hy. rewrite !land_mask by assumption. destruct b; cbn [negb]; [apply Z.lor_0_r | apply Z.lor_0_l].
Qed.

Lemma freeze64_spec h0 h1 h2 : 0 <= h0 < 2 ^ 44 -> 0 <= h1 < 2 ^ 44 -> 0 <= h2 < 2 ^ 42 ->
  exists g0 g1 g2, P64.freeze h0 h1 h2 = (g0, g1, g2) /\ 0 <= g0 < 2 ^ 44 /\ 0 <= g1 < 2 ^ 44 /\ 0 <= g2 < 2 ^ 42 /\
    val64 (g0, g1, g2) = val64 (h0, h1, h2) mod PolySpec.p.
Proof.
  intros O0 O1 O2. unfold P64.freeze. limbs_arith. cbv zeta. change (u64 (Z.shiftl 1 42)) with (2 ^ 42).
  drop_wraps. split_limb (h0 + 5) (2 ^ 44) k0 g0 E0. drop_wraps. split_limb (h1 + k0) (2 ^ 44) k1 g1 E1.
  rewrite (wrap_small 64 (h2 + k1)) by (unfold is_word; lia).
  set (lt := h2 + k1 <? 2 ^ 42).
  assert (Ec : wrap 64 (wrap 64 (h2 + k1 - 2 ^ 42) / 2 ^ 63 - 1) = Misc.mask 64 (negb lt)).
  { unfold lt. destruct (Z.ltb_spec (h2 + k1) (2 ^ 42)); cbn [negb]; unfold Misc.mask, wrap; Z.to_euclidean_division_equations; lia. }
  rewrite Ec, mask_cnot, negb_involutive, !select by (lia || (unfold is_word; lia) || (apply wrap_is_word; lia)).
  assert (Eg : wrap 64 (h2 + k1 - 2 ^ 42) = if lt then 2 ^ 64 + h2 + k1 - 2 ^ 42 else h2 + k1 - 2 ^ 42).
  { unfold lt. destruct (Z.ltb_spec (h2 + k1) (2 ^ 42)); unfold wrap; Z.to_euclidean_division_equations; lia. }
  rewrite Eg. do 3 eexists. split; [reflexivity |]. clear Ec Eg. unfold val64.
  subst lt. destruct (Z.ltb_spec (h2 + k1) (2 ^ 42)).
  - repeat (split; [lia |]). symmetry. apply Z.mod_small. unfold PolySpec.p. lia.
  - repeat (split; [lia |]). apply Z.mod_unique with 1; unfold PolySpec.p; lia.
Qed.

Lemma le_bytes_wrap n x : le_bytes n (wrap (8 * Z.of_nat n) x) = le_bytes n x.
Proof.
  rewrite <- le_value_bytes. rewrite <- (le_bytes_length n x) at 1. apply le_bytes_value, le_bytes_is_bytes.
Qed.

Lemma le_bytes_eq n x y : x mod 2 ^ (8 * Z.of_nat n) = y mod 2 ^ (8 * Z.of_nat n) -> le_bytes n x = le_bytes n y.
Proof. intros E. rewrite <- (le_bytes_wrap n x), <- (le_bytes_wrap n y). unfold wrap. now rewrite E. Qed.

Lemma le_bytes_join n k a b : is_word (8 * Z.of_nat n) a -> le_bytes n a ++ le_bytes k b = le_bytes (n + k) (a + b * 2 ^ (8 * Z.of_nat n)).
Proof.
  intros Ha. rewrite le_bytes_app. f_equal.
  - apply le_bytes_eq. now rewrite Z_mod_plus_full.
  - f_equal. rewrite Z.shiftr_div_pow2, Z.div_add by (try apply Z.pow_nonzero; lia). rewrite Z.div_small by exact Ha. lia.
Qed.

(** A word put together from the top of one limb and the bottom of the next. *)
Lemma join_limbs w k a b : 0 <= k <= w -> is_word k a -> 0 <= b ->
  Z.lor a (wrap w (Z.shiftl b k)) = a + b mod 2 ^ (w - k) * 2 ^ k.
Proof.
  intros Hk Ha Hb.
  assert (E : wrap w (Z.shiftl b k) = Z.shiftl (b mod 2 ^ (w - k)) k).
  { unfold wrap. rewrite !Z.shiftl_mul_pow2 by lia. replace (2 ^ w) with (2 ^ (w - k) * 2 ^ k) by (rewrite <- Z.pow_add_r by lia; f_equal; lia).
    apply Z.mul_mod_distr_r; apply Z.pow_nonzero; lia. }
  rewrite E. apply lor_add_shift; [lia | exact Ha].
Qed.

(** The pad added, and the 16 bytes. *)
Lemma pad64_spec g0 g1 g2 s0 s1 : 0 <= g0 < 2 ^ 44 -> 0 <= g1 < 2 ^ 44 -> 0 <= g2 < 2 ^ 42 -> is_word 64 s0 -> is_word 64 s1 ->
  let t0 := s0 in let t1 := s1 in
  let h0 := wrap 64 (g0 + Z.land t0 0xfffffffffff) in
  let c := Z.shiftr h0 44 in let h0 := Z.land h0 0xfffffffffff in
  let h1 := wrap 64 (g1 + wrap 64 (Z.land (Z.lor (Z.shiftr t0 44) (wrap 64 (Z.shiftl t1 20))) 0xfffffffffff + c)) in
  let c := Z.shiftr h1 44 in let h1 := Z.land h1 0xfffffffffff in
  let h2 := wrap 64 (g2 + wrap 64 (Z.land (Z.shiftr t1 24) 0x3ffffffffff + c)) in
  let h2 := Z.land h2 0x3ffffffffff in
  le_bytes 8 (Z.lor h0 (wrap 64 (Z.shiftl h1 44))) ++ le_bytes 8 (Z.lor (Z.shiftr h1 20) (wrap 64 (Z.shiftl h2 24))) =
  le_bytes 16 (val64 (g0, g1, g2) + (s0 + s1 * 2 ^ 64)).
Proof.
  intros G0 G1 G2 S0 S1. cbv zeta. set (S := s0 + s1 * 2 ^ 64).
  assert (T0 : s0 = slice 0 64 S) by (unfold slice, S, is_word in *; Z.to_euclidean_division_equations; lia).
  assert (T1 : s1 = slice 64 64 S) by (unfold slice, S, is_word in *; Z.to_euclidean_division_equations; lia).
  assert (WS : is_word 128 S) by (unfold S, is_word in *; lia). clearbody S.
  assert (L0 : Z.land s0 0xfffffffffff = slice 0 44 S).
  { rewrite T0, (land_low 44) by (lia || reflexivity). unfold slice. change (2 ^ 0) with 1. rewrite Z.div_1_r. apply (wrap_wrap 44 64). lia. }
  assert (L1 : Z.land (Z.lor (Z.shiftr s0 44) (wrap 64 (Z.shiftl s1 20))) 0xfffffffffff = slice 44 44 S).
  { rewrite T0, T1, slice_join, (land_low 44) by (lia || reflexivity || (unfold is_word; lia)). apply (wrap_small 44), slice_word. lia. }
  assert (L2 : Z.land (Z.shiftr s1 24) 0x3ffffffffff = slice 88 40 S).
  { rewrite T1, slice_shift_whole, (land_low 42) by (lia || reflexivity). change (64 + 24) with 88. change (64 - 24) with 40.
    apply (wrap_small 42). pose proof (slice_word 88 40 S ltac:(lia)). unfold is_word in *. lia. }
  rewrite L0, L1, L2. clear L0 L1 L2 T0 T1. pose proof (limbs64_value S WS) as V.
  pose proof (slice_word 0 44 S ltac:(lia)) as W0. pose proof (slice_word 44 44 S ltac:(lia)) as W1. pose proof (slice_word 88 40 S ltac:(lia)) as W2.
  unfold is_word in W0, W1, W2. set (x0 := slice 0 44 S) in *. set (x1 := slice 44 44 S) in *. set (x2 := slice 88 40 S) in *. clearbody x0 x1 x2.
  rewrite !(land_low 44 0xfffffffffff), !(land_low 42 0x3ffffffffff) by (lia || reflexivity). rewrite !(Z.shiftr_div_pow2 _ 44) by lia.
  drop_wraps. split_limb (g0 + x0) (2 ^ 44) k0 y0 E0. drop_wraps.
  split_limb (g1 + (x1 + k0)) (2 ^ 44) k1 y1 E1. drop_wraps. split_limb (g2 + (x2 + k1)) (2 ^ 42) k2 y2 E2.
  rewrite (join_limbs 64 44), (Z.shiftr_div_pow2 y1 20), (join_limbs 64 24) by (unfold is_word; Z.to_euclidean_division_equations; lia).
  change (64 - 44) with 20. change (64 - 24) with 40.
  rewrite (le_bytes_join 8 8) by (unfold is_word; change (8 * Z.of_nat 8) with 64; Z.to_euclidean_division_equations; lia).
  change (8 + 8)%nat with 16%nat. apply le_bytes_eq. change (8 * Z.of_nat 8) with 64. change (8 * Z.of_nat 16) with 128. unfold val64. rewrite <- V.
  assert (Es : g0 + g1 * 2 ^ 44 + g2 * 2 ^ 88 + (x0 + x1 * 2 ^ 44 + x2 * 2 ^ 88) = y0 + y1 * 2 ^ 44 + y2 * 2 ^ 88 + 4 * k2 * 2 ^ 128) by lia.
  rewrite Es, Z_mod_plus_full. clear - H H0 H1. Z.to_euclidean_division_equations. lia.
Qed.

Lemma final64 l r s a : stands64 l r s a -> fst (P64.final l) = le_bytes 16 (a mod PolySpec.p + s).
Proof.
  intros (_ & _ & O & E & W0 & W1 & ->). unfold P64.final.
  destruct (carry64_spec _ _ _ O) as (c0 & c1 & c2 & -> & C0 & C1 & C2 & Ec).
  destruct (freeze64_spec c0 c1 c2 C0 C1 C2) as (g0 & g1 & g2 & -> & G0 & G1 & G2 & Eg).
  rewrite (eqp_mod _ _ (eqp_trans _ _ _ Ec E)) in Eg. rewrite <- Eg.
  rewrite <- (pad64_spec g0 g1 g2 (P64.pad0 l) (P64.pad1 l)) by assumption. cbv zeta. cbn [fst]. unfold P64.U64TO8.
  cbn [le_bytes]. rewrite !Z.shiftr_shiftr by lia. reflexivity.
Qed.

Lemma U8TO64_app l l' : (8 <= length l)%nat -> P64.U8TO64 (l ++ l') = P64.U8TO64 l.
Proof. intros L. unfold P64.U8TO64. now rewrite !rd_app_l by (unfold Zlen; lia). Qed.

Lemma turns_app m m' : Zlen m = 16 -> turns (m ++ m') = S (turns m').
Proof.
  intros L. unfold turns. rewrite Zlen_app, L. change POLY1305_BLOCK_SIZE with 16. pose proof (Zlen_nonneg m').
  replace (16 + Zlen m') with (Zlen m' + 1 * 16) by lia. rewrite Z.div_add by lia. assert (0 <= Zlen m' / 16) by (apply Z.div_pos; lia). lia.
Qed.

Lemma while_blocks_app {A} (turn : A -> list Z -> A) h m m' : Zlen m = 16 -> (forall h, turn h (m ++ m') = turn h m) ->
  while_blocks turn (turns (m ++ m')) h (m ++ m') = while_blocks turn (turns m') (while_blocks turn (turns m) h m) m'.
Proof.
  intros L E. rewrite turns_app by exact L. assert (turns m = 1%nat) as -> by (unfold turns; rewrite L; reflexivity).
  cbn [while_blocks]. rewrite E. rewrite drop_app_length' by (unfold Zlen in L; lia). reflexivity.
Qed.

Lemma blocks64_app l m m' fin : Zlen m = 16 -> P64.blocks fin l (m ++ m') = P64.blocks fin (P64.blocks fin l m) m'.
Proof.
  intros L. assert (Ln : length m = 16%nat) by (unfold Zlen in L; lia). unfold P64.blocks.
  rewrite while_blocks_app; [| exact L |].
  - destruct (while_blocks _ (turns m) _ m) as [[a0 a1] a2]. reflexivity.
  - intros [[a0 a1] a2]. unfold P64.turn, P64.add_block. rewrite drop_app_le, !U8TO64_app by (rewrite ?length_drop; lia). reflexivity.
Qed.

#[export] Program Instance Poly64_laws : PolyLaws Poly64 := {| stands := stands64 |}.
Next Obligation. exact setkey64. Qed.
Next Obligation. exact block64. Qed.
Next Obligation. intros. now apply blocks64_app. Qed.
Next Obligation. intros l fin. destruct l. unfold c_blocks, Poly64, P64.blocks. reflexivity. Qed.
Next Obligation. exact final64. Qed.

(** *** Limbs of 26 bits *)

Definition val32 (h : Z * Z * Z * Z * Z) : Z :=
  let '(h0, h1, h2, h3, h4) := h in h0 + h1 * 2 ^ 26 + h2 * 2 ^ 52 + h3 * 2 ^ 78 + h4 * 2 ^ 104.
Definition ok32 (h : Z * Z * Z * Z * Z) : Prop :=
  let '(h0, h1, h2, h3, h4) := h in
  0 <= h0 < 2 ^ 26 /\ 0 <= h1 < 2 ^ 26 + 2 ^ 6 /\ 0 <= h2 < 2 ^ 26 /\ 0 <= h3 < 2 ^ 26 /\ 0 <= h4 < 2 ^ 26.

Lemma reduce32_spec d0 d1 d2 d3 d4 :
  0 <= d0 < 2 ^ 57 + 2 ^ 56 -> 0 <= d1 < 2 ^ 57 -> 0 <= d2 < 2 ^ 57 -> 0 <= d3 < 2 ^ 57 -> 0 <= d4 < 2 ^ 55 + 2 ^ 53 ->
  ok32 (P32.reduce (d0, d1, d2, d3, d4)) /\
  eqp (val32 (P32.reduce (d0, d1, d2, d3, d4))) (d0 + d1 * 2 ^ 26 + d2 * 2 ^ 52 + d3 * 2 ^ 78 + d4 * 2 ^ 104).
Proof.
  intros R0 R1 R2 R3 R4. unfold P32.reduce. limbs_arith. rewrite !(low_bits 32) by lia. cbv zeta.
  split_limb d0 (2 ^ 26) c0 a0 E0. drop_wraps. split_limb (d1 + c0) (2 ^ 26) c1 a1 E1. drop_wraps.
  split_limb (d2 + c1) (2 ^ 26) c2 a2 E2. drop_wraps. split_limb (d3 + c2) (2 ^ 26) c3 a3 E3. drop_wraps.
  split_limb (d4 + c3) (2 ^ 26) c4 a4 E4. drop_wraps. split_limb (a0 + c4 * 5) (2 ^ 26) c5 b0 E5. drop_wraps.
  unfold ok32, val32. split; [lia |]. exists (- c4). unfold PolySpec.p. lia.
Qed.

Definition r_ok32 (r0 r1 r2 r3 r4 : Z) : Prop :=
  0 <= r0 < 2 ^ 26 /\ 0 <= r1 < 2 ^ 26 /\ 0 <= r2 < 2 ^ 26 /\ 0 <= r3 < 2 ^ 26 /\ 0 <= r4 < 2 ^ 20.

Lemma dot_spec a0 b0 a1 b1 a2 b2 a3 b3 a4 b4 A B0 B1 B2 B3 B4 :
  0 <= a0 <= A -> 0 <= a1 <= A -> 0 <= a2 <= A -> 0 <= a3 <= A -> 0 <= a4 <= A ->
  0 <= b0 <= B0 -> 0 <= b1 <= B1 -> 0 <= b2 <= B2 -> 0 <= b3 <= B3 -> 0 <= b4 <= B4 ->
  A * (B0 + B1 + B2 + B3 + B4) < 2 ^ 64 ->
  P32.dot a0 b0 a1 b1 a2 b2 a3 b3 a4 b4 = a0 * b0 + a1 * b1 + a2 * b2 + a3 * b3 + a4 * b4 /\
  0 <= a0 * b0 + a1 * b1 + a2 * b2 + a3 * b3 + a4 * b4 <= A * (B0 + B1 + B2 + B3 + B4).
Proof.
  intros A0 A1 A2 A3 A4 b0_ b1_ b2_ b3_ b4_ H.
  pose proof (mul_range a0 b0 A B0 A0 b0_). pose proof (mul_range a1 b1 A B1 A1 b1_). pose proof (mul_range a2 b2 A B2 A2 b2_).
  pose proof (mul_range a3 b3 A B3 A3 b3_). pose proof (mul_range a4 b4 A B4 A4 b4_).
  rewrite !Z.mul_add_distr_l in *. unfold P32.dot. drop_wraps. split; [reflexivity | lia].
Qed.

Lemma mul32_spec r0 r1 r2 r3 r4 h0 h1 h2 h3 h4 : r_ok32 r0 r1 r2 r3 r4 ->
  0 <= h0 <= 2 ^ 27 + 2 ^ 6 -> 0 <= h1 <= 2 ^ 27 + 2 ^ 6 -> 0 <= h2 <= 2 ^ 27 + 2 ^ 6 -> 0 <= h3 <= 2 ^ 27 + 2 ^ 6 -> 0 <= h4 <= 2 ^ 27 + 2 ^ 6 ->
  exists d0 d1 d2 d3 d4,
    P32.mul_r r0 r1 r2 r3 r4 (u32 (r1 * 5)) (u32 (r2 * 5)) (u32 (r3 * 5)) (u32 (r4 * 5)) (h0, h1, h2, h3, h4) = (d0, d1, d2, d3, d4) /\
    0 <= d0 < 2 ^ 57 + 2 ^ 56 /\ 0 <= d1 < 2 ^ 57 /\ 0 <= d2 < 2 ^ 57 /\ 0 <= d3 < 2 ^ 57 /\ 0 <= d4 < 2 ^ 55 + 2 ^ 53 /\
    eqp (d0 + d1 * 2 ^ 26 + d2 * 2 ^ 52 + d3 * 2 ^ 78 + d4 * 2 ^ 104) (val32 (h0, h1, h2, h3, h4) * val32 (r0, r1, r2, r3, r4)).
Proof.
  intros (R0 & R1 & R2 & R3 & R4) H0 H1 H2 H3 H4. unfold P32.mul_r.
  rewrite !(wrap_small 32) by (unfold is_word; lia).
  set (A := 2 ^ 27 + 2 ^ 6) in *. set (B := 2 ^ 26). set (C := 5 * 2 ^ 26). set (T := 2 ^ 20). set (U := 5 * 2 ^ 20).
  destruct (dot_spec h0 r0 h1 (r4 * 5) h2 (r3 * 5) h3 (r2 * 5) h4 (r1 * 5) A B U C C C) as [-> D0]; try (subst A B C T U; lia).
  destruct (dot_spec h0 r1 h1 r0 h2 (r4 * 5) h3 (r3 * 5) h4 (r2 * 5) A B B U C C) as [-> D1]; try (subst A B C T U; lia).
  destruct (dot_spec h0 r2 h1 r1 h2 r0 h3 (r4 * 5) h4 (r3 * 5) A B B B U C) as [-> D2]; try (subst A B C T U; lia).
  destruct (dot_spec h0 r3 h1 r2 h2 r1 h3 r0 h4 (r4 * 5) A B B B B U) as [-> D3]; try (subst A B C T U; lia).
  destruct (dot_spec h0 r4 h1 r3 h2 r2 h3 r1 h4 r0 A T B B B B) as [-> D4]; try (subst A B C T U; lia).
  subst A B C T U. do 5 eexists. split; [reflexivity |]. repeat (split; [lia |]).
  unfold val32, eqp, PolySpec.p.
  exists (- ((h1 * r4 + h2 * r3 + h3 * r2 + h4 * r1) + 2 ^ 26 * (h2 * r4 + h3 * r3 + h4 * r2) + 2 ^ 52 * (h3 * r4 + h4 * r3) + 2 ^ 78 * (h4 * r4))).
  ring.
Qed.

Definition hibit32 (fin : bool) : Z := if fin then 0 else u32 (Z.shiftl 1 24).

(** The limbs the code cuts out of a block or a key. *)
Lemma limbs32_cut l x m0 m1 m2 m3 : is_bytes l -> (16 <= length l)%nat -> x = le_value l ->
  is_word 26 m0 -> is_word 26 m1 -> is_word 26 m2 -> is_word 26 m3 ->
  Z.land (P32.U8TO32 l) m0 = Z.land (slice 0 26 x) m0 /\
  Z.land (Z.shiftr (P32.U8TO32 (drop 3 l)) 2) m1 = Z.land (slice 26 26 x) m1 /\
  Z.land (Z.shiftr (P32.U8TO32 (drop 6 l)) 4) m2 = Z.land (slice 52 26 x) m2 /\
  Z.land (Z.shiftr (P32.U8TO32 (drop 9 l)) 6) m3 = Z.land (slice 78 26 x) m3 /\
  Z.shiftr (P32.U8TO32 (drop 12 l)) 8 = slice 104 24 x.
Proof.
  intros B L -> W0 W1 W2 W3.
  pose proof (U8TO32_slice l 0 B ltac:(lia)) as E0. rewrite drop_0 in E0. rewrite E0, !U8TO32_slice by (auto; lia).
  rewrite <- (Z.shiftr_0_r (slice (8 * Z.of_nat 0) 32 (le_value l))).
  rewrite !slice_shift_mask with (v := 26) by (lia || assumption). rewrite slice_shift_whole by lia. repeat split; reflexivity.
Qed.

Lemma ones26 : is_word 26 0x3ffffff.
Proof. unfold is_word. lia. Qed.

Lemma land26 a x : Z.land (slice a 26 x) 0x3ffffff = slice a 26 x.
Proof. rewrite (land_low 26) by (lia || reflexivity). apply (wrap_small 26), slice_word. lia. Qed.

Lemma add32_spec fin h m : ok32 h -> is_bytes m -> length m = 16%nat ->
  exists h0 h1 h2 h3 h4, P32.add_block (hibit32 fin) h m = (h0, h1, h2, h3, h4) /\
    0 <= h0 <= 2 ^ 27 + 2 ^ 6 /\ 0 <= h1 <= 2 ^ 27 + 2 ^ 6 /\ 0 <= h2 <= 2 ^ 27 + 2 ^ 6 /\ 0 <= h3 <= 2 ^ 27 + 2 ^ 6 /\ 0 <= h4 <= 2 ^ 27 + 2 ^ 6 /\
    val32 (h0, h1, h2, h3, h4) = val32 h + le_value m + (if fin then 0 else 2 ^ 128).
Proof.
  intros O B L. destruct h as [[[[h0 h1] h2] h3] h4]. destruct O as (O0 & O1 & O2 & O3 & O4). unfold P32.add_block.
  destruct (limbs32_cut m (le_value m) 0x3ffffff 0x3ffffff 0x3ffffff 0x3ffffff B ltac:(lia) eq_refl ones26 ones26 ones26 ones26) as (-> & -> & -> & -> & ->).
  rewrite !land26. set (y := le_value m).
  assert (Wy : is_word 128 y) by (pose proof (le_value_bound m B) as R; unfold Zlen in R; rewrite L in R; exact R).
  pose proof (limbs32_value y Wy) as V.
  pose proof (slice_word 0 26 y ltac:(lia)) as W0. pose proof (slice_word 26 26 y ltac:(lia)) as W1. pose proof (slice_word 52 26 y ltac:(lia)) as W2.
  pose proof (slice_word 78 26 y ltac:(lia)) as W3. pose proof (slice_word 104 24 y ltac:(lia)) as W4.
  assert (Eh : Z.lor (slice 104 24 y) (hibit32 fin) = slice 104 24 y + (if fin then 0 else 2 ^ 24)).
  { unfold hibit32. destruct fin; [rewrite Z.lor_0_r; lia | exact (lor_hibit _ 24 ltac:(lia) W4)]. }
  rewrite Eh. unfold is_word in *. unfold val32.
  rewrite !(wrap_small 32) by (unfold is_word; destruct fin; lia).
  do 5 eexists. split; [reflexivity |]. destruct fin; repeat split; lia.
Qed.

Definition stands32 (l : P32.limbs) (r s a : Z) : Prop :=
  r = val32 (P32.r0 l, P32.r1 l, P32.r2 l, P32.r3 l, P32.r4 l) /\ r_ok32 (P32.r0 l) (P32.r1 l) (P32.r2 l) (P32.r3 l) (P32.r4 l) /\
  ok32 (P32.h0 l, P32.h1 l, P32.h2 l, P32.h3 l, P32.h4 l) /\ eqp (val32 (P32.h0 l, P32.h1 l, P32.h2 l, P32.h3 l, P32.h4 l)) a /\
  is_word 32 (P32.pad0 l) /\ is_word 32 (P32.pad1 l) /\ is_word 32 (P32.pad2 l) /\ is_word 32 (P32.pad3 l) /\
  s = P32.pad0 l + P32.pad1 l * 2 ^ 32 + P32.pad2 l * 2 ^ 64 + P32.pad3 l * 2 ^ 96.

Lemma setkey32 key : is_bytes key -> Zlen key = 32 ->
  stands32 (P32.setkey key) (PolySpec.clamp (le_value (take 16 key))) (le_value (drop 16 key)) 0.
Proof.
  intros B L. assert (Ln : length key = 32%nat) by (unfold Zlen in L; lia).
  unfold P32.setkey, stands32. cbn [P32.r0 P32.r1 P32.r2 P32.r3 P32.r4 P32.h0 P32.h1 P32.h2 P32.h3 P32.h4 P32.pad0 P32.pad1 P32.pad2 P32.pad3].
  destruct (limbs32_cut key (le_value key) 0x3ffffff 0x3ffff03 0x3ffc0ff 0x3f03fff B ltac:(lia) eq_refl) as (-> & -> & -> & -> & ->);
    [unfold is_word; lia.. |].
  rewrite !U8TO32_slice by (auto; lia). set (x := le_value key).
  assert (ER : le_value (take 16 key) = slice 0 128 x) by (rewrite <- (drop_0 key) at 1; exact (le_value_slice key 0 16 B)).
  assert (ES : le_value (drop 16 key) = slice 128 128 x).
  { rewrite <- (take_ge (drop 16 key) 16) by (rewrite length_drop; lia). exact (le_value_slice key 16 16 B). }
  rewrite ER, ES. set (R := slice 0 128 x). set (C := PolySpec.clamp R).
  assert (T : forall a w, 0 <= a -> 0 <= w -> a + w <= 128 -> slice a w x = slice a w R).
  { intros a w Ha Hw Haw. unfold R. rewrite slice_slice by lia. f_equal. lia. }
  rewrite (T 0 26), (T 26 26), (T 52 26), (T 78 26), (T 104 24) by lia.
  destruct (clamp64 R (slice_word 0 128 x ltac:(lia))) as (_ & _ & _ & WC). fold C in WC.
  assert (EC : Z.land (slice 0 26 R) 0x3ffffff = slice 0 26 C /\ Z.land (slice 26 26 R) 0x3ffff03 = slice 26 26 C /\
               Z.land (slice 52 26 R) 0x3ffc0ff = slice 52 26 C /\ Z.land (slice 78 26 R) 0x3f03fff = slice 78 26 C /\
               Z.land (slice 104 24 R) 0x00fffff = slice 104 24 C).
  { unfold C, PolySpec.clamp. rewrite !slice_land by lia. repeat split; reflexivity. }
  destruct EC as (-> & -> & -> & -> & ->). clearbody C.
  split. { unfold val32. symmetry. apply limbs32_value. unfold is_word in *. lia. }
  split. { unfold r_ok32, slice. unfold is_word in WC. Z.to_euclidean_division_equations. lia. }
  split. { unfold ok32. lia. }
  split. { exists 0. reflexivity. }
  do 4 (split; [apply slice_word; lia |]).
  change (8 * Z.of_nat 16) with 128. change (8 * Z.of_nat 20) with 160. change (8 * Z.of_nat 24) with 192. change (8 * Z.of_nat 28) with 224.
  unfold slice. clear. Z.to_euclidean_division_equations. lia.
Qed.

Lemma turn32_spec fin r0 r1 r2 r3 r4 h m : r_ok32 r0 r1 r2 r3 r4 -> ok32 h -> is_bytes m -> length m = 16%nat ->
  let h' := P32.turn (hibit32 fin) r0 r1 r2 r3 r4 (u32 (r1 * 5)) (u32 (r2 * 5)) (u32 (r3 * 5)) (u32 (r4 * 5)) h m in
  ok32 h' /\ eqp (val32 h') ((val32 h + le_value m + (if fin then 0 else 2 ^ 128)) * val32 (r0, r1, r2, r3, r4)).
Proof.
  intros R O B L. unfold P32.turn.
  destruct (add32_spec fin h m O B L) as (a0 & a1 & a2 & a3 & a4 & -> & A0 & A1 & A2 & A3 & A4 & <-).
  destruct (mul32_spec r0 r1 r2 r3 r4 a0 a1 a2 a3 a4 R A0 A1 A2 A3 A4) as (d0 & d1 & d2 & d3 & d4 & -> & D0 & D1 & D2 & D3 & D4 & E).
  destruct (reduce32_spec d0 d1 d2 d3 d4 D0 D1 D2 D3 D4) as [O' E']. split; [exact O' |]. exact (eqp_trans _ _ _ E' E).
Qed.

Lemma block32 l r s a m (fin : bool) : stands32 l r s a -> is_bytes m -> Zlen m = 16 ->
  stands32 (P32.blocks fin l m) r s ((a + le_value m + (if fin then 0 else 2 ^ 128)) * r mod PolySpec.p).
Proof.
  intros (Er & Ro & O & E & Pads) B L. assert (Ln : length m = 16%nat) by (unfold Zlen in L; lia).
  unfold P32.blocks. assert (turns m = 1%nat) as -> by (unfold turns; rewrite L; reflexivity). cbn [while_blocks].
  destruct (turn32_spec fin _ _ _ _ _ _ m Ro O B Ln) as [O' E'].
  change (if fin then 0 else u32 (Z.shiftl 1 24)) with (hibit32 fin).
  destruct (P32.turn _ _ _ _ _ _ _ _ _ _ _ m) as [[[[h0 h1] h2] h3] h4].
  unfold stands32. cbn [P32.r0 P32.r1 P32.r2 P32.r3 P32.r4 P32.h0 P32.h1 P32.h2 P32.h3 P32.h4 P32.pad0 P32.pad1 P32.pad2 P32.pad3].
  repeat (split; [assumption |]). split; [| exact Pads]. rewrite <- Er in E'. refine (eqp_trans _ _ _ E' _). rewrite <- !Z.add_assoc.
  refine (eqp_trans _ _ _ (eqp_step _ _ _ _ E) _). apply eqp_of_mod.
Qed.

Lemma U8TO32_app l l' : (4 <= length l)%nat -> P32.U8TO32 (l ++ l') = P32.U8TO32 l.
Proof. intros L. unfold P32.U8TO32. now rewrite !rd_app_l by (unfold Zlen; lia). Qed.

Lemma blocks32_app l m m' fin : Zlen m = 16 -> P32.blocks fin l (m ++ m') = P32.blocks fin (P32.blocks fin l m) m'.
Proof.
  intros L. assert (Ln : length m = 16%nat) by (unfold Zlen in L; lia). unfold P32.blocks.
  rewrite while_blocks_app; [| exact L |].
  - destruct (while_blocks _ (turns m) _ m) as [[[[a0 a1] a2] a3] a4]. reflexivity.
  - intros [[[[a0 a1] a2] a3] a4]. unfold P32.turn, P32.add_block.
    rewrite !drop_app_le, !U8TO32_app by (rewrite ?length_drop; lia). reflexivity.
Qed.

Lemma carry32_spec h0 h1 h2 h3 h4 : ok32 (h0, h1, h2, h3, h4) ->
  exists g0 g1 g2 g3 g4, P32.carry h0 h1 h2 h3 h4 = (g0, g1, g2, g3, g4) /\
    0 <= g0 < 2 ^ 26 /\ 0 <= g1 < 2 ^ 26 /\ 0 <= g2 < 2 ^ 26 /\ 0 <= g3 < 2 ^ 26 /\ 0 <= g4 < 2 ^ 26 /\
    eqp (val32 (g0, g1, g2, g3, g4)) (val32 (h0, h1, h2, h3, h4)).
Proof.
  intros (O0 & O1 & O2 & O3 & O4). unfold P32.carry. limbs_arith. cbv zeta.
  split_limb h1 (2 ^ 26) k1 b1 E1. drop_wraps. split_limb (h2 + k1) (2 ^ 26) k2 b2 E2. drop_wraps.
  split_limb (h3 + k2) (2 ^ 26) k3 b3 E3. drop_wraps. split_limb (h4 + k3) (2 ^ 26) k4 b4 E4. drop_wraps.
  split_limb (h0 + k4 * 5) (2 ^ 26) k5 b0 E5. drop_wraps.
  do 5 eexists. split; [reflexivity |]. repeat (split; [lia |]).
  exists (- k4). unfold val32, PolySpec.p. lia.
Qed.

Lemma freeze32_spec h0 h1 h2 h3 h4 : 0 <= h0 < 2 ^ 26 -> 0 <= h1 < 2 ^ 26 -> 0 <= h2 < 2 ^ 26 -> 0 <= h3 < 2 ^ 26 -> 0 <= h4 < 2 ^ 26 ->
  exists g0 g1 g2 g3 g4, P32.freeze h0 h1 h2 h3 h4 = (g0, g1, g2, g3, g4) /\
    0 <= g0 < 2 ^ 26 /\ 0 <= g1 < 2 ^ 26 /\ 0 <= g2 < 2 ^ 26 /\ 0 <= g3 < 2 ^ 26 /\ 0 <= g4 < 2 ^ 26 /\
    val32 (g0, g1, g2, g3, g4) = val32 (h0, h1, h2, h3, h4) mod PolySpec.p.
Proof.
  intros O0 O1 O2 O3 O4. unfold P32.freeze. limbs_arith. cbv zeta. change (u32 (Z.shiftl 1 26)) with (2 ^ 26).
  drop_wraps. split_limb (h0 + 5) (2 ^ 26) k0 g0 E0. drop_wraps. split_limb (h1 + k0) (2 ^ 26) k1 g1 E1. drop_wraps.
  split_limb (h2 + k1) (2 ^ 26) k2 g2 E2. drop_wraps. split_limb (h3 + k2) (2 ^ 26) k3 g3 E3.
  rewrite (wrap_small 32 (h4 + k3)) by (unfold is_word; lia).
  set (lt := h4 + k3 <? 2 ^ 26).
  assert (Ec : wrap 32 (wrap 32 (h4 + k3 - 2 ^ 26) / 2 ^ 31 - 1) = Misc.mask 32 (negb lt)).
  { unfold lt. destruct (Z.ltb_spec (h4 + k3) (2 ^ 26)); cbn [negb]; unfold Misc.mask, wrap; Z.to_euclidean_division_equations; lia. }
  rewrite Ec, mask_cnot, negb_involutive, !select by (lia || (unfold is_word; lia) || (apply wrap_is_word; lia)).
  assert (Eg : wrap 32 (h4 + k3 - 2 ^ 26) = if lt then 2 ^ 32 + h4 + k3 - 2 ^ 26 else h4 + k3 - 2 ^ 26).
  { unfold lt. destruct (Z.ltb_spec (h4 + k3) (2 ^ 26)); unfold wrap; Z.to_euclidean_division_equations; lia. }
  rewrite Eg. do 5 eexists. split; [reflexivity |]. clear Ec Eg. unfold val32.
  subst lt. destruct (Z.ltb_spec (h4 + k3) (2 ^ 26)).
  - repeat (split; [lia |]). symmetry. apply Z.mod_small. unfold PolySpec.p. lia.
  - repeat (split; [lia |]). apply Z.mod_unique with 1; unfold PolySpec.p; lia.
Qed.

(** Four words out of five limbs. *)
Lemma words32 g0 g1 g2 g3 g4 : 0 <= g0 < 2 ^ 26 -> 0 <= g1 < 2 ^ 26 -> 0 <= g2 < 2 ^ 26 -> 0 <= g3 < 2 ^ 26 -> 0 <= g4 < 2 ^ 26 ->
  exists w0 w1 w2 w3,
    Z.land (Z.lor g0 (wrap 32 (Z.shiftl g1 26))) 0xffffffff = w0 /\ Z.land (Z.lor (Z.shiftr g1 6) (wrap 32 (Z.shiftl g2 20))) 0xffffffff = w1 /\
    Z.land (Z.lor (Z.shiftr g2 12) (wrap 32 (Z.shiftl g3 14))) 0xffffffff = w2 /\
    Z.land (Z.lor (Z.shiftr g3 18) (wrap 32 (Z.shiftl g4 8))) 0xffffffff = w3 /\
    is_word 32 w0 /\ is_word 32 w1 /\ is_word 32 w2 /\ is_word 32 w3 /\
    (w0 + w1 * 2 ^ 32 + w2 * 2 ^ 64 + w3 * 2 ^ 96) = val32 (g0, g1, g2, g3, g4) mod 2 ^ 128.
Proof.
  intros G0 G1 G2 G3 G4. rewrite !(Z.shiftr_div_pow2) by lia.
  rewrite (join_limbs 32 26), (join_limbs 32 20), (join_limbs 32 14), (join_limbs 32 8)
    by (unfold is_word; Z.to_euclidean_division_equations; lia).
  change (32 - 26) with 6. change (32 - 20) with 12. change (32 - 14) with 18. change (32 - 8) with 24.
  rewrite !(land_low 32 0xffffffff) by (lia || reflexivity).
  split_limb g1 (2 ^ 6) k1 b1 E1. split_limb g2 (2 ^ 12) k2 b2 E2. split_limb g3 (2 ^ 18) k3 b3 E3. split_limb g4 (2 ^ 24) k4 b4 E4.
  rewrite !(Z.mod_small _ (2 ^ 32)) by lia.
  do 4 eexists. do 4 (split; [reflexivity |]). unfold is_word. do 4 (split; [lia |]).
  unfold val32. apply Z.mod_unique with k4; lia.
Qed.

Lemma U32TO8_spec v : P32.U32TO8 v = le_bytes 4 v.
Proof.
  unfold P32.U32TO8. cbn [le_bytes]. rewrite !Z.shiftr_shiftr by lia. change 255 with (Z.ones 8). rewrite !Z.land_ones by lia.
  unfold wrap. now rewrite !Z.mod_mod by lia.
Qed.

(** The pad added, word by word. *)
Lemma pad32_spec w0 w1 w2 w3 p0 p1 p2 p3 : is_word 32 w0 -> is_word 32 w1 -> is_word 32 w2 -> is_word 32 w3 ->
  is_word 32 p0 -> is_word 32 p1 -> is_word 32 p2 -> is_word 32 p3 ->
  let f0 := wrap 64 (w0 + p0) in
  let f1 := wrap 64 (wrap 64 (w1 + p1) + Z.shiftr f0 32) in
  let f2 := wrap 64 (wrap 64 (w2 + p2) + Z.shiftr f1 32) in
  let f3 := wrap 64 (wrap 64 (w3 + p3) + Z.shiftr f2 32) in
  le_bytes 4 (u32 f0) ++ le_bytes 4 (u32 f1) ++ le_bytes 4 (u32 f2) ++ le_bytes 4 (u32 f3) =
  le_bytes 16 (w0 + w1 * 2 ^ 32 + w2 * 2 ^ 64 + w3 * 2 ^ 96 + (p0 + p1 * 2 ^ 32 + p2 * 2 ^ 64 + p3 * 2 ^ 96)).
Proof.
  unfold is_word. intros W0 W1 W2 W3 P0 P1 P2 P3. cbv zeta. rewrite !Z.shiftr_div_pow2 by lia.
  rewrite (wrap_small 64 (w0 + p0)), (wrap_small 64 (w1 + p1)), (wrap_small 64 (w2 + p2)), (wrap_small 64 (w3 + p3)) by (unfold is_word; lia).
  unfold wrap at 1. change (2 ^ 32) with (2 ^ 32) at 1. split_limb (w0 + p0) (2 ^ 32) k0 y0 E0.
  rewrite (wrap_small 64 (w1 + p1 + k0)) by (unfold is_word; lia).
  unfold wrap at 1. split_limb (w1 + p1 + k0) (2 ^ 32) k1 y1 E1.
  rewrite (wrap_small 64 (w2 + p2 + k1)) by (unfold is_word; lia).
  unfold wrap at 1. split_limb (w2 + p2 + k1) (2 ^ 32) k2 y2 E2.
  rewrite (wrap_small 64 (w3 + p3 + k2)) by (unfold is_word; lia).
  unfold wrap at 1. split_limb (w3 + p3 + k2) (2 ^ 32) k3 y3 E3.
  rewrite (le_bytes_join 4 4 y2) by (unfold is_word; change (8 * Z.of_nat 4) with 32; lia).
  rewrite (le_bytes_join 4 8 y1) by (unfold is_word; change (8 * Z.of_nat 4) with 32; lia).
  rewrite (le_bytes_join 4 12 y0) by (unfold is_word; change (8 * Z.of_nat 4) with 32; lia).
  apply le_bytes_eq. change (8 * Z.of_nat 16) with 128. change (8 * Z.of_nat 4) with 32.
  rewrite <- (Z_mod_plus_full _ k3). f_equal. lia.
Qed.

Lemma final32 l r s a : stands32 l r s a -> fst (P32.final l) = le_bytes 16 (a mod PolySpec.p + s).
Proof.
  intros (_ & _ & O & E & W0 & W1 & W2 & W3 & ->). unfold P32.final.
  destruct (carry32_spec _ _ _ _ _ O) as (c0 & c1 & c2 & c3 & c4 & -> & C0 & C1 & C2 & C3 & C4 & Ec).
  destruct (freeze32_spec c0 c1 c2 c3 c4 C0 C1 C2 C3 C4) as (g0 & g1 & g2 & g3 & g4 & -> & G0 & G1 & G2 & G3 & G4 & Eg).
  rewrite (eqp_mod _ _ (eqp_trans _ _ _ Ec E)) in Eg.
  destruct (words32 g0 g1 g2 g3 g4 G0 G1 G2 G3 G4) as (w0 & w1 & w2 & w3 & -> & -> & -> & -> & V0 & V1 & V2 & V3 & V).
  cbv zeta. cbn [fst]. rewrite !U32TO8_spec, pad32_spec by assumption. apply le_bytes_eq. change (8 * Z.of_nat 16) with 128.
  rewrite V, Eg. apply Z.add_mod_idemp_l. discriminate.
Qed.

#[export] Program Instance Poly32_laws : PolyLaws Poly32 := {| stands := stands32 |}.
Next Obligation. exact setkey32. Qed.
Next Obligation. exact block32. Qed.
Next Obligation. intros. now apply blocks32_app. Qed.
Next Obligation. intros l fin. destruct l. unfold c_blocks, Poly32, P32.blocks. reflexivity. Qed.
Next Obligation. exact final32. Qed.

(** ** Both builds *)

(** The tag of a message handed over in the pieces [ds]. *)
Definition poly1305_tag `{P : PolyOps} (c : Poly1305) (key : list Z) (ds : list (list Z)) : Z * list Z :=
  fst (wc_Poly1305Final (fold_left (fun c d => snd (wc_Poly1305Update c d)) ds (snd (wc_Poly1305SetKey c key)))).

Lemma tag_spec {P : PolyOps} {L : PolyLaws P} c key ds : is_bytes key -> Zlen key = 32 -> length (buffer c) = 16%nat ->
  Forall is_bytes ds -> Forall (fun d => Zlen d < 2 ^ 32) ds -> poly1305_tag c key ds = (0, PolySpec.mac key (concat ds)).
Proof.
  intros Bk Lk Lb B Ld. destruct (SetKey_rep c key Bk Lk Lb) as (c' & E & H). unfold poly1305_tag. rewrite E.
  exact (Final_rep key _ _ (poly_updates_rep key [] c' ds H B Ld)).
Qed.

(** [C19] Poly1305 is the one of RFC 8439 in both builds.  From any context with
    its 16-byte buffer, [wc_Poly1305SetKey], [wc_Poly1305Update] on the pieces
    of a message, cut anywhere, and [wc_Poly1305Final] give the tag the RFC
    defines on integers modulo 2^130 - 5, whether the accumulator is kept in
    three limbs of 44 bits or in five of 26: no carry is lost, the reduction
    and the final subtraction included. *)
Theorem poly1305_stream (c64 : @Poly1305 Poly64) (c32 : @Poly1305 Poly32) (key : list Z) (ds : list (list Z)) :
  is_bytes key -> Zlen key = 32 -> length (buffer c64) = 16%nat -> length (buffer c32) = 16%nat ->
  Forall is_bytes ds -> Forall (fun d => Zlen d < 2 ^ 32) ds ->
  poly1305_tag c64 key ds = (0, PolySpec.mac key (concat ds)) /\ poly1305_tag c32 key ds = (0, PolySpec.mac key (concat ds)).
Proof. intros. split; now apply tag_spec. Qed.

Lemma poly1305_stream_witness :
  let c64 := @mk_poly Poly64 (c_setkey []) (replicate 16 7) 3 true in let c32 := @mk_poly Poly32 (c_setkey []) (replicate 16 7) 3 true in
  let key := be_bytes 32 0x85d6be7857556d337f4452fe42d506a80103808afb0db2fd4abff6af4149f51b in
  let ds := [be_bytes 5 0x43727970746f; []; be_bytes 29 0x6772617068696320466f72756d2052657365617263682047726f7570] in
  poly1305_tag c64 key ds = (0, PolySpec.mac key (concat ds)) /\ poly1305_tag c32 key ds = (0, PolySpec.mac key (concat ds)).
Proof.
  cbv zeta. apply poly1305_stream;
    [apply be_bytes_is_bytes | reflexivity | reflexivity | reflexivity | | repeat (constructor; [reflexivity |]); constructor].
  constructor; [apply be_bytes_is_bytes |]. constructor; [constructor |]. constructor; [apply be_bytes_is_bytes | constructor].
Defined.
