(* ===== verification/ChaChaPoly.v ===== *)
(** * wolfcrypt/src/chacha20_poly1305.c: ChaCha20-Poly1305 and XChaCha20-Poly1305

    The two-pass code, of the builds without an assembly back end, over either
    Poly1305 of PolyLimbs.v.  The addresses of the caller's and the local
    buffers are parameters; [out] arguments are the contents of a buffer before
    the call.  [NULL] arguments and the failure of [XMALLOC] are left out.

    The specification, RFC 8439 section 2.8, comes first. *)

From S2P Require Import Prelude Misc ChaCha Poly1305 PolyLimbs.
From stdpp Require Import list.

#[local] Open Scope Z_scope.
#[local] Open Scope cword_scope.

Definition CHACHA20_POLY1305_AEAD_KEYSIZE : Z := 32.
Definition CHACHA20_POLY1305_AEAD_IV_SIZE : Z := 12.
Definition CHACHA20_POLY1305_AEAD_AUTHTAG_SIZE : Z := 16.
Definition XCHACHA20_POLY1305_AEAD_NONCE_SIZE : Z := 24.
Definition CHACHA20_POLY1305_AEAD_INITIAL_COUNTER : Z := 0.
Definition CHACHA20_POLY1305_MAX : Z := 4294967295.
Definition CHACHA20_POLY1305_STATE_INIT : Z := 0.
Definition CHACHA20_POLY1305_STATE_READY : Z := 1.
Definition CHACHA20_POLY1305_STATE_AAD : Z := 2.
Definition CHACHA20_POLY1305_STATE_DATA : Z := 3.
Definition CHACHA_POLY_OVERFLOW : Z := -274.

(** ** RFC 8439 *)
Module AeadSpec.

(** The Poly1305 key of a nonce. *)
Definition one_time_key (key nonce : list Z) : list Z := take 32 (ChaChaSpec.block key 0 nonce).

Definition tag (key nonce aad c : list Z) : list Z := PolySpec.mac (one_time_key key nonce) (PolySpec.aead_data aad c).
Definition crypt (key nonce : list Z) : list Z -> list Z := ChaChaSpec.xor key 1 nonce 0.

(** Ciphertext and tag. *)
Definition seal (key nonce aad p : list Z) : list Z * list Z :=
  let c := crypt key nonce p in (c, tag key nonce aad c).
Definition open (key nonce aad c t : list Z) : option (list Z) :=
  if decide (t = tag key nonce aad c) then Some (crypt key nonce c) else None.

End AeadSpec.

Section Aead.
  Context {P : PolyOps}.
  Context (addr_state addr_key addr_in addr_out : Z).

(** ** Keyed contexts *)

(** ChaCha20 and Poly1305 keyed for a record. *)
Definition key_record (chacha : ChaCha) (poly : Poly1305) (nonce : list Z) : Z * ChaCha * Poly1305 :=
  let polyKey := replicate (Z.to_nat CHACHA20_POLY1305_AEAD_KEYSIZE) 0 in
  let '(ret, chacha) := wc_Chacha_SetIV chacha nonce CHACHA20_POLY1305_AEAD_INITIAL_COUNTER in
  let '(ret, polyKey, chacha) :=
    if ret =? 0 then wc_Chacha_Process addr_state addr_key addr_key chacha polyKey else (ret, polyKey, chacha) in
  let '(ret, chacha) :=
    if ret =? 0 then wc_Chacha_SetIV chacha nonce (CHACHA20_POLY1305_AEAD_INITIAL_COUNTER + 1) else (ret, chacha) in
  let '(ret, poly) := if ret =? 0 then wc_Poly1305SetKey poly polyKey else (ret, poly) in
  (ret, chacha, poly).

(** [wc_Chacha_Process] with the buffer its output goes to. *)
Definition process_into (out : list Z) (chacha : ChaCha) (inp : list Z) : Z * list Z * ChaCha :=
  let '(ret, o, chacha) := wc_Chacha_Process addr_state addr_in addr_out chacha inp in
  (ret, if ret =? 0 then o else out, chacha).

Definition wc_ChaCha20Poly1305_CheckTag (authTag authTagChk : list Z) : Z :=
  if negb (Buf.ConstantCompare authTag authTagChk (Z.to_nat CHACHA20_POLY1305_AEAD_AUTHTAG_SIZE) =? 0)
  then MAC_CMP_FAILED_E else 0.

(** The code, the output, the tag and the contexts. *)
Definition wc_ChaCha20Poly1305_Encrypt_ex (chacha : ChaCha) (poly : Poly1305) (out inp nonce aad : list Z)
    : Z * list Z * list Z * ChaCha * Poly1305 :=
  let '(ret, chacha, poly) := key_record chacha poly nonce in
  if negb (ret =? 0) then (ret, out, [], chacha, poly)
  else
    let '(ret, out, chacha) := process_into out chacha inp in
    let '(ret, tag, poly) :=
      if ret =? 0 then wc_Poly1305_MAC poly aad out CHACHA20_POLY1305_AEAD_AUTHTAG_SIZE else (ret, [], poly) in
    (ret, out, tag, chacha, poly).

Definition wc_ChaCha20Poly1305_Decrypt_ex (chacha : ChaCha) (poly : Poly1305) (out inp nonce tag aad : list Z)
    : Z * list Z * ChaCha * Poly1305 :=
  let '(ret, chacha, poly) := key_record chacha poly nonce in
  if negb (ret =? 0) then (ret, out, chacha, poly)
  else
    let '(ret, calcTag, poly) := wc_Poly1305_MAC poly aad inp CHACHA20_POLY1305_AEAD_AUTHTAG_SIZE in
    let '(ret, out, chacha) := if ret =? 0 then process_into out chacha inp else (ret, out, chacha) in
    let ret := if ret =? 0 then wc_ChaCha20Poly1305_CheckTag tag calcTag else ret in
    let out := if negb (ret =? 0) && (Zlen inp >? 0) then Buf.ForceZero addr_out out (length inp) else out in
    (ret, out, chacha, poly).

(** ** The streaming interface *)

Record Aead := mk_aead { chacha : ChaCha; poly : Poly1305; aadLen : Z; dataLen : Z; state : Z; isEncrypt : bool }.

(** Cleared memory. *)
Definition zero_aead : Aead :=
  mk_aead (mk_chacha (replicate 16 0) 0 false) (mk_poly zero_limbs (replicate 16 0) 0 false) 0 0 CHACHA20_POLY1305_STATE_INIT false.

Definition wc_ChaCha20Poly1305_Init (inKey inIV : list Z) (enc : bool) : Z * Aead :=
  let aead := zero_aead in
  let authKey := replicate (Z.to_nat CHACHA20_POLY1305_AEAD_KEYSIZE) 0 in
  let '(ret, c) := wc_Chacha_SetKey (chacha aead) (take (Z.to_nat CHACHA20_POLY1305_AEAD_KEYSIZE) inKey) in
  let '(ret, c) := if ret =? 0 then wc_Chacha_SetIV c inIV CHACHA20_POLY1305_AEAD_INITIAL_COUNTER else (ret, c) in
  let '(ret, authKey, c) := if ret =? 0 then wc_Chacha_Process addr_state addr_key addr_key c authKey else (ret, authKey, c) in
  let '(ret, p) := if ret =? 0 then wc_Poly1305SetKey (poly aead) authKey else (ret, poly aead) in
  let '(ret, c) := if ret =? 0 then wc_Chacha_SetIV c inIV (CHACHA20_POLY1305_AEAD_INITIAL_COUNTER + 1) else (ret, c) in
  (ret, mk_aead c p 0 0 (if ret =? 0 then CHACHA20_POLY1305_STATE_READY else CHACHA20_POLY1305_STATE_INIT) enc).

Definition wc_ChaCha20Poly1305_UpdateAad (aead : Aead) (inAAD : list Z) : Z * Aead :=
  if negb (state aead =? CHACHA20_POLY1305_STATE_READY) && negb (state aead =? CHACHA20_POLY1305_STATE_AAD)
  then (BAD_STATE_E, aead)
  else if Zlen inAAD >? (CHACHA20_POLY1305_MAX -u32 aadLen aead) then (CHACHA_POLY_OVERFLOW, aead)
  else if Zlen inAAD >? 0 then
    let '(ret, p) := wc_Poly1305Update (poly aead) inAAD in
    if ret =? 0
    then (ret, mk_aead (chacha aead) p (aadLen aead +u32 Zlen inAAD) (dataLen aead) CHACHA20_POLY1305_STATE_AAD (isEncrypt aead))
    else (ret, mk_aead (chacha aead) p (aadLen aead) (dataLen aead) (state aead) (isEncrypt aead))
  else (0, aead).

(** [if (aead->state == CHACHA20_POLY1305_STATE_AAD)] pad the AAD. *)
Definition pad_aad (aead : Aead) : Z * Poly1305 :=
  if state aead =? CHACHA20_POLY1305_STATE_AAD then wc_Poly1305_Pad (poly aead) (aadLen aead) else (0, poly aead).

Definition wc_ChaCha20Poly1305_UpdateData (aead : Aead) (inData : list Z) : Z * list Z * Aead :=
  if negb (state aead =? CHACHA20_POLY1305_STATE_READY) && negb (state aead =? CHACHA20_POLY1305_STATE_AAD) &&
     negb (state aead =? CHACHA20_POLY1305_STATE_DATA)
  then (BAD_STATE_E, [], aead)
  else if Zlen inData >? (CHACHA20_POLY1305_MAX -u32 dataLen aead) then (CHACHA_POLY_OVERFLOW, [], aead)
  else
    let '(ret, p) := pad_aad aead in
    let '(ret, out, c, p) :=
      if (ret =? 0) && (Zlen inData >? 0) then
        if isEncrypt aead then
          let '(ret, out, c) := wc_Chacha_Process addr_state addr_in addr_out (chacha aead) inData in
          let '(ret, p) := if ret =? 0 then wc_Poly1305Update p out else (ret, p) in
          (ret, out, c, p)
        else
          let '(ret, p) := wc_Poly1305Update p inData in
          if ret =? 0 then
            let '(ret, out, c) := wc_Chacha_Process addr_state addr_in addr_out (chacha aead) inData in (ret, out, c, p)
          else (ret, [], chacha aead, p)
      else (ret, [], chacha aead, p) in
    let n := if ret =? 0 then dataLen aead +u32 Zlen inData else dataLen aead in
    (ret, out, mk_aead c p (aadLen aead) n CHACHA20_POLY1305_STATE_DATA (isEncrypt aead)).

Definition wc_ChaCha20Poly1305_Final (aead : Aead) : Z * list Z * Aead :=
  if negb (state aead =? CHACHA20_POLY1305_STATE_AAD) && negb (state aead =? CHACHA20_POLY1305_STATE_DATA)
  then (BAD_STATE_E, [], aead)
  else
    let '(ret, p) := pad_aad aead in
    let '(ret, p) := if ret =? 0 then wc_Poly1305_Pad p (dataLen aead) else (ret, p) in
    let '(ret, p) := if ret =? 0 then wc_Poly1305_EncodeSizes p (aadLen aead) (dataLen aead) else (ret, p) in
    let '(ret, tag, p) := if ret =? 0 then wc_Poly1305Final p else (ret, [], p) in
    (ret, tag, zero_aead).

(** ** One call *)

Definition wc_ChaCha20Poly1305_Encrypt (inKey inIV inAAD inPlaintext out : list Z) : Z * list Z * list Z :=
  let '(ret, aead) := wc_ChaCha20Poly1305_Init inKey inIV true in
  let '(ret, out, c) := if ret =? 0 then process_into out (chacha aead) inPlaintext else (ret, out, chacha aead) in
  let '(ret, tag, p) :=
    if ret =? 0 then wc_Poly1305_MAC (poly aead) inAAD out CHACHA20_POLY1305_AEAD_AUTHTAG_SIZE else (ret, [], poly aead) in
  (ret, out, tag).

Definition wc_ChaCha20Poly1305_Decrypt (inKey inIV inAAD inCiphertext inAuthTag out : list Z) : Z * list Z :=
  let '(ret, aead) := wc_ChaCha20Poly1305_Init inKey inIV false in
  let '(ret, calculatedAuthTag, p) :=
    if ret =? 0 then wc_Poly1305_MAC (poly aead) inAAD inCiphertext CHACHA20_POLY1305_AEAD_AUTHTAG_SIZE else (ret, [], poly aead) in
  let ret := if ret =? 0 then wc_ChaCha20Poly1305_CheckTag inAuthTag calculatedAuthTag else ret in
  let '(ret, out, c) := if ret =? 0 then process_into out (chacha aead) inCiphertext else (ret, out, chacha aead) in
  let out := if negb (ret =? 0) then Buf.ForceZero addr_out out (length inCiphertext) else out in
  (ret, out).

End Aead.

(** The example of RFC 8439, 2.8.2. *)
Definition rfc_text : list Z :=
  be_bytes 114 0x4c616469657320616e642047656e746c656d656e206f662074686520636c617373206f66202739393a204966204920636f756c64206f6666657220796f75206f6e6c79206f6e652074697020666f7220746865206675747572652c2073756e73637265656e20776f756c642062652069742e.
Definition rfc_aad : list Z := be_bytes 12 0x50515253c0c1c2c3c4c5c6c7.
Definition rfc_aead_key : list Z := seqZ 0x80 32.
Definition rfc_aead_nonce : list Z := be_bytes 12 0x070000004041424344454647.

Example aead_rfc8439 :
  wc_ChaCha20Poly1305_Encrypt (P := Poly32) 0 0 0 0 rfc_aead_key rfc_aead_nonce rfc_aad rfc_text (replicate 114 0) =
    (0, be_bytes 114 0xd31a8d34648e60db7b86afbc53ef7ec2a4aded51296e08fea9e2b5a736ee62d63dbea45e8ca9671282fafb69da92728b1a71de0a9e060b2905d6a5b67ecd3b3692ddbd7f2d778b8c9803aee328091b58fab324e4fad675945585808b4831d7bc3ff4def08e4b7a9de576d26586cec64b6116,
     be_bytes 16 0x1ae10b594f09e26a7e902ecbd0600691).
Proof. vm_compute. reflexivity. Qed.

(** ** Keys and nonces *)

Lemma one_time_key_xor key nonce : is_bytes key -> is_bytes nonce ->
  ChaChaSpec.xor key 0 nonce 0 (replicate 32 0) = AeadSpec.one_time_key key nonce.
Proof.
  intros Bk Bn. unfold ChaChaSpec.xor, AeadSpec.one_time_key. rewrite length_replicate, (stream_in_block key nonce 0 Bk Bn 0 32) by (vm_compute; discriminate).
  change (Z.to_nat (0 mod 64)) with 0%nat. rewrite drop_0. change (counter_at 0 0) with 0.
  set (l := take 32 _). assert (L : length l = 32%nat) by (unfold l; rewrite length_take; destruct (block_length key 0 nonce Bk ltac:(split; [lia | reflexivity]) Bn) as [-> _]; reflexivity).
  rewrite <- L. clear. induction l as [| x l IH]; [reflexivity |]. cbn [length replicate zip_with]. now rewrite IH.
Qed.

Lemma one_time_key_ok key nonce : is_bytes key -> is_bytes nonce ->
  is_bytes (AeadSpec.one_time_key key nonce) /\ Zlen (AeadSpec.one_time_key key nonce) = 32.
Proof.
  intros Bk Bn. destruct (block_length key 0 nonce Bk ltac:(split; [lia | reflexivity]) Bn) as [L B].
  split; [now apply Forall_take |]. unfold Zlen, AeadSpec.one_time_key. rewrite length_take, L. reflexivity.
Qed.

Lemma tag_length key nonce aad c : length (AeadSpec.tag key nonce aad c) = 16%nat.
Proof. apply le_bytes_length. Qed.

Lemma tag_bytes key nonce aad c : is_bytes (AeadSpec.tag key nonce aad c).
Proof. apply le_bytes_is_bytes. Qed.

Lemma CheckTag_spec t t' : is_bytes t -> is_bytes t' -> length t = 16%nat -> length t' = 16%nat ->
  wc_ChaCha20Poly1305_CheckTag t t' = if decide (t = t') then 0 else MAC_CMP_FAILED_E.
Proof.
  intros B B' L L'. unfold wc_ChaCha20Poly1305_CheckTag. change (Z.to_nat _) with 16%nat.
  destruct (ConstantCompare_zero_iff t t' 16 B B' ltac:(lia) ltac:(lia)) as [_ E]. rewrite !take_ge in E by lia.
  destruct (Z.eqb_spec (Buf.ConstantCompare t t' 16) 0), (decide (t = t')); cbn [negb]; tauto.
Qed.

(** A context with its key, whatever its nonce and counter. *)
Definition keyed (key : list Z) (ctx : ChaCha) : Prop :=
  (exists rest, X ctx = take 12 (ChaChaSpec.init key 0 []) ++ rest /\ length rest = 4%nat) /\ keySet ctx = true.

Lemma init_split key c nonce : ChaChaSpec.init key c nonce = take 12 (ChaChaSpec.init key 0 []) ++ [c] ++ ChaChaSpec.words nonce 3.
Proof. unfold ChaChaSpec.init. destruct (Zlen key =? 32); reflexivity. Qed.

Lemma at_pos_keyed key nonce c ctx pos : at_pos key nonce c ctx pos -> keyed key ctx.
Proof. intros (E & _ & K). split; [| exact K]. rewrite E, init_split. eexists. split; reflexivity. Qed.

Lemma keyed_SetIV key ctx nonce c : keyed key ctx ->
  wc_Chacha_SetIV ctx nonce c = (0, mk_chacha (ChaChaSpec.init key c nonce) 0 true).
Proof.
  intros [(rest & E & L) K]. rewrite init_split. unfold wc_Chacha_SetIV. rewrite E, K. unfold ChaChaSpec.init.
  destruct rest as [| a [| b [| d [| e [|]]]]]; try discriminate L. destruct (Zlen key =? 32); reflexivity.
Qed.

(** Keying a context, whatever was in its memory. *)
Lemma SetKey_keyed ctx key : length (X ctx) = 16%nat -> key_ok key ->
  exists ctx', wc_Chacha_SetKey ctx key = (0, ctx') /\ keyed key ctx' /\ length (X ctx') = 16%nat.
Proof.
  intros L [Bk Lk]. destruct ctx as [x lf ks]. cbn [X] in L.
  destruct (sixteen x L) as (x0 & x1 & x2 & x3 & x4 & x5 & x6 & x7 & x8 & x9 & x10 & x11 & x12 & x13 & x14 & x15 & ->).
  unfold wc_Chacha_SetKey, keyed, ChaChaSpec.init. change (CHACHA_MAX_KEY_SZ / 2) with 16. change CHACHA_MAX_KEY_SZ with 32.
  destruct Lk as [-> | ->]; cbn [Z.eqb Pos.eqb andb negb]; eexists; (split; [reflexivity |]); (split; [| reflexivity]);
    (split; [| reflexivity]); exists [x12; x13; x14; x15]; (split; [| reflexivity]);
    unfold ChaChaSpec.words; cbn [X map seq app Nat.mul Nat.add take]; rewrite ?drop_drop, ?drop_0; reflexivity.
Qed.

Lemma at_one key nonce : at_pos key nonce 1 (mk_chacha (ChaChaSpec.init key 1 nonce) 0 true) 0.
Proof. apply at_start. split; [lia | reflexivity]. Qed.

(** *** Contexts of Poly1305 keep their buffer. *)
Section Buffers.
  Context {P : PolyOps}.

Lemma Update_buffer (c : Poly1305) m : length (buffer (snd (wc_Poly1305Update c m))) = length (buffer c).
Proof.
  unfold wc_Poly1305Update, handle_leftover, full_blocks, store_leftover.
  repeat (case_match; simplify_eq/=; rewrite ?length_inserts; try reflexivity).
Qed.

Lemma Pad_buffer (c : Poly1305) n : length (buffer (snd (wc_Poly1305_Pad c n))) = length (buffer c).
Proof. unfold wc_Poly1305_Pad. repeat case_match; simplify_eq/=; try reflexivity; apply Update_buffer. Qed.

Lemma Final_buffer (c : Poly1305) : length (buffer (snd (wc_Poly1305Final c))) = length (buffer c).
Proof.
  unfold wc_Poly1305Final. repeat case_match; simplify_eq/=; rewrite ?length_inserts, ?length_insert; reflexivity.
Qed.

Lemma MAC_buffer (c : Poly1305) aad m n : length (buffer (snd (wc_Poly1305_MAC c aad m n))) = length (buffer c).
Proof.
  unfold wc_Poly1305_MAC, wc_Poly1305_EncodeSizes.
  repeat match goal with
         | |- context [wc_Poly1305Update ?c ?m] => pose proof (Update_buffer c m); destruct (wc_Poly1305Update c m)
         | |- context [wc_Poly1305_Pad ?c ?m] => pose proof (Pad_buffer c m); destruct (wc_Poly1305_Pad c m)
         | |- context [wc_Poly1305Final ?c] => pose proof (Final_buffer c); destruct (wc_Poly1305Final c)
         | |- _ => case_match; simplify_eq/=
         end; congruence.
Qed.

End Buffers.

(** ** Keyed contexts against the specification *)

Lemma crypt_bytes key nonce m : is_bytes key -> is_bytes nonce -> is_bytes m -> is_bytes (AeadSpec.crypt key nonce m).
Proof. intros. unfold AeadSpec.crypt. apply xor_bytes; assumption. Qed.

Lemma crypt_length key nonce m : length (AeadSpec.crypt key nonce m) = length m.
Proof. unfold AeadSpec.crypt. apply xor_length. Qed.

Lemma crypt_Zlen key nonce m : Zlen (AeadSpec.crypt key nonce m) = Zlen m.
Proof. unfold Zlen. now rewrite crypt_length. Qed.

Lemma crypt_twice key nonce m : AeadSpec.crypt key nonce (AeadSpec.crypt key nonce m) = m.
Proof. unfold AeadSpec.crypt. apply xor_twice. Qed.

Section AeadProofs.
  Context {P : PolyOps} {L : PolyLaws P}.
  Context (addr_state addr_key addr_in addr_out : Z).

Lemma key_record_spec key nonce (c : ChaCha) (p : Poly1305) : is_bytes key -> is_bytes nonce -> keyed key c -> length (buffer p) = 16%nat ->
  exists c' p', key_record addr_state addr_key c p nonce = (0, c', p') /\
    at_pos key nonce 1 c' 0 /\ poly_rep (AeadSpec.one_time_key key nonce) [] p'.
Proof.
  intros Bk Bn K Lb. unfold key_record, CHACHA20_POLY1305_AEAD_INITIAL_COUNTER.
  rewrite (keyed_SetIV key) by exact K. cbn [Z.eqb]. change (Z.to_nat CHACHA20_POLY1305_AEAD_KEYSIZE) with 32%nat.
  destruct (Process_spec key nonce 0 Bk Bn addr_state addr_key addr_key _ (replicate 32 0) 0
              ltac:(apply Forall_replicate; unfold is_word; lia) ltac:(reflexivity) ltac:(lia)
              (at_start key nonce 0 ltac:(split; [lia | reflexivity]))) as (c1 & -> & A).
  cbn [Z.eqb]. rewrite (keyed_SetIV key) by (eapply at_pos_keyed; exact A). cbn [Z.eqb].
  rewrite one_time_key_xor by assumption. destruct (one_time_key_ok key nonce Bk Bn) as [Bo Lo].
  destruct (SetKey_rep p _ Bo Lo Lb) as (p' & -> & R).
  exists (mk_chacha (ChaChaSpec.init key 1 nonce) 0 true), p'. split; [reflexivity |]. split; [apply at_one | exact R].
Qed.

Lemma process_into_spec key nonce c ctx pos out m : is_bytes key -> is_bytes nonce -> is_bytes m -> Zlen m < 2 ^ 32 -> 0 <= pos ->
  at_pos key nonce c ctx pos ->
  exists ctx', process_into addr_state addr_in addr_out out ctx m = (0, ChaChaSpec.xor key c nonce pos m, ctx') /\
    at_pos key nonce c ctx' (pos + Zlen m).
Proof.
  intros Bk Bn Bm Lm Hp A. unfold process_into.
  destruct (Process_spec key nonce c Bk Bn addr_state addr_in addr_out ctx m pos Bm Lm Hp A) as (ctx' & -> & A'). eauto.
Qed.

Lemma MAC_tag key nonce aad c (p : Poly1305) : poly_rep (AeadSpec.one_time_key key nonce) [] p ->
  is_bytes aad -> is_bytes c -> Zlen aad < 2 ^ 32 -> Zlen c < 2 ^ 32 ->
  exists p', wc_Poly1305_MAC p aad c CHACHA20_POLY1305_AEAD_AUTHTAG_SIZE = (0, AeadSpec.tag key nonce aad c, p') /\ length (buffer p') = 16%nat.
Proof.
  intros R Ba Bc La Lc. pose proof (MAC_rep _ p aad c CHACHA20_POLY1305_AEAD_AUTHTAG_SIZE R Ba Bc La Lc) as E.
  pose proof (MAC_buffer p aad c CHACHA20_POLY1305_AEAD_AUTHTAG_SIZE) as Eb. destruct R as (? & ? & ? & ? & _ & _ & _ & _ & _ & Lb & _).
  destruct (wc_Poly1305_MAC p aad c _) as [r p']. cbn [fst snd] in *. rewrite E. exists p'. split; [reflexivity | lia].
Qed.

Lemma Encrypt_ex_spec key nonce aad m out (c : ChaCha) (p : Poly1305) :
  is_bytes key -> is_bytes nonce -> is_bytes aad -> is_bytes m -> Zlen aad < 2 ^ 32 -> Zlen m < 2 ^ 32 ->
  keyed key c -> length (buffer p) = 16%nat ->
  exists c' p', wc_ChaCha20Poly1305_Encrypt_ex addr_state addr_key addr_in addr_out c p out m nonce aad =
      (0, fst (AeadSpec.seal key nonce aad m), snd (AeadSpec.seal key nonce aad m), c', p') /\
    keyed key c' /\ length (buffer p') = 16%nat.
Proof.
  intros Bk Bn Ba Bm La Lm K Lb. unfold wc_ChaCha20Poly1305_Encrypt_ex.
  destruct (key_record_spec key nonce c p Bk Bn K Lb) as (c1 & p1 & -> & A & R). cbn [Z.eqb negb].
  destruct (process_into_spec key nonce 1 c1 0 out m Bk Bn Bm Lm ltac:(lia) A) as (c2 & -> & A2). cbn [Z.eqb].
  fold (AeadSpec.crypt key nonce m).
  destruct (MAC_tag key nonce aad (AeadSpec.crypt key nonce m) p1 R Ba) as (p2 & -> & Lb2);
    [now apply crypt_bytes | exact La | rewrite crypt_Zlen; exact Lm |].
  exists c2, p2. split; [reflexivity |]. split; [eapply at_pos_keyed; exact A2 | exact Lb2].
Qed.

(** What [open] decides, as the code and the buffer. *)
Definition opened (key nonce aad c t : list Z) : Z * list Z :=
  match AeadSpec.open key nonce aad c t with
  | Some m => (0, m)
  | None => (MAC_CMP_FAILED_E, replicate (length c) 0)
  end.

Lemma Decrypt_ex_spec key nonce aad m t out (c : ChaCha) (p : Poly1305) :
  is_bytes key -> is_bytes nonce -> is_bytes aad -> is_bytes m -> Zlen aad < 2 ^ 32 -> Zlen m < 2 ^ 32 ->
  is_bytes t -> Zlen t = 16 -> length out = length m -> keyed key c -> length (buffer p) = 16%nat ->
  exists c' p', wc_ChaCha20Poly1305_Decrypt_ex addr_state addr_key addr_in addr_out c p out m nonce t aad =
      (opened key nonce aad m t, c', p') /\
    keyed key c' /\ length (buffer p') = 16%nat.
Proof.
  intros Bk Bn Ba Bm La Lm Bt Lt Lo K Lb. unfold wc_ChaCha20Poly1305_Decrypt_ex.
  destruct (key_record_spec key nonce c p Bk Bn K Lb) as (c1 & p1 & -> & A & R). cbn [Z.eqb negb].
  destruct (MAC_tag key nonce aad m p1 R Ba Bm La Lm) as (p2 & -> & Lb2). cbn [Z.eqb].
  destruct (process_into_spec key nonce 1 c1 0 out m Bk Bn Bm Lm ltac:(lia) A) as (c2 & -> & A2). cbn [Z.eqb].
  rewrite CheckTag_spec by (exact Bt || apply tag_bytes || apply tag_length || (unfold Zlen in Lt; lia)).
  fold (AeadSpec.crypt key nonce m). exists c2, p2. split; [| split; [eapply at_pos_keyed; exact A2 | exact Lb2]].
  assert (Lx : length (AeadSpec.crypt key nonce m) = length m) by apply crypt_length.
  unfold opened, AeadSpec.open. destruct (decide (t = AeadSpec.tag key nonce aad m)); [reflexivity |]. cbn [Z.eqb negb andb].
  rewrite ForceZero_clears, drop_ge, app_nil_r by lia.
  destruct (Z.gtb_spec (Zlen m) 0) as [G | G]; [reflexivity |].
  assert (m = []) as -> by (apply length_zero_iff_nil; unfold Zlen in G; lia). reflexivity.
Qed.

(** ** One call against the specification *)

Lemma Init_spec key nonce enc : is_bytes key -> Zlen key = 32 -> is_bytes nonce ->
  exists c p, wc_ChaCha20Poly1305_Init addr_state addr_key key nonce enc = (0, mk_aead c p 0 0 CHACHA20_POLY1305_STATE_READY enc) /\
    at_pos key nonce 1 c 0 /\ poly_rep (AeadSpec.one_time_key key nonce) [] p.
Proof.
  intros Bk Lk Bn. unfold wc_ChaCha20Poly1305_Init, CHACHA20_POLY1305_AEAD_INITIAL_COUNTER.
  change (Z.to_nat CHACHA20_POLY1305_AEAD_KEYSIZE) with 32%nat. rewrite take_ge by (unfold Zlen in Lk; lia).
  destruct (SetKey_SetIV (chacha zero_aead) key nonce 0 eq_refl (conj Bk (or_intror Lk))) as (c1 & -> & E1). cbn [Z.eqb]. rewrite E1. cbn [Z.eqb].
  destruct (Process_spec key nonce 0 Bk Bn addr_state addr_key addr_key _ (replicate 32 0) 0
              ltac:(apply Forall_replicate; unfold is_word; lia) ltac:(reflexivity) ltac:(lia)
              (at_start key nonce 0 ltac:(split; [lia | reflexivity]))) as (c2 & -> & A).
  cbn [Z.eqb]. rewrite one_time_key_xor by assumption. destruct (one_time_key_ok key nonce Bk Bn) as [Bo Lo].
  destruct (SetKey_rep (poly zero_aead) _ Bo Lo eq_refl) as (p' & -> & R). cbn [Z.eqb].
  rewrite (keyed_SetIV key) by (eapply at_pos_keyed; exact A).
  do 2 eexists. split; [reflexivity |]. split; [apply at_one | exact R].
Qed.

Lemma Encrypt_spec key nonce aad m out : is_bytes key -> Zlen key = 32 -> is_bytes nonce -> is_bytes aad -> is_bytes m ->
  Zlen aad < 2 ^ 32 -> Zlen m < 2 ^ 32 ->
  wc_ChaCha20Poly1305_Encrypt addr_state addr_key addr_in addr_out key nonce aad m out =
    (0, fst (AeadSpec.seal key nonce aad m), snd (AeadSpec.seal key nonce aad m)).
Proof.
  intros Bk Lk Bn Ba Bm La Lm. unfold wc_ChaCha20Poly1305_Encrypt.
  destruct (Init_spec key nonce true Bk Lk Bn) as (c & p & -> & A & R). cbn [Z.eqb chacha poly].
  destruct (process_into_spec key nonce 1 c 0 out m Bk Bn Bm Lm ltac:(lia) A) as (c2 & -> & A2). cbn [Z.eqb].
  fold (AeadSpec.crypt key nonce m).
  destruct (MAC_tag key nonce aad (AeadSpec.crypt key nonce m) p R Ba) as (p2 & -> & _);
    [now apply crypt_bytes | exact La | rewrite crypt_Zlen; exact Lm | reflexivity].
Qed.

Lemma Decrypt_spec key nonce aad m t out : is_bytes key -> Zlen key = 32 -> is_bytes nonce -> is_bytes aad -> is_bytes m ->
  Zlen aad < 2 ^ 32 -> Zlen m < 2 ^ 32 -> is_bytes t -> Zlen t = 16 -> length out = length m ->
  wc_ChaCha20Poly1305_Decrypt addr_state addr_key addr_in addr_out key nonce aad m t out = opened key nonce aad m t.
Proof.
  intros Bk Lk Bn Ba Bm La Lm Bt Lt Lo. unfold wc_ChaCha20Poly1305_Decrypt.
  destruct (Init_spec key nonce false Bk Lk Bn) as (c & p & -> & A & R). cbn [Z.eqb chacha poly].
  destruct (MAC_tag key nonce aad m p R Ba Bm La Lm) as (p2 & -> & _). cbn [Z.eqb].
  rewrite CheckTag_spec by (exact Bt || apply tag_bytes || apply tag_length || (unfold Zlen in Lt; lia)).
  unfold opened, AeadSpec.open. destruct (decide (t = AeadSpec.tag key nonce aad m)); cbn [Z.eqb].
  - destruct (process_into_spec key nonce 1 c 0 out m Bk Bn Bm Lm ltac:(lia) A) as (c2 & -> & _). reflexivity.
  - change (MAC_CMP_FAILED_E =? 0) with false. cbn [negb]. rewrite ForceZero_clears by lia. rewrite <- Lo at 2. now rewrite drop_all, app_nil_r.
Qed.

Lemma opened_seal key nonce aad m :
  opened key nonce aad (fst (AeadSpec.seal key nonce aad m)) (snd (AeadSpec.seal key nonce aad m)) = (0, m).
Proof.
  unfold opened, AeadSpec.open, AeadSpec.seal. cbn [fst snd]. rewrite decide_True by reflexivity.
  now rewrite crypt_twice.
Qed.

End AeadProofs.

(** ** Streaming: the state machine *)

Inductive aead_op := UpdateAad (l : list Z) | UpdateData (l : list Z) | Final.

Definition op_bytes (op : aead_op) : list Z := match op with UpdateAad l | UpdateData l => l | Final => [] end.
Definition op_ok (op : aead_op) : Prop := is_bytes (op_bytes op) /\ Zlen (op_bytes op) < 2 ^ 32.
#[export] Instance op_ok_dec op : Decision (op_ok op).
Proof. unfold op_ok. apply _. Defined.

Module AeadStream.
Section Session.
  Context (key nonce : list Z) (enc : bool).

(** A session: the additional data and the text so far, and whether a data call
    was made; or over. *)
Inductive session := Closed | Open (aad text : list Z) (data : bool).

Definition ciphertext (text : list Z) : list Z := if enc then AeadSpec.crypt key nonce text else text.

(** The code, the output and the session. *)
Definition step (s : session) (op : aead_op) : Z * list Z * session :=
  match s with
  | Closed => (BAD_STATE_E, [], s)
  | Open aad text data =>
      match op with
      | UpdateAad l =>
          if data then (BAD_STATE_E, [], s)
          else if Zlen aad + Zlen l >? CHACHA20_POLY1305_MAX then (CHACHA_POLY_OVERFLOW, [], s)
          else (0, [], Open (aad ++ l) text data)
      | UpdateData l =>
          if Zlen text + Zlen l >? CHACHA20_POLY1305_MAX then (CHACHA_POLY_OVERFLOW, [], s)
          else (0, drop (length text) (AeadSpec.crypt key nonce (text ++ l)), Open aad (text ++ l) true)
      | Final =>
          if data || negb (bool_decide (aad = [])) then (0, AeadSpec.tag key nonce aad (ciphertext text), Closed)
          else (BAD_STATE_E, [], s)
      end
  end.

Fixpoint run (s : session) (ops : list aead_op) : list (Z * list Z) :=
  match ops with
  | [] => []
  | op :: ops => let '(ret, out, s) := step s op in (ret, out) :: run s ops
  end.

End Session.
End AeadStream.

(** The code on a sequence of calls. *)
Definition aead_step `{P : PolyOps} (addr_state addr_in addr_out : Z) (a : Aead) (op : aead_op) : Z * list Z * Aead :=
  match op with
  | UpdateAad l => let '(ret, a) := wc_ChaCha20Poly1305_UpdateAad a l in (ret, [], a)
  | UpdateData l => wc_ChaCha20Poly1305_UpdateData addr_state addr_in addr_out a l
  | Final => wc_ChaCha20Poly1305_Final a
  end.

Fixpoint aead_run `{P : PolyOps} (addr_state addr_in addr_out : Z) (a : Aead) (ops : list aead_op) : list (Z * list Z) :=
  match ops with
  | [] => []
  | op :: ops => let '(ret, out, a) := aead_step addr_state addr_in addr_out a op in (ret, out) :: aead_run addr_state addr_in addr_out a ops
  end.

Section StreamProofs.
  Context {P : PolyOps} {L : PolyLaws P}.
  Context (addr_state addr_in addr_out : Z).
  Context (key nonce : list Z) (enc : bool) (Bk : is_bytes key) (Bn : is_bytes nonce).

#[local] Abbreviation otk := (AeadSpec.one_time_key key nonce).
#[local] Abbreviation ciphertext := (AeadStream.ciphertext key nonce enc).
#[local] Abbreviation step := (AeadStream.step key nonce enc).

Lemma ciphertext_Zlen text : Zlen (ciphertext text) = Zlen text.
Proof using. unfold AeadStream.ciphertext. destruct enc; [apply crypt_Zlen | reflexivity]. Qed.

(** The text of a call, encrypted or decrypted. *)
Lemma crypt_piece text l : drop (length text) (AeadSpec.crypt key nonce (text ++ l)) = ChaChaSpec.xor key 1 nonce (Zlen text) l.
Proof using.
  unfold AeadSpec.crypt. rewrite xor_app, Z.add_0_l. rewrite drop_app_length' by (now rewrite xor_length). reflexivity.
Qed.

Lemma ciphertext_app text l :
  ciphertext (text ++ l) = ciphertext text ++ (if enc then ChaChaSpec.xor key 1 nonce (Zlen text) l else l).
Proof using. unfold AeadStream.ciphertext. destruct enc; [| reflexivity]. unfold AeadSpec.crypt. rewrite xor_app. reflexivity. Qed.

(** What a context stands for. *)
Definition aead_rep (s : AeadStream.session) (a : Aead) : Prop :=
  match s with
  | AeadStream.Closed => state a = CHACHA20_POLY1305_STATE_INIT
  | AeadStream.Open aad text data =>
      is_bytes aad /\ is_bytes text /\ Zlen aad <= CHACHA20_POLY1305_MAX /\ Zlen text <= CHACHA20_POLY1305_MAX /\ (data = false -> text = []) /\
      isEncrypt a = enc /\ aadLen a = Zlen aad /\ dataLen a = Zlen text /\ at_pos key nonce 1 (chacha a) (Zlen text) /\
      poly_rep otk (if data then PolySpec.pad16 aad ++ ciphertext text else aad) (poly a) /\
      state a = (if data then CHACHA20_POLY1305_STATE_DATA
                 else if bool_decide (aad = []) then CHACHA20_POLY1305_STATE_READY else CHACHA20_POLY1305_STATE_AAD)
  end.

Lemma room m n : 0 <= m <= CHACHA20_POLY1305_MAX -> 0 <= n -> (n >? (CHACHA20_POLY1305_MAX -u32 m)) = (m + n >? CHACHA20_POLY1305_MAX).
Proof using.
  intros Hm Hn. rewrite wrap_small by (unfold is_word, CHACHA20_POLY1305_MAX in *; lia).
  destruct (Z.gtb_spec n (CHACHA20_POLY1305_MAX - m)), (Z.gtb_spec (m + n) CHACHA20_POLY1305_MAX); lia || reflexivity.
Qed.

Lemma UpdateAad_refines s a l : aead_rep s a -> is_bytes l -> Zlen l < 2 ^ 32 ->
  let '(ret, a') := wc_ChaCha20Poly1305_UpdateAad a l in
  let '(r, o, s') := step s (UpdateAad l) in ret = r /\ o = [] /\ aead_rep s' a'.
Proof using.
  intros R Bl Ll. unfold wc_ChaCha20Poly1305_UpdateAad. destruct s as [| aad text data]; cbn [AeadStream.step].
  { pose proof R as E. cbn [aead_rep] in E. rewrite E. split; [reflexivity | auto]. }
  pose proof R as (Ba & Bt & Ha & Ht & Hd & Ee & Ea & Ed & A & Pr & Es). rewrite Es.
  destruct data; [split; [reflexivity | auto] |]. rewrite (Hd eq_refl) in *.
  assert (E : negb ((if bool_decide (aad = []) then CHACHA20_POLY1305_STATE_READY else CHACHA20_POLY1305_STATE_AAD) =? CHACHA20_POLY1305_STATE_READY) &&
              negb ((if bool_decide (aad = []) then CHACHA20_POLY1305_STATE_READY else CHACHA20_POLY1305_STATE_AAD) =? CHACHA20_POLY1305_STATE_AAD) = false)
    by (destruct (bool_decide (aad = [])); reflexivity).
  rewrite E, Ea, room by (pose proof (Zlen_nonneg aad); pose proof (Zlen_nonneg l); lia).
  destruct (Z.gtb_spec (Zlen aad + Zlen l) CHACHA20_POLY1305_MAX) as [G | G]; [auto |].
  destruct (Z.gtb_spec (Zlen l) 0) as [G0 | G0].
  - destruct (Update_rep otk aad (poly a) l Pr Bl Ll) as (p' & -> & R'). cbn [Z.eqb]. split; [reflexivity |]. split; [reflexivity |].
    assert (Es' : bool_decide (aad ++ l = []) = false).
    { apply bool_decide_eq_false. intros [_ ->]%app_nil. unfold Zlen in G0. cbn in G0. lia. }
    cbn [aead_rep chacha poly aadLen dataLen state isEncrypt]. rewrite Es', Zlen_app.
    repeat (split; [first [assumption | reflexivity | apply Forall_app; auto | lia] |]).
    split; [| auto]. apply wrap_small. unfold is_word, CHACHA20_POLY1305_MAX in *. pose proof (Zlen_nonneg aad). lia.
  - assert (l = []) as -> by (apply length_zero_iff_nil; unfold Zlen in G0; lia). rewrite app_nil_r. split; [reflexivity |]. split; [reflexivity |].
    cbn [aead_rep]. auto 15.
Qed.

(** The AAD is padded where it was not. *)
Lemma pad_aad_rep aad text data a : aead_rep (AeadStream.Open aad text data) a ->
  exists p, pad_aad a = (0, p) /\ poly_rep otk (PolySpec.pad16 aad ++ ciphertext text) p.
Proof using.
  intros (Ba & Bt & Ha & Ht & Hd & Ee & Ea & Ed & A & Pr & Es). unfold pad_aad. rewrite Es.
  destruct data; [eauto |]. rewrite (Hd eq_refl) in *.
  assert (ciphertext [] = []) as -> by (unfold AeadStream.ciphertext; destruct enc; reflexivity). rewrite app_nil_r.
  destruct (bool_decide_reflect (aad = [])) as [-> | Na]; cbn [Z.eqb]; [eauto |].
  change (CHACHA20_POLY1305_STATE_AAD =? CHACHA20_POLY1305_STATE_AAD) with true. cbn iota. rewrite Ea.
  unfold PolySpec.pad16. apply Pad_rep; [exact Pr |]. unfold is_word, CHACHA20_POLY1305_MAX in *. pose proof (Zlen_nonneg aad). lia.
Qed.

Lemma UpdateData_refines s a l : aead_rep s a -> is_bytes l -> Zlen l < 2 ^ 32 ->
  let '(ret, out, a') := wc_ChaCha20Poly1305_UpdateData addr_state addr_in addr_out a l in
  let '(r, o, s') := step s (UpdateData l) in ret = r /\ out = o /\ aead_rep s' a'.
Proof using Bk Bn L.
  intros R Bl Ll. unfold wc_ChaCha20Poly1305_UpdateData. destruct s as [| aad text data]; cbn [AeadStream.step].
  { pose proof R as E. cbn [aead_rep] in E. rewrite E. split; [reflexivity | auto]. }
  destruct (pad_aad_rep _ _ _ _ R) as (p & Ep & Rp).
  pose proof R as (Ba & Bt & Ha & Ht & Hd & Ee & Ea & Ed & A & _ & Es).
  assert (E : negb (state a =? CHACHA20_POLY1305_STATE_READY) && negb (state a =? CHACHA20_POLY1305_STATE_AAD) &&
              negb (state a =? CHACHA20_POLY1305_STATE_DATA) = false)
    by (rewrite Es; destruct data; [| destruct (bool_decide (aad = []))]; reflexivity).
  rewrite E, Ed, room by (pose proof (Zlen_nonneg text); pose proof (Zlen_nonneg l); lia).
  destruct (Z.gtb_spec (Zlen text + Zlen l) CHACHA20_POLY1305_MAX) as [G | G]; [auto |].
  rewrite Ep, crypt_piece. change (0 =? 0) with true. cbn [andb].
  set (out := ChaChaSpec.xor key 1 nonce (Zlen text) l). pose proof (Zlen_nonneg text).
  assert (Hc : exists c p', (if Zlen l >? 0 then
        if isEncrypt a then
          let '(ret, out, c) := wc_Chacha_Process addr_state addr_in addr_out (chacha a) l in
          let '(ret, p) := if ret =? 0 then wc_Poly1305Update p out else (ret, p) in
          (ret, out, c, p)
        else
          let '(ret, p) := wc_Poly1305Update p l in
          if ret =? 0 then
            let '(ret, out, c) := wc_Chacha_Process addr_state addr_in addr_out (chacha a) l in (ret, out, c, p)
          else (ret, [], chacha a, p)
      else (0, [], chacha a, p)) = (0, out, c, p') /\
    at_pos key nonce 1 c (Zlen text + Zlen l) /\ poly_rep otk (PolySpec.pad16 aad ++ ciphertext (text ++ l)) p').
  { destruct (Z.gtb_spec (Zlen l) 0) as [G0 | G0].
    - destruct (Process_spec key nonce 1 Bk Bn addr_state addr_in addr_out (chacha a) l (Zlen text) Bl Ll ltac:(lia) A) as (c & -> & A').
      fold out. rewrite Ee, ciphertext_app, app_assoc. fold out. destruct enc.
      + cbn [Z.eqb]. destruct (Update_rep otk _ p out Rp) as (p' & -> & R'); [now apply xor_bytes | unfold out, Zlen; rewrite xor_length; exact Ll |]. eauto.
      + destruct (Update_rep otk _ p l Rp Bl Ll) as (p' & -> & R'). cbn [Z.eqb]. eauto.
    - assert (l = []) as -> by (apply length_zero_iff_nil; unfold Zlen in G0; lia). rewrite app_nil_r.
      exists (chacha a), p. change (Zlen []) with 0. rewrite Z.add_0_r. split; [reflexivity | auto]. }
  destruct Hc as (c & p' & -> & A' & R'). cbn [Z.eqb]. split; [reflexivity |]. split; [reflexivity |].
  cbn [aead_rep chacha poly aadLen dataLen state isEncrypt]. rewrite Zlen_app.
  repeat (split; [first [assumption | reflexivity | apply Forall_app; auto | lia | discriminate] |]).
  split; [| auto]. apply wrap_small. unfold is_word, CHACHA20_POLY1305_MAX in *. pose proof (Zlen_nonneg l). lia.
Qed.

Lemma Final_refines s a : aead_rep s a ->
  let '(ret, out, a') := wc_ChaCha20Poly1305_Final a in
  let '(r, o, s') := step s Final in ret = r /\ out = o /\ aead_rep s' a'.
Proof using L.
  intros R. unfold wc_ChaCha20Poly1305_Final. destruct s as [| aad text data]; cbn [AeadStream.step].
  { pose proof R as E. cbn [aead_rep] in E. rewrite E. split; [reflexivity | auto]. }
  destruct (pad_aad_rep _ _ _ _ R) as (p & Ep & Rp).
  pose proof R as (Ba & Bt & Ha & Ht & Hd & Ee & Ea & Ed & A & _ & Es).
  assert (E : negb (state a =? CHACHA20_POLY1305_STATE_AAD) && negb (state a =? CHACHA20_POLY1305_STATE_DATA) =
              negb (data || negb (bool_decide (aad = []))))
    by (rewrite Es; destruct data; [| destruct (bool_decide (aad = []))]; reflexivity).
  rewrite E. destruct (data || negb (bool_decide (aad = []))); cbn [negb]; [| auto].
  pose proof (Zlen_nonneg aad). pose proof (Zlen_nonneg text).
  rewrite Ep. cbn [Z.eqb]. destruct (Pad_rep otk _ p (dataLen a) Rp) as (p1 & -> & R1); [rewrite Ed; unfold is_word, CHACHA20_POLY1305_MAX in *; lia |].
  cbn [Z.eqb]. destruct (EncodeSizes_rep otk _ p1 (aadLen a) (dataLen a) R1) as (p2 & -> & R2);
    [rewrite Ea; unfold is_word, CHACHA20_POLY1305_MAX in *; lia | rewrite Ed; unfold is_word, CHACHA20_POLY1305_MAX in *; lia |].
  cbn [Z.eqb]. pose proof (Final_rep otk _ p2 R2) as F. destruct (wc_Poly1305Final p2) as [[ret tag] p3]. cbn [fst] in F. injection F as -> ->.
  split; [reflexivity |]. split; [| reflexivity].
  unfold AeadSpec.tag, PolySpec.aead_data, PolySpec.pad16. rewrite Ea, Ed, ciphertext_Zlen, <- !app_assoc. reflexivity.
Qed.

Lemma aead_run_refines ops s a : aead_rep s a -> Forall op_ok ops ->
  aead_run addr_state addr_in addr_out a ops = AeadStream.run key nonce enc s ops.
Proof using Bk Bn L.
  intros R F. revert s a R. induction F as [| op ops [Bo Lo] F IH]; intros s a R; [reflexivity |].
  assert (St : let '(ret, out, a') := aead_step addr_state addr_in addr_out a op in
               let '(r, o, s') := step s op in ret = r /\ out = o /\ aead_rep s' a').
  { destruct op as [l | l |]; cbn [aead_step op_bytes] in *.
    - pose proof (UpdateAad_refines s a l R Bo Lo) as H. destruct (wc_ChaCha20Poly1305_UpdateAad a l) as [ret a'].
      destruct (step s (UpdateAad l)) as [[r o] s']. destruct H as (-> & -> & H). auto.
    - now apply UpdateData_refines.
    - now apply Final_refines. }
  cbn [aead_run AeadStream.run]. destruct (aead_step addr_state addr_in addr_out a op) as [[ret out] a'].
  destruct (step s op) as [[r o] s']. destruct St as (-> & -> & H). now rewrite (IH s' a' H).
Qed.

End StreamProofs.

(** *** A message in pieces, as the specification sees it *)

Section Pieces.
  Context (key nonce : list Z) (enc : bool).

#[local] Abbreviation run := (AeadStream.run key nonce enc).
#[local] Abbreviation Open := AeadStream.Open.

Lemma run_aad ads aad rest : Zlen (aad ++ concat ads) <= CHACHA20_POLY1305_MAX ->
  run (Open aad [] false) (map UpdateAad ads ++ rest) = map (fun _ => (0, [])) ads ++ run (Open (aad ++ concat ads) [] false) rest.
Proof using.
  revert aad. induction ads as [| l ads IH]; intros aad H; cbn [map concat app]; [now rewrite app_nil_r |].
  cbn [concat] in H. rewrite app_assoc in H. cbn [AeadStream.run AeadStream.step].
  assert ((Zlen aad + Zlen l >? CHACHA20_POLY1305_MAX) = false) as ->.
  { rewrite !Zlen_app in H. pose proof (Zlen_nonneg (concat ads)). destruct (Z.gtb_spec (Zlen aad + Zlen l) CHACHA20_POLY1305_MAX); [lia | reflexivity]. }
  now rewrite IH, app_assoc by exact H.
Qed.

Lemma run_data ds aad text : Zlen (text ++ concat ds) <= CHACHA20_POLY1305_MAX ->
  exists outs, run (Open aad text true) (map UpdateData ds ++ [Final]) =
      outs ++ [(0, AeadSpec.tag key nonce aad (AeadStream.ciphertext key nonce enc (text ++ concat ds)))] /\
    Forall (fun r => fst r = 0) outs /\
    AeadSpec.crypt key nonce text ++ concat (map snd outs) = AeadSpec.crypt key nonce (text ++ concat ds).
Proof using.
  revert text. induction ds as [| l ds IH]; intros text H; cbn [map concat app].
  { exists []. rewrite !app_nil_r. now split. }
  cbn [concat] in H. rewrite app_assoc in H. cbn [AeadStream.run AeadStream.step].
  assert ((Zlen text + Zlen l >? CHACHA20_POLY1305_MAX) = false) as ->.
  { rewrite !Zlen_app in H. pose proof (Zlen_nonneg (concat ds)). destruct (Z.gtb_spec (Zlen text + Zlen l) CHACHA20_POLY1305_MAX); [lia | reflexivity]. }
  destruct (IH (text ++ l) H) as (outs & E & F & C). rewrite E, <- !app_assoc in *. rewrite crypt_piece.
  exists ((0, ChaChaSpec.xor key 1 nonce (Zlen text) l) :: outs). split; [reflexivity |]. split; [now constructor |].
  cbn [map concat snd]. rewrite <- C, app_assoc. f_equal. unfold AeadSpec.crypt. now rewrite xor_app.
Qed.

Lemma run_pieces ads ds : ds <> [] -> Zlen (concat ads) <= CHACHA20_POLY1305_MAX -> Zlen (concat ds) <= CHACHA20_POLY1305_MAX ->
  let results := run (Open [] [] false) (map UpdateAad ads ++ map UpdateData ds ++ [Final]) in
  Forall (fun r => fst r = 0) results /\
  concat (map snd results) = AeadSpec.crypt key nonce (concat ds) ++
    AeadSpec.tag key nonce (concat ads) (AeadStream.ciphertext key nonce enc (concat ds)).
Proof using.
  intros N La Ld results. unfold results. rewrite run_aad by exact La. cbn [app].
  destruct ds as [| l ds]; [now destruct N |]. cbn [map app AeadStream.run AeadStream.step concat] in *.
  assert ((Zlen [] + Zlen l >? CHACHA20_POLY1305_MAX) = false) as ->.
  { rewrite Zlen_app in Ld. change (@Zlen Z []) with 0. pose proof (Zlen_nonneg (concat ds)). destruct (Z.gtb_spec (0 + Zlen l) CHACHA20_POLY1305_MAX); [lia | reflexivity]. }
  destruct (run_data ds (concat ads) l Ld) as (outs & -> & F & C). cbn [length app]. rewrite drop_0. split.
  - apply Forall_app. split; [apply Forall_map, Forall_true; reflexivity |]. constructor; [reflexivity |]. apply Forall_app. split; [exact F | now repeat constructor].
  - rewrite map_app, concat_app. assert (concat (map snd (map (fun _ : list Z => (0, @nil Z)) ads)) = []) as -> by (clear; induction ads; [reflexivity | assumption]).
    cbn [map concat snd app]. rewrite map_app, concat_app, <- C. cbn [map concat snd]. rewrite app_nil_r, !app_assoc. reflexivity.
Qed.

End Pieces.

(** ** Theorems *)

(** [C11] ChaCha20-Poly1305 for records is the AEAD of RFC 8439.  With contexts keyed
    once and any nonce, additional data and text of 32-bit length,
    [wc_ChaCha20Poly1305_Encrypt_ex] returns the ciphertext and tag the RFC
    defines; [wc_ChaCha20Poly1305_Decrypt_ex] returns 0 and the plaintext exactly
    when the tag is the one of that nonce, additional data and ciphertext, else
    [MAC_CMP_FAILED_E] with the output buffer zeroed; what was encrypted comes
    back; and both leave contexts that serve for the next record, whatever this
    one was.  So do the calls that take a key. *)
Theorem aead_records {P : PolyOps} {L : PolyLaws P} (as_ ak ai ao : Z) key nonce aad m c p out nonce' aad' ct t c' p' out' :
  is_bytes key -> keyed key c -> length (buffer p) = 16%nat -> keyed key c' -> length (buffer p') = 16%nat ->
  is_bytes nonce -> is_bytes aad -> Zlen aad < 2 ^ 32 -> is_bytes m -> Zlen m < 2 ^ 32 ->
  is_bytes nonce' -> is_bytes aad' -> Zlen aad' < 2 ^ 32 -> is_bytes ct -> Zlen ct < 2 ^ 32 -> is_bytes t -> Zlen t = 16 -> length out' = length ct ->
  let '(sealed, tag) := AeadSpec.seal key nonce aad m in
  (exists c1 p1, wc_ChaCha20Poly1305_Encrypt_ex as_ ak ai ao c p out m nonce aad = (0, sealed, tag, c1, p1) /\
     keyed key c1 /\ length (buffer p1) = 16%nat) /\
  (exists c2 p2, wc_ChaCha20Poly1305_Decrypt_ex as_ ak ai ao c' p' out' ct nonce' t aad' =
       (if decide (t = AeadSpec.tag key nonce' aad' ct) then (0, AeadSpec.crypt key nonce' ct) else (MAC_CMP_FAILED_E, replicate (length ct) 0), c2, p2) /\
     keyed key c2 /\ length (buffer p2) = 16%nat) /\
  opened key nonce aad sealed tag = (0, m) /\
  (Zlen key = 32 ->
   wc_ChaCha20Poly1305_Encrypt as_ ak ai ao key nonce aad m out = (0, sealed, tag) /\
   wc_ChaCha20Poly1305_Decrypt as_ ak ai ao key nonce' aad' ct t out' = opened key nonce' aad' ct t).
Proof.
  intros Bk K Lp K' Lp' Bn Ba La Bm Lm Bn' Ba' La' Bc Lc Bt Lt Lo. cbn [AeadSpec.seal].
  split; [exact (Encrypt_ex_spec as_ ak ai ao key nonce aad m out c p Bk Bn Ba Bm La Lm K Lp) |].
  split.
  { destruct (Decrypt_ex_spec as_ ak ai ao key nonce' aad' ct t out' c' p' Bk Bn' Ba' Bc La' Lc Bt Lt Lo K' Lp') as (c2 & p2 & -> & H).
    exists c2, p2. split; [| exact H]. unfold opened, AeadSpec.open. destruct (decide _); reflexivity. }
  split; [exact (opened_seal key nonce aad m) |]. intros Lk. split.
  - exact (Encrypt_spec as_ ak ai ao key nonce aad m out Bk Lk Bn Ba Bm La Lm).
  - exact (Decrypt_spec as_ ak ai ao key nonce' aad' ct t out' Bk Lk Bn' Ba' Bc La' Lc Bt Lt Lo).
Qed.

(** [C12] The streaming interface refines its state machine.  After
    [wc_ChaCha20Poly1305_Init], any sequence of [UpdateAad], [UpdateData] and
    [Final] calls returns the codes and bytes of [AeadStream.run]: additional
    data only before data, nothing after the end, no end without input, no
    length past 2^32 - 1, and a call that is refused changes nothing.  In
    particular a message in any pieces gives, with code 0 throughout, the text
    encrypted or decrypted and the tag of the RFC. *)
Theorem aead_streaming {P : PolyOps} {L : PolyLaws P} (as_ ak ai ao : Z) key nonce enc :
  is_bytes key -> Zlen key = 32 -> is_bytes nonce ->
  exists a, wc_ChaCha20Poly1305_Init as_ ak key nonce enc = (0, a) /\
    (forall ops, Forall op_ok ops ->
       aead_run as_ ai ao a ops = AeadStream.run key nonce enc (AeadStream.Open [] [] false) ops) /\
    (forall ads ds, ds <> [] -> Forall is_bytes ads -> Forall is_bytes ds ->
       Zlen (concat ads) <= CHACHA20_POLY1305_MAX -> Zlen (concat ds) <= CHACHA20_POLY1305_MAX ->
       let results := aead_run as_ ai ao a (map UpdateAad ads ++ map UpdateData ds ++ [Final]) in
       let text := AeadSpec.crypt key nonce (concat ds) in
       Forall (fun r => fst r = 0) results /\
       concat (map snd results) = text ++ AeadSpec.tag key nonce (concat ads) (if enc then text else concat ds)).
Proof.
  intros Bk Lk Bn. destruct (Init_spec as_ ak key nonce enc Bk Lk Bn) as (c & p & E & A & R).
  eexists. split; [exact E |].
  assert (H : forall ops, Forall op_ok ops ->
    aead_run as_ ai ao (mk_aead c p 0 0 CHACHA20_POLY1305_STATE_READY enc) ops = AeadStream.run key nonce enc (AeadStream.Open [] [] false) ops).
  { intros ops F. apply aead_run_refines; [exact Bk | exact Bn | | exact F].
    cbn [aead_rep chacha poly aadLen dataLen state isEncrypt]. change (@Zlen Z []) with 0.
    repeat (split; [first [assumption | reflexivity | discriminate | constructor] |]). reflexivity. }
  split; [exact H |]. intros ads ds N Fa Fd La Ld. rewrite H; [exact (run_pieces key nonce enc ads ds N La Ld) |].
  assert (Piece : forall (l : list Z) (ls : list (list Z)), Zlen (concat ls) <= CHACHA20_POLY1305_MAX -> l ∈ ls -> Zlen l < 2 ^ 32).
  { clear. intros l ls H Hin. apply list_elem_of_split in Hin as (a & b & ->). rewrite concat_app in H. cbn [concat] in H.
    rewrite !Zlen_app in H. pose proof (Zlen_nonneg (concat a)). pose proof (Zlen_nonneg (concat b)). unfold CHACHA20_POLY1305_MAX in H. lia. }
  rewrite Forall_forall in Fa, Fd. apply Forall_app. split; [| apply Forall_app; split; [| repeat constructor]];
    apply Forall_map, Forall_forall; intros l Hl; split; cbn [op_bytes]; eauto.
Qed.

Lemma aead_records_witness :
  let c := mk_chacha (ChaChaSpec.init rfc_aead_key 7 rfc_aead_nonce) 0 true in
  let p := @mk_poly Poly32 (c_setkey []) (replicate 16 3) 5 true in
  let t := replicate 16 9 in
  exists c1 p1, wc_ChaCha20Poly1305_Decrypt_ex 0 0 0 0 c p (replicate 5 1) [1; 2; 3; 4; 5] rfc_aead_nonce t rfc_aad =
    (if decide (t = AeadSpec.tag rfc_aead_key rfc_aead_nonce rfc_aad [1; 2; 3; 4; 5])
     then (0, AeadSpec.crypt rfc_aead_key rfc_aead_nonce [1; 2; 3; 4; 5]) else (MAC_CMP_FAILED_E, replicate 5 0), c1, p1) /\
    keyed rfc_aead_key c1 /\ length (buffer p1) = 16%nat.
Proof.
  intros c p t.
  refine (proj1 (proj2 (aead_records (P := Poly32) 0 0 0 0 rfc_aead_key rfc_aead_nonce rfc_aad rfc_text c p [] rfc_aead_nonce rfc_aad [1; 2; 3; 4; 5] t c p (replicate 5 1)
                          _ _ _ _ _ _ _ _ _ _ _ _ _ _ _ _ _ _)));
    first [reflexivity | split; [eexists; split; [apply init_split | reflexivity] | reflexivity] | apply (bool_decide_unpack _); vm_compute; exact I].
Defined.

Lemma aead_streaming_witness :
  exists a, wc_ChaCha20Poly1305_Init (P := Poly64) 0 0 rfc_aead_key rfc_aead_nonce true = (0, a) /\
    aead_run 0 0 0 a [Final; UpdateData []; UpdateAad [1]] =
    AeadStream.run rfc_aead_key rfc_aead_nonce true (AeadStream.Open [] [] false) [Final; UpdateData []; UpdateAad [1]].
Proof.
  destruct (aead_streaming (P := Poly64) 0 0 0 0 rfc_aead_key rfc_aead_nonce true) as (a & E & H & _);
    [apply (bool_decide_unpack _); vm_compute; exact I | reflexivity | apply be_bytes_is_bytes |].
  exists a. split; [exact E |]. apply H. apply (bool_decide_unpack _). vm_compute. exact I.
Defined.
