(* ===== verification/XChaChaPoly.v ===== *)
(** * wolfcrypt/src/chacha20_poly1305.c: XChaCha20-Poly1305

    [wc_XChaCha20Poly1305_Init] and the one-shot calls, in builds with 64-bit
    integers: the nonce of 24 bytes gives a key and a nonce of ChaCha20, and the
    text is handled in pieces of 16384 bytes.  [inplace] says that [dst] and
    [src] are the same memory, which matters to the order in which a piece is
    deciphered and hashed; else they do not overlap. *)

From S2P Require Import Prelude Misc ChaCha Poly1305 PolyLimbs ChaChaPoly.
From stdpp Require Import list.

#[local] Open Scope Z_scope.
#[local] Open Scope cword_scope.


(** ** XChaCha20-Poly1305 *)
Section XChaChaOps.
  Context {P : PolyOps}.
  Context (addr_state addr_key addr_in addr_out : Z).

(** On memory of any content. *)
Definition wc_XChaCha20Poly1305_Init (aead : Aead) (ad nonce key : list Z) (enc : bool) : Z * Aead :=
  if negb (Zlen key =? CHACHA20_POLY1305_AEAD_KEYSIZE) || negb (Zlen nonce =? XCHACHA20_POLY1305_AEAD_NONCE_SIZE)
  then (BAD_FUNC_ARG, aead)
  else
    let with_contexts c p := mk_aead c p (aadLen aead) (dataLen aead) (state aead) (isEncrypt aead) in
    let '(ret, c) := wc_XChacha_SetKey (chacha aead) key nonce 0 in
    if ret <? 0 then (ret, with_contexts c (poly aead))
    else
      let authKey := replicate (Z.to_nat CHACHA20_POLY1305_AEAD_KEYSIZE) 0 in
      let '(ret, authKey, c) := wc_Chacha_Process addr_state addr_key addr_key c authKey in
      if ret <? 0 then (ret, with_contexts c (poly aead))
      else
        let c := wc_Chacha_purge_current_block addr_state addr_key c in
        let '(ret, p) := wc_Poly1305SetKey (poly aead) authKey in
        if ret <? 0 then (ret, with_contexts c p)
        else
          let '(ret, p) := wc_Poly1305Update p ad in
          if ret <? 0 then (ret, with_contexts c p)
          else
            let '(ret, p) := wc_Poly1305_Pad p (Zlen ad) in
            if ret <? 0 then (ret, with_contexts c p)
            else (0, mk_aead c p (aadLen aead) (dataLen aead) CHACHA20_POLY1305_STATE_AAD enc).

(** The loop over pieces of 16384 bytes; [rem]: what is left of the input,
    written to [dst] from [pos] on; [inplace]: [dst] is [src]. *)
Fixpoint oneshot_loop (fuel : nat) (enc inplace : bool) (c : ChaCha) (p : Poly1305) (pos : nat) (dst rem : list Z)
    : Z * list Z * Poly1305 :=
  match fuel with
  | O => (0, dst, p)
  | S fuel =>
      if Zlen rem >? 0 then
        let n := Z.to_nat (if Zlen rem >? 16384 then 16384 else Zlen rem) in
        let '(ret, out, c) := wc_Chacha_Process addr_state addr_in addr_out c (take n rem) in
        if ret <? 0 then (ret, dst, p)
        else
          let dst := list_inserts pos out dst in
          let hashed := if enc || inplace then out else take n rem in
          let '(ret, p) := wc_Poly1305Update p hashed in
          if ret <? 0 then (ret, dst, p)
          else oneshot_loop fuel enc inplace c p (pos + n) dst (drop n rem)
      else (0, dst, p)
  end.

(** The code and [dst]; [aead]: the context on the stack. *)
Definition wc_XChaCha20Poly1305_crypt_oneshot (aead : Aead) (inplace : bool) (dst src ad nonce key : list Z) (enc : bool) : Z * list Z :=
  let dst_space := Zlen dst in
  let src_len := Zlen src in
  if enc && (src_len >? CHACHA20_POLY1305_MAX - 16) then (BAD_FUNC_ARG, dst)
  else if negb enc && (src_len <? 16) then (BAD_FUNC_ARG, dst)
  else
    let dst_len := if enc then src_len + 16 else src_len - 16 in
    if dst_space <? dst_len then (BUFFER_E, dst)
    else if (Zlen ad >? 2 ^ 32 - 1) || (Zlen nonce >? 2 ^ 32 - 1) || (Zlen key >? 2 ^ 32 - 1) then (BAD_FUNC_ARG, dst)
    else
      let '(ret, aead) := wc_XChaCha20Poly1305_Init aead ad nonce key true in
      if ret <? 0 then (ret, dst)
      else
        let n := if enc then src_len else dst_len in
        let '(ret, dst, p) := oneshot_loop (S (Z.to_nat (n / 16384))) enc inplace (chacha aead) (poly aead) 0 dst (take (Z.to_nat n) src) in
        if ret <? 0 then (ret, dst)
        else
          let '(ret, p) := if negb (leftover p =? 0) then wc_Poly1305_Pad p (u32 (leftover p)) else (0, p) in
          if ret <? 0 then (ret, dst)
          else
            let '(ret, p) := wc_Poly1305_EncodeSizes64 p (Zlen ad) n in
            if ret <? 0 then (ret, dst)
            else
              let '(ret, tag, p) := wc_Poly1305Final p in
              if enc then (ret, list_inserts (Z.to_nat src_len) tag dst)
              else if ret <? 0 then (ret, dst)
              else if negb (Buf.ConstantCompare tag (drop (Z.to_nat dst_len) src) 16 =? 0)
              then (MAC_CMP_FAILED_E, Buf.ForceZero addr_out dst (length dst))
              else (ret, dst).

Definition wc_XChaCha20Poly1305_Encrypt (aead : Aead) (inplace : bool) (dst src ad nonce key : list Z) : Z * list Z :=
  wc_XChaCha20Poly1305_crypt_oneshot aead inplace dst src ad nonce key true.
Definition wc_XChaCha20Poly1305_Decrypt (aead : Aead) (inplace : bool) (dst src ad nonce key : list Z) : Z * list Z :=
  wc_XChaCha20Poly1305_crypt_oneshot aead inplace dst src ad nonce key false.

End XChaChaOps.

(** The key and nonce of ChaCha20 behind a nonce of 24 bytes. *)
Definition xkey (key nonce : list Z) : list Z := ChaChaSpec.hchacha key (take 16 nonce).
Definition xnonce (nonce : list Z) : list Z := replicate 4 0 ++ take 8 (drop 16 nonce).

(** draft-irtf-cfrg-xchacha-03, A.3.1. *)
Example xchacha_draft :
  wc_XChaCha20Poly1305_Encrypt (P := Poly64) 0 0 0 0 zero_aead false (replicate 130 0) rfc_text rfc_aad (seqZ 0x40 24) (seqZ 0x80 32) =
  (0, be_bytes 114 0xbd6d179d3e83d43b9576579493c0e939572a1700252bfaccbed2902c21396cbb731c7f1b0b4aa6440bf3a82f4eda7e39ae64c6708c54c216cb96b72e1213b4522f8c9ba40db5d945b11b69b982c1bb9e3f3fac2bc369488f76b2383565d3fff921f9664c97637da9768812f615c68b13b52e
     ++ be_bytes 16 0xc0875924c1c7987947deafd8780acf49).
Proof. vm_compute. reflexivity. Qed.

Section XChaChaProofs.
  Context {P : PolyOps} {L : PolyLaws P}.
  Context (addr_state addr_key addr_in addr_out : Z).

(** Memory that can hold a context. *)
Definition aead_memory (a : Aead) : Prop := length (X (chacha a)) = 16%nat /\ length (buffer (poly a)) = 16%nat.

Lemma xnonce_ok nonce : is_bytes nonce -> is_bytes (xnonce nonce).
Proof using. intros B. apply Forall_app. split; [apply Forall_replicate; unfold is_word; lia | now apply Forall_take, Forall_drop]. Qed.

(** The second block of counter 0 is the first of counter 1. *)
Lemma at_pos_next key nonce c : at_pos key nonce 0 c 64 -> at_pos key nonce 1 c 0.
Proof using. intros (E & Hl & K). split; [exact E |]. split; [exact Hl | exact K]. Qed.

Lemma XInit_spec a ad nonce key enc : aead_memory a -> is_bytes key -> Zlen key = 32 -> is_bytes nonce -> Zlen nonce = 24 ->
  is_bytes ad -> Zlen ad < 2 ^ 32 ->
  exists c p, wc_XChaCha20Poly1305_Init addr_state addr_key a ad nonce key enc =
      (0, mk_aead c p (aadLen a) (dataLen a) CHACHA20_POLY1305_STATE_AAD enc) /\
    at_pos (xkey key nonce) (xnonce nonce) 1 c 0 /\
    poly_rep (AeadSpec.one_time_key (xkey key nonce) (xnonce nonce)) (PolySpec.pad16 ad) p.
Proof using L.
  intros [L1 L2] Bk Lk Bn Ln Ba La. unfold wc_XChaCha20Poly1305_Init. rewrite Lk, Ln. cbn [Z.eqb Pos.eqb negb orb CHACHA20_POLY1305_AEAD_KEYSIZE XCHACHA20_POLY1305_AEAD_NONCE_SIZE].
  destruct (XChacha_SetKey_spec (chacha a) key nonce 0 L1 Bk Lk Bn Ln) as [-> [Bx _]]. pose proof (xnonce_ok nonce Bn) as Bxn.
  unfold xkey, xnonce in *. set (xk := ChaChaSpec.hchacha key (take 16 nonce)) in *. set (xn := replicate 4 0 ++ take 8 (drop 16 nonce)) in *. clearbody xk xn. change (0 <? 0) with false. cbn iota. change (Z.to_nat CHACHA20_POLY1305_AEAD_KEYSIZE) with 32%nat.
  destruct (Process_spec xk xn 0 Bx Bxn addr_state addr_key addr_key _ (replicate 32 0) 0
              ltac:(apply Forall_replicate; unfold is_word; lia) ltac:(reflexivity) ltac:(lia)
              (at_start _ _ 0 ltac:(split; [lia | reflexivity]))) as (c & -> & A).
  change (0 <? 0) with false. cbn iota. change (0 + Zlen (replicate 32 0)) with 32 in A.
  apply (purge_spec xk xn 0 addr_state addr_key c 32 Bx Bxn ltac:(lia)) in A. change (32 + 32 mod 64) with 64 in A. apply at_pos_next in A.
  rewrite one_time_key_xor by assumption. destruct (one_time_key_ok _ _ Bx Bxn) as [Bo Lo].
  destruct (SetKey_rep (poly a) _ Bo Lo L2) as (p & -> & R). change (0 <? 0) with false. cbn iota.
  destruct (pad16_rep _ _ ad p R Ba La) as (p' & p'' & -> & E & R'). change (0 <? 0) with false. cbn iota. rewrite E.
  eauto.
Qed.

Lemma inserts_at {A} (l dst : list A) pos : (pos + length l <= length dst)%nat ->
  list_inserts pos l dst = take pos dst ++ l ++ drop (pos + length l) dst.
Proof using.
  intros H. rewrite <- (take_drop pos dst) at 1. assert (Lt : length (take pos dst) = pos) by (rewrite length_take; lia).
  rewrite <- Lt at 1. rewrite inserts_app by (rewrite length_drop; lia). now rewrite drop_drop.
Qed.

Lemma inserts_step {A} (o x dst : list A) pos k : (length o <= k)%nat -> (pos + k <= length dst)%nat ->
  take (pos + length o) (list_inserts pos o dst) ++ x ++ drop (pos + k) (list_inserts pos o dst) = take pos dst ++ (o ++ x) ++ drop (pos + k) dst.
Proof using.
  intros Ho Hk. rewrite inserts_at by lia. assert (Lt : length (take pos dst) = pos) by (rewrite length_take; lia).
  rewrite (app_assoc (take pos dst) o). set (a := take pos dst ++ o).
  assert (La : length a = (pos + length o)%nat) by (unfold a; rewrite length_app; lia).
  rewrite take_app_length' by lia. rewrite drop_app_ge, drop_drop by lia. unfold a at 1. rewrite <- !app_assoc. do 4 f_equal. lia.
Qed.

Lemma oneshot_loop_spec key nonce fuel enc inplace c p h pos dst rem : is_bytes key -> is_bytes nonce -> is_bytes rem ->
  Zlen rem <= 16384 * Z.of_nat fuel -> (pos + length rem <= length dst)%nat ->
  at_pos key nonce 1 c (Z.of_nat pos) -> poly_rep (AeadSpec.one_time_key key nonce) h p ->
  let out := ChaChaSpec.xor key 1 nonce (Z.of_nat pos) rem in
  exists p', oneshot_loop addr_state addr_in addr_out fuel enc inplace c p pos dst rem =
      (0, take pos dst ++ out ++ drop (pos + length rem) dst, p') /\
    poly_rep (AeadSpec.one_time_key key nonce) (h ++ (if enc || inplace then out else rem)) p'.
Proof using L.
  intros Bk Bn.
  assert (E0 : forall h pos (dst : list Z) p, poly_rep (AeadSpec.one_time_key key nonce) h p ->
    (0, dst, p) = (0, take pos dst ++ ChaChaSpec.xor key 1 nonce (Z.of_nat pos) [] ++ drop (pos + 0) dst, p) /\
    poly_rep (AeadSpec.one_time_key key nonce) (h ++ (if enc || inplace then ChaChaSpec.xor key 1 nonce (Z.of_nat pos) [] else [])) p).
  { intros h0 pos0 dst0 p0 R. change (ChaChaSpec.xor key 1 nonce (Z.of_nat pos0) []) with (@nil Z). cbn [app]. rewrite Nat.add_0_r, take_drop.
    destruct (enc || inplace); rewrite app_nil_r; auto. }
  revert c p h pos dst rem. induction fuel as [| fuel IH]; intros c p h pos dst rem Br Lf Ld A R.
  { assert (rem = []) as -> by (apply length_zero_iff_nil; unfold Zlen in Lf; lia). cbn [oneshot_loop length]. eauto. }
  cbn [oneshot_loop]. destruct (Z.gtb_spec (Zlen rem) 0) as [G | G].
  - set (n := Z.to_nat _).
    assert (Hn : (0 < n <= length rem)%nat /\ (Z.of_nat n = 16384 \/ n = length rem) /\ Z.of_nat n <= 16384)
      by (unfold n, Zlen in *; destruct (Z.gtb_spec (Z.of_nat (length rem)) 16384); lia).
    clearbody n. assert (Ln : Zlen (take n rem) = Z.of_nat n) by (unfold Zlen; rewrite length_take; lia).
    assert (Bt : is_bytes (take n rem)) by now apply Forall_take.
    destruct (Process_spec key nonce 1 Bk Bn addr_state addr_in addr_out c (take n rem) (Z.of_nat pos) Bt ltac:(lia) ltac:(lia) A) as (c' & -> & A').
    change (0 <? 0) with false. cbn iota. rewrite Ln, <- Nat2Z.inj_add in A'.
    set (o := ChaChaSpec.xor key 1 nonce (Z.of_nat pos) (take n rem)). assert (Lo : length o = n) by (unfold o; rewrite xor_length; unfold Zlen in Ln; lia).
    destruct (Update_rep _ h p (if enc || inplace then o else take n rem) R) as (p1 & -> & R1);
      [destruct (enc || inplace); [now apply xor_bytes | exact Bt] | destruct (enc || inplace); unfold Zlen in *; lia |].
    change (0 <? 0) with false. cbn iota.
    destruct (IH c' p1 (h ++ (if enc || inplace then o else take n rem)) (pos + n)%nat (list_inserts pos o dst) (drop n rem)) as (p2 & E & R2);
      [now apply Forall_drop | unfold Zlen in *; rewrite length_drop; lia | rewrite length_inserts, length_drop; lia | exact A' | exact R1 |].
    exists p2.
    assert (Ex : ChaChaSpec.xor key 1 nonce (Z.of_nat pos) rem = o ++ ChaChaSpec.xor key 1 nonce (Z.of_nat (pos + n)) (drop n rem)).
    { rewrite <- (take_drop n rem) at 1. rewrite xor_app, Ln, <- Nat2Z.inj_add. reflexivity. }
    rewrite Ex, E. split.
    + do 2 f_equal. rewrite length_drop. replace (pos + n + (length rem - n))%nat with (pos + length rem)%nat by lia.
      rewrite <- Lo at 1. apply inserts_step; lia.
    + destruct (enc || inplace); [| rewrite <- app_assoc, take_drop in R2; exact R2]. rewrite <- app_assoc in R2. exact R2.
  - assert (rem = []) as -> by (apply length_zero_iff_nil; unfold Zlen in G; lia). cbn [length]. eauto.
Qed.

(** The length mod 16 of what the loop hashed. *)
Lemma leftover_mod key m (p : Poly1305) : poly_rep key m p -> leftover p = Zlen m mod 16.
Proof using.
  intros (full & part & rest & n & -> & _ & Lf & Lp & _ & _ & -> & _). rewrite Zlen_app. unfold Zlen. rewrite Lf.
  replace (Z.of_nat (16 * n) + Z.of_nat (length part)) with (Z.of_nat (length part) + Z.of_nat n * 16) by lia.
  rewrite Z_mod_plus_full. symmetry. apply Z.mod_small. lia.
Qed.

Lemma pad16_Zlen l : Zlen (PolySpec.pad16 l) mod 16 = 0.
Proof using.
  unfold PolySpec.pad16. rewrite Zlen_app. pose proof (Z.mod_pos_bound (- Zlen l) 16 ltac:(lia)).
  unfold Zlen at 2. rewrite length_replicate, Z2Nat.id by lia. clear. Z.to_euclidean_division_equations. lia.
Qed.

(** The end of a message whose padding is taken from the bytes left over. *)
Lemma finish_spec key h m (p : Poly1305) : poly_rep key (PolySpec.pad16 h ++ m) p ->
  exists p', (if negb (leftover p =? 0) then wc_Poly1305_Pad p (u32 (leftover p)) else (0, p)) = (0, p') /\
    poly_rep key (PolySpec.pad16 h ++ PolySpec.pad16 m) p'.
Proof using L.
  intros R. rewrite (leftover_mod _ _ _ R), Zlen_app, Z.add_mod, pad16_Zlen, Z.add_0_l, Z.mod_mod by lia.
  pose proof (Z.mod_pos_bound (Zlen m) 16 ltac:(lia)) as B. unfold PolySpec.pad16 at 2.
  destruct (Z.eqb_spec (Zlen m mod 16) 0) as [E | E]; cbn [negb].
  - assert ((- Zlen m) mod 16 = 0) as -> by (revert E; clear; Z.to_euclidean_division_equations; lia). change (Z.to_nat 0) with 0%nat. cbn [replicate].
    rewrite app_nil_r. eauto.
  - rewrite wrap_small by (unfold is_word; lia). destruct (Pad_rep _ _ p (Zlen m mod 16) R) as (p' & -> & R'); [unfold is_word; lia |].
    exists p'. split; [reflexivity |]. rewrite <- app_assoc in R'.
    replace ((- (Zlen m mod 16)) mod 16) with ((- Zlen m) mod 16) in R' by (clear; Z.to_euclidean_division_equations; lia). exact R'.
Qed.

Lemma EncodeSizes64_rep key m (p : Poly1305) a n : poly_rep key m p ->
  exists p', wc_Poly1305_EncodeSizes64 p a n = (0, p') /\ poly_rep key (m ++ le_bytes 8 a ++ le_bytes 8 n) p'.
Proof using L.
  intros H. unfold wc_Poly1305_EncodeSizes64. apply Update_rep; [exact H | apply Forall_app; split; apply le_bytes_is_bytes |].
  unfold Zlen. rewrite length_app, !le_bytes_length. reflexivity.
Qed.

(** What the call computes; [hashed] is the text the tag covers. *)
Definition oneshot_result (inplace : bool) (dst src ad nonce key : list Z) (enc : bool) : Z * list Z :=
  let n := if enc then length src else (length src - 16)%nat in
  let xk := xkey key nonce in let xn := xnonce nonce in
  let out := AeadSpec.crypt xk xn (take n src) in
  let tag := AeadSpec.tag xk xn ad (if enc || inplace then out else take n src) in
  if enc then (0, out ++ tag ++ drop (n + 16) dst)
  else if decide (tag = drop n src) then (0, out ++ drop n dst) else (MAC_CMP_FAILED_E, replicate (length dst) 0).

(** The code for the arguments: text or room out of range, additional data, key
    or nonce of a wrong length. *)
Definition oneshot_args (dst src ad nonce key : list Z) (enc : bool) : Z :=
  if enc && (Zlen src >? CHACHA20_POLY1305_MAX - 16) || negb enc && (Zlen src <? 16) then BAD_FUNC_ARG
  else if Zlen dst <? (if enc then Zlen src + 16 else Zlen src - 16) then BUFFER_E
  else if (Zlen ad >? 2 ^ 32 - 1) || negb (Zlen key =? 32) || negb (Zlen nonce =? 24) then BAD_FUNC_ARG
  else 0.

Lemma oneshot_spec a inplace dst src ad nonce key (enc : bool) : aead_memory a ->
  is_bytes key -> Zlen key = 32 -> is_bytes nonce -> Zlen nonce = 24 -> is_bytes ad -> Zlen ad < 2 ^ 32 -> is_bytes src ->
  (if enc then Zlen src <= CHACHA20_POLY1305_MAX - 16 /\ Zlen src + 16 <= Zlen dst else 16 <= Zlen src /\ Zlen src - 16 <= Zlen dst) ->
  wc_XChaCha20Poly1305_crypt_oneshot addr_state addr_key addr_in addr_out a inplace dst src ad nonce key enc =
  oneshot_result inplace dst src ad nonce key enc.
Proof using L.
  intros Ma Bk Lk Bn Ln Ba La Bs Hs. unfold wc_XChaCha20Poly1305_crypt_oneshot, oneshot_result. cbv zeta.
  set (n := if enc then length src else (length src - 16)%nat).
  assert (Hn : (if enc then Zlen src else if enc then Zlen src + 16 else Zlen src - 16) = Z.of_nat n /\ (n <= length src)%nat /\ (n <= length dst)%nat /\
               enc && (Zlen src >? CHACHA20_POLY1305_MAX - 16) = false /\ negb enc && (Zlen src <? 16) = false /\
               (Zlen dst <? (if enc then Zlen src + 16 else Zlen src - 16)) = false).
  { unfold n, Zlen in *. destruct enc; cbn [andb negb]; repeat split; lia. }
  destruct Hn as (En & N1 & N2 & -> & -> & ->). rewrite En.
  assert ((Zlen ad >? 2 ^ 32 - 1) || (Zlen nonce >? 2 ^ 32 - 1) || (Zlen key >? 2 ^ 32 - 1) = false) as ->.
  { rewrite Lk, Ln. destruct (Z.gtb_spec (Zlen ad) (2 ^ 32 - 1)); [lia | reflexivity]. }
  destruct (XInit_spec a ad nonce key true Ma Bk Lk Bn Ln Ba La) as (c & p & -> & A & R). change (0 <? 0) with false. cbn iota. cbn [chacha poly].
  rewrite Nat2Z.id. assert (Bx : is_bytes (xkey key nonce)) by (destruct Ma as [Ma _]; now destruct (XChacha_SetKey_spec (chacha a) key nonce 0 Ma Bk Lk Bn Ln) as [_ [Bx _]]).
  pose proof (xnonce_ok nonce Bn) as Bxn. set (xk := xkey key nonce) in *. set (xn := xnonce nonce) in *. clearbody xk xn.
  assert (Lt : length (take n src) = n) by (rewrite length_take; lia). assert (Bt : is_bytes (take n src)) by now apply Forall_take.
  destruct (oneshot_loop_spec xk xn (S (Z.to_nat (Z.of_nat n / 16384))) enc inplace c p (PolySpec.pad16 ad) 0 dst (take n src) Bx Bxn Bt)
    as (p1 & -> & R1); [unfold Zlen; rewrite Lt; clear; Z.to_euclidean_division_equations; lia | lia | exact A | exact R |].
  change (0 <? 0) with false. cbn iota. rewrite Lt. change (Z.of_nat 0) with 0 in *. cbn [Nat.add] in *. rewrite take_0. cbn [app].
  destruct (finish_spec _ _ _ _ R1) as (p2 & -> & R2). change (0 <? 0) with false. cbn iota.
  destruct (EncodeSizes64_rep _ _ p2 (Zlen ad) (Z.of_nat n) R2) as (p3 & -> & R3). change (0 <? 0) with false. cbn iota.
  pose proof (Final_rep _ _ p3 R3) as F. destruct (wc_Poly1305Final p3) as [[ret tag] p4]. cbn [fst] in F. injection F as -> Et.
  fold (AeadSpec.crypt xk xn (take n src)) in *. set (out := AeadSpec.crypt xk xn (take n src)) in *.
  assert (Lo : length out = n) by (unfold out; rewrite crypt_length; exact Lt).
  assert (Et' : tag = AeadSpec.tag xk xn ad (if enc || inplace then out else take n src)).
  { assert (Eh : Zlen (if enc || inplace then out else take n src) = Z.of_nat n) by (unfold Zlen; destruct (enc || inplace); lia).
    unfold AeadSpec.tag, PolySpec.aead_data. rewrite Et, Eh, <- app_assoc. reflexivity. }
  rewrite <- Et'. assert (Lg : length tag = 16%nat) by (rewrite Et'; apply tag_length). assert (Bg : is_bytes tag) by (rewrite Et'; apply tag_bytes).
  clear R3 R2 R1 R A Et Et'. destruct enc.
  - assert (Z.to_nat (Zlen src) = length out) as -> by (unfold Zlen; rewrite Nat2Z.id; unfold n in Lo; lia).
    rewrite inserts_app, drop_drop, Lg by (rewrite length_drop; unfold Zlen, n in *; lia). reflexivity.
  - change (0 <? 0) with false. cbn iota. rewrite En, Nat2Z.id. assert (Ls : length (drop n src) = 16%nat) by (rewrite length_drop; unfold n, Zlen in *; lia).
    pose proof (CheckTag_spec tag (drop n src) Bg (Forall_drop _ _ _ Bs) Lg Ls) as CT. unfold wc_ChaCha20Poly1305_CheckTag in CT. change (Z.to_nat CHACHA20_POLY1305_AEAD_AUTHTAG_SIZE) with 16%nat in CT.
    destruct (Z.eqb_spec (Buf.ConstantCompare tag (drop n src) 16) 0), (decide (tag = drop n src)); cbn [negb] in *; try discriminate CT; [reflexivity |].
    rewrite ForceZero_clears, drop_all, app_nil_r by lia. f_equal. rewrite length_app, length_drop. f_equal. lia.
Qed.

Lemma oneshot_refused a inplace dst src ad nonce key enc : oneshot_args dst src ad nonce key enc <> 0 ->
  wc_XChaCha20Poly1305_crypt_oneshot addr_state addr_key addr_in addr_out a inplace dst src ad nonce key enc =
  (oneshot_args dst src ad nonce key enc, dst).
Proof using.
  unfold oneshot_args, wc_XChaCha20Poly1305_crypt_oneshot. cbv zeta.
  destruct (Z.gtb_spec (Zlen src) (CHACHA20_POLY1305_MAX - 16)), (Z.ltb_spec (Zlen src) 16),
    (Z.ltb_spec (Zlen dst) (if enc then Zlen src + 16 else Zlen src - 16)); destruct enc; cbn [andb negb]; try reflexivity.
  all: destruct (Z.gtb_spec (Zlen ad) (2 ^ 32 - 1)); [reflexivity |].
  all: destruct (Z.gtb_spec (Zlen nonce) (2 ^ 32 - 1)), (Z.gtb_spec (Zlen key) (2 ^ 32 - 1));
    destruct (Z.eqb_spec (Zlen key) 32), (Z.eqb_spec (Zlen nonce) 24); cbn [orb negb]; try lia; try reflexivity.
  all: intros _; unfold wc_XChaCha20Poly1305_Init, CHACHA20_POLY1305_AEAD_KEYSIZE, XCHACHA20_POLY1305_AEAD_NONCE_SIZE.
  all: repeat match goal with
    | E : Zlen ?l = _ |- context [Zlen ?l] => rewrite E
    | E : Zlen ?l <> ?n |- context [Zlen ?l =? ?n] => rewrite (proj2 (Z.eqb_neq _ _) E)
    end; reflexivity.
Qed.

Lemma oneshot_args_ok dst src ad nonce key (enc : bool) : oneshot_args dst src ad nonce key enc = 0 ->
  Zlen key = 32 /\ Zlen nonce = 24 /\ Zlen ad < 2 ^ 32 /\
  if enc then Zlen src <= CHACHA20_POLY1305_MAX - 16 /\ Zlen src + 16 <= Zlen dst else 16 <= Zlen src /\ Zlen src - 16 <= Zlen dst.
Proof using.
  unfold oneshot_args.
  destruct (Z.gtb_spec (Zlen src) (CHACHA20_POLY1305_MAX - 16)), (Z.ltb_spec (Zlen src) 16),
    (Z.ltb_spec (Zlen dst) (if enc then Zlen src + 16 else Zlen src - 16)), (Z.gtb_spec (Zlen ad) (2 ^ 32 - 1)),
    (Z.eqb_spec (Zlen key) 32), (Z.eqb_spec (Zlen nonce) 24); destruct enc; cbn [andb orb negb]; try discriminate; lia.
Qed.

End XChaChaProofs.

(** What [open] decides, as the code and the buffer. *)
Definition opened_into (key nonce aad c t dst : list Z) : Z * list Z :=
  match AeadSpec.open key nonce aad c t with
  | Some m => (0, m ++ drop (length c) dst)
  | None => (MAC_CMP_FAILED_E, replicate (length dst) 0)
  end.

Definition draft_key : list Z := seqZ 0x80 32.
Definition draft_nonce : list Z := seqZ 0x40 24.

(** What a valid call seals is opened. *)
Lemma sealed_opens {P : PolyOps} {L : PolyLaws P} (as_ ak ai ao : Z) a inplace dst src ad nonce key :
  aead_memory a -> is_bytes key -> Zlen key = 32 -> is_bytes nonce -> Zlen nonce = 24 ->
  is_bytes ad -> Zlen ad < 2 ^ 32 -> is_bytes src -> Zlen src <= CHACHA20_POLY1305_MAX - 16 -> Zlen src + 16 <= Zlen dst ->
  let xk := xkey key nonce in let xn := xnonce nonce in
  let '(c, t) := AeadSpec.seal xk xn ad src in
  wc_XChaCha20Poly1305_Encrypt as_ ak ai ao a inplace dst src ad nonce key = (0, c ++ t ++ drop (length src + 16) dst) /\
  forall a' dst', aead_memory a' -> Zlen src <= Zlen dst' ->
    wc_XChaCha20Poly1305_Decrypt as_ ak ai ao a' false dst' (c ++ t) ad nonce key = (0, src ++ drop (length src) dst') /\
    wc_XChaCha20Poly1305_Decrypt as_ ak ai ao a' true dst' (c ++ t) ad nonce key =
      (if decide (AeadSpec.tag xk xn ad src = t) then (0, src ++ drop (length src) dst') else (MAC_CMP_FAILED_E, replicate (length dst') 0)).
Proof.
  intros Ma Bk Lk Bn Ln Ba La Bs Ls Ld xk xn. cbn [AeadSpec.seal].
  assert (Bx : is_bytes xk) by (destruct Ma as [Ma _]; now destruct (XChacha_SetKey_spec (chacha a) key nonce 0 Ma Bk Lk Bn Ln) as [_ [Bx _]]).
  pose proof (xnonce_ok nonce Bn) as Bxn. fold xn in Bxn.
  set (c := AeadSpec.crypt xk xn src). set (t := AeadSpec.tag xk xn ad c).
  assert (Bc : is_bytes c) by now apply crypt_bytes. assert (Lc : length c = length src) by apply crypt_length.
  assert (Lt : length t = 16%nat) by apply tag_length.
  assert (Ecc : AeadSpec.crypt xk xn c = src) by (unfold c; apply crypt_twice).
  assert (Bct : is_bytes (c ++ t)) by (apply Forall_app; split; [exact Bc | apply tag_bytes]).
  assert (Lct : length (c ++ t) = (length src + 16)%nat) by (rewrite length_app; lia).
  split.
  - unfold wc_XChaCha20Poly1305_Encrypt. rewrite oneshot_spec by (assumption || (split; assumption)).
    unfold oneshot_result. fold xk xn. cbn [orb]. rewrite take_ge by lia. reflexivity.
  - intros a' dst' Ma' Ld'.
    assert (Dc : forall ip, oneshot_result ip dst' (c ++ t) ad nonce key false =
      if decide (AeadSpec.tag xk xn ad (if ip then src else c) = t) then (0, src ++ drop (length src) dst') else (MAC_CMP_FAILED_E, replicate (length dst') 0)).
    { intros ip. unfold oneshot_result. fold xk xn. rewrite Lct. replace (length src + 16 - 16)%nat with (length c) by lia.
      rewrite take_app_length, drop_app_length. rewrite Ecc, Lc. reflexivity. }
    assert (Ds : forall ip, wc_XChaCha20Poly1305_Decrypt as_ ak ai ao a' ip dst' (c ++ t) ad nonce key = oneshot_result ip dst' (c ++ t) ad nonce key false).
    { intros ip. apply (oneshot_spec as_ ak ai ao a' ip dst' (c ++ t) ad nonce key false); auto. unfold Zlen in *. lia. }
    rewrite !Ds, !Dc. split; [| reflexivity]. now rewrite decide_True by reflexivity.
Qed.

(** ** Theorems *)

(** [C20] The one-shot calls of XChaCha20-Poly1305, on all arguments, are the AEAD of RFC 8439
    under the derived key and nonce, for texts of any number of pieces.  A
    text too long to encrypt or too short to hold a tag, a key not of 32 or a nonce
    not of 24 bytes, or additional data of 2^32 bytes or more gives [BAD_FUNC_ARG],
    an output buffer too small [BUFFER_E], and nothing is written.  Otherwise encryption
    writes ciphertext and tag and nothing behind them, in place or not;
    decryption between two buffers returns 0 and the plaintext exactly when the
    last 16 bytes are the tag, else [MAC_CMP_FAILED_E] with the whole buffer
    zeroed; and what was encrypted comes back.  In place, decryption authenticates
    the plaintext it has just written instead of the ciphertext, and so accepts
    what was encrypted only if the two have the same tag. *)
Theorem xchacha_oneshot {P : PolyOps} {L : PolyLaws P} (as_ ak ai ao : Z) a inplace dst src ad nonce key :
  aead_memory a -> is_bytes key -> is_bytes nonce -> is_bytes ad -> is_bytes src ->
  let Encrypt := wc_XChaCha20Poly1305_Encrypt as_ ak ai ao in let Decrypt := wc_XChaCha20Poly1305_Decrypt as_ ak ai ao in
  let xk := xkey key nonce in let xn := xnonce nonce in
  (let r := oneshot_args dst src ad nonce key true in
   if negb (r =? 0) then Encrypt a inplace dst src ad nonce key = (r, dst)
   else
     let '(c, t) := AeadSpec.seal xk xn ad src in
     Encrypt a inplace dst src ad nonce key = (0, c ++ t ++ drop (length src + 16) dst) /\
     forall a' dst', aead_memory a' -> Zlen src <= Zlen dst' ->
       Decrypt a' false dst' (c ++ t) ad nonce key = (0, src ++ drop (length src) dst') /\
       Decrypt a' true dst' (c ++ t) ad nonce key =
         (if decide (AeadSpec.tag xk xn ad src = t) then (0, src ++ drop (length src) dst') else (MAC_CMP_FAILED_E, replicate (length dst') 0))) /\
  (let r := oneshot_args dst src ad nonce key false in let n := (length src - 16)%nat in
   if negb (r =? 0) then Decrypt a inplace dst src ad nonce key = (r, dst)
   else Decrypt a false dst src ad nonce key = opened_into xk xn ad (take n src) (drop n src) dst).
Proof.
  intros Ma Bk Bn Ba Bs Encrypt Decrypt xk xn. cbv zeta. split.
  - destruct (Z.eqb_spec (oneshot_args dst src ad nonce key true) 0) as [Z0 | N0]; cbn [negb]; [| exact (oneshot_refused _ _ _ _ _ _ _ _ _ _ _ _ N0)].
    apply oneshot_args_ok in Z0 as (Lk & Ln & La & Ls & Ld). exact (sealed_opens as_ ak ai ao a inplace dst src ad nonce key Ma Bk Lk Bn Ln Ba La Bs Ls Ld).
  - destruct (Z.eqb_spec (oneshot_args dst src ad nonce key false) 0) as [Z0 | N0]; cbn [negb]; [| exact (oneshot_refused _ _ _ _ _ _ _ _ _ _ _ _ N0)].
    apply oneshot_args_ok in Z0 as (Lk & Ln & La & Ls & Ld). unfold Decrypt, wc_XChaCha20Poly1305_Decrypt.
    rewrite oneshot_spec by (assumption || (split; assumption)).
    unfold oneshot_result, opened_into, AeadSpec.open. fold xk xn. cbn [orb]. rewrite length_take, Nat.min_l by lia.
    set (n := (length src - 16)%nat).
    destruct (decide (AeadSpec.tag xk xn ad (take n src) = drop n src)), (decide (drop n src = AeadSpec.tag xk xn ad (take n src))); congruence || reflexivity.
Qed.

(** The code on an example: decryption in place refuses what was encrypted. *)
Example xchacha_in_place_refused :
  let '(_, buf) := wc_XChaCha20Poly1305_Encrypt (P := Poly64) 0 0 0 0 zero_aead true (replicate 20 0) [1; 2; 3; 4] [] draft_nonce draft_key in
  fst (wc_XChaCha20Poly1305_Decrypt (P := Poly64) 0 0 0 0 zero_aead false (replicate 4 0) buf [] draft_nonce draft_key) = 0 /\
  wc_XChaCha20Poly1305_Decrypt (P := Poly64) 0 0 0 0 zero_aead true (replicate 4 0) buf [] draft_nonce draft_key = (MAC_CMP_FAILED_E, replicate 4 0).
Proof. vm_compute. split; reflexivity. Qed.

(** [wc_XChaCha20Poly1305_Init] hashes the additional data but leaves [aadLen] as it
    found it, so that the streaming calls, which its state lets through, put
    a wrong length into the tag: here on cleared memory. *)
Example xchacha_init_then_Final :
  let run (P : PolyOps) :=
    let '(_, a) := wc_XChaCha20Poly1305_Init (P := P) 0 0 zero_aead [9; 9] draft_nonce draft_key true in
    let '(r1, out, a) := wc_ChaCha20Poly1305_UpdateData 0 0 0 a [1; 2; 3; 4] in
    let '(r2, tag, _) := wc_ChaCha20Poly1305_Final a in (r1, r2, out ++ tag) in
  let '(r1, r2, streamed) := run Poly64 in
  let '(r3, sealed) := wc_XChaCha20Poly1305_Encrypt (P := Poly64) 0 0 0 0 zero_aead false (replicate 20 0) [1; 2; 3; 4] [9; 9] draft_nonce draft_key in
  r1 = 0 /\ r2 = 0 /\ r3 = 0 /\ take 4 streamed = take 4 sealed /\ drop 4 streamed <> drop 4 sealed.
Proof. vm_compute. repeat (split; [reflexivity |]). discriminate. Qed.

Lemma xchacha_oneshot_witness :
  wc_XChaCha20Poly1305_Decrypt (P := Poly32) 0 0 0 0 zero_aead false (replicate 6 0) (replicate 20 7) [9; 9] draft_nonce draft_key =
  opened_into (xkey draft_key draft_nonce) (xnonce draft_nonce) [9; 9] (take 4 (replicate 20 7)) (drop 4 (replicate 20 7)) (replicate 6 0) /\
  wc_XChaCha20Poly1305_Encrypt (P := Poly32) 0 0 0 0 zero_aead true (replicate 6 0) (replicate 20 7) [9; 9] draft_nonce draft_key =
  (BUFFER_E, replicate 6 0).
Proof.
  destruct (xchacha_oneshot (P := Poly32) 0 0 0 0 zero_aead true (replicate 6 0) (replicate 20 7) [9; 9] draft_nonce draft_key) as [E D];
    [split; reflexivity | apply (bool_decide_unpack _); vm_compute; exact I .. |].
  split; [exact D | exact E].
Defined.
