(* ===== verification/Tls.v ===== *)
(** * wolfssl/internal.h: enumerations shared by the TLS and DTLS files

    C enumeration constants keep their numeric values because the code
    compares states with [<] and [>=] and reads message types off the wire. *)

From S2P Require Import Prelude.

#[local] Open Scope Z_scope.

(** ** [enum HandShakeType] *)
Definition hello_request : Z := 0.
Definition client_hello : Z := 1.
Definition server_hello : Z := 2.
Definition hello_verify_request : Z := 3.
Definition session_ticket : Z := 4.
Definition end_of_early_data : Z := 5.
Definition hello_retry_request : Z := 6.
Definition encrypted_extensions : Z := 8.
Definition request_connection_id : Z := 9.
Definition new_connection_id : Z := 10.
Definition certificate : Z := 11.
Definition server_key_exchange : Z := 12.
Definition certificate_request : Z := 13.
Definition server_hello_done : Z := 14.
Definition certificate_verify : Z := 15.
Definition client_key_exchange : Z := 16.
Definition finished : Z := 20.
Definition certificate_status : Z := 22.
Definition key_update : Z := 24.
Definition change_cipher_hs : Z := 55.
Definition message_hash : Z := 254.
Definition no_shake : Z := 255.

(** ** [enum states] *)
Definition NULL_STATE : Z := 0.
Definition SERVER_HELLOVERIFYREQUEST_COMPLETE : Z := 1.
Definition SERVER_HELLO_RETRY_REQUEST_COMPLETE : Z := 2.
Definition SERVER_HELLO_COMPLETE : Z := 3.
Definition SERVER_ENCRYPTED_EXTENSIONS_COMPLETE : Z := 4.
Definition SERVER_CERT_COMPLETE : Z := 5.
Definition SERVER_CERT_VERIFY_COMPLETE : Z := 6.
Definition SERVER_KEYEXCHANGE_COMPLETE : Z := 7.
Definition SERVER_HELLODONE_COMPLETE : Z := 8.
Definition SERVER_CHANGECIPHERSPEC_COMPLETE : Z := 9.
Definition SERVER_FINISHED_COMPLETE : Z := 10.
Definition CLIENT_HELLO_RETRY : Z := 11.
Definition CLIENT_HELLO_COMPLETE : Z := 12.
Definition CLIENT_KEYEXCHANGE_COMPLETE : Z := 13.
Definition CLIENT_CHANGECIPHERSPEC_COMPLETE : Z := 14.
Definition CLIENT_FINISHED_COMPLETE : Z := 15.
Definition HANDSHAKE_DONE : Z := 16.
Definition SERVER_FINISHED_ACKED : Z := 17.

(** ** Record content types *)
Definition change_cipher_spec : Z := 20.
Definition alert : Z := 21.
Definition handshake : Z := 22.
Definition application_data : Z := 23.
Definition ack : Z := 26.

(** ** The side of a connection, [enum encrypt_side], sequence orders *)
Definition WOLFSSL_SERVER_END : Z := 0.
Definition WOLFSSL_CLIENT_END : Z := 1.

Definition ENCRYPT_SIDE_ONLY : Z := 1.
Definition DECRYPT_SIDE_ONLY : Z := 2.
Definition ENCRYPT_AND_DECRYPT_SIDE : Z := 3.

Definition PREV_ORDER : Z := -1.
Definition CUR_ORDER : Z := 0.
Definition PEER_ORDER : Z := 1.

Definition alert_warning : Z := 1.
Definition alert_fatal : Z := 2.
Definition unexpected_message : Z := 10.
Definition no_renegotiation : Z := 100.

Definition SECURE_RENEGOTIATION_E : Z := -388.
Definition BUFFER_ERROR : Z := -328.
Definition LENGTH_ERROR : Z := -341.
Definition PARSE_ERROR : Z := -306.

(** ** [struct MsgsReceived]: what has been received from the peer *)
Record MsgsReceived := mkMsgs {
  got_hello_request : bool; got_client_hello : Z; got_server_hello : bool;
  got_hello_verify_request : bool; got_session_ticket : bool;
  got_end_of_early_data : bool; got_hello_retry_request : bool;
  got_encrypted_extensions : bool; got_certificate : bool;
  got_certificate_status : bool; got_server_key_exchange : bool;
  got_certificate_request : bool; got_server_hello_done : bool;
  got_certificate_verify : bool; got_client_key_exchange : bool;
  got_finished : bool; got_key_update : bool; got_change_cipher : bool }.

Definition no_msgs : MsgsReceived :=
  mkMsgs false 0 false false false false false false false false false false
         false false false false false false.

(** ** [enum KeyExchangeAlgorithm] *)
Inductive KeyExchangeAlgorithm :=
| no_kea | rsa_kea | diffie_hellman_kea | fortezza_kea | psk_kea | dhe_psk_kea
| ecdhe_psk_kea | ecc_diffie_hellman_kea | ecc_static_diffie_hellman_kea | any_kea.

#[export] Instance kea_eq_dec : EqDecision KeyExchangeAlgorithm.
Proof. solve_decision. Defined.

Definition kea_is (a b : KeyExchangeAlgorithm) : bool := bool_decide (a = b).
