(* ===== verification/TlsSeq.v ===== *)
(** * src/internal.c, src/tls13.c: record sequence numbers, nonces and AAD

    The sequence numbers of the two directions ([GetSEQIncrement],
    [WriteSEQ], [WriteSEQTls13]), the explicit numbers of DTLS 1.2
    ([DtlsGetSEQ]), the nonce of a TLS 1.3 record ([BuildTls13Nonce]) and the
    additional data of a TLS 1.2 AEAD record ([writeAeadAuthData]).  Built
    with DTLS, connection IDs and multicast, without secure renegotiation. *)

From S2P Require Import Prelude Misc Tls.
From stdpp Require Import list.

#[local] Open Scope Z_scope.
#[local] Open Scope cword_scope.

(** ** State *)

(** The part of [struct Keys] that holds record numbers. *)
Record Keys := {
  peer_sequence_number_hi : Z; peer_sequence_number_lo : Z;
  sequence_number_hi : Z; sequence_number_lo : Z;
  dtls_epoch : Z;
  dtls_sequence_number_hi : Z; dtls_sequence_number_lo : Z;
  dtls_prev_sequence_number_hi : Z; dtls_prev_sequence_number_lo : Z;
  curEpoch : Z; curSeq_hi : Z; curSeq_lo : Z; curPeerId : Z
}.

Definition PREV_ORDER : Z := -1.
Definition CUR_ORDER : Z := 0.
Definition PEER_ORDER : Z := 1.
Definition SEQ_SZ : Z := 8.
Definition AEAD_NONCE_SZ : Z := 12.
Definition DTLS_CID_MAX_SIZE : Z := 10.
Definition DTLS_CID_ERROR : Z := -454.
Definition dtls12_cid : Z := 25.
Definition SEQUENCE_NUMBER_E : Z := -520.

(** ** Operations *)

(** The number read, as its two halves, and the state with it incremented. *)
Definition GetSEQIncrement (verify : bool) (k : Keys) : Z * Z * Keys :=
  if verify then
    let hi := peer_sequence_number_hi k in
    let lo := peer_sequence_number_lo k in
    let k := { k with peer_sequence_number_lo := lo +u32 1 } in
    (hi, lo, if lo >? peer_sequence_number_lo k
             then { k with peer_sequence_number_hi := peer_sequence_number_hi k +u32 1 } else k)
  else
    let hi := sequence_number_hi k in
    let lo := sequence_number_lo k in
    let k := { k with sequence_number_lo := lo +u32 1 } in
    (hi, lo, if lo >? sequence_number_lo k
             then { k with sequence_number_hi := sequence_number_hi k +u32 1 } else k).

(** [mcast]: the group ID ([options.mcastID]), with multicast in use. *)
Definition DtlsGetSEQ (mcast : option Z) (order : Z) (k : Keys) : Z * Z :=
  if order =? PREV_ORDER then
    (match mcast with
     | Some mcastID =>
         Z.lor (Z.lor (u32 (Z.shiftl (u32 (dtls_epoch k - 1)) 16)) (u32 (Z.shiftl mcastID 8)))
           (Z.land (dtls_prev_sequence_number_hi k) 0xFF)
     | None => Z.lor (u32 (Z.shiftl (u32 (dtls_epoch k - 1)) 16)) (Z.land (dtls_prev_sequence_number_hi k) 0xFFFF)
     end, dtls_prev_sequence_number_lo k)
  else if order =? PEER_ORDER then
    (match mcast with
     | Some _ =>
         Z.lor (Z.lor (u32 (Z.shiftl (curEpoch k) 16)) (u32 (Z.shiftl (curPeerId k) 8))) (Z.land (curSeq_hi k) 0xFF)
     | None => Z.lor (u32 (Z.shiftl (curEpoch k) 16)) (Z.land (curSeq_hi k) 0xFFFF)
     end, curSeq_lo k)
  else
    (match mcast with
     | Some mcastID =>
         Z.lor (Z.lor (u32 (Z.shiftl (dtls_epoch k) 16)) (u32 (Z.shiftl mcastID 8)))
           (Z.land (dtls_sequence_number_hi k) 0xFF)
     | None => Z.lor (u32 (Z.shiftl (dtls_epoch k) 16)) (Z.land (dtls_sequence_number_hi k) 0xFFFF)
     end, dtls_sequence_number_lo k).

Definition DtlsSEQIncrement (order : Z) (k : Keys) : Keys :=
  if order =? PREV_ORDER then
    let seq := dtls_prev_sequence_number_lo k in
    let k := { k with dtls_prev_sequence_number_lo := seq +u32 1 } in
    if seq >? dtls_prev_sequence_number_lo k
    then { k with dtls_prev_sequence_number_hi := wrap 16 (dtls_prev_sequence_number_hi k + 1) } else k
  else if order =? PEER_ORDER then
    let seq := peer_sequence_number_lo k in
    let k := { k with peer_sequence_number_lo := seq +u32 1 } in
    if seq >? peer_sequence_number_lo k
    then { k with peer_sequence_number_hi := peer_sequence_number_hi k +u32 1 } else k
  else
    let seq := dtls_sequence_number_lo k in
    let k := { k with dtls_sequence_number_lo := seq +u32 1 } in
    if seq >? dtls_sequence_number_lo k
    then { k with dtls_sequence_number_hi := wrap 16 (dtls_sequence_number_hi k + 1) } else k.

(** The options of the connection these functions look at. *)
Record SeqOptions := { dtls : bool; mcast : option Z }.

(** The eight bytes written, and the state. *)
Definition WriteSEQ (o : SeqOptions) (verifyOrder : Z) (k : Keys) : list Z * Keys :=
  if negb (dtls o) then
    let '(hi, lo, k) := GetSEQIncrement (negb (verifyOrder =? 0)) k in
    (Opaque.c32toa hi ++ Opaque.c32toa lo, k)
  else
    let '(hi, lo) := DtlsGetSEQ (mcast o) verifyOrder k in
    (Opaque.c32toa hi ++ Opaque.c32toa lo, k).

Definition PeekSEQ (o : SeqOptions) (verifyOrder : Z) (k : Keys) : list Z :=
  let '(hi, lo) :=
    if negb (dtls o) then
      if negb (verifyOrder =? 0) then (peer_sequence_number_hi k, peer_sequence_number_lo k)
      else (sequence_number_hi k, sequence_number_lo k)
    else DtlsGetSEQ (mcast o) verifyOrder k in
  Opaque.c32toa hi ++ Opaque.c32toa lo.

(** The check with which [BuildMessage] begins below TLS 1.3. *)
Definition BuildMessage_seq_check (sizeOnly isDtls : bool) (k : Keys) : Z :=
  if negb sizeOnly && negb isDtls && (sequence_number_hi k =? 0xFFFFFFFF) && (sequence_number_lo k =? 0xFFFFFFFF)
  then SEQUENCE_NUMBER_E else 0.

(** TLS 1.3 over a stream (not DTLS). *)
Definition WriteSEQTls13 (verifyOrder : Z) (k : Keys) : list Z * Keys :=
  if verifyOrder =? PEER_ORDER then
    let hi := peer_sequence_number_hi k in
    let lo := peer_sequence_number_lo k in
    let k := { k with peer_sequence_number_lo := lo +u32 1 } in
    (Opaque.c32toa hi ++ Opaque.c32toa lo,
     if lo >? peer_sequence_number_lo k
     then { k with peer_sequence_number_hi := peer_sequence_number_hi k +u32 1 } else k)
  else
    let hi := sequence_number_hi k in
    let lo := sequence_number_lo k in
    let k := { k with sequence_number_lo := lo +u32 1 } in
    (Opaque.c32toa hi ++ Opaque.c32toa lo,
     if lo >? sequence_number_lo k
     then { k with sequence_number_hi := sequence_number_hi k +u32 1 } else k).

(** The nonce, as long as the IV (12 bytes at least).  [addr_n] and [addr_iv] are the
    addresses of the two buffers, on which the word-wise XOR depends. *)
Definition BuildTls13Nonce (addr_n addr_iv : Z) (iv : list Z) (ivSz order : Z) (k : Keys) : list Z * Keys :=
  let ivSz := if ivSz <? AEAD_NONCE_SZ then AEAD_NONCE_SZ else ivSz in
  let seq_offset := ivSz - SEQ_SZ in
  let '(seq, k) := WriteSEQTls13 order k in
  (take (Z.to_nat seq_offset) iv ++
   Buf.xorbuf (addr_n + seq_offset) (addr_iv + seq_offset) seq (drop (Z.to_nat seq_offset) iv) (Z.to_nat SEQ_SZ), k).

(** The fields of the record header that are authenticated: [curRL] when
    decrypting, the ones to be sent when encrypting.  [cid]: the connection ID
    of the direction, empty when none is in use. *)
Record AadFields := { aad_type : Z; pvMajor : Z; pvMinor : Z; cid : list Z }.

(** The additional data, where the sequence number is in it, and the state. *)
Definition writeAeadAuthData (o : SeqOptions) (sz : Z) (f : AadFields) (verifyOrder : Z) (k : Keys) :
  Z + list Z * Z * Keys :=
  let cidSz := Zlen (cid f) in
  if dtls o && (0 <? cidSz) then
    if cidSz >? DTLS_CID_MAX_SIZE then inl DTLS_CID_ERROR
    else
      let pre := replicate 8 0xFF ++ [dtls12_cid; cidSz; dtls12_cid; pvMajor f; pvMinor f] in
      let '(seq, k) := WriteSEQ o verifyOrder k in
      inr (pre ++ seq ++ cid f ++ Opaque.c16toa sz, Zlen pre, k)
  else
    let '(seq, k) := WriteSEQ o verifyOrder k in
    inr (seq ++ [aad_type f; pvMajor f; pvMinor f] ++ Opaque.c16toa sz, 0, k).

(** [AeadIncrementExpIV]: the explicit IV as a big-endian counter; the loop
    runs from the last byte while the increment wraps. *)
Fixpoint inc_from_last (riv : list Z) : list Z :=
  match riv with
  | [] => []
  | b :: t => let b := u8 (b + 1) in if negb (b =? 0) then b :: t else b :: inc_from_last t
  end.

Definition AeadIncrementExpIV (aead_exp_IV : list Z) : list Z := rev (inc_from_last (rev aead_exp_IV)).

(** ** The numbers as integers *)

Definition keys_ok (k : Keys) : Prop :=
  is_word 32 (peer_sequence_number_hi k) /\ is_word 32 (peer_sequence_number_lo k) /\
  is_word 32 (sequence_number_hi k) /\ is_word 32 (sequence_number_lo k) /\
  is_word 16 (dtls_epoch k) /\ is_word 16 (dtls_sequence_number_hi k) /\ is_word 32 (dtls_sequence_number_lo k) /\
  is_word 16 (dtls_prev_sequence_number_hi k) /\ is_word 32 (dtls_prev_sequence_number_lo k) /\
  is_word 16 (curEpoch k) /\ is_word 16 (curSeq_hi k) /\ is_word 32 (curSeq_lo k) /\ is_word 8 (curPeerId k).

(** The TLS number of a direction. *)
Definition tls_seq (peer : bool) (k : Keys) : Z :=
  if peer then peer_sequence_number_hi k * 2 ^ 32 + peer_sequence_number_lo k
  else sequence_number_hi k * 2 ^ 32 + sequence_number_lo k.

Lemma tls_seq_word p k : keys_ok k -> is_word 64 (tls_seq p k).
Proof. unfold keys_ok, is_word, tls_seq. destruct p; lia. Qed.

Lemma be_halves hi lo : is_word 32 hi -> is_word 32 lo ->
  Opaque.c32toa hi ++ Opaque.c32toa lo = be_bytes 8 (hi * 2 ^ 32 + lo).
Proof.
  intros H L. rewrite !c32toa_be by assumption.
  assert (V : be_value (be_bytes 4 hi ++ be_bytes 4 lo) = hi * 2 ^ 32 + lo).
  { rewrite be_value_app by apply be_bytes_is_bytes. unfold Zlen. rewrite be_bytes_length.
    rewrite !be_value_bytes. change (8 * Z.of_nat 4) with 32. rewrite !wrap_small by assumption. reflexivity. }
  rewrite <- V. symmetry.
  replace 8%nat with (length (be_bytes 4 hi ++ be_bytes 4 lo)) by (rewrite length_app, !be_bytes_length; reflexivity).
  apply be_bytes_value, is_bytes_app. split; apply be_bytes_is_bytes.
Qed.

(** The double word with a carry is a counter modulo 2^64. *)
Lemma carry hi lo : is_word 32 hi -> is_word 32 lo ->
  is_word 32 (lo +u32 1) /\ is_word 32 (hi +u32 1) /\
  (if lo >? lo +u32 1 then hi +u32 1 else hi) * 2 ^ 32 + (lo +u32 1) = u64 (hi * 2 ^ 32 + lo + 1).
Proof.
  intros H L. split; [apply wrap_is_word; lia | split; [apply wrap_is_word; lia |]].
  unfold is_word, wrap in *.
  destruct (Z.gtb_spec lo ((lo + 1) mod 2 ^ 32)); Z.to_euclidean_division_equations; lia.
Qed.

(** What a number read leaves: the direction's number plus one, and the rest. *)
Definition advanced (peer : bool) (k k' : Keys) : Prop :=
  keys_ok k' /\ tls_seq peer k' = u64 (tls_seq peer k + 1) /\ tls_seq (negb peer) k' = tls_seq (negb peer) k.

Lemma WriteSEQTls13_spec order k : keys_ok k ->
  let peer := order =? PEER_ORDER in
  fst (WriteSEQTls13 order k) = be_bytes 8 (tls_seq peer k) /\ advanced peer k (snd (WriteSEQTls13 order k)).
Proof.
  intros K peer. pose proof K as (H1 & H2 & H3 & H4 & K'). unfold WriteSEQTls13, advanced, tls_seq, keys_ok in *.
  destruct (carry _ _ H1 H2) as (C1 & C2 & C3). destruct (carry _ _ H3 H4) as (D1 & D2 & D3).
  subst peer. destruct (order =? PEER_ORDER); cbn [fst snd negb]; (split; [now apply be_halves |]); cbn in *;
    match goal with |- context [if ?b then _ else _] => destruct b end; cbn in *; tauto.
Qed.

Lemma GetSEQIncrement_spec verify k : keys_ok k ->
  let '(hi, lo, k') := GetSEQIncrement verify k in
  Opaque.c32toa hi ++ Opaque.c32toa lo = be_bytes 8 (tls_seq verify k) /\ advanced verify k k'.
Proof.
  intros K. pose proof K as (H1 & H2 & H3 & H4 & K'). unfold GetSEQIncrement, advanced, tls_seq, keys_ok in *.
  destruct (carry _ _ H1 H2) as (C1 & C2 & C3). destruct (carry _ _ H3 H4) as (D1 & D2 & D3).
  destruct verify; cbn [negb]; (split; [now apply be_halves |]); cbn in *;
    match goal with |- context [if ?b then _ else _] => destruct b end; cbn in *; tauto.
Qed.

(** The DTLS number: epoch and 48 bits (with multicast, the sender's ID is the
    third byte and eight bits of the number less remain). *)
Definition dtls_seq (id : option Z) (epoch hi lo : Z) : Z :=
  match id with
  | Some m => epoch * 2 ^ 48 + m * 2 ^ 40 + (hi mod 256) * 2 ^ 32 + lo
  | None => epoch * 2 ^ 48 + hi * 2 ^ 32 + lo
  end.

(** The number of the next record sent ([CUR_ORDER]) or of the record being received. *)
Definition dtls_number (mcast : option Z) (order : Z) (k : Keys) : Z :=
  if order =? PEER_ORDER then dtls_seq (const (curPeerId k) <$> mcast) (curEpoch k) (curSeq_hi k) (curSeq_lo k)
  else dtls_seq mcast (dtls_epoch k) (dtls_sequence_number_hi k) (dtls_sequence_number_lo k).

Lemma epoch_word e n hi : is_word 16 e -> is_word 8 n -> is_word 16 hi ->
  Z.lor (u32 (Z.shiftl e 16)) (Z.land hi 0xFFFF) = e * 2 ^ 16 + hi /\
  Z.lor (Z.lor (u32 (Z.shiftl e 16)) (u32 (Z.shiftl n 8))) (Z.land hi 0xFF) = e * 2 ^ 16 + n * 2 ^ 8 + hi mod 256.
Proof.
  intros He Hn Hh. change 0xFFFF with (Z.ones 16). change 0xFF with (Z.ones 8). rewrite !Z.land_ones by lia.
  rewrite (Z.mod_small hi (2 ^ 16)) by exact Hh.
  assert (S1 : Z.shiftl e 16 = e * 2 ^ 16) by (apply Z.shiftl_mul_pow2; lia).
  assert (S2 : Z.shiftl n 8 = n * 2 ^ 8) by (apply Z.shiftl_mul_pow2; lia). unfold is_word in *.
  assert (W1 : u32 (Z.shiftl e 16) = Z.shiftl e 16) by (apply wrap_small; unfold is_word; lia).
  assert (W2 : u32 (Z.shiftl n 8) = Z.shiftl n 8) by (apply wrap_small; unfold is_word; lia).
  rewrite W1, W2. split; [apply lor_shift_add; [lia | exact Hh] |].
  rewrite (lor_shift_add (Z.shiftl n 8)) by (unfold is_word; lia).
  replace (e * 2 ^ 16 + Z.shiftl n 8) with (Z.shiftl (e * 2 ^ 8 + n) 8) by (rewrite Z.shiftl_mul_pow2 by lia; lia).
  rewrite lor_shift_add by (try (unfold is_word; apply Z.mod_pos_bound); lia). change (2 ^ 8) with 256. lia.
Qed.

Lemma DtlsGetSEQ_spec mcast order k : keys_ok k -> from_option (is_word 8) True mcast -> order <> PREV_ORDER ->
  let '(hi, lo) := DtlsGetSEQ mcast order k in
  Opaque.c32toa hi ++ Opaque.c32toa lo = be_bytes 8 (dtls_number mcast order k).
Proof.
  intros (_ & _ & _ & _ & E & H & L & _ & _ & E' & H' & L' & P) M N. unfold DtlsGetSEQ, dtls_number, dtls_seq.
  rewrite (proj2 (Z.eqb_neq order PREV_ORDER) N).
  pose proof (Z.mod_pos_bound (dtls_sequence_number_hi k) 256 ltac:(lia)) as B.
  pose proof (Z.mod_pos_bound (curSeq_hi k) 256 ltac:(lia)) as B'.
  destruct (order =? PEER_ORDER), mcast as [m |]; cbn [fmap option_fmap option_map const from_option] in *.
  - rewrite (proj2 (epoch_word _ _ _ E' P H')), be_halves by (unfold is_word in *; lia). f_equal. lia.
  - rewrite (proj1 (epoch_word _ _ _ E' P H')), be_halves by (unfold is_word in *; lia). f_equal. lia.
  - rewrite (proj2 (epoch_word _ _ _ E M H)), be_halves by (unfold is_word in *; lia). f_equal. lia.
  - rewrite (proj1 (epoch_word _ _ _ E P H)), be_halves by (unfold is_word in *; lia). f_equal. lia.
Qed.

(** Sending advances the 48-bit number and leaves the epoch. *)
Lemma DtlsSEQIncrement_spec k : keys_ok k ->
  let k' := DtlsSEQIncrement CUR_ORDER k in
  dtls_epoch k' = dtls_epoch k /\
  dtls_sequence_number_hi k' * 2 ^ 32 + dtls_sequence_number_lo k' =
  wrap 48 (dtls_sequence_number_hi k * 2 ^ 32 + dtls_sequence_number_lo k + 1).
Proof.
  intros (_ & _ & _ & _ & _ & H & L & _). unfold DtlsSEQIncrement. change (CUR_ORDER =? PREV_ORDER) with false.
  change (CUR_ORDER =? PEER_ORDER) with false. destruct k. cbn in H, L |- *.
  unfold is_word, wrap in *.
  match goal with |- context [if ?a >? ?b then _ else _] => destruct (Z.gtb_spec a b) as [G | G] end; cbn;
    (split; [reflexivity |]); Z.to_euclidean_division_equations; lia.
Qed.

(** ** TLS 1.3 nonces *)

(** RFC 8446, section 5.3: the number, padded on the left, XOR the IV. *)
Definition nonce_of (iv : list Z) (ivSz q : Z) : list Z :=
  let off := Z.to_nat (Z.max ivSz AEAD_NONCE_SZ - SEQ_SZ) in
  take off iv ++ zip_with Z.lxor (be_bytes 8 q) (take 8 (drop off iv)).

Definition iv_ok (iv : list Z) (ivSz : Z) : Prop := is_bytes iv /\ Z.max ivSz AEAD_NONCE_SZ <= Zlen iv.

Lemma BuildTls13Nonce_spec an ai iv ivSz order k : keys_ok k -> iv_ok iv ivSz ->
  let peer := order =? PEER_ORDER in
  fst (BuildTls13Nonce an ai iv ivSz order k) = nonce_of iv ivSz (tls_seq peer k) /\
  advanced peer k (snd (BuildTls13Nonce an ai iv ivSz order k)).
Proof.
  intros K [B L] peer. pose proof (WriteSEQTls13_spec order k K) as S. unfold BuildTls13Nonce.
  destruct (WriteSEQTls13 order k) as [seq k']. cbn [fst snd] in *. fold peer in S. destruct S as [-> A]. split; [| exact A].
  unfold nonce_of, SEQ_SZ, AEAD_NONCE_SZ in *.
  replace (if ivSz <? 12 then 12 else ivSz) with (Z.max ivSz 12) by (destruct (Z.ltb_spec ivSz 12); lia).
  f_equal. unfold Zlen in L. change (Z.to_nat 8) with 8%nat.
  rewrite xorbuf_zip; [| apply be_bytes_is_bytes | apply Forall_drop, B | rewrite be_bytes_length; lia | rewrite length_drop; lia].
  rewrite (take_ge (be_bytes 8 _)), (drop_ge (be_bytes 8 _)), app_nil_r by (rewrite be_bytes_length; lia). reflexivity.
Qed.

Lemma be_bytes_inj n p q : is_word (8 * Z.of_nat n) p -> is_word (8 * Z.of_nat n) q -> be_bytes n p = be_bytes n q -> p = q.
Proof. intros Hp Hq E. apply (f_equal be_value) in E. rewrite !be_value_bytes, !wrap_small in E by assumption. exact E. Qed.

(** The nonce determines the number. *)
Lemma nonce_inj iv ivSz p q : iv_ok iv ivSz -> is_word 64 p -> is_word 64 q ->
  nonce_of iv ivSz p = nonce_of iv ivSz q -> p = q.
Proof.
  intros [B L] Hp Hq E. unfold nonce_of in E. apply app_inv_head in E.
  set (m := take 8 (drop _ iv)) in E.
  assert (Lm : length m = 8%nat).
  { unfold m, Zlen, SEQ_SZ, AEAD_NONCE_SZ in *. rewrite length_take, length_drop. lia. }
  apply (f_equal (fun l => zip_with Z.lxor l m)) in E.
  rewrite !zip_lxor_involutive in E by (rewrite be_bytes_length; lia).
  now apply be_bytes_inj in E.
Qed.

Section Run.
  Context (an ai ivSz : Z) (iv : bool -> list Z).

(** Records sent ([false]) and received ([true]) in any order: the nonces,
    with their direction, and the state at the end. *)
Fixpoint run_nonces (ops : list bool) (k : Keys) : list (bool * list Z) * Keys :=
  match ops with
  | [] => ([], k)
  | peer :: ops =>
      let '(nonce, k) := BuildTls13Nonce an ai (iv peer) ivSz (if peer then PEER_ORDER else CUR_ORDER) k in
      let '(rest, k) := run_nonces ops k in
      ((peer, nonce) :: rest, k)
  end.

(** The nonces of one direction. *)
Definition of_direction (d : bool) (l : list (bool * list Z)) : list (list Z) :=
  map snd (List.filter (fun p => Bool.eqb d (fst p)) l).

Lemma run_nonces_numbers d ops : iv_ok (iv true) ivSz -> iv_ok (iv false) ivSz -> forall k, keys_ok k ->
  let n := length (of_direction d (fst (run_nonces ops k))) in
  (n <= length ops)%nat /\
  of_direction d (fst (run_nonces ops k)) =
  ((fun i => nonce_of (iv d) ivSz (u64 (tls_seq d k + i))) <$> seqZ 0 (Z.of_nat n)) /\
  keys_ok (snd (run_nonces ops k)) /\
  tls_seq d (snd (run_nonces ops k)) = u64 (tls_seq d k + Z.of_nat n).
Proof.
  intros It If. induction ops as [| peer ops IH]; intros k K.
  - cbn. pose proof (tls_seq_word d k K) as W. split; [lia | split; [reflexivity | split; [exact K |]]]. rewrite Z.add_0_r. symmetry. now apply wrap_small.
  - cbn [run_nonces].
    assert (Ip : iv_ok (iv peer) ivSz) by (destruct peer; assumption).
    pose proof (BuildTls13Nonce_spec an ai (iv peer) ivSz (if peer then PEER_ORDER else CUR_ORDER) k K Ip) as S.
    destruct (BuildTls13Nonce _ _ _ _ _ _) as [nonce k']. cbn [fst snd] in S.
    replace ((if peer then PEER_ORDER else CUR_ORDER) =? PEER_ORDER) with peer in S by now destruct peer.
    destruct S as [-> (K' & Sp & Sn)]. specialize (IH k' K'). destruct (run_nonces ops k') as [rest k'']. cbn [fst snd] in *.
    unfold of_direction in *. cbn [List.filter fst]. destruct IH as (Ln & E & K'' & Q).
    destruct (Bool.eqb d peer) eqn:D.
    + apply Bool.eqb_prop in D as ->. cbn [map snd length]. rewrite Nat2Z.inj_succ. split; [lia |]. split; [| split; [exact K'' |]].
      * set (n := Z.of_nat _) in *. unfold Z.succ. rewrite (seqZ_cons 0 (n + 1)) by (unfold n; lia).
        replace (Z.pred (n + 1)) with n by lia. cbn [fmap list_fmap]. f_equal.
        -- now rewrite Z.add_0_r, wrap_small by now apply tls_seq_word.
        -- rewrite E. change (Z.succ 0) with (1 + 0). rewrite <- fmap_add_seqZ, <- list_fmap_compose.
           apply list_fmap_ext. intros _ i _. unfold compose. rewrite Sp. f_equal. unfold wrap. rewrite Zplus_mod_idemp_l. f_equal. lia.
      * rewrite Q, Sp. unfold wrap. rewrite Zplus_mod_idemp_l. f_equal. lia.
    + assert (Sd : tls_seq d k' = tls_seq d k) by (destruct d, peer; try discriminate D; exact Sn).
      rewrite Sd in *. split; [cbn [length]; lia | split; [exact E | split; [exact K'' | exact Q]]].
Qed.

End Run.

(** [C24] In any interleaving of records sent and received, starting from any number,
    the nonces of the first 2^64 records of a direction are pairwise different
    under one IV.  (For TLS 1.3 the code does not stop there: see [number_wraps];
    for TLS 1.2 it does: see [BuildMessage_no_wrap].) *)
Theorem record_nonces_unique an ai ivSz iv ops k d :
  iv_ok (iv true) ivSz -> iv_ok (iv false) ivSz -> keys_ok k -> Z.of_nat (length ops) <= 2 ^ 64 ->
  NoDup (of_direction d (fst (run_nonces an ai ivSz iv ops k))).
Proof.
  intros It If K L. destruct (run_nonces_numbers an ai ivSz iv d ops It If k K) as (Ln & -> & _ & _).
  apply NoDup_fmap_2_strong; [| apply NoDup_seqZ].
  intros i j Hi%elem_of_seqZ Hj%elem_of_seqZ E.
  apply nonce_inj in E; [| destruct d; assumption | apply wrap_is_word; lia ..].
  pose proof (tls_seq_word d k K) as W. unfold wrap, is_word in *. Z.to_euclidean_division_equations; lia.
Qed.

(** ** Numbers at the limit *)

(** After the last number comes 0, without an error. *)
Lemma number_wraps peer k k' : advanced peer k k' -> tls_seq peer k = 2 ^ 64 - 1 -> tls_seq peer k' = 0.
Proof. intros (_ & A & _) E. now rewrite A, E. Qed.

(** [BuildMessage] for TLS 1.2 gives up the last number instead. *)
Lemma BuildMessage_no_wrap k k' : keys_ok k -> advanced false k k' ->
  BuildMessage_seq_check false false k = 0 -> tls_seq false k' = tls_seq false k + 1.
Proof.
  intros K (_ & A & _) C. rewrite A. apply wrap_small.
  pose proof (tls_seq_word false k K) as W. destruct K as (_ & _ & H & L & _). revert C. unfold BuildMessage_seq_check, tls_seq, is_word in *. cbn [negb andb].
  destruct (Z.eqb_spec (sequence_number_hi k) 0xFFFFFFFF), (Z.eqb_spec (sequence_number_lo k) 0xFFFFFFFF); cbn; intros C; try discriminate C; lia.
Qed.

(** ** The additional data of TLS 1.2 AEAD records *)

(** The eight bytes [WriteSEQ] writes as a number. *)
Definition record_number (o : SeqOptions) (verifyOrder : Z) (k : Keys) : list Z := fst (WriteSEQ o verifyOrder k).

(** [PeekSEQ] writes what the next [WriteSEQ] writes. *)
Lemma PeekSEQ_WriteSEQ o verifyOrder k : PeekSEQ o verifyOrder k = record_number o verifyOrder k.
Proof.
  unfold PeekSEQ, record_number, WriteSEQ, GetSEQIncrement. destruct (dtls o); cbn [negb].
  - now destruct (DtlsGetSEQ _ _ _).
  - now destruct (negb (verifyOrder =? 0)).
Qed.

Lemma record_number_length o verifyOrder k : length (record_number o verifyOrder k) = 8%nat.
Proof.
  unfold record_number, WriteSEQ. destruct (negb _).
  - destruct (GetSEQIncrement _ k) as [[hi lo] k']. reflexivity.
  - destruct (DtlsGetSEQ _ _ k) as [hi lo]. reflexivity.
Qed.

Lemma writeAeadAuthData_eq o sz f verifyOrder k :
  writeAeadAuthData o sz f verifyOrder k =
  if dtls o && (0 <? Zlen (cid f)) then
    if Zlen (cid f) >? DTLS_CID_MAX_SIZE then inl DTLS_CID_ERROR
    else inr (replicate 8 0xFF ++ [dtls12_cid; Zlen (cid f); dtls12_cid; pvMajor f; pvMinor f] ++
              record_number o verifyOrder k ++ cid f ++ be_bytes 2 sz, 13, snd (WriteSEQ o verifyOrder k))
  else inr (record_number o verifyOrder k ++ [aad_type f; pvMajor f; pvMinor f] ++ be_bytes 2 sz, 0,
            snd (WriteSEQ o verifyOrder k)).
Proof.
  unfold writeAeadAuthData, record_number. rewrite <- c16toa_be. destruct (WriteSEQ o verifyOrder k) as [seq k']. cbn [fst snd].
  destruct (dtls o && (0 <? Zlen (cid f))); [| reflexivity].
  destruct (Zlen (cid f) >? DTLS_CID_MAX_SIZE); [reflexivity |]. now rewrite <- app_assoc.
Qed.

(** [C25] The additional data binds the record: when two records, of any two states,
    get the same additional data, they have the same record number,
    version, length and connection ID, and without a connection ID the same type.
    In particular a record with a connection ID is never taken for one without. *)
Theorem writeAeadAuthData_binds o o' sz sz' f f' ord ord' k k' aad s k1 s' k1' :
  is_word 16 sz -> is_word 16 sz' ->
  writeAeadAuthData o sz f ord k = inr (aad, s, k1) -> writeAeadAuthData o' sz' f' ord' k' = inr (aad, s', k1') ->
  record_number o ord k = record_number o' ord' k' /\ sz = sz' /\ pvMajor f = pvMajor f' /\ pvMinor f = pvMinor f' /\
  (dtls o && (0 <? Zlen (cid f))) = (dtls o' && (0 <? Zlen (cid f'))) /\
  (if dtls o && (0 <? Zlen (cid f)) then cid f = cid f' else aad_type f = aad_type f').
Proof.
  intros Hs Hs'. rewrite !writeAeadAuthData_eq.
  pose proof (record_number_length o ord k) as L. pose proof (record_number_length o' ord' k') as L'.
  assert (two : forall p q, be_bytes 2 p = be_bytes 2 q -> is_word 16 p -> is_word 16 q -> p = q) by (intros; now apply (be_bytes_inj 2)).
  destruct (dtls o && (0 <? Zlen (cid f))) eqn:C, (dtls o' && (0 <? Zlen (cid f'))) eqn:C'.
  - destruct (Zlen (cid f) >? _); [discriminate |]. destruct (Zlen (cid f') >? _); [discriminate |].
    intros [= <- <- <-] [= Lc Ma Mi E _ _].
    apply app_inj_1 in E as [E1 E]; [| lia]. apply app_inj_1 in E as [E2 E]; [| unfold Zlen in Lc; lia].
    apply two in E; [| assumption ..]. repeat split; congruence.
  - destruct (Zlen (cid f) >? _); [discriminate |]. intros [= <- <- <-] [= E _ _].
    apply (f_equal length) in E. repeat (rewrite ?length_app, ?be_bytes_length in E; cbn [length replicate app] in E). lia.
  - intros [= <- <- <-]. destruct (Zlen (cid f') >? _); [discriminate |]. intros [= E _ _].
    apply (f_equal length) in E. repeat (rewrite ?length_app, ?be_bytes_length in E; cbn [length replicate app] in E). lia.
  - intros [= <- <- <-] [= E _ _]. apply app_inj_1 in E as [E1 E]; [| lia].
    change ([aad_type f'; pvMajor f'; pvMinor f'] ++ be_bytes 2 sz' = [aad_type f; pvMajor f; pvMinor f] ++ be_bytes 2 sz) in E.
    apply app_inj_1 in E as [E3 E]; [| reflexivity]. injection E3 as Ty Ma Mi. apply two in E; [| assumption ..]. repeat split; congruence.
Qed.

(** ** Witnesses *)

Definition keys0 : Keys :=
  {| peer_sequence_number_hi := 0; peer_sequence_number_lo := 0xFFFFFFFF; sequence_number_hi := 0; sequence_number_lo := 7;
     dtls_epoch := 1; dtls_sequence_number_hi := 0; dtls_sequence_number_lo := 5;
     dtls_prev_sequence_number_hi := 0; dtls_prev_sequence_number_lo := 0;
     curEpoch := 1; curSeq_hi := 0; curSeq_lo := 9; curPeerId := 0 |}.

Lemma keys0_ok : keys_ok keys0.
Proof. repeat split; discriminate. Qed.

Lemma record_nonces_unique_witness :
  NoDup (of_direction true (fst (run_nonces 0 0 12 (fun _ => replicate 12 9) [true; false; true; true] keys0))) /\
  length (of_direction true (fst (run_nonces 0 0 12 (fun _ => replicate 12 9) [true; false; true; true] keys0))) = 3%nat.
Proof.
  split; [| reflexivity].
  apply (record_nonces_unique 0 0 12 (fun _ => replicate 12 9) [true; false; true; true] keys0 true);
    [split; [repeat constructor; discriminate | discriminate] .. | exact keys0_ok | discriminate].
Defined.

Definition opts_cid : SeqOptions := {| dtls := true; mcast := None |}.
Definition fields_cid : AadFields := {| aad_type := 23; pvMajor := 254; pvMinor := 253; cid := [1; 2; 3] |}.

(** Another state and another content type, the same additional data. *)
Definition keys1 : Keys := { { keys0 with sequence_number_lo := 99 } with curSeq_lo := 4 }.

Lemma writeAeadAuthData_binds_witness :
  let fields := { fields_cid with aad_type := 22 } in
  (exists aad, writeAeadAuthData opts_cid 40 fields_cid CUR_ORDER keys0 = inr (aad, 13, snd (WriteSEQ opts_cid CUR_ORDER keys0)) /\
     writeAeadAuthData opts_cid 40 fields CUR_ORDER keys1 = inr (aad, 13, snd (WriteSEQ opts_cid CUR_ORDER keys1))) /\
  record_number opts_cid CUR_ORDER keys0 = record_number opts_cid CUR_ORDER keys1 /\ cid fields_cid = cid fields.
Proof.
  intros fields. split; [eexists; split; vm_compute; reflexivity |].
  destruct (writeAeadAuthData_binds opts_cid opts_cid 40 40 fields_cid fields CUR_ORDER CUR_ORDER keys0 keys1
    _ _ _ _ _ ltac:(split; (discriminate || reflexivity)) ltac:(split; (discriminate || reflexivity)) eq_refl eq_refl)
    as (N & _ & _ & _ & _ & C). split; [exact N | exact C].
Defined.
