(* ===== verification/TlsSend13.v ===== *)
(** * src/tls13.c, src/internal.c: sending TLS 1.3 records

    [BuildTls13Message], the output buffer ([SendBuffered]), alerts,
    [SendData] with its AEAD limits, and KeyUpdate ([SendTls13KeyUpdate]), over
    a stream socket after the handshake.  The cipher and the key schedule are
    the class [RecordCrypto]; the socket is a script of the results [CBIOSend]
    will give.  Built without DTLS, QUIC, early data, asynchronous or threaded
    cryptography, compression, write duplication and record callbacks. *)

From S2P Require Import Prelude Misc W64 Tls TlsSeq.
From stdpp Require Import list relations.

#[local] Open Scope Z_scope.
#[local] Open Scope cword_scope.

(** ** Constants *)

Definition RECORD_HEADER_SZ : Z := 5.
Definition HANDSHAKE_HEADER_SZ : Z := 4.
Definition SSLv3_MAJOR : Z := 3.
Definition TLSv1_2_MINOR : Z := 3.
Definition ALERT_SIZE : Z := 2.
Definition MAX_RECORD_SIZE : Z := 16384.
Definition MAX_MSG_EXTRA : Z := 38 + 64.
Definition INT_MAX : Z := 2 ^ 31 - 1.
Definition update_not_requested : Z := 0.
Definition update_requested : Z := 1.
Definition alert_none : Z := 0.

Definition WANT_READ : Z := -323.
Definition WANT_WRITE : Z := -327.
Definition SOCKET_ERROR_E : Z := -308.
Definition SOCKET_PEER_CLOSED_E : Z := -397.
Definition SEND_OOB_READ_E : Z := -387.
Definition BUILD_MSG_ERROR : Z := -320.
Definition VERIFY_MAC_ERROR : Z := -305.
Definition DECRYPT_ERROR : Z := -312.
Definition WOLFSSL_FATAL_ERROR : Z := -1.

(** [specs.bulk_cipher_algorithm], as far as the limits go. *)
Inductive bulk_cipher := wolfssl_cipher_null | wolfssl_aes_gcm | wolfssl_aes_ccm | wolfssl_chacha | other_cipher.

#[export] Instance bulk_eq_dec : EqDecision bulk_cipher.
Proof. solve_decision. Defined.

(** A result that is 0 or an error, and not the wait for input. *)
Definition plain (c : Z) : Prop := c <= 0 /\ c <> WANT_READ.

(** ** The cipher and the key schedule *)

(** [S]: the traffic secret of a direction.  [rc_encrypt] and [rc_decrypt] take
    the key derived from it, a nonce, additional data and the text; the
    ciphertext ends with the tag.  [rc_update]: the next secret
    ([DeriveTls13Keys] with [update_traffic_key]). *)
Class RecordCrypto (S : Type) := {
  rc_encrypt : S -> list Z -> list Z -> list Z -> list Z;
  rc_decrypt : S -> list Z -> list Z -> list Z -> Z * list Z;
  rc_iv : S -> list Z;
  rc_update : S -> S;
  iv_size : Z;
  aead_mac_size : Z
}.

Class RecordCryptoSpec (S : Type) `{RecordCrypto S} : Prop := {
  rc_encrypt_length s n a p : Zlen (rc_encrypt s n a p) = Zlen p + aead_mac_size;
  rc_encrypt_bytes s n a p : is_bytes p -> is_bytes (rc_encrypt s n a p);
  rc_decrypt_encrypt s n a p : rc_decrypt s n a (rc_encrypt s n a p) = (0, p);
  rc_decrypt_length s n a c : aead_mac_size <= Zlen c -> Zlen (snd (rc_decrypt s n a c)) = Zlen c - aead_mac_size;
  rc_decrypt_bytes s n a c : is_bytes c -> is_bytes (snd (rc_decrypt s n a c));
  rc_decrypt_code s n a c : plain (fst (rc_decrypt s n a c));
  rc_iv_ok s : iv_ok (rc_iv s) iv_size;
  aead_mac_size_range : 0 < aead_mac_size <= 64
}.

(** ** State *)

(** What one call of [CBIOSend] does: it takes [n] bytes, or all when there are
    fewer; the other outcomes are its error codes, and a callback that claims
    more than it was given. *)
Inductive send_result := Takes (n : Z) | Would_block | Interrupted | Conn_reset | Send_error | Overrun.

Section Send.
  Context {S T : Type} `{RecordCrypto S, W64Ops T}.

(** A record sealed: the secret and number used, content type, content. *)
Record Sealed := { s_secret : S; s_seq : Z; s_type : Z; s_content : list Z }.

(** What sending reads and writes of [WOLFSSL].  [encSecret] is the secret of this
    side, with [ssl->encrypt] and the IV derived from it; [outputBuffer] holds
    the bytes from [idx] on.  [sock] and [wire] are the socket: the results
    to come and the bytes taken; [hist] is a history variable. *)
Record Tx := {
  keys : Keys; encSecret : S; bulk : bulk_cipher; encryptOn : bool;
  updateResponseReq : bool; keyUpdateRespond : bool; keyUpdateCount : T;
  outputBuffer : list Z; prevSent : Z; plainSz : Z;
  pendingAlert_code : Z; pendingAlert_level : Z; last_tx_code : Z; last_tx_level : Z;
  isClosed : bool; connReset : bool; partialWrite : bool; error : Z;
  sock : list send_result; wire : list Z; hist : list Sealed
}.

(** ** Building a record *)

Definition AddTls13RecordHeader (length type : Z) : list Z :=
  [type; SSLv3_MAJOR; TLSv1_2_MINOR] ++ Opaque.c16toa (u16 length).

(** [input] is the content with its type; the bytes behind it are the place of the tag. *)
Definition EncryptTls13 (input : list Z) (sz : Z) (aad : list Z) (t : Tx) : Z * list Z * Tx :=
  if sz <? aead_mac_size then (BUFFER_E, [], t)
  else
    let dataSz := sz - aead_mac_size in
    let '(nonce, k) := BuildTls13Nonce 0 0 (rc_iv (encSecret t)) iv_size CUR_ORDER (keys t) in
    (0, rc_encrypt (encSecret t) nonce aad (take (Z.to_nat dataSz) input), { t with keys := k }).

(** With [sizeOnly]. *)
Definition BuildTls13Message_size (inSz : Z) : Z := RECORD_HEADER_SZ + inSz + 1 + aead_mac_size.

(** The code or size, the bytes written to [output], and the state.  No transcript ([hashOutput] is 0). *)
Definition BuildTls13Message (outSz : Z) (input : list Z) (type : Z) (t : Tx) : Z * list Z * Tx :=
  let sz := BuildTls13Message_size (Zlen input) in
  if sz >? outSz then (BUFFER_E, [], t)
  else
    let size := u16 (sz - RECORD_HEADER_SZ) in
    let aad := AddTls13RecordHeader size application_data in
    let '(ret, text, t') := EncryptTls13 (input ++ [u8 type]) size aad t in
    if negb (ret =? 0) then (ret, [], t')
    else
      (sz, aad ++ text,
       { t' with hist := hist t' ++ [{| s_secret := encSecret t; s_seq := tls_seq false (keys t);
                                       s_type := u8 type; s_content := input |}] }).

(** ** The output buffer *)

Fixpoint send_loop (script : list send_result) (out taken : list Z) : Z * list send_result * list Z * list Z * bool :=
  match out with
  | [] => (0, script, [], taken, false)
  | _ =>
      match script with
      | [] => (0, [], [], taken ++ out, false)
      | Takes n :: script => send_loop script (drop (Z.to_nat n) out) (taken ++ take (Z.to_nat n) out)
      | Overrun :: script => (SEND_OOB_READ_E, script, out, taken, false)
      | Interrupted :: script => send_loop script out taken
      | Would_block :: script => (WANT_WRITE, script, out, taken, false)
      | Conn_reset :: script => (SOCKET_ERROR_E, script, out, taken, true)
      | Send_error :: script => (SOCKET_ERROR_E, script, out, taken, false)
      end
  end.

Definition SendBuffered (t : Tx) : Z * Tx :=
  let '(ret, script, out, taken, reset) := send_loop (sock t) (outputBuffer t) (wire t) in
  let t := { { { t with sock := script } with outputBuffer := out } with wire := taken } in
  (ret, if reset then { t with connReset := true } else t).

(** ** Alerts *)

Definition SendAlert_ex (severity type : Z) (t : Tx) : Z * Tx :=
  let t := { { t with pendingAlert_code := type } with pendingAlert_level := severity } in
  let outputSz := ALERT_SIZE + MAX_MSG_EXTRA in
  let t := { { t with last_tx_code := type } with last_tx_level := severity } in
  let t := if severity =? alert_fatal then { t with isClosed := true } else t in
  let '(sendSz, out, t) :=
    if encryptOn t then BuildTls13Message outputSz [u8 severity; u8 type] alert t
    else (RECORD_HEADER_SZ + ALERT_SIZE,
          [alert; SSLv3_MAJOR; TLSv1_2_MINOR] ++ Opaque.c16toa ALERT_SIZE ++ [u8 severity; u8 type], t) in
  if sendSz <? 0 then (BUILD_MSG_ERROR, t)
  else
    let t := { t with outputBuffer := outputBuffer t ++ out } in
    let '(ret, t) := SendBuffered t in
    (ret, { { t with pendingAlert_code := 0 } with pendingAlert_level := alert_none }).

Definition RetrySendAlert (t : Tx) : Z * Tx :=
  let type := pendingAlert_code t in
  let severity := pendingAlert_level t in
  if severity =? alert_none then (0, t)
  else SendAlert_ex severity type { { t with pendingAlert_code := 0 } with pendingAlert_level := alert_none }.

Definition SendAlert (severity type : Z) (t : Tx) : Z * Tx :=
  let '(ret, t) := if negb (pendingAlert_level t =? alert_none) then RetrySendAlert t else (0, t) in
  if negb (ret =? 0) then
    (ret,
     if (pendingAlert_level t =? alert_none) ||
        (negb (pendingAlert_level t =? alert_fatal) && (severity =? alert_fatal))
     then { { t with pendingAlert_code := type } with pendingAlert_level := severity } else t)
  else SendAlert_ex severity type t.

(** ** Key updates *)

Definition Tls13KeyUpdateLimitReached (t : Tx) : bool :=
  w64GTE (keyUpdateCount t) (w64From32 0x0000FFFF 0xFFFFFFFF).

(** [DeriveTls13Keys(update_traffic_key)] and [SetKeysSide] for one side: the
    next secret, and the side's number starts again. *)
Definition update_encrypt_side (t : Tx) : Tx :=
  { { t with encSecret := rc_update (encSecret t) }
    with keys := { { keys t with sequence_number_hi := 0 } with sequence_number_lo := 0 } }.

Definition SendTls13KeyUpdate (t : Tx) : Z * Tx :=
  if Tls13KeyUpdateLimitReached t then (BAD_STATE_E, t)
  else
    let outputSz := 1 + MAX_MSG_EXTRA in
    let request := negb (updateResponseReq t) && negb (keyUpdateRespond t) in
    let t := { { t with updateResponseReq := request } with keyUpdateRespond := false } in
    let msg := [key_update; 0; 0; 1; if request then 1 else 0] in
    let '(sendSz, out, t) := BuildTls13Message outputSz msg handshake t in
    if sendSz <? 0 then (BUILD_MSG_ERROR, t)
    else
      let t := { t with outputBuffer := outputBuffer t ++ out } in
      let '(ret, t) := SendBuffered t in
      if negb (ret =? 0) && negb (ret =? WANT_WRITE) then (ret, t)
      else
        let t := update_encrypt_side t in
        (0, { t with keyUpdateCount := w64Increment (keyUpdateCount t) }).

Definition Tls13UpdateKeys (t : Tx) : Z * Tx := SendTls13KeyUpdate t.

Definition AEAD_AES_LIMIT : T := w64From32 0 0x016A09E6.

Definition CheckTLS13AEADSendLimit (t : Tx) : Z * Tx :=
  match bulk t with
  | wolfssl_chacha | wolfssl_cipher_null => (0, t)
  | other_cipher => (BAD_STATE_E, t)
  | wolfssl_aes_gcm | wolfssl_aes_ccm =>
      let seq := w64From32 (sequence_number_hi (keys t)) (sequence_number_lo (keys t)) in
      if w64GTE seq AEAD_AES_LIMIT then Tls13UpdateKeys t else (0, t)
  end.

(** ** Application data *)

Definition wolfSSL_GetMaxFragSize : Z := MAX_RECORD_SIZE.

Definition wolfssl_local_GetRecordSize (payloadSz : Z) : Z := BuildTls13Message_size payloadSz.

(** The [for] loop of [SendData]; an iteration that continues sends a byte at least. *)
Fixpoint send_records (fuel : nat) (data : list Z) (sent : Z) (t : Tx) : option (Z * Tx) :=
  match fuel with
  | O => None
  | Datatypes.S fuel =>
      let sz := Zlen data in
      let '(ret, t) := CheckTLS13AEADSendLimit t in
      if negb (ret =? 0) then Some (WOLFSSL_FATAL_ERROR, { t with error := ret })
      else if sent =? sz then Some (sent, t)
      else
        let buffSz := sz -u32 sent in
        if buffSz <=? 0 then Some (WOLFSSL_FATAL_ERROR, { t with error := BAD_FUNC_ARG })
        else
          let buffSz := if wolfSSL_GetMaxFragSize >? 0 then Z.min buffSz wolfSSL_GetMaxFragSize else buffSz in
          let outputSz := wolfssl_local_GetRecordSize buffSz in
          let sendBuffer := take (Z.to_nat buffSz) (drop (Z.to_nat sent) data) in
          let '(sendSz, out, t) := BuildTls13Message outputSz sendBuffer application_data t in
          if sendSz <? 0 then Some (BUILD_MSG_ERROR, { t with error := sendSz })
          else
            let t := { t with outputBuffer := outputBuffer t ++ out } in
            let '(err, t) := SendBuffered t in
            if err <? 0 then
              let t := { { { t with error := err } with plainSz := buffSz } with prevSent := sent } in
              if (err =? SOCKET_ERROR_E) && (connReset t || isClosed t)
              then Some (0, { t with error := SOCKET_PEER_CLOSED_E })
              else Some (err, t)
            else
              let t := { t with error := 0 } in
              let sent := sent +u32 buffSz in
              if partialWrite t then Some (sent, t) else send_records fuel data sent t
  end.

(** [SendData] once the handshake is over; [None]: out of fuel. *)
Definition SendData (data : list Z) (t : Tx) : option (Z * Tx) :=
  let sz := Zlen data in
  if sz >? INT_MAX then Some (WOLFSSL_FATAL_ERROR, t)
  else
    let t := if error t =? WANT_WRITE then { t with error := 0 } else t in
    if (error t =? VERIFY_MAC_ERROR) || (error t =? DECRYPT_ERROR) then Some (WOLFSSL_FATAL_ERROR, t)
    else
      let '(stop, sent, t) :=
        if negb (bool_decide (outputBuffer t = [])) then
          let '(err, t) := SendBuffered t in
          if err <? 0 then
            if (err =? SOCKET_ERROR_E) && (connReset t || isClosed t)
            then (Some 0, 0, { t with error := SOCKET_PEER_CLOSED_E })
            else (Some err, 0, { t with error := err })
          else
            let sent := prevSent t +u32 plainSz t in
            let t := { { t with prevSent := 0 } with plainSz := 0 } in
            if sent >? sz then (Some BAD_FUNC_ARG, 0, { t with error := BAD_FUNC_ARG }) else (None, sent, t)
        else (None, 0, t) in
      match stop with
      | Some ret => Some (ret, t)
      | None =>
          let '(ret, t) := RetrySendAlert t in
          if negb (ret =? 0) then Some (WOLFSSL_FATAL_ERROR, { t with error := ret })
          else send_records (Datatypes.S (length data)) data sent t
      end.

(** ** Other handshake messages *)

(** The end of the functions that send a handshake message of its own
    ([SendTls13NewSessionTicket]). *)
Definition send_handshake_message (msg : list Z) (t : Tx) : Z * Tx :=
  let outputSz := RECORD_HEADER_SZ + Zlen msg + MAX_MSG_EXTRA in
  let '(sendSz, out, t) := BuildTls13Message outputSz msg handshake t in
  if sendSz <? 0 then (sendSz, t)
  else SendBuffered { t with outputBuffer := outputBuffer t ++ out }.

(** ** The trace of a sender *)

(** The bytes of a record. *)
Definition record_aad (e : Sealed) : list Z :=
  AddTls13RecordHeader (Zlen (s_content e) + 1 + aead_mac_size) application_data.

Definition seal_bytes (e : Sealed) : list Z :=
  record_aad e ++
  rc_encrypt (s_secret e) (nonce_of (rc_iv (s_secret e)) iv_size (s_seq e)) (record_aad e) (s_content e ++ [s_type e]).

(** A handshake message that fills a record: header and body. *)
Definition whole_message (type : Z) (body : list Z) : list Z := type :: be_bytes 3 (Zlen body) ++ body.

Definition is_key_update (e : Sealed) : bool :=
  (s_type e =? handshake) && (rd (s_content e) 0 =? key_update).

(** What an honest sender seals. *)
Inductive content_ok : Z -> list Z -> Prop :=
| ok_data d : is_bytes d -> 0 < Zlen d <= MAX_RECORD_SIZE -> content_ok application_data d
| ok_alert severity type : is_word 8 severity -> is_word 8 type -> content_ok alert [severity; type]
| ok_key_update b : b = update_not_requested \/ b = update_requested -> content_ok handshake (whole_message key_update [b])
| ok_message type body : is_word 8 type -> type <> key_update -> is_bytes body -> Zlen body <= MAX_RECORD_SIZE - HANDSHAKE_HEADER_SZ ->
    content_ok handshake (whole_message type body).

(** Records sealed one after the other, from a secret and number to the next: the
    number counts up, and a KeyUpdate moves to the next secret. *)
Fixpoint chain (s : S) (q : Z) (l : list Sealed) (s' : S) (q' : Z) : Prop :=
  match l with
  | [] => s' = s /\ q' = q
  | e :: l =>
      s_secret e = s /\ s_seq e = q /\ content_ok (s_type e) (s_content e) /\
      if is_key_update e then chain (rc_update s) 0 l s' q' else chain s (u64 (q + 1)) l s' q'
  end.

(** A socket that neither breaks nor lies. *)
Definition benign (r : send_result) : Prop :=
  match r with Takes _ | Would_block | Interrupted => True | _ => False end.

Definition tx_ok (t : Tx) : Prop :=
  keys_ok (keys t) /\ encryptOn t = true /\ Forall benign (sock t) /\ pendingAlert_level t = alert_none.

(** From [t] to [t'] exactly the records [l] were sealed and put out. *)
Record emits (t : Tx) (l : list Sealed) (t' : Tx) : Prop := {
  em_hist : hist t' = hist t ++ l;
  em_chain : chain (encSecret t) (tls_seq false (keys t)) l (encSecret t') (tls_seq false (keys t'));
  em_wire : wire t' ++ outputBuffer t' = wire t ++ outputBuffer t ++ concat (seal_bytes <$> l);
  em_ok : tx_ok t';
  em_sock : (length (sock t') <= length (sock t))%nat;
  em_peer : tls_seq true (keys t') = tls_seq true (keys t)
}.

(** The application data among the records. *)
Definition app_data (l : list Sealed) : list Z :=
  concat (s_content <$> filter (fun e => s_type e = application_data) l).

(** ** Lemmas *)

Lemma sealed_chain_app l1 : forall s q s1 q1 l2 s2 q2,
  chain s q l1 s1 q1 -> chain s1 q1 l2 s2 q2 -> chain s q (l1 ++ l2) s2 q2.
Proof.
  induction l1 as [| e l1 IH]; intros s q s1 q1 l2 s2 q2; [now intros [-> ->] |].
  cbn [chain app]. intros (-> & -> & C & R) H2. split; [reflexivity | split; [reflexivity | split; [exact C |]]].
  destruct (is_key_update e); (eapply IH; eassumption).
Qed.

Lemma app_data_app l1 l2 : app_data (l1 ++ l2) = app_data l1 ++ app_data l2.
Proof. unfold app_data. now rewrite filter_app, fmap_app, concat_app. Qed.

Lemma emits_trans t l1 t1 l2 t2 : emits t l1 t1 -> emits t1 l2 t2 -> emits t (l1 ++ l2) t2.
Proof.
  intros [H1 C1 W1 O1 S1 P1] [H2 C2 W2 O2 S2 P2]. split.
  - now rewrite H2, H1, app_assoc.
  - eapply sealed_chain_app; eassumption.
  - rewrite W2, app_assoc, W1, fmap_app, concat_app. now rewrite <- !app_assoc.
  - exact O2.
  - lia.
  - congruence.
Qed.

(** Nothing sealed; bytes may have moved to the socket. *)
Lemma emits_quiet t t' :
  hist t' = hist t -> encSecret t' = encSecret t -> keys t' = keys t -> encryptOn t' = encryptOn t ->
  wire t' ++ outputBuffer t' = wire t ++ outputBuffer t -> Forall benign (sock t') ->
  (length (sock t') <= length (sock t))%nat -> pendingAlert_level t' = alert_none -> tx_ok t -> emits t [] t'.
Proof.
  intros Hh Hs Hk He Hw Hb Hl Hp (K & E & B & P). split.
  - now rewrite Hh, app_nil_r.
  - rewrite Hs, Hk. split; reflexivity.
  - rewrite Hw. cbn. now rewrite app_nil_r.
  - split; [now rewrite Hk | split; [congruence | split; assumption]].
  - exact Hl.
  - now rewrite Hk.
Qed.

Lemma emits_refl t : tx_ok t -> emits t [] t.
Proof. intros O. pose proof O as (_ & _ & B & P). now apply emits_quiet. Qed.

Lemma send_loop_spec script : forall out taken, Forall benign script ->
  let '(ret, script', out', taken', reset) := send_loop script out taken in
  taken' ++ out' = taken ++ out /\ Forall benign script' /\ reset = false /\ (length script' <= length script)%nat /\
  (ret = 0 /\ out' = [] \/ ret = WANT_WRITE /\ out' <> [] /\ (length script' < length script)%nat).
Proof.
  induction script as [| r script IH]; intros out taken B; (destruct out as [| b out]; cbn [send_loop]; [repeat (split; [reflexivity || assumption || lia |]); now left |]).
  - rewrite app_nil_r. repeat (split; [reflexivity || assumption || lia |]). now left.
  - apply Forall_cons in B as [Br B]. destruct r; try contradiction; cbn [length].
    + specialize (IH (drop (Z.to_nat n) (b :: out)) (taken ++ take (Z.to_nat n) (b :: out)) B).
      destruct (send_loop script _ _) as [[[[ret sc] o] w] rs]. rewrite <- app_assoc, take_drop in IH.
      destruct IH as (W & B' & R & L & IH). repeat split; try assumption; [lia |]. destruct IH as [IH | (? & ? & ?)]; [now left | right; repeat split; (assumption || lia)].
    + split; [reflexivity | split; [exact B | split; [reflexivity | split; [lia | right; repeat split; [discriminate | lia]]]]].
    + specialize (IH (b :: out) taken B). destruct (send_loop script _ _) as [[[[ret sc] o] w] rs].
      destruct IH as (W & B' & R & L & IH). repeat split; try assumption; [lia |]. destruct IH as [IH | (? & ? & ?)]; [now left | right; repeat split; (assumption || lia)].
Qed.

Lemma SendBuffered_spec t : Forall benign (sock t) ->
  exists r sc o w, SendBuffered t = (r, { { { t with sock := sc } with outputBuffer := o } with wire := w }) /\
    w ++ o = wire t ++ outputBuffer t /\ Forall benign sc /\ (length sc <= length (sock t))%nat /\
    (r = 0 /\ o = [] \/ r = WANT_WRITE /\ o <> [] /\ (length sc < length (sock t))%nat).
Proof.
  intros B. unfold SendBuffered. pose proof (send_loop_spec (sock t) (outputBuffer t) (wire t) B) as L.
  destruct (send_loop _ _ _) as [[[[r sc] o] w] rs]. destruct L as (W & B' & -> & L & R). now exists r, sc, o, w.
Qed.

Lemma SendBuffered_emits t : tx_ok t -> emits t [] (snd (SendBuffered t)).
Proof.
  intros O. pose proof O as (K & E & B & P). destruct (SendBuffered_spec t B) as (r & sc & o & w & -> & W & B' & Lk & _).
  apply emits_quiet; try reflexivity; assumption.
Qed.

Context `{!RecordCryptoSpec S, !W64Val T, !W64 T}.

Lemma BuildTls13Message_spec outSz input type t :
  keys_ok (keys t) -> is_word 8 type -> Zlen input <= MAX_RECORD_SIZE -> BuildTls13Message_size (Zlen input) <= outSz ->
  let e := {| s_secret := encSecret t; s_seq := tls_seq false (keys t); s_type := type; s_content := input |} in
  exists k, advanced false (keys t) k /\
    BuildTls13Message outSz input type t =
    (BuildTls13Message_size (Zlen input), seal_bytes e, { { t with keys := k } with hist := hist t ++ [e] }).
Proof.
  intros K Ht Hl Ho e. pose proof aead_mac_size_range as M. pose proof (Zlen_nonneg input) as N.
  unfold MAX_RECORD_SIZE in Hl. unfold BuildTls13Message. set (sz := BuildTls13Message_size _) in *.
  destruct (Z.gtb_spec sz outSz); [lia |].
  assert (Es : u16 (sz - RECORD_HEADER_SZ) = Zlen input + 1 + aead_mac_size).
  { unfold sz, BuildTls13Message_size, RECORD_HEADER_SZ. rewrite wrap_small; unfold is_word; lia. }
  rewrite Es. unfold EncryptTls13. destruct (Z.ltb_spec (Zlen input + 1 + aead_mac_size) aead_mac_size); [lia |].
  pose proof (BuildTls13Nonce_spec 0 0 (rc_iv (encSecret t)) iv_size CUR_ORDER (keys t) K (rc_iv_ok _)) as B.
  destruct (BuildTls13Nonce _ _ _ _ _ _) as [nonce k]. cbn [fst snd] in B. destruct B as [-> A].
  exists k. split; [exact A |]. cbn [Z.eqb negb]. rewrite (wrap_small 8 type Ht).
  unfold seal_bytes, record_aad, e. cbn [s_secret s_seq s_type s_content]. rewrite take_ge; [reflexivity |].
  rewrite length_app. unfold Zlen in *. cbn. lia.
Qed.

(** One record sealed and put out, under a key that stays, or by a KeyUpdate. *)
Lemma sealed_emits t t' e :
  tx_ok t -> content_ok (s_type e) (s_content e) -> s_secret e = encSecret t -> s_seq e = tls_seq false (keys t) ->
  hist t' = hist t ++ [e] -> wire t' ++ outputBuffer t' = wire t ++ outputBuffer t ++ seal_bytes e ->
  encryptOn t' = encryptOn t -> Forall benign (sock t') -> (length (sock t') <= length (sock t))%nat ->
  pendingAlert_level t' = alert_none -> keys_ok (keys t') -> tls_seq true (keys t') = tls_seq true (keys t) ->
  (if is_key_update e then encSecret t' = rc_update (encSecret t) /\ tls_seq false (keys t') = 0
   else encSecret t' = encSecret t /\ tls_seq false (keys t') = u64 (tls_seq false (keys t) + 1)) ->
  emits t [e] t'.
Proof.
  intros (K & E & B & P) C Es Eq Eh Ew Ee Eb El Ep Ek Er Em. split; [exact Eh | | | | exact El | exact Er].
  - cbn [chain]. split; [exact Es | split; [exact Eq | split; [exact C |]]].
    destruct (is_key_update e); destruct Em as [-> ->]; split; reflexivity.
  - rewrite Ew. cbn. now rewrite app_nil_r.
  - split; [exact Ek | split; [congruence | split; assumption]].
Qed.

(** The fields no other operation than [SendData] changes. *)
Definition write_state (t : Tx) : Z * Z * Z * bool * bulk_cipher := (prevSent t, plainSz t, error t, partialWrite t, bulk t).

Lemma SendAlert_ex_spec severity type t : tx_ok t -> is_word 8 severity -> is_word 8 type ->
  let '(r, t') := SendAlert_ex severity type t in
  (exists l, emits t l t' /\ Forall (fun e => s_type e <> application_data) l) /\ write_state t' = write_state t /\
  (r = 0 \/ r = WANT_WRITE).
Proof.
  intros O Hs Ht. pose proof O as (K & E & B & P). unfold SendAlert_ex.
  set (t1 := if severity =? alert_fatal then _ else _).
  assert (F : keys t1 = keys t /\ encSecret t1 = encSecret t /\ encryptOn t1 = true /\ hist t1 = hist t /\
    outputBuffer t1 = outputBuffer t /\ wire t1 = wire t /\ sock t1 = sock t /\ write_state t1 = write_state t)
    by (unfold t1, write_state; destruct (severity =? alert_fatal); cbn; repeat split; assumption).
  clearbody t1. destruct F as (Fk & Fs & Fe & Fh & Fo & Fw & Fb & Fws). rewrite Fe.
  pose proof aead_mac_size_range as M.
  rewrite (wrap_small 8 severity Hs), (wrap_small 8 type Ht).
  destruct (BuildTls13Message_spec (ALERT_SIZE + MAX_MSG_EXTRA) [severity; type] alert t1) as (k & A & ->);
    [now rewrite Fk | split; unfold alert; lia | discriminate | change (Zlen [severity; type]) with 2; unfold BuildTls13Message_size, RECORD_HEADER_SZ, ALERT_SIZE, MAX_MSG_EXTRA; lia |].
  set (e := {| s_secret := _ |}). assert (Sz : (BuildTls13Message_size (Zlen [severity; type]) <? 0) = false)
    by (apply Z.ltb_ge; change (Zlen [severity; type]) with 2; unfold BuildTls13Message_size, RECORD_HEADER_SZ; lia).
  rewrite Sz.
  match goal with |- context [SendBuffered ?x] => destruct (SendBuffered_spec x) as (r & sc & o & w & -> & W & B' & Lk & R); [change (Forall benign (sock t1)); now rewrite Fb |] end.
  assert (W' : w ++ o = wire t ++ outputBuffer t ++ seal_bytes e) by (rewrite <- Fw, <- Fo; exact W).
  split; [| split; [exact Fws | destruct R as [[-> _] | (-> & _)]; auto]].
  exists [e]. split; [| now repeat constructor]. rewrite Fk in A. destruct A as (A1 & A2 & A3).
  apply sealed_emits; try assumption; try reflexivity.
  - exact (ok_alert severity type Hs Ht).
  - exact (f_equal (tls_seq false) Fk).
  - rewrite <- Fh. reflexivity.
  - rewrite E. exact Fe.
  - rewrite <- Fb. exact Lk.
  - exact (conj Fs A2).
Qed.

Lemma SendAlert_spec severity type t : tx_ok t -> is_word 8 severity -> is_word 8 type ->
  let '(r, t') := SendAlert severity type t in
  (exists l, emits t l t' /\ Forall (fun e => s_type e <> application_data) l) /\ write_state t' = write_state t.
Proof.
  intros O Hs Ht. pose proof O as (_ & _ & _ & P). unfold SendAlert. rewrite P. cbn [Z.eqb negb alert_none].
  pose proof (SendAlert_ex_spec severity type t O Hs Ht) as L.
  destruct (SendAlert_ex severity type t) as [r t']. tauto.
Qed.

Lemma RetrySendAlert_none t : tx_ok t -> RetrySendAlert t = (0, t).
Proof. intros (_ & _ & _ & P). unfold RetrySendAlert. now rewrite P. Qed.

(** The request flag of the KeyUpdate to be sent. *)
Definition asks (t : Tx) : bool := negb (updateResponseReq t) && negb (keyUpdateRespond t).

Lemma advanced_restart k k' : advanced false k k' ->
  let k0 := { { k' with sequence_number_hi := 0 } with sequence_number_lo := 0 } in
  keys_ok k0 /\ tls_seq false k0 = 0 /\ tls_seq true k0 = tls_seq true k.
Proof. intros (O & _ & P). destruct k'. unfold keys_ok, tls_seq, is_word in *. cbn in *. repeat split; lia. Qed.

(** A KeyUpdate seals itself under the old secret and moves to the next one, or, at
    the limit, does nothing. *)
Lemma SendTls13KeyUpdate_spec t : tx_ok t ->
  let '(r, t') := SendTls13KeyUpdate t in
  r = BAD_STATE_E /\ t' = t \/
  r = 0 /\ exists e, s_type e = handshake /\
    s_content e = whole_message key_update [if asks t then update_requested else update_not_requested] /\
    emits t [e] t' /\ encSecret t' = rc_update (encSecret t) /\ tls_seq false (keys t') = 0 /\
    updateResponseReq t' = asks t /\ keyUpdateRespond t' = false /\
    keyUpdateCount t' = w64Increment (keyUpdateCount t) /\ write_state t' = write_state t.
Proof.
  intros O. pose proof O as (K & E & B & P). unfold SendTls13KeyUpdate.
  destruct (Tls13KeyUpdateLimitReached t); [left; split; reflexivity |]. fold (asks t).
  set (b := if asks t then update_requested else update_not_requested).
  change [key_update; 0; 0; 1; if asks t then 1 else 0] with (whole_message key_update [b]).
  set (t1 := {_ with keyUpdateRespond := false}).
  pose proof aead_mac_size_range as M.
  assert (Hb : b = update_not_requested \/ b = update_requested) by (unfold b; destruct (asks t); auto).
  destruct (BuildTls13Message_spec (1 + MAX_MSG_EXTRA) (whole_message key_update [b]) handshake t1) as (k & A & ->);
    [exact K | split; unfold handshake; lia | discriminate |
     change (Zlen (whole_message key_update [b])) with 5; unfold BuildTls13Message_size, RECORD_HEADER_SZ, MAX_MSG_EXTRA; lia |].
  set (e := {| s_secret := _ |}).
  assert (Sz : (BuildTls13Message_size (Zlen (whole_message key_update [b])) <? 0) = false)
    by (apply Z.ltb_ge; change (Zlen (whole_message key_update [b])) with 5; unfold BuildTls13Message_size, RECORD_HEADER_SZ; lia).
  rewrite Sz.
  match goal with |- context [SendBuffered ?x] => destruct (SendBuffered_spec x B) as (r & sc & o & w & -> & W & B' & Lk & R) end.
  replace (negb (r =? 0) && negb (r =? WANT_WRITE)) with false by (destruct R as [[-> _] | (-> & _)]; reflexivity).
  right. split; [reflexivity |]. exists e. destruct (advanced_restart _ _ A) as (A1 & A2 & A3).
  split; [reflexivity | split; [reflexivity |]].
  split; [| split; [reflexivity | split; [exact A2 | repeat split]]].
  apply sealed_emits; try assumption; try reflexivity.
  - exact (ok_key_update b Hb).
  - exact (conj eq_refl A2).
Qed.

(** The ciphers with a limit, and the limit. *)
Definition limited (b : bulk_cipher) : Prop := match b with wolfssl_aes_gcm | wolfssl_aes_ccm => True | _ => False end.

Definition AEAD_LIMIT : Z := 0x016A09E6.

(** The check before each record of [SendData]. *)
Lemma CheckTLS13AEADSendLimit_spec t : tx_ok t ->
  let '(r, t') := CheckTLS13AEADSendLimit t in
  (exists l, emits t l t' /\ Forall (fun e => s_type e <> application_data) l) /\ write_state t' = write_state t /\
  (r = 0 \/ r = BAD_STATE_E) /\ (r = 0 -> limited (bulk t) -> tls_seq false (keys t') < AEAD_LIMIT).
Proof.
  intros O. unfold CheckTLS13AEADSendLimit.
  assert (N : forall r : Z, r = 0 \/ r = BAD_STATE_E -> (r = 0 -> limited (bulk t) -> tls_seq false (keys t) < AEAD_LIMIT) ->
    (exists l, emits t l t /\ Forall (fun e => s_type e <> application_data) l) /\ write_state t = write_state t /\
    (r = 0 \/ r = BAD_STATE_E) /\ (r = 0 -> limited (bulk t) -> tls_seq false (keys t) < AEAD_LIMIT))
    by (intros r R L; split; [exists []; split; [now apply emits_refl | constructor] | auto]).
  assert (G : w64GTE (w64From32 (sequence_number_hi (keys t)) (sequence_number_lo (keys t))) AEAD_AES_LIMIT =
              (AEAD_LIMIT <=? tls_seq false (keys t))).
  { destruct O as ((_ & _ & Hh & Hl & _) & _). destruct (w64From32_val _ _ Hh Hl) as (O1 & V1).
    destruct (w64From32_val (T := T) 0 0x016A09E6 ltac:(split; lia) ltac:(split; lia)) as (O2 & V2).
    unfold AEAD_AES_LIMIT. now rewrite w64GTE_val, V1, V2 by assumption. }
  assert (U : let '(r, t') := if AEAD_LIMIT <=? tls_seq false (keys t) then Tls13UpdateKeys t else (0, t) in
    (exists l, emits t l t' /\ Forall (fun e => s_type e <> application_data) l) /\ write_state t' = write_state t /\
    (r = 0 \/ r = BAD_STATE_E) /\ (r = 0 -> limited (bulk t) -> tls_seq false (keys t') < AEAD_LIMIT)).
  { destruct (Z.leb_spec AEAD_LIMIT (tls_seq false (keys t))) as [L | L]; [| apply N; auto].
    unfold Tls13UpdateKeys. pose proof (SendTls13KeyUpdate_spec t O) as P. destruct (SendTls13KeyUpdate t) as [r t'].
    destruct P as [[-> ->] | (-> & e & Et & _ & M & _ & Eq & _ & _ & _ & Wr)]; [apply N; [now right | discriminate] |].
    split; [exists [e]; split; [exact M |] | split; [exact Wr | split; [now left |]]].
    - repeat constructor. now rewrite Et.
    - intros _ _. now rewrite Eq. }
  destruct (bulk t) eqn:Hb; cbn [limited] in *; try (apply N; [auto |]; easy); rewrite G; exact U.
Qed.

(** ** [SendData] *)

Lemma app_data_none l : Forall (fun e => s_type e <> application_data) l -> app_data l = [].
Proof.
  unfold app_data. induction 1 as [| e l N _ IH]; [reflexivity |]. now rewrite filter_cons_False.
Qed.

Lemma app_data_one e : s_type e = application_data -> app_data [e] = s_content e.
Proof. intros E. unfold app_data. rewrite filter_cons_True by exact E. cbn. now rewrite app_nil_r. Qed.

(** No record of application data reaches the limit of its key. *)
Definition within_limit (b : bulk_cipher) (l : list Sealed) : Prop :=
  Forall (fun e => s_type e = application_data -> limited b -> s_seq e < AEAD_LIMIT) l.

Lemma within_limit_none b l : Forall (fun e => s_type e <> application_data) l -> within_limit b l.
Proof. intros F. eapply Forall_impl; [exact F |]. intros e N E. contradiction. Qed.

(** [n] bytes of the data to be written are sealed, and remembered for the next call. *)
Definition written (n : Z) (t : Tx) : Prop := 0 <= prevSent t /\ 0 <= plainSz t /\ prevSent t + plainSz t = n.

(** How [SendData] ends when [m] bytes of [data] are sealed; [p]: what is
    remembered after success. *)
Definition write_outcome (data : list Z) (m : Z) (p : Z * Z) (t : Tx) (r : Z) (t' : Tx) : Prop :=
  r = m /\ (partialWrite t = false -> m = Zlen data) /\ (prevSent t', plainSz t') = p /\ (error t' = 0 \/ error t' = error t) \/
  r = WANT_WRITE /\ error t' = WANT_WRITE /\ written m t' /\ outputBuffer t' <> [] /\ (length (sock t') < length (sock t))%nat \/
  r = WOLFSSL_FATAL_ERROR /\ error t' = BAD_STATE_E /\ (prevSent t', plainSz t') = p.

(** What is left to be shown of a call that has sealed [n] bytes so far. *)
Definition write_result (data : list Z) (n : Z) (p : Z * Z) (t : Tx) (res : option (Z * Tx)) : Prop :=
  exists r t' l m, res = Some (r, t') /\ emits t l t' /\ n <= m <= Zlen data /\
    app_data l = take (Z.to_nat (m - n)) (drop (Z.to_nat n) data) /\ within_limit (bulk t) l /\
    bulk t' = bulk t /\ partialWrite t' = partialWrite t /\ write_outcome data m p t r t'.

Lemma write_outcome_from data m p t t1 r t' :
  partialWrite t1 = partialWrite t -> (error t1 = 0 \/ error t1 = error t) -> (length (sock t1) <= length (sock t))%nat ->
  write_outcome data m p t1 r t' -> write_outcome data m p t r t'.
Proof.
  intros Ep Ee El [(Or & Oc & Ow & Oe) | [(Or & Oe & Ow & Oo & Os) | Out]].
  - left. rewrite Ep in Oc. repeat split; try assumption. destruct Oe as [Oe | Oe]; [now left |]. rewrite Oe. exact Ee.
  - right. left. repeat split; try assumption; try apply Ow. lia.
  - right. right. exact Out.
Qed.

Lemma app_data_split {A} (data : list A) n b m : 0 <= n -> 0 <= b -> n + b <= m ->
  take (Z.to_nat b) (drop (Z.to_nat n) data) ++ take (Z.to_nat (m - (n + b))) (drop (Z.to_nat (n + b)) data) =
  take (Z.to_nat (m - n)) (drop (Z.to_nat n) data).
Proof.
  intros Hn Hb Hm. rewrite (Z2Nat.inj_add n b), <- drop_drop, take_take_drop by lia. f_equal. lia.
Qed.

(** One application record, from the state in which it is sealed to the one in
    which it is in the output buffer. *)
Lemma data_record_emits t k d sc o w : tx_ok t -> is_bytes d -> 0 < Zlen d <= MAX_RECORD_SIZE -> advanced false (keys t) k ->
  let e := {| s_secret := encSecret t; s_seq := tls_seq false (keys t); s_type := application_data; s_content := d |} in
  w ++ o = wire t ++ outputBuffer t ++ seal_bytes e -> Forall benign sc -> (length sc <= length (sock t))%nat ->
  emits t [e] { { { { { t with keys := k } with hist := hist t ++ [e] } with sock := sc } with outputBuffer := o } with wire := w }.
Proof.
  intros O B L (A1 & A2 & A3) e W F Fl. pose proof O as (_ & _ & _ & P).
  apply sealed_emits; try assumption; try reflexivity.
  - now constructor.
  - split; [reflexivity | exact A2].
Qed.

Lemma emits_error t l t' t'' : emits t l t' ->
  hist t'' = hist t' -> encSecret t'' = encSecret t' -> keys t'' = keys t' -> encryptOn t'' = encryptOn t' ->
  wire t'' ++ outputBuffer t'' = wire t' ++ outputBuffer t' -> sock t'' = sock t' ->
  pendingAlert_level t'' = pendingAlert_level t' -> emits t l t''.
Proof.
  intros E Hh Hs Hk He Hw Hb Hp. rewrite <- (app_nil_r l). apply (emits_trans _ _ t' _ _ E).
  pose proof (em_ok _ _ _ E) as O. pose proof O as (_ & _ & B & P).
  apply emits_quiet; try assumption; [now rewrite Hb | now rewrite Hb | congruence].
Qed.

Lemma send_records_spec fuel data : is_bytes data -> Zlen data <= INT_MAX -> forall n t,
  tx_ok t -> 0 <= n <= Zlen data -> Zlen data - n < Z.of_nat fuel ->
  write_result data n (prevSent t, plainSz t) t (send_records fuel data n t).
Proof.
  intros B Lm. unfold INT_MAX in Lm. pose proof aead_mac_size_range as M.
  induction fuel as [| fuel IH]; intros n t O Hn Hf; [lia |]. cbn [send_records].
  pose proof (CheckTLS13AEADSendLimit_spec t O) as C. destruct (CheckTLS13AEADSendLimit t) as [r t1].
  destruct C as ((l0 & E0 & N0) & Wr & R & Lim). injection Wr as Wp Ws We Wpw Wb.
  pose proof (em_ok _ _ _ E0) as O1.
  assert (D0 : app_data l0 = take (Z.to_nat (n - n)) (drop (Z.to_nat n) data))
    by (rewrite app_data_none by exact N0; now rewrite Z.sub_diag, take_0).
  assert (Wt1 : (prevSent t1, plainSz t1) = (prevSent t, plainSz t)) by congruence.
  destruct R as [-> | ->]; cbn [Z.eqb negb BAD_STATE_E].
  2: { eexists _, _, l0, n. split; [reflexivity |]. split; [eapply emits_error; [exact E0 | reflexivity ..] |].
       split; [lia | split; [exact D0 | split; [now apply within_limit_none |]]].
       split; [exact Wb | split; [exact Wpw |]]. right. right. split; [reflexivity | split; [reflexivity | exact Wt1]]. }
  destruct (Z.eqb_spec n (Zlen data)) as [-> | Hne].
  { eexists _, _, l0, (Zlen data). split; [reflexivity |]. split; [exact E0 |].
    split; [lia | split; [exact D0 | split; [now apply within_limit_none |]]].
    split; [exact Wb | split; [exact Wpw |]]. left. split; [reflexivity | split; [reflexivity | split; [exact Wt1 | now right]]]. }
  rewrite (wrap_small 32 (Zlen data - n)) by (unfold is_word; lia).
  destruct (Z.leb_spec (Zlen data - n) 0); [lia |].
  change (if wolfSSL_GetMaxFragSize >? 0 then Z.min (Zlen data - n) wolfSSL_GetMaxFragSize else Zlen data - n)
    with (Z.min (Zlen data - n) MAX_RECORD_SIZE).
  set (b := Z.min (Zlen data - n) MAX_RECORD_SIZE). set (d := take (Z.to_nat b) (drop (Z.to_nat n) data)).
  assert (Hb : 0 < b <= MAX_RECORD_SIZE /\ n + b <= Zlen data) by (unfold b, MAX_RECORD_SIZE; lia).
  assert (Ld : Zlen d = b) by (unfold d; rewrite Zlen_take; [reflexivity | rewrite Zlen_drop by lia; lia]).
  destruct (BuildTls13Message_spec (wolfssl_local_GetRecordSize b) d application_data t1) as (k & A & ->);
    [apply O1 | split; unfold application_data; lia | lia | rewrite Ld; unfold wolfssl_local_GetRecordSize; lia |].
  set (e := {| s_secret := _ |}).
  destruct (Z.ltb_spec (BuildTls13Message_size (Zlen d)) 0) as [Neg |];
    [exfalso; revert Neg; rewrite Ld; unfold BuildTls13Message_size, RECORD_HEADER_SZ; lia |].
  match goal with |- context [SendBuffered ?x] =>
    destruct (SendBuffered_spec x ltac:(apply O1)) as (r & sc & o & w & -> & W & B' & Lk & R) end.
  assert (Bd : is_bytes d) by (unfold d; apply Forall_take, Forall_drop, B).
  pose proof (data_record_emits t1 k d sc o w O1 Bd ltac:(lia) A W B' Lk) as E1. fold e in E1.
  assert (D1 : app_data (l0 ++ [e]) = take (Z.to_nat (n + b - n)) (drop (Z.to_nat n) data)).
  { rewrite app_data_app, (app_data_none l0 N0), app_data_one by reflexivity. cbn [app]. subst e. cbn [s_content]. unfold d. f_equal. lia. }
  assert (L1 : within_limit (bulk t) (l0 ++ [e])).
  { apply Forall_app. split; [now apply within_limit_none |]. repeat constructor. intros _ L. exact (Lim eq_refl L). }
  pose proof (emits_trans _ _ _ _ _ E0 E1) as E01.
  destruct R as [[-> _] | (-> & No & Lt)]; cbn [Z.ltb Z.compare].
  - change (n +u32 b) with (wrap 32 (n + b)). rewrite (wrap_small 32 (n + b)) by (unfold is_word; lia).
    match goal with |- context [if partialWrite ?x then _ else send_records _ _ _ ?x] => set (t2 := x) end.
    assert (E2 : emits t (l0 ++ [e]) t2) by (eapply emits_error; [exact E01 | reflexivity ..]).
    destruct (partialWrite t2) eqn:Pw.
    + eexists _, _, _, (n + b). split; [reflexivity |]. split; [exact E2 |].
      split; [lia | split; [exact D1 | split; [exact L1 |]]]. split; [exact Wb | split; [exact Wpw |]].
      left. split; [reflexivity |]. split; [intros F; change (partialWrite t2) with (partialWrite t1) in Pw; congruence |].
      split; [exact Wt1 | now left].
    + destruct (IH (n + b) t2) as (r & t' & l & m & -> & E3 & Hm & D3 & L3 & B3 & P3 & Out); [apply E2 | lia | lia |].
      change (prevSent t2, plainSz t2) with (prevSent t1, plainSz t1) in Out. rewrite Wt1 in Out.
      eexists _, _, _, m. split; [reflexivity |]. split; [exact (emits_trans _ _ _ _ _ E2 E3) |]. split; [lia |].
      split; [rewrite app_data_app, D1, D3; replace (n + b - n) with b by lia; apply app_data_split; lia |].
      change (bulk t2) with (bulk t1) in L3, B3. change (partialWrite t2) with (partialWrite t1) in P3. rewrite Wb in L3, B3. rewrite Wpw in P3.
      split; [now apply Forall_app |]. split; [exact B3 | split; [exact P3 |]].
      apply (write_outcome_from _ _ _ t t2); [exact Wpw | now left | exact (em_sock _ _ _ E2) | exact Out].
  - eexists _, _, _, (n + b). split; [reflexivity |]. split; [eapply emits_error; [exact E01 | reflexivity ..] |].
    split; [lia | split; [exact D1 | split; [exact L1 |]]]. split; [exact Wb | split; [exact Wpw |]].
    pose proof (em_sock _ _ _ E0). right. left. split; [reflexivity | split; [reflexivity | split; [| split; [exact No |]]]].
    + unfold written. cbn. lia.
    + change (length sc < length (sock t1))%nat in Lt. cbn. lia.
Qed.

Lemma write_result_from data n p t t1 res :
  emits t [] t1 -> bulk t1 = bulk t -> partialWrite t1 = partialWrite t -> (error t1 = 0 \/ error t1 = error t) ->
  write_result data n p t1 res -> write_result data n p t res.
Proof.
  intros E0 Eb Ep Ee (r & t' & l & m & -> & E1 & Hm & D & L & B & P & Out).
  exists r, t', l, m. split; [reflexivity |]. split; [exact (emits_trans _ _ _ _ _ E0 E1) |].
  split; [exact Hm | split; [exact D |]]. rewrite Eb in *. rewrite Ep in P. split; [exact L | split; [exact B | split; [exact P |]]].
  exact (write_outcome_from _ _ _ _ _ _ _ Ep Ee (em_sock _ _ _ E0) Out).
Qed.

(** The error state in which a write is refused. *)
Definition write_allowed (t : Tx) : Prop := error t <> VERIFY_MAC_ERROR /\ error t <> DECRYPT_ERROR.

(** The bytes of the next write that [SendData] takes to be sealed already. *)
Definition resumes (t : Tx) : Z := if bool_decide (outputBuffer t = []) then 0 else prevSent t + plainSz t.

Definition remembers (t : Tx) : Z * Z := if bool_decide (outputBuffer t = []) then (prevSent t, plainSz t) else (0, 0).

Lemma SendData_spec data n t : is_bytes data -> Zlen data <= INT_MAX -> tx_ok t -> write_allowed t ->
  written n t -> resumes t <= Zlen data -> write_result data (resumes t) (remembers t) t (SendData data t).
Proof.
  intros B Lm O (A1 & A2) W Hn. unfold SendData. destruct (Z.gtb_spec (Zlen data) INT_MAX) as [|_]; [lia |].
  set (t1 := if error t =? WANT_WRITE then _ else t).
  assert (F1 : emits t [] t1 /\ written n t1 /\ resumes t1 = resumes t /\ remembers t1 = remembers t /\
    bulk t1 = bulk t /\ partialWrite t1 = partialWrite t /\ (error t1 = 0 \/ error t1 = error t) /\ write_allowed t1).
  { unfold t1. destruct (error t =? WANT_WRITE).
    - split; [eapply emits_error; [now apply emits_refl | reflexivity ..] |]. repeat split; try apply W; try (now left); discriminate.
    - split; [now apply emits_refl |]. repeat split; try apply W; try (now right); assumption. }
  destruct F1 as (E1 & (P1 & P2 & P3) & Fr & Fm & Fb & Fp & Fe & A1' & A2'). rewrite <- Fr, <- Fm in *. clearbody t1.
  rewrite (proj2 (Z.eqb_neq _ _) A1'), (proj2 (Z.eqb_neq _ _) A2'). cbn [orb].
  apply (write_result_from data _ _ t t1 _ E1 Fb Fp Fe). pose proof (em_ok _ _ _ E1) as O1. clear Fr Fm.
  assert (Go : forall t2 k, emits t1 [] t2 -> bulk t2 = bulk t1 -> partialWrite t2 = partialWrite t1 -> error t2 = error t1 ->
    0 <= k <= Zlen data -> write_result data k (prevSent t2, plainSz t2) t1
      (let '(ret, t) := RetrySendAlert t2 in
       if negb (ret =? 0) then Some (WOLFSSL_FATAL_ERROR, { t with error := ret })
       else send_records (Datatypes.S (length data)) data k t)).
  { intros t2 k E2 Gb Gp Ge Hk. apply (write_result_from data k _ t1 t2 _ E2 Gb Gp (or_intror Ge)).
    rewrite RetrySendAlert_none by apply E2. cbn [Z.eqb negb].
    apply send_records_spec; try assumption; [apply E2 | unfold Zlen in *; lia]. }
  unfold resumes, remembers in *. case_bool_decide as Ho; cbn [negb].
  { apply (Go t1 0); try reflexivity; [now apply emits_refl | lia]. }
  destruct (SendBuffered_spec t1 ltac:(apply O1)) as (r & sc & o & w & -> & Wb & B' & Lk & R).
  unfold INT_MAX in Lm. destruct R as [[-> ->] | (-> & No & Lt)]; cbn [Z.ltb Z.compare].
  - set (sent := prevSent _ +u32 plainSz _).
    assert (sent = prevSent t1 + plainSz t1) as ->
      by (change sent with (wrap 32 (prevSent t1 + plainSz t1)); apply wrap_small; unfold is_word; lia).
    destruct (Z.gtb_spec (prevSent t1 + plainSz t1) (Zlen data)); [lia |].
    match goal with |- write_result _ _ _ _ (let '(_, _) := RetrySendAlert ?x in _) => apply (Go x); try reflexivity end; [| lia].
    apply emits_quiet; try reflexivity; try assumption. apply O1.
  - eexists _, _, [], (prevSent t1 + plainSz t1). split; [reflexivity |].
    split; [apply emits_quiet; try reflexivity; try assumption; apply O1 |].
    split; [lia | split; [now rewrite Z.sub_diag, take_0 | split; [constructor |]]].
    split; [reflexivity | split; [reflexivity |]]. right. left. repeat split; assumption.
Qed.

(** ** Writing with retries *)

(** [wolfSSL_write] called again with the same data while it wants to write; the
    result and state of the last call. *)
Inductive write_session (data : list Z) : Tx -> Z -> Tx -> Prop :=
| ws_end t r t' : SendData data t = Some (r, t') -> r <> WANT_WRITE -> write_session data t r t'
| ws_retry t t1 r t' : SendData data t = Some (WANT_WRITE, t1) -> write_session data t1 r t' -> write_session data t r t'.

Definition idle (t : Tx) : Prop := prevSent t = 0 /\ plainSz t = 0.

(** How a session ends that has [n] bytes sealed already. *)
Definition session_result (data : list Z) (n : Z) (t : Tx) (r : Z) (t' : Tx) : Prop :=
  exists l, emits t l t' /\ within_limit (bulk t) l /\
    (0 <= r -> n <= r <= Zlen data /\ app_data l = take (Z.to_nat (r - n)) (drop (Z.to_nat n) data) /\
               (partialWrite t = false -> r = Zlen data) /\ idle t') /\
    (r < 0 -> r = WOLFSSL_FATAL_ERROR /\ error t' = BAD_STATE_E).

(** One call of a session: it ends it, or leaves a state from which to go on. *)
Lemma SendData_session data n t : is_bytes data -> Zlen data <= INT_MAX -> tx_ok t -> write_allowed t ->
  written n t -> resumes t = n -> remembers t = (0, 0) -> n <= Zlen data ->
  exists r t', SendData data t = Some (r, t') /\
    (r <> WANT_WRITE -> session_result data n t r t') /\
    (r = WANT_WRITE -> exists m l, n <= m <= Zlen data /\ emits t l t' /\ within_limit (bulk t) l /\
       app_data l = take (Z.to_nat (m - n)) (drop (Z.to_nat n) data) /\ bulk t' = bulk t /\
       partialWrite t' = partialWrite t /\ write_allowed t' /\ written m t' /\ resumes t' = m /\
       remembers t' = (0, 0) /\ (length (sock t') < length (sock t))%nat).
Proof.
  intros B L O A W R M Hn. pose proof (SendData_spec data n t B L O A W ltac:(lia)) as Sd. rewrite R, M in Sd.
  destruct Sd as (r & t' & l & m & E & Em & Hm & D & Lim & Eb & Ep & Out). exists r, t'. split; [exact E |].
  destruct Out as [(-> & Oc & [= Ow Op] & _) | [(-> & Oe & Ow & Oo & Os) | (-> & Oe & _)]].
  - pose proof W as (? & ? & ?). split; [| unfold WANT_WRITE; lia]. intros _. exists l. split; [exact Em | split; [exact Lim |]]. split; [| lia].
    intros _. repeat split; assumption || lia.
  - split; [congruence |]. intros _. exists m, l. split; [exact Hm | split; [exact Em | split; [exact Lim | split; [exact D |]]]].
    split; [exact Eb | split; [exact Ep |]]. split; [unfold write_allowed; rewrite Oe; split; discriminate |].
    split; [exact Ow |]. unfold resumes, remembers. rewrite bool_decide_eq_false_2 by exact Oo.
    split; [apply Ow | split; [reflexivity | exact Os]].
  - split; [| discriminate]. intros _. exists l. split; [exact Em | split; [exact Lim |]].
    split; [unfold WOLFSSL_FATAL_ERROR; lia | auto].
Qed.

Lemma session_from data n m t t1 r t' l : n <= m -> 0 <= n ->
  emits t l t1 -> within_limit (bulk t) l -> app_data l = take (Z.to_nat (m - n)) (drop (Z.to_nat n) data) ->
  bulk t1 = bulk t -> partialWrite t1 = partialWrite t ->
  session_result data m t1 r t' -> session_result data n t r t'.
Proof.
  intros Hm Hn E Lim D Eb Ep (l2 & E2 & Lim2 & Pos & Neg). rewrite Eb, Ep in *.
  exists (l ++ l2). split; [exact (emits_trans _ _ _ _ _ E E2) |]. split; [now apply Forall_app | split; [| exact Neg]].
  intros H1. destruct (Pos H1) as (Hr & D2 & Rest). split; [lia | split; [| exact Rest]].
  rewrite app_data_app, D, D2. pose proof (app_data_split data n (m - n) r ltac:(lia) ltac:(lia) ltac:(lia)) as Sp.
  now replace (n + (m - n)) with m in Sp by lia.
Qed.

Lemma write_session_spec data t r t' : is_bytes data -> Zlen data <= INT_MAX -> write_session data t r t' -> forall n,
  tx_ok t -> write_allowed t -> written n t -> resumes t = n -> remembers t = (0, 0) -> n <= Zlen data ->
  session_result data n t r t'.
Proof.
  intros B L Se. induction Se as [t r t' E N | t t1 r t' E Se IH]; intros n O A W R M Hn;
    destruct (SendData_session data n t B L O A W R M Hn) as (r0 & t0 & E0 & End & Again);
    rewrite E in E0; injection E0 as <- <-; [now apply End |].
  destruct (Again eq_refl) as (m & l & Hm & Em & Lim & D & Eb & Ep & A1 & W1 & R1 & M1 & _).
  apply (session_from data n m t t1 r t' l); try assumption; [lia | destruct W as (? & ? & ?); lia |].
  apply IH; try assumption; [apply Em | lia].
Qed.

Lemma idle_start t : idle t -> written 0 t /\ resumes t = 0 /\ remembers t = (0, 0).
Proof. intros [P Q]. unfold written, resumes, remembers. rewrite P, Q. now destruct (bool_decide _). Qed.

Lemma write_session_ends data : is_bytes data -> Zlen data <= INT_MAX -> forall k t n, k = length (sock t) ->
  tx_ok t -> write_allowed t -> written n t -> resumes t = n -> remembers t = (0, 0) -> n <= Zlen data ->
  exists r t', write_session data t r t'.
Proof.
  intros B L. induction k as [k IH] using lt_wf_ind. intros t n -> O A W R M Hn.
  destruct (SendData_session data n t B L O A W R M Hn) as (r & t1 & E & _ & Again).
  destruct (Z.eq_dec r WANT_WRITE) as [-> | N]; [| exists r, t1; now constructor].
  destruct (Again eq_refl) as (m & l & Hm & Em & _ & _ & _ & _ & A1 & W1 & R1 & M1 & Lt).
  destruct (IH _ Lt t1 m eq_refl (em_ok _ _ _ Em) A1 W1 R1 M1 ltac:(lia)) as (r & t' & Se).
  exists r, t'. now apply (ws_retry data t t1).
Qed.

(** [C3] Writing is exact: when the application calls [wolfSSL_write] again with the
    same data as long as it wants to write, and the socket neither breaks nor
    lies, the records sealed carry exactly the bytes reported as written, once
    and in order, whatever the socket takes when; all the data unless partial
    writes are on; none of their numbers reaches the limit of its key; and the
    next write starts afresh.  The only failure is a refused key update.
    Such a session always comes to its end. *)
Theorem write_session_exact data t : is_bytes data -> Zlen data <= INT_MAX -> tx_ok t -> write_allowed t -> idle t ->
  (exists r t', write_session data t r t') /\
  (forall r t', write_session data t r t' ->
     exists l, emits t l t' /\ within_limit (bulk t) l /\
       (0 <= r -> app_data l = take (Z.to_nat r) data /\ (partialWrite t = false -> r = Zlen data) /\ idle t') /\
       (r < 0 -> r = WOLFSSL_FATAL_ERROR /\ error t' = BAD_STATE_E)).
Proof.
  intros B L O A I. apply idle_start in I as (W & R & M). pose proof (Zlen_nonneg data) as N. split.
  - now apply (write_session_ends data B L (length (sock t)) t 0).
  - intros r t' Se. destruct (write_session_spec data t r t' B L Se 0 O A W R M N) as (l & E & Lim & Pos & Neg).
    exists l. split; [exact E | split; [exact Lim | split; [| exact Neg]]]. intros H1. destruct (Pos H1) as (_ & D & Rest).
    rewrite Z.sub_0_r in D. now split.
Qed.

(** [C40] A KeyUpdate between two calls breaks this: when the output buffer is emptied by
    the answer to a KeyUpdate (sent while reading), the retry does not know that [n] bytes are
    sealed, and seals them again; the stale count [n] stays behind. *)
Theorem retry_after_KeyUpdate_duplicates data t t1 t2 r t3 :
  is_bytes data -> Zlen data <= INT_MAX -> tx_ok t -> write_allowed t -> idle t ->
  SendData data t = Some (WANT_WRITE, t1) -> SendTls13KeyUpdate t1 = (0, t2) -> outputBuffer t2 = [] ->
  SendData data t2 = Some (r, t3) -> 0 <= r ->
  let n := prevSent t1 + plainSz t1 in
  exists l, emits t l t3 /\ app_data l = take (Z.to_nat n) data ++ take (Z.to_nat r) data /\
    prevSent t3 + plainSz t3 = n.
Proof.
  intros B L O A I E1 E2 Eo E3 Hr n. apply idle_start in I as (W & R & M). pose proof (Zlen_nonneg data) as N.
  destruct (SendData_session data 0 t B L O A W R M N) as (r0 & t0 & E0 & _ & Again). rewrite E1 in E0. injection E0 as <- <-.
  destruct (Again eq_refl) as (m & l & Hm & Em & _ & D & _ & _ & A1 & W1 & _). rewrite Z.sub_0_r in D.
  assert (Em1 : n = m) by apply W1.
  pose proof (SendTls13KeyUpdate_spec t1 (em_ok _ _ _ Em)) as K. rewrite E2 in K.
  destruct K as [[K _] | (_ & e & Et & _ & Ek & _ & _ & _ & _ & _ & Wr)]; [discriminate |]. injection Wr as Wp Ws We _ _.
  assert (A2 : write_allowed t2) by (unfold write_allowed; now rewrite We).
  assert (W2 : written m t2) by (unfold written in *; now rewrite Wp, Ws).
  assert (R2 : resumes t2 = 0) by (unfold resumes; now rewrite bool_decide_eq_true_2).
  assert (M2 : remembers t2 = (prevSent t2, plainSz t2)) by (unfold remembers; now rewrite bool_decide_eq_true_2).
  pose proof (SendData_spec data m t2 B L (em_ok _ _ _ Ek) A2 W2 ltac:(lia)) as Sd. rewrite R2, M2, E3 in Sd.
  destruct Sd as (r' & t' & l3 & m3 & [= <- <-] & Em3 & Hm3 & D3 & _ & _ & _ & Out).
  destruct Out as [(-> & _ & [= Op Oq] & _) | [(-> & _) | (-> & _)]]; [| unfold WANT_WRITE in Hr; lia | unfold WOLFSSL_FATAL_ERROR in Hr; lia].
  exists (l ++ [e] ++ l3). split; [exact (emits_trans _ _ _ _ _ Em (emits_trans _ _ _ _ _ Ek Em3)) |]. split.
  - rewrite !app_data_app, D, D3, Z.sub_0_r, Em1.
    rewrite (app_data_none [e]) by (repeat constructor; now rewrite Et). reflexivity.
  - destruct W2 as (_ & _ & W2). rewrite Op, Oq. lia.
Qed.

(** The stale count is then taken for bytes of other data: a write that finds the output
    buffer filled again skips that many. *)
Lemma stale_count_skips data n t r t' : is_bytes data -> Zlen data <= INT_MAX -> tx_ok t -> write_allowed t ->
  written n t -> n <= Zlen data -> outputBuffer t <> [] -> SendData data t = Some (r, t') -> 0 <= r ->
  exists l, emits t l t' /\ app_data l = take (Z.to_nat (r - n)) (drop (Z.to_nat n) data).
Proof.
  intros B L O A W Hn No E Hr.
  assert (R : resumes t = n) by (unfold resumes; rewrite bool_decide_eq_false_2 by exact No; apply W).
  pose proof (SendData_spec data n t B L O A W ltac:(lia)) as Sd. rewrite R, E in Sd.
  destruct Sd as (r' & t0 & l & m & [= <- <-] & Em & _ & D & _ & _ & _ & Out).
  destruct Out as [(-> & _) | [(-> & _) | (-> & _)]]; [| unfold WANT_WRITE in Hr; lia | unfold WOLFSSL_FATAL_ERROR in Hr; lia].
  exists l. now split.
Qed.

(** ** Every interleaving *)

(** What receiving may change of the state of the sender, beyond the calls below. *)
Definition received (t t' : Tx) : Prop :=
  hist t' = hist t /\ encSecret t' = encSecret t /\ outputBuffer t' = outputBuffer t /\ wire t' = wire t /\ sock t' = sock t /\
  encryptOn t' = encryptOn t /\ bulk t' = bulk t /\ prevSent t' = prevSent t /\ plainSz t' = plainSz t /\
  pendingAlert_level t' = pendingAlert_level t /\ keys_ok (keys t') /\ tls_seq false (keys t') = tls_seq false (keys t).

Inductive tx_step : Tx -> Tx -> Prop :=
| step_write data r t t' : is_bytes data -> SendData data t = Some (r, t') -> tx_step t t'
| step_flush t : tx_step t (snd (SendBuffered t))
| step_alert severity type t : is_word 8 severity -> is_word 8 type -> tx_step t (snd (SendAlert severity type t))
| step_key_update t : tx_step t (snd (SendTls13KeyUpdate t))
| step_message type body t : content_ok handshake (whole_message type body) -> type <> key_update ->
    tx_step t (snd (send_handshake_message (whole_message type body) t))
| step_received t t' : received t t' -> tx_step t t'.

(** The records sealed so far, from the secret [s] and number [q] on. *)
Record sender_ok (b : bulk_cipher) (s : S) (q : Z) (t : Tx) : Prop := {
  so_tx : tx_ok t;
  so_pend : exists n, written n t /\ n <= INT_MAX;
  so_bulk : bulk t = b;
  so_chain : chain s q (hist t) (encSecret t) (tls_seq false (keys t));
  so_wire : wire t ++ outputBuffer t = concat (seal_bytes <$> hist t);
  so_limit : within_limit b (hist t)
}.

Lemma sender_ok_emits b s q t l t' : sender_ok b s q t -> emits t l t' ->
  (exists n, written n t' /\ n <= INT_MAX) -> bulk t' = bulk t -> within_limit b l -> sender_ok b s q t'.
Proof.
  intros [O P B C W L] [Eh Ec Ew Eo _ _] P' B' L'. split; try assumption.
  - congruence.
  - rewrite Eh. now eapply sealed_chain_app; [exact C |].
  - rewrite Ew, Eh, app_assoc, W, fmap_app, concat_app. reflexivity.
  - rewrite Eh. now apply Forall_app.
Qed.

(** Every write leaves the count of sealed bytes in range, also when it fails. *)
Lemma SendData_emits data t r t' : is_bytes data -> tx_ok t -> (exists n, written n t /\ n <= INT_MAX) -> SendData data t = Some (r, t') ->
  (exists l, emits t l t' /\ within_limit (bulk t) l) /\ bulk t' = bulk t /\ (exists n, written n t' /\ n <= INT_MAX).
Proof.
  intros B O (n & W & Hn) E.
  assert (Keep : forall t1, emits t [] t1 -> bulk t1 = bulk t -> (exists n, written n t1 /\ n <= INT_MAX) ->
    (exists l, emits t l t1 /\ within_limit (bulk t) l) /\ bulk t1 = bulk t /\ (exists n, written n t1 /\ n <= INT_MAX))
    by (intros t1 E1 B1 W1; split; [exists []; split; [exact E1 | constructor] | auto]).
  destruct (Z_le_gt_dec (Zlen data) INT_MAX) as [L |].
  2: { unfold SendData in E. destruct (Z.gtb_spec (Zlen data) INT_MAX); [| lia]. injection E as <- <-.
       apply Keep; [now apply emits_refl | reflexivity | now exists n]. }
  destruct (Z.eq_dec (error t) VERIFY_MAC_ERROR) as [A1 | A1], (Z.eq_dec (error t) DECRYPT_ERROR) as [A2 | A2];
    try (unfold SendData in E; destruct (Z.gtb_spec (Zlen data) INT_MAX); [lia |];
         rewrite ?A1, ?A2 in E; cbn in E; rewrite ?A1, ?A2 in E; cbn in E; injection E as <- <-;
         apply Keep; [now apply emits_refl | reflexivity | now exists n]).
  destruct (Z_le_gt_dec (resumes t) (Zlen data)) as [R | R].
  - pose proof (SendData_spec data n t B L O (conj A1 A2) W R) as Sd. rewrite E in Sd.
    destruct Sd as (r' & t0 & l & m & [= <- <-] & Em & Hm & D & Lim & Eb & _ & Out).
    split; [now exists l | split; [exact Eb |]]. unfold written, remembers in *.
    destruct Out as [(_ & _ & Op & _) | [(_ & _ & Ow & _) | (_ & _ & Op)]]; [| exists m; split; [exact Ow | lia] |];
      case_bool_decide; injection Op as -> ->; (exists n; lia) || (exists 0; unfold INT_MAX; lia).
  - unfold resumes in R. case_bool_decide as Ho; [pose proof (Zlen_nonneg data); lia |]. destruct W as (P1 & P2 & P3).
    unfold SendData in E. destruct (Z.gtb_spec (Zlen data) INT_MAX); [lia |]. revert E. set (t1 := if error t =? WANT_WRITE then _ else t).
    assert (F : emits t [] t1 /\ outputBuffer t1 = outputBuffer t /\ prevSent t1 = prevSent t /\ plainSz t1 = plainSz t /\
      bulk t1 = bulk t /\ ((error t1 =? VERIFY_MAC_ERROR) || (error t1 =? DECRYPT_ERROR)) = false).
    { unfold t1. destruct (Z.eqb_spec (error t) WANT_WRITE).
      - split; [eapply emits_error; [now apply emits_refl | reflexivity ..] | repeat split].
      - split; [now apply emits_refl | repeat split]. now rewrite (proj2 (Z.eqb_neq _ _) A1), (proj2 (Z.eqb_neq _ _) A2). }
    clearbody t1. destruct F as (F & Fo & Fp & Fs & Fb & ->). rewrite <- Fo in Ho. rewrite bool_decide_eq_false_2 by exact Ho. cbn [negb].
    destruct (SendBuffered_spec t1 ltac:(apply F)) as (r0 & sc & o & w & -> & Wb & B' & Lk & R0). unfold INT_MAX in *.
    assert (Fin : forall t2, emits t1 [] t2 -> bulk t2 = bulk t1 -> (exists n, written n t2 /\ n <= 2 ^ 31 - 1) ->
      (exists l, emits t l t2 /\ within_limit (bulk t) l) /\ bulk t2 = bulk t /\ (exists n, written n t2 /\ n <= 2 ^ 31 - 1))
      by (intros t2 E2 B2 W2; apply Keep; [exact (emits_trans _ _ _ _ _ F E2) | congruence | exact W2]).
    destruct R0 as [[-> ->] | (-> & No & Lt)]; cbn [Z.ltb Z.compare].
    + set (sent := prevSent _ +u32 plainSz _).
      assert (sent = prevSent t + plainSz t) as ->
        by (change sent with (wrap 32 (prevSent t1 + plainSz t1)); rewrite Fp, Fs; apply wrap_small; unfold is_word; lia).
      destruct (Z.gtb_spec (prevSent t + plainSz t) (Zlen data)); [| lia]. intros [= <- <-].
      apply Fin; [apply emits_quiet; try reflexivity; try assumption; apply F | reflexivity |]. exists 0. unfold written. cbn. lia.
    + intros [= <- <-]. apply Fin; [apply emits_quiet; try reflexivity; try assumption; apply F | reflexivity |].
      assert (W1 : written n t1) by (unfold written; rewrite Fp, Fs; lia). exists n. exact (conj W1 Hn).
Qed.


Lemma send_handshake_message_spec type body t : tx_ok t -> content_ok handshake (whole_message type body) -> type <> key_update ->
  let t' := snd (send_handshake_message (whole_message type body) t) in
  exists e, s_type e = handshake /\ s_content e = whole_message type body /\ emits t [e] t' /\ write_state t' = write_state t.
Proof.
  intros O C N t'. pose proof O as (K & _ & B & P). pose proof aead_mac_size_range as M. unfold t', send_handshake_message.
  assert (L : Zlen (whole_message type body) <= MAX_RECORD_SIZE).
  { inversion C; subst; [discriminate |]. unfold whole_message. rewrite Zlen_cons, Zlen_app. unfold HANDSHAKE_HEADER_SZ in *.
    change (Zlen (be_bytes 3 _)) with 3. lia. }
  set (msg := whole_message type body) in *. pose proof (Zlen_nonneg msg).
  destruct (BuildTls13Message_spec (RECORD_HEADER_SZ + Zlen msg + MAX_MSG_EXTRA) msg handshake t) as (k & (A1 & A2 & A3) & ->);
    [exact K | split; unfold handshake; lia | exact L | unfold BuildTls13Message_size, RECORD_HEADER_SZ, MAX_MSG_EXTRA; lia |].
  set (e := {| s_secret := _ |}).
  destruct (Z.ltb_spec (BuildTls13Message_size (Zlen msg)) 0) as [Neg |];
    [exfalso; revert Neg; unfold BuildTls13Message_size, RECORD_HEADER_SZ; lia |].
  match goal with |- context [SendBuffered ?x] => destruct (SendBuffered_spec x B) as (r & sc & o & w & -> & W & B' & Lk & _) end.
  exists e. split; [reflexivity | split; [reflexivity | split; [| reflexivity]]].
  assert (Nk : is_key_update e = false) by (apply andb_false_iff; right; apply Z.eqb_neq; exact N).
  apply sealed_emits; try assumption; try reflexivity. rewrite Nk. exact (conj eq_refl A2).
Qed.

(** [C10] Whatever an endpoint does after the handshake - write, retry a write, flush, send
    alerts, KeyUpdates and other handshake messages, receive - in any order, over a
    socket that neither breaks nor lies: the records it sealed are
    numbered without gap or repetition under each key, a KeyUpdate is the last record of its
    key, application data stays below the limit of the key, and the bytes put out are
    exactly those records in order. *)
Theorem sender_trace b s q t t' : sender_ok b s q t -> rtc tx_step t t' -> sender_ok b s q t'.
Proof.
  intros I R. revert I. induction R as [| t t1 t' St _ IH]; [auto |]. intros I. apply IH. clear IH.
  pose proof I as [O (n & W & Hn) B C Wi L].
  assert (Same : forall t2, write_state t2 = write_state t -> exists n, written n t2 /\ n <= INT_MAX)
    by (intros t2 [= Wp Ws _ _ _]; exists n; unfold written; now rewrite Wp, Ws).
  assert (Quiet : forall l e, s_type e <> application_data -> l = [e] -> within_limit b l)
    by (intros l e Ne ->; apply within_limit_none; now repeat constructor).
  inversion St as [data r ? ? Bd E | | severity type ? Hs Ht | | type body ? Co N | ? ? Rc]; subst.
  - destruct (SendData_emits data t r t1 Bd O (ex_intro _ n (conj W Hn)) E) as ((l & Em & Lim) & Eb & P).
    now apply (sender_ok_emits _ s q t l).
  - apply (sender_ok_emits _ s q t []); [exact I | now apply SendBuffered_emits | | | constructor].
    + apply Same. destruct (SendBuffered_spec t ltac:(apply O)) as (? & ? & ? & ? & -> & _). reflexivity.
    + destruct (SendBuffered_spec t ltac:(apply O)) as (? & ? & ? & ? & -> & _). reflexivity.
  - pose proof (SendAlert_spec severity type t O Hs Ht) as Sp. destruct (SendAlert severity type t) as [r t1].
    destruct Sp as ((l & Em & D) & Wr).
    apply (sender_ok_emits _ s q t l); [exact I | exact Em | now apply Same | now injection Wr | now apply within_limit_none].
  - pose proof (SendTls13KeyUpdate_spec t O) as Sp. destruct (SendTls13KeyUpdate t) as [r t1].
    destruct Sp as [[-> ->] | (-> & e & Et & _ & Em & _ & _ & _ & _ & _ & Wr)]; [exact I |].
    apply (sender_ok_emits _ s q t [e]); [exact I | exact Em | now apply Same | now injection Wr |].
    apply (Quiet _ e); [now rewrite Et | reflexivity].
  - destruct (send_handshake_message_spec type body t O Co N) as (e & Et & _ & Em & Wr).
    apply (sender_ok_emits _ s q t [e]); [exact I | exact Em | now apply Same | now injection Wr |].
    apply (Quiet _ e); [now rewrite Et | reflexivity].
  - destruct Rc as (Eh & Es & Eo & Ew & Ek & Ee & Eb & Ep & Epl & Ea & K & Sq). destruct O as (_ & Oe & Ob & Op).
    split; try congruence.
    + split; [exact K | split; [congruence | split; [now rewrite Ek | congruence]]].
    + exists n. unfold written. now rewrite Ep, Epl.
Qed.

End Send.

Arguments Sealed S : clear implicits.
Arguments Tx S T : clear implicits.

(** ** A cipher for witnesses

    The text in clear with one byte of tag; secrets are counted. *)

#[export] Instance toy_crypto : RecordCrypto nat := {|
  rc_encrypt _ _ _ p := p ++ [7];
  rc_decrypt _ _ _ c := (if rd c (Zlen c - 1) =? 7 then 0 else VERIFY_MAC_ERROR, take (length c - 1) c);
  rc_iv _ := replicate 12 0;
  rc_update := Datatypes.S;
  iv_size := 12;
  aead_mac_size := 1
|}.

#[export] Instance toy_crypto_spec : RecordCryptoSpec nat.
Proof.
  split; cbn [rc_encrypt rc_decrypt rc_iv iv_size aead_mac_size toy_crypto].
  - intros. rewrite Zlen_app. reflexivity.
  - intros s n a p B. apply is_bytes_app. split; [exact B | repeat constructor; unfold is_word; lia].
  - intros s n a p. rewrite Zlen_app. change (Zlen [7]) with 1. replace (Zlen p + 1 - 1) with (Zlen p) by lia.
    rewrite rd_app_end. cbn [Z.eqb Pos.eqb]. f_equal. rewrite length_app. cbn [length].
    replace (length p + 1 - 1)%nat with (length p) by lia. apply take_app_length.
  - intros s n a c L. cbn [snd]. unfold Zlen in *. rewrite length_take. lia.
  - intros s n a c B. now apply Forall_take.
  - intros s n a c. cbn [fst]. destruct (_ =? _); split; discriminate.
  - intros s. split; [repeat constructor; discriminate | discriminate].
  - lia.
Qed.

(** A connection with nothing sent, ahead of a socket that will give [script]. *)
Definition fresh_tx_with {S} (k : S) (script : list send_result) : Tx S Native.w64wrapper :=
  {| keys := {| peer_sequence_number_hi := 0; peer_sequence_number_lo := 0; sequence_number_hi := 0; sequence_number_lo := 0;
                dtls_epoch := 0; dtls_sequence_number_hi := 0; dtls_sequence_number_lo := 0;
                dtls_prev_sequence_number_hi := 0; dtls_prev_sequence_number_lo := 0;
                curEpoch := 0; curSeq_hi := 0; curSeq_lo := 0; curPeerId := 0 |};
     encSecret := k; bulk := wolfssl_aes_gcm; encryptOn := true;
     updateResponseReq := false; keyUpdateRespond := false; keyUpdateCount := w64Zero;
     outputBuffer := []; prevSent := 0; plainSz := 0;
     pendingAlert_code := 0; pendingAlert_level := alert_none; last_tx_code := 0; last_tx_level := 0;
     isClosed := false; connReset := false; partialWrite := false; error := 0;
     sock := script; wire := []; hist := [] |}.

Definition fresh_tx : list send_result -> Tx nat Native.w64wrapper := fresh_tx_with 0%nat.

Lemma fresh_tx_ok script : Forall benign script -> tx_ok (fresh_tx script).
Proof. intros B. split; [repeat split; discriminate | split; [reflexivity | split; [exact B | reflexivity]]]. Qed.

(** Ten bytes, over a socket that blocks in the middle of the record. *)
Definition ten : list Z := [1; 2; 3; 4; 5; 6; 7; 8; 9; 10].

Definition after (o : option (Z * Tx nat Native.w64wrapper)) : Tx nat Native.w64wrapper :=
  match o with Some (_, t) => t | None => fresh_tx [] end.

Lemma write_session_exact_witness :
  let t := fresh_tx [Takes 3; Would_block; Takes 1] in
  let t' := after (SendData ten (after (SendData ten t))) in
  write_session ten t 10 t' /\ app_data (hist t') = ten.
Proof.
  intros t t'. assert (Se : write_session ten t 10 t').
  { apply (ws_retry ten t (after (SendData ten t))); [vm_compute; reflexivity |]. apply ws_end; [vm_compute; reflexivity | discriminate]. }
  split; [exact Se |].
  destruct (write_session_exact ten t) as [_ E];
    [repeat constructor; discriminate | discriminate | apply fresh_tx_ok; repeat constructor | split; discriminate | split; reflexivity |].
  destruct (E _ _ Se) as (l & Em & _ & Pos & _). destruct (Pos ltac:(lia)) as (D & _).
  rewrite (em_hist _ _ _ Em). exact D.
Defined.

(** The same write, with a KeyUpdate of the peer answered before the retry. *)
Lemma retry_after_KeyUpdate_duplicates_witness :
  let t := fresh_tx [Would_block] in
  let t1 := after (SendData ten t) in
  let t2 := snd (SendTls13KeyUpdate t1) in
  let t3 := after (SendData ten t2) in
  SendData ten t2 = Some (10, t3) /\ app_data (hist t3) = ten ++ ten /\ prevSent t3 + plainSz t3 = 10.
Proof.
  intros t t1 t2 t3. assert (E3 : SendData ten t2 = Some (10, t3)) by (vm_compute; reflexivity). split; [exact E3 |].
  destruct (retry_after_KeyUpdate_duplicates ten t t1 t2 10 t3) as (l & Em & D & P);
    [repeat constructor; discriminate | discriminate | apply fresh_tx_ok; repeat constructor | split; discriminate | split; reflexivity |
     vm_compute; reflexivity | vm_compute; reflexivity | vm_compute; reflexivity | exact E3 | lia |].
  rewrite (em_hist _ _ _ Em). split; [exact D | exact P].
Defined.

Lemma sender_trace_witness :
  let t := fresh_tx [Takes 3; Would_block] in
  let t1 := after (SendData ten t) in
  let t2 := snd (SendTls13KeyUpdate t1) in
  let t3 := snd (SendAlert alert_warning 0 t2) in
  sender_ok wolfssl_aes_gcm 0%nat 0 t3 /\ (s_secret <$> hist t3) = [0; 0; 1]%nat /\ (s_seq <$> hist t3) = [0; 1; 0].
Proof.
  intros t t1 t2 t3. split; [| split; vm_compute; reflexivity].
  apply (sender_trace wolfssl_aes_gcm 0%nat 0 t t3).
  - split; [apply fresh_tx_ok; repeat constructor | exists 0; repeat split; discriminate | reflexivity | split; reflexivity | reflexivity | constructor].
  - eapply rtc_l; [apply (step_write ten WANT_WRITE t t1); [repeat constructor; discriminate | vm_compute; reflexivity] |].
    eapply rtc_l; [apply step_key_update |]. eapply rtc_l; [apply (step_alert alert_warning 0 t2); split; (discriminate || reflexivity) |]. apply rtc_refl.
Defined.
