(* ===== verification/TlsPad.v ===== *)
(** * src/internal.c: padding and MAC of a CBC record (TLS 1.2, MAC-then-encrypt)

    A decrypted CBC record is content, MAC, padding and a padding length byte.
    Rejecting a record early, or hashing a length that depends on the
    padding, tells an attacker where the padding ends, so the code looks at
    every byte the padding and the MAC could occupy and folds what it finds
    into one byte ([MaskPadding], [MaskMac], [TimingPadVerify]).  The build
    with [WOLFSSL_OLD_TIMINGPADVERIFY] checks directly and does dummy work.

    Reads that leave the buffer are [None].  [hmac] stands for the callback
    [ssl->hmac]: from the record, the length of the content and the padding
    length it returns a code and the bytes of [verify].  The dummy work of the
    old build (hashing and [PadCheck] of a dummy buffer) changes no state and
    is left out. *)

From S2P Require Import Prelude Misc.
From stdpp Require Import list.

#[local] Open Scope Z_scope.
#[local] Open Scope cword_scope.

Definition TLS_MAX_PAD_SZ : Z := 255.
Definition WC_SHA_DIGEST_SIZE : Z := 20.
Definition WC_SHA384_DIGEST_SIZE : Z := 48.
Definition VERIFY_MAC_ERROR : Z := -305.

(** [data[i]] *)
Definition get (data : list Z) (i : Z) : option Z :=
  if 0 <=? i then data !! Z.to_nat i else None.

(** ** The constant-time check *)

(** The loop of [MaskPadding], [n] iterations from [i] on. *)
Fixpoint MaskPadding_loop (data : list Z) (sz paddingSz i : Z) (n : nat) (good : Z) : option Z :=
  match n with
  | O => Some good
  | S n =>
      let mask := CT.ctMaskLTE i paddingSz in
      d ← get data (sz - 1 - i);
      MaskPadding_loop data sz paddingSz (i + 1) n
        (u8 (Z.lor good (Z.land mask (Z.lxor d paddingSz))))
  end.

Definition MaskPadding (data : list Z) (sz macSz : Z) : option Z :=
  let checkSz := sz - 1 in
  paddingSz ← get data (sz - 1);
  let good := CT.ctMaskGT paddingSz (sz - 1 - macSz) in
  let checkSz := if TLS_MAX_PAD_SZ <? checkSz then TLS_MAX_PAD_SZ else checkSz in
  MaskPadding_loop data sz paddingSz 0 (Z.to_nat checkSz) good.

(** The inner loop of [MaskMac]: [n] iterations of [j]. *)
Fixpoint MaskMac_inner (data : list Z) (sz macStart macEnd i j : Z) (n : nat) (mac : list Z)
  : option (list Z) :=
  match n with
  | O => Some mac
  | S n =>
      if i + j <? sz then
        let started := CT.ctMaskGTE (i + j) macStart in
        let notEnded := CT.ctMaskLT (i + j) macEnd in
        d ← get data (i + j);
        m ← get mac j;
        MaskMac_inner data sz macStart macEnd i (j + 1) n
          (<[Z.to_nat j := Z.lor m (Z.land (Z.land started notEnded) d)]> mac)
      else Some mac
  end.

(** The outer loop: [fuel] bounds the number of blocks. *)
Fixpoint MaskMac_outer (data : list Z) (sz macSz macStart macEnd i : Z) (fuel : nat)
    (mac : list Z) : option (list Z) :=
  if i <? sz then
    match fuel with
    | O => None
    | S fuel =>
        mac ← MaskMac_inner data sz macStart macEnd i 0 (Z.to_nat macSz) mac;
        MaskMac_outer data sz macSz macStart macEnd (i + macSz) fuel mac
    end
  else Some mac.

(** The rotation of the MAC in [mac], and an index rotated into it. *)
Definition MaskMac_rot (macSz x : Z) : option Z :=
  if Z.land macSz (macSz - 1) =? 0 then Some (Z.land x (macSz - 1))
  else if macSz =? WC_SHA_DIGEST_SIZE then Some (Z.rem x WC_SHA_DIGEST_SIZE)
  else if macSz =? WC_SHA384_DIGEST_SIZE then Some (Z.rem x WC_SHA384_DIGEST_SIZE)
  else None.

(** The comparison with the expected MAC; for a size the code does not know
    nothing is compared. *)
Fixpoint MaskMac_compare (expMac mac : list Z) (macSz r i : Z) (n : nat) (good : Z) : option Z :=
  match n with
  | O => Some good
  | S n =>
      match MaskMac_rot macSz (i + r) with
      | None => Some good
      | Some k =>
          e ← get expMac i;
          m ← get mac k;
          MaskMac_compare expMac mac macSz r (i + 1) n (u8 (Z.lor good (Z.lxor e m)))
      end
  end.

Definition MaskMac (data : list Z) (sz macSz : Z) (expMac : list Z) : option Z :=
  pad ← get data (sz - 1);
  let scanStart := sz - 1 - TLS_MAX_PAD_SZ - macSz in
  let macEnd := sz - 1 - pad in
  let macStart := macEnd - macSz in
  let maskScanStart := CT.ctMaskIntGTE scanStart 0 in
  let maskMacStart := CT.ctMaskIntGTE macStart 0 in
  let scanStart := Z.land scanStart maskScanStart in
  let macStart := Z.land macStart maskMacStart in
  let r := default 0 (MaskMac_rot macSz (macSz - scanStart + macStart)) in
  mac ← MaskMac_outer data sz macSz macStart macEnd scanStart (Z.to_nat sz)
          (replicate (Z.to_nat macSz) 0);
  MaskMac_compare expMac mac macSz r 0 (Z.to_nat macSz) 0.

Section Verify.
  (** [hmac input sz padLen]: the code and the bytes of [verify]. *)
  Variable hmac : list Z -> Z -> Z -> Z * list Z.
  (** [ssl->specs.hash_size] *)
  Variable hash_size : Z.

(** The folding of [good] into bit 0, set when [good] is 0. *)
Definition fold_good (good : Z) : Z :=
  let good := cnot 8 (u32 good) in
  let good := Z.land good (Z.shiftr good 4) in
  let good := Z.land good (Z.shiftr good 2) in
  Z.land good (Z.shiftr good 1).

Definition TimingPadVerify (input : list Z) (padLen macSz pLen : Z) : option Z :=
  good ← MaskPadding input pLen macSz;
  let padLen := Z.land padLen (CT.ctMaskIntGTE (pLen - macSz - 1) padLen) in
  let '(ret, verify) := hmac input (u32 (pLen - macSz - padLen - 1)) padLen in
  goodMac ← MaskMac input pLen hash_size verify;
  let good := fold_good (Z.lor good goodMac) in
  let ret := ret - (1 - good) in
  Some (if ret =? 0 then 0 else VERIFY_MAC_ERROR).

(** ** The direct check *)

(** [PadCheck]: [n] bytes from [a] on. *)
Fixpoint PadCheck (data : list Z) (a pad : Z) (n : nat) (compareSum : Z) : option Z :=
  match n with
  | O => Some compareSum
  | S n =>
      d ← get data a;
      PadCheck data (a + 1) pad n (Z.lor compareSum (Z.lxor d pad))
  end.

(** The [n] bytes at [pos]. *)
Definition slice (data : list Z) (pos n : Z) : list Z :=
  take (Z.to_nat n) (drop (Z.to_nat pos) data).

(** The bytes at [pos], for a comparison: they have to be there. *)
Definition get_slice (data : list Z) (pos n : Z) : option (list Z) :=
  if (0 <=? pos) && (pos + n <=? Zlen data) then Some (slice data pos n) else None.

(** [TimingPadVerify] of the build with [WOLFSSL_OLD_TIMINGPADVERIFY]. *)
Definition TimingPadVerify_old (input : list Z) (padLen t pLen : Z) : option Z :=
  if t + padLen + 1 >? pLen then Some VERIFY_MAC_ERROR
  else
    c ← PadCheck input (pLen - (padLen + 1)) (u8 padLen) (Z.to_nat (padLen + 1)) 0;
    if negb (c =? 0) then Some VERIFY_MAC_ERROR
    else
      let '(ret, verify) := hmac input (u32 (pLen - padLen - 1 - t)) (-1) in
      mac ← get_slice input (pLen - padLen - 1 - t) t;
      if negb (Buf.ConstantCompare verify mac (Z.to_nat t) =? 0)
      then Some VERIFY_MAC_ERROR
      else if negb (ret =? 0) then Some VERIFY_MAC_ERROR
      else Some ret.

(** [MacSize] *)
Definition TRUNCATED_HMAC_SZ : Z := 10.

Definition MacSize (truncated_hmac : bool) : Z :=
  if truncated_hmac then TRUNCATED_HMAC_SZ else hash_size.

(** [VerifyMacEnc]: the MAC covers the encrypted record (encrypt-then-MAC). *)
Definition VerifyMacEnc (truncated_hmac : bool) (input : list Z) (msgSz : Z) : option Z :=
  let digestSz := MacSize truncated_hmac in
  if msgSz <? digestSz then Some VERIFY_MAC_ERROR
  else
    let '(ret, verify) := hmac input (msgSz -u32 digestSz) (-1) in
    mac ← get_slice input (msgSz - digestSz) digestSz;
    let ret := Z.lor ret (Buf.ConstantCompare verify mac (Z.to_nat digestSz)) in
    Some (if negb (ret =? 0) then VERIFY_MAC_ERROR else 0).

(** [ssl->specs.cipher_type] *)
Inductive CipherType := stream | block | aead.

(** [VerifyMac], in a build with TLS 1.2 and without public key callbacks:
    the code and [*padSz].  [tls] is [ssl->options.tls] (SSLv3 when off). *)
Definition VerifyMac (cipher_type : CipherType) (tls truncated_hmac : bool) (aead_mac_size : Z)
    (input : list Z) (msgSz padSz0 : Z) : option (Z * Z) :=
  let digestSz := MacSize truncated_hmac in
  match cipher_type with
  | aead => Some (0, aead_mac_size)
  | stream =>
      let '(ret, verify) := hmac input (msgSz -u32 digestSz) (-1) in
      mac ← get_slice input (msgSz - digestSz) digestSz;
      if negb (Buf.ConstantCompare verify mac (Z.to_nat digestSz) =? 0)
      then Some (VERIFY_MAC_ERROR, padSz0)
      else if negb (ret =? 0) then Some (VERIFY_MAC_ERROR, padSz0)
      else Some (0, 0)
  | block =>
      pad ← get input (msgSz - 1);
      if tls then
        ret ← TimingPadVerify input pad digestSz msgSz;
        if negb (ret =? 0) then Some (ret, padSz0) else Some (0, pad + 1)
      else
        let badPadLen := pad >? (msgSz -u32 digestSz -u32 1) in
        let pad := if badPadLen then 0 else pad in
        let '(ret, verify) := hmac input (msgSz -u32 digestSz -u32 pad -u32 1) pad in
        mac ← get_slice input (msgSz - digestSz - pad - 1) digestSz;
        if negb (Buf.ConstantCompare verify mac (Z.to_nat digestSz) =? 0)
        then Some (VERIFY_MAC_ERROR, padSz0)
        else if negb (ret =? 0) || badPadLen then Some (VERIFY_MAC_ERROR, padSz0)
        else Some (0, pad + 1)
  end.

(** What both are for: the padding fits beside the MAC, the last [checked]
    bytes are the padding length, and the MAC of the content is the one
    received. *)
Definition mac_then_pad_ok (input : list Z) (macSz pLen padSz checked : Z) : bool :=
  let pad := rd input (pLen - 1) in
  let len := pLen - macSz - pad - 1 in
  let '(ret, verify) := hmac input len padSz in
  (0 <=? len) && forallb (Z.eqb pad) (slice input (pLen - checked) checked) &&
  (ret =? 0) && bool_decide (slice verify 0 macSz = slice input len macSz).

End Verify.

(** ** Reading a record *)

Lemma get_rd data i : 0 <= i < Zlen data -> get data i = Some (rd data i).
Proof.
  intros H. unfold get, Zlen in *. destruct (Z.leb_spec 0 i); [| lia].
  apply lookup_rd. lia.
Qed.

Lemma slice_length data pos n :
  0 <= pos -> 0 <= n -> pos + n <= Zlen data -> length (slice data pos n) = Z.to_nat n.
Proof. intros. unfold slice, Zlen in *. rewrite length_take, length_drop. lia. Qed.

Lemma slice_lookup data pos n k :
  0 <= pos -> 0 <= k < n -> pos + n <= Zlen data ->
  slice data pos n !! Z.to_nat k = Some (rd data (pos + k)).
Proof.
  intros Hp Hk Hl. unfold slice, Zlen in *.
  rewrite lookup_take_lt, lookup_drop by lia.
  replace (Z.to_nat pos + Z.to_nat k)%nat with (Z.to_nat (pos + k)) by lia.
  apply lookup_rd. lia.
Qed.

(** Two slices are equal when they agree byte by byte. *)
Lemma slice_eq a pa b pb n :
  0 <= pa -> 0 <= pb -> 0 <= n -> pa + n <= Zlen a -> pb + n <= Zlen b ->
  slice a pa n = slice b pb n <-> forall k, 0 <= k < n -> rd a (pa + k) = rd b (pb + k).
Proof.
  intros Ha Hb Hn La Lb. split.
  - intros E k Hk. pose proof (slice_lookup a pa n k Ha Hk La) as X.
    rewrite E, slice_lookup in X by assumption. now injection X.
  - intros E. apply list_eq_same_length with (n := Z.to_nat n); try now apply slice_length.
    intros i x y Hi. rewrite <- (Nat2Z.id i), !slice_lookup by lia.
    intros [= <-] [= <-]. apply E. lia.
Qed.

Lemma forallb_slice p data pos n :
  0 <= pos -> 0 <= n -> pos + n <= Zlen data ->
  forallb p (slice data pos n) = true <-> forall k, 0 <= k < n -> p (rd data (pos + k)) = true.
Proof.
  intros Hp Hn Hl. rewrite forallb_forall. split.
  - intros H k Hk. apply H. apply list_elem_of_In, list_elem_of_lookup.
    exists (Z.to_nat k). now apply slice_lookup.
  - intros H x Hx. apply list_elem_of_In, list_elem_of_lookup in Hx as [i Hi].
    assert (Li : (i < Z.to_nat n)%nat).
    { rewrite <- (slice_length data pos n) by assumption. now apply lookup_lt_is_Some_1. }
    rewrite <- (Nat2Z.id i), slice_lookup in Hi by lia. injection Hi as <-. apply H. lia.
Qed.

#[local] Hint Resolve mask_is_word : wolf.

Lemma lor_lxor_zero g a b : Z.lor g (Z.lxor a b) = 0 <-> g = 0 /\ a = b.
Proof. now rewrite Z.lor_eq_0_iff, Z.lxor_eq_0_iff. Qed.

(** ** The padding *)

Lemma MaskPadding_loop_spec data sz p i n good :
  is_bytes data -> is_word 8 p -> is_word 8 good ->
  0 <= i -> i + Z.of_nat n <= sz - 1 -> sz <= Zlen data -> sz < 2 ^ 30 ->
  exists g, MaskPadding_loop data sz p i n good = Some g /\ is_word 8 g /\
    (g = 0 <-> good = 0 /\ forall k, i <= k < i + Z.of_nat n -> k <= p -> rd data (sz - 1 - k) = p).
Proof.
  intros Hd Hp. revert i good. induction n as [| n IH]; intros i good Hg Hi Hn Hl Hs.
  - exists good. split; [reflexivity |]. split; [exact Hg |].
    split; [intros ->; split; [reflexivity | lia] | tauto].
  - cbn [MaskPadding_loop]. rewrite get_rd by lia. cbn [mbind option_bind].
    assert (Hr : is_word 8 (rd data (sz - 1 - i))) by auto with wolf lia.
    assert (Hx : is_word 8 (Z.lxor (rd data (sz - 1 - i)) p)) by auto with wolf lia.
    rewrite ctMaskLTE_mask, Z.land_comm, land_mask by (unfold is_word in *; lia || exact Hx).
    rewrite (wrap_small 8) by (apply lor_is_word; [lia | exact Hg | case_match; [exact Hx | unfold is_word; lia]]).
    destruct (IH (i + 1) (Z.lor good (if i <=? p then Z.lxor (rd data (sz - 1 - i)) p else 0)))
      as (g & E & Wg & Zg); try lia.
    { apply lor_is_word; [lia | exact Hg | case_match; [exact Hx | unfold is_word; lia]]. }
    exists g. split; [exact E |]. split; [exact Wg |]. rewrite Zg. clear E Zg.
    destruct (Z.leb_spec i p).
    + rewrite lor_lxor_zero. split.
      * intros [[-> Ei] H1]. split; [reflexivity |]. intros k Hk Hkp.
        destruct (Z.eq_dec k i) as [-> |]; [exact Ei | apply H1; lia].
      * intros [-> H1]. repeat split; [apply H1; lia | intros; apply H1; lia].
    + rewrite Z.lor_0_r. split; intros [-> H1]; (split; [reflexivity |]); intros; apply H1; lia.
Qed.

Lemma MaskPadding_spec data sz macSz :
  is_bytes data -> 1 <= macSz -> 1 <= sz <= Zlen data -> sz + macSz < 2 ^ 30 ->
  let p := rd data (sz - 1) in
  exists g, MaskPadding data sz macSz = Some g /\ is_word 8 g /\
    (g = 0 <-> p + macSz + 1 <= sz /\
               forall k, 0 <= k < Z.min (p + 1) TLS_MAX_PAD_SZ -> rd data (sz - 1 - k) = p).
Proof.
  intros Hd Hm Hs Hb p. unfold MaskPadding, TLS_MAX_PAD_SZ. rewrite get_rd by lia.
  cbn [mbind option_bind]. fold p. cbv zeta.
  assert (Hp : is_word 8 p) by (unfold p; auto with wolf lia).
  rewrite ctMaskGT_mask by (unfold is_word in *; lia).
  edestruct (MaskPadding_loop_spec data sz p 0) as (g & E & Wg & Zg); cycle 7.
  { exists g. split; [exact E |]. split; [exact Wg |]. rewrite Zg. clear E Zg.
    unfold mask. destruct (Z.ltb_spec (sz - 1 - macSz) p).
    { split; intros [? _]; [discriminate | lia]. }
    split; intros [_ H1]; (split; [lia || reflexivity |]); intros k Hk; [| intros]; apply H1; try lia;
      case_match; lia. }
  all: try assumption; try lia; auto with wolf lia.
  case_match; lia.
Qed.

(** ** The MAC

    [mac] collects the bytes of the window [a, e) from [s] on, modulo the
    size of the MAC.  The window is no longer than the MAC, so that each of
    its bytes has a cell of its own. *)

Lemma lookup_get (l : list Z) i : 0 <= i < Zlen l -> l !! Z.to_nat i = Some (rd l i).
Proof. intros. unfold Zlen in *. apply lookup_rd. lia. Qed.

Lemma rd_insert l i k x :
  0 <= i < Zlen l -> 0 <= k < Zlen l -> rd (<[Z.to_nat i := x]> l) k = if k =? i then x else rd l k.
Proof.
  intros Hi Hk. unfold rd, Zlen in *. destruct (Z.eqb_spec k i) as [-> |].
  - rewrite list_lookup_insert_eq by lia. reflexivity.
  - rewrite list_lookup_insert_ne by lia. reflexivity.
Qed.

Lemma mod_block s t m j : 0 < m -> 0 <= j < m -> (s + t * m + j - s) mod m = j.
Proof.
  intros. replace (s + t * m + j - s) with (j + t * m) by lia.
  rewrite Z.mod_add by lia. now apply Z.mod_small.
Qed.

(** Two numbers closer than [m] with the same residue are equal. *)
Lemma mod_close a b m : 0 < m -> - m < a - b < m -> a mod m = b mod m -> a = b.
Proof.
  intros Hm Hab E. assert (D : (a - b) mod m = 0) by (rewrite Zminus_mod, E, Z.sub_diag; apply Zmod_0_l).
  rewrite Z.mod_divide in D by lia. destruct D as [q Hq]. assert (q = 0) by nia. subst q. lia.
Qed.

Section Scan.
  Context (data : list Z) (sz m s a e : Z).
  Hypothesis (Hd : is_bytes data) (Hm : 0 < m) (Hs : 0 <= s <= a) (He : e <= a + m)
    (Hesz : e <= sz) (Hsz : sz <= Zlen data) (Hbig : sz < 2 ^ 30) (Habig : - 2 ^ 30 < e)
    (Haa : a < 2 ^ 30).

Definition mac_inv (K : Z) (mac : list Z) : Prop :=
  Zlen mac = m /\ is_bytes mac /\
  forall k, a <= k < e -> rd mac ((k - s) mod m) = if k <? K then rd data k else 0.

Lemma mac_inv_init : mac_inv s (replicate (Z.to_nat m) 0).
Proof using Hm Hs.
  unfold mac_inv, Zlen. rewrite length_replicate. split; [lia |]. split.
  - apply Forall_replicate. unfold is_word. lia.
  - intros k Hk. destruct (Z.ltb_spec k s); [lia |].
    pose proof (Z.mod_pos_bound (k - s) m Hm). unfold rd.
    rewrite lookup_replicate_2 by lia. reflexivity.
Qed.

(** One store of the inner loop. *)
Lemma mac_inv_step K j mac :
  0 <= K < sz -> 0 <= j < m -> (K - s) mod m = j -> mac_inv K mac ->
  mac_inv (K + 1)
    (<[Z.to_nat j := Z.lor (rd mac j) (Z.land (Z.land (CT.ctMaskGTE K a) (CT.ctMaskLT K e)) (rd data K))]>
       mac).
Proof using All.
  intros HK Hj Ej (L & B & I). unfold is_word in *.
  rewrite ctMaskGTE_mask, ctMaskLT_mask, land_mask by (lia || apply mask_is_word; lia).
  assert (Hr : is_word 8 (rd data K)) by auto with wolf lia.
  assert (Hv : (Z.land (if K <? e then Misc.mask 8 (a <=? K) else 0) (rd data K)) =
               if (a <=? K) && (K <? e) then rd data K else 0).
  { destruct (K <? e), (a <=? K); cbn [andb]; rewrite ?Z.land_0_l; try reflexivity.
    now rewrite Z.land_comm, land_mask by (lia || exact Hr). }
  rewrite Hv. split; [| split].
  - unfold Zlen in *. now rewrite length_insert.
  - apply Forall_insert; [exact B |]. apply lor_is_word; [lia | auto with wolf lia |].
    destruct ((a <=? K) && (K <? e)); [exact Hr | unfold is_word; lia].
  - intros k Hk. pose proof (Z.mod_pos_bound (k - s) m Hm).
    rewrite rd_insert by lia. destruct (Z.eqb_spec ((k - s) mod m) j) as [E |].
    + destruct (Z.eq_dec k K) as [-> |].
      * rewrite <- E, I, Z.ltb_irrefl by lia.
        destruct (Z.leb_spec a K), (Z.ltb_spec K e), (Z.ltb_spec K (K + 1)); try lia. reflexivity.
      * assert (O : (a <=? K) && (K <? e) = false).
        { apply not_true_iff_false. intros T. assert (k - s = K - s); [| lia].
          apply (mod_close _ _ m); [exact Hm | lia | congruence]. }
        rewrite O, Z.lor_0_r, <- E, I by lia.
        destruct (Z.ltb_spec k K), (Z.ltb_spec k (K + 1)); lia || reflexivity.
    + rewrite I by lia. destruct (Z.ltb_spec k K), (Z.ltb_spec k (K + 1)); try lia; try reflexivity.
      assert (k = K) by lia. congruence.
Qed.

Lemma MaskMac_inner_inv t j n mac :
  0 <= t -> 0 <= j -> j + Z.of_nat n = m -> mac_inv (s + t * m + j) mac ->
  exists mac', MaskMac_inner data sz a e (s + t * m) j n mac = Some mac' /\
    mac_inv (s + (t + 1) * m) mac'.
Proof using All.
  intros Ht. revert j mac. induction n as [| n IH]; intros j mac Hj Hn I; cbn [MaskMac_inner].
  - exists mac. split; [reflexivity |].
    now replace (s + (t + 1) * m) with (s + t * m + j) by lia.
  - destruct (Z.ltb_spec (s + t * m + j) sz).
    + pose proof I as (L & B & _).
      rewrite !get_rd by nia. cbn [mbind option_bind]. apply IH; [lia | lia |].
      rewrite Z.add_assoc. apply mac_inv_step; [nia | lia | apply mod_block; lia | exact I].
    + exists mac. split; [reflexivity |]. destruct I as (L & B & I). split; [exact L |].
      split; [exact B |]. intros k Hk. rewrite I by exact Hk.
      destruct (Z.ltb_spec k (s + t * m + j)), (Z.ltb_spec k (s + (t + 1) * m)); nia || reflexivity.
Qed.

Lemma MaskMac_outer_inv fuel t mac :
  0 <= t -> sz <= s + t * m + Z.of_nat fuel -> mac_inv (s + t * m) mac ->
  exists mac', MaskMac_outer data sz m a e (s + t * m) fuel mac = Some mac' /\ mac_inv sz mac'.
Proof using All.
  revert t mac. induction fuel as [| fuel IH]; intros t mac Ht Hf I; cbn [MaskMac_outer].
  all: destruct (Z.ltb_spec (s + t * m) sz); [| exists mac; split; [reflexivity |]].
  - lia.
  - destruct I as (L & B & I). split; [exact L |]. split; [exact B |]. intros k Hk.
    rewrite I by exact Hk. destruct (Z.ltb_spec k (s + t * m)), (Z.ltb_spec k sz); lia || reflexivity.
  - destruct (MaskMac_inner_inv t 0 (Z.to_nat m) mac) as (mac' & -> & I'); try lia.
    { now rewrite Z.add_0_r. }
    cbn [mbind option_bind]. replace (s + t * m + m) with (s + (t + 1) * m) by lia.
    apply IH; [lia | nia | exact I'].
  - destruct I as (L & B & I). split; [exact L |]. split; [exact B |]. intros k Hk.
    rewrite I by exact Hk. destruct (Z.ltb_spec k (s + t * m)), (Z.ltb_spec k sz); lia || reflexivity.
Qed.

End Scan.

(** The digest sizes of the TLS 1.2 suites. *)
Definition mac_sizes : list Z := [16; 20; 32; 48; 64].

Lemma MaskMac_rot_mod m x : In m mac_sizes -> 0 <= x -> MaskMac_rot m x = Some (x mod m).
Proof.
  intros Hm Hx. unfold MaskMac_rot, WC_SHA_DIGEST_SIZE, WC_SHA384_DIGEST_SIZE.
  destruct Hm as [<- | [<- | [<- | [<- | [<- | []]]]]]; cbn -[Z.rem Z.modulo];
    rewrite ?Z.rem_mod_nonneg by lia; try reflexivity; f_equal.
  - exact (Z.land_ones x 4 ltac:(lia)).
  - exact (Z.land_ones x 5 ltac:(lia)).
  - exact (Z.land_ones x 6 ltac:(lia)).
Qed.

Lemma mac_sizes_bound m : In m mac_sizes -> 16 <= m <= 64.
Proof. intros [<- | [<- | [<- | [<- | [<- | []]]]]]; lia. Qed.

Lemma MaskMac_compare_spec expMac mac m r i n good :
  In m mac_sizes -> is_bytes expMac -> is_bytes mac -> Zlen mac = m -> m <= Zlen expMac ->
  0 <= i -> 0 <= r -> i + Z.of_nat n <= m -> is_word 8 good ->
  exists g, MaskMac_compare expMac mac m r i n good = Some g /\ is_word 8 g /\
    (g = 0 <-> good = 0 /\
               forall k, i <= k < i + Z.of_nat n -> rd expMac k = rd mac ((k + r) mod m)).
Proof.
  intros Hm He Hc Lc Le. revert i good. pose proof (mac_sizes_bound m Hm) as Hb.
  induction n as [| n IH]; intros i good Hi Hr Hn Hg; cbn [MaskMac_compare].
  - exists good. split; [reflexivity |]. split; [exact Hg |].
    split; [intros ->; split; [reflexivity | lia] | tauto].
  - rewrite MaskMac_rot_mod by (lia || exact Hm). cbn [mbind option_bind].
    pose proof (Z.mod_pos_bound (i + r) m).
    rewrite !get_rd by lia. cbn [mbind option_bind].
    assert (Hx : is_word 8 (Z.lor good (Z.lxor (rd expMac i) (rd mac ((i + r) mod m)))))
      by (apply lor_is_word; [lia | exact Hg | apply lxor_is_word; auto with wolf lia]).
    rewrite (wrap_small 8) by exact Hx.
    destruct (IH (i + 1) _ ltac:(lia) Hr ltac:(lia) Hx) as (g & E & Wg & Zg).
    exists g. split; [exact E |]. split; [exact Wg |]. rewrite Zg, lor_lxor_zero. clear. split.
    + intros [[-> Ei] H1]. split; [reflexivity |]. intros k Hk.
      destruct (Z.eq_dec k i) as [-> |]; [exact Ei | apply H1; lia].
    + intros [-> H1]. repeat split; [apply H1; lia | intros; apply H1; lia].
Qed.

Lemma land_mask_int x : -2 ^ 30 < x < 2 ^ 30 -> Z.land x (CT.ctMaskIntGTE x 0) = Z.max 0 x.
Proof.
  intros. rewrite ctMaskIntGTE_mask by lia. destruct (Z.leb_spec 0 x).
  - rewrite Z.land_m1_r. lia.
  - rewrite Z.land_0_r. lia.
Qed.

Lemma MaskMac_spec data sz m expMac :
  In m mac_sizes -> is_bytes data -> is_bytes expMac -> m <= Zlen expMac ->
  m + 1 <= sz <= Zlen data -> sz < 2 ^ 29 ->
  let pad := rd data (sz - 1) in
  exists g, MaskMac data sz m expMac = Some g /\ is_word 8 g /\
    (pad + m + 1 <= sz -> (g = 0 <-> slice expMac 0 m = slice data (sz - m - pad - 1) m)).
Proof.
  intros Hm Hd He Le Hs Hb pad. pose proof (mac_sizes_bound m Hm) as Bm.
  unfold MaskMac, TLS_MAX_PAD_SZ. rewrite get_rd by lia. cbn [mbind option_bind]. fold pad.
  assert (Hp : is_word 8 pad) by (unfold pad; auto with wolf lia).
  change (is_word 8 pad) with (0 <= pad < 256) in Hp. cbv zeta.
  rewrite !land_mask_int by lia.
  set (s := Z.max 0 (sz - 1 - 255 - m)). set (a := Z.max 0 (sz - 1 - pad - m)).
  rewrite MaskMac_rot_mod by (exact Hm || lia). cbn [default].
  destruct (MaskMac_outer_inv data sz m s a (sz - 1 - pad) Hd ltac:(lia) ltac:(lia) ltac:(lia)
              ltac:(lia) ltac:(lia) ltac:(lia) ltac:(lia) ltac:(lia) (Z.to_nat sz) 0
              (replicate (Z.to_nat m) 0)) as (mac & E & L & B & I).
  - lia.
  - lia.
  - replace (s + 0 * m) with s by lia. apply mac_inv_init; lia.
  - replace (s + 0 * m) with s in E by lia. rewrite E. cbn [option_bind].
    set (r := (m - s + a) mod m).
    assert (Hr : 0 <= r < m) by (apply Z.mod_pos_bound; lia).
    destruct (MaskMac_compare_spec expMac mac m r 0 (Z.to_nat m) 0) as (g & Eg & Wg & Zg);
      try assumption; try lia; [unfold is_word; lia |].
    exists g. split; [exact Eg |]. split; [exact Wg |]. intros Hin. rewrite Zg.
    rewrite slice_eq by lia.
    assert (Hc : forall k, 0 <= k < m -> rd mac ((k + r) mod m) = rd data (a + k)).
    { intros k Hk. assert (Ek : (k + r) mod m = ((a + k) - s) mod m).
      { unfold r. rewrite Zplus_mod_idemp_r.
        replace (k + (m - s + a)) with (a + k - s + 1 * m) by lia. apply Z.mod_add. lia. }
      rewrite Ek, I by lia. destruct (Z.ltb_spec (a + k) sz); [reflexivity | lia]. }
    split.
    + intros [_ H1] k Hk. rewrite Z.add_0_l, H1, Hc by lia. f_equal. lia.
    + intros H1. split; [reflexivity |]. intros k Hk. rewrite Hc by lia.
      rewrite <- (Z.add_0_l k), H1 by lia. f_equal. lia.
Qed.

(** ** The check as a whole *)

Lemma fold_good_spec g : is_word 8 g -> fold_good g = c_bool (g =? 0).
Proof.
  intros Hg.
  assert (T : forallb (fun n => fold_good (Z.of_nat n) =? c_bool (Z.of_nat n =? 0)) (List.seq 0 256) = true)
    by (vm_compute; reflexivity).
  rewrite forallb_forall in T. change (is_word 8 g) with (0 <= g < 256) in Hg.
  specialize (T (Z.to_nat g)). rewrite Z2Nat.id in T by lia. apply Z.eqb_eq, T.
  apply in_seq. lia.
Qed.

Lemma PadCheck_spec data pad n a acc :
  is_bytes data -> is_word 8 pad -> 0 <= acc -> 0 <= a -> a + Z.of_nat n <= Zlen data ->
  exists c, PadCheck data a pad n acc = Some c /\ 0 <= c /\
    (c = 0 <-> acc = 0 /\ forall k, 0 <= k < Z.of_nat n -> rd data (a + k) = pad).
Proof.
  intros Hd Hp. revert a acc. induction n as [| n IH]; intros a acc Hacc Ha Hl; cbn [PadCheck].
  - exists acc. split; [reflexivity |]. split; [exact Hacc |].
    split; [intros ->; split; [reflexivity | lia] | tauto].
  - rewrite get_rd by lia. cbn [mbind option_bind].
    assert (Hr : 0 <= rd data a) by (apply (rd_is_word 8); [lia | exact Hd]).
    destruct (IH (a + 1) (Z.lor acc (Z.lxor (rd data a) pad))) as (c & -> & Hc & Zc); try lia.
    { apply Z.lor_nonneg. split; [exact Hacc |]. apply Z.lxor_nonneg. unfold is_word in Hp. lia. }
    exists c. split; [reflexivity |]. split; [exact Hc |]. rewrite Zc, lor_lxor_zero. split.
    + intros [[-> Ea] H1]. split; [reflexivity |]. intros k Hk. destruct (Z.eq_dec k 0) as [-> |].
      * now rewrite Z.add_0_r.
      * replace (a + k) with (a + 1 + (k - 1)) by lia. apply H1. lia.
    + intros [-> H1]. repeat split.
      * rewrite <- (H1 0), Z.add_0_r by lia. reflexivity.
      * intros k Hk. rewrite <- (H1 (k + 1)) by lia. f_equal. lia.
Qed.

(** The bytes checked, counted from the front or from the back. *)
Lemma forallb_pad data sz p c :
  0 <= c <= sz -> sz <= Zlen data ->
  forallb (Z.eqb p) (slice data (sz - c) c) = true <->
  forall k, 0 <= k < c -> rd data (sz - 1 - k) = p.
Proof.
  intros Hc Hs. rewrite forallb_slice by lia. split; intros H k Hk.
  - specialize (H (c - 1 - k) ltac:(lia)). apply Z.eqb_eq in H. rewrite H. f_equal. lia.
  - apply Z.eqb_eq. rewrite <- (H (c - 1 - k)) by lia. f_equal. lia.
Qed.

Section Record.
  Context (hmac : list Z -> Z -> Z -> Z * list Z) (input : list Z) (m pLen : Z).
Let pad := rd input (pLen - 1).
  (** The record fits its buffer and the digest is one of TLS 1.2. *)
  Hypothesis (Hm : In m mac_sizes) (Hin : is_bytes input)
    (Hlen : m + 1 <= pLen <= Zlen input) (Hbig : pLen < 2 ^ 29).

(** What is asked of the callback: a code that is not positive and the bytes
    of a digest. *)
Definition hmac_ok (sz padSz : Z) : Prop :=
  let '(ret, verify) := hmac input sz padSz in
  ret <= 0 /\ is_bytes verify /\ m <= Zlen verify.

Lemma pad_byte : 0 <= pad < 256.
Proof using Hin.
  assert (is_word 8 pad) by (apply rd_is_word; [lia | exact Hin]). exact H.
Qed.
End Record.

Lemma bool_iff_eq (a b : bool) : (a = true <-> b = true) -> a = b.
Proof. destruct a, b; intuition congruence. Qed.

(** The constant-time check, its reads within the record. *)
Lemma TimingPadVerify_new hmac input m pLen :
  In m mac_sizes -> is_bytes input -> m + 1 <= pLen <= Zlen input -> pLen < 2 ^ 29 ->
  let pad := rd input (pLen - 1) in
  let padSz := if pad + m + 1 <=? pLen then pad else 0 in
  hmac_ok hmac input m (pLen - m - padSz - 1) padSz ->
  TimingPadVerify hmac m input pad m pLen =
  Some (if mac_then_pad_ok hmac input m pLen padSz (Z.min (pad + 1) TLS_MAX_PAD_SZ)
        then 0 else VERIFY_MAC_ERROR).
Proof.
  intros Hm Hin Hlen Hbig pad padSz Hok. pose proof (mac_sizes_bound m Hm) as Bm.
  pose proof (pad_byte input pLen Hin) as Bp. cbv zeta in Bp. fold pad in Bp.
  unfold TimingPadVerify, mac_then_pad_ok, TLS_MAX_PAD_SZ. fold pad.
  destruct (MaskPadding_spec input pLen m) as (g & -> & Wg & Zg); try lia; [exact Hin |].
  unfold TLS_MAX_PAD_SZ in Zg. fold pad in Zg. cbn [mbind option_bind].
  assert (Ep : Z.land pad (CT.ctMaskIntGTE (pLen - m - 1) pad) = padSz).
  { rewrite ctMaskIntGTE_mask by lia. unfold padSz.
    destruct (Z.leb_spec pad (pLen - m - 1)), (Z.leb_spec (pad + m + 1) pLen); try lia;
      rewrite ?Z.land_m1_r, ?Z.land_0_r; reflexivity. }
  rewrite Ep. unfold hmac_ok in Hok.
  assert (Bs : 0 <= padSz <= pad /\ 0 <= pLen - m - padSz - 1)
    by (unfold padSz; destruct (Z.leb_spec (pad + m + 1) pLen); lia).
  unfold wrap. rewrite Z.mod_small by lia.
  destruct (hmac input (pLen - m - padSz - 1) padSz) as [ret verify] eqn:Eh.
  destruct Hok as (Hret & Hv & Lv).
  destruct (MaskMac_spec input pLen m verify) as (gm & -> & Wgm & Zgm);
    try assumption; try lia. fold pad in Zgm. cbn [mbind option_bind].
  rewrite fold_good_spec by auto with wolf lia. f_equal.
  unfold c_bool. destruct (Z.leb_spec (pad + m + 1) pLen) as [Hfit | Hfit].
  - subst padSz. rewrite Eh.
    match goal with |- (if ?x then _ else _) = (if ?y then _ else _) =>
      rewrite (bool_iff_eq x y); [reflexivity |] end.
    rewrite !andb_true_iff, forallb_pad, !Z.eqb_eq, Z.leb_le, bool_decide_eq_true by lia.
    destruct (Z.eqb_spec (Z.lor g gm) 0) as [E0 | E0]; rewrite Z.lor_eq_0_iff in E0; split.
    + intros H0. repeat split; try lia; [apply Zg; tauto | apply Zgm; tauto].
    + intros ((_ & H0) & _). lia.
    + lia.
    + intros (((_ & H1) & _) & H2). exfalso. apply E0. split; [apply Zg; auto | now apply Zgm].
  - destruct (Z.eqb_spec (Z.lor g gm) 0) as [E0 | E0]; rewrite Z.lor_eq_0_iff in E0; [lia |].
    destruct (hmac input (pLen - m - pad - 1) padSz) as [ret' verify'].
    destruct (Z.leb_spec 0 (pLen - m - pad - 1)); [lia |]. cbn [andb].
    destruct (Z.eqb_spec (ret - (1 - 0)) 0); [lia | reflexivity].
Qed.

Lemma get_slice_ok data pos n :
  0 <= pos -> pos + n <= Zlen data -> get_slice data pos n = Some (slice data pos n).
Proof.
  intros. unfold get_slice.
  destruct (Z.leb_spec 0 pos), (Z.leb_spec (pos + n) (Zlen data)); lia || reflexivity.
Qed.

Lemma ConstantCompare_slice verify input pos m :
  is_bytes verify -> is_bytes input -> 0 <= m <= Zlen verify -> 0 <= pos -> pos + m <= Zlen input ->
  (Buf.ConstantCompare verify (slice input pos m) (Z.to_nat m) =? 0) =
  bool_decide (slice verify 0 m = slice input pos m).
Proof.
  intros Hv Hi Lv Hp Li. apply bool_iff_eq. rewrite Z.eqb_eq, bool_decide_eq_true.
  unfold Buf.ConstantCompare.
  assert (Ls : length (slice input pos m) = Z.to_nat m) by (apply slice_length; lia).
  destruct (ConstantCompare_loop_spec (Z.to_nat m) verify (slice input pos m) 0)
    as [_ E]; [exact Hv | | unfold Zlen in *; lia | lia | unfold is_word; lia |].
  - unfold slice. now apply Forall_take, Forall_drop.
  - rewrite E, (firstn_all2 (slice _ _ _)) by lia. tauto.
Qed.

(** The direct check. *)
Lemma TimingPadVerify_direct hmac input m pLen :
  In m mac_sizes -> is_bytes input -> m + 1 <= pLen <= Zlen input -> pLen < 2 ^ 29 ->
  let pad := rd input (pLen - 1) in
  (pad + m + 1 <= pLen -> hmac_ok hmac input m (pLen - m - pad - 1) (-1)) ->
  TimingPadVerify_old hmac input pad m pLen =
  Some (if mac_then_pad_ok hmac input m pLen (-1) (pad + 1) then 0 else VERIFY_MAC_ERROR).
Proof.
  intros Hm Hin Hlen Hbig pad Hok. pose proof (mac_sizes_bound m Hm) as Bm.
  pose proof (pad_byte input pLen Hin) as Bp. cbv zeta in Bp. fold pad in Bp.
  unfold TimingPadVerify_old, mac_then_pad_ok. fold pad.
  destruct (Z.gtb_spec (m + pad + 1) pLen) as [Hout | Hfit].
  - destruct (hmac input (pLen - m - pad - 1) (-1)).
    destruct (Z.leb_spec 0 (pLen - m - pad - 1)); [lia | reflexivity].
  - specialize (Hok ltac:(lia)). rewrite (wrap_small 8 pad) by (unfold is_word; lia).
    destruct (PadCheck_spec input pad (Z.to_nat (pad + 1)) (pLen - (pad + 1)) 0) as (c & -> & _ & Zc);
      try lia; [exact Hin | unfold is_word; lia |]. cbn [mbind option_bind].
    replace (pLen - pad - 1 - m) with (pLen - m - pad - 1) by lia.
    unfold wrap. rewrite Z.mod_small by lia. unfold hmac_ok in Hok.
    destruct (hmac input (pLen - m - pad - 1) (-1)) as [ret verify]. destruct Hok as (_ & Hv & Lv).
    destruct (Z.leb_spec 0 (pLen - m - pad - 1)); [| lia]. cbn [andb].
    assert (Ef : forallb (Z.eqb pad) (slice input (pLen - (pad + 1)) (pad + 1)) = (c =? 0)).
    { apply bool_iff_eq. rewrite forallb_slice, Z.eqb_eq, Zc, Z2Nat.id by lia. split.
      - intros H0. split; [reflexivity |]. intros k Hk. symmetry. now apply Z.eqb_eq, H0.
      - intros [_ H0] k Hk. apply Z.eqb_eq. symmetry. now apply H0. }
    rewrite Ef. destruct (c =? 0); cbn [negb andb]; [| reflexivity].
    rewrite get_slice_ok by lia. cbn [mbind option_bind].
    rewrite ConstantCompare_slice by (lia || assumption).
    destruct (bool_decide _), (ret =? 0) eqn:Er; cbn [negb andb]; try reflexivity.
    f_equal. lia.
Qed.

(** [C37] Both builds of [TimingPadVerify] stay within the record and are
    exact.  The constant-time build accepts a CBC record exactly when the
    padding fits beside the MAC, the last [min (pad + 1) 255] bytes equal
    the padding length, [hmac] succeeds and the MAC of the content is the one
    received; the direct build checks all [pad + 1] bytes.  Any other
    record, a padding length that does not fit included, is
    [VERIFY_MAC_ERROR], so that the two builds agree for [pad < 255]. *)
Theorem TimingPadVerify_exact hmac input m pLen :
  In m mac_sizes -> is_bytes input -> m + 1 <= pLen <= Zlen input -> pLen < 2 ^ 29 ->
  let pad := rd input (pLen - 1) in
  let padSz := if pad + m + 1 <=? pLen then pad else 0 in
  hmac_ok hmac input m (pLen - m - padSz - 1) padSz ->
  (pad + m + 1 <= pLen -> hmac_ok hmac input m (pLen - m - pad - 1) (-1)) ->
  TimingPadVerify hmac m input pad m pLen =
    Some (if mac_then_pad_ok hmac input m pLen padSz (Z.min (pad + 1) TLS_MAX_PAD_SZ)
          then 0 else VERIFY_MAC_ERROR) /\
  TimingPadVerify_old hmac input pad m pLen =
    Some (if mac_then_pad_ok hmac input m pLen (-1) (pad + 1) then 0 else VERIFY_MAC_ERROR).
Proof.
  intros. split; [now apply TimingPadVerify_new | now apply TimingPadVerify_direct].
Qed.

(** A toy MAC for the witnesses: 16 times the sum of the content. *)
Definition toy_mac (input : list Z) (sz padSz : Z) : Z * list Z :=
  (0, replicate 16 (u8 (foldr Z.add 0 (take (Z.to_nat sz) input)))).

Definition toy_record (pad : Z) : list Z :=
  [1; 2; 3] ++ replicate 16 6 ++ replicate (S (Z.to_nat pad)) pad.

Lemma toy_record_bytes pad : is_word 8 pad -> is_bytes (toy_record pad).
Proof.
  intros Hp. unfold toy_record, is_bytes. rewrite !Forall_app. split; [| split].
  - repeat constructor; lia.
  - apply Forall_replicate. unfold is_word. lia.
  - now apply Forall_replicate.
Qed.

Lemma toy_hmac_ok input n p : hmac_ok toy_mac input 16 n p.
Proof.
  split; [lia |]. split; [| vm_compute; discriminate].
  apply Forall_replicate, wrap_is_word. lia.
Qed.

Lemma TimingPadVerify_exact_witness :
  TimingPadVerify toy_mac 16 (toy_record 12) 12 16 32 = Some 0 /\
  TimingPadVerify_old toy_mac (toy_record 12) 12 16 32 = Some 0.
Proof.
  assert (Hm : In 16 mac_sizes) by now left.
  assert (Hin : is_bytes (toy_record 12)) by (apply toy_record_bytes; unfold is_word; lia).
  assert (Hlen : 16 + 1 <= 32 <= Zlen (toy_record 12)) by (vm_compute; split; discriminate).
  assert (Hbig : 32 < 2 ^ 29) by lia.
  exact (TimingPadVerify_exact toy_mac (toy_record 12) 16 32 Hm Hin Hlen Hbig
           (toy_hmac_ok _ _ _) (fun _ => toy_hmac_ok _ _ _)).
Defined.

(** The loop of [MaskPadding] stops one byte short of a padding of 255:
    the first padding byte of such a record may be anything, in the
    constant-time build, while the direct build insists on it. *)
Theorem longest_padding_unchecked hmac input m pLen x :
  In m mac_sizes -> is_bytes input -> m + 256 <= pLen <= Zlen input -> pLen < 2 ^ 29 ->
  rd input (pLen - 1) = 255 -> is_word 8 x ->
  (forall a b n p, take (Z.to_nat n) a = take (Z.to_nat n) b -> hmac a n p = hmac b n p) ->
  (forall n p, hmac_ok hmac input m n p) ->
  let input' := <[Z.to_nat (pLen - 256) := x]> input in
  TimingPadVerify hmac m input' 255 m pLen = TimingPadVerify hmac m input 255 m pLen /\
  (x <> 255 -> TimingPadVerify_old hmac input' 255 m pLen = Some VERIFY_MAC_ERROR).
Proof.
  intros Hm Hin Hlen Hbig Hpad Hx Hext Hok input'. pose proof (mac_sizes_bound m Hm) as Bm.
  assert (Lin : Zlen input' = Zlen input) by (unfold Zlen, input'; now rewrite length_insert).
  assert (Hin' : is_bytes input') by (apply Forall_insert; assumption).
  assert (Rd : forall k, 0 <= k < Zlen input -> rd input' k = if k =? pLen - 256 then x else rd input k)
    by (intros; apply rd_insert; lia).
  assert (Hpad' : rd input' (pLen - 1) = 255).
  { rewrite Rd by lia. destruct (Z.eqb_spec (pLen - 1) (pLen - 256)); [lia | exact Hpad]. }
  assert (Hh : forall p, hmac input' (pLen - m - 255 - 1) p = hmac input (pLen - m - 255 - 1) p).
  { intros p. apply Hext. unfold input'. apply take_insert_ge. lia. }
  assert (Hok' : forall p, hmac_ok hmac input' m (pLen - m - 255 - 1) p)
    by (intros p; unfold hmac_ok; rewrite Hh; apply Hok).
  assert (Fit : (255 + m + 1 <=? pLen) = true) by lia.
  pose proof (TimingPadVerify_new hmac input m pLen) as A.
  pose proof (TimingPadVerify_new hmac input' m pLen) as B.
  pose proof (TimingPadVerify_direct hmac input' m pLen) as C.
  cbv zeta in A, B, C. rewrite Hpad, Fit in A. rewrite Hpad', Fit in B. rewrite Hpad' in C.
  rewrite A, B, C by (assumption || lia || (intros; apply Hok') || apply Hok). clear A B C.
  unfold mac_then_pad_ok. rewrite Hpad, Hpad', !Hh.
  destruct (hmac input (pLen - m - 255 - 1) 255) as [ret verify],
    (hmac input (pLen - m - 255 - 1) (-1)) as [ret' verify'].
  assert (Es : forall pos n, 0 <= pos -> 0 <= n -> pos + n <= Zlen input ->
                (pos + n <= pLen - 256 \/ pLen - 256 < pos) -> slice input' pos n = slice input pos n).
  { intros pos n ? ? ? Hd. apply slice_eq; try lia. intros k Hk. rewrite Rd by lia.
    destruct (Z.eqb_spec (pos + k) (pLen - 256)); [lia | reflexivity]. }
  unfold TLS_MAX_PAD_SZ. rewrite !(Es (pLen - m - 255 - 1)), (Es (pLen - Z.min (255 + 1) 255)) by lia.
  split; [reflexivity |]. intros Hne.
  destruct (forallb (Z.eqb 255) (slice input' (pLen - (255 + 1)) (255 + 1))) eqn:F;
    [| now rewrite andb_false_r].
  exfalso. rewrite forallb_pad in F by lia. specialize (F 255 ltac:(lia)).
  rewrite Rd in F by lia. destruct (Z.eqb_spec (pLen - 1 - 255) (pLen - 256)); lia.
Qed.

Lemma longest_padding_unchecked_witness :
  TimingPadVerify toy_mac 16 (<[19%nat := 7]> (toy_record 255)) 255 16 275
    = TimingPadVerify toy_mac 16 (toy_record 255) 255 16 275 /\
  TimingPadVerify_old toy_mac (<[19%nat := 7]> (toy_record 255)) 255 16 275 = Some VERIFY_MAC_ERROR.
Proof.
  assert (Hm : In 16 mac_sizes) by now left.
  assert (Hin : is_bytes (toy_record 255)) by (apply toy_record_bytes; unfold is_word; lia).
  assert (Hlen : 16 + 256 <= 275 <= Zlen (toy_record 255)) by (vm_compute; split; discriminate).
  assert (Hext : forall a b n p, take (Z.to_nat n) a = take (Z.to_nat n) b -> toy_mac a n p = toy_mac b n p)
    by (intros a b n p E; unfold toy_mac; now rewrite E).
  destruct (longest_padding_unchecked toy_mac (toy_record 255) 16 275 7 Hm Hin Hlen
              ltac:(lia) eq_refl ltac:(unfold is_word; lia) Hext (toy_hmac_ok _)) as [E1 E2].
  split; [exact E1 | exact (E2 ltac:(discriminate))].
Defined.

(** ** The record layer's view *)

(** The MAC received after [len] bytes of content is the one [hmac] computes. *)
Definition authentic (hmac : list Z -> Z -> Z -> Z * list Z) (input : list Z) (m len padSz : Z) : Prop :=
  let '(ret, verify) := hmac input len padSz in
  ret = 0 /\ slice verify 0 m = slice input len m.

Lemma mac_then_pad_authentic hmac input m pLen padSz checked :
  mac_then_pad_ok hmac input m pLen padSz checked = true ->
  0 <= pLen - m - rd input (pLen - 1) - 1 /\
  authentic hmac input m (pLen - m - rd input (pLen - 1) - 1) padSz.
Proof.
  unfold mac_then_pad_ok, authentic. destruct (hmac _ _ _) as [ret verify].
  rewrite !andb_true_iff, bool_decide_eq_true. intros [[[? _] ?] ?]. lia || (repeat split; lia || auto).
Qed.

(** Comparing with the MAC at [pos] and then looking at the code. *)
Lemma compare_authentic hmac input m len padSz (bad : bool) :
  is_bytes input -> 0 <= m -> 0 <= len -> len + m <= Zlen input -> hmac_ok hmac input m len padSz ->
  let '(ret, verify) := hmac input len padSz in
  negb (Buf.ConstantCompare verify (slice input len m) (Z.to_nat m) =? 0) = false ->
  negb (ret =? 0) || bad = false -> authentic hmac input m len padSz /\ bad = false.
Proof.
  intros Hin Hm Hl Li Hok. unfold hmac_ok, authentic in *. destruct (hmac input len padSz) as [ret verify].
  destruct Hok as (_ & Hv & Lv). rewrite ConstantCompare_slice by (lia || assumption).
  rewrite negb_false_iff, bool_decide_eq_true, orb_false_iff, negb_false_iff, Z.eqb_eq. tauto.
Qed.

#[local] Ltac mac_error := do 2 eexists; split; [reflexivity |]; split; [tauto | discriminate].

(** With a truncated MAC a TLS block cipher's [VerifyMac] looks for the full
    digest: a record built as it should be is refused, while the other ciphers take it. *)
Example truncated_cbc_refused :
  let honest := [1; 2; 3] ++ replicate 10 6 ++ replicate 3 2 in
  VerifyMac toy_mac 16 stream true true 0 ([1; 2; 3] ++ replicate 10 6) 13 0 = Some (0, 0) /\
  VerifyMac toy_mac 16 block false true 0 honest 16 0 = Some (0, 3) /\
  VerifyMac toy_mac 16 block true true 0 honest 16 0 = Some (VERIFY_MAC_ERROR, 0).
Proof. vm_compute. repeat split. Qed.

(** [C38] A record [VerifyMac] accepts is content, an authentic MAC and
    [*padSz] bytes of padding, with nothing in between: for SSLv3
    block ciphers and for stream ciphers, with the full or the truncated MAC
    ([k] bytes), and for TLS block ciphers with the full MAC, the code is 0 only if the lengths add
    up to the record and the MAC of the content is the one received.  Every
    other record gives [VERIFY_MAC_ERROR], and no read leaves the record.  A
    TLS block cipher with the truncated MAC is left out: there the code
    compares other bytes than the MAC ([truncated_cbc_refused]). *)
Theorem VerifyMac_authentic hmac ct tls truncated_hmac aead_sz input m msgSz padSz0 :
  ct <> aead -> (ct = block -> tls = true -> truncated_hmac = false) ->
  let k := MacSize m truncated_hmac in
  In m mac_sizes -> is_bytes input -> k + 1 <= msgSz <= Zlen input -> msgSz < 2 ^ 29 ->
  (forall n p, hmac_ok hmac input m n p) ->
  exists ret padSz,
    VerifyMac hmac m ct tls truncated_hmac aead_sz input msgSz padSz0 = Some (ret, padSz) /\
    (ret = 0 \/ ret = VERIFY_MAC_ERROR /\ padSz = padSz0) /\
    (ret = 0 -> 0 <= padSz /\ 0 <= msgSz - k - padSz /\
                exists p, authentic hmac input k (msgSz - k - padSz) p).
Proof.
  intros Hct Htr k Hm Hin Hlen Hbig Hokm. pose proof (mac_sizes_bound m Hm) as Bm.
  assert (Bk : 10 <= k <= m) by (unfold k, MacSize, TRUNCATED_HMAC_SZ; destruct truncated_hmac; lia).
  assert (Hok : forall n p, hmac_ok hmac input k n p)
    by (intros n p; specialize (Hokm n p); unfold hmac_ok in *; destruct (hmac input n p); intuition lia).
  pose proof (pad_byte input msgSz Hin) as Bp. cbv zeta in Bp.
  unfold VerifyMac. fold k. destruct ct; [| | congruence].
  - unfold wrap. rewrite Z.mod_small by lia.
    pose proof (compare_authentic hmac input k (msgSz - k) (-1) false Hin ltac:(lia) ltac:(lia)
                  ltac:(lia) (Hok _ _)) as Ha.
    destruct (hmac input (msgSz - k) (-1)) as [r v] eqn:Eh.
    rewrite get_slice_ok by lia. cbn [mbind option_bind].
    destruct (negb (Buf.ConstantCompare _ _ _ =? 0)); [mac_error |].
    destruct (negb (r =? 0)); [mac_error |].
    do 2 eexists. split; [reflexivity |]. split; [tauto |]. intros _. split; [lia |]. split; [lia |].
    exists (-1). rewrite Z.sub_0_r. now apply Ha.
  - rewrite get_rd by lia. cbn [mbind option_bind]. set (pad := rd input (msgSz - 1)) in *.
    destruct tls.
    + assert (Ek : k = m) by (unfold k; now rewrite Htr). rewrite Ek in *. unfold pad.
      rewrite TimingPadVerify_new by (assumption || apply Hok). fold pad.
      cbn [mbind option_bind].
      destruct (mac_then_pad_ok _ _ _ _ _ _) eqn:Em; cbn [negb Z.eqb];
        [| do 2 eexists; split; [reflexivity |]; split; [tauto | discriminate]].
      apply mac_then_pad_authentic in Em. fold pad in Em.
      do 2 eexists. split; [reflexivity |]. split; [tauto |]. intros _.
      replace (msgSz - m - (pad + 1)) with (msgSz - m - pad - 1) by lia.
      split; [lia |]. split; [tauto |]. eexists. apply Em.
    + unfold wrap. rewrite !(Z.mod_small (msgSz - k)), (Z.mod_small (msgSz - k - 1)) by lia.
      set (bad := pad >? msgSz - k - 1). set (p := if bad then 0 else pad).
      assert (Hp : 0 <= p <= msgSz - k - 1 /\ p <= pad)
        by (unfold p, bad; destruct (Z.gtb_spec pad (msgSz - k - 1)); lia).
      rewrite (Z.mod_small (msgSz - k - p)), (Z.mod_small (msgSz - k - p - 1)) by lia.
      pose proof (compare_authentic hmac input k (msgSz - k - p - 1) p bad Hin ltac:(lia) ltac:(lia)
                    ltac:(lia) (Hok _ _)) as Ha.
      destruct (hmac input (msgSz - k - p - 1) p) as [r v] eqn:Eh.
      rewrite get_slice_ok by lia. cbn [mbind option_bind].
      destruct (negb (Buf.ConstantCompare _ _ _ =? 0)); [mac_error |].
      destruct (negb (r =? 0) || bad) eqn:Eb; [mac_error |].
      do 2 eexists. split; [reflexivity |]. split; [tauto |]. intros _. split; [lia |]. split; [lia |].
      exists p. replace (msgSz - k - (p + 1)) with (msgSz - k - p - 1) by lia. now apply Ha.
Qed.

Lemma VerifyMac_authentic_witness : exists p, authentic toy_mac (toy_record 12) 16 3 p.
Proof.
  assert (Hm : In 16 mac_sizes) by now left.
  assert (Hin : is_bytes (toy_record 12)) by (apply toy_record_bytes; unfold is_word; lia).
  assert (Hlen : 16 + 1 <= 32 <= Zlen (toy_record 12)) by (vm_compute; split; discriminate).
  destruct (VerifyMac_authentic toy_mac block true false 0 (toy_record 12) 16 32 0 ltac:(discriminate) ltac:(reflexivity)
              Hm Hin Hlen ltac:(lia) (toy_hmac_ok _)) as (ret & padSz & E & _ & H).
  assert (E' : VerifyMac toy_mac 16 block true false 0 (toy_record 12) 32 0 = Some (0, 13))
    by reflexivity.
  rewrite E' in E. injection E as <- <-. exact (proj2 (proj2 (H eq_refl))).
Defined.
