(* ===== verification/TlsHmac.v ===== *)
(** * src/tls.c: the MAC of a TLS 1.2 record

    [TLS_hmac] computes the MAC of the record header and the content.  When
    it verifies a CBC record the length of the content is a secret (it
    follows from the padding length byte), so [Hmac_UpdateFinal_CT] hashes every
    block the content and the padding could occupy, builds the end of the message
    with masks and picks the chaining value of the right block.

    The file is written over the class [Hash] of [Hmac]; the block and padding
    sizes are those of a hash with blocks of 64 bytes (SHA-1, SHA-256, SM3).
    [header] is what [TLS_hmac_SetInner] builds.  Reads that leave the record
    are [None]. *)

From S2P Require Import Prelude Misc Sha256 Hmac TlsPad.
From stdpp Require Import list.

#[local] Open Scope Z_scope.
#[local] Open Scope cword_scope.

Definition WOLFSSL_TLS_HMAC_INNER_SZ : Z := 13.

Section TlsHmac.
  Context {H : Hash} {HS : HashSpec H}.

(** ** The constant-time form *)

(** The numbers [Hmac_UpdateFinal_CT] computes before its loop. *)
Record layout := mk_layout {
  maxLen : Z;        (* length of header and content when there is no padding *)
  realLen : Z;       (* length of header and content *)
  blocks : Z;        (* blocks for the longest content *)
  lenBlock : Z;      (* the block that ends with the length *)
  eocBlock : Z;      (* the block of the byte 0x80 *)
  eocIndex : Z }.

Definition ct_layout (sz macLen lastByte : Z) : layout :=
  let blockSz := h_block in
  let blockBits := Z.log2 blockSz in
  let padSz := h_block - h_pad_size + 1 in
  let blockMask := blockSz - 1 in
  let maxLen := u32 (WOLFSSL_TLS_HMAC_INNER_SZ + sz - 1 - macLen) in
  let extraBlock := CT.ctSetLTE (Z.land (maxLen + padSz) blockMask) padSz in
  let blocks := Z.shiftr (maxLen + blockSz - 1) blockBits + extraBlock in
  let realLen := maxLen -u32 lastByte in
  let lastBlockLen := Z.land realLen blockMask in
  let extraLen := Z.land (blockSz * 2 - padSz - lastBlockLen) blockMask + 1 in
  {| maxLen := maxLen; realLen := realLen; blocks := blocks;
     lenBlock := Z.shiftr (sint 32 realLen + extraLen) blockBits;
     eocBlock := sint 32 (realLen >>u blockBits);
     eocIndex := Z.land realLen blockMask |}.

(** [lenBytes]: the length of [ipad], header and content in bits. *)
Definition ct_lenBytes (realLen : Z) : list Z :=
  let realLen := realLen +u32 h_block in
  Opaque.c32toa (realLen >>u 29) ++ Opaque.c32toa (realLen <<u32 3).

(** The byte [j] of block [i], which is byte [k] of the message. *)
Definition ct_byte (L : layout) (lenBytes header inp : list Z) (i j k : Z) : option Z :=
  let isEocBlock := CT.ctMaskEq i (eocBlock L) in
  let isOutBlock := CT.ctMaskEq i (lenBlock L) in
  let atEoc := Z.land (CT.ctMaskEq j (eocIndex L)) isEocBlock in
  let pastEoc := Z.land (CT.ctMaskGT j (eocIndex L)) isEocBlock in
  b ← (if k <? Zlen header then get header k
       else if k <? maxLen L then get inp (k - Zlen header)
       else Some 0);
  let b := CT.ctMaskSel atEoc 0x80 b in
  let b := Z.land b (cnot 8 (u32 pastEoc)) in
  let b := Z.land b (Z.lor (cnot 8 (u32 isOutBlock)) isEocBlock) in
  if j >=? h_block - 8
  then l ← get lenBytes (j - (h_block - 8)); Some (CT.ctMaskSel isOutBlock l b)
  else Some b.

(** [for (j = 0; j < blockSz; j++)], [n] iterations from [j] on. *)
Fixpoint ct_hashBlock (L : layout) (lenBytes header inp : list Z) (i j k : Z) (n : nat)
  : option (list Z) :=
  match n with
  | O => Some []
  | S n =>
      b ← ct_byte L lenBytes header inp i j k;
      bs ← ct_hashBlock L lenBytes header inp i (j + 1) (k + 1) n;
      Some (b :: bs)
  end.

(** [for (i = safeBlocks; i < blocks; i++)], [n] iterations: the code and the
    first [macLen] bytes of [innerHash]. *)
Fixpoint ct_blocks (L : layout) (lenBytes header inp : list Z) (macLen i k : Z) (n : nat)
    (c : hctx) (inner : list Z) : option (Z * list Z) :=
  match n with
  | O => Some (0, inner)
  | S n =>
      let isOutBlock := CT.ctMaskEq i (lenBlock L) in
      hashBlock ← ct_hashBlock L lenBytes header inp i 0 k (Z.to_nat h_block);
      let '(ret, c) := h_update c hashBlock in
      if negb (ret =? 0) then Some (ret, inner)
      else
        let raw := h_finalRaw c in
        let hashBlock := raw ++ drop (length raw) hashBlock in
        let inner := zip_with (fun h b => Z.lor h (Z.land b isOutBlock)) inner
                       (take (Z.to_nat macLen) hashBlock) in
        ct_blocks L lenBytes header inp macLen (i + 1) (k + h_block) n c inner
  end.

(** [Hmac_OuterHash] *)
Definition Hmac_OuterHash (opad inner : list Z) : Z * list Z :=
  let '(ret, c) := h_update h_init opad in
  if negb (ret =? 0) then (ret, [])
  else
    let '(ret, c) := h_update c (take (Z.to_nat h_digest) inner) in
    if negb (ret =? 0) then (ret, [])
    else let '(ret, d, _) := h_final c in (ret, d).

(** [Hmac_UpdateFinal_CT]: the code and the MAC. *)
Definition Hmac_UpdateFinal_CT (h : Hmac) (inp : list Z) (sz macLen : Z) (header : list Z)
  : option (Z * list Z) :=
  if (macLen <=? 0) || (macLen >? 64) then Some (BAD_FUNC_ARG, [])
  else
    lastByte ← get inp (sz - 1);
    let L := ct_layout sz macLen lastByte in
    let safeBlocks := blocks L - 6 in
    let lenBytes := ct_lenBytes (realLen L) in
    let '(ret, c) := h_update (hmac_hash h) (ipad h) in
    if negb (ret =? 0) then Some (ret, [])
    else
      let inner := replicate (Z.to_nat macLen) 0 in
      let go safeBlocks c :=
        r ← ct_blocks L lenBytes header inp macLen safeBlocks (u32 (safeBlocks * h_block))
              (Z.to_nat (blocks L - safeBlocks)) c inner;
        let '(ret, inner) := r in
        if negb (ret =? 0) then Some (ret, []) else Some (Hmac_OuterHash (opad h) inner) in
      if safeBlocks >? 0 then
        let '(ret, c) := h_update c header in
        if negb (ret =? 0) then Some (ret, [])
        else
          d ← get_slice inp 0 (safeBlocks * h_block - WOLFSSL_TLS_HMAC_INNER_SZ);
          let '(ret, c) := h_update c d in
          if negb (ret =? 0) then Some (ret, []) else go safeBlocks c
      else go 0 c.

(** ** [TLS_hmac] *)

(** What [TLS_hmac] uses of the connection: the MAC secret, the sequence
    number to be checked, the version and whether DTLS connection IDs are in
    use (they are not, here). *)
Record mac_state := mk_mac_state {
  macSecret : list Z;
  seq : list Z;           (* 8 bytes, from WriteSEQ *)
  version : Z * Z }.

(** [wolfSSL_SetTlsHmacInner] *)
Definition wolfSSL_SetTlsHmacInner (m : mac_state) (sz content : Z) : list Z :=
  seq m ++ [u8 content; fst (version m); snd (version m)] ++ Opaque.c16toa (u16 sz).

(** [WC_SAFE_SUM_WORD32]: the sum, or [None] when it overflows. *)
Definition safe_sum (a b : Z) : option Z := if a + b <? 2 ^ 32 then Some (a + b) else None.

(** [TLS_hmac] with [verify] set. *)
Definition TLS_hmac (m : mac_state) (inp : list Z) (sz padSz content : Z) : option (Z * list Z) :=
  let hashSz := h_digest in
  let total := if padSz >=? 0
               then t ← safe_sum sz hashSz; t ← safe_sum t (u32 padSz); safe_sum t 1
               else Some 0 in
  match total with
  | None => Some (BUFFER_E, [])
  | Some totalSz =>
      let myInner := wolfSSL_SetTlsHmacInner m sz content in
      let '(ret, h) := wc_HmacSetKey (mk_hmac h_init [] [] [] false) (macSecret m) in
      if negb (ret =? 0) then Some (ret, [])
      else if padSz >=? 0 then Hmac_UpdateFinal_CT h inp totalSz hashSz myInner
      else
        let '(ret, h) := wc_HmacUpdate h myInner in
        if negb (ret =? 0) then Some (ret, [])
        else
          d ← get_slice inp 0 sz;
          let '(ret, h) := wc_HmacUpdate h d in
          if negb (ret =? 0) then Some (ret, [])
          else let '(ret, d, _) := wc_HmacFinal h in Some (ret, d)
  end.


(** ** The layout *)

Lemma sint32_small x : - 2 ^ 31 <= x < 2 ^ 31 -> sint 32 (u32 x) = x.
Proof using. intros. word_lia. Qed.

(** Lengths for which no [int] overflows. *)
Definition sane (sz macLen pad : Z) : Prop :=
  1 <= macLen <= 64 /\ macLen + 1 <= sz < 2 ^ 28 /\ 0 <= pad < 256.

Lemma ct_layout_spec sz macLen pad :
  sane sz macLen pad ->
  let M := 12 + sz - macLen in
  let L := ct_layout sz macLen pad in
  maxLen L = M /\
  blocks L = (M + 63) / 64 + c_bool ((M + 9) mod 64 <=? 9) /\
  lenBlock L = (M - pad + 8) / 64 /\
  0 <= eocBlock L < 2 ^ 27 /\ 0 <= eocIndex L < 64 /\
  (pad <= M -> realLen L = M - pad /\ eocBlock L = (M - pad) / 64 /\ eocIndex L = (M - pad) mod 64).
Proof using HS.
  intros (Hm & Hs & Hp) M L. destruct h_sizes as [Eb Ep]. unfold L, ct_layout, WOLFSSL_TLS_HMAC_INNER_SZ.
  rewrite Eb, Ep. change (Z.log2 64) with 6. change (64 - 56 + 1) with 9. change (64 - 1) with (Z.ones 6).
  cbn [maxLen realLen blocks lenBlock eocBlock eocIndex]. rewrite !Z.land_ones, !Z.shiftr_div_pow2 by lia.
  change (2 ^ 6) with 64.
  replace (13 + sz - 1 - macLen) with M by (unfold M; lia).
  assert (HM : 13 <= M < 2 ^ 29) by (unfold M; lia). clearbody M.
  rewrite (wrap_small 32 M) by (unfold is_word; lia).
  rewrite ctSetLTE_bool by word_lia. rewrite sint32_small by lia.
  split; [reflexivity |]. split; [do 2 f_equal; lia |].
  split; [word_lia |]. split; [word_lia |]. split; [word_lia |].
  intros Hle. rewrite (wrap_small 32 (M - pad)) by (unfold is_word; lia). word_lia.
Qed.

(** ** One byte *)

Lemma land_cnot_mask x c :
  is_word 8 x -> Z.land x (cnot 8 (u32 (Misc.mask 8 c))) = if c then 0 else x.
Proof using.
  intros Hx. rewrite (wrap_small 32) by (pose proof (mask_is_word 8 c); unfold is_word in *; lia).
  rewrite mask_cnot, land_mask by (lia || exact Hx). now destruct c.
Qed.

Lemma land_masks a b : Z.land (Misc.mask 8 a) (Misc.mask 8 b) = Misc.mask 8 (a && b).
Proof using. destruct a, b; reflexivity. Qed.

(** The masks as conditions. *)
Lemma ct_byte_eq L lenBytes header inp i j k d :
  h_block = 64 -> (0 <= i < 2 ^ 28) -> 0 <= j < 64 ->
  0 <= eocBlock L < 2 ^ 27 -> 0 <= eocIndex L < 64 -> - 2 ^ 28 < lenBlock L < 2 ^ 28 ->
  is_bytes lenBytes -> Zlen lenBytes = 8 -> is_word 8 d ->
  (if k <? Zlen header then get header k
   else if k <? maxLen L then get inp (k - Zlen header) else Some 0) = Some d ->
  ct_byte L lenBytes header inp i j k =
  Some (let eoc := i =? eocBlock L in
        let out := i =? lenBlock L in
        let b := if (j =? eocIndex L) && eoc then 0x80 else d in
        let b := if (eocIndex L <? j) && eoc then 0 else b in
        let b := if out && negb eoc then 0 else b in
        if (56 <=? j) && out then rd lenBytes (j - 56) else b).
Proof using.
  intros Eb Hi Hj He Hx Hl Bl Ll Hd E. unfold ct_byte. rewrite E. cbn [mbind option_bind]. rewrite Eb.
  rewrite !ctMaskEq_mask, ctMaskGT_mask by lia. rewrite !land_masks.
  set (eoc := i =? eocBlock L). set (out := i =? lenBlock L).
  assert (H80 : is_word 8 0x80) by (unfold is_word; lia).
  rewrite ctMaskSel_mask by assumption. set (b0 := if (j =? eocIndex L) && eoc then 0x80 else d).
  assert (W0 : is_word 8 b0) by (unfold b0; now destruct ((j =? eocIndex L) && eoc)).
  rewrite land_cnot_mask by exact W0. set (b1 := if (eocIndex L <? j) && eoc then 0 else b0).
  assert (W1 : is_word 8 b1)
    by (unfold b1; destruct ((eocIndex L <? j) && eoc); [unfold is_word; lia | exact W0]).
  rewrite (wrap_small 32) by (pose proof (mask_is_word 8 out); unfold is_word in *; lia).
  rewrite mask_cnot, lor_mask, land_mask by (lia || exact W1).
  assert (E2 : (if negb out || eoc then b1 else 0) = if out && negb eoc then 0 else b1)
    by now destruct out, eoc.
  rewrite E2. set (b2 := if out && negb eoc then 0 else b1).
  assert (W2 : is_word 8 b2) by (unfold b2; destruct (out && negb eoc); [unfold is_word; lia | exact W1]).
  change (64 - 8) with 56. rewrite Z.geb_leb. destruct (Z.leb_spec 56 j) as [H56 | H56]; [| reflexivity].
  rewrite get_rd by lia. cbn [mbind option_bind andb].
  rewrite ctMaskSel_mask by (exact W2 || (apply rd_is_word; [lia | exact Bl])). reflexivity.
Qed.

(** A block is built whatever the padding is. *)
Lemma ct_hashBlock_total L lenBytes header inp i n j k :
  (forall j' , j <= j' < j + Z.of_nat n ->
     exists b, ct_byte L lenBytes header inp i j' (k + (j' - j)) = Some b /\ is_word 8 b) ->
  exists bs, ct_hashBlock L lenBytes header inp i j k n = Some bs /\ is_bytes bs /\
    length bs = n /\
    forall j', j <= j' < j + Z.of_nat n ->
      ct_byte L lenBytes header inp i j' (k + (j' - j)) = Some (rd bs (j' - j)).
Proof using.
  revert j k. induction n as [| n IH]; intros j k Hb; cbn [ct_hashBlock].
  - exists []. split; [reflexivity |]. split; [constructor |]. split; [reflexivity |]. lia.
  - destruct (Hb j ltac:(lia)) as (b & Eb & Wb). rewrite Z.sub_diag, Z.add_0_r in Eb. rewrite Eb.
    cbn [mbind option_bind].
    destruct (IH (j + 1) (k + 1)) as (bs & -> & Bb & Lb & Hbs).
    { intros j' Hj. destruct (Hb j' ltac:(lia)) as (b' & E' & W'). exists b'. split; [| exact W'].
      rewrite <- E'. f_equal. lia. }
    cbn [option_bind]. exists (b :: bs). split; [reflexivity |]. split; [now constructor |].
    split; [cbn; now rewrite Lb |]. intros j' Hj. destruct (Z.eq_dec j' j) as [-> |].
    + rewrite Z.sub_diag, Z.add_0_r. exact Eb.
    + rewrite rd_cons by lia. replace (k + (j' - j)) with (k + 1 + (j' - (j + 1))) by lia.
      rewrite Hbs by lia. do 2 f_equal. lia.
Qed.

(** ** The loop *)

Lemma inner_step (c : bool) inner raw t n :
  is_bytes raw -> length raw = n -> length inner = n ->
  zip_with (fun h b => Z.lor h (Z.land b (Misc.mask 8 c))) inner (take n (raw ++ t)) =
  if c then zip_with Z.lor inner raw else inner.
Proof using.
  intros B Lr Li. rewrite take_app_length' by auto. subst n. revert inner Li.
  induction B as [| b raw Wb B IH]; intros [| h inner] Li; cbn [length] in Li; try lia;
    cbn [zip_with]; [now destruct c |].
  rewrite IH, land_mask by (lia || exact Wb). destruct c; [reflexivity |]. now rewrite Z.lor_0_r.
Qed.

Lemma zip_lor_zero raw n : length raw = n -> zip_with Z.lor (replicate n 0) raw = raw.
Proof using. intros <-. induction raw as [| b raw IH]; [reflexivity |]. cbn. now rewrite IH. Qed.

(** The blocks from [i] to [j]. *)
Definition block_span (bsf : Z -> list Z) (i : Z) (n : nat) : list Z := concat (map bsf (seqZ i (Z.of_nat n))).

Lemma block_span_S bsf i n : block_span bsf i (S n) = bsf i ++ block_span bsf (i + 1) n.
Proof using. unfold block_span. rewrite seqZ_cons by lia. cbn. do 4 f_equal; lia. Qed.

(** Hashing block after block leaves in [inner] the chaining value of the
    block with the length, when the loop passes it, and nothing otherwise. *)
Lemma ct_blocks_run L lenBytes header inp bsf n i c msg inner :
  h_block = 64 -> - 2 ^ 28 < lenBlock L < 2 ^ 28 -> 0 <= i -> i + Z.of_nat n < 2 ^ 28 ->
  (forall i', i <= i' < i + Z.of_nat n ->
     ct_hashBlock L lenBytes header inp i' 0 (64 * i') 64 = Some (bsf i') /\ is_block (bsf i')) ->
  holds c msg -> Zlen msg mod 64 = 0 -> Zlen inner = h_digest ->
  ct_blocks L lenBytes header inp h_digest i (64 * i) n c inner =
  Some (0, if (i <=? lenBlock L) && (lenBlock L <? i + Z.of_nat n)
           then zip_with Z.lor inner (chain (msg ++ block_span bsf i (S (Z.to_nat (lenBlock L - i)))))
           else inner).
Proof using.
  intros Eb Hlb. revert i c msg inner. induction n as [| n IH]; intros i c msg inner Hi Hn Hbs Hc Hm Li;
    cbn [ct_blocks].
  - do 2 f_equal. destruct (Z.leb_spec i (lenBlock L)), (Z.ltb_spec (lenBlock L) (i + Z.of_nat 0));
      lia || reflexivity.
  - rewrite Eb. destruct (Hbs i ltac:(lia)) as (E & Lb & Bb). change (Z.to_nat 64) with 64%nat.
    rewrite E. cbn [mbind option_bind].
    destruct (holds_update c msg (bsf i) Hc Bb) as (c' & -> & Hc'); [unfold Zlen; lia |].
    cbn [Z.eqb negb].
    assert (Hm' : Zlen (msg ++ bsf i) mod 64 = 0)
      by (rewrite Zlen_app; unfold Zlen in *; rewrite Lb; word_lia).
    rewrite (holds_finalRaw c' _ Hc') by now rewrite Eb.
    pose proof (chain_length (msg ++ bsf i)) as Lc. unfold Zlen in Lc, Li.
    rewrite ctMaskEq_mask, inner_step by (apply chain_bytes || lia).
    replace (64 * i + 64) with (64 * (i + 1)) by lia. rewrite (IH (i + 1) c' (msg ++ bsf i)); try lia; try assumption.
    + do 2 f_equal. destruct (Z.eqb_spec i (lenBlock L)) as [Ei | Ni].
      * rewrite <- Ei, Z.sub_diag. change (S (Z.to_nat 0)) with 1%nat. rewrite (block_span_S bsf i 0).
        change (block_span bsf (i + 1) 0) with (@nil Z). rewrite app_nil_r.
        destruct (Z.leb_spec (i + 1) i), (Z.leb_spec i i), (Z.ltb_spec i (i + Z.of_nat (S n)));
          lia || reflexivity.
      * destruct (Z.leb_spec (i + 1) (lenBlock L)), (Z.leb_spec i (lenBlock L)),
          (Z.ltb_spec (lenBlock L) (i + 1 + Z.of_nat n)), (Z.ltb_spec (lenBlock L) (i + Z.of_nat (S n)));
          try lia; cbn [andb]; try reflexivity.
        do 2 f_equal. rewrite <- app_assoc. f_equal.
        replace (Z.to_nat (lenBlock L - i)) with (S (Z.to_nat (lenBlock L - (i + 1)))) by lia.
        symmetry. apply block_span_S.
    + intros i' Hi'. apply Hbs. lia.
    + unfold Zlen. destruct (i =? lenBlock L); [| lia]. rewrite length_zip_with. lia.
Qed.

(** ** The message the blocks spell *)

Lemma rd_app_r l l' k : Zlen l <= k -> rd (l ++ l') k = rd l' (k - Zlen l).
Proof using.
  intros. unfold rd, Zlen in *. rewrite lookup_app_r by lia. do 2 f_equal. lia.
Qed.

Lemma rd_replicate_0 n k : rd (replicate n 0) k = 0.
Proof using.
  unfold rd. destruct (replicate n 0 !! Z.to_nat k) as [x |] eqn:E; [| reflexivity].
  now apply lookup_replicate_1 in E as [-> _].
Qed.

(** [D] with its padding to the end of block [lb], for a length that includes
    the block of [ipad]. *)
Definition padded (D : list Z) (lb : Z) : list Z :=
  D ++ [0x80] ++ replicate (Z.to_nat (64 * lb + 55 - Zlen D)) 0 ++ be_bytes 8 (8 * (64 + Zlen D)).

Lemma padded_length D lb : Zlen D <= 64 * lb + 55 -> Zlen (padded D lb) = 64 * (lb + 1).
Proof using.
  intros. unfold padded. rewrite !Zlen_app. unfold Zlen in *. rewrite length_replicate, be_bytes_length.
  cbn [length]. lia.
Qed.

Lemma rd_padded D lb k :
  Zlen D <= 64 * lb + 55 -> 0 <= k ->
  rd (padded D lb) k =
  if k <? Zlen D then rd D k
  else if k =? Zlen D then 0x80
  else if k <? 64 * lb + 56 then 0
  else rd (be_bytes 8 (8 * (64 + Zlen D))) (k - (64 * lb + 56)).
Proof using.
  intros HD Hk. assert (0 <= Zlen D) by (unfold Zlen; lia). unfold padded.
  destruct (Z.ltb_spec k (Zlen D)); [now rewrite rd_app_l |].
  rewrite rd_app_r by lia. destruct (Z.eqb_spec k (Zlen D)) as [-> |].
  { now rewrite Z.sub_diag. }
  rewrite rd_app_r by (unfold Zlen at 1; cbn [length]; lia). change (Zlen [128]) with 1.
  set (z := replicate (Z.to_nat (64 * lb + 55 - Zlen D)) 0).
  assert (Lz : Zlen z = 64 * lb + 55 - Zlen D) by (unfold z, Zlen at 1; rewrite length_replicate; lia).
  destruct (Z.ltb_spec k (64 * lb + 56)).
  - rewrite rd_app_l by lia. apply rd_replicate_0.
  - rewrite rd_app_r by lia. f_equal. lia.
Qed.

(** It is the padding of the hash. *)
Lemma padded_md D :
  h_block = 64 -> padded D ((Zlen D + 8) / 64) = D ++ md_padding (64 + Zlen D).
Proof using.
  intros Eb. unfold padded, md_padding. rewrite Eb. do 4 f_equal. word_lia.
Qed.

Section Record.
  Context (header inp : list Z) (sz pad : Z).
  Hypothesis (Eb : h_block = 64) (Hs : sane sz h_digest pad) (Hin : is_bytes inp) (Li : sz <= Zlen inp)
    (Hh : is_bytes header) (Lh : Zlen header = 13).
Let M := 12 + sz - h_digest.
Let L := ct_layout sz h_digest pad.
Let lenBytes := ct_lenBytes (realLen L).

Lemma lenBytes_ok : is_bytes lenBytes /\ Zlen lenBytes = 8.
Proof using.
  unfold lenBytes, ct_lenBytes. rewrite !c32toa_be.
  - split; [apply is_bytes_app; split; apply be_bytes_is_bytes |].
    unfold Zlen. now rewrite length_app, !be_bytes_length.
  - apply wrap_is_word. lia.
  - apply shiftr_is_word; [lia | lia |]. apply wrap_is_word. lia.
Qed.

(** The byte of header and data, or 0. *)
Definition data_byte (k : Z) : Z :=
  if k <? 13 then rd header k else if k <? M then rd inp (k - 13) else 0.

Lemma data_byte_ok k :
  0 <= k -> is_word 8 (data_byte k) /\
  (if k <? Zlen header then get header k
   else if k <? maxLen L then get inp (k - Zlen header) else Some 0) = Some (data_byte k).
Proof using Hs Hin Li Hh Lh HS.
  intros Hk. destruct (ct_layout_spec sz h_digest pad Hs) as (EM & _). fold L M in EM.
  rewrite Lh, EM. unfold data_byte. destruct Hs as (? & ? & ?).
  destruct (Z.ltb_spec k 13); [| destruct (Z.ltb_spec k M)].
  - split; [apply rd_is_word; [lia | exact Hh] | apply get_rd; lia].
  - split; [apply rd_is_word; [lia | exact Hin] | apply get_rd; unfold M in *; lia].
  - split; [unfold is_word; lia | reflexivity].
Qed.

Lemma lenBlock_bound : - 2 ^ 28 < lenBlock L < 2 ^ 28.
Proof using Hs HS.
  destruct (ct_layout_spec sz h_digest pad Hs) as (_ & _ & El & _). fold L M in El. rewrite El.
  destruct Hs as (? & ? & ?). unfold M. word_lia.
Qed.

(** The value of byte [j] of block [i]. *)
Definition msg_byte (i j : Z) : Z :=
  let eoc := i =? eocBlock L in
  let out := i =? lenBlock L in
  let b := if (j =? eocIndex L) && eoc then 0x80 else data_byte (64 * i + j) in
  let b := if (eocIndex L <? j) && eoc then 0 else b in
  let b := if out && negb eoc then 0 else b in
  if (56 <=? j) && out then rd lenBytes (j - 56) else b.

Lemma ct_byte_msg i j :
  0 <= i < 2 ^ 27 -> 0 <= j < 64 ->
  ct_byte L lenBytes header inp i j (64 * i + j) = Some (msg_byte i j) /\ is_word 8 (msg_byte i j).
Proof using Eb Hs Hin Li Hh Lh HS.
  intros Hi Hj. destruct (data_byte_ok (64 * i + j) ltac:(lia)) as [Wd Ed].
  destruct (ct_layout_spec sz h_digest pad Hs) as (_ & _ & _ & He & Hx & _). fold L in He, Hx.
  destruct lenBytes_ok as [Bl Ll]. split.
  - apply ct_byte_eq; try assumption; try lia. apply lenBlock_bound.
  - unfold msg_byte. destruct ((56 <=? j) && _); [now apply rd_is_word |].
    repeat match goal with |- is_word _ (if ?c then _ else _) => destruct c end;
      try exact Wd; unfold is_word; lia.
Qed.

Definition bsf (i : Z) : list Z := map (fun j => msg_byte i j) (seqZ 0 64).

Lemma rd_bsf i j : 0 <= j < 64 -> rd (bsf i) j = msg_byte i j.
Proof using.
  intros Hj. unfold rd, bsf. rewrite list_lookup_fmap, lookup_seqZ_lt by lia. cbn. f_equal. lia.
Qed.

Lemma bsf_ok i :
  0 <= i < 2 ^ 27 ->
  ct_hashBlock L lenBytes header inp i 0 (64 * i) 64 = Some (bsf i) /\ is_block (bsf i).
Proof using Eb Hs Hin Li Hh Lh HS.
  intros Hi.
  destruct (ct_hashBlock_total L lenBytes header inp i 64 0 (64 * i)) as (bs & E & B & Lb & V).
  { intros j Hj. rewrite Z.sub_0_r. eexists. apply ct_byte_msg; lia. }
  assert (Eq : bs = bsf i).
  { apply list_eq_same_length with (n := 64%nat); [reflexivity | exact Lb |].
    intros k x y Hk Ex Ey. specialize (V (Z.of_nat k) ltac:(lia)).
    destruct (ct_byte_msg i (Z.of_nat k) Hi ltac:(lia)) as [V' _].
    rewrite Z.sub_0_r, V' in V. injection V as V.
    rewrite <- (rd_bsf i) in V by lia. unfold rd in V. rewrite Nat2Z.id, Ex, Ey in V. symmetry. exact V. }
  rewrite E, Eq in *. split; [reflexivity | split; assumption].
Qed.

(** *** When the padding is not longer than what precedes it *)

Let R := M - pad.
Let D := take (Z.to_nat R) (header ++ inp).
Let P := padded D (lenBlock L).
Hypothesis HR : 0 <= R.

Lemma D_length : Zlen D = R.
Proof using Hs Li Lh HR.
  destruct Hs as (? & ? & ?). unfold D, R, M, Zlen in *. rewrite length_take, length_app. lia.
Qed.

Lemma rd_D k : 0 <= k < R -> rd D k = data_byte k.
Proof using Hs Li Lh HR.
  intros Hk. pose proof D_length as LD. destruct Hs as (? & ? & ?).
  assert (E : rd D k = rd (header ++ inp) k).
  { unfold rd, D. now rewrite lookup_take_lt by lia. }
  rewrite E. unfold data_byte. destruct (Z.ltb_spec k 13).
  - apply rd_app_l. lia.
  - destruct (Z.ltb_spec k M); [| unfold R in *; lia]. rewrite rd_app_r, Lh by lia. reflexivity.
Qed.

Lemma layout_R :
  eocBlock L = R / 64 /\ eocIndex L = R mod 64 /\ lenBlock L = (R + 8) / 64 /\ realLen L = R /\ R < 2 ^ 29.
Proof using Hs HR HS.
  destruct (ct_layout_spec sz h_digest pad Hs) as (_ & _ & El & _ & _ & Hc). fold L M in El, Hc.
  destruct (Hc ltac:(unfold R in HR; lia)) as (Er & Ee & Ex). destruct Hs as (? & ? & ?).
  fold R in Er, Ee, Ex. replace (M - pad + 8) with (R + 8) in El by (unfold R; lia).
  repeat split; try assumption. unfold R, M. lia.
Qed.

Lemma lenBytes_R : lenBytes = be_bytes 8 (8 * (64 + R)).
Proof using Eb Hs HR HS.
  destruct layout_R as (_ & _ & _ & Er & Hb). unfold lenBytes, ct_lenBytes. rewrite Er, Eb.
  assert (Ew : u32 (R + 64) = R + 64) by (apply wrap_small; unfold is_word; lia). rewrite Ew.
  rewrite (length_words (R + 64) 0) by
    (unfold is_word; lia || (rewrite Z.mod_small; lia)).
  rewrite !c32toa_be by
    ((apply wrap_is_word; lia) || (apply shiftr_is_word; unfold is_word; lia)).
  f_equal. f_equal. symmetry. change (u32 (Z.shiftl 0 3)) with 0. rewrite Z.add_0_r. apply wrap_small.
  apply shiftr_is_word; unfold is_word; lia.
Qed.

Lemma msg_byte_padded i j :
  0 <= i <= lenBlock L -> 0 <= j < 64 -> msg_byte i j = rd P (64 * i + j).
Proof using Eb Hs Li Lh HR HS.
  intros Hi Hj. destruct layout_R as (Ee & Ex & El & _ & _). pose proof D_length as LD.
  unfold P. rewrite rd_padded, LD by (rewrite ?LD, ?El; word_lia).
  unfold msg_byte. rewrite lenBytes_R, Ee, Ex.
  destruct (Z.leb_spec 56 j), (Z.eqb_spec i (lenBlock L)) as [E1 | E1]; cbn [andb];
    destruct (Z.eqb_spec i (R / 64)) as [E2 | E2]; rewrite ?andb_true_r, ?andb_false_r; cbn [negb];
    destruct (Z.ltb_spec (64 * i + j) R); destruct (Z.eqb_spec (64 * i + j) R);
    destruct (Z.ltb_spec (64 * i + j) (64 * lenBlock L + 56)); try word_lia.
  all: try (f_equal; lia).
  all: destruct (Z.ltb_spec (R mod 64) j), (Z.eqb_spec j (R mod 64)); try word_lia.
  all: rewrite rd_D by lia; reflexivity.
Qed.

Lemma bsf_padded i :
  0 <= i <= lenBlock L -> bsf i = take 64 (drop (Z.to_nat (64 * i)) P).
Proof using Eb Hs Li Lh HR HS.
  intros Hi. pose proof D_length as LD. destruct layout_R as (_ & _ & El & _).
  assert (LP : Zlen P = 64 * (lenBlock L + 1)) by (apply padded_length; rewrite LD, El; word_lia).
  unfold Zlen in LP.
  apply list_eq_same_length with (n := 64%nat); [rewrite length_take, length_drop; lia | reflexivity |].
  intros k x y Hk Ex Ey.
  pose proof (rd_bsf i (Z.of_nat k) ltac:(lia)) as E. rewrite msg_byte_padded in E by lia.
  unfold rd in E. rewrite Nat2Z.id, Ex in E. cbn in E. rewrite E.
  rewrite lookup_take_lt, lookup_drop in Ey by lia.
  replace (Z.to_nat (64 * i + Z.of_nat k)) with (Z.to_nat (64 * i) + k)%nat by lia. now rewrite Ey.
Qed.

Lemma block_span_padded n i :
  0 <= i -> i + Z.of_nat n <= lenBlock L + 1 ->
  block_span bsf i n = take (64 * n) (drop (Z.to_nat (64 * i)) P).
Proof using Eb Hs Li Lh HR HS.
  revert i. induction n as [| n IH]; intros i Hi Hn; [reflexivity |].
  rewrite block_span_S, IH, bsf_padded by lia.
  replace (64 * S n)%nat with (64 + 64 * n)%nat by lia.
  rewrite <- (take_take_drop _ 64 (64 * n)), drop_drop. do 3 f_equal. lia.
Qed.
End Record.

(** ** The constant-time MAC *)

Lemma Hmac_OuterHash_spec K inner :
  is_bytes K -> is_bytes inner -> Zlen inner = h_digest ->
  Hmac_OuterHash (xor_pad K OPAD) inner = (0, hash (xor_pad K OPAD ++ inner)).
Proof using.
  intros HK Bi Li. unfold Hmac_OuterHash. destruct (pads_are_bytes K HK) as (_ & _ & Bo & Lo).
  destruct (holds_update h_init [] (xor_pad K OPAD) holds_init Bo ltac:(lia)) as (c & -> & Hc).
  cbn [negb Z.eqb app] in *. pose proof h_digest_le.
  rewrite firstn_all2 by (unfold Zlen in Li; lia).
  destruct (holds_update c _ inner Hc Bi ltac:(lia)) as (c' & -> & Hc').
  cbn [negb Z.eqb]. now rewrite (holds_final _ _ Hc').
Qed.

Section CT.
  Context (h : Hmac) (K header inp : list Z) (sz : Z).
Let pad := rd inp (sz - 1).
Let L := ct_layout sz h_digest pad.
Let lenBytes := ct_lenBytes (realLen L).
  Hypothesis (HK : is_bytes K) (Rep : hmac_rep h K []) (Hk : innerHashKeyed h = false)
    (Hin : is_bytes inp) (Li : sz <= Zlen inp) (Hsz : h_digest + 1 <= sz < 2 ^ 28)
    (Hh : is_bytes header) (Lh : Zlen header = 13).

Lemma ct_sane : sane sz h_digest pad.
Proof using Hin Hsz HS.
  pose proof h_digest_le. split; [lia |]. split; [lia |].
  assert (W : is_word 8 pad) by (apply rd_is_word; [lia | exact Hin]). exact W.
Qed.

Lemma ct_safe :
  let safe := Z.max 0 (blocks L - 6) in
  0 <= safe /\ 0 < blocks L < 2 ^ 26 /\ safe <= blocks L /\ 64 * safe <= 13 + Zlen inp /\
  (pad <= 12 + sz - h_digest -> 64 * safe <= 12 + sz - h_digest - pad /\ safe <= lenBlock L < blocks L).
Proof using Hin Hsz Li HS.
  destruct ct_sane as (Hm & Hs & Hp). destruct (ct_layout_spec sz h_digest pad ct_sane) as (_ & Eb & El & _).
  fold L in Eb, El. cbv zeta. rewrite Eb, El. set (M := 12 + sz - h_digest) in *.
  assert (HM : 12 <= M <= 12 + Zlen inp /\ M < 2 ^ 29) by (unfold M; lia). clearbody M.
  unfold c_bool. destruct (Z.leb_spec ((M + 9) mod 64) 9); repeat split; word_lia.
Qed.

(** What the loop leaves in the inner hash. *)
Definition ct_inner (safe : Z) (pre : list Z) : list Z :=
  if (safe <=? lenBlock L) && (lenBlock L <? blocks L)
  then zip_with Z.lor (replicate (Z.to_nat h_digest) 0)
         (chain (xor_pad K IPAD ++ pre ++ block_span (bsf header inp sz pad) safe (S (Z.to_nat (lenBlock L - safe)))))
  else replicate (Z.to_nat h_digest) 0.

Lemma ct_inner_ok safe pre : is_bytes (ct_inner safe pre) /\ Zlen (ct_inner safe pre) = h_digest.
Proof using.
  pose proof h_digest_le. unfold ct_inner. destruct ((safe <=? _) && _).
  - pose proof (chain_length (xor_pad K IPAD ++ pre ++
      block_span (bsf header inp sz pad) safe (S (Z.to_nat (lenBlock L - safe))))) as Lc.
    rewrite zip_lor_zero by (unfold Zlen in Lc; lia). split; [apply chain_bytes | exact Lc].
  - split; [apply Forall_replicate; unfold is_word; lia |]. unfold Zlen. rewrite length_replicate. lia.
Qed.

(** The data hashed before the loop. *)
Definition ct_pre (safe : Z) : list Z := take (Z.to_nat (64 * safe)) (header ++ inp).

Lemma Hmac_UpdateFinal_CT_run :
  let safe := Z.max 0 (blocks L - 6) in
  Hmac_UpdateFinal_CT h inp sz h_digest header =
  Some (0, hash (xor_pad K OPAD ++ ct_inner safe (ct_pre safe))).
Proof using All.
  intros safe. destruct h_sizes as [Eb _]. pose proof h_digest_le as Hd.
  destruct Rep as (Ei & Eo & Hc0). rewrite Hk in Hc0. destruct Hc0 as [_ Hc0].
  destruct ct_safe as (S0 & SB & SL & SI & _). fold safe in S0, SL, SI.
  destruct (pads_are_bytes K HK) as (Bi & Lip & _).
  unfold Hmac_UpdateFinal_CT. replace ((h_digest <=? 0) || (h_digest >? 64)) with false by lia.
  rewrite get_rd by lia. cbn [mbind option_bind]. fold pad L. fold lenBytes. rewrite Ei, Eo, Eb.
  destruct (holds_update _ _ (xor_pad K IPAD) Hc0 Bi ltac:(lia)) as (c1 & -> & Hc1).
  cbn [negb Z.eqb app] in *. cbv zeta.
  assert (Run : forall c, holds c (xor_pad K IPAD ++ ct_pre safe) ->
    ct_blocks L lenBytes header inp h_digest safe (u32 (safe * 64)) (Z.to_nat (blocks L - safe)) c
      (replicate (Z.to_nat h_digest) 0) = Some (0, ct_inner safe (ct_pre safe))).
  { intros c Hc. rewrite (wrap_small 32), (Z.mul_comm safe) by (unfold is_word; lia).
    rewrite (ct_blocks_run L lenBytes header inp (bsf header inp sz pad) _ safe c
               (xor_pad K IPAD ++ ct_pre safe)); try assumption; try lia.
    - rewrite Z2Nat.id by lia. replace (safe + (blocks L - safe)) with (blocks L) by lia.
      unfold ct_inner. now rewrite <- app_assoc.
    - apply lenBlock_bound, ct_sane.
    - intros i' Hi'. apply bsf_ok; try assumption; [apply ct_sane | lia].
    - rewrite Zlen_app, Lip. unfold ct_pre, Zlen. rewrite length_take_le; [word_lia |].
      rewrite length_app. unfold Zlen in *. lia.
    - unfold Zlen. rewrite length_replicate. lia. }
  destruct (Z.gtb_spec (blocks L - 6) 0) as [Hpos | Hneg].
  - assert (Es : blocks L - 6 = safe) by (unfold safe; lia). rewrite Es.
    destruct (holds_update c1 _ header Hc1 Hh ltac:(lia)) as (c2 & -> & Hc2). cbn [negb Z.eqb].
    unfold WOLFSSL_TLS_HMAC_INNER_SZ. rewrite get_slice_ok by lia. cbn [mbind option_bind].
    set (d := slice inp 0 (safe * 64 - 13)).
    assert (Bd : is_bytes d) by (unfold d, slice; now apply Forall_take, Forall_drop).
    assert (Ld : Zlen d = safe * 64 - 13) by (unfold Zlen, d; rewrite slice_length; lia).
    destruct (holds_update c2 _ d Hc2 Bd ltac:(lia)) as (c3 & -> & Hc3). cbn [negb Z.eqb].
    rewrite Run.
    + cbn [mbind option_bind negb Z.eqb]. destruct (ct_inner_ok safe (ct_pre safe)).
      now rewrite Hmac_OuterHash_spec.
    + rewrite <- app_assoc in Hc3. unfold ct_pre. rewrite take_app_ge by (unfold Zlen in Lh; lia).
      unfold d, slice in Hc3. change (drop (Z.to_nat 0) inp) with inp in Hc3.
      replace (Z.to_nat (64 * safe) - length header)%nat with (Z.to_nat (safe * 64 - 13))
        by (unfold Zlen in Lh; lia). exact Hc3.
  - assert (Es : safe = 0) by (unfold safe; lia). rewrite Es in *. rewrite Run.
    + cbn [mbind option_bind negb Z.eqb]. destruct (ct_inner_ok 0 (ct_pre 0)).
      now rewrite Hmac_OuterHash_spec.
    + unfold ct_pre. cbn [take]. now rewrite app_nil_r.
Qed.

Lemma ct_inner_correct :
  pad + h_digest + 1 <= sz ->
  let safe := Z.max 0 (blocks L - 6) in
  ct_inner safe (ct_pre safe) =
  hash (xor_pad K IPAD ++ header ++ take (Z.to_nat (sz - 1 - h_digest - pad)) inp).
Proof using All.
  intros Hfit safe. destruct h_sizes as [Eb _]. pose proof h_digest_le as Hd.
  pose proof ct_sane as Hs. destruct (pads_are_bytes K HK) as (_ & Lip & _).
  assert (Bp : 0 <= pad < 256) by apply Hs.
  destruct ct_safe as (S0 & _ & _ & _ & HR). fold safe in S0, HR.
  destruct (HR ltac:(lia)) as (SR & Sl & Sb). clear HR.
  assert (HR : 0 <= 12 + sz - h_digest - pad) by lia.
  set (D := take (Z.to_nat (12 + sz - h_digest - pad)) (header ++ inp)).
  assert (LD : Zlen D = 12 + sz - h_digest - pad) by (apply D_length; assumption).
  destruct (layout_R sz pad Hs HR) as (_ & _ & El & _). fold L in El.
  set (P := padded D (lenBlock L)).
  assert (LP : Zlen P = 64 * (lenBlock L + 1)) by (apply padded_length; rewrite LD, El; word_lia).
  assert (EP : ct_pre safe = take (Z.to_nat (64 * safe)) P).
  { unfold P, padded. rewrite take_app_le by (unfold Zlen in LD; lia). unfold ct_pre, D.
    rewrite take_take. f_equal. lia. }
  assert (ED : D = header ++ take (Z.to_nat (sz - 1 - h_digest - pad)) inp).
  { unfold D. rewrite take_app_ge by (unfold Zlen in Lh; lia). do 2 f_equal. unfold Zlen in Lh. lia. }
  unfold ct_inner. destruct (Z.leb_spec safe (lenBlock L)), (Z.ltb_spec (lenBlock L) (blocks L)); try lia.
  cbn [andb]. rewrite zip_lor_zero.
  2: { pose proof (chain_length (xor_pad K IPAD ++ ct_pre safe ++
         block_span (bsf header inp sz pad) safe (S (Z.to_nat (lenBlock L - safe))))) as Lc.
       unfold Zlen in Lc. lia. }
  rewrite (block_span_padded header inp sz pad) by (assumption || (fold L; lia)). fold L D P.
  rewrite (firstn_all2 (drop _ P)) by (rewrite length_drop; unfold Zlen in LP; lia).
  rewrite EP, take_drop, <- ED. unfold hash. f_equal. unfold P. rewrite El, <- LD, padded_md by exact Eb.
  rewrite app_assoc. do 2 f_equal. rewrite Zlen_app, Lip. reflexivity.
Qed.
End CT.

(** ** The record *)

Lemma inner_header_ok m sz content :
  is_bytes (seq m) -> Zlen (seq m) = 8 -> is_word 8 (fst (version m)) -> is_word 8 (snd (version m)) ->
  is_bytes (wolfSSL_SetTlsHmacInner m sz content) /\ Zlen (wolfSSL_SetTlsHmacInner m sz content) = 13.
Proof using.
  intros Bs Ls Hj Hn. unfold wolfSSL_SetTlsHmacInner. rewrite c16toa_be. split.
  - apply is_bytes_app. split; [exact Bs |]. apply is_bytes_app. split; [| apply be_bytes_is_bytes].
    repeat (apply Forall_cons_2; [assumption || (apply wrap_is_word; lia) |]). apply Forall_nil_2.
  - rewrite !Zlen_app, Ls. unfold Zlen. rewrite be_bytes_length. reflexivity.
Qed.

(** The state of a connection as [TLS_hmac] finds it. *)
Definition mac_state_ok (m : mac_state) : Prop :=
  is_bytes (macSecret m) /\ Zlen (macSecret m) < 2 ^ 32 /\ is_bytes (seq m) /\ Zlen (seq m) = 8 /\
  is_word 8 (fst (version m)) /\ is_word 8 (snd (version m)).

(** The MAC of [sz] bytes of content (RFC 5246, section 6.2.3.1). *)
Definition record_mac (m : mac_state) (inp : list Z) (sz content : Z) : list Z :=
  HMAC (macSecret m) (wolfSSL_SetTlsHmacInner m sz content ++ take (Z.to_nat sz) inp).

(** In constant time, for any padding length the record may claim. *)
Lemma TLS_hmac_CT m inp sz padSz content :
  mac_state_ok m -> is_bytes inp -> 0 <= sz -> 0 <= padSz < 256 ->
  sz + h_digest + padSz + 1 <= Zlen inp -> sz + h_digest + padSz + 1 < 2 ^ 28 ->
  exists d, TLS_hmac m inp sz padSz content = Some (0, d) /\ is_bytes d /\ Zlen d = h_digest /\
    (rd inp (sz + h_digest + padSz) = padSz -> d = record_mac m inp sz content).
Proof using.
  intros (BK & LK & Bs & Ls & Hj & Hn) Bi Hs Hp Li Hb. pose proof h_digest_le as Hd.
  unfold TLS_hmac. destruct (Z.geb_spec padSz 0); [| lia].
  unfold safe_sum, wrap. rewrite Z.mod_small by lia.
  destruct (Z.ltb_spec (sz + h_digest) (2 ^ 32)); [| lia]. cbn [mbind option_bind].
  destruct (Z.ltb_spec (sz + h_digest + padSz) (2 ^ 32)); [| lia]. cbn [mbind option_bind].
  destruct (Z.ltb_spec (sz + h_digest + padSz + 1) (2 ^ 32)); [| lia].
  destruct (wc_HmacSetKey_rep (mk_hmac h_init [] [] [] false) (macSecret m) BK LK)
    as (h & -> & Rep & Hk). cbn [negb Z.eqb].
  destruct (inner_header_ok m sz content Bs Ls Hj Hn) as [Bh Lh].
  set (header := wolfSSL_SetTlsHmacInner m sz content) in *. set (t := sz + h_digest + padSz + 1).
  rewrite (Hmac_UpdateFinal_CT_run h (macSecret m) header inp t BK Rep Hk Bi ltac:(lia) ltac:(lia) Bh Lh).
  eexists. split; [reflexivity |]. split; [apply hash_bytes |]. split; [apply hash_length |].
  intros Epad. replace (sz + h_digest + padSz) with (t - 1) in Epad by lia.
  rewrite (ct_inner_correct h (macSecret m) header inp t BK Rep Hk Bi ltac:(lia) ltac:(lia) Bh Lh) by lia.
  rewrite Epad. replace (t - 1 - h_digest - padSz) with sz by lia. reflexivity.
Qed.

(** In the ordinary way. *)
Lemma TLS_hmac_plain m inp sz content :
  mac_state_ok m -> is_bytes inp -> 0 <= sz <= Zlen inp -> sz < 2 ^ 32 ->
  TLS_hmac m inp sz (-1) content = Some (0, record_mac m inp sz content).
Proof using.
  intros (BK & LK & Bs & Ls & Hj & Hn) Bi Hs Hb. unfold TLS_hmac. cbn [Z.geb Z.compare].
  destruct (wc_HmacSetKey_rep (mk_hmac h_init [] [] [] false) (macSecret m) BK LK) as (h & -> & Rep & _).
  cbn [negb Z.eqb]. destruct (inner_header_ok m sz content Bs Ls Hj Hn) as [Bh Lh].
  set (header := wolfSSL_SetTlsHmacInner m sz content) in *.
  destruct (wc_HmacUpdate_rep h _ [] header BK Rep Bh ltac:(lia)) as (h1 & -> & R1).
  cbn [negb Z.eqb app] in *. rewrite get_slice_ok by lia. cbn [mbind option_bind].
  destruct (wc_HmacUpdate_rep h1 _ header (slice inp 0 sz) BK R1) as (h2 & -> & R2).
  - unfold slice. now apply Forall_take, Forall_drop.
  - unfold Zlen. rewrite slice_length; lia.
  - cbn [negb Z.eqb]. destruct (wc_HmacFinal_rep h2 _ _ BK R2) as (h3 & -> & _). reflexivity.
Qed.

End TlsHmac.

(** ** Theorems *)

(** The constant-time MAC is the MAC.  For every record whose padding
    fits, [TLS_hmac] with the padding length - which hashes all the blocks the
    padding could occupy and selects one with masks - returns what
    [TLS_hmac] without it returns: HMAC of the record header and the content
    (RFC 5246), reading only the record. *)
Theorem TLS_hmac_constant_time {H : Hash} {HS : HashSpec H} m inp pLen content :
  mac_state_ok m -> is_bytes inp -> pLen <= Zlen inp -> pLen < 2 ^ 28 ->
  let pad := rd inp (pLen - 1) in
  let len := pLen - h_digest - pad - 1 in
  0 <= len ->
  TLS_hmac m inp len pad content = Some (0, record_mac m inp len content) /\
  TLS_hmac m inp len (-1) content = Some (0, record_mac m inp len content).
Proof.
  intros Hm Hin Hl Hb pad len Hlen. pose proof h_digest_le.
  assert (El : len = pLen - h_digest - pad - 1) by reflexivity. clearbody len.
  assert (Wp : is_word 8 pad) by (apply rd_is_word; [lia | exact Hin]).
  change (0 <= pad < 256) in Wp. split.
  - destruct (TLS_hmac_CT m inp len pad content) as (d & -> & _ & _ & Ed); try assumption; try lia.
    rewrite Ed; [reflexivity |]. unfold pad at 2. f_equal. lia.
  - apply TLS_hmac_plain; assumption || lia.
Qed.

(** The callback [ssl->hmac] that [TLS_hmac] is. *)
Definition hmac_callback {H : Hash} {HS : HashSpec H} (m : mac_state) (content : Z)
    (inp : list Z) (sz padSz : Z) : Z * list Z :=
  default (BUFFER_E, []) (TLS_hmac m inp sz padSz content).

(** [C14] End to end: a decrypted CBC record passes [TimingPadVerify] over
    [TLS_hmac] exactly when its padding fits, the last [min (pad + 1) 255] bytes
    equal the padding length and the bytes after the content are the HMAC of header and
    content under the MAC secret; every other record is
    [VERIFY_MAC_ERROR], whatever padding length it claims. *)
Theorem cbc_record_accepted {H : Hash} {HS : HashSpec H} m inp pLen content :
  In h_digest mac_sizes ->
  mac_state_ok m -> is_bytes inp -> h_digest + 1 <= pLen <= Zlen inp -> pLen < 2 ^ 28 ->
  let pad := rd inp (pLen - 1) in
  let len := pLen - h_digest - pad - 1 in
  TimingPadVerify (hmac_callback m content) h_digest inp pad h_digest pLen =
  Some (if (0 <=? len) &&
           forallb (Z.eqb pad) (slice inp (pLen - Z.min (pad + 1) 255) (Z.min (pad + 1) 255)) &&
           bool_decide (slice inp len h_digest = record_mac m inp len content)
        then 0 else VERIFY_MAC_ERROR).
Proof.
  intros Hd Hm Hin Hlen Hbig pad len. pose proof h_digest_le as Hdl.
  assert (Wp : is_word 8 pad) by (apply rd_is_word; [lia | exact Hin]).
  change (0 <= pad < 256) in Wp.
  set (padSz := if pad + h_digest + 1 <=? pLen then pad else 0).
  assert (Bs : 0 <= padSz <= pad /\ 0 <= pLen - h_digest - padSz - 1)
    by (unfold padSz; destruct (Z.leb_spec (pad + h_digest + 1) pLen); lia).
  destruct (TLS_hmac_CT m inp (pLen - h_digest - padSz - 1) padSz content) as (d & Ed & Bd & Ld & Vd);
    try assumption; try lia.
  assert (Ec : hmac_callback m content inp (pLen - h_digest - padSz - 1) padSz = (0, d))
    by (unfold hmac_callback; now rewrite Ed).
  assert (Ok : hmac_ok (hmac_callback m content) inp h_digest (pLen - h_digest - padSz - 1) padSz).
  { unfold hmac_ok. rewrite Ec. repeat split; [lia | exact Bd | lia]. }
  pose proof (TimingPadVerify_new (hmac_callback m content) inp h_digest pLen Hd Hin Hlen ltac:(lia) Ok) as E.
  etransitivity; [exact E |]. clear E. fold pad. fold padSz. do 2 f_equal.
  unfold mac_then_pad_ok, TLS_MAX_PAD_SZ. fold pad. fold len.
  destruct (Z.leb_spec 0 len) as [Hfit | Hout].
  - assert (Ep : padSz = pad)
      by (unfold padSz; destruct (Z.leb_spec (pad + h_digest + 1) pLen); unfold len in Hfit; lia).
    rewrite Ep in *. fold len in Ec, Vd. rewrite Ec. cbn [andb Z.eqb]. rewrite andb_true_r.
    rewrite <- Vd by (unfold len, pad; f_equal; lia).
    assert (Ev : slice d 0 h_digest = d)
      by (unfold slice; cbn [drop]; apply firstn_all2; unfold Zlen in Ld; lia).
    rewrite Ev, (bool_decide_ext (d = _) (slice inp len h_digest = d)) by (split; congruence).
    reflexivity.
  - destruct (hmac_callback m content inp len padSz). reflexivity.
Qed.

(** *** Witnesses, with SHA-256 *)

Definition demo_hash : Hash := Sha256_hash Transform_Sha256.
Definition demo_spec : HashSpec demo_hash := Sha256_spec Transform_Sha256 block_default.

Definition demo_state : mac_state :=
  {| macSecret := [1; 2; 3]; seq := replicate 8 0; version := (3, 3) |}.

(** A record with content [7; 8; 9], its MAC and a padding of 12. *)
Definition demo_record : list Z :=
  [7; 8; 9] ++ @record_mac demo_hash demo_spec demo_state [7; 8; 9] 3 23 ++ replicate 13 12.

Lemma demo_state_ok : mac_state_ok demo_state.
Proof.
  unfold mac_state_ok, demo_state. cbn [macSecret seq version fst snd].
  split; [repeat constructor; discriminate |]. split; [reflexivity |].
  split; [apply Forall_replicate; unfold is_word; lia |]. split; [reflexivity |].
  unfold is_word. lia.
Qed.

Lemma demo_record_bytes : is_bytes demo_record.
Proof.
  unfold demo_record. rewrite !is_bytes_app. split; [repeat constructor; discriminate |].
  split; [apply chain_bytes | apply Forall_replicate; unfold is_word; lia].
Qed.

Lemma TLS_hmac_constant_time_witness :
  @TLS_hmac demo_hash demo_state demo_record 3 12 23 =
    Some (0, @record_mac demo_hash demo_spec demo_state demo_record 3 23).
Proof.
  refine (proj1 (@TLS_hmac_constant_time demo_hash demo_spec demo_state demo_record 48 23
                   demo_state_ok demo_record_bytes _ _ _)).
  - vm_compute. discriminate.
  - reflexivity.
  - vm_compute. discriminate.
Defined.

Lemma cbc_record_accepted_witness :
  TimingPadVerify (@hmac_callback demo_hash demo_spec demo_state 23) 32 demo_record 12 32 48 = Some 0.
Proof.
  assert (Hl : 32 + 1 <= 48 <= Zlen demo_record) by (vm_compute; split; discriminate).
  refine (eq_trans (@cbc_record_accepted demo_hash demo_spec demo_state demo_record 48 23
                      _ demo_state_ok demo_record_bytes Hl _) _).
  - right. right. now left.
  - reflexivity.
  - vm_compute. reflexivity.
Defined.

(** With connection IDs the header [TLS_hmac_SetInner] builds is longer than
    [WOLFSSL_TLS_HMAC_INNER_SZ], which [Hmac_UpdateFinal_CT] takes it to be:
    the MAC it computes for such a record is not the MAC of the record. *)
Definition demo_cid_header : list Z :=
  replicate 8 255 ++ [25; 1; 25; 254; 253] ++ replicate 8 0 ++ [5] ++ [0; 3].

Definition demo_hmac : @Hmac demo_hash :=
  snd (@wc_HmacSetKey demo_hash (@mk_hmac demo_hash InitSha256 [] [] [] false) [1; 2; 3]).

Example ct_with_cid_header :
  @Hmac_UpdateFinal_CT demo_hash demo_hmac demo_record 48 32 demo_cid_header <>
  Some (0, @HMAC demo_hash demo_spec [1; 2; 3] (demo_cid_header ++ [7; 8; 9])).
Proof. vm_compute. discriminate. Qed.
