(* ===== verification/DtlsWindow.v ===== *)
(** * src/internal.c: the DTLS anti-replay window

    The receive window of RFC 6347 (section 4.1.2.6) that the DTLS record layer keeps
    per epoch: [_DtlsCheckWindow], [_DtlsUpdateWindowGTSeq],
    [wolfSSL_DtlsUpdateWindow], [DtlsUpdateWindow], [UpdateHighwaterMark] and
    the epoch switch made by a ChangeCipherSpec.  The window is an array of
    32-bit words in which bit [i] says that record [next - 1 - i] has been
    received.

    [replay] is the abstract contract of such a window (the next number and
    the set of received numbers still in range); the concrete operations are
    shown to refine it.  DTLS 1.3 ([Dtls13Epoch]) reuses the contract. *)

From S2P Require Import Prelude.

#[local] Open Scope Z_scope.

Definition WOLFSSL_DTLS_WINDOW_WORDS : Z := 2.
Definition DTLS_WORD_BITS : Z := 32.
Definition DTLS_SEQ_BITS : Z := WOLFSSL_DTLS_WINDOW_WORDS * DTLS_WORD_BITS.

Definition MCAST_HIGHWATER_CB_E : Z := -426.

(** ** Abstract specification *)

Record replay := Replay { r_next : Z; r_seen : Z -> bool }.

#[export] Instance replay_equiv : Equiv replay := fun a b =>
  r_next a = r_next b /\ forall s, r_seen a s = r_seen b s.

#[export] Instance replay_equivalence : Equivalence (≡@{replay}).
Proof.
  split; unfold equiv, replay_equiv.
  - split; auto.
  - intros a b [? ?]. split; auto.
  - intros a b c [? E] [? F]. split; [congruence |]. intros s. now rewrite E, F.
Qed.

Definition in_window (next s : Z) : bool := (next - DTLS_SEQ_BITS <=? s) && (s <? next).

(** A record is fresh when it is not older than the window and not marked. *)
Definition spec_check (r : replay) (cur : Z) : bool :=
  if cur <? r_next r then in_window (r_next r) cur && negb (r_seen r cur) else true.

(** Receiving [cur] marks it and slides the window so that it fits. *)
Definition spec_update (r : replay) (cur : Z) : replay :=
  let next := Z.max (r_next r) (cur + 1) in
  {| r_next := next;
     r_seen := fun s => in_window next s && (r_seen r s || (s =? cur)) |}.

#[export] Instance spec_check_proper : Proper ((≡) ==> eq ==> eq) spec_check.
Proof.
  intros a b [N S] cur ? <-. unfold spec_check. now rewrite N, S.
Qed.

#[export] Instance spec_update_proper : Proper ((≡) ==> eq ==> (≡)) spec_update.
Proof.
  intros a b [N S] cur ? <-. split; cbn; [now rewrite N |]. intros s. now rewrite N, S.
Qed.

(** The history of a window: every number of [l] was received. *)
Definition remembers (r : replay) (l : list Z) : Prop :=
  forall s, s ∈ l -> s < r_next r /\ (in_window (r_next r) s = true -> r_seen r s = true).

#[export] Instance remembers_proper : Proper ((≡) ==> eq ==> iff) remembers.
Proof.
  intros a b [N S] l ? <-. unfold remembers. split; intros H s Hs;
    destruct (H s Hs) as [L M]; [rewrite <- N, <- S | rewrite N, S]; auto.
Qed.

Lemma remembers_update r l cur : remembers r l -> remembers (spec_update r cur) (cur :: l).
Proof.
  intros H s Hs. unfold spec_update. cbn. apply elem_of_cons in Hs as [-> | Hs].
  - split; [lia |]. intros ->. rewrite Z.eqb_refl. now rewrite orb_true_r.
  - destruct (H s Hs) as [L M]. split; [lia |]. intros W. rewrite W.
    unfold in_window in *. rewrite M; [reflexivity |].
    apply andb_true_iff in W as [W1 W2]. apply andb_true_iff.
    split; [apply Z.leb_le; apply Z.leb_le in W1 | apply Z.ltb_lt]; lia.
Qed.

(** A number the window remembers is never fresh again. *)
Lemma remembers_not_fresh r l cur : remembers r l -> spec_check r cur = true -> cur ∉ l.
Proof.
  intros H F Hin. destruct (H cur Hin) as [L M]. unfold spec_check in F.
  apply Z.ltb_lt in L. rewrite L in F. apply andb_true_iff in F as [W S].
  now rewrite (M W) in S.
Qed.

(** ** The code *)

Record PEERSEQ := mkPeerSeq {
  window : list Z; nextEpoch : Z; nextSeq_hi : Z; nextSeq_lo : Z;
  prevWindow : list Z; prevSeq_lo : Z; prevSeq_hi : Z;
  peerId : Z; highwaterMark : Z }.

(** The fields of [WOLFSSL], [WOLFSSL_CTX], [Options] and [Keys] in use; the
    application's high-water callback is a parameter of the functions. *)
Record DtlsKeys := mkDtlsKeys {
  haveMcast : bool;
  mcastFirstSeq : Z; mcastSecondSeq : Z; mcastMaxSeq : Z;
  curEpoch : Z; curSeq_hi : Z; curSeq_lo : Z; curPeerId : Z;
  peerSeq : list PEERSEQ }.

Section Window.
#[local] Open Scope cword_scope.

Fixpoint gt_loop (oldWindow : list Z) (idx diff : Z) (n : nat) (i temp : Z)
    (window : list Z) : list Z :=
  match n with
  | O => window
  | S n =>
      if i <? idx then gt_loop oldWindow idx diff n (i + 1) temp (<[Z.to_nat i := 0]> window)
      else
        let temp := Z.lor temp (rd oldWindow (i - idx) <<u32 diff) in
        let window := <[Z.to_nat i := temp]> window in
        let temp := if 0 <? diff
                    then rd oldWindow (i - idx) >>u (DTLS_WORD_BITS - diff) else 0 in
        gt_loop oldWindow idx diff n (i + 1) temp window
  end.

Definition _DtlsUpdateWindowGTSeq (diff : Z) (window : list Z) : list Z :=
  let window :=
    if (diff =? 0) || (DTLS_SEQ_BITS <=? diff)
    then replicate (Z.to_nat WOLFSSL_DTLS_WINDOW_WORDS) 0
    else
      let idx := diff / DTLS_WORD_BITS in
      let diff := diff mod DTLS_WORD_BITS in
      gt_loop window idx diff (Z.to_nat WOLFSSL_DTLS_WINDOW_WORDS) 0 0 window in
  <[0%nat := Z.lor (rd window 0) 1]> window.

(** [*next_lo = cur_lo + 1], with the carry into [*next_hi]. *)
Definition next_after (cur_hi cur_lo : Z) : Z * Z :=
  let next_lo := cur_lo +u32 1 in
  (if next_lo =? 0 then u16 (cur_hi + 1) else cur_hi, next_lo).

(** The second half of [wolfSSL_DtlsUpdateWindow], once the difference is
    known. *)
Definition update_tail (cur_hi cur_lo next_hi next_lo : Z) (window : list Z)
    (curLT : bool) (diff : Z) : Z * Z * list Z :=
  if curLT then
    let diff := diff -u32 1 in
    let idx := diff / DTLS_WORD_BITS in
    let diff := diff mod DTLS_WORD_BITS in
    (next_hi, next_lo,
     if idx <? WOLFSSL_DTLS_WINDOW_WORDS
     then <[Z.to_nat idx := Z.lor (rd window idx) (1 <<u32 diff)]> window else window)
  else (next_after cur_hi cur_lo, _DtlsUpdateWindowGTSeq (diff +u32 1) window).

Definition wolfSSL_DtlsUpdateWindow (cur_hi cur_lo next_hi next_lo : Z) (window : list Z)
    : Z * Z * list Z :=
  let tail := update_tail cur_hi cur_lo next_hi next_lo window in
  let reset := (next_after cur_hi cur_lo, _DtlsUpdateWindowGTSeq 0 window) in
  let unchanged := (next_hi, next_lo, window) in
  if cur_hi =? next_hi then
    let curLT := cur_lo <? next_lo in
    tail curLT (if curLT then next_lo -u32 cur_lo else cur_lo -u32 next_lo)
  else if next_hi + 1 <? cur_hi then reset
  else if cur_hi + 1 <? next_hi then unchanged
  else if cur_hi <? next_hi then
    if (next_lo <? DTLS_SEQ_BITS) && (0xFFFFFFFF - DTLS_SEQ_BITS <=? cur_lo)
    then tail true (next_lo + (0xFFFFFFFF - cur_lo) +u32 1)
    else unchanged
  else
    if (0xFFFFFFFF - DTLS_SEQ_BITS <=? next_lo) && (cur_lo <? DTLS_SEQ_BITS)
    then tail false (cur_lo -u32 next_lo)
    else reset.

(** The slot of [keys.peerSeq] in use: the first, or with multicast the one
    of the current peer. *)
Fixpoint find_peer (id : Z) (l : list PEERSEQ) : option nat :=
  match l with
  | [] => None
  | p :: l => if peerId p =? id then Some 0%nat else S <$> find_peer id l
  end.

Definition peer_slot (k : DtlsKeys) : option nat :=
  if haveMcast k then find_peer (curPeerId k) (peerSeq k) else Some 0%nat.

(** The verdict of [_DtlsCheckWindow] once the epoch has been resolved. *)
Definition check_seq (cur_hi cur_lo next_hi next_lo : Z) (window : list Z) : bool :=
  if (next_hi + 1 <? cur_hi) || (cur_hi + 1 <? next_hi) then false
  else
    let '(curLT, diff) :=
      if cur_hi =? next_hi then
        let curLT := cur_lo <? next_lo in
        (curLT, if curLT then next_lo -u32 cur_lo else cur_lo -u32 next_lo)
      else
        let curLT := cur_hi <? next_hi in
        (curLT, if curLT then cur_lo -u32 next_lo else next_lo -u32 cur_lo) in
    if (negb (next_hi =? 0) || (DTLS_SEQ_BITS <? next_lo)) && curLT && (DTLS_SEQ_BITS <? diff)
    then false
    else if curLT then
      if diff =? 0 then false
      else
        let diff := diff -u32 1 in
        let idx := diff / DTLS_WORD_BITS in
        let newDiff := diff mod DTLS_WORD_BITS in
        if WOLFSSL_DTLS_WINDOW_WORDS <=? idx then false
        else Z.land (rd window idx) (1 <<u32 newDiff) =? 0
    else true.

Definition _DtlsCheckWindow (k : DtlsKeys) : bool :=
  match peer_slot k ≫= (peerSeq k !!.) with
  | None => false
  | Some p =>
      if curEpoch k =? nextEpoch p then
        check_seq (curSeq_hi k) (curSeq_lo k) (nextSeq_hi p) (nextSeq_lo p) (window p)
      else if curEpoch k =? nextEpoch p - 1 then
        check_seq (curSeq_hi k) (curSeq_lo k) (prevSeq_hi p) (prevSeq_lo p) (prevWindow p)
      else false
  end.

Definition UpdateHighwaterMark (cur first second high : Z) : Z :=
  if cur <? first then first
  else if cur <? second then second
  else if cur <? high then high
  else 0.

(** The window update of one peer, written through the pointers
    [next_hi]/[next_lo]/[window] into the slot. *)
Definition update_peer (k : DtlsKeys) (p : PEERSEQ) : PEERSEQ :=
  if curEpoch k =? nextEpoch p then
    let '(h, l, w) := wolfSSL_DtlsUpdateWindow (curSeq_hi k) (curSeq_lo k)
                        (nextSeq_hi p) (nextSeq_lo p) (window p) in
    { { { p with nextSeq_hi := h } with nextSeq_lo := l } with window := w }
  else
    let '(h, l, w) := wolfSSL_DtlsUpdateWindow (curSeq_hi k) (curSeq_lo k)
                        (prevSeq_hi p) (prevSeq_lo p) (prevWindow p) in
    { { { p with prevSeq_hi := h } with prevSeq_lo := l } with prevWindow := w }.

Definition set_peer (k : DtlsKeys) (i : nat) (f : PEERSEQ -> PEERSEQ) : DtlsKeys :=
  { k with peerSeq := alter f i (peerSeq k) }.

(** [mcastHwCb peerId maxSeq curSeq] is the application's callback. *)
Definition DtlsUpdateWindow (mcastHwCb : option (Z -> Z -> Z -> Z)) (k : DtlsKeys)
    : Z * DtlsKeys :=
  match peer_slot k with
  | None => (0, k)
  | Some i =>
      let mark := default 0 (highwaterMark <$> peerSeq k !! i) in
      let id := default 0 (peerId <$> peerSeq k !! i) in
      if haveMcast k && negb (mark =? 0) && (mark <=? curSeq_lo k) then
        let cbError := match mcastHwCb with
                       | Some cb => cb id (mcastMaxSeq k) (curSeq_lo k)
                       | None => 0
                       end in
        if negb (cbError =? 0) then (MCAST_HIGHWATER_CB_E, k)
        else
          let k := set_peer k i (fun p => { p with highwaterMark :=
                     UpdateHighwaterMark (curSeq_lo k) (mcastFirstSeq k)
                       (mcastSecondSeq k) (mcastMaxSeq k) }) in
          (1, set_peer k i (update_peer k))
      else (1, set_peer k i (update_peer k))
  end.

(** The epoch switch on a received ChangeCipherSpec. *)
Definition switch_epoch (p : PEERSEQ) : PEERSEQ :=
  let p := { p with nextEpoch := u16 (nextEpoch p + 1) } in
  let p := { p with prevSeq_lo := nextSeq_lo p } in
  let p := { p with prevSeq_hi := nextSeq_hi p } in
  let p := { p with nextSeq_lo := 0 } in
  let p := { p with nextSeq_hi := 0 } in
  let p := { p with prevWindow := window p } in
  { p with window := replicate (Z.to_nat WOLFSSL_DTLS_WINDOW_WORDS) 0 }.

Definition ccs_switch_epoch (k : DtlsKeys) : DtlsKeys :=
  if haveMcast k then
    set_peer k (Z.to_nat (curPeerId k)) (fun p =>
      switch_epoch { p with highwaterMark :=
        UpdateHighwaterMark 0 (mcastFirstSeq k) (mcastSecondSeq k) (mcastMaxSeq k) })
  else set_peer k 0 switch_epoch.

End Window.

(** ** The window as a 64-bit integer *)

Definition is_window (w : list Z) : Prop :=
  length w = Z.to_nat WOLFSSL_DTLS_WINDOW_WORDS /\ Forall (is_word 32) w.

Definition window_val (w : list Z) : Z := Z.lor (rd w 0) (Z.shiftl (rd w 1) 32).

Lemma is_window_inv w : is_window w -> exists a b, w = [a; b] /\ is_word 32 a /\ is_word 32 b.
Proof.
  intros [L F]. destruct w as [| a [| b [| ? ?]]]; try discriminate L.
  inversion F as [| ? ? Ha F']; subst. inversion F'; subst. eauto.
Qed.

Lemma is_window_pair a b : is_word 32 a -> is_word 32 b -> is_window [a; b].
Proof. intros. split; [reflexivity | auto using Forall_cons_2, Forall_nil_2]. Qed.

Lemma window_testbit w i : is_window w -> 0 <= i < DTLS_SEQ_BITS ->
  Z.testbit (window_val w) i = Z.testbit (rd w (i / 32)) (i mod 32).
Proof.
  intros Hw Hi. destruct (is_window_inv w Hw) as (a & b & -> & Ha & Hb).
  change DTLS_SEQ_BITS with 64 in Hi. unfold window_val. rewrite Z.lor_spec, Z.shiftl_spec by lia.
  change (rd [a; b] 0) with a. change (rd [a; b] 1) with b. destruct (Z.lt_ge_cases i 32).
  - rewrite (Z.testbit_neg_r _ (i - 32)), orb_false_r, Z.div_small, Z.mod_small by lia. reflexivity.
  - rewrite (word_testbit_high 32 a) by (lia || assumption).
    replace (i / 32) with 1 by word_lia. replace (i mod 32) with (i - 32) by word_lia. reflexivity.
Qed.

(** Bits outside a word are clear; what is left are equal bits. *)
#[local] Ltac word_bits :=
  repeat match goal with
         | |- context [Z.testbit ?x ?i] =>
             first [ rewrite (Z.testbit_neg_r x i) by lia
                   | rewrite (word_testbit_high 32 x i) by (lia || assumption) ]
         end;
  rewrite ?orb_false_r, ?orb_true_r; try reflexivity; try (f_equal; lia); f_equal; f_equal; lia.

#[local] Ltac pair_simpl :=
  unfold window_val, rd; change (Z.to_nat 0) with 0%nat; change (Z.to_nat 1) with 1%nat; cbn.

(** Setting the bit of index [i] of the array is setting bit [i]. *)
Lemma window_set w i : is_window w -> 0 <= i < DTLS_SEQ_BITS ->
  let w' := <[Z.to_nat (i / 32) := Z.lor (rd w (i / 32)) (u32 (Z.shiftl 1 (i mod 32)))]> w in
  is_window w' /\ window_val w' = Z.lor (window_val w) (2 ^ i).
Proof.
  intros Hw Hi w'. destruct (is_window_inv w Hw) as (a & b & -> & Ha & Hb).
  change DTLS_SEQ_BITS with 64 in Hi. subst w'. destruct (Z.lt_ge_cases i 32).
  - rewrite Z.div_small, Z.mod_small by lia. pair_simpl. split.
    + apply is_window_pair; auto with wolf.
    + rewrite Z.shiftl_mul_pow2, Z.mul_1_l, wrap_small;
        [| split; [lia | apply Z.pow_lt_mono_r; lia] | lia].
      rewrite <- !Z.lor_assoc. f_equal. apply Z.lor_comm.
  - replace (i / 32) with 1 by word_lia. replace (i mod 32) with (i - 32) by word_lia. pair_simpl. split.
    + apply is_window_pair; auto with wolf.
    + rewrite (Z.shiftl_mul_pow2 1), Z.mul_1_l, wrap_small by
        ((split; [lia | apply Z.pow_lt_mono_r; lia]) || lia).
      rewrite Z.shiftl_lor, Z.lor_assoc. do 2 f_equal.
      rewrite Z.shiftl_mul_pow2, <- Z.pow_add_r by lia. f_equal. lia.
Qed.

(** [_DtlsUpdateWindowGTSeq] shifts the window left, across the word
    boundary, and marks its newest bit. *)
Lemma GTSeq_low diff a b : 0 < diff < 32 ->
  _DtlsUpdateWindowGTSeq diff [a; b]
  = [Z.lor (u32 (Z.shiftl a diff)) 1; Z.lor (Z.shiftr a (32 - diff)) (u32 (Z.shiftl b diff))].
Proof.
  intros Hd. unfold _DtlsUpdateWindowGTSeq. change DTLS_SEQ_BITS with 64. unfold DTLS_WORD_BITS.
  destruct (Z.eqb_spec diff 0), (Z.leb_spec 64 diff); try lia. cbn [orb].
  change (Z.to_nat WOLFSSL_DTLS_WINDOW_WORDS) with 2%nat.
  rewrite Z.div_small, Z.mod_small by lia. cbn [gt_loop].
  destruct (Z.ltb_spec 0 diff); [| lia]. reflexivity.
Qed.

Lemma GTSeq_high diff a b : 32 <= diff < 64 ->
  _DtlsUpdateWindowGTSeq diff [a; b] = [1; u32 (Z.shiftl a (diff - 32))].
Proof.
  intros Hd. unfold _DtlsUpdateWindowGTSeq. change DTLS_SEQ_BITS with 64. unfold DTLS_WORD_BITS.
  destruct (Z.eqb_spec diff 0), (Z.leb_spec 64 diff); try lia. cbn [orb].
  change (Z.to_nat WOLFSSL_DTLS_WINDOW_WORDS) with 2%nat.
  replace (diff / 32) with 1 by word_lia. replace (diff mod 32) with (diff - 32) by word_lia.
  reflexivity.
Qed.

Lemma GTSeq_reset diff w : diff = 0 \/ DTLS_SEQ_BITS <= diff -> _DtlsUpdateWindowGTSeq diff w = [1; 0].
Proof.
  intros Hd. unfold _DtlsUpdateWindowGTSeq.
  destruct (Z.eqb_spec diff 0), (Z.leb_spec DTLS_SEQ_BITS diff); try lia; reflexivity.
Qed.

Lemma GTSeq_val diff w : is_window w -> 0 < diff < DTLS_SEQ_BITS ->
  is_window (_DtlsUpdateWindowGTSeq diff w) /\
  window_val (_DtlsUpdateWindowGTSeq diff w) = Z.lor (u64 (Z.shiftl (window_val w) diff)) 1.
Proof.
  intros Hw Hd. destruct (is_window_inv w Hw) as (a & b & -> & Ha & Hb).
  change DTLS_SEQ_BITS with 64 in Hd. destruct (Z.lt_ge_cases diff 32).
  - rewrite GTSeq_low by lia. split.
    + apply is_window_pair; auto with wolf. apply lor_is_word; auto with wolf. unfold is_word; lia.
    + pair_simpl. change 1 with (2 ^ 0). zbits.
      all: word_bits.
  - rewrite GTSeq_high by lia. split.
    + apply is_window_pair; auto with wolf. unfold is_word; lia.
    + pair_simpl. change 1 with (2 ^ 0). zbits.
      all: word_bits.
Qed.

(** ** Refinement of the abstract window *)

Definition win_abs (next : Z) (w : list Z) : replay :=
  {| r_next := next;
     r_seen := fun s => in_window next s && Z.testbit (window_val w) (next - 1 - s) |}.

Lemma in_window_spec next s : in_window next s = true <-> next - DTLS_SEQ_BITS <= s < next.
Proof. unfold in_window. rewrite andb_true_iff, Z.leb_le, Z.ltb_lt. tauto. Qed.

#[local] Ltac window_cases :=
  repeat match goal with
         | |- context [in_window ?n ?s] =>
             let E := fresh "E" in
             destruct (in_window n s) eqn:E;
             [apply in_window_spec in E
             | assert (~ (n - DTLS_SEQ_BITS <= s < n)) by (rewrite <- in_window_spec; congruence); clear E]
         end; cbn [andb orb].

Lemma win_abs_mark next w cur : is_window w -> in_window next cur = true ->
  let i := next - 1 - cur in
  let w' := <[Z.to_nat (i / 32) := Z.lor (rd w (i / 32)) (u32 (Z.shiftl 1 (i mod 32)))]> w in
  is_window w' /\ win_abs next w' ≡ spec_update (win_abs next w) cur.
Proof.
  intros Hw Hc i w'. apply in_window_spec in Hc.
  destruct (window_set w i Hw ltac:(unfold i; lia)) as [Hw' V]. split; [exact Hw' |].
  split; cbn; [lia |]. intros s. rewrite Z.max_l by lia. window_cases; [| reflexivity].
  fold w' in V. rewrite V, Z.lor_spec, Z.pow2_bits_eqb by (unfold i; lia). f_equal.
  unfold i. destruct (Z.eqb_spec (next - 1 - cur) (next - 1 - s)), (Z.eqb_spec s cur); lia.
Qed.

Lemma win_abs_old next w cur : cur < next - DTLS_SEQ_BITS ->
  win_abs next w ≡ spec_update (win_abs next w) cur.
Proof.
  intros Hc. change DTLS_SEQ_BITS with 64 in *.
  split; cbn; [lia |]. intros s. rewrite Z.max_l by lia. window_cases; [| reflexivity].
  change DTLS_SEQ_BITS with 64 in *. destruct (Z.eqb_spec s cur); [lia | now rewrite orb_false_r].
Qed.

Lemma testbit_1 i : Z.testbit 1 i = (0 =? i).
Proof. apply (Z.pow2_bits_eqb 0). lia. Qed.

(** Moving the window forward by [d], where 0 stands for a move too large
    for a 32-bit difference. *)
Lemma win_abs_slide next w cur d : is_window w -> next <= cur ->
  d = cur - next + 1 \/ d = 0 /\ DTLS_SEQ_BITS <= cur - next + 1 ->
  is_window (_DtlsUpdateWindowGTSeq d w) /\
  win_abs (cur + 1) (_DtlsUpdateWindowGTSeq d w) ≡ spec_update (win_abs next w) cur.
Proof.
  intros Hw Hc Hd. destruct (decide (0 < d < DTLS_SEQ_BITS)) as [D | D].
  - destruct (GTSeq_val d w Hw D) as [Hw' V]. split; [exact Hw' |].
    split; cbn; [lia |]. intros s. rewrite Z.max_r, V by lia.
    rewrite Z.lor_spec, wrap_testbit, shiftl_testbit, testbit_1 by lia. change DTLS_SEQ_BITS with 64 in *.
    window_cases; try reflexivity; change DTLS_SEQ_BITS with 64 in *.
    + zbits_split; try lia. rewrite !orb_false_r. f_equal. lia.
    + zbits_split; try lia; rewrite ?orb_true_r, ?orb_false_r; try reflexivity.
      apply Z.testbit_neg_r. lia.
  - rewrite GTSeq_reset by lia. change DTLS_SEQ_BITS with 64 in *.
    split; [apply is_window_pair; unfold is_word; lia |].
    split; cbn; [lia |]. intros s. rewrite Z.max_r by lia.
    change (window_val [1; 0]) with 1. rewrite testbit_1.
    window_cases; try reflexivity; change DTLS_SEQ_BITS with 64 in *; [lia |].
    zbits_split; lia.
Qed.

Lemma next_after_val hi lo : is_word 16 hi -> is_word 32 lo -> hi * 2 ^ 32 + lo + 1 < 2 ^ 48 ->
  let '(h, l) := next_after hi lo in
  is_word 16 h /\ is_word 32 l /\ h * 2 ^ 32 + l = hi * 2 ^ 32 + lo + 1.
Proof. intros Hh Hl Hn. unfold next_after. case_match eqn:E; word_lia. Qed.

(** What a window-update routine has to establish. *)
Definition update_ok (next : Z) (w : list Z) (cur : Z) (r : Z * Z * list Z) : Prop :=
  let '(h, l, w') := r in
  is_word 16 h /\ is_word 32 l /\ is_window w' /\
  win_abs (h * 2 ^ 32 + l) w' ≡ spec_update (win_abs next w) cur.

Lemma slide_ok hi lo next w d : is_word 16 hi -> is_word 32 lo -> hi * 2 ^ 32 + lo + 1 < 2 ^ 48 ->
  is_window w -> next <= hi * 2 ^ 32 + lo ->
  d = hi * 2 ^ 32 + lo - next + 1 \/ d = 0 /\ DTLS_SEQ_BITS <= hi * 2 ^ 32 + lo - next + 1 ->
  update_ok next w (hi * 2 ^ 32 + lo) (next_after hi lo, _DtlsUpdateWindowGTSeq d w).
Proof.
  intros Hh Hl Hn Hw Hc Hd. pose proof (next_after_val hi lo Hh Hl Hn) as N.
  destruct (next_after hi lo) as [h l]. destruct N as (? & ? & E).
  destruct (win_abs_slide next w _ d Hw Hc Hd) as [Hw' A].
  repeat split; try (apply H || apply H0 || apply Hw'); rewrite E; apply A.
Qed.

Lemma mark_ok next w cur i : is_window w -> in_window next cur = true -> i = next - 1 - cur ->
  forall h l, is_word 16 h -> is_word 32 l -> h * 2 ^ 32 + l = next ->
  update_ok next w cur
    (h, l, <[Z.to_nat (i / 32) := Z.lor (rd w (i / 32)) (u32 (Z.shiftl 1 (i mod 32)))]> w).
Proof.
  intros Hw Hc -> h l Hh Hl E. destruct (win_abs_mark next w cur Hw Hc) as [Hw' A].
  split; [exact Hh |]. split; [exact Hl |]. split; [exact Hw' |]. now rewrite E.
Qed.

Lemma old_ok next w cur h l : is_window w -> cur < next - DTLS_SEQ_BITS ->
  is_word 16 h -> is_word 32 l -> h * 2 ^ 32 + l = next -> update_ok next w cur (h, l, w).
Proof.
  intros Hw Hc Hh Hl E. split; [exact Hh |]. split; [exact Hl |]. split; [exact Hw |].
  rewrite E. now apply win_abs_old.
Qed.

Lemma tail_ok cur_hi cur_lo next_hi next_lo w (curLT : bool) diff :
  is_word 16 cur_hi -> is_word 32 cur_lo -> is_word 16 next_hi -> is_word 32 next_lo ->
  is_window w -> cur_hi * 2 ^ 32 + cur_lo + 1 < 2 ^ 48 -> is_word 32 diff ->
  let cur := cur_hi * 2 ^ 32 + cur_lo in
  let next := next_hi * 2 ^ 32 + next_lo in
  (if curLT then diff = next - cur /\ 0 < diff else diff = cur - next) ->
  update_ok next w cur (update_tail cur_hi cur_lo next_hi next_lo w curLT diff).
Proof.
  intros Hch Hcl Hnh Hnl Hw Hn Hd cur next E. unfold update_tail. destruct curLT.
  - destruct E as [E P]. rewrite wrap_small by (unfold is_word in *; lia).
    unfold DTLS_WORD_BITS, WOLFSSL_DTLS_WINDOW_WORDS. destruct (Z.ltb_spec ((diff - 1) / 32) 2).
    + apply mark_ok; auto; [| lia]. apply in_window_spec. change DTLS_SEQ_BITS with 64. word_lia.
    + apply old_ok; auto. change DTLS_SEQ_BITS with 64. word_lia.
  - apply slide_ok; auto; [unfold is_word in *; lia |]. change DTLS_SEQ_BITS with 64.
    fold cur. word_lia.
Qed.

(** [wolfSSL_DtlsUpdateWindow] implements the abstract update on every branch. *)
Lemma update_window_ok cur_hi cur_lo next_hi next_lo w :
  is_word 16 cur_hi -> is_word 32 cur_lo -> is_word 16 next_hi -> is_word 32 next_lo ->
  is_window w -> cur_hi * 2 ^ 32 + cur_lo + 1 < 2 ^ 48 ->
  update_ok (next_hi * 2 ^ 32 + next_lo) w (cur_hi * 2 ^ 32 + cur_lo)
    (wolfSSL_DtlsUpdateWindow cur_hi cur_lo next_hi next_lo w).
Proof.
  intros Hch Hcl Hnh Hnl Hw Hn. unfold wolfSSL_DtlsUpdateWindow.
  change DTLS_SEQ_BITS with 64.
  repeat case_match; repeat match goal with
    | H : (_ && _) = _ |- _ => first [apply andb_true_iff in H as [? ?] | apply andb_false_iff in H]
    end; try (apply tail_ok; auto with wolf);
    try (apply old_ok; auto; [change DTLS_SEQ_BITS with 64; word_lia]);
    try (apply slide_ok; auto; change DTLS_SEQ_BITS with 64); word_lia.
Qed.

Lemma bit_clear x i : 0 <= i < 32 ->
  (Z.land x (u32 (Z.shiftl 1 i)) =? 0) = negb (Z.testbit x i).
Proof.
  intros Hi. rewrite wrap_small by
    (rewrite Z.shiftl_mul_pow2, Z.mul_1_l by lia; split; [lia | apply Z.pow_lt_mono_r; lia]).
  rewrite Z.shiftl_mul_pow2, Z.mul_1_l by lia. destruct (Z.testbit x i) eqn:E.
  - apply Z.eqb_neq. intros H. apply (f_equal (fun z => Z.testbit z i)) in H.
    rewrite Z.land_spec, E, Z.pow2_bits_true, Z.testbit_0_l in H by lia. discriminate.
  - apply Z.eqb_eq. apply Z.bits_inj'. intros j Hj.
    rewrite Z.land_spec, Z.pow2_bits_eqb, Z.testbit_0_l by lia.
    destruct (Z.eqb_spec i j); [subst; now rewrite E | apply andb_false_r].
Qed.

(** The bit test of the check, for a number [diff] below the next one. *)
Lemma check_bit next w diff : is_window w -> 0 < diff <= DTLS_SEQ_BITS ->
  (Z.land (rd w ((diff - 1) / 32)) (u32 (Z.shiftl 1 ((diff - 1) mod 32))) =? 0)
  = spec_check (win_abs next w) (next - diff).
Proof.
  intros Hw Hd. rewrite bit_clear by word_lia. rewrite <- window_testbit by (auto; lia).
  unfold spec_check, win_abs. cbn. replace (next - 1 - (next - diff)) with (diff - 1) by lia.
  assert (W : in_window next (next - diff) = true) by (apply in_window_spec; lia).
  rewrite W. destruct (Z.ltb_spec (next - diff) next); [reflexivity | lia].
Qed.

Lemma spec_check_old r cur : cur < r_next r - DTLS_SEQ_BITS -> spec_check r cur = false.
Proof.
  intros H. unfold spec_check, in_window. change DTLS_SEQ_BITS with 64 in *.
  destruct (Z.ltb_spec cur (r_next r)), (Z.leb_spec (r_next r - 64) cur); lia || reflexivity.
Qed.

Lemma spec_check_new r cur : r_next r <= cur -> spec_check r cur = true.
Proof. intros H. unfold spec_check. destruct (Z.ltb_spec cur (r_next r)); lia || reflexivity. Qed.

(** Outside the 2^32 rollover the check decides as the abstract window does. *)
Lemma check_seq_ok cur_hi cur_lo next_hi next_lo w :
  is_word 16 cur_hi -> is_word 32 cur_lo -> is_word 16 next_hi -> is_word 32 next_lo ->
  is_window w -> next_hi <> cur_hi + 1 ->
  check_seq cur_hi cur_lo next_hi next_lo w
  = spec_check (win_abs (next_hi * 2 ^ 32 + next_lo) w) (cur_hi * 2 ^ 32 + cur_lo)
    && (cur_hi <=? next_hi + 1).
Proof.
  intros Hch Hcl Hnh Hnl Hw Hne. unfold check_seq. change DTLS_SEQ_BITS with 64.
  unfold DTLS_WORD_BITS, WOLFSSL_DTLS_WINDOW_WORDS, is_word in *.
  destruct (Z.ltb_spec (next_hi + 1) cur_hi); cbn [orb].
  { destruct (Z.leb_spec cur_hi (next_hi + 1)); [lia | now rewrite andb_false_r]. }
  destruct (Z.leb_spec cur_hi (next_hi + 1)); [| lia]. rewrite andb_true_r.
  destruct (Z.ltb_spec (cur_hi + 1) next_hi).
  { symmetry. apply spec_check_old. change DTLS_SEQ_BITS with 64. cbn. lia. }
  destruct (Z.eqb_spec cur_hi next_hi) as [-> |].
  - destruct (Z.ltb_spec cur_lo next_lo); cbn [negb andb].
    + rewrite andb_true_r, (wrap_small 32) by (unfold is_word; lia).
      destruct (Z.ltb_spec 64 (next_lo - cur_lo)).
      * rewrite spec_check_old by (change DTLS_SEQ_BITS with 64; cbn; lia).
        case_match; [reflexivity |].
        destruct (Z.eqb_spec (next_lo - cur_lo) 0); [lia |].
        rewrite wrap_small by (unfold is_word; lia).
        destruct (Z.leb_spec 2 ((next_lo - cur_lo - 1) / 32)); [reflexivity | word_lia].
      * rewrite andb_false_r. destruct (Z.eqb_spec (next_lo - cur_lo) 0); [lia |].
        rewrite (wrap_small 32 (_ - 1)) by (unfold is_word; lia).
        destruct (Z.leb_spec 2 ((next_lo - cur_lo - 1) / 32)); [word_lia |].
        rewrite (check_bit (next_hi * 2 ^ 32 + next_lo)) by (auto; change DTLS_SEQ_BITS with 64; lia).
        f_equal. lia.
    + rewrite andb_false_r, spec_check_new by (cbn; lia). reflexivity.
  - destruct (Z.ltb_spec cur_hi next_hi); [lia |]. rewrite andb_false_r, spec_check_new by (cbn; lia).
    reflexivity.
Qed.

(** At the rollover the check fails the contract: with the window at
    2^32 after records 5 and 2^32 - 1, a replay of record 5 is accepted,
    and the unseen in-window record 2^32 - 2 is refused. *)
Theorem check_rollover_replay :
  let '(h1, l1, w1) := wolfSSL_DtlsUpdateWindow 0 5 0 0 [0; 0] in
  let '(h2, l2, w2) := wolfSSL_DtlsUpdateWindow 0 (2 ^ 32 - 1) h1 l1 w1 in
  h2 * 2 ^ 32 + l2 = 2 ^ 32 /\
  check_seq 0 5 h2 l2 w2 = true /\ spec_check (win_abs (2 ^ 32) w2) 5 = false /\
  check_seq 0 (2 ^ 32 - 2) h2 l2 w2 = false /\
  spec_check (win_abs (2 ^ 32) w2) (2 ^ 32 - 2) = true.
Proof. vm_compute. auto. Qed.

(** ** Refinement at the level of the connection *)

Definition cur_seq (k : DtlsKeys) : Z := curSeq_hi k * 2 ^ 32 + curSeq_lo k.
Definition peer_abs (p : PEERSEQ) : replay := win_abs (nextSeq_hi p * 2 ^ 32 + nextSeq_lo p) (window p).
Definition prev_abs (p : PEERSEQ) : replay := win_abs (prevSeq_hi p * 2 ^ 32 + prevSeq_lo p) (prevWindow p).

Record peer_ok (p : PEERSEQ) : Prop := {
  ok_hi : is_word 16 (nextSeq_hi p); ok_lo : is_word 32 (nextSeq_lo p); ok_win : is_window (window p);
  ok_phi : is_word 16 (prevSeq_hi p); ok_plo : is_word 32 (prevSeq_lo p);
  ok_pwin : is_window (prevWindow p) }.

Definition cur_ok (k : DtlsKeys) : Prop := is_word 16 (curSeq_hi k) /\ is_word 32 (curSeq_lo k).

Lemma DtlsCheckWindow_cases k i p : peer_slot k = Some i -> peerSeq k !! i = Some p ->
  _DtlsCheckWindow k =
  if curEpoch k =? nextEpoch p then
    check_seq (curSeq_hi k) (curSeq_lo k) (nextSeq_hi p) (nextSeq_lo p) (window p)
  else if curEpoch k =? nextEpoch p - 1 then
    check_seq (curSeq_hi k) (curSeq_lo k) (prevSeq_hi p) (prevSeq_lo p) (prevWindow p)
  else false.
Proof. intros S P. unfold _DtlsCheckWindow. rewrite S. cbn. now rewrite P. Qed.

Lemma set_peer_lookup k i f : peerSeq (set_peer k i f) !! i = f <$> peerSeq k !! i.
Proof. destruct k. apply list_lookup_alter_eq. Qed.

(** [update_peer] changes one of the two windows, as the contract says, and
    leaves the epoch and the other window alone. *)
Lemma update_peer_ok k p : cur_ok k -> cur_seq k + 1 < 2 ^ 48 -> peer_ok p ->
  let p' := update_peer k p in
  peer_ok p' /\ nextEpoch p' = nextEpoch p /\
  if curEpoch k =? nextEpoch p
  then peer_abs p' ≡ spec_update (peer_abs p) (cur_seq k) /\ prev_abs p' = prev_abs p
  else prev_abs p' ≡ spec_update (prev_abs p) (cur_seq k) /\ peer_abs p' = peer_abs p.
Proof.
  intros [Ch Cl] Hn [? ? ? ? ? ?]. unfold update_peer. destruct (Z.eqb_spec (curEpoch k) (nextEpoch p)).
  - pose proof (update_window_ok (curSeq_hi k) (curSeq_lo k) (nextSeq_hi p) (nextSeq_lo p) (window p)) as U.
    destruct (wolfSSL_DtlsUpdateWindow _ _ _ _ _) as [[h l] w]. destruct U as (? & ? & ? & A); auto.
    destruct p. split; [split; cbn in *; assumption |]. split; [reflexivity |]. split; [exact A | reflexivity].
  - pose proof (update_window_ok (curSeq_hi k) (curSeq_lo k) (prevSeq_hi p) (prevSeq_lo p) (prevWindow p)) as U.
    destruct (wolfSSL_DtlsUpdateWindow _ _ _ _ _) as [[h l] w]. destruct U as (? & ? & ? & A); auto.
    destruct p. split; [split; cbn in *; assumption |]. split; [reflexivity |]. split; [exact A | reflexivity].
Qed.

(** The receive path of the DTLS 1.2 window refines the abstract replay
    window, per epoch: [_DtlsCheckWindow] answers as the contract does on the
    window of the record's epoch (outside the 2^32 rollover) and refuses any
    epoch but the current and the previous one; [DtlsUpdateWindow] returns 1
    and performs exactly the contract's update on that epoch's window,
    leaving the other window and the epoch untouched. *)
Theorem DtlsWindow_refines k p :
  haveMcast k = false -> peerSeq k !! 0%nat = Some p -> peer_ok p -> cur_ok k ->
  cur_seq k + 1 < 2 ^ 48 ->
  let p' := update_peer k p in
  let '(r, k') := DtlsUpdateWindow None k in
  r = 1 /\ peerSeq k' !! 0%nat = Some p' /\ peer_ok p' /\ nextEpoch p' = nextEpoch p /\
  (curEpoch k = nextEpoch p ->
     peer_abs p' ≡ spec_update (peer_abs p) (cur_seq k) /\ prev_abs p' = prev_abs p /\
     (nextSeq_hi p <> curSeq_hi k + 1 ->
      _DtlsCheckWindow k = spec_check (peer_abs p) (cur_seq k) && (curSeq_hi k <=? nextSeq_hi p + 1))) /\
  (curEpoch k = nextEpoch p - 1 ->
     prev_abs p' ≡ spec_update (prev_abs p) (cur_seq k) /\ peer_abs p' = peer_abs p /\
     (prevSeq_hi p <> curSeq_hi k + 1 ->
      _DtlsCheckWindow k = spec_check (prev_abs p) (cur_seq k) && (curSeq_hi k <=? prevSeq_hi p + 1))) /\
  (curEpoch k <> nextEpoch p -> curEpoch k <> nextEpoch p - 1 -> _DtlsCheckWindow k = false).
Proof.
  intros Hm Hp Ok Hc Hn p'. pose proof (update_peer_ok k p Hc Hn Ok) as (Ok' & E & U).
  unfold DtlsUpdateWindow. assert (S : peer_slot k = Some 0%nat) by (unfold peer_slot; now rewrite Hm).
  rewrite (DtlsCheckWindow_cases k 0 p S Hp). rewrite S, Hm. cbn [andb].
  destruct Hc, Ok. fold p' in U, E, Ok'. split; [reflexivity |].
  split; [rewrite set_peer_lookup, Hp; reflexivity |]. split; [exact Ok' |]. split; [exact E |].
  destruct (Z.eqb_spec (curEpoch k) (nextEpoch p)); destruct U as [U1 U2].
  - split; [| split; intros; exfalso; [lia | contradiction]]. intros _.
    split; [exact U1 |]. split; [exact U2 |]. intros. now apply check_seq_ok.
  - split; [contradiction |].
    destruct (Z.eqb_spec (curEpoch k) (nextEpoch p - 1)); split; try reflexivity; try contradiction.
    intros _. split; [exact U1 |]. split; [exact U2 |]. intros. now apply check_seq_ok.
Qed.

Lemma DtlsWindow_refines_witness :
  let p := mkPeerSeq [1; 0] 1 0 9 [0; 0] 0 0 0 0 in
  let k := mkDtlsKeys false 0 0 0 1 0 7 0 [p] in
  _DtlsCheckWindow k = true /\ peer_abs (update_peer k p) ≡ spec_update (peer_abs p) 7.
Proof.
  split; [reflexivity |].
  pose proof (DtlsWindow_refines (mkDtlsKeys false 0 0 0 1 0 7 0 [mkPeerSeq [1; 0] 1 0 9 [0; 0] 0 0 0 0])
    (mkPeerSeq [1; 0] 1 0 9 [0; 0] 0 0 0 0) eq_refl eq_refl) as T.
  destruct T as (_ & _ & _ & _ & T & _);
    [split; try apply is_window_pair; vm_compute; split; congruence
    | split; vm_compute; split; congruence | vm_compute; reflexivity |].
  apply T. reflexivity.
Defined.

(** ** The record layer: no record is delivered twice *)

(** What can happen at the record layer of one (unicast) connection: a
    record arrives, and passes or fails authentication, or the peer's
    ChangeCipherSpec switches the epoch. *)
Inductive event :=
| EvRecord (epoch hi lo : Z) (auth : bool)
| EvCCS.

(** A record is delivered when its number passes [_DtlsCheckWindow]
    ([GetRecordHeader]) and it authenticates; then the window is updated. *)
Definition record_step (k : DtlsKeys) (e : event) : DtlsKeys * list (Z * Z) :=
  match e with
  | EvRecord epoch hi lo auth =>
      let k := { { { k with curEpoch := epoch } with curSeq_hi := hi } with curSeq_lo := lo } in
      if _DtlsCheckWindow k && auth
      then ((DtlsUpdateWindow None k).2, [(epoch, hi * 2 ^ 32 + lo)])
      else (k, [])
  | EvCCS => (ccs_switch_epoch k, [])
  end.

Fixpoint record_run (k : DtlsKeys) (l : list event) : DtlsKeys * list (Z * Z) :=
  match l with
  | [] => (k, [])
  | e :: l =>
      let '(k, d) := record_step k e in
      let '(k, d') := record_run k l in (k, d ++ d')
  end.

(** Numbers before the rollover of the low half. *)
Definition event_ok (e : event) : Prop :=
  match e with
  | EvRecord epoch hi lo _ => is_word 16 epoch /\ hi = 0 /\ is_word 32 (lo + 1) /\ 0 <= lo
  | EvCCS => True
  end.

(** The invariant: windows below the rollover that together remember
    everything delivered so far. *)
Definition low (p : PEERSEQ) : Prop := nextSeq_hi p = 0 /\ prevSeq_hi p = 0.

Definition of_epoch (e : Z) (l : list (Z * Z)) : list Z := snd <$> filter (fun x => x.1 = e) l.

Record history (p : PEERSEQ) (l : list (Z * Z)) : Prop := {
  hist_nodup : NoDup l;
  hist_epoch x : x ∈ l -> x.1 <= nextEpoch p;
  hist_cur : remembers (peer_abs p) (of_epoch (nextEpoch p) l);
  hist_prev : remembers (prev_abs p) (of_epoch (nextEpoch p - 1) l) }.

Lemma of_epoch_spec e l s : s ∈ of_epoch e l <-> (e, s) ∈ l.
Proof.
  unfold of_epoch. rewrite list_elem_of_fmap. split.
  - intros ([e' s'] & -> & H). apply list_elem_of_filter in H as [<- H]. exact H.
  - intros H. exists (e, s). split; [reflexivity |]. apply list_elem_of_filter. auto.
Qed.

Lemma of_epoch_cons_eq e s l : of_epoch e ((e, s) :: l) = s :: of_epoch e l.
Proof. unfold of_epoch. rewrite filter_cons_True by reflexivity. reflexivity. Qed.

Lemma of_epoch_cons_ne e e' s l : e <> e' -> of_epoch e ((e', s) :: l) = of_epoch e l.
Proof. intros H. unfold of_epoch. rewrite filter_cons_False by (cbn; congruence). reflexivity. Qed.

(** A window whose abstraction stays below the rollover has a zero high half. *)
Lemma low_abs p : peer_ok p ->
  low p <-> r_next (peer_abs p) < 2 ^ 32 /\ r_next (prev_abs p) < 2 ^ 32.
Proof. intros [? ? _ ? ? _]. unfold low, is_word in *. cbn. lia. Qed.

Definition keys_ok (k : DtlsKeys) (p : PEERSEQ) : Prop :=
  haveMcast k = false /\ peerSeq k !! 0%nat = Some p /\ peer_ok p /\ low p.

(** Delivery of a fresh record extends the history. *)
Lemma history_deliver k p l :
  peer_ok p -> low p -> cur_ok k -> curSeq_hi k = 0 -> curSeq_lo k + 1 < 2 ^ 32 ->
  history p l ->
  (if curEpoch k =? nextEpoch p then spec_check (peer_abs p) (cur_seq k) = true
   else curEpoch k = nextEpoch p - 1 /\ spec_check (prev_abs p) (cur_seq k) = true) ->
  let p' := update_peer k p in
  peer_ok p' /\ low p' /\ nextEpoch p' = nextEpoch p /\
  history p' ((curEpoch k, cur_seq k) :: l).
Proof.
  intros Ok Lo Hc Hh Hl [Nd He Hcur Hprev] Hfresh p'.
  pose proof (update_peer_ok k p Hc ltac:(unfold cur_seq; lia) Ok) as (Ok' & E & U). fold p' in Ok', E, U.
  assert (B : cur_seq k + 1 < 2 ^ 32) by (unfold cur_seq; lia).
  apply (low_abs p Ok) in Lo as [Lc Lp]. rewrite (low_abs p' Ok'), E. split; [exact Ok' |].
  destruct (Z.eqb_spec (curEpoch k) (nextEpoch p)) as [Ee | Ee].
  - destruct U as [U1 U2]. rewrite (proj1 U1), U2. cbn [r_next spec_update].
    split; [lia |]. split; [reflexivity |]. split.
    + constructor; [| exact Nd]. intros Hin.
      apply (remembers_not_fresh _ _ _ Hcur Hfresh), of_epoch_spec. now rewrite <- Ee.
    + intros x Hx. rewrite E. apply elem_of_cons in Hx as [-> | Hx]; [cbn; lia | now apply He].
    + rewrite E, <- Ee, of_epoch_cons_eq, U1, Ee. now apply remembers_update.
    + rewrite E, of_epoch_cons_ne, U2 by lia. exact Hprev.
  - destruct U as [U1 U2], Hfresh as [Ep Hfresh]. rewrite (proj1 U1), U2. cbn [r_next spec_update].
    split; [lia |]. split; [reflexivity |]. split.
    + constructor; [| exact Nd]. intros Hin.
      apply (remembers_not_fresh _ _ _ Hprev Hfresh), of_epoch_spec. now rewrite <- Ep.
    + intros x Hx. rewrite E. apply elem_of_cons in Hx as [-> | Hx]; [cbn; lia | now apply He].
    + rewrite E, of_epoch_cons_ne, U2 by lia. exact Hcur.
    + rewrite E, <- Ep, of_epoch_cons_eq, U1, Ep. now apply remembers_update.
Qed.

Lemma history_switch p l : 0 <= nextEpoch p < 2 ^ 16 - 1 -> peer_ok p -> low p -> history p l ->
  peer_ok (switch_epoch p) /\ low (switch_epoch p) /\
  nextEpoch (switch_epoch p) = nextEpoch p + 1 /\ history (switch_epoch p) l.
Proof.
  intros Hn [? ? ? ? ? ?] [Lh Lp] [Nd He Hcur Hprev]. destruct p as [w ne nh nl pw pl ph id hm].
  assert (E : u16 (ne + 1) = ne + 1) by (apply wrap_small; unfold is_word; cbn in *; lia).
  split; [split; cbn in *; try assumption; try (unfold is_word; lia);
          apply is_window_pair; unfold is_word; lia |].
  split; [split; cbn in *; auto |]. split; [exact E |]. cbn in He, Hcur, Hprev.
  split; [exact Nd | | |].
  - intros x Hx. apply He in Hx. unfold switch_epoch. cbn. rewrite E. lia.
  - intros s Hs. apply of_epoch_spec, He in Hs. unfold switch_epoch in Hs. cbn in Hs. lia.
  - unfold switch_epoch. cbn. rewrite E. replace (ne + 1 - 1) with ne by lia. exact Hcur.
Qed.

Definition is_ccs (e : event) : bool := match e with EvCCS => true | _ => false end.

Fixpoint ccs_count (es : list event) : Z :=
  match es with [] => 0 | e :: es => c_bool (is_ccs e) + ccs_count es end.

Lemma ccs_count_nonneg es : 0 <= ccs_count es.
Proof. induction es as [| [|]]; cbn; lia. Qed.

Lemma record_step_ok k p l e :
  keys_ok k p -> event_ok e -> 0 <= nextEpoch p -> nextEpoch p + c_bool (is_ccs e) < 2 ^ 16 -> history p l ->
  exists p', keys_ok (record_step k e).1 p' /\
    nextEpoch p' = nextEpoch p + c_bool (is_ccs e) /\
    history p' (rev (record_step k e).2 ++ l).
Proof.
  intros (Hm & Hp & Ok & Lo) He H0 Hn Hh. destruct e as [epoch hi lo auth |]; cbn [record_step is_ccs c_bool].
  - destruct He as (We & -> & Wl & Pl).
    set (k1 := { { { k with curEpoch := epoch } with curSeq_hi := 0 } with curSeq_lo := lo }).
    assert (Em : haveMcast k1 = false /\ peerSeq k1 !! 0%nat = Some p) by (destruct k; auto).
    destruct Em as [Hm1 Hp1].
    assert (Ec : curEpoch k1 = epoch /\ curSeq_hi k1 = 0 /\ curSeq_lo k1 = lo) by (destruct k; auto).
    destruct Ec as (Ee & Eh & El). change (0 * 2 ^ 32 + lo) with lo. clearbody k1.
    assert (S : peer_slot k1 = Some 0%nat) by (unfold peer_slot; now rewrite Hm1).
    destruct (_DtlsCheckWindow k1 && auth) eqn:C; cbn [fst snd rev app].
    2: { exists p. split; [split; auto |]. split; [lia | exact Hh]. }
    apply andb_true_iff in C as [C _]. rewrite (DtlsCheckWindow_cases k1 0 p S Hp1) in C.
    unfold is_word in Wl. assert (Hc : cur_ok k1) by (split; rewrite ?Eh, ?El; unfold is_word; lia).
    assert (F : if curEpoch k1 =? nextEpoch p then spec_check (peer_abs p) (cur_seq k1) = true
                else curEpoch k1 = nextEpoch p - 1 /\ spec_check (prev_abs p) (cur_seq k1) = true).
    { destruct Ok, Lo as [Lc Lp], Hc. destruct (Z.eqb_spec (curEpoch k1) (nextEpoch p)).
      - rewrite check_seq_ok in C by (auto; lia). now apply andb_true_iff in C.
      - destruct (Z.eqb_spec (curEpoch k1) (nextEpoch p - 1)); [| discriminate].
        rewrite check_seq_ok in C by (auto; lia). now apply andb_true_iff in C. }
    destruct (history_deliver k1 p l Ok Lo Hc Eh ltac:(lia) Hh F) as (Ok' & Lo' & E' & H').
    exists (update_peer k1 p). split; [| split; [lia |]].
    + split; [| split; [| auto]]; unfold DtlsUpdateWindow; rewrite S, Hm1; cbn [andb snd].
      * destruct k1; exact Hm1.
      * now rewrite set_peer_lookup, Hp1.
    + unfold cur_seq in H'. rewrite Ee, Eh, El in H'. exact H'.
  - destruct (history_switch p l ltac:(cbn in Hn; lia) Ok Lo Hh) as (Ok' & Lo' & E' & H').
    exists (switch_epoch p). split; [| split; [lia | exact H']].
    unfold ccs_switch_epoch. rewrite Hm. split; [destruct k; exact Hm |].
    split; [cbn [fst]; now rewrite set_peer_lookup, Hp | auto].
Qed.

Lemma record_run_ok es : forall k p l,
  keys_ok k p -> Forall event_ok es -> 0 <= nextEpoch p -> nextEpoch p + ccs_count es < 2 ^ 16 ->
  history p l -> exists p', history p' (rev (record_run k es).2 ++ l).
Proof.
  induction es as [| e es IH]; intros k p l Hk He H0 Hn Hh; cbn [record_run].
  - now exists p.
  - inversion He as [| ? ? He1 He2]; subst. cbn [ccs_count] in Hn.
    pose proof (ccs_count_nonneg es).
    destruct (record_step_ok k p l e Hk He1 H0 ltac:(lia) Hh) as (p' & Hk' & Hn' & Hh').
    destruct (record_step k e) as [k' d]. cbn [fst snd] in *.
    destruct (IH k' p' _ Hk' He2 ltac:(unfold c_bool in Hn'; case_match; lia) ltac:(lia) Hh') as [p'' H''].
    destruct (record_run k' es) as [k'' d']. cbn [snd] in *.
    exists p''. now rewrite rev_app_distr, <- app_assoc.
Qed.

(** A connection's state before the first record. *)
Definition fresh_keys : DtlsKeys :=
  mkDtlsKeys false 0 0 0 0 0 0 0 [mkPeerSeq [0; 0] 0 0 0 [0; 0] 0 0 0 0].

(** [C4] Anti-replay: from a fresh connection, whatever records arrive in
    whatever order, with replays, forged records and ChangeCipherSpec epoch
    switches interleaved, no (epoch, sequence number) pair is delivered
    twice, as long as the sequence numbers stay below 2^32 - 1 and the epoch
    counter does not wrap. *)
Theorem no_replay_delivered es :
  Forall event_ok es -> ccs_count es < 2 ^ 16 -> NoDup (record_run fresh_keys es).2.
Proof.
  intros He Hn.
  destruct (record_run_ok es fresh_keys (mkPeerSeq [0; 0] 0 0 0 [0; 0] 0 0 0 0) []) as [p H]; auto.
  - split; [reflexivity |]. split; [reflexivity |].
    split; split; try reflexivity; try apply is_window_pair; unfold is_word; cbn; lia.
  - cbn. lia.
  - split; [constructor | | |]; intros ? H; inversion H.
  - destruct H as [H _ _ _]. rewrite app_nil_r in H.
    now rewrite (Permutation_rev (record_run fresh_keys es).2).
Qed.

Lemma no_replay_delivered_witness :
  let es := [EvRecord 0 0 1 true; EvRecord 0 0 0 true; EvRecord 0 0 1 true; EvCCS;
             EvRecord 1 0 0 true; EvRecord 0 0 2 true; EvRecord 0 0 0 true] in
  (record_run fresh_keys es).2 = [(0, 1); (0, 0); (1, 0); (0, 2)] /\
  NoDup (record_run fresh_keys es).2.
Proof.
  split; [reflexivity |]. apply no_replay_delivered; [| vm_compute; reflexivity].
  repeat apply Forall_cons_2; try apply Forall_nil_2; vm_compute; repeat split; congruence.
Defined.
