(* ===== verification/Dtls13Epoch.v ===== *)
(** * src/dtls13.c, src/internal.c: DTLS 1.3 epochs, record numbers and window

    A DTLS 1.3 connection keeps [DTLS13_EPOCH_SIZE] epoch slots, each with its
    keys, send counter, receive window and next expected record number;
    [ssl->dtls13EncryptEpoch] and [ssl->dtls13DecryptEpoch] point into that
    array.  The pointers are modelled as slot indices, so an update through
    one is seen through the other, and an evicted slot is a dangling index.

    Everything is written over the interface [W64] of [w64wrapper], so the
    theorems hold for the native 64-bit build and for the two-word build. *)

From S2P Require Import Prelude Misc W64 DtlsWindow Tls.

#[local] Open Scope Z_scope.

Definition DTLS13_EPOCH_SIZE : nat := 4.
Definition EE_MASK : Z := 3.

(** The traffic keys copied between [Keys] and [Dtls13Epoch]. *)
Record KeyMaterial := mkKeys {
  client_write_key : list Z; client_write_IV : list Z; client_sn_key : list Z;
  server_write_key : list Z; server_write_IV : list Z; server_sn_key : list Z;
  aead_enc_imp_IV : list Z; aead_dec_imp_IV : list Z }.

(** The part of a received unified header used to rebuild its number. *)
Record Dtls13UnifiedHdrInfo := mkHdrInfo {
  recordLength : Z; seqLo : Z; seqHi : Z; seqHiPresent : bool; epochBits : Z }.

Section Epochs.
Context {T : Type} `{W64 T}.
#[local] Open Scope cword_scope.

Record Dtls13Epoch := mkEpoch {
  epochNumber : T; nextSeqNumber : T; nextPeerSeqNumber : T; dropCount : T;
  ewindow : list Z; ekeys : KeyMaterial; isValid : bool; eside : Z }.

Record Dtls13 := mkDtls13 {
  side : Z; handShakeDone : bool;
  dtls13Epochs : list Dtls13Epoch;
  dtls13EncryptEpoch : option nat; dtls13DecryptEpoch : option nat;
  dtls13Epoch : T; dtls13PeerEpoch : T;
  curEpoch64 : T; curSeq : T; keys : KeyMaterial }.

(** [ForceZero(e, sizeof( *e))]: every field of the slot is cleared. *)
Definition wipe (l : list Z) : list Z := replicate (length l) 0.

Definition wipe_epoch (e : Dtls13Epoch) : Dtls13Epoch :=
  let k := ekeys e in
  mkEpoch w64Zero w64Zero w64Zero w64Zero (wipe (ewindow e))
    (mkKeys (wipe (client_write_key k)) (wipe (client_write_IV k)) (wipe (client_sn_key k))
            (wipe (server_write_key k)) (wipe (server_write_IV k)) (wipe (server_sn_key k))
            (wipe (aead_enc_imp_IV k)) (wipe (aead_dec_imp_IV k))) false 0.

Definition set_epoch (s : Dtls13) (i : nat) (f : Dtls13Epoch -> Dtls13Epoch) : Dtls13 :=
  { s with dtls13Epochs := alter f i (dtls13Epochs s) }.

Fixpoint find_epoch (n : T) (l : list Dtls13Epoch) : option nat :=
  match l with
  | [] => None
  | e :: l => if w64Equal (epochNumber e) n && isValid e then Some O else S <$> find_epoch n l
  end.

Definition Dtls13GetEpoch (s : Dtls13) (n : T) : option nat := find_epoch n (dtls13Epochs s).

Definition older_side (n : T) (sd : Z) (e : Dtls13Epoch) : Dtls13Epoch :=
  if isValid e && w64LT (epochNumber e) n then { e with eside := u8 sd } else e.

Definition Dtls13SetOlderEpochSide (s : Dtls13) (n : T) (sd : Z) : Dtls13 :=
  { s with dtls13Epochs := older_side n sd <$> dtls13Epochs s }.

(** The switch that opens [Dtls13EpochCopyKeys] and [Dtls13SetEpochKeys]:
    (clientWrite, serverWrite, enc, dec). *)
Definition side_flags (s : Dtls13) (sd : Z) : bool * bool * bool * bool :=
  let client := side s =? WOLFSSL_CLIENT_END in
  let server := side s =? WOLFSSL_SERVER_END in
  if sd =? ENCRYPT_SIDE_ONLY then (client, server, true, false)
  else if sd =? DECRYPT_SIDE_ONLY then (server, client, false, true)
  else if sd =? ENCRYPT_AND_DECRYPT_SIDE then (true, true, true, true)
  else (false, false, false, false).

Definition copy_keys (fl : bool * bool * bool * bool) (dst src : KeyMaterial) : KeyMaterial :=
  let '(cw, sw, enc, dec) := fl in
  {| client_write_key := if cw then client_write_key src else client_write_key dst;
     client_write_IV := if cw then client_write_IV src else client_write_IV dst;
     client_sn_key := if cw then client_sn_key src else client_sn_key dst;
     server_write_key := if sw then server_write_key src else server_write_key dst;
     server_write_IV := if sw then server_write_IV src else server_write_IV dst;
     server_sn_key := if sw then server_sn_key src else server_sn_key dst;
     aead_enc_imp_IV := if enc then aead_enc_imp_IV src else aead_enc_imp_IV dst;
     aead_dec_imp_IV := if dec then aead_dec_imp_IV src else aead_dec_imp_IV dst |}.

Definition Dtls13EpochCopyKeys (s : Dtls13) (e : Dtls13Epoch) (sd : Z) : Dtls13Epoch :=
  { e with ekeys := copy_keys (side_flags s sd) (ekeys e) (keys s) }.

(** [Dtls13GetSeq]: the pair written to [seq] and the state after the
    increment. *)
Definition Dtls13GetSeq (s : Dtls13) (order : Z) (increment : bool) : Z * option (Z * Z) * Dtls13 :=
  if order =? PEER_ORDER then
    (0, Some (w64GetHigh32 (curSeq s), w64GetLow32 (curSeq s)), s)
  else if order =? CUR_ORDER then
    match dtls13EncryptEpoch s with
    | None => (BAD_STATE_E, None, s)
    | Some i =>
        match dtls13Epochs s !! i with
        | None => (BAD_STATE_E, None, s)
        | Some e =>
            let q := nextSeqNumber e in
            let out := Some (w64GetHigh32 q, w64GetLow32 q) in
            if increment then
              let q := w64Increment q in
              let s := set_epoch s i (fun e => { e with nextSeqNumber := q }) in
              (if w64IsZero q then BAD_STATE_E else 0, out, s)
            else (0, out, s)
        end
    end
  else (BAD_FUNC_ARG, None, s).

(** The scan of [Dtls13NewEpochSlot]: the first invalid slot, or the valid
    one with the least evictable number. *)
Fixpoint scan_slots (s : Dtls13) (prevPeer : T) (l : list Dtls13Epoch) (i : nat)
    (oldest : option nat) (oldestNumber : T) : nat + option nat :=
  match l with
  | [] => inr oldest
  | e :: l =>
      if negb (isValid e) then inl i
      else if negb (w64Equal (epochNumber e) (dtls13Epoch s)) &&
              negb (w64Equal (epochNumber e) (dtls13PeerEpoch s)) &&
              negb (w64Equal (epochNumber e) prevPeer) &&
              w64LT (epochNumber e) oldestNumber
      then scan_slots s prevPeer l (S i) (Some i) (epochNumber e)
      else scan_slots s prevPeer l (S i) oldest oldestNumber
  end.

Definition prev_peer_epoch (s : Dtls13) : T :=
  if negb (w64IsZero (dtls13PeerEpoch s)) then w64Decrement (dtls13PeerEpoch s)
  else dtls13PeerEpoch s.

Definition Dtls13NewEpochSlot (s : Dtls13) : option nat * Dtls13 :=
  match scan_slots s (prev_peer_epoch s) (dtls13Epochs s) 0 None
          (w64From32 0xFFFFFFFF 0xFFFFFFFF) with
  | inl i => (Some i, s)
  | inr None => (None, s)
  | inr (Some i) =>
      let s := if bool_decide (dtls13DecryptEpoch s = Some i)
               then { s with dtls13DecryptEpoch := None } else s in
      (Some i, set_epoch s i wipe_epoch)
  end.

Definition init_slot (s : Dtls13) (n : T) (sd : Z) (e : Dtls13Epoch) : Dtls13Epoch :=
  let e := Dtls13EpochCopyKeys s e sd in
  if negb (isValid e) then
    let e := { e with epochNumber := n } in
    let e := { e with isValid := true } in
    { e with eside := u8 sd }
  else if negb (eside e =? sd) then { e with eside := ENCRYPT_AND_DECRYPT_SIDE } else e.

Definition Dtls13NewEpoch (s : Dtls13) (n : T) (sd : Z) : Z * Dtls13 :=
  let '(slot, s) := match Dtls13GetEpoch s n with
                    | Some i => (Some i, s)
                    | None => Dtls13NewEpochSlot s
                    end in
  match slot with
  | None => (BAD_STATE_E, s)
  | Some i =>
      let s := set_epoch s i (init_slot s n sd) in
      let sd' := default 0 (eside <$> dtls13Epochs s !! i) in
      if handShakeDone s && ((sd' =? ENCRYPT_AND_DECRYPT_SIDE) || (sd' =? DECRYPT_SIDE_ONLY))
      then (0, Dtls13SetOlderEpochSide s (w64Decrement n) ENCRYPT_SIDE_ONLY)
      else (0, s)
  end.

(** [SetKeysSide] (src/keys.c) installs the keys in the cipher objects; its
    return code is the parameter [setKeysSide]. *)
Definition Dtls13SetEpochKeys (setKeysSide : KeyMaterial -> Z -> Z) (s : Dtls13) (n : T) (sd : Z)
    : Z * Dtls13 :=
  let fl := side_flags s sd in
  let '(_, _, enc, dec) := fl in
  match Dtls13GetEpoch s n with
  | None => (BAD_STATE_E, s)
  | Some i =>
      match dtls13Epochs s !! i with
      | None => (BAD_STATE_E, s)
      | Some e =>
          if negb (eside e =? ENCRYPT_AND_DECRYPT_SIDE) && negb (eside e =? sd)
          then (BAD_STATE_E, s)
          else
            let s := if enc then { s with dtls13EncryptEpoch := Some i } else s in
            let s := if dec then { s with dtls13DecryptEpoch := Some i } else s in
            if w64IsZero n then (0, s)
            else
              let s := { s with keys := copy_keys fl (keys s) (ekeys e) } in
              (setKeysSide (keys s) sd, s)
      end
  end.

(** ** Receive window *)

Definition Dtls13CheckWindow (s : Dtls13) : bool :=
  match dtls13DecryptEpoch s ≫= (dtls13Epochs s !!.) with
  | None => false
  | Some e =>
      let nextSeq := nextPeerSeqNumber e in
      let seq := curSeq s in
      if w64GTE seq nextSeq then true
      else
        let diff64 := w64Sub nextSeq seq in
        if w64GT diff64 (w64From32 0 DTLS_SEQ_BITS) then false
        else
          let diff := w64GetLow32 diff64 in
          let diff := diff -u32 1 in
          let wordIndex := diff / DTLS_WORD_BITS in
          let wordOffset := diff mod DTLS_WORD_BITS in
          Z.land (rd (ewindow e) wordIndex) (1 <<u32 wordOffset) =? 0
  end.

(** The update of one epoch; [None] is the [BAD_STATE_E] return. *)
Definition update_epoch_window (seq : T) (e : Dtls13Epoch) : option Dtls13Epoch :=
  let nextSeq := nextPeerSeqNumber e in
  let window := ewindow e in
  if w64LT seq nextSeq then
    let diff64 := w64Decrement (w64Sub nextSeq seq) in
    if negb (w64GetHigh32 diff64 =? 0) then None
    else
      let diff := w64GetLow32 diff64 in
      if WOLFSSL_DTLS_WINDOW_WORDS * DTLS_WORD_BITS <=? diff then None
      else
        let wordIndex := diff / DTLS_WORD_BITS in
        let wordOffset := diff mod DTLS_WORD_BITS in
        Some { e with ewindow :=
          <[Z.to_nat wordIndex := Z.lor (rd window wordIndex) (1 <<u32 wordOffset)]> window }
  else
    let diff64 := w64Increment (w64Sub seq nextSeq) in
    if negb (w64GetHigh32 diff64 =? 0) then None
    else
      let e := { e with ewindow := _DtlsUpdateWindowGTSeq (w64GetLow32 diff64) window } in
      Some { e with nextPeerSeqNumber := w64Increment seq }.

Definition Dtls13UpdateWindow (s : Dtls13) : Z * Dtls13 :=
  match dtls13DecryptEpoch s with
  | None => (BAD_STATE_E, s)
  | Some d =>
      let target :=
        match dtls13Epochs s !! d with
        | Some e => if negb (w64Equal (curEpoch64 s) (epochNumber e))
                    then Dtls13GetEpoch s (curEpoch64 s) else Some d
        | None => None
        end in
      match target ≫= (fun i => e ← dtls13Epochs s !! i; Some (i, e)) with
      | None => (BAD_STATE_E, s)
      | Some (i, e) =>
          match update_epoch_window (curSeq s) e with
          | None => (BAD_STATE_E, s)
          | Some e' => (0, set_epoch s i (fun _ => e'))
          end
      end
  end.

(** ** One record *)

(** The end of [GetDtls13RecordHeader]'s and [GetDtlsRecordHeader]'s work on the
    epoch [n] of a record: its keys become the decryption keys. *)
Definition select_epoch (setKeysSide : KeyMaterial -> Z -> Z) (s : Dtls13) (n : T) : Z * Dtls13 :=
  let other := match dtls13DecryptEpoch s ≫= (dtls13Epochs s !!.) with
               | None => true
               | Some e => negb (w64Equal (epochNumber e) n)
               end in
  if other then
    let '(ret, s) := Dtls13SetEpochKeys setKeysSide s n DECRYPT_SIDE_ONLY in
    (if negb (ret =? 0) then SEQUENCE_ERROR else 0, s)
  else (0, s).

(** [Dtls13UpdateWindowRecordRecvd]; [recvd]: what [Dtls13RecordRecvd] (Dtls13Ack.v) returns. *)
Definition Dtls13UpdateWindowRecordRecvd (recvd : Z) (s : Dtls13) : Z * Dtls13 :=
  let '(ret, s) := Dtls13UpdateWindow s in
  if negb (ret =? 0) then (ret, s) else (recvd, s).

(** The case [runProcessingOneRecord] of [DoProcessReply] for DTLS 1.3 up to the
    content: only a stateful connection updates the window.  Stepping over a
    dropped record in the input buffer and the peer's new address are left out. *)
Inductive verdict := Dropped | Failed (ret : Z) | Processed.

Definition run_processing_one_record (dtlsStateful : bool) (recvd : Z) (s : Dtls13) : verdict * Dtls13 :=
  if negb (Dtls13CheckWindow s) then (Dropped, s)
  else if dtlsStateful then
    let '(ret, s) := Dtls13UpdateWindowRecordRecvd recvd s in
    (if negb (ret =? 0) then Failed ret else Processed, s)
  else (Processed, s).

(** ** Reconstruction of truncated epochs and sequence numbers *)

Definition Dtls13GetEpochBits (n : T) : Z := Z.land (w64GetLow32 n) EE_MASK.

Definition Dtls13ReconstructSeqNumber (s : Dtls13) (hdr : Dtls13UnifiedHdrInfo) : option T :=
  match dtls13DecryptEpoch s ≫= (dtls13Epochs s !!.) with
  | None => None
  | Some e =>
      let '(seqLowBits, mask, shift) :=
        if seqHiPresent hdr then (u16 (Z.lor (Z.shiftl (seqHi hdr) 8) (seqLo hdr)), 0xffff, 2 ^ 16)
        else (seqLo hdr, 0xff, 2 ^ 8) in
      let out32 := w64GetLow32 (nextPeerSeqNumber e) in
      let expectedLowBits := u16 (Z.land out32 mask) in
      let out32 := Z.lor (Z.land out32 (cnot 32 mask)) seqLowBits in
      let out := w64SetLow32 (nextPeerSeqNumber e) out32 in
      Some
        (if expectedLowBits <=? seqLowBits then
           if shift / 2 <? seqLowBits - expectedLowBits then
             let '(temp, wrap) := w64Sub32 out shift in
             if negb wrap then temp else out
           else out
         else
           if shift / 2 <? expectedLowBits - seqLowBits then
             let '(temp, wrap) := w64Add32 out shift in
             if negb wrap then temp else out
           else out)
  end.

Fixpoint best_epoch (bits : Z) (l : list Dtls13Epoch) (found : bool) (best : T) : bool * T :=
  match l with
  | [] => (found, best)
  | e :: l =>
      if negb (isValid e) then best_epoch bits l found best
      else if eside e =? ENCRYPT_SIDE_ONLY then best_epoch bits l found best
      else if negb (Dtls13GetEpochBits (epochNumber e) =? bits) then best_epoch bits l found best
      else if w64GT (epochNumber e) best then best_epoch bits l true (epochNumber e)
      else best_epoch bits l found best
  end.

Definition Dtls13ReconstructEpochNumber (s : Dtls13) (bits : Z) : Z + T :=
  if Dtls13GetEpochBits (dtls13PeerEpoch s) =? bits then inr (dtls13PeerEpoch s)
  else match best_epoch bits (dtls13Epochs s) false w64Zero with
       | (true, n) => inr n
       | (false, _) => inl SEQUENCE_ERROR
       end.

(** ** The window refines the abstract one *)

Definition epoch_ok (e : Dtls13Epoch) : Prop :=
  w64_ok (epochNumber e) /\ w64_ok (nextSeqNumber e) /\ w64_ok (nextPeerSeqNumber e) /\
  is_window (ewindow e).

Definition epoch_abs (e : Dtls13Epoch) : replay :=
  win_abs (w64_val (nextPeerSeqNumber e)) (ewindow e).

Lemma word64_sub a b : is_word 64 a -> is_word 64 b -> b <= a -> u64 (a - b) = a - b.
Proof. intros. apply wrap_small. unfold is_word in *. lia. Qed.

Lemma check13_ok s i e :
  dtls13DecryptEpoch s = Some i -> dtls13Epochs s !! i = Some e -> epoch_ok e -> w64_ok (curSeq s) ->
  Dtls13CheckWindow s = spec_check (epoch_abs e) (w64_val (curSeq s)).
Proof.
  intros Hd He (_ & _ & On & Hw) Os. unfold Dtls13CheckWindow. rewrite Hd. cbn. rewrite He.
  pose proof (w64_range _ On) as Wn. pose proof (w64_range _ Os) as Ws.
  rewrite w64GTE_val by assumption.
  destruct (Z.leb_spec (w64_val (nextPeerSeqNumber e)) (w64_val (curSeq s))).
  { symmetry. now apply spec_check_new. }
  destruct (w64Sub_val _ _ On Os) as [Od Vd]. rewrite word64_sub in Vd by (auto; lia).
  assert (C : w64_ok (w64From32 (T := T) 0 DTLS_SEQ_BITS) /\ w64_val (w64From32 (T := T) 0 DTLS_SEQ_BITS) = 64)
    by (apply w64From32_val; vm_compute; split; congruence).
  destruct C as [Oc Vc]. rewrite w64GT_val, Vc, Vd by assumption.
  destruct (Z.ltb_spec 64 (w64_val (nextPeerSeqNumber e) - w64_val (curSeq s))).
  { symmetry. apply spec_check_old. change DTLS_SEQ_BITS with 64. cbn. lia. }
  rewrite w64GetLow32_val, Vd, (wrap_small 32 (_ - w64_val _)) by (assumption || unfold is_word; lia).
  rewrite (wrap_small 32 (_ - 1)) by (unfold is_word; lia). unfold DTLS_WORD_BITS.
  rewrite (check_bit (w64_val (nextPeerSeqNumber e))) by (auto; change DTLS_SEQ_BITS with 64; lia).
  unfold epoch_abs. f_equal. lia.
Qed.

(** A record can be marked unless it is older than the window or 2^32 or
    more ahead. *)
Definition markable (next seq : Z) : bool :=
  (next - DTLS_SEQ_BITS <=? seq) && (seq - next + 1 <? 2 ^ 32).

Lemma update13_ok seq e : epoch_ok e -> w64_ok seq -> w64_val seq + 1 < 2 ^ 64 ->
  match update_epoch_window seq e with
  | Some e' =>
      markable (w64_val (nextPeerSeqNumber e)) (w64_val seq) = true /\ epoch_ok e' /\
      epochNumber e' = epochNumber e /\ nextSeqNumber e' = nextSeqNumber e /\
      ekeys e' = ekeys e /\ isValid e' = isValid e /\ eside e' = eside e /\
      epoch_abs e' ≡ spec_update (epoch_abs e) (w64_val seq)
  | None => markable (w64_val (nextPeerSeqNumber e)) (w64_val seq) = false
  end.
Proof.
  intros (Oe & Oq & On & Hw) Os Hm. unfold update_epoch_window, markable. change DTLS_SEQ_BITS with 64.
  change (WOLFSSL_DTLS_WINDOW_WORDS * DTLS_WORD_BITS) with 64. unfold DTLS_WORD_BITS.
  pose proof (w64_range _ On) as Wn. pose proof (w64_range _ Os) as Ws.
  set (next := w64_val (nextPeerSeqNumber e)) in *. set (q := w64_val seq) in *.
  rewrite w64LT_val by assumption. fold next q. destruct (Z.ltb_spec q next).
  - destruct (w64Sub_val _ _ On Os) as [Od Vd]. fold next q in Vd. rewrite word64_sub in Vd by (auto; lia).
    destruct (w64Decrement_val _ Od) as [O1 V1]. rewrite Vd, wrap_small in V1 by (unfold is_word in *; lia).
    rewrite w64GetHigh32_val, w64GetLow32_val, V1 by assumption.
    destruct (Z.eqb_spec ((next - q - 1) / 2 ^ 32) 0); cbn [negb].
    2: { destruct (Z.leb_spec (next - 64) q); [word_lia | reflexivity]. }
    rewrite wrap_small by (unfold is_word in *; word_lia).
    destruct (Z.leb_spec 64 (next - q - 1)), (Z.leb_spec (next - 64) q),
      (Z.ltb_spec (q - next + 1) (2 ^ 32)); try lia; try reflexivity.
    destruct (win_abs_mark next (ewindow e) q Hw ltac:(apply in_window_spec; change DTLS_SEQ_BITS with 64; lia))
      as [Hw' A].
    replace (next - 1 - q) with (next - q - 1) in * by lia.
    destruct e. split; [reflexivity |]. split; [now split |]. repeat (split; [reflexivity |]). exact A.
  - destruct (w64Sub_val _ _ Os On) as [Od Vd]. fold next q in Vd. rewrite word64_sub in Vd by (auto; lia).
    destruct (w64Increment_val _ Od) as [O1 V1]. rewrite Vd, wrap_small in V1 by (unfold is_word in *; lia).
    destruct (w64Increment_val _ Os) as [O2 V2]. fold q in V2. rewrite wrap_small in V2 by (unfold is_word in *; lia).
    rewrite w64GetHigh32_val, w64GetLow32_val, V1 by assumption.
    destruct (Z.eqb_spec ((q - next + 1) / 2 ^ 32) 0); cbn [negb].
    2: { destruct (Z.ltb_spec (q - next + 1) (2 ^ 32)); [word_lia | apply andb_false_r]. }
    rewrite wrap_small by (unfold is_word in *; word_lia).
    destruct (win_abs_slide next (ewindow e) q (q - next + 1) Hw ltac:(lia) ltac:(auto)) as [Hw' A].
    destruct (Z.leb_spec (next - 64) q), (Z.ltb_spec (q - next + 1) (2 ^ 32)); try word_lia.
    destruct e. split; [reflexivity |]. split; [now split |]. repeat (split; [reflexivity |]).
    unfold epoch_abs. cbn. rewrite V2. exact A.
Qed.

(** ** Reconstruction of sequence numbers *)

Lemma land_cnot_ones x k : is_word 32 x -> 0 <= k <= 32 ->
  Z.land x (cnot 32 (Z.ones k)) = Z.shiftl (Z.shiftr x k) k.
Proof.
  intros Hx Hk. rewrite <- Z.ldiff_ones_r by lia. apply Z.bits_inj'. intros i Hi. unfold cnot.
  rewrite Z.land_spec, Z.ldiff_spec, wrap_testbit, lnot_testbit by lia.
  destruct (Z.ltb_spec i 32), (Z.leb_spec 0 i); try lia; [reflexivity |].
  now rewrite (word_testbit_high 32 x i) by (lia || assumption).
Qed.

(** Replacing the low [k] bits. *)
Lemma replace_low x k b : is_word 32 x -> 0 <= k <= 32 -> is_word k b ->
  Z.lor (Z.land x (cnot 32 (Z.ones k))) b = x / 2 ^ k * 2 ^ k + b.
Proof.
  intros Hx Hk Hb. rewrite land_cnot_ones, lor_shift_add, Z.shiftr_div_pow2 by (lia || assumption).
  reflexivity.
Qed.

(** The header fields a record with number [n] carries. *)
Definition hdr_of_seq (wide : bool) (n : Z) : Dtls13UnifiedHdrInfo :=
  mkHdrInfo 0 (u8 n) (u8 (n / 2 ^ 8)) wide 0.

Definition seq_bits (wide : bool) : Z := if wide then 16 else 8.

Lemma hdr_low_bits n :
  u16 (Z.lor (Z.shiftl (u8 (n / 2 ^ 8)) 8) (u8 n)) = wrap 16 n.
Proof.
  rewrite lor_shift_add by (lia || apply wrap_is_word; lia). word_lia.
Qed.

(** The arithmetic of the reconstruction, with [k] bits on the wire. *)
Lemma reconstruct_arith k next n out :
  0 < k <= 16 -> is_word 64 next -> is_word 64 n ->
  - 2 ^ (k - 1) < n - next < 2 ^ (k - 1) -> out = next / 2 ^ k * 2 ^ k + n mod 2 ^ k ->
  let e := next mod 2 ^ k in let l := n mod 2 ^ k in
  (e <= l -> if 2 ^ k / 2 <? l - e then out - 2 ^ k = n else out = n) /\
  (l < e -> if 2 ^ k / 2 <? e - l then out + 2 ^ k = n else out = n).
Proof.
  intros Hk Hn Hs Hd Ho. cbv zeta.
  assert (P : 2 ^ k = 2 * 2 ^ (k - 1)) by (rewrite <- Z.pow_succ_r by lia; f_equal; lia).
  assert (Q : 0 < 2 ^ (k - 1)) by (apply Z.pow_pos_nonneg; lia).
  rewrite P in *. set (h := 2 ^ (k - 1)) in *. replace (2 * h / 2) with h by (Z.to_euclidean_division_equations; lia).
  pose proof (Z.div_mod next (2 * h) ltac:(lia)) as D1. pose proof (Z.div_mod n (2 * h) ltac:(lia)) as D2.
  pose proof (Z.mod_pos_bound next (2 * h) ltac:(lia)) as B1.
  pose proof (Z.mod_pos_bound n (2 * h) ltac:(lia)) as B2.
  set (a := next / (2 * h)) in *. set (b := n / (2 * h)) in *.
  set (e := next mod (2 * h)) in *. set (l := n mod (2 * h)) in *. clearbody a b e l h.
  assert (B : b = a - 1 \/ b = a \/ b = a + 1) by nia.
  assert (N : n = a * (2 * h) + (b - a) * (2 * h) + l) by lia.
  split; intros; zbits_split; destruct B as [-> | [-> | ->]]; lia.
Qed.

Lemma w64_low_mod (q : T) k : w64_ok q -> 0 < k <= 16 ->
  u16 (Z.land (w64GetLow32 q) (Z.ones k)) = w64_val q mod 2 ^ k.
Proof.
  intros Hq Hk. rewrite w64GetLow32_val, <- wrap_land_ones, (wrap_wrap k 32) by (auto; lia).
  apply wrap_small. split; [apply wrap_range; lia |].
  eapply Z.lt_le_trans; [apply wrap_range; lia | apply Z.pow_le_mono_r; lia].
Qed.

Lemma w64_replace_low (q : T) k b : w64_ok q -> 0 < k <= 16 -> is_word k b ->
  let x := w64SetLow32 q (Z.lor (Z.land (w64GetLow32 q) (cnot 32 (Z.ones k))) b) in
  w64_ok x /\ w64_val x = w64_val q / 2 ^ k * 2 ^ k + b.
Proof.
  intros Hq Hk Hb. pose proof (w64_range q Hq) as Wq.
  assert (Wl : is_word 32 (w64GetLow32 q)) by (rewrite w64GetLow32_val by assumption; apply wrap_is_word; lia).
  rewrite replace_low by (auto; lia). set (L := w64GetLow32 q) in *.
  assert (P : 2 ^ 32 = 2 ^ k * 2 ^ (32 - k)) by (rewrite <- Z.pow_add_r by lia; f_equal; lia).
  assert (Pk : 0 < 2 ^ k) by (apply Z.pow_pos_nonneg; lia).
  assert (Pm : 0 < 2 ^ (32 - k)) by (apply Z.pow_pos_nonneg; lia).
  assert (EL : w64_val q = w64_val q / 2 ^ 32 * 2 ^ 32 + L)
    by (unfold L; rewrite w64GetLow32_val by assumption; word_lia).
  assert (W' : is_word 32 (L / 2 ^ k * 2 ^ k + b)).
  { pose proof (Z.div_lt_upper_bound L (2 ^ k) (2 ^ (32 - k)) Pk ltac:(rewrite <- P; apply Wl)).
    pose proof (Z.div_pos L (2 ^ k) ltac:(apply Wl) Pk). unfold is_word in *. nia. }
  destruct (w64SetLow32_val q _ Hq W') as [O V]. split; [exact O |]. rewrite V.
  set (hi := w64_val q / 2 ^ 32) in *. clearbody hi L. rewrite EL, P.
  replace (hi * (2 ^ k * 2 ^ (32 - k)) + L) with (hi * 2 ^ (32 - k) * 2 ^ k + L) by ring.
  rewrite Z.div_add_l by lia. ring.
Qed.

(** The receiver reconstructs exactly the number the sender truncated. *)
Lemma reconstruct_ok s i e wide n :
  dtls13DecryptEpoch s = Some i -> dtls13Epochs s !! i = Some e -> epoch_ok e -> is_word 64 n ->
  let half := 2 ^ (seq_bits wide - 1) in
  - half < n - w64_val (nextPeerSeqNumber e) < half ->
  exists x, Dtls13ReconstructSeqNumber s (hdr_of_seq wide n) = Some x /\ w64_ok x /\ w64_val x = n.
Proof.
  intros Hd He (_ & _ & On & _) Wn half Hh. unfold Dtls13ReconstructSeqNumber. rewrite Hd. cbn -[Z.pow]. rewrite He.
  set (k := seq_bits wide). set (l := wrap k n).
  assert (Hk : 0 < k <= 16) by (unfold k; destruct wide; cbn; lia).
  assert (Wl : is_word k l) by (apply wrap_is_word; lia).
  replace (if wide then _ else _) with (l, Z.ones k, 2 ^ k)
    by (unfold l, k; destruct wide; cbn [seq_bits]; rewrite ?hdr_low_bits; reflexivity).
  cbv beta iota zeta. set (q := nextPeerSeqNumber e) in *.
  rewrite w64_low_mod by assumption. destruct (w64_replace_low q k l On Hk Wl) as [Oo Vo].
  set (out := w64SetLow32 q _) in *.
  pose proof (w64_range q On) as Wq. pose proof (w64_range out Oo) as Wo.
  destruct (reconstruct_arith k (w64_val q) n (w64_val out) Hk Wq Wn Hh Vo) as [Hge Hlt].
  assert (Wk : is_word 32 (2 ^ k)) by (split; [lia | apply Z.pow_lt_mono_r; lia]).
  destruct (w64Sub32_val out _ Oo Wk) as (O1 & V1 & F1), (w64Add32_val out _ Oo Wk) as (O2 & V2 & F2).
  unfold l, wrap in *. eexists. split; [reflexivity |].
  unfold is_word in *. destruct (Z.leb_spec (w64_val q mod 2 ^ k) (n mod 2 ^ k)).
  - specialize (Hge ltac:(lia)). clear Hlt. destruct (2 ^ k / 2 <? _); [| auto].
    destruct (w64Sub32 out (2 ^ k)) as [t w]. cbn [fst snd] in *. subst w.
    destruct (Z.ltb_spec (w64_val out) (2 ^ k)); [lia |]. split; [exact O1 |].
    cbn [negb]. rewrite V1, Z.mod_small; lia.
  - specialize (Hlt ltac:(lia)). clear Hge. destruct (2 ^ k / 2 <? _); [| auto].
    destruct (w64Add32 out (2 ^ k)) as [t w]. cbn [fst snd] in *. subst w.
    destruct (Z.leb_spec (2 ^ 64) (w64_val out + 2 ^ k)); [lia |]. split; [exact O2 |].
    cbn [negb]. rewrite V2, Z.mod_small; lia.
Qed.

(** ** Reconstruction of epochs *)

Definition can_decrypt (bits : Z) (e : Dtls13Epoch) : Prop :=
  isValid e = true /\ eside e <> ENCRYPT_SIDE_ONLY /\ Dtls13GetEpochBits (epochNumber e) = bits.

Lemma best_epoch_ok bits l : forall found best,
  Forall epoch_ok l -> w64_ok best ->
  let '(f, n) := best_epoch bits l found best in
  w64_ok n /\ w64_val best <= w64_val n /\
  (forall e, e ∈ l -> can_decrypt bits e -> w64_val (epochNumber e) <= w64_val n) /\
  (f = true -> (n = best /\ found = true) \/ exists e, e ∈ l /\ can_decrypt bits e /\ epochNumber e = n) /\
  (f = false -> found = false /\ n = best).
Proof.
  induction l as [| e l IH]; intros found best Hl Hb; cbn [best_epoch].
  - split; [exact Hb |]. split; [lia |]. split; [intros e He; inversion He |]. split; auto.
  - apply Forall_cons_1 in Hl as [He Hl].
    assert (Skip : ~ can_decrypt bits e \/ w64_val (epochNumber e) <= w64_val best ->
      let '(f, n) := best_epoch bits l found best in
      w64_ok n /\ w64_val best <= w64_val n /\
      (forall x, x ∈ e :: l -> can_decrypt bits x -> w64_val (epochNumber x) <= w64_val n) /\
      (f = true -> (n = best /\ found = true) \/ exists x, x ∈ e :: l /\ can_decrypt bits x /\ epochNumber x = n) /\
      (f = false -> found = false /\ n = best)).
    { intros S. specialize (IH found best Hl Hb). destruct (best_epoch bits l found best) as [f n].
      destruct IH as (On & Hle & Hmax & Ht & Hf). split; [exact On |]. split; [exact Hle |]. split; [| split].
      - intros x Hx Hc. apply elem_of_cons in Hx as [-> | Hx]; [| now apply Hmax].
        destruct S as [S | S]; [contradiction | lia].
      - intros Ef. destruct (Ht Ef) as [? | (x & Hx & ? & ?)]; [now left |].
        right. exists x. split; [apply elem_of_cons; now right | auto].
      - exact Hf. }
    destruct (isValid e) eqn:Ev; cbn [negb]; [| apply Skip; left; intros [? _]; congruence].
    destruct (Z.eqb_spec (eside e) ENCRYPT_SIDE_ONLY) as [| Hside]; [apply Skip; left; intros (_ & ? & _); congruence |].
    destruct (Z.eqb_spec (Dtls13GetEpochBits (epochNumber e)) bits); cbn [negb];
      [| apply Skip; left; intros (_ & _ & ?); congruence].
    rewrite w64GT_val by (apply He || exact Hb).
    destruct (Z.ltb_spec (w64_val best) (w64_val (epochNumber e))); [clear Skip | apply Skip; now right].
    specialize (IH true (epochNumber e) Hl ltac:(apply He)).
    destruct (best_epoch bits l true (epochNumber e)) as [f n]. destruct IH as (On & Hle & Hmax & Ht & Hf).
    assert (C : can_decrypt bits e) by (split; auto).
    split; [exact On |]. split; [lia |]. split; [| split].
    + intros x Hx Hc. apply elem_of_cons in Hx as [-> | Hx]; [lia | now apply Hmax].
    + intros Ef. right. destruct (Ht Ef) as [[-> _] | (x & Hx & ? & ?)].
      * exists e. split; [apply elem_of_cons; now left | auto].
      * exists x. split; [apply elem_of_cons; now right | auto].
    + intros Ef. now destruct (Hf Ef).
Qed.

(** ** The epoch table *)

Definition evnum (e : Dtls13Epoch) : Z := w64_val (epochNumber e).

Record slots_ok (s : Dtls13) : Prop := {
  so_len : length (dtls13Epochs s) = DTLS13_EPOCH_SIZE;
  so_epochs : Forall epoch_ok (dtls13Epochs s);
  so_inj i j e f : dtls13Epochs s !! i = Some e -> dtls13Epochs s !! j = Some f ->
    isValid e = true -> isValid f = true -> evnum e = evnum f -> i = j;
  so_cur : w64_ok (dtls13Epoch s);
  so_peer : w64_ok (dtls13PeerEpoch s) }.

(** The epochs that must survive: our own, the peer's, and the one before. *)
Definition protected (s : Dtls13) (e : Dtls13Epoch) : Prop :=
  evnum e = w64_val (dtls13Epoch s) \/ evnum e = w64_val (dtls13PeerEpoch s) \/
  evnum e = w64_val (prev_peer_epoch s).

Lemma find_epoch_Some n l i : w64_ok n -> Forall epoch_ok l -> find_epoch n l = Some i ->
  exists e, l !! i = Some e /\ isValid e = true /\ evnum e = w64_val n.
Proof.
  intros Hn Hl. revert i. induction Hl as [| e l He Hl IH]; intros i; cbn [find_epoch]; [discriminate |].
  rewrite w64Equal_val by (apply He || exact Hn). destruct (_ && _) eqn:E.
  - intros [= <-]. apply andb_true_iff in E as [E V]. apply Z.eqb_eq in E. exists e. auto.
  - destruct (find_epoch n l) as [k |]; [| discriminate]. intros [= <-]. now apply IH.
Qed.

Lemma find_epoch_None n l : w64_ok n -> Forall epoch_ok l -> find_epoch n l = None ->
  forall e, e ∈ l -> isValid e = true -> evnum e <> w64_val n.
Proof.
  intros Hn Hl. induction Hl as [| e l He Hl IH]; cbn [find_epoch]; intros Hf x Hx Hv; [inversion Hx |].
  rewrite w64Equal_val in Hf by (apply He || exact Hn). destruct (_ && _) eqn:E; [discriminate |].
  destruct (find_epoch n l); [discriminate |]. apply elem_of_cons in Hx as [-> | Hx]; [| now apply IH].
  rewrite Hv, andb_true_r in E. now apply Z.eqb_neq in E.
Qed.

Lemma find_epoch_unique n l i e : w64_ok n -> Forall epoch_ok l ->
  (forall i j e f, l !! i = Some e -> l !! j = Some f ->
     isValid e = true -> isValid f = true -> evnum e = evnum f -> i = j) ->
  l !! i = Some e -> isValid e = true -> evnum e = w64_val n -> find_epoch n l = Some i.
Proof.
  intros Hn Hl Inj Hi Hv Hne. destruct (find_epoch n l) as [j |] eqn:F.
  - destruct (find_epoch_Some n l j Hn Hl F) as (f & Hj & Vf & Ef). f_equal. symmetry.
    eapply Inj; eauto. congruence.
  - exfalso. apply (find_epoch_None n l Hn Hl F e); auto. now apply list_elem_of_lookup_2 in Hi.
Qed.

Lemma prev_peer_ok s : w64_ok (dtls13PeerEpoch s) -> w64_ok (prev_peer_epoch s).
Proof. intros O. unfold prev_peer_epoch. destruct (w64IsZero _); cbn; [auto | now apply w64Decrement_val]. Qed.

(** The slot scan stops at an invalid slot, or every slot is valid and it
    returns an unprotected one if there is one below [num]. *)
Lemma scan_slots_ok s l : slots_ok s -> forall base oldest num,
  Forall epoch_ok l -> w64_ok num ->
  match scan_slots s (prev_peer_epoch s) l base oldest num with
  | inl j => exists k e, j = (base + k)%nat /\ l !! k = Some e /\ isValid e = false
  | inr r =>
      (forall e, e ∈ l -> isValid e = true) /\
      (r = oldest /\ (forall e, e ∈ l -> protected s e \/ w64_val num <= evnum e) \/
       exists k e, r = Some (base + k)%nat /\ l !! k = Some e /\ ~ protected s e)
  end.
Proof.
  intros [_ _ _ Oc Op]. pose proof (prev_peer_ok s Op) as Opp.
  induction l as [| e l IH]; intros base oldest num Hl Hnum; cbn [scan_slots].
  { split; [intros e He; inversion He |]. left. split; [reflexivity |]. intros e He; inversion He. }
  apply Forall_cons_1 in Hl as [He Hl]. destruct (isValid e) eqn:V; cbn [negb].
  2: { exists 0%nat, e. split; [lia |]. auto. }
  pose proof (proj1 He) as Oe. rewrite !w64Equal_val, w64LT_val by assumption. fold (evnum e).
  destruct (_ && _) eqn:E.
  - specialize (IH (S base) (Some base) (epochNumber e) Hl Oe).
    destruct (scan_slots s (prev_peer_epoch s) l (S base) (Some base) (epochNumber e)) as [j | r].
    { destruct IH as (k & f & -> & ? & ?). exists (S k), f. split; [lia | auto]. }
    destruct IH as [Hv IH]. split.
    { intros f Hf. apply elem_of_cons in Hf as [-> | Hf]; auto. }
    right. rewrite !andb_true_iff, !negb_true_iff, !Z.eqb_neq in E.
    destruct IH as [[-> _] | (k & f & -> & Hk & Hp)].
    + exists 0%nat, e. rewrite Nat.add_0_r. split; [reflexivity |]. split; [reflexivity |].
      unfold protected. lia.
    + exists (S k), f. split; [f_equal; lia | auto].
  - specialize (IH (S base) oldest num Hl Hnum).
    destruct (scan_slots s (prev_peer_epoch s) l (S base) oldest num) as [j | r].
    { destruct IH as (k & f & -> & ? & ?). exists (S k), f. split; [lia | auto]. }
    destruct IH as [Hv IH]. split.
    { intros f Hf. apply elem_of_cons in Hf as [-> | Hf]; auto. }
    destruct IH as [[-> Hp] | (k & f & -> & Hk & Hp)].
    + left. split; [reflexivity |]. intros f Hf. apply elem_of_cons in Hf as [-> | Hf]; [| auto].
      unfold protected. rewrite !andb_false_iff, !negb_false_iff, !Z.eqb_eq, Z.ltb_ge in E. tauto.
    + right. exists (S k), f. split; [f_equal; lia | auto].
Qed.

(** Four distinct valid epochs cannot all be among three protected ones. *)
Lemma not_all_protected s : slots_ok s ->
  (forall e, e ∈ dtls13Epochs s -> isValid e = true) ->
  ~ (forall e, e ∈ dtls13Epochs s -> protected s e).
Proof.
  intros [L _ Inj _ _] Hv Hp.
  set (P := [w64_val (dtls13Epoch s); w64_val (dtls13PeerEpoch s); w64_val (prev_peer_epoch s)]).
  assert (Nd : NoDup (evnum <$> dtls13Epochs s)).
  { apply NoDup_alt. intros i j x Hi Hj. rewrite list_lookup_fmap in Hi, Hj.
    destruct (dtls13Epochs s !! i) as [e |] eqn:Ei, (dtls13Epochs s !! j) as [f |] eqn:Ej; try discriminate.
    cbn in Hi, Hj. injection Hi as Hi. injection Hj as Hj.
    apply (Inj i j e f Ei Ej); [| | congruence]; apply Hv; eauto using list_elem_of_lookup_2. }
  assert (Sub : (evnum <$> dtls13Epochs s) ⊆+ P).
  { apply NoDup_submseteq; [exact Nd |]. intros x Hx. apply list_elem_of_fmap in Hx as (e & -> & He).
    unfold P. rewrite !elem_of_cons. destruct (Hp e He) as [? | [? | ?]]; auto. }
  apply submseteq_length in Sub. rewrite length_fmap, L in Sub. unfold DTLS13_EPOCH_SIZE in Sub. cbn in Sub. lia.
Qed.

(** What happens to the other slots when one is claimed for epoch [n]. *)
Lemma set_epoch_lookup s i f j :
  dtls13Epochs (set_epoch s i f) !! j =
  if decide (i = j) then f <$> dtls13Epochs s !! j else dtls13Epochs s !! j.
Proof.
  destruct s. unfold set_epoch. cbn. destruct (decide (i = j)) as [-> |].
  - apply list_lookup_alter_eq.
  - now apply list_lookup_alter_ne.
Qed.

Lemma wipe_epoch_ok e : epoch_ok e -> epoch_ok (wipe_epoch e).
Proof.
  intros (_ & _ & _ & L & _). destruct w64Zero_val as [O _]. split; [exact O |]. split; [exact O |].
  split; [exact O |]. unfold wipe_epoch, wipe. cbn. rewrite L. apply is_window_pair; unfold is_word; lia.
Qed.

Lemma init_slot_ok s n sd e : w64_ok n -> epoch_ok e ->
  (isValid e = true -> evnum e = w64_val n) ->
  let e' := init_slot s n sd e in
  epoch_ok e' /\ isValid e' = true /\ evnum e' = w64_val n /\
  nextSeqNumber e' = nextSeqNumber e /\ nextPeerSeqNumber e' = nextPeerSeqNumber e /\
  ewindow e' = ewindow e /\ ekeys e' = copy_keys (side_flags s sd) (ekeys e) (keys s).
Proof.
  intros On (Oe & Oq & Op & Hw) Hv. unfold init_slot, Dtls13EpochCopyKeys, evnum in *.
  destruct e as [? ? ? ? ? ? v ?]. cbn in *. destruct v; cbn.
  - destruct (negb _); cbn; repeat (split; [now auto |]); reflexivity.
  - repeat (split; [now auto |]); reflexivity.
Qed.

Lemma older_side_ok n sd e :
  let e' := older_side n sd e in
  (epoch_ok e -> epoch_ok e') /\ isValid e' = isValid e /\ epochNumber e' = epochNumber e /\
  nextSeqNumber e' = nextSeqNumber e /\ nextPeerSeqNumber e' = nextPeerSeqNumber e /\
  ewindow e' = ewindow e /\ ekeys e' = ekeys e.
Proof. unfold older_side. destruct (_ && _), e; cbn; (split; [intros O; exact O | auto 10]). Qed.

(** The claimed slot [i]: the only one whose contents may be lost. *)
Lemma new_slot_ok s n : slots_ok s -> w64_ok n ->
  (forall e, e ∈ dtls13Epochs s -> isValid e = true -> evnum e < 2 ^ 64 - 1) ->
  exists i e s1,
    match Dtls13GetEpoch s n with Some i => (Some i, s) | None => Dtls13NewEpochSlot s end = (Some i, s1) /\
    dtls13Epochs s !! i = Some e /\
    (s1 = s /\ (isValid e = true -> evnum e = w64_val n) \/
     s1 = set_epoch (if bool_decide (dtls13DecryptEpoch s = Some i)
                     then { s with dtls13DecryptEpoch := None } else s) i wipe_epoch /\
     ~ protected s e /\ isValid e = true) /\
    (forall j f, j <> i -> dtls13Epochs s !! j = Some f -> isValid f = true -> evnum f <> w64_val n).
Proof.
  intros Hs Hn Hmax. pose proof Hs as [Len Ok Inj Oc Op]. unfold Dtls13GetEpoch.
  destruct (find_epoch n (dtls13Epochs s)) as [i |] eqn:F.
  - destruct (find_epoch_Some n _ i Hn Ok F) as (e & Hi & Hv & He). exists i, e, s.
    split; [reflexivity |]. split; [exact Hi |]. split; [left; auto |].
    intros j f Hj Hf Hvf E. apply Hj. eapply Inj; eauto. congruence.
  - pose proof (find_epoch_None n _ Hn Ok F) as Hnone.
    assert (Hne : forall j f, dtls13Epochs s !! j = Some f -> isValid f = true -> evnum f <> w64_val n)
      by (intros j f Hf; apply Hnone; eauto using list_elem_of_lookup_2).
    unfold Dtls13NewEpochSlot.
    assert (M : w64_ok (w64From32 (T := T) 0xFFFFFFFF 0xFFFFFFFF) /\
                w64_val (w64From32 (T := T) 0xFFFFFFFF 0xFFFFFFFF) = 2 ^ 64 - 1)
      by (apply w64From32_val; unfold is_word; lia).
    destruct M as [Om Vm]. pose proof (scan_slots_ok s (dtls13Epochs s) Hs 0 None _ Ok Om) as S.
    destruct (scan_slots s _ _ 0 None _) as [i | r].
    + destruct S as (k & e & -> & Hk & Hv). exists k, e, s. cbn [Nat.add].
      split; [reflexivity |]. split; [exact Hk |]. split; [left; split; [reflexivity | congruence] | eauto].
    + destruct S as [Hv [[-> Hp] | (k & e & -> & Hk & Hp)]].
      * exfalso. apply (not_all_protected s Hs Hv). intros e He.
        destruct (Hp e He) as [| Hge]; [assumption |]. specialize (Hmax e He (Hv e He)). lia.
      * exists k, e. eexists. cbn [Nat.add]. split; [reflexivity |]. split; [exact Hk |].
        split; [right | eauto]. split; [reflexivity |]. split; [exact Hp |].
        apply Hv. eauto using list_elem_of_lookup_2.
Qed.

(** Two slots that hold the same epoch, up to the side flag. *)
Definition same_epoch (e f : Dtls13Epoch) : Prop :=
  isValid f = isValid e /\ epochNumber f = epochNumber e /\ nextSeqNumber f = nextSeqNumber e /\
  nextPeerSeqNumber f = nextPeerSeqNumber e /\ ewindow f = ewindow e /\ ekeys f = ekeys e.

Lemma same_epoch_refl e : same_epoch e e.
Proof. repeat split. Qed.

Lemma copy_keys_twice fl d m k : copy_keys fl d (copy_keys fl m k) = copy_keys fl d k.
Proof. destruct fl as [[[[] []] []] []]; reflexivity. Qed.

(** Claiming slot [i] for epoch [n] keeps the table well formed. *)
Lemma slots_ok_claim s s2 i e2 n : slots_ok s -> w64_ok n ->
  length (dtls13Epochs s2) = length (dtls13Epochs s) ->
  dtls13Epoch s2 = dtls13Epoch s -> dtls13PeerEpoch s2 = dtls13PeerEpoch s ->
  dtls13Epochs s2 !! i = Some e2 -> epoch_ok e2 -> evnum e2 = w64_val n ->
  (forall j f2, j <> i -> dtls13Epochs s2 !! j = Some f2 ->
     exists f, dtls13Epochs s !! j = Some f /\ same_epoch f f2) ->
  (forall j f, j <> i -> dtls13Epochs s !! j = Some f -> isValid f = true -> evnum f <> w64_val n) ->
  slots_ok s2.
Proof.
  intros [Len Ok Inj Oc Op] Hn Hlen Ec Ep Hi He2 Hv2 Hother Hne.
  assert (N : forall j f, j <> i -> dtls13Epochs s2 !! j = Some f -> isValid f = true -> evnum f <> w64_val n).
  { intros j f Hj Hf Hv. destruct (Hother j f Hj Hf) as (f0 & Hf0 & V & E & _).
    unfold evnum. rewrite E. apply (Hne j f0 Hj Hf0). congruence. }
  split; try congruence.
  - apply Forall_lookup. intros j f Hf. destruct (decide (j = i)) as [-> |]; [congruence |].
    destruct (Hother j f) as (f0 & Hf0 & _ & E1 & E2 & E3 & E4 & _); auto. unfold epoch_ok.
    rewrite E1, E2, E3, E4. exact (Forall_lookup_1 _ _ _ _ Ok Hf0).
  - intros j k e f Hj Hk Ve Vf E. destruct (decide (j = i)) as [-> |], (decide (k = i)) as [-> |]; auto.
    + exfalso. apply (N k f); auto. congruence.
    + exfalso. apply (N j e); auto. congruence.
    + destruct (Hother j e) as (e0 & He0 & V0 & E0 & _); auto. destruct (Hother k f) as (f0 & Hf0 & V1 & E1 & _); auto.
      apply (Inj j k e0 f0); auto; try congruence. unfold evnum in *. congruence.
Qed.

Lemma older_side_lookup s n sd j f :
  dtls13Epochs s !! j = Some f ->
  exists f', dtls13Epochs (Dtls13SetOlderEpochSide s n sd) !! j = Some f' /\ same_epoch f f' /\
    (epoch_ok f -> epoch_ok f').
Proof.
  intros Hj. exists (older_side n sd f). destruct s. cbn in *. rewrite list_lookup_fmap, Hj.
  split; [reflexivity |]. destruct (older_side_ok n sd f) as (O & ? & ? & ? & ? & ? & ?).
  split; [repeat split; assumption | exact O].
Qed.

Lemma older_side_lookup_inv s n sd j f' :
  dtls13Epochs (Dtls13SetOlderEpochSide s n sd) !! j = Some f' ->
  exists f, dtls13Epochs s !! j = Some f /\ same_epoch f f'.
Proof.
  destruct s. cbn. rewrite list_lookup_fmap. destruct (_ !! j) as [f |]; [| discriminate].
  intros [= <-]. exists f. split; [reflexivity |].
  destruct (older_side_ok n sd f) as (_ & ? & ? & ? & ? & ? & ?). repeat split; assumption.
Qed.

(** The state after the slot has been claimed and filled. *)
Definition claimed (s : Dtls13) (n : T) (sd : Z) (i : nat) (s' : Dtls13) : Prop :=
  dtls13Epoch s' = dtls13Epoch s /\ dtls13PeerEpoch s' = dtls13PeerEpoch s /\
  length (dtls13Epochs s') = length (dtls13Epochs s) /\
  (exists e', dtls13Epochs s' !! i = Some e' /\ epoch_ok e' /\ isValid e' = true /\
     evnum e' = w64_val n /\
     forall d, copy_keys (side_flags s sd) d (ekeys e') = copy_keys (side_flags s sd) d (keys s)) /\
  (forall j f', j <> i -> dtls13Epochs s' !! j = Some f' ->
     exists f, dtls13Epochs s !! j = Some f /\ same_epoch f f') /\
  (forall j, dtls13DecryptEpoch s' = Some j -> dtls13DecryptEpoch s = Some j /\
     forall f, j = i -> dtls13Epochs s !! j = Some f -> isValid f = true -> evnum f = w64_val n).

Lemma claimed_fill s n sd i e s1 : slots_ok s -> w64_ok n -> dtls13Epochs s !! i = Some e ->
  (s1 = s /\ (isValid e = true -> evnum e = w64_val n) \/
   s1 = set_epoch (if bool_decide (dtls13DecryptEpoch s = Some i)
                   then { s with dtls13DecryptEpoch := None } else s) i wipe_epoch /\
   ~ protected s e /\ isValid e = true) ->
  claimed s n sd i (set_epoch s1 i (init_slot s1 n sd)).
Proof.
  intros [Len Ok _ _ _] Hn Hi Hs1. pose proof (Forall_lookup_1 _ _ _ _ Ok Hi) as Oe.
  assert (E1 : exists e1, dtls13Epochs s1 !! i = Some e1 /\ epoch_ok e1 /\
                 (isValid e1 = true -> evnum e1 = w64_val n)).
  { destruct Hs1 as [[-> He] | [-> _]]; [eauto |]. exists (wipe_epoch e).
    rewrite set_epoch_lookup, decide_True by reflexivity. split; [| split].
    - destruct (bool_decide _), s; cbn in *; now rewrite Hi.
    - now apply wipe_epoch_ok.
    - discriminate. }
  destruct E1 as (e1 & Hi1 & Oe1 & He1).
  destruct (init_slot_ok s1 n sd e1 Hn Oe1 He1) as (O' & V' & N' & _ & _ & _ & K').
  assert (G : side_flags s1 sd = side_flags s sd /\ keys s1 = keys s /\ dtls13Epoch s1 = dtls13Epoch s /\
              dtls13PeerEpoch s1 = dtls13PeerEpoch s /\ length (dtls13Epochs s1) = length (dtls13Epochs s) /\
              (forall j, j <> i -> dtls13Epochs s1 !! j = dtls13Epochs s !! j)).
  { destruct Hs1 as [[-> _] | [-> _]]; [auto 10 |]. destruct (bool_decide _), s; cbn; repeat split;
      try apply length_alter; intros; now apply list_lookup_alter_ne. }
  destruct G as (G1 & G2 & G3 & G4 & G5 & G6). split; [exact G3 |]. split; [exact G4 |].
  split; [rewrite <- G5; destruct s1; apply length_alter |]. split; [| split].
  - exists (init_slot s1 n sd e1). rewrite set_epoch_lookup, decide_True, Hi1 by reflexivity.
    repeat (split; [auto |]). intros d. rewrite K', G1, G2. apply copy_keys_twice.
  - intros j f' Hj Hf. rewrite set_epoch_lookup, decide_False, G6 in Hf by auto.
    exists f'. split; [exact Hf | apply same_epoch_refl].
  - intros j Hd. replace (dtls13DecryptEpoch (set_epoch s1 i _)) with (dtls13DecryptEpoch s1) in Hd
      by now destruct s1.
    destruct Hs1 as [[-> He] | [-> _]].
    + split; [exact Hd |]. intros f -> Hf. assert (f = e) as -> by congruence. exact He.
    + destruct (bool_decide_reflect (dtls13DecryptEpoch s = Some i)) as [| Hne]; [destruct s; discriminate |].
      replace (dtls13DecryptEpoch _) with (dtls13DecryptEpoch s) in Hd by now destruct s.
      split; [exact Hd |]. intros f -> _. contradiction.
Qed.

Lemma NewEpoch_claims s n sd : slots_ok s -> w64_ok n ->
  (forall e, e ∈ dtls13Epochs s -> isValid e = true -> evnum e < 2 ^ 64 - 1) ->
  exists i e s', Dtls13NewEpoch s n sd = (0, s') /\ dtls13Epochs s !! i = Some e /\
    (isValid e = true -> evnum e = w64_val n \/ ~ protected s e) /\
    claimed s n sd i s' /\ slots_ok s' /\ Dtls13GetEpoch s' n = Some i.
Proof.
  intros Hs Hn Hmax. destruct (new_slot_ok s n Hs Hn Hmax) as (i & e & s1 & E & Hi & Hs1 & Hne).
  pose proof (claimed_fill s n sd i e s1 Hs Hn Hi Hs1) as C. unfold Dtls13NewEpoch. rewrite E.
  set (s2 := set_epoch s1 i (init_slot s1 n sd)) in *.
  assert (Fin : forall s', claimed s n sd i s' -> slots_ok s' /\ Dtls13GetEpoch s' n = Some i).
  { intros s' (Ec & Ep & El & (e' & Hi' & Oe' & V' & N' & _) & Ho & _).
    assert (Hs' : slots_ok s') by exact (slots_ok_claim s s' i e' n Hs Hn El Ec Ep Hi' Oe' N' Ho Hne).
    split; [exact Hs' |]. destruct Hs' as [_ Ok' Inj' _ _].
    apply (find_epoch_unique n _ i e' Hn Ok' Inj' Hi' V' N'). }
  assert (Hp : isValid e = true -> evnum e = w64_val n \/ ~ protected s e)
    by (destruct Hs1 as [[_ ?] | (_ & ? & _)]; auto).
  destruct (handShakeDone s2 && _).
  - exists i, e. eexists. split; [reflexivity |]. split; [exact Hi |]. split; [exact Hp |].
    assert (C' : claimed s n sd i (Dtls13SetOlderEpochSide s2 (w64Decrement n) ENCRYPT_SIDE_ONLY)).
    { destruct C as (Ec & Ep & El & (e' & Hi' & Oe' & V' & N' & K') & Ho & Hd).
      split; [now destruct s2 |]. split; [now destruct s2 |].
      split; [rewrite <- El; destruct s2; apply length_fmap |]. split; [| split].
      - destruct (older_side_lookup s2 (w64Decrement n) ENCRYPT_SIDE_ONLY i e' Hi')
          as (f' & Hf' & (Sv & Sn & _ & _ & _ & Sk) & So).
        exists f'. unfold evnum. rewrite Sn, Sk. split; [exact Hf' |]. split; [auto |].
        split; [congruence |]. split; [exact N' | exact K'].
      - intros j f' Hj Hf'. apply older_side_lookup_inv in Hf' as (g & Hg & Sg).
        destruct (Ho j g Hj Hg) as (f & Hf & Sf). exists f. split; [exact Hf |].
        unfold same_epoch in *. intuition congruence.
      - intros j Hj. apply Hd. now destruct s2. }
    split; [exact C' |]. now apply Fin.
  - exists i, e, s2. split; [reflexivity |]. split; [exact Hi |]. split; [exact Hp |].
    split; [exact C |]. now apply Fin.
Qed.

End Epochs.

(** ** Properties *)

(** [Dtls13NewEpoch] always finds a slot: the table of four slots stays
    well formed (distinct valid epochs), the new epoch is found afterwards
    and holds the keys of the connection, no slot with our epoch, the
    peer's epoch or the one before it is evicted, every other slot keeps its
    keys, counters and window, and [dtls13DecryptEpoch] never points to an
    evicted slot. *)
Theorem Dtls13NewEpoch_total {T} `{W64 T} (s : Dtls13 (T := T)) n sd :
  slots_ok s -> w64_ok n ->
  (forall e, e ∈ dtls13Epochs s -> isValid e = true -> evnum e < 2 ^ 64 - 1) ->
  exists i e s', Dtls13NewEpoch s n sd = (0, s') /\ slots_ok s' /\
    Dtls13GetEpoch s' n = Some i /\
    dtls13Epochs s !! i = Some e /\ (isValid e = true -> evnum e = w64_val n \/ ~ protected s e) /\
    (exists e', dtls13Epochs s' !! i = Some e' /\
       forall d, copy_keys (side_flags s sd) d (ekeys e') = copy_keys (side_flags s sd) d (keys s)) /\
    (forall j f', j <> i -> dtls13Epochs s' !! j = Some f' ->
       exists f, dtls13Epochs s !! j = Some f /\ same_epoch f f') /\
    (forall j, dtls13DecryptEpoch s' = Some j -> dtls13DecryptEpoch s = Some j /\
       forall f, j = i -> dtls13Epochs s !! j = Some f -> isValid f = true -> evnum f = w64_val n).
Proof.
  intros Hs Hn Hmax. destruct (NewEpoch_claims s n sd Hs Hn Hmax) as (i & e & s' & E & Hi & Hp & C & Hs' & G).
  destruct C as (_ & _ & _ & (e' & Hi' & _ & _ & _ & K) & Ho & Hd).
  exists i, e, s'. repeat (split; [assumption |]). split; [now exists e' |]. auto.
Qed.

(** A table with one valid epoch. *)
Definition blank_epoch {T} `{W64Ops T} (v : bool) (n : T) : Dtls13Epoch (T := T) :=
  mkEpoch n w64Zero w64Zero w64Zero [0; 0] (mkKeys [] [] [] [] [] [] [] []) v 3.

Definition sample13 : Dtls13 (T := Native.w64wrapper) :=
  mkDtls13 1 true
    [blank_epoch true (Native.mk 0); blank_epoch true (Native.mk 2);
     blank_epoch true (Native.mk 3); blank_epoch true (Native.mk 4)]
    (Some 3%nat) (Some 1%nat) (Native.mk 4) (Native.mk 3) (Native.mk 2) (Native.mk 5)
    (mkKeys [1] [2] [3] [4] [5] [6] [7] [8]).

Lemma sample13_epochs_ok : Forall epoch_ok (dtls13Epochs sample13).
Proof.
  repeat apply Forall_cons_2; try apply Forall_nil_2;
    (repeat split; [..| apply Forall_cons_2; [| apply Forall_cons_2; [| apply Forall_nil_2]]]);
    vm_compute; repeat split; congruence.
Qed.

Lemma sample13_ok : slots_ok sample13.
Proof.
  split; [reflexivity | exact sample13_epochs_ok | | |].
  - intros i j e f Hi Hj _ _ E.
    destruct i as [| [| [| [| i]]]], j as [| [| [| [| j]]]];
      try discriminate Hi; try discriminate Hj; injection Hi as <-; injection Hj as <-;
      try reflexivity; discriminate E.
  - vm_compute. split; congruence.
  - vm_compute. split; congruence.
Qed.

Lemma Dtls13NewEpoch_total_witness :
  exists i, (Dtls13NewEpoch sample13 (Native.mk 5) DECRYPT_SIDE_ONLY).1 = 0 /\
    Dtls13GetEpoch (Dtls13NewEpoch sample13 (Native.mk 5) DECRYPT_SIDE_ONLY).2 (Native.mk 5) = Some i.
Proof.
  destruct (Dtls13NewEpoch_total sample13 (Native.mk 5) DECRYPT_SIDE_ONLY sample13_ok)
    as (i & e & s' & E & _ & G & _).
  - vm_compute. split; congruence.
  - intros e He _. unfold sample13 in He. cbn in He. rewrite !elem_of_cons in He.
    destruct He as [-> | [-> | [-> | [-> | He]]]]; [vm_compute; reflexivity.. | inversion He].
  - exists i. rewrite E. split; [reflexivity | exact G].
Defined.

(** [C27] A record number survives truncation: for a record whose number is
    within half of the truncation range (2^7 or 2^15) of the next expected
    one, [Dtls13ReconstructSeqNumber] rebuilds the full 64-bit number from
    the 8 or 16 low bits in the header. *)
Theorem Dtls13ReconstructSeqNumber_exact {T} `{W64 T} (s : Dtls13 (T := T)) i e wide n :
  dtls13DecryptEpoch s = Some i -> dtls13Epochs s !! i = Some e -> epoch_ok e -> is_word 64 n ->
  let half := 2 ^ (seq_bits wide - 1) in
  - half < n - w64_val (nextPeerSeqNumber e) < half ->
  exists x, Dtls13ReconstructSeqNumber s (hdr_of_seq wide n) = Some x /\ w64_ok x /\ w64_val x = n.
Proof. exact (reconstruct_ok s i e wide n). Qed.

Lemma Dtls13ReconstructSeqNumber_exact_witness :
  exists x, Dtls13ReconstructSeqNumber sample13 (hdr_of_seq false 77) = Some x /\ w64_val x = 77.
Proof.
  destruct (Dtls13ReconstructSeqNumber_exact sample13 1 (blank_epoch true (Native.mk 2)) false 77
              eq_refl eq_refl) as (x & E & _ & V).
  - exact (Forall_lookup_1 _ _ 1%nat _ sample13_epochs_ok eq_refl).
  - unfold is_word; lia.
  - vm_compute. split; reflexivity.
  - exists x. auto.
Defined.

(** [Dtls13ReconstructEpochNumber] returns the peer's current epoch when
    the two header bits match it, otherwise the highest stored epoch with
    these bits that may decrypt; it fails with [SEQUENCE_ERROR] exactly when
    no stored epoch above 0 qualifies. *)
Theorem Dtls13ReconstructEpochNumber_best {T} `{W64 T} (s : Dtls13 (T := T)) bits :
  Forall epoch_ok (dtls13Epochs s) ->
  match Dtls13ReconstructEpochNumber s bits with
  | inr n =>
      Dtls13GetEpochBits n = bits /\
      (n = dtls13PeerEpoch s \/
       (exists e, e ∈ dtls13Epochs s /\ can_decrypt bits e /\ epochNumber e = n) /\
       (forall e, e ∈ dtls13Epochs s -> can_decrypt bits e -> evnum e <= w64_val n))
  | inl r =>
      r = SEQUENCE_ERROR /\ Dtls13GetEpochBits (dtls13PeerEpoch s) <> bits /\
      (forall e, e ∈ dtls13Epochs s -> can_decrypt bits e -> evnum e <= 0)
  end.
Proof.
  intros Hl. unfold Dtls13ReconstructEpochNumber.
  destruct (Z.eqb_spec (Dtls13GetEpochBits (dtls13PeerEpoch s)) bits) as [Eb | Nb]; [auto |].
  destruct w64Zero_val as [Oz Vz].
  pose proof (best_epoch_ok bits (dtls13Epochs s) false w64Zero Hl Oz) as B.
  destruct (best_epoch bits (dtls13Epochs s) false w64Zero) as [[] n];
    destruct B as (_ & _ & Hmax & Ht & Hf).
  - destruct (Ht eq_refl) as [[_ ?] | (e & He & C & E)]; [discriminate |].
    split; [subst n; apply C |]. right. split; [now exists e | exact Hmax].
  - split; [reflexivity |]. split; [exact Nb |]. destruct (Hf eq_refl) as [_ ->].
    intros e He C. specialize (Hmax e He C). unfold evnum. lia.
Qed.

Lemma Dtls13ReconstructEpochNumber_best_witness :
  Dtls13ReconstructEpochNumber sample13 2 = inr (Native.mk 2) /\
  Dtls13GetEpochBits (Native.mk 2) = 2.
Proof.
  split; [reflexivity |].
  pose proof (Dtls13ReconstructEpochNumber_best sample13 2 sample13_epochs_ok) as B.
  exact (proj1 B).
Defined.

(** What an update for the slot [i], [e] of the record's epoch does. *)
Definition window_effect {T} `{W64 T} (s : Dtls13 (T := T)) (i : nat) (e : Dtls13Epoch (T := T)) (r : Z) (s' : Dtls13 (T := T)) : Prop :=
  let seq := w64_val (curSeq s) in
  if markable (w64_val (nextPeerSeqNumber e)) seq
  then r = 0 /\ (forall j, j <> i -> dtls13Epochs s' !! j = dtls13Epochs s !! j) /\
       exists e', s' = set_epoch s i (fun _ => e') /\ dtls13Epochs s' !! i = Some e' /\ epoch_ok e' /\
         epochNumber e' = epochNumber e /\ ekeys e' = ekeys e /\ isValid e' = isValid e /\
         epoch_abs e' ≡ spec_update (epoch_abs e) seq
  else r = BAD_STATE_E /\ s' = s.

Lemma update_window_at {T} `{W64 T} (s : Dtls13 (T := T)) d i e : dtls13DecryptEpoch s = Some d ->
  (exists f, dtls13Epochs s !! d = Some f /\
     (if negb (w64Equal (curEpoch64 s) (epochNumber f)) then Dtls13GetEpoch s (curEpoch64 s) else Some d) = Some i) ->
  dtls13Epochs s !! i = Some e -> epoch_ok e -> w64_ok (curSeq s) -> w64_val (curSeq s) + 1 < 2 ^ 64 ->
  let '(r, s') := Dtls13UpdateWindow s in window_effect s i e r s'.
Proof.
  intros Hd (f & Hf & Ht) He Ok Oq Hm. unfold Dtls13UpdateWindow. rewrite Hd, Hf, Ht. cbn [mbind option_bind]. rewrite He. cbn [mbind option_bind].
  pose proof (update13_ok (curSeq s) e Ok Oq Hm) as U. unfold window_effect. destruct (update_epoch_window (curSeq s) e) as [e' |].
  - destruct U as (-> & Ok' & E1 & _ & E2 & E3 & _ & A). split; [reflexivity |]. split.
    + intros j Hj. now rewrite set_epoch_lookup, decide_False by auto.
    + exists e'. rewrite set_epoch_lookup, decide_True, He by auto. auto 10.
  - rewrite U. auto.
Qed.

(** [C26] The DTLS 1.3 receive window refines the abstract replay window for
    every 64-bit record number but the last and on every branch.  Without a decryption
    epoch [Dtls13CheckWindow] refuses and [Dtls13UpdateWindow] returns
    [BAD_STATE_E].  With one, [Dtls13CheckWindow] answers as the contract does for
    its window, and [Dtls13UpdateWindow] works on the epoch of the record: the
    decryption epoch itself or, when that has changed since the record was
    received, the stored epoch with the record's number, [BAD_STATE_E] when there is
    none.  There it performs the contract's update and touches nothing
    else, or returns [BAD_STATE_E] with the state unchanged exactly when the number
    is below the window or 2^32 or more ahead of it. *)
Theorem Dtls13Window_refines {T} `{W64 T} (s : Dtls13 (T := T)) :
  slots_ok s -> w64_ok (curSeq s) -> w64_ok (curEpoch64 s) -> w64_val (curSeq s) + 1 < 2 ^ 64 ->
  let '(r, s') := Dtls13UpdateWindow s in
  match dtls13DecryptEpoch s with
  | None => Dtls13CheckWindow s = false /\ r = BAD_STATE_E /\ s' = s
  | Some d => forall e, dtls13Epochs s !! d = Some e ->
      Dtls13CheckWindow s = spec_check (epoch_abs e) (w64_val (curSeq s)) /\
      (w64_val (curEpoch64 s) = evnum e -> window_effect s d e r s') /\
      (w64_val (curEpoch64 s) <> evnum e ->
         (forall i f, dtls13Epochs s !! i = Some f -> isValid f = true -> evnum f = w64_val (curEpoch64 s) -> window_effect s i f r s') /\
         ((forall f, f ∈ dtls13Epochs s -> isValid f = true -> evnum f <> w64_val (curEpoch64 s)) -> r = BAD_STATE_E /\ s' = s))
  end.
Proof.
  intros Hs Oq Oc Hm. pose proof (so_epochs _ Hs) as Oe. pose proof (update_window_at s) as U.
  destruct (dtls13DecryptEpoch s) as [d |] eqn:Hd; [| unfold Dtls13UpdateWindow, Dtls13CheckWindow; rewrite Hd; auto].
  destruct (Dtls13UpdateWindow s) as [r s'] eqn:E. intros e He. pose proof (Forall_lookup_1 _ _ _ _ Oe He) as Ok.
  assert (W : w64Equal (curEpoch64 s) (epochNumber e) = (w64_val (curEpoch64 s) =? evnum e)) by (apply w64Equal_val; [exact Oc | apply Ok]).
  split; [exact (check13_ok s d e Hd He Ok Oq) |]. split.
  - intros Eq. apply (U d d e eq_refl); auto. exists e. split; [exact He |]. now rewrite W, (proj2 (Z.eqb_eq _ _) Eq).
  - intros Ne. apply Z.eqb_neq in Ne. split.
    + intros i f Hf Vf Ef. apply (U d i f eq_refl); auto; [| exact (Forall_lookup_1 _ _ _ _ Oe Hf)]. exists e. split; [exact He |].
      rewrite W, Ne. exact (find_epoch_unique _ _ _ _ Oc Oe (so_inj _ Hs) Hf Vf Ef).
    + intros No. unfold Dtls13UpdateWindow in E. rewrite Hd, He, W, Ne in E. cbn [negb] in E. unfold Dtls13GetEpoch in E.
      destruct (find_epoch (curEpoch64 s) (dtls13Epochs s)) as [i |] eqn:F; [| injection E as <- <-; auto].
      destruct (find_epoch_Some _ _ _ Oc Oe F) as (f & Hf & Vf & Ef). destruct (No f (list_elem_of_lookup_2 _ _ _ Hf) Vf Ef).
Qed.

Lemma Dtls13Window_refines_witness :
  let s := { sample13 with curEpoch64 := Native.mk 3 } in
  Dtls13CheckWindow s = true /\ window_effect s 2 (blank_epoch true (Native.mk 3)) (Dtls13UpdateWindow s).1 (Dtls13UpdateWindow s).2.
Proof.
  intros s. assert (Hs : slots_ok s) by (destruct sample13_ok; split; assumption).
  pose proof (Dtls13Window_refines s Hs) as R. destruct (Dtls13UpdateWindow s) as [r s'].
  destruct (R ltac:(vm_compute; split; congruence) ltac:(vm_compute; split; congruence) ltac:(vm_compute; reflexivity) _ eq_refl) as (C & _ & O).
  split; [exact C |]. apply (proj1 (O ltac:(vm_compute; discriminate)) 2%nat); reflexivity.
Defined.

(** ** No record is delivered twice *)
Section Replay13.
Context {T : Type} `{W64 T}.
Context (setKeysSide : KeyMaterial -> Z -> Z).

(** A record that arrives: its epoch and number, rebuilt; whether it deprotects; what
    [Dtls13RecordRecvd] returns; whether its handler makes the connection stateful. *)
Record arrival := { a_epoch : T; a_seq : T; a_auth : bool; a_recvd : Z; a_enter : bool }.

Record receiver := { r_conn : Dtls13 (T := T); r_stateful : bool }.

(** The record layer on one record, with what it delivers: epoch, number, and
    whether the connection was stateful. *)
Definition receive13 (r : receiver) (a : arrival) : receiver * list (bool * (Z * Z)) :=
  let '(ret, s) := select_epoch setKeysSide (r_conn r) (a_epoch a) in
  if negb (ret =? 0) then ({ r with r_conn := s }, [])
  else
    let s := { { s with curEpoch64 := a_epoch a } with curSeq := a_seq a } in
    if negb (a_auth a) then ({ r with r_conn := s }, [])
    else
      let '(v, s) := run_processing_one_record (r_stateful r) (a_recvd a) s in
      match v with
      | Processed => ({| r_conn := s; r_stateful := r_stateful r || a_enter a |}, [(r_stateful r, (w64_val (a_epoch a), w64_val (a_seq a)))])
      | _ => ({ r with r_conn := s }, [])
      end.

Fixpoint receive13_run (r : receiver) (l : list arrival) : list (bool * (Z * Z)) :=
  match l with
  | [] => []
  | a :: l => let '(r, d) := receive13 r a in d ++ receive13_run r l
  end.

Definition stateful_only (d : list (bool * (Z * Z))) : list (Z * Z) := snd <$> filter (fun x => x.1 = true) d.

Definition arrival_ok (a : arrival) : Prop := w64_ok (a_epoch a) /\ w64_ok (a_seq a) /\ w64_val (a_seq a) + 1 < 2 ^ 64.

(** The decryption epoch is a valid slot. *)
Definition decrypt_ok (s : Dtls13 (T := T)) : Prop :=
  forall d, dtls13DecryptEpoch s = Some d -> exists e, dtls13Epochs s !! d = Some e /\ isValid e = true.

(** The windows remember the log [l] of what was delivered while stateful. *)
Record guarded (s : Dtls13 (T := T)) (l : list (Z * Z)) : Prop := {
  gd_slots : slots_ok s;
  gd_decrypt : decrypt_ok s;
  gd_nodup : NoDup l;
  gd_log i e : dtls13Epochs s !! i = Some e -> isValid e = true -> remembers (epoch_abs e) (of_epoch (evnum e) l)
}.

Lemma SetEpochKeys_table s n : w64_ok n -> slots_ok s ->
  let '(r, s') := Dtls13SetEpochKeys setKeysSide s n DECRYPT_SIDE_ONLY in
  (dtls13Epochs s', dtls13Epoch s', dtls13PeerEpoch s') = (dtls13Epochs s, dtls13Epoch s, dtls13PeerEpoch s) /\
  (dtls13DecryptEpoch s' = dtls13DecryptEpoch s /\ r <> 0 \/
   exists i e, dtls13DecryptEpoch s' = Some i /\ dtls13Epochs s !! i = Some e /\ isValid e = true /\ evnum e = w64_val n).
Proof.
  intros On Hs. unfold Dtls13SetEpochKeys. destruct (side_flags s DECRYPT_SIDE_ONLY) as [[[c v] en] de] eqn:F.
  assert (De : de = true) by (unfold side_flags in F; cbn in F; congruence). subst de.
  destruct (Dtls13GetEpoch s n) as [i |] eqn:G; [| split; [reflexivity |]; left; split; [reflexivity | discriminate]].
  destruct (find_epoch_Some _ _ _ On (so_epochs _ Hs) G) as (e & He & Ve & Ee). rewrite He.
  destruct (_ && _); [split; [reflexivity |]; left; split; [reflexivity | discriminate] |].
  assert (X : forall s0, (if en then { s with dtls13EncryptEpoch := Some i } else s) = s0 ->
            (dtls13Epochs s0, dtls13Epoch s0, dtls13PeerEpoch s0) = (dtls13Epochs s, dtls13Epoch s, dtls13PeerEpoch s))
    by (intros s0 <-; destruct en, s; reflexivity).
  specialize (X _ eq_refl). destruct (w64IsZero n); (split; [exact X | right; exists i, e; auto]).
Qed.

(** Selecting the epoch of a record keeps the guard, and leaves its slot selected. *)
Lemma select_epoch_ok s n l : w64_ok n -> guarded s l ->
  let '(r, s') := select_epoch setKeysSide s n in
  guarded s' l /\ (r = 0 -> exists i e, dtls13DecryptEpoch s' = Some i /\ dtls13Epochs s' !! i = Some e /\ isValid e = true /\ evnum e = w64_val n).
Proof.
  intros On G. pose proof G as [Hs Hd Nd Hl]. unfold select_epoch.
  assert (Go : let '(r, s') := Dtls13SetEpochKeys setKeysSide s n DECRYPT_SIDE_ONLY in
               guarded s' l /\ ((if negb (r =? 0) then SEQUENCE_ERROR else 0) = 0 ->
                 exists i e, dtls13DecryptEpoch s' = Some i /\ dtls13Epochs s' !! i = Some e /\ isValid e = true /\ evnum e = w64_val n)).
  { pose proof (SetEpochKeys_table s n On Hs) as E. destruct (Dtls13SetEpochKeys _ _ _ _) as [r s']. destruct E as [E D]. injection E as E1 E2 E3.
    split.
    - split; [destruct Hs; split; rewrite ?E1, ?E2, ?E3; assumption | | exact Nd | rewrite E1; exact Hl].
      intros d Ed. rewrite E1. destruct D as [[D _] | (i & e & D & He & Ve & _)]; [apply Hd; congruence |]. assert (d = i) as -> by congruence. eauto.
    - intros R. destruct D as [[_ D] | (i & e & D & He & Ve & Ee)]; [apply Z.eqb_neq in D; rewrite D in R; discriminate |]. exists i, e. now rewrite E1. }
  destruct (dtls13DecryptEpoch s) as [d |] eqn:Ed; cbn [mbind option_bind]; [| destruct (Dtls13SetEpochKeys _ _ _ _); exact Go].
  destruct (Hd d Ed) as (e & He & Ve). rewrite He. rewrite w64Equal_val by (exact On || apply (Forall_lookup_1 _ _ _ _ (so_epochs _ Hs) He)).
  destruct (Z.eqb_spec (w64_val (epochNumber e)) (w64_val n)) as [Eq | Ne]; cbn [negb]; [| destruct (Dtls13SetEpochKeys _ _ _ _); exact Go].
  split; [exact G |]. intros _. exists d, e. auto.
Qed.

Lemma guarded_update s i e e' n q l : guarded s l -> dtls13Epochs s !! i = Some e -> isValid e = true -> evnum e = n ->
  epoch_ok e' -> evnum e' = evnum e -> isValid e' = isValid e -> epoch_abs e' ≡ spec_update (epoch_abs e) q ->
  spec_check (epoch_abs e) q = true ->
  guarded (set_epoch s i (fun _ => e')) ((n, q) :: l).
Proof.
  intros [[Sl Se Si Sc Sp] Hd Nd Hl] He Ve En Ok' En' Ve' A C. subst n.
  assert (L : forall j f', dtls13Epochs (set_epoch s i (fun _ => e')) !! j = Some f' ->
            exists f, dtls13Epochs s !! j = Some f /\ isValid f' = isValid f /\ evnum f' = evnum f /\ (j <> i -> f' = f) /\ (j = i -> f = e /\ f' = e')).
  { intros j f' Hj. rewrite set_epoch_lookup in Hj. destruct (decide (i = j)) as [<- | N].
    - rewrite He in Hj. injection Hj as <-. exists e. repeat split; auto; congruence.
    - exists f'. repeat split; auto; congruence. }
  split.
  - split; [| | | exact Sc | exact Sp].
    + unfold set_epoch. cbn. now rewrite length_alter.
    + apply Forall_lookup_2. intros j f' Hj. destruct (L j f' Hj) as (f & Hf & _ & _ & N & I). destruct (decide (j = i)) as [E | E].
      * now destruct (I E) as [_ ->].
      * rewrite (N E). exact (Forall_lookup_1 _ _ _ _ Se Hf).
    + intros j k f' g' Hj Hk Vf Vg E. destruct (L j f' Hj) as (f & Hf & V1 & E1 & _). destruct (L k g' Hk) as (g & Hg & V2 & E2 & _).
      apply (Si j k f g Hf Hg); congruence.
  - intros d Ed. destruct (Hd d Ed) as (f & Hf & Vf). rewrite set_epoch_lookup. destruct (decide (i = d)) as [<- | N]; [| eauto].
    rewrite Hf. exists e'. split; [reflexivity | congruence].
  - constructor; [| exact Nd]. intros Hin. apply (remembers_not_fresh _ _ _ (Hl i e He Ve) C), of_epoch_spec. exact Hin.
  - intros j f' Hj Vf'. destruct (L j f' Hj) as (f & Hf & V1 & E1 & N & I). destruct (decide (j = i)) as [-> | E].
    + destruct (I eq_refl) as [-> ->]. rewrite E1, of_epoch_cons_eq, A. apply remembers_update, (Hl i e); assumption.
    + rewrite (N E) in *. rewrite of_epoch_cons_ne; [apply (Hl j f); assumption |]. intros X. apply E. apply (Si j i f e Hf He); congruence.
Qed.

Lemma receive13_ok r a l : arrival_ok a -> guarded (r_conn r) l ->
  let '(r', d) := receive13 r a in guarded (r_conn r') (rev (stateful_only d) ++ l).
Proof.
  intros (Oe & Oq & Hm) G. unfold receive13. pose proof (select_epoch_ok (r_conn r) (a_epoch a) l Oe G) as S.
  destruct (select_epoch setKeysSide (r_conn r) (a_epoch a)) as [ret s]. destruct S as [G1 S]. destruct (Z.eqb_spec ret 0) as [-> | Nr]; cbn [negb]; [| exact G1].
  destruct (S eq_refl) as (i & e & Hd & He & Ve & Ee). set (s1 := { { s with curEpoch64 := a_epoch a } with curSeq := a_seq a }).
  assert (G2 : guarded s1 l) by (destruct G1 as [[] ? ? ?]; split; [split; assumption | assumption..]).
  destruct (a_auth a); cbn [negb]; [| exact G2]. unfold run_processing_one_record.
  pose proof (Forall_lookup_1 _ _ _ _ (so_epochs _ (gd_slots _ _ G2)) He) as Ok.
  pose proof (check13_ok s1 i e Hd He Ok Oq) as C. destruct (Dtls13CheckWindow s1); cbn [negb]; [| exact G2].
  destruct (r_stateful r) eqn:St; [| exact G2]. unfold Dtls13UpdateWindowRecordRecvd.
  assert (W : exists f, dtls13Epochs s1 !! i = Some f /\ (if negb (w64Equal (curEpoch64 s1) (epochNumber f)) then Dtls13GetEpoch s1 (curEpoch64 s1) else Some i) = Some i).
  { exists e. split; [exact He |]. change (curEpoch64 s1) with (a_epoch a). rewrite w64Equal_val by (exact Oe || apply Ok).
    unfold evnum in Ee. now rewrite Ee, Z.eqb_refl. }
  pose proof (update_window_at s1 i i e Hd W He Ok Oq Hm) as U. destruct (Dtls13UpdateWindow s1) as [u s2]. unfold window_effect in U.
  destruct (markable _ _); [| destruct U as [-> ->]; exact G2].
  destruct U as (-> & _ & e' & -> & _ & Ok' & En & _ & Vn & A). cbn [Z.eqb negb].
  assert (G3 : guarded (set_epoch s1 i (fun _ => e')) ((w64_val (a_epoch a), w64_val (a_seq a)) :: l)).
  { apply (guarded_update s1 i e e'); auto. unfold evnum. now rewrite En. }
  destruct (a_recvd a =? 0); cbn [negb]; [exact G3 |].
  destruct G3 as [? ? Nd Hl]. split; [assumption | assumption | now apply NoDup_cons_1_2 in Nd |].
  intros j f Hj Vf x Hx. apply (Hl j f Hj Vf). apply of_epoch_spec in Hx. apply of_epoch_spec. now right.
Qed.

Lemma receive13_run_ok evs : forall r l, Forall arrival_ok evs -> guarded (r_conn r) l -> NoDup (rev (stateful_only (receive13_run r evs)) ++ l).
Proof.
  induction evs as [| a evs IH]; intros r l F G; [exact (gd_nodup _ _ G) |]. apply Forall_cons_1 in F as [Fa F].
  cbn [receive13_run]. pose proof (receive13_ok r a l Fa G) as S. destruct (receive13 r a) as [r' d]. specialize (IH r' _ F S).
  unfold stateful_only in *. now rewrite list.filter_app, fmap_app, rev_app_distr, <- app_assoc.
Qed.

(** [C5] Anti-replay for DTLS 1.3: whatever the windows hold, no sequence of
    records of any epochs of the table, in any order and with any replays and forgeries,
    makes the record layer of a stateful connection process one number of an
    epoch twice, the decryption keys following the records from epoch to epoch; the
    table itself gets no new epoch in between.  (While
    the connection is stateless the window is not updated, [stateless_replay];
    the code enters that state once, at the first valid cookie.)  Unlike the
    DTLS 1.2 window this holds up to the end of the 64-bit range. *)
Theorem no_replay_delivered13 (r : receiver) (evs : list arrival) :
  slots_ok (r_conn r) -> decrypt_ok (r_conn r) -> Forall arrival_ok evs ->
  NoDup (stateful_only (receive13_run r evs)).
Proof.
  intros Hs Hd F. pose proof (receive13_run_ok evs r [] F) as R. rewrite app_nil_r in R.
  rewrite (Permutation_rev (stateful_only (receive13_run r evs))). apply R. split; [exact Hs | exact Hd | constructor |].
  intros i e _ _ q Hq. inversion Hq.
Qed.

End Replay13.

Definition sample_arrival (n q : Z) (auth enter : bool) : arrival (T := Native.w64wrapper) :=
  {| a_epoch := Native.mk n; a_seq := Native.mk q; a_auth := auth; a_recvd := 0; a_enter := enter |}.

(** A stateless server processes a repeated number. *)
Example stateless_replay :
  receive13_run (fun _ _ => 0) {| r_conn := sample13; r_stateful := false |}
    [sample_arrival 2 5 true false; sample_arrival 2 5 true true; sample_arrival 2 5 true false; sample_arrival 2 5 true false] =
  [(false, (2, 5)); (false, (2, 5)); (true, (2, 5))].
Proof. reflexivity. Qed.

Lemma no_replay_delivered13_witness :
  let evs := [sample_arrival 2 5 true false; sample_arrival 2 5 true false; sample_arrival 2 9 false false; sample_arrival 3 5 true false;
              sample_arrival 2 9 true false; sample_arrival 3 5 true false; sample_arrival 2 7 true false; sample_arrival 2 5 true false] in
  let d := receive13_run (fun _ _ => 0) {| r_conn := sample13; r_stateful := true |} evs in
  stateful_only d = [(2, 5); (3, 5); (2, 9); (2, 7)] /\ NoDup (stateful_only d).
Proof.
  intros evs d. split; [reflexivity |].
  apply (no_replay_delivered13 (fun _ _ => 0) {| r_conn := sample13; r_stateful := true |} evs sample13_ok).
  - intros k Hk. cbn in Hk. injection Hk as <-. eexists. split; reflexivity.
  - repeat apply Forall_cons_2; try apply Forall_nil_2; vm_compute; repeat split; congruence.
Defined.
