(* ===== verification/TlsKeys13.v ===== *)
(** * src/tls13.c, src/keys.c, src/dtls13.c: the TLS 1.3 key schedule

    [Tls13DeriveKey], [DeriveKeyMsg], the early, handshake and master secrets, the
    binder, traffic, exporter, resumption and finished secrets, [Tls13_Exporter],
    [BuildTls13HandshakeHmac], [DeriveTls13Keys] with [StoreKeys] and, for
    DTLS, [Dtls13DeriveSnKeys] and the epoch of Dtls13Epoch.v the keys go to.

    [ssl->specs.mac_algorithm] selects the instance of [Hash], and
    [specs.hash_size] is its digest size.  Without QUIC, callbacks, secure renegotiation
    and multicast.  A derivation that fails leaves its output buffer as it was.
    [DeriveTrafficSecret] and [DeriveHandshakeSecret] write over their input, which
    the code below them has read by then. *)

From stdpp Require Import strings.
From S2P Require Import Prelude Misc W64 Tls Sha256 Hmac Hkdf Dtls13Epoch.
From stdpp Require Import list.

#[local] Open Scope Z_scope.
#[local] Open Scope cword_scope.

Definition TLSv1_3_MINOR : Z := 4.
Definition DTLSv1_3_MINOR : Z := 0xfc.
Definition PROVISION_CLIENT : Z := 1.
Definition PROVISION_SERVER : Z := 2.
Definition PROVISION_CLIENT_SERVER : Z := 3.
Definition PSK_KEY_ERROR : Z := -333.
Definition DTLS13_EPOCH_EARLYDATA : Z := 1.
Definition DTLS13_EPOCH_HANDSHAKE : Z := 2.
Definition DTLS13_EPOCH_TRAFFIC0 : Z := 3.
Definition AEAD_MAX_EXP_SZ : nat := 8.

(** [enum DeriveKeyType]: what to derive keys for; [other_key]: no constant of it. *)
Inductive secret_key := no_key | early_data_key | handshake_key | traffic_key | update_traffic_key | other_key.

(** The bytes of a C string without its end. *)
Definition bytes_of (s : string) : list Z := map (fun c => Z.of_N (Ascii.N_of_ascii c)) (String.list_ascii_of_string s).

Definition tls13ProtocolLabel : list Z := bytes_of "tls13 "%string.
Definition dtls13ProtocolLabel : list Z := bytes_of "dtls13"%string.
Definition clientHandshakeLabel : list Z := bytes_of "c hs traffic"%string.
Definition serverHandshakeLabel : list Z := bytes_of "s hs traffic"%string.
Definition clientAppLabel : list Z := bytes_of "c ap traffic"%string.
Definition serverAppLabel : list Z := bytes_of "s ap traffic"%string.
Definition exporterMasterLabel : list Z := bytes_of "exp master"%string.
Definition resumeMasterLabel : list Z := bytes_of "res master"%string.
Definition finishedLabel : list Z := bytes_of "finished"%string.
Definition appTrafficLabel : list Z := bytes_of "traffic upd"%string.
Definition exporterLabel : list Z := bytes_of "exporter"%string.
Definition binderKeyLabel : list Z := bytes_of "ext binder"%string.
Definition binderKeyResumeLabel : list Z := bytes_of "res binder"%string.
Definition earlyTrafficLabel : list Z := bytes_of "c e traffic"%string.
Definition snLabel : list Z := bytes_of "sn"%string.
Definition derivedLabel : list Z := bytes_of "derived"%string.
Definition resumptionLabel : list Z := bytes_of "resumption"%string.
Definition writeKeyLabel : list Z := bytes_of "key"%string.
Definition writeIVLabel : list Z := bytes_of "iv"%string.

Section Keys13.
  Context {H : Hash} {T : Type} `{W64 T}.

(** What the key schedule reads and writes: [options], [version], [specs],
    [hsHashes], [arrays], the two secrets; [conn] holds [ssl->keys] and
    the DTLS epochs. *)
Record Ssl := mk_ssl {
  dtls : bool; minor : Z; saveArrays : bool; is_aead : bool; key_size : Z; iv_size : Z;
  hsHash : hctx;
  psk_key : list Z; psk_keySz : Z; secret : list Z; preMasterSecret : list Z; preMasterSz : Z;
  masterSecret : list Z; exporterSecret : list Z;
  clientSecret : list Z; serverSecret : list Z;
  client_write_MAC_secret : list Z; server_write_MAC_secret : list Z; aead_exp_IV : list Z;
  conn : Dtls13 (T := T)
}.

(** [XMEMCPY] to the start of a buffer. *)
Definition store (out buf : list Z) : list Z := out ++ drop (length out) buf.

Definition set_secret (v : list Z) (s : Ssl) : Ssl := { s with secret := store v (secret s) }.
Definition set_preMaster (v : list Z) (s : Ssl) : Ssl := { s with preMasterSecret := store v (preMasterSecret s) }.
Definition set_master (v : list Z) (s : Ssl) : Ssl := { s with masterSecret := store v (masterSecret s) }.
Definition set_exporter (v : list Z) (s : Ssl) : Ssl := { s with exporterSecret := store v (exporterSecret s) }.
Definition set_client (v : list Z) (s : Ssl) : Ssl := { s with clientSecret := store v (clientSecret s) }.
Definition set_server (v : list Z) (s : Ssl) : Ssl := { s with serverSecret := store v (serverSecret s) }.

(** A derivation whose output goes to a field. *)
Definition into (put : list Z -> Ssl -> Ssl) (r : Z * list Z) (s : Ssl) : Z * Ssl :=
  let '(ret, out) := r in if ret =? 0 then (0, put out s) else (ret, s).

(** ** Deriving keys *)

Definition protocol_of (s : Ssl) : list Z := if dtls s then dtls13ProtocolLabel else tls13ProtocolLabel.

Definition Tls13DeriveKey (s : Ssl) (outputLen : Z) (sec label : list Z) (includeMsgs : bool) : Z * list Z :=
  let hashSz := h_digest in
  let '(ret, hash) :=
    if includeMsgs then let '(ret, d, _) := h_final (hsHash s) in (ret, d)   (* GetHash: of a copy *)
    else (0, []) in
  if negb (ret =? 0) then (ret, [])
  else
    let outputLen := if outputLen =? -1 then hashSz else outputLen in
    wc_Tls13_HKDF_Expand_Label_ex (u32 outputLen) (take (Z.to_nat hashSz) sec) (protocol_of s) label hash.

(** [wc_<Hash>Init], [Update] and [Final] of one message. *)
Definition one_shot (msg : list Z) : Z * list Z :=
  let '(ret, c) := h_update h_init msg in
  if ret =? 0 then let '(ret, d, _) := h_final c in (ret, d) else (ret, []).

Definition DeriveKeyMsg (s : Ssl) (outputLen : Z) (sec label msg : list Z) : Z * list Z :=
  let hashSz := h_digest in
  let '(ret, hash) := one_shot msg in
  if negb (ret =? 0) then (ret, [])
  else
    let expand protocol :=
      let outputLen := if outputLen =? -1 then hashSz else outputLen in
      wc_Tls13_HKDF_Expand_Label_ex (u32 outputLen) (take (Z.to_nat hashSz) sec) protocol label hash in
    if minor s =? TLSv1_3_MINOR then expand tls13ProtocolLabel
    else if minor s =? DTLSv1_3_MINOR then if negb (dtls s) then (VERSION_ERROR, []) else expand dtls13ProtocolLabel
    else (VERSION_ERROR, []).

Definition Tls13_HKDF_Extract (s : Ssl) (salt : option (list Z)) (ikm : list Z) : Z * list Z :=
  if sint 32 (psk_keySz s) <? 0 then (PSK_KEY_ERROR, []) else wc_Tls13_HKDF_Extract_ex salt ikm.

(** ** Secrets *)

Definition DeriveBinderKey (s : Ssl) : Z * list Z := DeriveKeyMsg s (-1) (secret s) binderKeyLabel [].
Definition DeriveBinderKeyResume (s : Ssl) : Z * list Z := DeriveKeyMsg s (-1) (secret s) binderKeyResumeLabel [].

Definition DeriveEarlySecret (s : Ssl) : Z * Ssl :=
  into set_secret (Tls13_HKDF_Extract s None (take (Z.to_nat (psk_keySz s)) (psk_key s))) s.

Definition DeriveHandshakeSecret (s : Ssl) : Z * Ssl :=
  let '(ret, key) := DeriveKeyMsg s (-1) (secret s) derivedLabel [] in
  if ret =? 0
  then into set_preMaster (Tls13_HKDF_Extract s (Some key) (take (Z.to_nat (preMasterSz s)) (preMasterSecret s))) s
  else (ret, s).

Definition DeriveExporterSecret (s : Ssl) : Z * Ssl :=
  into set_exporter (Tls13DeriveKey s (-1) (masterSecret s) exporterMasterLabel true) s.

Definition DeriveMasterSecret (s : Ssl) : Z * Ssl :=
  let '(ret, key) := DeriveKeyMsg s (-1) (preMasterSecret s) derivedLabel [] in
  let '(ret, s) := if ret =? 0 then into set_master (Tls13_HKDF_Extract s (Some key) []) s else (ret, s) in
  if negb (ret =? 0) then (ret, s)
  else if saveArrays s then DeriveExporterSecret s else (ret, s).

Definition DeriveEarlyTrafficSecret (s : Ssl) : Z * list Z := Tls13DeriveKey s (-1) (secret s) earlyTrafficLabel true.
Definition DeriveClientHandshakeSecret (s : Ssl) : Z * list Z := Tls13DeriveKey s (-1) (preMasterSecret s) clientHandshakeLabel true.
Definition DeriveServerHandshakeSecret (s : Ssl) : Z * list Z := Tls13DeriveKey s (-1) (preMasterSecret s) serverHandshakeLabel true.
Definition DeriveClientTrafficSecret (s : Ssl) : Z * list Z := Tls13DeriveKey s (-1) (masterSecret s) clientAppLabel true.
Definition DeriveServerTrafficSecret (s : Ssl) : Z * list Z := Tls13DeriveKey s (-1) (masterSecret s) serverAppLabel true.
Definition DeriveResumptionSecret (s : Ssl) : Z * list Z := Tls13DeriveKey s (-1) (masterSecret s) resumeMasterLabel true.
Definition DeriveFinishedSecret (s : Ssl) (key : list Z) : Z * list Z := Tls13DeriveKey s (-1) key finishedLabel false.
Definition DeriveTrafficSecret (s : Ssl) (sec : list Z) : Z * list Z := Tls13DeriveKey s (-1) sec appTrafficLabel false.

(** [resumptionSecret]: [ssl->session->masterSecret]. *)
Definition DeriveResumptionPSK (s : Ssl) (resumptionSecret nonce : list Z) : Z * list Z :=
  wc_Tls13_HKDF_Expand_Label_ex h_digest (take (Z.to_nat h_digest) resumptionSecret) (protocol_of s) resumptionLabel nonce.

(** [emptyHash]: the table of the hash of the empty string.  Lengths are of
    [size_t]. *)
Definition Tls13_Exporter (emptyHash : list Z) (s : Ssl) (outLen : Z) (label context : list Z) : Z * list Z :=
  if dtls s && negb (minor s =? DTLSv1_3_MINOR) then (VERSION_ERROR, [])
  else if negb (dtls s) && negb (minor s =? TLSv1_3_MINOR) then (VERSION_ERROR, [])
  else if Zlen context >? 0xffffffff then (BAD_FUNC_ARG, [])
  else if outLen >? 0xffff then (BAD_FUNC_ARG, [])
  else if u64 (Zlen label + Zlen (protocol_of s)) >? 255 then (BAD_FUNC_ARG, [])
  else
    let '(ret, firstExpand) :=
      wc_Tls13_HKDF_Expand_Label_ex h_digest (take (Z.to_nat h_digest) (exporterSecret s)) (protocol_of s) label emptyHash in
    if negb (ret =? 0) then (ret, [])
    else
      let '(ret, hashOut) := one_shot context in
      if negb (ret =? 0) then (ret, [])
      else wc_Tls13_HKDF_Expand_Label_ex (u32 outLen) firstExpand (protocol_of s) exporterLabel hashOut.

(** ** [BuildTls13HandshakeHmac] *)
Definition BuildTls13HandshakeHmac (s : Ssl) (key : list Z) : Z * list Z :=
  let '(ret, hash, _) := h_final (hsHash s) in
  if negb (ret =? 0) then (ret, [])
  else
    let '(ret, verifyHmac) := wc_HmacSetKey stack_hmac (take (Z.to_nat h_digest) key) in
    let '(ret, verifyHmac) := if ret =? 0 then wc_HmacUpdate verifyHmac hash else (ret, verifyHmac) in
    if ret =? 0 then let '(ret, hash, verifyHmac) := wc_HmacFinal verifyHmac in (ret, hash) else (ret, []).

(** ** [DeriveTls13Keys] *)

Definition provision_of (s : Ssl) (encrypt_side : Z) : Z :=
  if encrypt_side =? ENCRYPT_AND_DECRYPT_SIDE then PROVISION_CLIENT_SERVER
  else if xorb (negb (side (conn s) =? WOLFSSL_CLIENT_END)) (encrypt_side =? ENCRYPT_SIDE_ONLY) then PROVISION_CLIENT else PROVISION_SERVER.

Definition for_client (provision : Z) : bool := negb (Z.land provision PROVISION_CLIENT =? 0).
Definition for_server (provision : Z) : bool := negb (Z.land provision PROVISION_SERVER =? 0).

(** What is asked for of the two sides, the first error ends it. *)
Definition both (provision : Z) (client server : Ssl -> Z * Ssl) (s : Ssl) : Z * Ssl :=
  let '(ret, s) := if for_client provision then client s else (0, s) in
  if negb (ret =? 0) then (ret, s)
  else if for_server provision then server s else (0, s).

Definition derive_secrets (sec : secret_key) (provision : Z) (s : Ssl) : Z * Ssl :=
  let both client server := both provision (fun s => into set_client (client s) s) (fun s => into set_server (server s) s) s in
  match sec with
  | early_data_key => into set_client (DeriveEarlyTrafficSecret s) s
  | handshake_key => both DeriveClientHandshakeSecret DeriveServerHandshakeSecret
  | traffic_key => both DeriveClientTrafficSecret DeriveServerTrafficSecret
  | update_traffic_key => both (fun s => DeriveTrafficSecret s (clientSecret s)) (fun s => DeriveTrafficSecret s (serverSecret s))
  | no_key => (0, s)
  | other_key => (BAD_FUNC_ARG, s)
  end.

(** One entry of the key data, behind [key_dig]. *)
Definition key_data (wanted : bool) (s : Ssl) (size : Z) (sec label key_dig : list Z) : Z * list Z :=
  if wanted then
    let '(ret, out) := Tls13DeriveKey s size sec label false in
    if ret =? 0 then (0, key_dig ++ out) else (ret, key_dig)
  else (0, key_dig).

(** Key data = client key | server key | client IV | server IV *)
Definition derive_key_data (provision : Z) (s : Ssl) : Z * list Z :=
  let '(ret, key_dig) := key_data (for_client provision) s (key_size s) (clientSecret s) writeKeyLabel [] in
  if negb (ret =? 0) then (ret, key_dig)
  else
    let '(ret, key_dig) := key_data (for_server provision) s (key_size s) (serverSecret s) writeKeyLabel key_dig in
    if negb (ret =? 0) then (ret, key_dig)
    else
      let '(ret, key_dig) := key_data (for_client provision) s (iv_size s) (clientSecret s) writeIVLabel key_dig in
      if negb (ret =? 0) then (ret, key_dig)
      else key_data (for_server provision) s (iv_size s) (serverSecret s) writeIVLabel key_dig.

(** [ssl->keys] *)
Definition set_keys (f : KeyMaterial -> KeyMaterial) (s : Ssl) : Ssl := { s with conn := { conn s with keys := f (keys (conn s)) } }.

Definition put_client_key (v : list Z) : Ssl -> Ssl := set_keys (fun k => { k with client_write_key := store v (client_write_key k) }).
Definition put_server_key (v : list Z) : Ssl -> Ssl := set_keys (fun k => { k with server_write_key := store v (server_write_key k) }).
Definition put_client_IV (v : list Z) : Ssl -> Ssl := set_keys (fun k => { k with client_write_IV := store v (client_write_IV k) }).
Definition put_server_IV (v : list Z) : Ssl -> Ssl := set_keys (fun k => { k with server_write_IV := store v (server_write_IV k) }).
Definition put_client_sn (v : list Z) : Ssl -> Ssl := set_keys (fun k => { k with client_sn_key := store v (client_sn_key k) }).
Definition put_server_sn (v : list Z) : Ssl -> Ssl := set_keys (fun k => { k with server_sn_key := store v (server_sn_key k) }).
Definition put_client_MAC (v : list Z) (s : Ssl) : Ssl := { s with client_write_MAC_secret := store v (client_write_MAC_secret s) }.
Definition put_server_MAC (v : list Z) (s : Ssl) : Ssl := { s with server_write_MAC_secret := store v (server_write_MAC_secret s) }.

(** A piece of [keyData] copied to its key when it is wanted, and the rest. *)
Definition copy_key (wanted : bool) (sz : Z) (put : list Z -> Ssl -> Ssl) (keyData : list Z) (s : Ssl) : list Z * Ssl :=
  if wanted then (drop (Z.to_nat sz) keyData, put (take (Z.to_nat sz) keyData) s) else (keyData, s).

Definition StoreKeys (keyData : list Z) (provision : Z) (s : Ssl) : Z * Ssl :=
  let c := for_client provision in
  let v := for_server provision in
  let mac := negb (is_aead s) in
  let '(keyData, s) := copy_key (mac && c) h_digest put_client_MAC keyData s in
  let '(keyData, s) := copy_key (mac && v) h_digest put_server_MAC keyData s in
  let '(keyData, s) := copy_key c (key_size s) put_client_key keyData s in
  let '(keyData, s) := copy_key v (key_size s) put_server_key keyData s in
  let '(keyData, s) := copy_key c (iv_size s) put_client_IV keyData s in
  let '(keyData, s) := copy_key v (iv_size s) put_server_IV keyData s in
  (0, if is_aead s then { s with aead_exp_IV := replicate AEAD_MAX_EXP_SZ 0 } else s).

Definition Dtls13DeriveSnKeys (provision : Z) (s : Ssl) : Z * Ssl :=
  both provision (fun s => into put_client_sn (Tls13DeriveKey s (key_size s) (clientSecret s) snLabel false) s)
                 (fun s => into put_server_sn (Tls13DeriveKey s (key_size s) (serverSecret s) snLabel false) s) s.

(** The second [switch]: the epoch the keys are for; [None]: [BAD_STATE_E]. *)
Definition key_epoch (sec : secret_key) (encrypt_side : Z) (s : Ssl) : option T :=
  match sec with
  | early_data_key => Some (w64From32 0 DTLS13_EPOCH_EARLYDATA)
  | handshake_key => Some (w64From32 0 DTLS13_EPOCH_HANDSHAKE)
  | traffic_key | no_key => Some (w64From32 0 DTLS13_EPOCH_TRAFFIC0)
  | update_traffic_key =>
      if encrypt_side =? ENCRYPT_SIDE_ONLY then Some (w64Increment (dtls13Epoch (conn s)))
      else if encrypt_side =? DECRYPT_SIDE_ONLY then Some (w64Increment (dtls13PeerEpoch (conn s)))
      else None
  | other_key => None
  end.

Definition new_epoch (sec : secret_key) (encrypt_side : Z) (s : Ssl) : Z * Ssl :=
  match key_epoch sec encrypt_side s with
  | None => (BAD_STATE_E, s)
  | Some epochNumber => let '(ret, d) := Dtls13NewEpoch (conn s) epochNumber encrypt_side in (ret, { s with conn := d })
  end.

(** The default case of the first [switch] does not go to the end: with
    [storing] its code is overwritten. *)
Definition leaves_switch (sec : secret_key) : bool := match sec with other_key => true | _ => false end.

Definition DeriveTls13Keys (sec : secret_key) (encrypt_side : Z) (storing : bool) (s : Ssl) : Z * Ssl :=
  let provision := provision_of s encrypt_side in
  let '(ret, s) := derive_secrets sec provision s in
  if negb (ret =? 0) && negb (leaves_switch sec) then (ret, s)
  else if negb storing then (ret, s)
  else
    let '(ret, key_dig) := derive_key_data provision s in
    if negb (ret =? 0) then (ret, s)
    else
      let '(ret, s) := StoreKeys key_dig provision s in
      if negb (ret =? 0) then (ret, s)
      else if dtls s then
        let '(ret, s) := Dtls13DeriveSnKeys provision s in
        if negb (ret =? 0) then (ret, s) else new_epoch sec encrypt_side s
      else (ret, s).

End Keys13.

(** ** RFC 8446, 7.1 (and RFC 9147, 5.9: the prefix is "dtls13") *)
Module KeySpec.
Section Spec.
  Context {H : Hash} {HS : HashSpec H} (prefix : list Z).

Definition expand_label (secret label context : list Z) (L : Z) : list Z := HkdfSpec.expand_label secret (prefix ++ label) context L.

(** Derive-Secret, of the messages [m]. *)
Definition derive_secret (secret label m : list Z) : list Z := expand_label secret label (hash m) h_digest.

Definition or_zeros (ikm : list Z) : list Z := if decide (ikm = []) then HkdfSpec.zeros else ikm.

Definition early (psk : list Z) : list Z := HkdfSpec.extract None (or_zeros psk).
Definition handshake (psk dhe : list Z) : list Z := HkdfSpec.extract (Some (derive_secret (early psk) derivedLabel [])) (or_zeros dhe).
Definition master (psk dhe : list Z) : list Z := HkdfSpec.extract (Some (derive_secret (handshake psk dhe) derivedLabel [])) HkdfSpec.zeros.

(** 7.2: the next generation of a traffic secret. *)
Definition next (secret : list Z) : list Z := expand_label secret appTrafficLabel [] h_digest.

(** Generation [n] from [secret] on. *)
Fixpoint generation (n : nat) (secret : list Z) : list Z :=
  match n with O => secret | S n => generation n (next secret) end.

(** 4.4.4: the verify data of a Finished under a base key. *)
Definition verify_data (base m : list Z) : list Z := HMAC (expand_label base finishedLabel [] h_digest) (hash m).

End Spec.
End KeySpec.

(** ** The operations compute it *)
Section Keys13Proofs.
  Context {H : Hash} {HS : HashSpec H} {T : Type} `{W64 T}.

Implicit Types s : Ssl (T := T).

(** The first [n] bytes of a buffer. *)
Definition front (n : Z) (buf : list Z) : list Z := take (Z.to_nat n) buf.

Definition digest_of (buf : list Z) : list Z := front h_digest buf.

Lemma front_store n v buf : Zlen v = n -> front n (store v buf) = v.
Proof using. intros E. unfold front, store. rewrite take_app_length'; [reflexivity |]. unfold Zlen in E. lia. Qed.

(** What a derivation relies on: the messages hashed so far are [m]. *)
Record ready (s : Ssl (T := T)) (m : list Z) : Prop := {
  rd_hash : holds (hsHash s) m;
  rd_minor : minor s = if dtls s then DTLSv1_3_MINOR else TLSv1_3_MINOR;
  rd_aead : is_aead s = true;
  rd_psk : 0 <= psk_keySz s < 2 ^ 31;
  rd_key : 0 <= key_size s <= 255;
  rd_iv : 0 <= iv_size s <= 255;
  rd_bytes : Forall is_bytes [psk_key s; secret s; preMasterSecret s; masterSecret s; clientSecret s; serverSecret s]
}.

Definition label_ok (l : list Z) : Prop := is_bytes l /\ Zlen l <= 12.

(** For the labels of the schedule. *)
Ltac label := split; [apply (bool_decide_unpack _); vm_compute; exact I | vm_compute; discriminate].

Lemma protocol_ok s : is_bytes (protocol_of s) /\ Zlen (protocol_of s) = 6.
Proof using. unfold protocol_of. destruct (dtls s); (split; [apply (bool_decide_unpack _); vm_compute; exact I | reflexivity]). Qed.

Lemma digest_of_ok buf : is_bytes buf -> is_bytes (digest_of buf) /\ Zlen (digest_of buf) < 2 ^ 32.
Proof using HS.
  intros B. split; [now apply Forall_take |]. unfold digest_of, front, Zlen. rewrite length_take. pose proof h_digest_le. lia.
Qed.

(** Every label and context of the schedule fits. *)
Lemma Expand_protocol_spec s L sec label info : is_bytes sec -> Zlen sec < 2 ^ 32 -> label_ok label -> is_bytes info -> Zlen info <= 64 ->
  0 <= L <= 255 ->
  wc_Tls13_HKDF_Expand_Label_ex L sec (protocol_of s) label info = (0, KeySpec.expand_label (protocol_of s) sec label info L).
Proof using.
  intros Bs Ls [Bl Ll] Bi Li HL. destruct (protocol_ok s) as [Bp Lp]. pose proof h_digest_le. pose proof (Zlen_nonneg label).
  rewrite Expand_Label_spec; try assumption; try (unfold is_word; lia). change MAX_TLS13_HKDF_LABEL_SZ with 111.
  match goal with |- context [?a >? 111] => destruct (Z.gtb_spec a 111); [lia |] end. destruct (Z.leb_spec L (255 * h_digest)); [reflexivity | lia].
Qed.

Definition context_of (m : list Z) (includeMsgs : bool) : list Z := if includeMsgs then hash m else [].

Definition length_of (outputLen : Z) : Z := if outputLen =? -1 then h_digest else outputLen.

Lemma context_ok m b : is_bytes (context_of m b) /\ Zlen (context_of m b) <= 64.
Proof using.
  pose proof h_digest_le. destruct b; cbn [context_of]; [split; [apply hash_bytes | rewrite hash_length; lia] | split; [constructor | now vm_compute]].
Qed.

Lemma Tls13DeriveKey_spec s m L sec label b : ready s m -> is_bytes sec -> label_ok label -> L = -1 \/ 0 <= L <= 255 ->
  Tls13DeriveKey s L sec label b = (0, KeySpec.expand_label (protocol_of s) (digest_of sec) label (context_of m b) (length_of L)).
Proof using.
  intros R Bs Ol HL. unfold Tls13DeriveKey. pose proof h_digest_le. destruct (digest_of_ok sec Bs) as [Bd Ld]. destruct (context_ok m b) as [Bc Lc].
  assert (E : (if b then let '(ret, d, _) := h_final (hsHash s) in (ret, d) else (0, [])) = (0, context_of m b))
    by (destruct b; [rewrite (holds_final _ _ (rd_hash _ _ R)) |]; reflexivity).
  rewrite E. cbn [Z.eqb negb]. assert (EL : u32 (if L =? -1 then h_digest else L) = length_of L)
    by (unfold length_of; apply wrap_small; unfold is_word; destruct (Z.eqb_spec L (-1)); lia).
  rewrite EL. apply Expand_protocol_spec; try assumption. unfold length_of. destruct (Z.eqb_spec L (-1)); lia.
Qed.

Lemma one_shot_spec m : is_bytes m -> Zlen m < 2 ^ 32 -> one_shot m = (0, hash m).
Proof using.
  intros B L. unfold one_shot. destruct (holds_update _ _ _ holds_init B L) as (c & -> & R). cbn [Z.eqb]. now rewrite (holds_final _ _ R).
Qed.

Lemma DeriveKeyMsg_spec s m sec label msg : ready s m -> is_bytes sec -> label_ok label -> is_bytes msg -> Zlen msg < 2 ^ 32 ->
  DeriveKeyMsg s (-1) sec label msg = (0, KeySpec.derive_secret (protocol_of s) (digest_of sec) label msg).
Proof using.
  intros R Bs Ol Bm Lm. unfold DeriveKeyMsg. rewrite (one_shot_spec msg Bm Lm). cbn [Z.eqb Pos.eqb negb]. pose proof h_digest_le.
  destruct (digest_of_ok sec Bs) as [Bd Ld]. destruct (context_ok msg true) as [Bc Lc]. cbn [context_of] in *.
  assert (EL : u32 h_digest = h_digest) by (apply wrap_small; unfold is_word; lia). rewrite EL.
  assert (R255 : 0 <= h_digest <= 255) by lia.
  pose proof (Expand_protocol_spec s h_digest (digest_of sec) label (hash msg) Bd Ld Ol Bc Lc R255) as E.
  rewrite (rd_minor _ _ R). unfold protocol_of in *. destruct (dtls s); exact E.
Qed.

Lemma Extract_ready s m salt ikm : ready s m -> is_bytes (default [] salt) -> Zlen (default [] salt) < 2 ^ 32 -> is_bytes ikm -> Zlen ikm < 2 ^ 32 ->
  Tls13_HKDF_Extract s salt ikm = (0, HkdfSpec.extract salt (KeySpec.or_zeros ikm)).
Proof using.
  intros R Bs Ls Bi Li. unfold Tls13_HKDF_Extract. pose proof (rd_psk _ _ R). assert (Es : sint 32 (psk_keySz s) = psk_keySz s) by word_lia. rewrite Es.
  destruct (Z.ltb_spec (psk_keySz s) 0); [lia |]. now rewrite Tls13_Extract_spec.
Qed.

(** *** The secrets of [arrays] *)

Lemma store_bytes v buf : is_bytes v -> is_bytes buf -> is_bytes (store v buf).
Proof using. intros Bv Bb. apply Forall_app. split; [exact Bv | now apply Forall_drop]. Qed.

Lemma expand_label_ok P sec label info L : 0 <= L -> is_bytes (KeySpec.expand_label P sec label info L) /\ Zlen (KeySpec.expand_label P sec label info L) = L.
Proof using. intros HL. split; [apply expand_bytes | now apply expand_length]. Qed.

Lemma derive_secret_ok P sec label m : is_bytes (KeySpec.derive_secret P sec label m) /\ Zlen (KeySpec.derive_secret P sec label m) = h_digest.
Proof using. pose proof h_digest_pos. apply expand_label_ok. lia. Qed.

Lemma extract_ok salt ikm : is_bytes (HkdfSpec.extract salt ikm) /\ Zlen (HkdfSpec.extract salt ikm) = h_digest.
Proof using. split; [apply HMAC_bytes | apply HMAC_length]. Qed.

(** A buffer of [ready]. *)
Ltac buffer R :=
  let B := fresh in pose proof (rd_bytes _ _ R) as B; repeat (apply Forall_cons in B; destruct B as [? B]); assumption.

(** [ready] after a field of the state was written. *)
Ltac still_ready R :=
  let B := fresh in destruct R as [? ? ? ? ? ? B]; repeat (apply Forall_cons in B; destruct B as [? B]);
  constructor; auto; repeat (apply Forall_cons; split; [first [assumption | now apply store_bytes] |]); apply Forall_nil; exact I.

Lemma ready_secret s m v : ready s m -> is_bytes v -> ready (set_secret v s) m.
Proof using. intros R B. still_ready R. Qed.

Lemma ready_preMaster s m v : ready s m -> is_bytes v -> ready (set_preMaster v s) m.
Proof using. intros R B. still_ready R. Qed.

Lemma ready_master s m v : ready s m -> is_bytes v -> ready (set_master v s) m.
Proof using. intros R B. still_ready R. Qed.

Lemma ready_exporter s m v : ready s m -> ready (set_exporter v s) m.
Proof using. intros R. still_ready R. Qed.

Lemma ready_client s m v : ready s m -> is_bytes v -> ready (set_client v s) m.
Proof using. intros R B. still_ready R. Qed.

Lemma ready_server s m v : ready s m -> is_bytes v -> ready (set_server v s) m.
Proof using. intros R B. still_ready R. Qed.

Definition psk_of (s : Ssl (T := T)) : list Z := front (psk_keySz s) (psk_key s).

Lemma DeriveEarlySecret_spec s m : ready s m -> DeriveEarlySecret s = (0, set_secret (KeySpec.early (psk_of s)) s).
Proof using.
  intros R. unfold DeriveEarlySecret. rewrite (Extract_ready s m).
  - reflexivity.
  - exact R.
  - constructor.
  - reflexivity.
  - apply Forall_take. buffer R.
  - unfold Zlen. rewrite length_take. pose proof (rd_psk _ _ R). lia.
Qed.

Lemma DeriveHandshakeSecret_spec s m : ready s m -> 0 <= preMasterSz s < 2 ^ 32 ->
  DeriveHandshakeSecret s = (0, set_preMaster (HkdfSpec.extract (Some (KeySpec.derive_secret (protocol_of s) (digest_of (secret s)) derivedLabel []))
                                                 (KeySpec.or_zeros (front (preMasterSz s) (preMasterSecret s)))) s).
Proof using.
  intros R Hp. unfold DeriveHandshakeSecret. pose proof h_digest_le.
  rewrite (DeriveKeyMsg_spec s m); [| exact R | buffer R | label | constructor | reflexivity]. cbn [Z.eqb].
  destruct (derive_secret_ok (protocol_of s) (digest_of (secret s)) derivedLabel []) as [Bk Lk].
  rewrite (Extract_ready s m); [reflexivity | exact R | exact Bk | cbn [from_option id]; rewrite Lk; lia | apply Forall_take; buffer R |].
  unfold Zlen. rewrite length_take. lia.
Qed.

Definition exporter_of (s : Ssl (T := T)) (m : list Z) : list Z :=
  KeySpec.derive_secret (protocol_of s) (digest_of (masterSecret s)) exporterMasterLabel m.

Lemma DeriveMasterSecret_spec s m : ready s m ->
  let s' := set_master (HkdfSpec.extract (Some (KeySpec.derive_secret (protocol_of s) (digest_of (preMasterSecret s)) derivedLabel [])) HkdfSpec.zeros) s in
  DeriveMasterSecret s = (0, if saveArrays s then set_exporter (exporter_of s' m) s' else s').
Proof using.
  intros R s'. unfold DeriveMasterSecret. pose proof h_digest_le.
  rewrite (DeriveKeyMsg_spec s m); [| exact R | buffer R | label | constructor | reflexivity]. cbn [Z.eqb].
  destruct (derive_secret_ok (protocol_of s) (digest_of (preMasterSecret s)) derivedLabel []) as [Bk Lk].
  rewrite (Extract_ready s m); [| exact R | exact Bk | cbn [from_option id]; rewrite Lk; lia | constructor | reflexivity].
  cbn [into Z.eqb negb]. change (KeySpec.or_zeros []) with HkdfSpec.zeros. fold s'. change (saveArrays s') with (saveArrays s). destruct (saveArrays s); [| reflexivity].
  unfold DeriveExporterSecret. assert (R' : ready s' m) by (apply ready_master; [exact R | apply extract_ok]).
  rewrite (Tls13DeriveKey_spec s' m); [reflexivity | exact R' | buffer R' | label | now left].
Qed.

(** *** [DeriveTls13Keys] *)

Definition opt_set (b : bool) (f : Ssl (T := T) -> Ssl (T := T)) (s : Ssl (T := T)) : Ssl (T := T) := if b then f s else s.

Lemma both_spec p (f g : list Z -> Ssl (T := T) -> Ssl (T := T)) c d vc vd s :
  c s = (0, vc) -> d (opt_set (for_client p) (f vc) s) = (0, vd) ->
  both p (fun s => into f (c s) s) (fun s => into g (d s) s) s = (0, opt_set (for_server p) (g vd) (opt_set (for_client p) (f vc) s)).
Proof using.
  intros Ec Ed. unfold both, into, opt_set in *. rewrite Ec. destruct (for_client p); cbn [Z.eqb negb]; rewrite Ed; destruct (for_server p); reflexivity.
Qed.

(** The labels and sources of the two sides' secrets. *)
Definition client_secret_of (sec : secret_key) (s : Ssl (T := T)) (m : list Z) : list Z :=
  let P := protocol_of s in
  match sec with
  | early_data_key => KeySpec.derive_secret P (digest_of (secret s)) earlyTrafficLabel m
  | handshake_key => KeySpec.derive_secret P (digest_of (preMasterSecret s)) clientHandshakeLabel m
  | traffic_key => KeySpec.derive_secret P (digest_of (masterSecret s)) clientAppLabel m
  | update_traffic_key => KeySpec.next P (digest_of (clientSecret s))
  | _ => digest_of (clientSecret s)
  end.

Definition server_secret_of (sec : secret_key) (s : Ssl (T := T)) (m : list Z) : list Z :=
  let P := protocol_of s in
  match sec with
  | handshake_key => KeySpec.derive_secret P (digest_of (preMasterSecret s)) serverHandshakeLabel m
  | traffic_key => KeySpec.derive_secret P (digest_of (masterSecret s)) serverAppLabel m
  | update_traffic_key => KeySpec.next P (digest_of (serverSecret s))
  | _ => digest_of (serverSecret s)
  end.

(** Whose secrets are written. *)
Definition writes_client (sec : secret_key) (p : Z) : bool :=
  match sec with early_data_key => true | no_key | other_key => false | _ => for_client p end.

Definition writes_server (sec : secret_key) (p : Z) : bool :=
  match sec with early_data_key | no_key | other_key => false | _ => for_server p end.

Lemma derive_secrets_spec sec p s m : ready s m -> sec <> other_key ->
  derive_secrets sec p s =
  (0, opt_set (writes_server sec p) (set_server (server_secret_of sec s m)) (opt_set (writes_client sec p) (set_client (client_secret_of sec s m)) s)).
Proof using.
  intros R N.
  assert (Rc : forall v, is_bytes v -> ready (opt_set (for_client p) (set_client v) s) m)
    by (intros v Bv; unfold opt_set; destruct (for_client p); [now apply ready_client | exact R]).
  assert (D : forall sec label b, is_bytes sec -> label_ok label ->
    Tls13DeriveKey s (-1) sec label b = (0, KeySpec.expand_label (protocol_of s) (digest_of sec) label (context_of m b) h_digest) /\
    forall v, is_bytes v -> Tls13DeriveKey (opt_set (for_client p) (set_client v) s) (-1) sec label b =
      (0, KeySpec.expand_label (protocol_of s) (digest_of sec) label (context_of m b) h_digest)).
  { intros sc label b Bs Ol. split; [now apply (Tls13DeriveKey_spec s m (-1) sc label b) ; [| | | left] |].
    intros v Bv. rewrite (Tls13DeriveKey_spec _ m (-1) sc label b (Rc v Bv) Bs Ol (or_introl eq_refl)).
    now destruct (for_client p). }
  destruct sec; unfold derive_secrets; cbv beta zeta; try reflexivity; try (now destruct N).
  - unfold DeriveEarlyTrafficSecret. rewrite (proj1 (D (secret s) earlyTrafficLabel true ltac:(buffer R) ltac:(label))). reflexivity.
  - apply both_spec; [exact (proj1 (D (preMasterSecret s) clientHandshakeLabel true ltac:(buffer R) ltac:(label))) |].
    transitivity (Tls13DeriveKey (opt_set (for_client p) (set_client (client_secret_of handshake_key s m)) s) (-1) (preMasterSecret s) serverHandshakeLabel true);
      [now destruct (for_client p) |]. apply (proj2 (D (preMasterSecret s) serverHandshakeLabel true ltac:(buffer R) ltac:(label))). apply derive_secret_ok.
  - apply both_spec; [exact (proj1 (D (masterSecret s) clientAppLabel true ltac:(buffer R) ltac:(label))) |].
    transitivity (Tls13DeriveKey (opt_set (for_client p) (set_client (client_secret_of traffic_key s m)) s) (-1) (masterSecret s) serverAppLabel true);
      [now destruct (for_client p) |]. apply (proj2 (D (masterSecret s) serverAppLabel true ltac:(buffer R) ltac:(label))). apply derive_secret_ok.
  - apply (both_spec p set_client set_server (fun s => DeriveTrafficSecret s (clientSecret s)) (fun s => DeriveTrafficSecret s (serverSecret s)));
      [exact (proj1 (D (clientSecret s) appTrafficLabel false ltac:(buffer R) ltac:(label))) |].
    transitivity (Tls13DeriveKey (opt_set (for_client p) (set_client (client_secret_of update_traffic_key s m)) s) (-1) (serverSecret s) appTrafficLabel false);
      [now destruct (for_client p) |]. apply (proj2 (D (serverSecret s) appTrafficLabel false ltac:(buffer R) ltac:(label))).
    pose proof h_digest_pos. apply (expand_label_ok (protocol_of s)). lia.
Qed.

(** 7.3: the keys of a traffic secret. *)
Definition key_of (s : Ssl (T := T)) (sec : list Z) : list Z := KeySpec.expand_label (protocol_of s) (digest_of sec) writeKeyLabel [] (key_size s).
Definition iv_of (s : Ssl (T := T)) (sec : list Z) : list Z := KeySpec.expand_label (protocol_of s) (digest_of sec) writeIVLabel [] (iv_size s).
Definition sn_of (s : Ssl (T := T)) (sec : list Z) : list Z := KeySpec.expand_label (protocol_of s) (digest_of sec) snLabel [] (key_size s).

Definition opt_data (b : bool) (d : list Z) : list Z := if b then d else [].

Lemma key_data_spec s m b size sec label dig : ready s m -> is_bytes sec -> label_ok label -> 0 <= size <= 255 ->
  key_data b s size sec label dig = (0, dig ++ opt_data b (KeySpec.expand_label (protocol_of s) (digest_of sec) label [] size)).
Proof using.
  intros R Bs Ol Hs. unfold key_data, opt_data. destruct b; [| now rewrite app_nil_r].
  rewrite (Tls13DeriveKey_spec s m) by (assumption || lia). unfold length_of. destruct (Z.eqb_spec size (-1)); [lia | reflexivity].
Qed.

Lemma derive_key_data_spec p s m : ready s m ->
  derive_key_data p s = (0, opt_data (for_client p) (key_of s (clientSecret s)) ++ opt_data (for_server p) (key_of s (serverSecret s)) ++
                            opt_data (for_client p) (iv_of s (clientSecret s)) ++ opt_data (for_server p) (iv_of s (serverSecret s))).
Proof using.
  intros R. unfold derive_key_data. pose proof (rd_key _ _ R). pose proof (rd_iv _ _ R).
  assert (Bc : is_bytes (clientSecret s)) by buffer R. assert (Bv : is_bytes (serverSecret s)) by buffer R.
  do 2 (rewrite (key_data_spec s m) by (assumption || label); cbn [Z.eqb negb]).
  rewrite (key_data_spec s m) by (assumption || label). cbn [Z.eqb negb].
  rewrite (key_data_spec s m) by (assumption || label). now rewrite <- !app_assoc.
Qed.

Lemma copy_key_spec b sz put v rest s : Zlen v = sz -> copy_key b sz put (opt_data b v ++ rest) s = (rest, opt_set b (put v) s).
Proof using.
  intros E. unfold copy_key, opt_data, opt_set. destruct b; [| reflexivity].
  assert (L : length v = Z.to_nat sz) by (unfold Zlen in E; lia). now rewrite take_app_length', drop_app_length'.
Qed.

(** The keys of the sides asked for. *)
Definition stored (p : Z) (ck sk civ siv : list Z) (s : Ssl (T := T)) : Ssl (T := T) :=
  { opt_set (for_server p) (put_server_IV siv) (opt_set (for_client p) (put_client_IV civ)
      (opt_set (for_server p) (put_server_key sk) (opt_set (for_client p) (put_client_key ck) s))) with aead_exp_IV := replicate AEAD_MAX_EXP_SZ 0 }.

Lemma StoreKeys_spec p s ck sk civ siv : is_aead s = true ->
  Zlen ck = key_size s -> Zlen sk = key_size s -> Zlen civ = iv_size s -> Zlen siv = iv_size s ->
  StoreKeys (opt_data (for_client p) ck ++ opt_data (for_server p) sk ++ opt_data (for_client p) civ ++ opt_data (for_server p) siv) p s =
  (0, stored p ck sk civ siv s).
Proof using.
  intros A Lc Ls Lci Lsi. unfold StoreKeys, stored. rewrite A. cbn [negb andb]. unfold copy_key at 1 2.
  rewrite (copy_key_spec _ _ _ _ _ _ Lc).
  assert (E1 : key_size (opt_set (for_client p) (put_client_key ck) s) = key_size s) by now destruct (for_client p).
  rewrite E1, (copy_key_spec _ _ _ _ _ _ Ls).
  match goal with |- context [copy_key _ (iv_size ?t)] => assert (E2 : iv_size t = iv_size s) by now destruct (for_client p), (for_server p) end.
  rewrite E2, (copy_key_spec _ _ _ _ _ _ Lci).
  match goal with |- context [copy_key _ (iv_size ?t)] => assert (E3 : iv_size t = iv_size s) by now destruct (for_client p), (for_server p) end.
  rewrite E3, <- (app_nil_r (opt_data _ siv)), (copy_key_spec _ _ _ _ _ _ Lsi).
  match goal with |- context [is_aead ?t] => assert (E4 : is_aead t = true) by (destruct (for_client p), (for_server p); exact A) end.
  now rewrite E4.
Qed.

Lemma Dtls13DeriveSnKeys_spec p s m : ready s m ->
  Dtls13DeriveSnKeys p s =
  (0, opt_set (for_server p) (put_server_sn (sn_of s (serverSecret s))) (opt_set (for_client p) (put_client_sn (sn_of s (clientSecret s))) s)).
Proof using.
  intros R. pose proof (rd_key _ _ R). unfold Dtls13DeriveSnKeys.
  apply (both_spec p put_client_sn put_server_sn (fun s => Tls13DeriveKey s (key_size s) (clientSecret s) snLabel false)
           (fun s => Tls13DeriveKey s (key_size s) (serverSecret s) snLabel false)).
  - rewrite (Tls13DeriveKey_spec s m); [| exact R | buffer R | label | now right]. unfold length_of. destruct (Z.eqb_spec (key_size s) (-1)); [lia | reflexivity].
  - transitivity (Tls13DeriveKey s (key_size s) (serverSecret s) snLabel false); [now destruct (for_client p) |].
    rewrite (Tls13DeriveKey_spec s m); [| exact R | buffer R | label | now right]. unfold length_of. destruct (Z.eqb_spec (key_size s) (-1)); [lia | reflexivity].
Qed.

(** The epochs of a DTLS connection, with room for the next one. *)
Definition conn_ok (d : Dtls13 (T := T)) : Prop :=
  slots_ok d /\ forall e, e ∈ dtls13Epochs d -> isValid e = true -> evnum e < 2 ^ 64 - 1.

Definition update_ok (sec : secret_key) (encrypt_side : Z) (s : Ssl (T := T)) : Prop :=
  sec = update_traffic_key ->
  encrypt_side = ENCRYPT_SIDE_ONLY /\ w64_val (dtls13Epoch (conn s)) < 2 ^ 64 - 2 \/
  encrypt_side = DECRYPT_SIDE_ONLY /\ w64_val (dtls13PeerEpoch (conn s)) < 2 ^ 64 - 2.

(** The epoch for the keys holds them, for the side they are for. *)
Definition epoch_holds (n : T) (encrypt_side : Z) (d : Dtls13 (T := T)) : Prop :=
  exists i e, Dtls13GetEpoch d n = Some i /\ dtls13Epochs d !! i = Some e /\
    forall k, copy_keys (side_flags d encrypt_side) k (ekeys e) = copy_keys (side_flags d encrypt_side) k (keys d).

(** What a call that stores has done: [s'] against [s]. *)
Record derived (sec : secret_key) (encrypt_side : Z) (s : Ssl (T := T)) (m : list Z) (s' : Ssl (T := T)) : Prop := {
  de_ready : ready s' m;
  de_client : digest_of (clientSecret s') = if writes_client sec (provision_of s encrypt_side) then client_secret_of sec s m else digest_of (clientSecret s);
  de_server : digest_of (serverSecret s') = if writes_server sec (provision_of s encrypt_side) then server_secret_of sec s m else digest_of (serverSecret s);
  de_client_keys : forall k k', k = keys (conn s) -> k' = keys (conn s') ->
    (front (key_size s) (client_write_key k'), front (iv_size s) (client_write_IV k')) =
    if for_client (provision_of s encrypt_side) then (key_of s (clientSecret s'), iv_of s (clientSecret s'))
    else (front (key_size s) (client_write_key k), front (iv_size s) (client_write_IV k));
  de_server_keys : forall k k', k = keys (conn s) -> k' = keys (conn s') ->
    (front (key_size s) (server_write_key k'), front (iv_size s) (server_write_IV k')) =
    if for_server (provision_of s encrypt_side) then (key_of s (serverSecret s'), iv_of s (serverSecret s'))
    else (front (key_size s) (server_write_key k), front (iv_size s) (server_write_IV k));
  de_sn : dtls s = true ->
    (for_client (provision_of s encrypt_side) = true -> front (key_size s) (client_sn_key (keys (conn s'))) = sn_of s (clientSecret s')) /\
    (for_server (provision_of s encrypt_side) = true -> front (key_size s) (server_sn_key (keys (conn s'))) = sn_of s (serverSecret s'));
  de_epoch : dtls s = true -> conn_ok (conn s') /\ exists n, key_epoch sec encrypt_side s = Some n /\ epoch_holds n encrypt_side (conn s');
  de_specs : (dtls s', saveArrays s', key_size s', iv_size s') = (dtls s, saveArrays s, key_size s, iv_size s);
  de_arrays : (secret s', preMasterSecret s', preMasterSz s', masterSecret s') = (secret s, preMasterSecret s, preMasterSz s, masterSecret s);
  de_side : side (conn s') = side (conn s)
}.

Lemma Dtls13NewEpoch_side (d : Dtls13 (T := T)) n sd :
  let d' := (Dtls13NewEpoch d n sd).2 in side d' = side d /\ keys d' = keys d.
Proof using.
  cbv zeta. unfold Dtls13NewEpoch, Dtls13NewEpochSlot. destruct (Dtls13GetEpoch d n) as [i |].
  - match goal with |- context [if ?b then _ else _] => destruct b end; destruct d; auto.
  - destruct (scan_slots _ _ _ _ _ _) as [i | [i |]]; [| | now destruct d].
    + match goal with |- context [if ?b then _ else _] => destruct b end; destruct d; auto.
    + destruct (bool_decide (dtls13DecryptEpoch d = Some i));
        (match goal with |- context [if ?b then (0, _) else _] => destruct b end; destruct d; auto).
Qed.

Lemma key_epoch_ok sec sd s : conn_ok (conn s) -> update_ok sec sd s -> sec <> other_key ->
  exists n, key_epoch sec sd s = Some n /\ w64_ok n /\ w64_val n < 2 ^ 64 - 1.
Proof using H2.
  intros [Hs _] U N. assert (C : forall lo, 0 <= lo < 4 -> w64_ok (w64From32 0 lo) /\ w64_val (w64From32 0 lo) < 2 ^ 64 - 1).
  { intros lo Hlo. destruct (w64From32_val 0 lo) as [O V]; try (unfold is_word; lia). split; [exact O | rewrite V; lia]. }
  assert (I : forall x, w64_ok x -> w64_val x < 2 ^ 64 - 2 -> w64_ok (w64Increment x) /\ w64_val (w64Increment x) < 2 ^ 64 - 1).
  { intros x O L. destruct (w64Increment_val x O) as [O' V]. split; [exact O' |]. rewrite V, wrap_small; [lia |].
    pose proof (w64_range x O) as Rx. unfold is_word in *. lia. }
  destruct sec; unfold key_epoch; try (now destruct N); try (eexists; split; [reflexivity |]; apply C; vm_compute; split; congruence).
  destruct Hs as [_ _ _ Oc Op]. destruct (U eq_refl) as [[-> L] | [-> L]]; cbn; (eexists; split; [reflexivity |]); now apply I.
Qed.

Lemma new_epoch_spec sec sd s : conn_ok (conn s) -> update_ok sec sd s -> sec <> other_key ->
  exists n d, new_epoch sec sd s = (0, { s with conn := d }) /\ key_epoch sec sd s = Some n /\ conn_ok d /\ epoch_holds n sd d /\
    side d = side (conn s) /\ keys d = keys (conn s).
Proof using H2.
  intros Hc U N. destruct (key_epoch_ok sec sd s Hc U N) as (n & E & On & Ln). destruct Hc as [Hs Hm].
  destruct (NewEpoch_claims (conn s) n sd Hs On Hm) as (i & e & d & En & _ & _ & C & Hs' & G).
  pose proof (Dtls13NewEpoch_side (conn s) n sd) as [Sd Kd]. rewrite En in Sd, Kd. cbn [snd] in Sd, Kd.
  exists n, d. unfold new_epoch. rewrite E, En. split; [reflexivity |]. split; [reflexivity |].
  destruct C as (_ & _ & _ & (e' & Hi & _ & _ & Nv & K) & Ho & _). split; [split; [exact Hs' |] |].
  - intros f Hf Vf. apply list_elem_of_lookup in Hf as [j Hj]. destruct (decide (j = i)) as [-> | Nj].
    + assert (f = e') as -> by congruence. rewrite Nv. exact Ln.
    + destruct (Ho j f Nj Hj) as (f0 & Hf0 & V0 & E0 & _). unfold evnum. rewrite E0. apply Hm; [now apply list_elem_of_lookup_2 with j | congruence].
  - split; [| now split]. exists i, e'. split; [exact G |]. split; [exact Hi |]. intros k. unfold side_flags in *. rewrite Sd, Kd. apply K.
Qed.

Lemma key_of_ok s sec : 0 <= key_size s <= 255 -> is_bytes (key_of s sec) /\ Zlen (key_of s sec) = key_size s.
Proof using. intros Hs. apply expand_label_ok. lia. Qed.

Lemma iv_of_ok s sec : 0 <= iv_size s <= 255 -> is_bytes (iv_of s sec) /\ Zlen (iv_of s sec) = iv_size s.
Proof using. intros Hs. apply expand_label_ok. lia. Qed.

Lemma sn_of_ok s sec : 0 <= key_size s <= 255 -> is_bytes (sn_of s sec) /\ Zlen (sn_of s sec) = key_size s.
Proof using. intros Hs. apply expand_label_ok. lia. Qed.

Lemma client_secret_of_ok sec s m : ready s m -> is_bytes (client_secret_of sec s m) /\ (writes_client sec 1 = true -> Zlen (client_secret_of sec s m) = h_digest).
Proof using.
  intros R. pose proof h_digest_pos. assert (B : is_bytes (digest_of (clientSecret s))) by (apply Forall_take; buffer R).
  destruct sec; cbn [client_secret_of writes_client]; try (split; [exact B | discriminate]);
    (assert (0 <= h_digest) as L by lia; destruct (expand_label_ok (protocol_of s) [] [] [] h_digest L); split; [apply expand_bytes | intros _; now apply expand_length]).
Qed.

Lemma server_secret_of_ok sec s m : ready s m -> is_bytes (server_secret_of sec s m) /\ (writes_server sec 2 = true -> Zlen (server_secret_of sec s m) = h_digest).
Proof using.
  intros R. pose proof h_digest_pos. assert (B : is_bytes (digest_of (serverSecret s))) by (apply Forall_take; buffer R).
  destruct sec; cbn [server_secret_of writes_server]; try (split; [exact B | discriminate]);
    (assert (0 <= h_digest) as L by lia; split; [apply expand_bytes | intros _; now apply expand_length]).
Qed.

(** The state after the secrets were derived. *)
Definition with_secrets (sec : secret_key) (p : Z) (s : Ssl (T := T)) (m : list Z) : Ssl (T := T) :=
  opt_set (writes_server sec p) (set_server (server_secret_of sec s m)) (opt_set (writes_client sec p) (set_client (client_secret_of sec s m)) s).

(** ... and the keys stored. *)
Definition with_keys (p : Z) (s : Ssl (T := T)) : Ssl (T := T) :=
  let s1 := stored p (key_of s (clientSecret s)) (key_of s (serverSecret s)) (iv_of s (clientSecret s)) (iv_of s (serverSecret s)) s in
  if dtls s then opt_set (for_server p) (put_server_sn (sn_of s (serverSecret s))) (opt_set (for_client p) (put_client_sn (sn_of s (clientSecret s))) s1) else s1.

Lemma ready_with_secrets sec p s m : ready s m -> ready (with_secrets sec p s m) m.
Proof using.
  intros R. unfold with_secrets, opt_set. destruct (client_secret_of_ok sec s m R) as [Bc _]. destruct (server_secret_of_ok sec s m R) as [Bs _].
  destruct (writes_client sec p), (writes_server sec p); auto using ready_client, ready_server.
Qed.

(** Only [keys] and the explicit IV are written. *)
Definition rekeyed (k : KeyMaterial) (v : list Z) (s : Ssl (T := T)) : Ssl (T := T) :=
  { s with conn := { conn s with keys := k }; aead_exp_IV := v }.

Lemma stored_rekeyed p ck sk civ siv s :
  let s' := stored p ck sk civ siv s in s' = rekeyed (keys (conn s')) (aead_exp_IV s') s.
Proof using. destruct s as [? ? ? ? ? ? ? ? ? ? ? ? ? ? ? ? ? ? ? [? ? ? ? ? ? ? ? ? []]]. unfold stored, opt_set. destruct (for_client p), (for_server p); reflexivity. Qed.

Lemma with_keys_rekeyed p s : let s' := with_keys p s in s' = rekeyed (keys (conn s')) (aead_exp_IV s') s.
Proof using.
  unfold with_keys. pose proof (stored_rekeyed p (key_of s (clientSecret s)) (key_of s (serverSecret s)) (iv_of s (clientSecret s)) (iv_of s (serverSecret s)) s) as E.
  cbv zeta in *. destruct (dtls s); [| exact E]. rewrite E. generalize (sn_of s (serverSecret s)), (sn_of s (clientSecret s)).
  intros a b. unfold opt_set. destruct (for_client p), (for_server p); reflexivity.
Qed.

Lemma ready_rekeyed k v s m : ready s m -> ready (rekeyed k v s) m.
Proof using. intros [? ? ? ? ? ? ?]. constructor; assumption. Qed.

Lemma DeriveTls13Keys_spec sec sd s m : ready s m -> sec <> other_key -> (dtls s = true -> conn_ok (conn s) /\ update_ok sec sd s) ->
  let s1 := with_keys (provision_of s sd) (with_secrets sec (provision_of s sd) s m) in
  DeriveTls13Keys sec sd true s = if dtls s then new_epoch sec sd s1 else (0, s1).
Proof using.
  intros R N Hd s1. set (p := provision_of s sd) in *. unfold DeriveTls13Keys. fold p. rewrite (derive_secrets_spec sec p s m R N). cbn [Z.eqb negb andb].
  pose proof (ready_with_secrets sec p s m R) as R0. fold (with_secrets sec p s m). subst s1. set (s0 := with_secrets sec p s m) in *.
  assert (Ed : dtls s0 = dtls s) by (unfold s0, with_secrets, opt_set; now destruct (writes_client sec p), (writes_server sec p)).
  rewrite (derive_key_data_spec p s0 m R0). cbn [Z.eqb negb]. pose proof (rd_key _ _ R0) as Lk. pose proof (rd_iv _ _ R0) as Li.
  rewrite StoreKeys_spec; [| apply R0 | now apply key_of_ok | now apply key_of_ok | now apply iv_of_ok | now apply iv_of_ok]. cbn [Z.eqb negb].
  set (s2 := stored _ _ _ _ _ s0). assert (E2 : dtls s2 = dtls s0) by (unfold s2, stored, opt_set; now destruct (for_client p), (for_server p)).
  unfold with_keys. rewrite E2, Ed. destruct (dtls s) eqn:D; [| reflexivity].
  assert (R2 : ready s2 m) by (unfold s2; rewrite stored_rekeyed; now apply ready_rekeyed).
  rewrite (Dtls13DeriveSnKeys_spec p s2 m R2). cbn [Z.eqb negb].
  assert (Es : forall sec', sn_of s2 sec' = sn_of s0 sec' /\ clientSecret s2 = clientSecret s0 /\ serverSecret s2 = serverSecret s0)
    by (intros sec'; unfold s2; rewrite stored_rekeyed; auto).
  destruct (Es (clientSecret s2)) as (-> & -> & ->). rewrite (proj1 (Es (serverSecret s0))). reflexivity.
Qed.

(** The provision is one side or both. *)
Lemma provision_cases s sd : provision_of s sd = 1 \/ provision_of s sd = 2 \/ provision_of s sd = 3.
Proof using. unfold provision_of. destruct (sd =? _); [auto |]. destruct (xorb _ _); auto. Qed.

Lemma with_secrets_same sec p s m : let s' := with_secrets sec p s m in
  conn s' = conn s /\ protocol_of s' = protocol_of s /\ (dtls s', saveArrays s', key_size s', iv_size s') = (dtls s, saveArrays s, key_size s, iv_size s) /\
  (secret s', preMasterSecret s', preMasterSz s', masterSecret s') = (secret s, preMasterSecret s, preMasterSz s, masterSecret s).
Proof using. unfold with_secrets, opt_set. now destruct (writes_client sec p), (writes_server sec p). Qed.

Lemma with_secrets_digests sec sd s m : ready s m -> sec <> other_key -> let p := provision_of s sd in let s' := with_secrets sec p s m in
  digest_of (clientSecret s') = (if writes_client sec p then client_secret_of sec s m else digest_of (clientSecret s)) /\
  digest_of (serverSecret s') = (if writes_server sec p then server_secret_of sec s m else digest_of (serverSecret s)).
Proof using.
  intros R N p s'. destruct (client_secret_of_ok sec s m R) as [_ Lc]. destruct (server_secret_of_ok sec s m R) as [_ Ls].
  unfold s', with_secrets, opt_set. split.
  - destruct (writes_client sec p) eqn:C; [| now destruct (writes_server sec p)].
    transitivity (digest_of (store (client_secret_of sec s m) (clientSecret s))); [now destruct (writes_server sec p) |].
    apply front_store, Lc. destruct sec; try discriminate C; reflexivity.
  - destruct (writes_server sec p) eqn:C; [| now destruct (writes_client sec p)].
    transitivity (digest_of (store (server_secret_of sec s m) (serverSecret s))); [now destruct (writes_client sec p) |].
    apply front_store, Ls. destruct sec; try discriminate C; reflexivity.
Qed.

(** The stored keys, read back. *)
Lemma with_keys_read p s : 0 <= key_size s <= 255 -> 0 <= iv_size s <= 255 ->
  let k := keys (conn s) in let k' := keys (conn (with_keys p s)) in
  (front (key_size s) (client_write_key k'), front (iv_size s) (client_write_IV k')) =
    (if for_client p then (key_of s (clientSecret s), iv_of s (clientSecret s)) else (front (key_size s) (client_write_key k), front (iv_size s) (client_write_IV k))) /\
  (front (key_size s) (server_write_key k'), front (iv_size s) (server_write_IV k')) =
    (if for_server p then (key_of s (serverSecret s), iv_of s (serverSecret s)) else (front (key_size s) (server_write_key k), front (iv_size s) (server_write_IV k))) /\
  (dtls s = true ->
    (for_client p = true -> front (key_size s) (client_sn_key k') = sn_of s (clientSecret s)) /\
    (for_server p = true -> front (key_size s) (server_sn_key k') = sn_of s (serverSecret s))).
Proof using.
  intros Lk Li k k'. destruct (key_of_ok s (clientSecret s) Lk) as [_ E1]. destruct (key_of_ok s (serverSecret s) Lk) as [_ E2].
  destruct (iv_of_ok s (clientSecret s) Li) as [_ E3]. destruct (iv_of_ok s (serverSecret s) Li) as [_ E4].
  destruct (sn_of_ok s (clientSecret s) Lk) as [_ E5]. destruct (sn_of_ok s (serverSecret s) Lk) as [_ E6].
  unfold k', k, with_keys. clear k k'. generalize dependent (key_of s (clientSecret s)). generalize dependent (key_of s (serverSecret s)).
  generalize dependent (iv_of s (clientSecret s)). generalize dependent (iv_of s (serverSecret s)).
  generalize dependent (sn_of s (clientSecret s)). generalize dependent (sn_of s (serverSecret s)). intros v1 L1 v2 L2 v3 L3 v4 L4 v5 L5 v6 L6.
  unfold stored, opt_set. destruct (dtls s), (for_client p), (for_server p); cbn; rewrite ?front_store by assumption; repeat split; intros; congruence || reflexivity || now rewrite front_store.
Qed.

Lemma rekeyed_epochs k v sec sd s s1 : conn s1 = conn s -> conn_ok (conn s) -> update_ok sec sd s ->
  conn_ok (conn (rekeyed k v s1)) /\ update_ok sec sd (rekeyed k v s1) /\ key_epoch sec sd (rekeyed k v s1) = key_epoch sec sd s.
Proof using.
  intros E [[? ? ? ? ?] Hm] U. unfold update_ok, key_epoch in *.
  change (conn (rekeyed k v s1)) with ({ conn s1 with keys := k }). rewrite E. repeat split; assumption.
Qed.

Lemma DeriveTls13Keys_derived sec sd s m : ready s m -> sec <> other_key -> (dtls s = true -> conn_ok (conn s) /\ update_ok sec sd s) ->
  exists s', DeriveTls13Keys sec sd true s = (0, s') /\ derived sec sd s m s'.
Proof using H2.
  intros R N Hd. pose proof (DeriveTls13Keys_spec sec sd s m R N Hd) as E. cbv zeta in E. set (p := provision_of s sd) in *.
  set (s1 := with_secrets sec p s m) in *. pose proof (with_secrets_same sec p s m) as (Cs & Pr & Sp & Ar). fold s1 in Cs, Pr, Sp, Ar.
  pose proof (with_secrets_digests sec sd s m R N) as [Dc Dv]. fold p s1 in Dc, Dv.
  pose proof (ready_with_secrets sec p s m R) as R1. fold s1 in R1. injection Sp as S1 S2 S3 S4.
  pose proof (with_keys_read p s1 (rd_key _ _ R1) (rd_iv _ _ R1)) as (Kc & Kv & Kn). pose proof (with_keys_rekeyed p s1) as Er.
  set (s2 := with_keys p s1) in *. cbv zeta in Er, Kc, Kv, Kn. assert (R2 : ready s2 m) by (rewrite Er; now apply ready_rekeyed).
  unfold key_of, iv_of, sn_of in Kc, Kv, Kn. rewrite Pr, S3, S4, Cs in Kc, Kv. rewrite Pr, S1, S3 in Kn.
  assert (F : (clientSecret s2, serverSecret s2) = (clientSecret s1, serverSecret s1)) by (now rewrite Er). injection F as F1 F2. rewrite <- F1 in Kc, Kn, Dc. rewrite <- F2 in Kv, Kn, Dv.
  assert (Sp2 : (dtls s2, saveArrays s2, key_size s2, iv_size s2) = (dtls s, saveArrays s, key_size s, iv_size s))
    by (rewrite Er; transitivity (dtls s1, saveArrays s1, key_size s1, iv_size s1); [reflexivity | now rewrite S1, S2, S3, S4]).
  assert (Ar2 : (secret s2, preMasterSecret s2, preMasterSz s2, masterSecret s2) = (secret s, preMasterSecret s, preMasterSz s, masterSecret s))
    by (rewrite Er; exact Ar).
  assert (Sd2 : side (conn s2) = side (conn s)) by (rewrite Er, <- Cs; reflexivity).
  destruct (dtls s) eqn:D.
  - destruct (Hd eq_refl) as [Hc U]. assert (Ec : conn_ok (conn s2) /\ update_ok sec sd s2 /\ key_epoch sec sd s2 = key_epoch sec sd s).
    { rewrite Er. now apply rekeyed_epochs. }
    destruct Ec as (Hc2 & U2 & Ee). destruct (new_epoch_spec sec sd s2 Hc2 U2 N) as (n & d & Ed & En & Hcd & Hh & Sd & Kd).
    rewrite E, Ed. eexists. split; [reflexivity |].
    split; try assumption.
    + destruct R2. constructor; assumption.
    + intros k k' -> ->. change (keys (conn { s2 with conn := d })) with (keys d). rewrite Kd. exact Kc.
    + intros k k' -> ->. change (keys (conn { s2 with conn := d })) with (keys d). rewrite Kd. exact Kv.
    + intros _. change (keys (conn { s2 with conn := d })) with (keys d). rewrite Kd. exact (Kn eq_refl).
    + intros _. split; [exact Hcd |]. exists n. split; [congruence | exact Hh].
    + cbn. now rewrite D.
    + transitivity (side d); [reflexivity | congruence].
  - rewrite E. eexists. split; [reflexivity |]. split; try assumption; try (intros k k' -> ->; assumption); now rewrite D.
Qed.

(** The two traffic secrets of [s] and the keys in place are [c]'s and [v]'s. *)
Definition keyed_by (s : Ssl (T := T)) (c v : list Z) : Prop :=
  let k := keys (conn s) in
  let key sec := KeySpec.expand_label (protocol_of s) sec writeKeyLabel [] (key_size s) in
  let iv sec := KeySpec.expand_label (protocol_of s) sec writeIVLabel [] (iv_size s) in
  digest_of (clientSecret s) = c /\ digest_of (serverSecret s) = v /\
  front (key_size s) (client_write_key k) = key c /\ front (iv_size s) (client_write_IV k) = iv c /\
  front (key_size s) (server_write_key k) = key v /\ front (iv_size s) (server_write_IV k) = iv v.

(** The number keys of DTLS. *)
Definition sn_keyed_by (s : Ssl (T := T)) (c v : list Z) : Prop :=
  let k := keys (conn s) in
  let sn sec := KeySpec.expand_label (protocol_of s) sec snLabel [] (key_size s) in
  front (key_size s) (client_sn_key k) = sn c /\ front (key_size s) (server_sn_key k) = sn v.

(** Keys for both directions are all new. *)
Lemma derived_both sec s m s' : derived sec ENCRYPT_AND_DECRYPT_SIDE s m s' ->
  writes_client sec 3 = true -> writes_server sec 3 = true ->
  keyed_by s' (client_secret_of sec s m) (server_secret_of sec s m) /\
  (dtls s = true -> sn_keyed_by s' (client_secret_of sec s m) (server_secret_of sec s m)).
Proof using.
  intros D Wc Wv. destruct D as [_ Dc Dv Kc Kv Kn _ Sp _ _]. change (provision_of s ENCRYPT_AND_DECRYPT_SIDE) with 3 in *. rewrite Wc in Dc. rewrite Wv in Dv.
  specialize (Kc _ _ eq_refl eq_refl). specialize (Kv _ _ eq_refl eq_refl). cbn [for_client for_server Z.land Pos.land Z.eqb negb] in *.
  change (for_client 3) with true in *. change (for_server 3) with true in *. injection Sp as S1 S2 S3 S4. injection Kc as K1 K2. injection Kv as K3 K4.
  unfold key_of, iv_of in *. rewrite Dc in K1, K2. rewrite Dv in K3, K4. unfold keyed_by, sn_keyed_by, protocol_of in *. rewrite S1, S3, S4. split; [now repeat split |].
  intros E. destruct (Kn E) as [N1 N2]. specialize (N1 eq_refl). specialize (N2 eq_refl). unfold sn_of, protocol_of in *. rewrite Dc in N1. rewrite Dv in N2. now split.
Qed.

(** A KeyUpdate of one direction. *)
Lemma derived_update sd s m s' c v : derived update_traffic_key sd s m s' -> keyed_by s c v ->
  let p := provision_of s sd in let P := protocol_of s in
  keyed_by s' (if for_client p then KeySpec.next P c else c) (if for_server p then KeySpec.next P v else v).
Proof using.
  intros D (C & V & K1 & K2 & K3 & K4) p P. destruct D as [_ Dc Dv Kc Kv _ _ Sp _ _]. specialize (Kc _ _ eq_refl eq_refl). specialize (Kv _ _ eq_refl eq_refl).
  fold p in Dc, Dv, Kc, Kv. cbn [writes_client writes_server client_secret_of server_secret_of] in Dc, Dv. fold P in Dc, Dv. rewrite C in Dc. rewrite V in Dv.
  injection Sp as S1 _ S3 S4. assert (EP : protocol_of s' = P) by (unfold P, protocol_of; now rewrite S1).
  unfold key_of, iv_of in Kc, Kv. rewrite Dc in Kc. rewrite Dv in Kv. fold P in Kc, Kv. fold P in K1, K2, K3, K4.
  unfold keyed_by. rewrite EP, S3, S4, Dc, Dv. split; [reflexivity |]. split; [reflexivity |].
  destruct (for_client p), (for_server p); injection Kc as -> ->; injection Kv as -> ->; rewrite ?K1, ?K2, ?K3, ?K4; repeat split.
Qed.

(** *** Finished *)

Lemma finished_spec s m base : ready s m -> is_bytes base -> Zlen base = h_digest ->
  exists fk, DeriveFinishedSecret s base = (0, fk) /\ BuildTls13HandshakeHmac s fk = (0, KeySpec.verify_data (protocol_of s) base m).
Proof using.
  intros R Bb Lb. pose proof h_digest_le. eexists. split.
  - unfold DeriveFinishedSecret. apply (Tls13DeriveKey_spec s m); [exact R | exact Bb | label | now left].
  - assert (Ed : digest_of base = base) by (apply take_ge; unfold Zlen in Lb; lia). rewrite Ed. cbn [context_of]. change (length_of (-1)) with h_digest.
    unfold BuildTls13HandshakeHmac. rewrite (holds_final _ _ (rd_hash _ _ R)). cbn [Z.eqb negb].
    set (fk := KeySpec.expand_label _ _ _ _ _). destruct (expand_label_ok (protocol_of s) base finishedLabel [] h_digest) as [Bf Lf]; [lia |]. fold fk in Bf, Lf.
    rewrite (take_ge fk) by (unfold Zlen in Lf; lia). pose proof (hash_length m) as Lh.
    destruct (hmac_once stack_hmac fk (hash m)) as (h1 & h2 & h3 & -> & E2 & E3); [exact Bf | lia | apply hash_bytes | lia |].
    cbn [Z.eqb]. rewrite E2. cbn [Z.eqb]. now rewrite E3.
Qed.

(** *** The exporter *)

(** RFC 8446, 7.5. *)
Definition exporter_value (P : list Z) (secret label context : list Z) (L : Z) : list Z :=
  KeySpec.expand_label P (KeySpec.derive_secret P secret label []) exporterLabel (hash context) L.

Lemma Tls13_Exporter_spec s m emptyHash outLen label context : ready s m -> is_bytes (exporterSecret s) -> emptyHash = hash [] ->
  is_bytes label -> Zlen label <= 37 -> is_bytes context -> Zlen context < 2 ^ 32 -> 0 <= outLen <= 255 * h_digest ->
  Tls13_Exporter emptyHash s outLen label context = (0, exporter_value (protocol_of s) (digest_of (exporterSecret s)) label context outLen).
Proof using.
  intros R Be -> Bl Ll Bc Lc HL. unfold Tls13_Exporter. pose proof h_digest_le. destruct (protocol_ok s) as [Bp Lp]. pose proof (Zlen_nonneg label).
  rewrite (rd_minor _ _ R), Lp.
  assert (V : (dtls s && negb ((if dtls s then DTLSv1_3_MINOR else TLSv1_3_MINOR) =? DTLSv1_3_MINOR)) = false /\
              (negb (dtls s) && negb ((if dtls s then DTLSv1_3_MINOR else TLSv1_3_MINOR) =? TLSv1_3_MINOR)) = false)
    by (destruct (dtls s); split; reflexivity). destruct V as [-> ->].
  destruct (Z.gtb_spec (Zlen context) 0xffffffff); [lia |]. destruct (Z.gtb_spec outLen 0xffff); [lia |].
  rewrite (wrap_small 64) by (unfold is_word; lia). destruct (Z.gtb_spec (Zlen label + 6) 255); [lia |].
  destruct (digest_of_ok _ Be) as [Bd Ld]. destruct (context_ok [] true) as [Bh Lh]. cbn [context_of] in Bh, Lh.
  assert (X : forall L sec lab info, is_bytes sec -> Zlen sec < 2 ^ 32 -> is_bytes lab -> Zlen lab <= 37 -> is_bytes info -> Zlen info <= 64 ->
    0 <= L <= 255 * h_digest -> wc_Tls13_HKDF_Expand_Label_ex L sec (protocol_of s) lab info = (0, KeySpec.expand_label (protocol_of s) sec lab info L)).
  { intros L sec lab info Bs Ls Bla Lla Bi Li HLL. pose proof (Zlen_nonneg lab). rewrite Expand_Label_spec; try assumption; try (unfold is_word; lia).
    change MAX_TLS13_HKDF_LABEL_SZ with 111. match goal with |- context [?a >? 111] => destruct (Z.gtb_spec a 111); [lia |] end.
    destruct (Z.leb_spec L (255 * h_digest)); [reflexivity | lia]. }
  rewrite (X h_digest) by (assumption || lia). cbn [Z.eqb negb]. rewrite one_shot_spec by assumption. cbn [Z.eqb negb].
  rewrite (wrap_small 32) by (unfold is_word; lia). destruct (derive_secret_ok (protocol_of s) (digest_of (exporterSecret s)) label []) as [B1 L1].
  assert (Ol : label_ok exporterLabel) by label. destruct Ol as [Bx Lx]. unfold KeySpec.derive_secret in B1, L1.
  apply X; [exact B1 | eapply Z.le_lt_trans; [apply Z.eq_le_incl; exact L1 | lia] | exact Bx | lia | apply hash_bytes | rewrite hash_length; lia | exact HL].
Qed.

(** *** The two stages of a handshake *)

Lemma set_hash_ready s m c m' : ready s m -> holds c m' -> ready { s with hsHash := c } m'.
Proof using. intros [? ? ? ? ? ? ?] Hc. constructor; assumption. Qed.

Lemma handshake_stage s m : ready s m -> 0 <= preMasterSz s < 2 ^ 32 -> (dtls s = true -> conn_ok (conn s)) ->
  let P := protocol_of s in
  let hs := KeySpec.handshake P (psk_of s) (front (preMasterSz s) (preMasterSecret s)) in
  exists s1 s2 s3,
    DeriveEarlySecret s = (0, s1) /\ DeriveHandshakeSecret s1 = (0, s2) /\
    DeriveTls13Keys handshake_key ENCRYPT_AND_DECRYPT_SIDE true s2 = (0, s3) /\
    ready s3 m /\ (protocol_of s3, dtls s3, saveArrays s3) = (P, dtls s, saveArrays s) /\ digest_of (preMasterSecret s3) = hs /\
    keyed_by s3 (KeySpec.derive_secret P hs clientHandshakeLabel m) (KeySpec.derive_secret P hs serverHandshakeLabel m) /\
    (dtls s = true -> conn_ok (conn s3) /\ epoch_holds (w64From32 0 DTLS13_EPOCH_HANDSHAKE) ENCRYPT_AND_DECRYPT_SIDE (conn s3)).
Proof using H2.
  intros R Hp Hc P hs. pose proof (DeriveEarlySecret_spec s m R) as E1. set (s1 := set_secret _ s) in E1.
  assert (R1 : ready s1 m) by (apply ready_secret; [exact R | apply extract_ok]).
  pose proof (DeriveHandshakeSecret_spec s1 m R1 Hp) as E2.
  assert (D1 : digest_of (secret s1) = KeySpec.early (psk_of s)) by (apply front_store, extract_ok). change (protocol_of s1) with P in E2. rewrite D1 in E2.
  change (HkdfSpec.extract _ _) with hs in E2. set (s2 := set_preMaster _ s1) in E2.
  assert (R2 : ready s2 m) by (apply ready_preMaster; [exact R1 | apply extract_ok]).
  assert (D2 : digest_of (preMasterSecret s2) = hs) by (apply front_store, extract_ok).
  destruct (DeriveTls13Keys_derived handshake_key ENCRYPT_AND_DECRYPT_SIDE s2 m R2) as (s3 & E3 & K3); [discriminate | intros D; split; [now apply Hc | discriminate] |].
  destruct (derived_both _ _ _ _ K3 eq_refl eq_refl) as [Q3 _]. unfold client_secret_of, server_secret_of in Q3. change (protocol_of s2) with P in Q3. rewrite D2 in Q3.
  destruct K3 as [R3 _ _ _ _ _ Ep S3 A3 _].
  assert (Sd3 : dtls s3 = dtls s2) by (injection S3; auto). assert (Ss3 : saveArrays s3 = saveArrays s2) by (injection S3; auto).
  assert (Ap3 : preMasterSecret s3 = preMasterSecret s2) by (injection A3; auto).
  exists s1, s2, s3. do 3 (split; [assumption |]). split; [exact R3 |]. split; [unfold P, protocol_of; now rewrite Sd3, Ss3 |].
  split; [now rewrite Ap3 |]. split; [exact Q3 |]. intros D. destruct (Ep D) as (Hc3 & n & [= <-] & X). now split.
Qed.

Lemma traffic_stage s m hs : ready s m -> digest_of (preMasterSecret s) = hs -> (dtls s = true -> conn_ok (conn s)) ->
  let P := protocol_of s in
  let ms := KeySpec.derive_secret P (HkdfSpec.extract (Some (KeySpec.derive_secret P hs derivedLabel [])) HkdfSpec.zeros) in
  exists s1 s2,
    DeriveMasterSecret s = (0, s1) /\ DeriveTls13Keys traffic_key ENCRYPT_AND_DECRYPT_SIDE true s1 = (0, s2) /\
    keyed_by s2 (ms clientAppLabel m) (ms serverAppLabel m) /\
    (saveArrays s = true -> digest_of (exporterSecret s1) = ms exporterMasterLabel m) /\
    DeriveResumptionSecret s2 = (0, ms resumeMasterLabel m) /\
    (dtls s = true -> sn_keyed_by s2 (ms clientAppLabel m) (ms serverAppLabel m) /\
       epoch_holds (w64From32 0 DTLS13_EPOCH_TRAFFIC0) ENCRYPT_AND_DECRYPT_SIDE (conn s2)).
Proof using H2.
  intros R Ehs Hc P ms. pose proof (DeriveMasterSecret_spec s m R) as E1. cbv zeta in E1. rewrite Ehs in E1. fold P in E1.
  set (M := HkdfSpec.extract _ _) in *. set (s1' := set_master M s) in E1. set (s1 := if saveArrays s then _ else s1') in E1.
  assert (R1' : ready s1' m) by (apply ready_master; [exact R | apply extract_ok]).
  assert (R1 : ready s1 m) by (unfold s1; destruct (saveArrays s); [now apply ready_exporter | exact R1']).
  assert (D1' : digest_of (masterSecret s1') = M) by (apply front_store, extract_ok).
  assert (D1 : digest_of (masterSecret s1) = M) by (unfold s1; destruct (saveArrays s); exact D1').
  assert (P1 : protocol_of s1 = P /\ conn s1 = conn s /\ dtls s1 = dtls s) by (unfold s1; now destruct (saveArrays s)). destruct P1 as (P1 & C1 & T1).
  destruct (DeriveTls13Keys_derived traffic_key ENCRYPT_AND_DECRYPT_SIDE s1 m R1) as (s2 & E2 & K2); [discriminate | |].
  { intros D. split; [rewrite C1; apply Hc; congruence | discriminate]. }
  destruct (derived_both _ _ _ _ K2 eq_refl eq_refl) as [Q2 N2]. unfold client_secret_of, server_secret_of in Q2, N2. rewrite P1, D1 in Q2, N2.
  destruct K2 as [R2 _ _ _ _ _ Ep S2 A2 _]. assert (Sd2 : dtls s2 = dtls s1) by (injection S2; auto). assert (Am2 : masterSecret s2 = masterSecret s1) by (injection A2; auto).
  exists s1, s2. do 3 (split; [assumption |]). split.
  { intros E. unfold s1. rewrite E. transitivity (exporter_of s1' m); [apply front_store, derive_secret_ok |]. unfold exporter_of. now rewrite D1'. }
  split.
  { unfold DeriveResumptionSecret. rewrite (Tls13DeriveKey_spec s2 m); [| exact R2 | buffer R2 | label | now left].
    rewrite Am2, D1. unfold protocol_of. rewrite Sd2. fold (protocol_of s1). now rewrite P1. }
  intros D. rewrite <- T1 in D. split; [now apply N2 |]. destruct (Ep D) as (_ & n & [= <-] & X). exact X.
Qed.

End Keys13Proofs.

(** ** Theorems *)

(** [C8] The key schedule is the one of RFC 8446, 7.1 (RFC 9147, 5.9 for DTLS),
    over any hash with blocks of 64 bytes (so not for the SHA-384 suites): from a PSK or none and the shared secret of the key exchange,
    the calls a handshake makes all succeed, in this order; the keys in place
    after the ServerHello are those of the two handshake traffic secrets of the
    messages so far, a Finished built from them is the HMAC the RFC
    defines, and after the server's Finished they are those of the application
    traffic secrets; the resumption and exporter secrets follow, and in DTLS epochs 2 and
    3 hold the keys. *)
Theorem key_schedule_rfc8446 {H : Hash} {HS : HashSpec H} {T} `{W64 T} (s : Ssl (T := T)) (m1 m2 : list Z) (c2 : hctx) :
  ready s m1 -> 0 <= preMasterSz s < 2 ^ 32 -> (dtls s = true -> conn_ok (conn s)) -> holds c2 m2 ->
  let P := protocol_of s in
  let psk := psk_of s in
  let dhe := front (preMasterSz s) (preMasterSecret s) in
  let hs := KeySpec.derive_secret P (KeySpec.handshake P psk dhe) in
  let ms := KeySpec.derive_secret P (KeySpec.master P psk dhe) in
  exists s1 s2 s3 s4 s5,
    DeriveEarlySecret s = (0, s1) /\ DeriveHandshakeSecret s1 = (0, s2) /\
    DeriveTls13Keys handshake_key ENCRYPT_AND_DECRYPT_SIDE true s2 = (0, s3) /\
    DeriveMasterSecret { s3 with hsHash := c2 } = (0, s4) /\
    DeriveTls13Keys traffic_key ENCRYPT_AND_DECRYPT_SIDE true s4 = (0, s5) /\
    keyed_by s3 (hs clientHandshakeLabel m1) (hs serverHandshakeLabel m1) /\
    (forall c m, holds c m -> exists fk,
       DeriveFinishedSecret { s3 with hsHash := c } (hs serverHandshakeLabel m1) = (0, fk) /\
       BuildTls13HandshakeHmac { s3 with hsHash := c } fk = (0, KeySpec.verify_data P (hs serverHandshakeLabel m1) m)) /\
    keyed_by s5 (ms clientAppLabel m2) (ms serverAppLabel m2) /\
    (saveArrays s = true -> digest_of (exporterSecret s4) = ms exporterMasterLabel m2) /\
    DeriveResumptionSecret s5 = (0, ms resumeMasterLabel m2) /\
    (dtls s = true ->
       sn_keyed_by s5 (ms clientAppLabel m2) (ms serverAppLabel m2) /\
       epoch_holds (w64From32 0 DTLS13_EPOCH_HANDSHAKE) ENCRYPT_AND_DECRYPT_SIDE (conn s3) /\
       epoch_holds (w64From32 0 DTLS13_EPOCH_TRAFFIC0) ENCRYPT_AND_DECRYPT_SIDE (conn s5)).
Proof.
  intros R Hp Hc Hm P psk dhe hs ms.
  destruct (handshake_stage s m1 R Hp Hc) as (s1 & s2 & s3 & E1 & E2 & E3 & R3 & S3 & D3 & Q3 & X3). fold P psk dhe in S3, D3, Q3. fold hs in Q3.
  injection S3 as P3 T3 V3. set (s3' := { s3 with hsHash := c2 }).
  destruct (traffic_stage s3' m2 _ (set_hash_ready s3 m1 c2 m2 R3 Hm) D3) as (s4 & s5 & E4 & E5 & Q5 & Ex & Rs & X5); [intros D; apply X3; now rewrite <- T3 |].
  change (protocol_of s3') with (protocol_of s3) in *. rewrite P3 in *. change (saveArrays s3') with (saveArrays s3) in Ex. change (dtls s3') with (dtls s3) in X5. rewrite V3 in Ex. rewrite T3 in X5.
  exists s1, s2, s3, s4, s5. do 6 (split; [assumption |]). split.
  { intros c m Hcm. destruct (derive_secret_ok P (KeySpec.handshake P psk dhe) serverHandshakeLabel m1) as [B L].
    destruct (finished_spec { s3 with hsHash := c } m _ (set_hash_ready s3 m1 c m R3 Hcm) B L) as (fk & F1 & F2). exists fk. split; [exact F1 |].
    rewrite F2. change (protocol_of { s3 with hsHash := c }) with (protocol_of s3). now rewrite P3. }
  split; [exact Q5 |]. split; [exact Ex |]. split; [exact Rs |]. intros D. destruct (X3 D) as [_ X3']. destruct (X5 D) as [N5 X5']. split; [exact N5 | split; assumption].
Qed.

(** Any number of KeyUpdates. *)
Fixpoint updates {H : Hash} {T} `{W64Ops T} (sides : list Z) (s : Ssl (T := T)) : Z * Ssl (T := T) :=
  match sides with
  | [] => (0, s)
  | sd :: sides => let '(ret, s) := DeriveTls13Keys update_traffic_key sd true s in if ret =? 0 then updates sides s else (ret, s)
  end.

(** How often [sd] occurs. *)
Definition times (sd : Z) (sides : list Z) : nat := count_occ Z.eq_dec sides sd.

Definition one_sided (sd : Z) : Prop := sd = ENCRYPT_SIDE_ONLY \/ sd = DECRYPT_SIDE_ONLY.

(** Generations [c] and [v] on, for a client that writes the client's keys. *)
Lemma updates_spec {H : Hash} {HS : HashSpec H} {T} `{W64 T} sides : Forall one_sided sides -> forall (s : Ssl (T := T)) m c v,
  ready s m -> dtls s = false -> keyed_by s c v ->
  let P := protocol_of s in
  let gen := KeySpec.generation P in
  let client := side (conn s) =? WOLFSSL_CLIENT_END in
  let up sd := times sd sides in
  exists s', updates sides s = (0, s') /\ (protocol_of s', key_size s', iv_size s') = (P, key_size s, iv_size s) /\
    keyed_by s' (gen (up (if client then ENCRYPT_SIDE_ONLY else DECRYPT_SIDE_ONLY)) c) (gen (up (if client then DECRYPT_SIDE_ONLY else ENCRYPT_SIDE_ONLY)) v).
Proof.
  induction 1 as [| sd sides Hsd _ IH]; intros s m c v R D K P gen client up.
  - exists s. split; [reflexivity |]. split; [reflexivity |]. now destruct client.
  - destruct (DeriveTls13Keys_derived update_traffic_key sd s m R) as (s1 & E1 & K1); [discriminate | congruence |].
    cbn [updates]. rewrite E1. cbn [Z.eqb]. pose proof (derived_update _ _ _ _ _ _ K1 K) as K1'. cbv zeta in K1'. fold P in K1'.
    destruct K1 as [R1 _ _ _ _ _ _ Sp _ Sd]. assert (D1 : dtls s1 = dtls s) by (injection Sp; auto).
    destruct (IH s1 m _ _ R1 (eq_trans D1 D) K1') as (s' & E & S' & K'). exists s'. split; [exact E |].
    assert (Sp1 : (protocol_of s1, key_size s1, iv_size s1) = (P, key_size s, iv_size s)) by (unfold P, protocol_of; injection Sp; intros -> -> _ ->; reflexivity).
    rewrite S', Sp1. split; [reflexivity |].
    unfold protocol_of in K'. rewrite D1, Sd in K'. fold (protocol_of s) P client in K'.
    assert (Pr : for_client (provision_of s sd) = xorb (negb client) (sd =? ENCRYPT_SIDE_ONLY) /\
                 for_server (provision_of s sd) = negb (xorb (negb client) (sd =? ENCRYPT_SIDE_ONLY))).
    { unfold provision_of. fold client. destruct Hsd as [-> | ->], client; split; reflexivity. }
    destruct Pr as [Pc Pv]. rewrite Pc, Pv in K'. unfold gen, up, times in *. cbn [count_occ] in K' |- *.
    destruct Hsd as [-> | ->], client; exact K'.
Qed.

(** [C13] The two peers of a TLS 1.3 connection agree on every generation of the
    traffic keys: a client and a server with the same traffic secrets, each
    updating its directions in its own order and any number of times,
    derive each time without error; the n-th update of a direction puts the n-th
    generation of RFC 8446, 7.2 in place, so that whenever the reader has updated
    as often as the writer both hold the same key and IV, whatever happened in the other
    direction. *)
Theorem key_updates_agree {H : Hash} {HS : HashSpec H} {T} `{W64 T} (c v : Ssl (T := T)) (mc mv a b : list Z) (lc lv : list Z) :
  ready c mc -> ready v mv -> dtls c = false -> dtls v = false -> key_size c = key_size v -> iv_size c = iv_size v ->
  side (conn c) = WOLFSSL_CLIENT_END -> side (conn v) = WOLFSSL_SERVER_END ->
  keyed_by c a b -> keyed_by v a b -> Forall one_sided lc -> Forall one_sided lv ->
  exists c' v', updates lc c = (0, c') /\ updates lv v = (0, v') /\
    let P := protocol_of c in
    let kc := keys (conn c') in
    let kv := keys (conn v') in
    digest_of (clientSecret c') = KeySpec.generation P (times ENCRYPT_SIDE_ONLY lc) a /\
    digest_of (serverSecret v') = KeySpec.generation P (times ENCRYPT_SIDE_ONLY lv) b /\
    (times ENCRYPT_SIDE_ONLY lc = times DECRYPT_SIDE_ONLY lv ->
       front (key_size c) (client_write_key kc) = front (key_size c) (client_write_key kv) /\
       front (iv_size c) (client_write_IV kc) = front (iv_size c) (client_write_IV kv)) /\
    (times DECRYPT_SIDE_ONLY lc = times ENCRYPT_SIDE_ONLY lv ->
       front (key_size c) (server_write_key kc) = front (key_size c) (server_write_key kv) /\
       front (iv_size c) (server_write_IV kc) = front (iv_size c) (server_write_IV kv)).
Proof.
  intros Rc Rv Dc Dv Ek Ei Sc Sv Kc Kv Fc Fv.
  destruct (updates_spec lc Fc c mc a b Rc Dc Kc) as (c' & Ec & Sc' & Kc'). destruct (updates_spec lv Fv v mv a b Rv Dv Kv) as (v' & Ev & Sv' & Kv').
  rewrite Sc in Kc'. rewrite Sv in Kv'. change (WOLFSSL_CLIENT_END =? WOLFSSL_CLIENT_END) with true in Kc'. change (WOLFSSL_SERVER_END =? WOLFSSL_CLIENT_END) with false in Kv'.
  cbv match in Kc', Kv'. injection Sc' as Pc Zc Ic. injection Sv' as Pv Zv Iv. assert (Ep : protocol_of v = protocol_of c) by (unfold protocol_of; now rewrite Dc, Dv).
  unfold keyed_by in Kc', Kv'. rewrite Pc, Zc, Ic in Kc'. rewrite Pv, Zv, Iv, Ep, <- Ek, <- Ei in Kv'.
  destruct Kc' as (C1 & _ & C2 & C3 & C4 & C5). destruct Kv' as (_ & V1 & V2 & V3 & V4 & V5).
  exists c', v'. split; [exact Ec |]. split; [exact Ev |]. split; [exact C1 |]. split; [exact V1 |].
  split; intros E; [rewrite E in C2, C3 | rewrite E in C4, C5]; split; congruence.
Qed.

(** The default case of the first [switch] sets [BAD_FUNC_ARG] and goes on: an
    unknown [secret] is answered like [no_key], the keys of the secrets in place are
    stored again. *)
Lemma unknown_secret_ignored {H : Hash} {HS : HashSpec H} {T} `{W64 T} sd (s : Ssl (T := T)) : dtls s = false ->
  DeriveTls13Keys other_key sd true s = DeriveTls13Keys no_key sd true s.
Proof.
  intros D. unfold DeriveTls13Keys, derive_secrets. cbn [Z.eqb negb andb leaves_switch]. destruct (derive_key_data _ s) as [ret kd].
  destruct (negb (ret =? 0)); [reflexivity |].
  assert (E : dtls (StoreKeys kd (provision_of s sd) s).2 = false)
    by (rewrite <- D; unfold StoreKeys, copy_key; generalize (provision_of s sd); intros p; destruct (for_client p), (for_server p), s as [? ? ? [|]]; reflexivity).
  destruct (StoreKeys kd _ s) as [r s']. cbn [snd] in E. now rewrite E.
Qed.

(** *** With SHA-256 *)

Definition emptySHA256Hash : list Z :=
  [0xE3; 0xB0; 0xC4; 0x42; 0x98; 0xFC; 0x1C; 0x14; 0x9A; 0xFB; 0xF4; 0xC8;
   0x99; 0x6F; 0xB9; 0x24; 0x27; 0xAE; 0x41; 0xE4; 0x64; 0x9B; 0x93; 0x4C;
   0xA4; 0x95; 0x99; 0x1B; 0x78; 0x52; 0xB8; 0x55].

#[local] Instance sha256 : Hash := Sha256_hash Transform_Sha256.
#[local] Instance sha256_laws : HashSpec sha256 := Sha256_spec Transform_Sha256 block_default.

Example emptySHA256Hash_is_hash : emptySHA256Hash = hash [].
Proof. vm_compute. reflexivity. Qed.

(** A connection with a 32-byte shared secret, AES-128 and room for the secrets. *)
Definition sample_ssl (sd : Z) (dhe : list Z) : Ssl (T := Native.w64wrapper) :=
  {| dtls := false; minor := TLSv1_3_MINOR; saveArrays := true; is_aead := true; key_size := 16; iv_size := 12; hsHash := h_init;
     psk_key := []; psk_keySz := 0; secret := replicate 48 0; preMasterSecret := dhe; preMasterSz := 32; masterSecret := replicate 48 0;
     exporterSecret := replicate 48 0; clientSecret := replicate 48 0; serverSecret := replicate 48 0;
     client_write_MAC_secret := []; server_write_MAC_secret := []; aead_exp_IV := [];
     conn := {| side := sd; handShakeDone := false; dtls13Epochs := []; dtls13EncryptEpoch := None; dtls13DecryptEpoch := None;
                dtls13Epoch := w64Zero; dtls13PeerEpoch := w64Zero; curEpoch64 := w64Zero; curSeq := w64Zero;
                keys := mkKeys (replicate 16 0) (replicate 12 0) [] (replicate 16 0) (replicate 12 0) [] [] [] |} |}.

(** The early, handshake and master secrets of the trace of RFC 8448, 3. *)
Example rfc8448_secrets :
  let s := sample_ssl WOLFSSL_CLIENT_END (be_bytes 32 0x8bd4054fb55b9d63fdfbacf9f04b9f0d35e6d63f537563efd46272900f89492d) in
  let s1 := (DeriveEarlySecret s).2 in
  let s2 := (DeriveHandshakeSecret s1).2 in
  let s3 := (DeriveMasterSecret s2).2 in
  (be_value (digest_of (secret s1)), be_value (digest_of (preMasterSecret s2)), be_value (digest_of (masterSecret s3))) =
  (0x33ad0a1c607ec03b09e6cd9893680ce210adf300aa1f2660e1b22e10f170f92a,
   0x1dc826e93606aa6fdc0aadc12f741b01046aa6b99f691ed221a9f0ca043fbeac,
   0x18df06843d13a08bf2a449844c5f8a478001bc4d4c627984d5a41da8d0402919).
Proof. vm_compute. reflexivity. Qed.

(** The same over DTLS, with four epochs in use. *)
Definition sample_dtls : Ssl (T := Native.w64wrapper) :=
  { sample_ssl WOLFSSL_CLIENT_END (replicate 32 7) with dtls := true; minor := DTLSv1_3_MINOR; conn := sample13 }.

Lemma sample_conn_ok : conn_ok sample13.
Proof.
  split; [exact sample13_ok |]. intros e He _. unfold sample13 in He. cbn in He. rewrite !elem_of_cons in He.
  destruct He as [-> | [-> | [-> | [-> | He]]]]; [vm_compute; reflexivity.. | inversion He].
Qed.

Lemma sample_ready d v sd : Forall is_bytes [d] -> (if v : bool then d = replicate 32 7 else True) ->
  ready (if v then sample_dtls else sample_ssl sd d) [].
Proof.
  intros B E. apply Forall_cons in B as [B _]. destruct v; (constructor; [apply holds_init | reflexivity | reflexivity | split; [discriminate | reflexivity]
    | split; discriminate | split; discriminate |]); repeat (apply Forall_cons; split); try (apply Forall_nil; exact I); try exact B;
    apply (bool_decide_unpack _); vm_compute; exact I.
Qed.

Lemma key_schedule_rfc8446_witness :
  exists s1 s2 s3, DeriveEarlySecret sample_dtls = (0, s1) /\ DeriveHandshakeSecret s1 = (0, s2) /\
    DeriveTls13Keys handshake_key ENCRYPT_AND_DECRYPT_SIDE true s2 = (0, s3) /\
    epoch_holds (w64From32 0 DTLS13_EPOCH_HANDSHAKE) ENCRYPT_AND_DECRYPT_SIDE (conn s3).
Proof.
  destruct (key_schedule_rfc8446 sample_dtls [] [] h_init (sample_ready (replicate 32 7) true 0 ltac:(apply (bool_decide_unpack _); vm_compute; exact I) eq_refl)
    ltac:(split; [discriminate | reflexivity]) (fun _ => sample_conn_ok) holds_init)
    as (s1 & s2 & s3 & s4 & s5 & E1 & E2 & E3 & _ & _ & _ & _ & _ & _ & _ & X).
  exists s1, s2, s3. split; [exact E1 |]. split; [exact E2 |]. split; [exact E3 |]. exact (proj1 (proj2 (X eq_refl))).
Defined.

(** A client and a server after a handshake. *)
Definition sample_peer (sd : Z) : Ssl (T := Native.w64wrapper) := (DeriveTls13Keys traffic_key ENCRYPT_AND_DECRYPT_SIDE true (sample_ssl sd (replicate 32 7))).2.

Definition sample_secret (label : list Z) : list Z := KeySpec.derive_secret tls13ProtocolLabel (digest_of (replicate 48 0)) label [].

Lemma traffic_secrets {H : Hash} {HS : HashSpec H} {T} `{W64Ops T} (s : Ssl (T := T)) m :
  client_secret_of traffic_key s m = KeySpec.derive_secret (protocol_of s) (digest_of (masterSecret s)) clientAppLabel m /\
  server_secret_of traffic_key s m = KeySpec.derive_secret (protocol_of s) (digest_of (masterSecret s)) serverAppLabel m.
Proof. now split. Qed.

Lemma sample_peer_keyed sd : let s := sample_peer sd in
  ready s [] /\ (dtls s = false /\ key_size s = 16 /\ iv_size s = 12 /\ side (conn s) = sd) /\ keyed_by s (sample_secret clientAppLabel) (sample_secret serverAppLabel).
Proof.
  unfold sample_peer. set (s0 := sample_ssl sd (replicate 32 7)).
  assert (R : ready s0 []) by exact (sample_ready (replicate 32 7) false sd ltac:(apply (bool_decide_unpack _); vm_compute; exact I) I).
  destruct (DeriveTls13Keys_derived traffic_key ENCRYPT_AND_DECRYPT_SIDE s0 [] R) as (s' & E & D); [discriminate | discriminate |].
  rewrite E. cbn [snd]. destruct (derived_both _ _ _ _ D eq_refl eq_refl) as [K _]. split; [apply D |].
  assert (EP : protocol_of s0 = tls13ProtocolLabel) by reflexivity. assert (EM : masterSecret s0 = replicate 48 0) by reflexivity.
  destruct (traffic_secrets s0 []) as [TC TV]. rewrite TC, TV, EP, EM in K.
  pose proof (de_specs _ _ _ _ _ D) as S. pose proof (de_side _ _ _ _ _ D) as Sd. rewrite Sd.
  assert (Ec : dtls s' = dtls s0 /\ key_size s' = key_size s0 /\ iv_size s' = iv_size s0) by (injection S; auto). destruct Ec as (-> & -> & ->).
  split; [now repeat split | exact K].
Qed.

Lemma key_updates_agree_witness :
  exists c v, updates [1; 2; 1] (sample_peer WOLFSSL_CLIENT_END) = (0, c) /\ updates [2; 2] (sample_peer WOLFSSL_SERVER_END) = (0, v) /\
    front 16 (client_write_key (keys (conn c))) = front 16 (client_write_key (keys (conn v))).
Proof.
  destruct (sample_peer_keyed WOLFSSL_CLIENT_END) as (Rc & (D1 & Z1 & I1 & S1) & Kc). destruct (sample_peer_keyed WOLFSSL_SERVER_END) as (Rv & (D2 & Z2 & I2 & S2) & Kv).
  assert (F1 : Forall one_sided [1; 2; 1]) by (repeat constructor; left + right; reflexivity).
  assert (F2 : Forall one_sided [2; 2]) by (repeat constructor; left + right; reflexivity).
  destruct (key_updates_agree _ _ [] [] _ _ [1; 2; 1] [2; 2] Rc Rv D1 D2 (eq_trans Z1 (eq_sym Z2)) (eq_trans I1 (eq_sym I2)) S1 S2 Kc Kv F1 F2)
    as (c & v & E1 & E2 & _ & _ & X & _).
  exists c, v. split; [exact E1 |]. split; [exact E2 |]. pose proof (proj1 (X eq_refl)) as Y. rewrite Z1 in Y. exact Y.
Defined.
