(* ===== verification/TlsCipher13.v ===== *)
(** * src/tls13.c, src/keys.c: the ciphers of a TLS 1.3 record

    The keys put in the cipher contexts ([SetAuthKeys], [SetKeys] and [SetKeysSide],
    for ChaCha20-Poly1305 over a stream), [ChaCha20Poly1305_Encrypt],
    [ChaCha20Poly1305_Decrypt] and the integrity-only functions, as [EncryptTls13]
    and [DecryptTls13] call them, in place; and the instance of [RecordCrypto]
    they make with the key schedule of TlsKeys13.v, so that what
    TlsSend13.v, TlsRecv13.v and TlsChannel13.v prove of any lawful cipher holds
    of this one.  Without secure renegotiation, callbacks and QUIC. *)

From S2P Require Import Prelude Misc W64 Tls Sha256 Hmac Hkdf ChaCha Poly1305 PolyLimbs ChaChaPoly TlsSeq TlsSend13 Dtls13Epoch TlsKeys13.
From stdpp Require Import list.

#[local] Open Scope Z_scope.
#[local] Open Scope cword_scope.

Definition VERIFY_MAC_ERROR : Z := -305.
Definition DECRYPT_ERROR : Z := -312.

Definition MEMORY_E : Z := -125.
Definition CHACHA20_IMP_IV_SZ : nat := 12.

Section Ciphers.
  Context {P : PolyOps} {H : Hash} {T : Type} `{W64Ops T}.

(** A connection with its cipher: [ssl] is what the key schedule works on, with
    [ssl->keys]; [encrypt.chacha], [decrypt.chacha] and [auth.poly1305], allocated
    when first keyed; the [setup] flags; [seqs], the record numbers of [keys]. *)
Record Endpoint := mk_endpoint {
  ssl : Ssl (T := T);
  encrypt : option ChaCha; decrypt : option ChaCha; poly1305 : option Poly1305;
  enc_setup : bool; dec_setup : bool; auth_setup : bool;
  seqs : Keys
}.

Context (addr_state addr_key addr : Z).

(** ** Keys in place *)

(** What [XMALLOC] returns, with what the memory holds. *)
Context (malloc_enc malloc_dec : option ChaCha) (malloc_poly : option Poly1305).

Definition allocated {A} (p malloc : option A) : option A := match p with Some _ => p | None => malloc end.

Definition SetAuthKeys (e : Endpoint) : Z * Endpoint :=
  let e := { e with poly1305 := allocated (poly1305 e) malloc_poly } in
  match poly1305 e with
  | None => (MEMORY_E, e)
  | Some _ => (0, { e with auth_setup := true })
  end.

(** One direction of [SetKeys]: the context keyed, and the implicit IV. *)
Definition set_enc (key iv : list Z) (e : Endpoint) : Z * Endpoint :=
  match encrypt e with
  | None => (MEMORY_E, e)
  | Some ctx =>
      let '(chachaRet, ctx) := wc_Chacha_SetKey ctx (front (key_size (ssl e)) key) in
      (chachaRet, { { e with encrypt := Some ctx } with
        ssl := set_keys (fun k => { k with aead_enc_imp_IV := store (take CHACHA20_IMP_IV_SZ iv) (aead_enc_imp_IV k) }) (ssl e) })
  end.

Definition set_dec (key iv : list Z) (e : Endpoint) : Z * Endpoint :=
  match decrypt e with
  | None => (MEMORY_E, e)
  | Some ctx =>
      let '(chachaRet, ctx) := wc_Chacha_SetKey ctx (front (key_size (ssl e)) key) in
      (chachaRet, { { e with decrypt := Some ctx } with
        ssl := set_keys (fun k => { k with aead_dec_imp_IV := store (take CHACHA20_IMP_IV_SZ iv) (aead_dec_imp_IV k) }) (ssl e) })
  end.

Definition is_null {A} (p : option A) : bool := match p with None => true | Some _ => false end.

(** The end of [SetKeys]. *)
Definition restart_numbers (enc dec : bool) (e : Endpoint) : Endpoint :=
  let e := if enc then { e with seqs := { { seqs e with sequence_number_hi := 0 } with sequence_number_lo := 0 } } else e in
  if dec then { e with seqs := { { seqs e with peer_sequence_number_hi := 0 } with peer_sequence_number_lo := 0 } } else e.

(** [enc] and [dec]: which of the contexts are passed; [bulk_cipher_algorithm] is [wolfssl_chacha]. *)
Definition SetKeys (enc dec : bool) (e : Endpoint) : Z * Endpoint :=
  let e := if enc then { e with encrypt := allocated (encrypt e) malloc_enc } else e in
  if enc && is_null (encrypt e) then (MEMORY_E, e)
  else
    let e := if dec then { e with decrypt := allocated (decrypt e) malloc_dec } else e in
    if dec && is_null (decrypt e) then (MEMORY_E, e)
    else
      let k := keys (conn (ssl e)) in
      let '(chachaRet, e) :=
        if side (conn (ssl e)) =? WOLFSSL_CLIENT_END then
          let '(r, e) := if enc then set_enc (client_write_key k) (client_write_IV k) e else (0, e) in
          if negb (r =? 0) then (r, e)
          else if dec then set_dec (server_write_key k) (server_write_IV k) e else (0, e)
        else
          let '(r, e) := if enc then set_enc (server_write_key k) (server_write_IV k) e else (0, e) in
          if negb (r =? 0) then (r, e)
          else if dec then set_dec (client_write_key k) (client_write_IV k) e else (0, e) in
      if negb (chachaRet =? 0) then (chachaRet, e)
      else
        let e := if enc then { e with enc_setup := true } else e in
        let e := if dec then { e with dec_setup := true } else e in
        (0, restart_numbers enc dec e).

Definition SetKeysSide (encrypt_side : Z) (e : Endpoint) : Z * Endpoint :=
  let provision enc dec :=
    let '(ret, e) := if negb (auth_setup e) then SetAuthKeys e else (0, e) in
    if negb (ret =? 0) then (ret, e) else SetKeys enc dec e in
  if encrypt_side =? ENCRYPT_SIDE_ONLY then provision true false
  else if encrypt_side =? DECRYPT_SIDE_ONLY then provision false true
  else if encrypt_side =? ENCRYPT_AND_DECRYPT_SIDE then provision true true
  else (BAD_FUNC_ARG, e).

(** The keys of a KeyUpdate, sent or received. *)
Definition update_keys (encrypt_side : Z) (e : Endpoint) : Z * Endpoint :=
  let '(ret, s) := DeriveTls13Keys update_traffic_key encrypt_side true (ssl e) in
  let e := { e with ssl := s } in
  if negb (ret =? 0) then (ret, e) else SetKeysSide encrypt_side e.

(** ** Records *)

(** The code, the text, the tag and the contexts. *)
Definition ChaCha20Poly1305_Encrypt (c : ChaCha) (p : Poly1305) (input nonce aad : list Z) : Z * list Z * list Z * ChaCha * Poly1305 :=
  wc_ChaCha20Poly1305_Encrypt_ex addr_state addr_key addr addr c p input input nonce aad.

Definition ChaCha20Poly1305_Decrypt (c : ChaCha) (p : Poly1305) (input nonce aad tagIn : list Z) : Z * list Z * ChaCha * Poly1305 :=
  let '(ret, output, c, p) := wc_ChaCha20Poly1305_Decrypt_ex addr_state addr_key addr addr c p input input nonce tagIn aad in
  (if ret =? MAC_CMP_FAILED_E then VERIFY_MAC_ERROR else ret, output, c, p).

(** A record of [EncryptTls13]: its nonce, which counts it, and the text with the
    tag behind it; [None] without keys. *)
Definition seal_record (aad input : list Z) (e : Endpoint) : option (Z * list Z * Endpoint) :=
  match encrypt e, poly1305 e with
  | Some ctx, Some auth =>
      let '(nonce, k) := BuildTls13Nonce 0 0 (aead_enc_imp_IV (keys (conn (ssl e)))) (iv_size (ssl e)) CUR_ORDER (seqs e) in
      let '(ret, output, tag, ctx, auth) := ChaCha20Poly1305_Encrypt ctx auth input nonce aad in
      Some (ret, output ++ tag, { { { e with encrypt := Some ctx } with poly1305 := Some auth } with seqs := k })
  | _, _ => None
  end.

(** A record of [DecryptTls13], whose tag is at its end. *)
Definition open_record (aad input : list Z) (e : Endpoint) : option (Z * list Z * Endpoint) :=
  match decrypt e, poly1305 e with
  | Some ctx, Some auth =>
      let '(nonce, k) := BuildTls13Nonce 0 0 (aead_dec_imp_IV (keys (conn (ssl e)))) (iv_size (ssl e)) PEER_ORDER (seqs e) in
      let dataSz := (length input - 16)%nat in
      let '(ret, output, ctx, auth) := ChaCha20Poly1305_Decrypt ctx auth (take dataSz input) nonce aad (drop dataSz input) in
      Some (ret, output, { { { e with decrypt := Some ctx } with poly1305 := Some auth } with seqs := k })
  | _, _ => None
  end.

End Ciphers.

Section IntegrityOnly.
  Context {H : Hash} {HS : HashSpec H}.

(** The code, the tag and [ssl->encrypt.hmac]; the text is copied. *)
Definition Tls13IntegrityOnly_Encrypt (h : Hmac) (input nonce aad : list Z) : Z * list Z * Hmac :=
  let '(ret, h) := wc_HmacUpdate h nonce in
  let '(ret, h) := if ret =? 0 then wc_HmacUpdate h aad else (ret, h) in
  let '(ret, h) := if ret =? 0 then wc_HmacUpdate h input else (ret, h) in
  if ret =? 0 then wc_HmacFinal h else (ret, [], h).

Definition Tls13IntegrityOnly_Decrypt (h : Hmac) (input nonce aad tagIn : list Z) : Z * Hmac :=
  let '(ret, hmac, h) := Tls13IntegrityOnly_Encrypt h input nonce aad in
  (if (ret =? 0) && negb (Buf.ConstantCompare tagIn hmac (Z.to_nat h_digest) =? 0) then DECRYPT_ERROR else ret, h).

(** A record is its text with HMAC(nonce | additional data | text), and the
    contexts serve for the next one. *)
Lemma integrity_only_spec K h nonce aad m tag : is_bytes K -> hmac_rep h K [] -> is_bytes nonce -> is_bytes aad -> is_bytes m -> is_bytes tag ->
  Zlen nonce < 2 ^ 32 -> Zlen aad < 2 ^ 32 -> Zlen m < 2 ^ 32 -> Zlen tag = h_digest ->
  exists h', hmac_rep h' K [] /\
    Tls13IntegrityOnly_Encrypt h m nonce aad = (0, HMAC K (nonce ++ aad ++ m), h') /\
    Tls13IntegrityOnly_Decrypt h m nonce aad tag = (if decide (tag = HMAC K (nonce ++ aad ++ m)) then 0 else DECRYPT_ERROR, h').
Proof using.
  intros BK R Bn Ba Bm Bt Ln La Lm Lt.
  destruct (wc_HmacUpdate_rep h K [] nonce BK R Bn Ln) as (h1 & E1 & R1). destruct (wc_HmacUpdate_rep h1 K _ aad BK R1 Ba La) as (h2 & E2 & R2).
  destruct (wc_HmacUpdate_rep h2 K _ m BK R2 Bm Lm) as (h3 & E3 & R3). destruct (wc_HmacFinal_rep h3 K _ BK R3) as (h' & E4 & R').
  cbn [app] in E4. rewrite <- app_assoc in E4.
  assert (E : Tls13IntegrityOnly_Encrypt h m nonce aad = (0, HMAC K (nonce ++ aad ++ m), h')).
  { unfold Tls13IntegrityOnly_Encrypt. rewrite E1. cbn [Z.eqb]. rewrite E2. cbn [Z.eqb]. rewrite E3. exact E4. }
  exists h'. split; [exact R' |]. split; [exact E |]. unfold Tls13IntegrityOnly_Decrypt. rewrite E. cbn [Z.eqb andb]. f_equal.
  pose proof (HMAC_length K (nonce ++ aad ++ m)) as Lh. pose proof (HMAC_bytes K (nonce ++ aad ++ m)) as Bh. generalize dependent (HMAC K (nonce ++ aad ++ m)). intros t _ _ Lh Bh.
  destruct (ConstantCompare_zero_iff tag t (Z.to_nat h_digest) Bt Bh) as [_ C]; [unfold Zlen in *; lia | unfold Zlen in *; lia |].
  rewrite !take_ge in C by (unfold Zlen in *; lia).
  destruct (Z.eqb_spec (Buf.ConstantCompare tag t (Z.to_nat h_digest)) 0) as [Z0 | N0], (decide (tag = t)); cbn [negb]; tauto.
Qed.

End IntegrityOnly.

(** ** The instance *)
Section Instance13.
  Context {H : Hash} {HS : HashSpec H}.

(** The key and the IV of a traffic secret. *)
Definition write_key (s : list Z) : list Z := KeySpec.expand_label tls13ProtocolLabel s writeKeyLabel [] 32.
Definition write_iv (s : list Z) : list Z := KeySpec.expand_label tls13ProtocolLabel s writeIVLabel [] 12.

Definition sealed (s n a p : list Z) : list Z := let '(c, t) := AeadSpec.seal (write_key s) n a p in c ++ t.

Definition unsealed (s n a x : list Z) : Z * list Z :=
  let text := take (length x - 16) x in
  match AeadSpec.open (write_key s) n a text (drop (length x - 16) x) with
  | Some p => (0, p)
  | None => (VERIFY_MAC_ERROR, replicate (length text) 0)
  end.

#[export] Instance chacha_crypto : RecordCrypto (list Z) := {|
  rc_encrypt := sealed;
  rc_decrypt := unsealed;
  rc_iv := write_iv;
  rc_update := KeySpec.next tls13ProtocolLabel;
  TlsSend13.iv_size := 12;
  aead_mac_size := 16
|}.

Lemma write_key_ok s : is_bytes (write_key s) /\ Zlen (write_key s) = 32.
Proof using. apply expand_label_ok. lia. Qed.

Lemma write_iv_ok s : is_bytes (write_iv s) /\ Zlen (write_iv s) = 12.
Proof using. apply expand_label_ok. lia. Qed.

Lemma sealed_split s n a p :
  let '(c, t) := AeadSpec.seal (write_key s) n a p in
  sealed s n a p = c ++ t /\ length c = length p /\ length t = 16%nat.
Proof using.
  unfold sealed. cbn [AeadSpec.seal]. split; [reflexivity |]. split; [apply crypt_length | apply tag_length].
Qed.

(** Unsealing is the inverse of sealing, and accepts nothing else. *)
Lemma unsealed_iff s n a x p : (16 <= length x)%nat -> unsealed s n a x = (0, p) <-> x = sealed s n a p.
Proof using.
  intros Lx. unfold unsealed. set (c := take (length x - 16) x). set (t := drop (length x - 16) x).
  assert (Ex : x = c ++ t) by (symmetry; apply take_drop). unfold AeadSpec.open. destruct (decide (t = AeadSpec.tag (write_key s) n a c)) as [E | N].
  - split.
    + intros [= <-]. rewrite Ex, E. unfold sealed. cbn [AeadSpec.seal]. now rewrite crypt_twice.
    + intros Ep. pose proof (sealed_split s n a p) as S. cbn [AeadSpec.seal] in S. destruct S as (Es & Lc & Lt). rewrite Es in Ep.
      assert (Ec : c = AeadSpec.crypt (write_key s) n p).
      { rewrite Ex in Ep. apply app_inj_2 in Ep as [Ec _]; [exact Ec |]. rewrite Lt. unfold t. rewrite length_drop. lia. }
      now rewrite Ec, crypt_twice.
  - split; [discriminate |]. intros Ep. exfalso. apply N. pose proof (sealed_split s n a p) as S. cbn [AeadSpec.seal] in S. destruct S as (Es & Lc & Lt).
    rewrite Es, Ex in Ep. apply app_inj_2 in Ep as [Ec Et]; [now rewrite Et, Ec |]. rewrite Lt. unfold t. rewrite length_drop. lia.
Qed.

Lemma block_bytes key c n : is_bytes (ChaChaSpec.block key c n).
Proof using. unfold ChaChaSpec.block. apply Forall_concat, Forall_map, Forall_forall. intros w _. apply le_bytes_is_bytes. Qed.

Lemma crypt_is_bytes key n m : is_bytes m -> is_bytes (AeadSpec.crypt key n m).
Proof using.
  intros B. apply lxor_bytes_is_bytes; [exact B |]. unfold ChaChaSpec.stream. apply Forall_map, Forall_forall. intros i _.
  apply rd_is_word; [lia | apply block_bytes].
Qed.

#[export] Instance chacha_crypto_spec : RecordCryptoSpec (list Z).
Proof using.
  split; cbn [rc_encrypt rc_decrypt rc_iv TlsSend13.iv_size aead_mac_size chacha_crypto].
  - intros s n a p. pose proof (sealed_split s n a p) as S. cbn [AeadSpec.seal] in S. destruct S as (-> & Lc & Lt).
    unfold Zlen. rewrite length_app, Lc, Lt. lia.
  - intros s n a p B. unfold sealed. cbn [AeadSpec.seal]. apply Forall_app. split; [now apply crypt_is_bytes | apply tag_bytes].
  - intros s n a p. apply unsealed_iff; [| reflexivity]. pose proof (sealed_split s n a p) as S. cbn [AeadSpec.seal] in S. destruct S as (-> & _ & Lt).
    rewrite length_app, Lt. lia.
  - intros s n a c L. unfold unsealed, AeadSpec.open. set (t := take _ c). assert (Lt : Zlen t = Zlen c - 16) by (unfold t, Zlen in *; rewrite length_take; lia).
    destruct (decide _); cbn [snd]; [rewrite crypt_Zlen; exact Lt | unfold Zlen in *; now rewrite length_replicate].
  - intros s n a c B. unfold unsealed, AeadSpec.open. destruct (decide _); cbn [snd]; [apply crypt_is_bytes; now apply Forall_take |].
    apply Forall_replicate. unfold is_word. lia.
  - intros s n a c. unfold unsealed, AeadSpec.open. destruct (decide _); split; cbn; (lia || discriminate).
  - intros s. destruct (write_iv_ok s) as [B L]. split; [exact B |]. rewrite L. reflexivity.
  - lia.
Qed.

End Instance13.

(** ** The record layer, for any cipher *)

Inductive record_op := Seal (aad text : list Z) | Unseal (aad input : list Z) | Update (encrypt_side : Z).

(** Each record's code and bytes: secrets of the two directions, their numbers. *)
Fixpoint rc_run {S} `{RecordCrypto S} (own peer : S) (sent received : Z) (ops : list record_op) : list (Z * list Z) :=
  match ops with
  | [] => []
  | Seal aad text :: ops =>
      (0, rc_encrypt own (nonce_of (rc_iv own) (TlsSend13.iv_size (S := S)) sent) aad text) :: rc_run own peer (u64 (sent + 1)) received ops
  | Unseal aad input :: ops =>
      rc_decrypt peer (nonce_of (rc_iv peer) (TlsSend13.iv_size (S := S)) received) aad input :: rc_run own peer sent (u64 (received + 1)) ops
  | Update sd :: ops =>
      (0, []) :: (if sd =? ENCRYPT_SIDE_ONLY then rc_run (rc_update own) peer 0 received ops else rc_run own (rc_update peer) sent 0 ops)
  end.

(** What the code does. *)
Fixpoint endpoint_run {P : PolyOps} {H : Hash} {T} `{W64Ops T} (as_ ak addr : Z) (me md : option ChaCha) (mp : option Poly1305)
    (e : Endpoint) (ops : list record_op) : list (Z * list Z) :=
  match ops with
  | [] => []
  | op :: ops =>
      match match op with
            | Seal aad text => seal_record as_ ak addr aad text e
            | Unseal aad input => open_record as_ ak addr aad input e
            | Update sd => let '(ret, e) := update_keys me md mp sd e in Some (ret, [], e)
            end with
      | None => []
      | Some (ret, out, e) => (ret, out) :: endpoint_run as_ ak addr me md mp e ops
      end
  end.

(** The sizes are [word16]. *)
Definition record_op_ok (op : record_op) : Prop :=
  match op with
  | Seal aad text => is_bytes aad /\ Zlen aad < 2 ^ 16 /\ is_bytes text /\ Zlen text < 2 ^ 16 - 16
  | Unseal aad input => is_bytes aad /\ Zlen aad < 2 ^ 16 /\ is_bytes input /\ 16 <= Zlen input < 2 ^ 16
  | Update sd => one_sided sd
  end.

#[export] Instance record_op_ok_dec op : Decision (record_op_ok op).
Proof. destruct op; unfold record_op_ok, one_sided; apply _. Defined.

Section RecordProofs.
  Context {P : PolyOps} {L : PolyLaws P} {H : Hash} {HS : HashSpec H} {T : Type} `{W64 T}.
  Context (addr_state addr_key addr : Z) (malloc_enc malloc_dec : option ChaCha) (malloc_poly : option Poly1305).

Implicit Types e : Endpoint (T := T).

(** *** Keys *)

(** There is a context, or memory for one. *)
Definition room (p malloc : option ChaCha) : Prop := exists ctx, allocated p malloc = Some ctx /\ length (X ctx) = 16%nat.

Lemma keyed_length key ctx : keyed key ctx -> length (X ctx) = 16%nat.
Proof using. intros [(rest & -> & Lr) _]. rewrite length_app, Lr. unfold ChaChaSpec.init. destruct (Zlen key =? 32); reflexivity. Qed.

(** The context and implicit IV of a direction are those of [s]. *)
Definition direction (s : list Z) (p : option ChaCha) (imp : list Z) : Prop :=
  (exists ctx, p = Some ctx /\ keyed (write_key s) ctx) /\ is_bytes imp /\ take 12 imp = write_iv s.

Lemma direction_room s p imp malloc : direction s p imp -> room p malloc.
Proof using. intros [(ctx & -> & K) _]. exists ctx. split; [reflexivity | eapply keyed_length; exact K]. Qed.

(** The key and IV in place for a direction. *)
Definition in_place (s key iv : list Z) : Prop := front 32 key = write_key s /\ front 12 iv = write_iv s.

Definition enc_imp e : list Z := aead_enc_imp_IV (keys (conn (ssl e))).
Definition dec_imp e : list Z := aead_dec_imp_IV (keys (conn (ssl e))).

Lemma set_direction s ctx key iv imp : length (X ctx) = 16%nat -> in_place s key iv -> is_bytes imp ->
  exists ctx', wc_Chacha_SetKey ctx (front 32 key) = (0, ctx') /\ direction s (Some ctx') (store (take CHACHA20_IMP_IV_SZ iv) imp).
Proof using.
  intros Lx [Ek Ei] Bi. destruct (write_key_ok s) as [Bk Lk]. destruct (write_iv_ok s) as [Bv Lv].
  destruct (SetKey_keyed ctx (write_key s) Lx ltac:(split; [exact Bk | now right])) as (ctx' & E & K & _). rewrite Ek.
  exists ctx'. split; [exact E |]. split; [eauto |]. change (take CHACHA20_IMP_IV_SZ iv) with (front 12 iv). rewrite Ei.
  split; [now apply store_bytes |]. exact (front_store 12 (write_iv s) imp Lv).
Qed.

Definition client e : bool := side (conn (ssl e)) =? WOLFSSL_CLIENT_END.

Definition own_in_place (s : list Z) e : Prop :=
  let k := keys (conn (ssl e)) in
  if client e then in_place s (client_write_key k) (client_write_IV k) else in_place s (server_write_key k) (server_write_IV k).

Definition peer_in_place (s : list Z) e : Prop :=
  let k := keys (conn (ssl e)) in
  if client e then in_place s (server_write_key k) (server_write_IV k) else in_place s (client_write_key k) (client_write_IV k).

(** [ssl] with other implicit IVs. *)
Definition with_imp (i j : list Z) (s : Ssl (T := T)) : Ssl (T := T) :=
  set_keys (fun k => { { k with aead_enc_imp_IV := i } with aead_dec_imp_IV := j }) s.

(** What [SetKeys] for these directions does. *)
Record provisioned (enc dec : bool) (own peer : list Z) e e' : Prop := {
  pv_enc : if enc then direction own (encrypt e') (enc_imp e') /\ tls_seq false (seqs e') = 0
           else encrypt e' = encrypt e /\ enc_imp e' = enc_imp e /\ tls_seq false (seqs e') = tls_seq false (seqs e);
  pv_dec : if dec then direction peer (decrypt e') (dec_imp e') /\ tls_seq true (seqs e') = 0
           else decrypt e' = decrypt e /\ dec_imp e' = dec_imp e /\ tls_seq true (seqs e') = tls_seq true (seqs e);
  pv_ssl : exists i j, ssl e' = with_imp i j (ssl e);
  pv_poly : poly1305 e' = poly1305 e;
  pv_auth : auth_setup e' = auth_setup e;
  pv_seqs : keys_ok (seqs e')
}.

Lemma set_enc_spec s ctx key iv e : key_size (ssl e) = 32 -> encrypt e = Some ctx -> length (X ctx) = 16%nat -> in_place s key iv -> is_bytes (enc_imp e) ->
  exists ctx' imp, set_enc key iv e = (0, { { e with encrypt := Some ctx' } with ssl := with_imp imp (dec_imp e) (ssl e) }) /\ direction s (Some ctx') imp.
Proof using.
  intros Ks Ec Lx Pl Bi. destruct (set_direction s ctx key iv (enc_imp e) Lx Pl Bi) as (ctx' & E & D).
  unfold set_enc. rewrite Ec, Ks, E. eexists ctx', _. split; [| exact D]. unfold with_imp, enc_imp, dec_imp. destruct e as [[? ? ? ? ? ? ? ? ? ? ? ? ? ? ? ? ? ? ? [? ? ? ? ? ? ? ? ? []]]]. reflexivity.
Qed.

Lemma set_dec_spec s ctx key iv e : key_size (ssl e) = 32 -> decrypt e = Some ctx -> length (X ctx) = 16%nat -> in_place s key iv -> is_bytes (dec_imp e) ->
  exists ctx' imp, set_dec key iv e = (0, { { e with decrypt := Some ctx' } with ssl := with_imp (enc_imp e) imp (ssl e) }) /\ direction s (Some ctx') imp.
Proof using.
  intros Ks Ec Lx Pl Bi. destruct (set_direction s ctx key iv (dec_imp e) Lx Pl Bi) as (ctx' & E & D).
  unfold set_dec. rewrite Ec, Ks, E. eexists ctx', _. split; [| exact D]. unfold with_imp, enc_imp, dec_imp. destruct e as [[? ? ? ? ? ? ? ? ? ? ? ? ? ? ? ? ? ? ? [? ? ? ? ? ? ? ? ? []]]]. reflexivity.
Qed.

Lemma keys_restart k : keys_ok k ->
  (let k0 := { { k with sequence_number_hi := 0 } with sequence_number_lo := 0 } in
   keys_ok k0 /\ tls_seq false k0 = 0 /\ tls_seq true k0 = tls_seq true k) /\
  (let k0 := { { k with peer_sequence_number_hi := 0 } with peer_sequence_number_lo := 0 } in
   keys_ok k0 /\ tls_seq true k0 = 0 /\ tls_seq false k0 = tls_seq false k).
Proof using. destruct k. unfold keys_ok, tls_seq, is_word. cbn. intros O. repeat split; lia. Qed.

Definition with_contexts (c d : option ChaCha) (i j : list Z) e : Endpoint (T := T) :=
  { { { e with encrypt := c } with decrypt := d } with ssl := with_imp i j (ssl e) }.

Lemma with_contexts_same e : with_contexts (encrypt e) (decrypt e) (enc_imp e) (dec_imp e) e = e.
Proof using. destruct e as [[? ? ? ? ? ? ? ? ? ? ? ? ? ? ? ? ? ? ? [? ? ? ? ? ? ? ? ? []]]]. reflexivity. Qed.

Lemma with_contexts_twice c d i j c' d' i' j' e : with_contexts c' d' i' j' (with_contexts c d i j e) = with_contexts c' d' i' j' e.
Proof using. reflexivity. Qed.

Lemma set_both enc dec own peer k1 v1 k2 v2 e : key_size (ssl e) = 32 -> is_bytes (enc_imp e) -> is_bytes (dec_imp e) ->
  (enc = true -> room (encrypt e) None /\ in_place own k1 v1) -> (dec = true -> room (decrypt e) None /\ in_place peer k2 v2) ->
  exists c d i j,
    (let '(r, e) := if enc then set_enc k1 v1 e else (0, e) in
     if negb (r =? 0) then (r, e) else if dec then set_dec k2 v2 e else (0, e)) = (0, with_contexts c d i j e) /\
    (if enc then direction own c i else c = encrypt e /\ i = enc_imp e) /\ (if dec then direction peer d j else d = decrypt e /\ j = dec_imp e).
Proof using.
  intros Ks Bi Bj He Hd.
  assert (E1 : exists c i, (if enc then set_enc k1 v1 e else (0, e)) = (0, with_contexts c (decrypt e) i (dec_imp e) e) /\
                 (if enc then direction own c i else c = encrypt e /\ i = enc_imp e)).
  { destruct enc; [| exists (encrypt e), (enc_imp e); now rewrite with_contexts_same].
    destruct (He eq_refl) as [(ctx & Ec & Lx) Pl]. destruct (encrypt e) as [x |] eqn:Ex; [| discriminate Ec]. injection Ec as ->.
    destruct (set_enc_spec own ctx k1 v1 e Ks Ex Lx Pl Bi) as (c & i & E & D). exists (Some c), i. rewrite E. split; [| exact D].
    destruct e; reflexivity. }
  destruct E1 as (c & i & -> & D1). cbn [Z.eqb negb]. set (e1 := with_contexts c (decrypt e) i (dec_imp e) e).
  destruct dec; [| exists c, (decrypt e), i, (dec_imp e); now repeat split].
  destruct (Hd eq_refl) as [(ctx & Ec & Lx) Pl]. destruct (decrypt e) as [x |] eqn:Ex; [| discriminate Ec]. injection Ec as ->.
  destruct (set_dec_spec peer ctx k2 v2 e1 Ks eq_refl Lx Pl Bj) as (d & j & E & D). exists c, (Some d), i, j. rewrite E.
  split; [reflexivity |]. split; [exact D1 | exact D].
Qed.

Lemma SetKeys_spec enc dec own peer e : key_size (ssl e) = 32 -> is_bytes (enc_imp e) -> is_bytes (dec_imp e) -> keys_ok (seqs e) ->
  (enc = true -> room (encrypt e) malloc_enc /\ own_in_place own e) -> (dec = true -> room (decrypt e) malloc_dec /\ peer_in_place peer e) ->
  exists e', SetKeys malloc_enc malloc_dec enc dec e = (0, e') /\ provisioned enc dec own peer e e'.
Proof using.
  intros Ks Bi Bj Ok He Hd. unfold SetKeys.
  set (c0 := if enc then allocated (encrypt e) malloc_enc else encrypt e). set (d0 := if dec then allocated (decrypt e) malloc_dec else decrypt e).
  set (e0 := { { e with encrypt := c0 } with decrypt := d0 }).
  assert (Ec : (if enc then { e with encrypt := allocated (encrypt e) malloc_enc } else e) = { e with encrypt := c0 }) by (unfold c0; destruct enc, e; reflexivity).
  rewrite Ec. assert (Ed : (if dec then { { e with encrypt := c0 } with decrypt := allocated (decrypt { e with encrypt := c0 }) malloc_dec } else { e with encrypt := c0 }) = e0)
    by (unfold e0, d0; destruct dec, e; reflexivity).
  rewrite Ed.
  assert (Nc : enc && is_null c0 = false) by (unfold c0; destruct enc; [destruct (He eq_refl) as [(x & -> & _) _]; reflexivity | reflexivity]).
  assert (Nd : dec && is_null d0 = false) by (unfold d0; destruct dec; [destruct (Hd eq_refl) as [(x & -> & _) _]; reflexivity | reflexivity]).
  change (encrypt { e with encrypt := c0 }) with c0. change (decrypt e0) with d0. rewrite Nc, Nd. clear Ec Ed.
  assert (Rc : forall k v, enc = true -> in_place own k v -> room (encrypt e0) None /\ in_place own k v).
  { intros k v -> Pl. split; [| exact Pl]. destruct (He eq_refl) as [(x & Ex & Lx) _]. change (encrypt e0) with c0. unfold c0. rewrite Ex. now exists x. }
  assert (Rd : forall k v, dec = true -> in_place peer k v -> room (decrypt e0) None /\ in_place peer k v).
  { intros k v -> Pl. split; [| exact Pl]. destruct (Hd eq_refl) as [(x & Ex & Lx) _]. change (decrypt e0) with d0. unfold d0. rewrite Ex. now exists x. }
  change (ssl e0) with (ssl e). unfold own_in_place, peer_in_place, client in He, Hd. set (k := keys (conn (ssl e))) in *.
  assert (S : exists c d i j,
    (if side (conn (ssl e)) =? WOLFSSL_CLIENT_END then
       let '(r, e) := if enc then set_enc (client_write_key k) (client_write_IV k) e0 else (0, e0) in
       if negb (r =? 0) then (r, e) else if dec then set_dec (server_write_key k) (server_write_IV k) e else (0, e)
     else
       let '(r, e) := if enc then set_enc (server_write_key k) (server_write_IV k) e0 else (0, e0) in
       if negb (r =? 0) then (r, e) else if dec then set_dec (client_write_key k) (client_write_IV k) e else (0, e)) = (0, with_contexts c d i j e0) /\
    (if enc then direction own c i else c = encrypt e0 /\ i = enc_imp e0) /\ (if dec then direction peer d j else d = decrypt e0 /\ j = dec_imp e0)).
  { destruct (side (conn (ssl e)) =? WOLFSSL_CLIENT_END);
      (apply set_both; [exact Ks | exact Bi | exact Bj | intros E; apply Rc; [exact E | now apply He] | intros E; apply Rd; [exact E | now apply Hd]]). }
  destruct S as (c & d & i & j & -> & Dc & Dd). cbn [Z.eqb negb]. eexists. split; [reflexivity |].
  destruct (keys_restart (seqs e) Ok) as [(A1 & A2 & A3) (B1 & B2 & B3)]. destruct (keys_restart _ A1) as [_ (C1 & C2 & C3)].
  unfold c0, d0 in *. destruct enc, dec; (split; [| | now exists i, j | reflexivity | reflexivity |]);
    first [exact A1 | exact B1 | exact C1 | exact Ok | split; [exact Dc | first [exact A2 | exact (eq_trans C3 A2)]] | split; [exact Dd | assumption]
          | split; [exact (proj1 Dc) | split; [exact (proj2 Dc) | first [exact B3 | reflexivity]]]
          | split; [exact (proj1 Dd) | split; [exact (proj2 Dd) | first [exact A3 | reflexivity]]]].
Qed.

(** There is a Poly1305 context, or memory for one. *)
Definition auth_room e : Prop :=
  exists p, (if auth_setup e then poly1305 e else allocated (poly1305 e) malloc_poly) = Some p /\ length (buffer p) = 16%nat.

Definition auth_ready e : Prop := auth_setup e = true /\ exists p, poly1305 e = Some p /\ length (buffer p) = 16%nat.

Definition enc_of (sd : Z) : bool := negb (sd =? DECRYPT_SIDE_ONLY).
Definition dec_of (sd : Z) : bool := negb (sd =? ENCRYPT_SIDE_ONLY).

Lemma SetKeysSide_spec sd own peer e : one_sided sd \/ sd = ENCRYPT_AND_DECRYPT_SIDE ->
  key_size (ssl e) = 32 -> is_bytes (enc_imp e) -> is_bytes (dec_imp e) -> keys_ok (seqs e) -> auth_room e ->
  (enc_of sd = true -> room (encrypt e) malloc_enc /\ own_in_place own e) -> (dec_of sd = true -> room (decrypt e) malloc_dec /\ peer_in_place peer e) ->
  exists e1 e', SetKeysSide malloc_enc malloc_dec malloc_poly sd e = (0, e') /\ provisioned (enc_of sd) (dec_of sd) own peer e1 e' /\ auth_ready e' /\
    (ssl e1, encrypt e1, decrypt e1, seqs e1) = (ssl e, encrypt e, decrypt e, seqs e).
Proof using.
  intros Hsd Ks Bi Bj Ok (p & Ep & Lp) He Hd.
  assert (A : exists e1, (if negb (auth_setup e) then SetAuthKeys malloc_poly e else (0, e)) = (0, e1) /\ auth_ready e1 /\
                (ssl e1, encrypt e1, decrypt e1, seqs e1) = (ssl e, encrypt e, decrypt e, seqs e)).
  { destruct (auth_setup e) eqn:Ea; cbn [negb].
    - exists e. split; [reflexivity |]. split; [split; [exact Ea | eauto] | reflexivity].
    - unfold SetAuthKeys. cbn [poly1305]. rewrite Ep. eexists. split; [reflexivity |]. split; [split; [reflexivity | eexists; split; [reflexivity | exact Lp]] | reflexivity]. }
  destruct A as (e1 & E1 & (Au & p1 & Ep1 & Lp1) & S). injection S as S1 S2 S3 S4.
  destruct (SetKeys_spec (enc_of sd) (dec_of sd) own peer e1) as (e' & E' & Pv);
    [now rewrite S1 | unfold enc_imp; now rewrite S1 | unfold dec_imp; now rewrite S1 | now rewrite S4
    | unfold own_in_place, client; now rewrite S1, S2 | unfold peer_in_place, client; now rewrite S1, S3 |].
  exists e1, e'. split; [| split; [exact Pv |]].
  - unfold SetKeysSide. rewrite E1. cbn [Z.eqb negb]. destruct Hsd as [[-> | ->] | ->]; exact E'.
  - split; [| now rewrite S1, S2, S3, S4]. destruct Pv as [_ _ _ Pp Pa _]. split; [now rewrite Pa | rewrite Pp; eauto].
Qed.

(** *** Records *)

Lemma nonce_of_front s imp q : take 12 imp = write_iv s -> nonce_of imp 12 q = nonce_of (write_iv s) 12 q.
Proof using.
  intros <-. unfold nonce_of. change (Z.to_nat (Z.max 12 AEAD_NONCE_SZ - SEQ_SZ)) with 4%nat.
  rewrite take_take, skipn_firstn_comm, take_take. reflexivity.
Qed.

Lemma nonce_bytes s q : is_bytes (nonce_of (write_iv s) 12 q).
Proof using.
  destruct (write_iv_ok s) as [B _]. unfold nonce_of. apply Forall_app. split; [now apply Forall_take |].
  apply lxor_bytes_is_bytes; [apply be_bytes_is_bytes | now apply Forall_take, Forall_drop].
Qed.

(** The two secrets whose keys [e] works with, and its record numbers. *)
Record serving (own peer : list Z) (q q' : Z) e : Prop := {
  sv_enc : direction own (encrypt e) (enc_imp e);
  sv_dec : direction peer (decrypt e) (dec_imp e);
  sv_auth : auth_ready e;
  sv_iv : iv_size (ssl e) = 12;
  sv_seqs : keys_ok (seqs e);
  sv_sent : tls_seq false (seqs e) = q;
  sv_received : tls_seq true (seqs e) = q'
}.

Lemma direction_iv s p imp : direction s p imp -> iv_ok imp 12 /\ take 12 imp = write_iv s.
Proof using.
  intros (_ & B & E). split; [| exact E]. split; [exact B |]. destruct (write_iv_ok s) as [_ Lw]. rewrite <- E in Lw.
  unfold Zlen in *. rewrite length_take in Lw. change (Z.max 12 AEAD_NONCE_SZ) with 12. lia.
Qed.

Lemma seal_record_spec own peer q q' e aad text : serving own peer q q' e -> is_bytes aad -> Zlen aad < 2 ^ 32 -> is_bytes text -> Zlen text < 2 ^ 32 ->
  exists e', seal_record addr_state addr_key addr aad text e = Some (0, sealed own (nonce_of (write_iv own) 12 q) aad text, e') /\
    serving own peer (u64 (q + 1)) q' e' /\ ssl e' = ssl e.
Proof using L.
  intros [D1 D2 (Au & p & Ep & Lp) Iv Ok Q Q'] Ba La Bt Lt. destruct (direction_iv _ _ _ D1) as [Oi Ei]. destruct D1 as [(ctx & Ec & K) Bi].
  unfold seal_record. rewrite Ec, Ep, Iv. pose proof (BuildTls13Nonce_spec 0 0 (enc_imp e) 12 CUR_ORDER (seqs e) Ok Oi) as N. unfold enc_imp in *.
  destruct (BuildTls13Nonce _ _ _ _ _ _) as [nonce k]. cbn [fst snd] in N. destruct N as (-> & K1 & K2 & K3). change (CUR_ORDER =? PEER_ORDER) with false in *. cbn [negb] in *.
  rewrite Q. rewrite (nonce_of_front own) by exact Ei. unfold ChaCha20Poly1305_Encrypt. destruct (write_key_ok own) as [Bk _].
  destruct (Encrypt_ex_spec addr_state addr_key addr addr (write_key own) (nonce_of (write_iv own) 12 q) aad text text ctx p Bk (nonce_bytes _ _) Ba Bt La Lt K Lp)
    as (ctx' & p' & -> & K' & Lp').
  eexists. split; [reflexivity |]. split; [| reflexivity].
  split; cbn [encrypt decrypt poly1305 seqs ssl]; [split; [eauto | exact Bi] | exact D2 | split; [exact Au | eauto] | exact Iv | exact K1 | rewrite <- Q; first [exact K2 | exact K3] | rewrite <- Q'; first [exact K2 | exact K3]].
Qed.

Lemma open_record_spec own peer q q' e aad input : serving own peer q q' e -> is_bytes aad -> Zlen aad < 2 ^ 32 -> is_bytes input -> 16 <= Zlen input < 2 ^ 32 ->
  exists e', open_record addr_state addr_key addr aad input e = Some (unsealed peer (nonce_of (write_iv peer) 12 q') aad input, e') /\
    serving own peer q (u64 (q' + 1)) e' /\ ssl e' = ssl e.
Proof using L.
  intros [D1 D2 (Au & p & Ep & Lp) Iv Ok Q Q'] Ba La Bt Lt. destruct (direction_iv _ _ _ D2) as [Oi Ei]. destruct D2 as [(ctx & Ec & K) Bi].
  unfold open_record. rewrite Ec, Ep, Iv. pose proof (BuildTls13Nonce_spec 0 0 (dec_imp e) 12 PEER_ORDER (seqs e) Ok Oi) as N. unfold dec_imp in *.
  destruct (BuildTls13Nonce _ _ _ _ _ _) as [nonce k]. cbn [fst snd] in N. destruct N as (-> & K1 & K2 & K3). change (PEER_ORDER =? PEER_ORDER) with true in *. cbn [negb] in *.
  rewrite Q'. rewrite (nonce_of_front peer) by exact Ei. unfold ChaCha20Poly1305_Decrypt. destruct (write_key_ok peer) as [Bk _].
  set (n := nonce_of (write_iv peer) 12 q'). set (c := take (length input - 16) input). set (t := drop (length input - 16) input).
  assert (Lc : Zlen c < 2 ^ 32) by (unfold c, Zlen in *; rewrite length_take; lia). assert (Ltg : Zlen t = 16) by (unfold t, Zlen in *; rewrite length_drop; lia).
  destruct (Decrypt_ex_spec addr_state addr_key addr addr (write_key peer) n aad c t c ctx p Bk (nonce_bytes _ _) Ba ltac:(now apply Forall_take) La Lc
              ltac:(now apply Forall_drop) Ltg eq_refl K Lp) as (ctx' & p' & -> & K' & Lp').
  assert (E : unsealed peer n aad input = ((if fst (opened (write_key peer) n aad c t) =? MAC_CMP_FAILED_E then VERIFY_MAC_ERROR else fst (opened (write_key peer) n aad c t)), snd (opened (write_key peer) n aad c t))).
  { unfold unsealed, opened. fold c t. destruct (AeadSpec.open _ _ _ _ _); reflexivity. }
  rewrite E. destruct (opened _ _ _ _ _) as [r out]. cbn [fst snd]. eexists. split; [reflexivity |]. split; [| reflexivity].
  split; cbn [encrypt decrypt poly1305 seqs ssl]; [exact D1 | split; [eauto | exact Bi] | split; [exact Au | eauto] | exact Iv | exact K1 | rewrite <- Q; first [exact K2 | exact K3] | rewrite <- Q'; first [exact K2 | exact K3]].
Qed.

(** *** KeyUpdates *)

(** The secrets of client and server, of the point of view of [e]. *)
Definition pair_of (client : bool) (own peer : list Z) : list Z * list Z := if client then (own, peer) else (peer, own).

(** A connection that serves [own] and [peer], whose next secrets can be derived. *)
Record working (m own peer : list Z) (q q' : Z) e : Prop := {
  wk_serving : serving own peer q q' e;
  wk_ready : ready (ssl e) m;
  wk_tls : dtls (ssl e) = false;
  wk_size : key_size (ssl e) = 32;
  wk_keyed : keyed_by (ssl e) (fst (pair_of (client e) own peer)) (snd (pair_of (client e) own peer))
}.

Lemma keyed_in_place own peer e : dtls (ssl e) = false -> key_size (ssl e) = 32 -> iv_size (ssl e) = 12 ->
  keyed_by (ssl e) (fst (pair_of (client e) own peer)) (snd (pair_of (client e) own peer)) -> own_in_place own e /\ peer_in_place peer e.
Proof using.
  intros D Ks Iv (_ & _ & K). unfold protocol_of in K. rewrite D, Ks, Iv in K. unfold own_in_place, peer_in_place, in_place, write_key, write_iv.
  destruct (client e); cbn [pair_of fst snd] in K; tauto.
Qed.

Lemma ready_with_imp i j (s : Ssl (T := T)) m : ready s m -> ready (with_imp i j s) m.
Proof using. exact (ready_rekeyed _ (aead_exp_IV s) s m). Qed.

Lemma derive_imp sec sd (s s' : Ssl (T := T)) m : ready s m -> dtls s = false -> sec <> other_key -> DeriveTls13Keys sec sd true s = (0, s') ->
  aead_enc_imp_IV (keys (conn s')) = aead_enc_imp_IV (keys (conn s)) /\ aead_dec_imp_IV (keys (conn s')) = aead_dec_imp_IV (keys (conn s)).
Proof using HS H1.
  intros R D N E. rewrite (DeriveTls13Keys_spec sec sd s m R) in E; [| exact N | congruence]. rewrite D in E.
  set (s1 := with_secrets _ _ _ _) in E. assert (E1 : conn s1 = conn s /\ dtls s1 = false).
  { pose proof (with_secrets_same sec (provision_of s sd) s m) as (Ec & _ & Es & _). fold s1 in Ec, Es. split; [exact Ec | injection Es as -> _ _ _; exact D]. }
  destruct E1 as [E1 D1]. injection E as <-. unfold with_keys. rewrite D1. unfold stored, opt_set.
  rewrite <- E1. destruct (for_client _), (for_server _); split; reflexivity.
Qed.

Lemma update_provision (s : Ssl (T := T)) sd : one_sided sd ->
  for_client (provision_of s sd) = xorb (negb (side (conn s) =? WOLFSSL_CLIENT_END)) (sd =? ENCRYPT_SIDE_ONLY) /\
  for_server (provision_of s sd) = negb (xorb (negb (side (conn s) =? WOLFSSL_CLIENT_END)) (sd =? ENCRYPT_SIDE_ONLY)).
Proof using. intros [-> | ->]; unfold provision_of; destruct (side (conn s) =? WOLFSSL_CLIENT_END); split; reflexivity. Qed.

Definition next_own (sd : Z) (s : list Z) : list Z := if sd =? ENCRYPT_SIDE_ONLY then KeySpec.next tls13ProtocolLabel s else s.
Definition next_peer (sd : Z) (s : list Z) : list Z := if sd =? ENCRYPT_SIDE_ONLY then s else KeySpec.next tls13ProtocolLabel s.

Lemma update_keys_spec m own peer q q' sd e : working m own peer q q' e -> one_sided sd ->
  exists e', update_keys malloc_enc malloc_dec malloc_poly sd e = (0, e') /\
    working m (next_own sd own) (next_peer sd peer) (if sd =? ENCRYPT_SIDE_ONLY then 0 else q) (if sd =? ENCRYPT_SIDE_ONLY then q' else 0) e'.
Proof using HS H2.
  intros [[D1 D2 Au Iv Ok Q Q'] R D Ks K] Hsd.
  destruct (DeriveTls13Keys_derived update_traffic_key sd (ssl e) m R) as (s' & E & De); [discriminate | congruence |].
  destruct (derive_imp update_traffic_key sd _ _ m R D ltac:(discriminate) E) as [I1 I2]. pose proof (derived_update _ _ _ _ _ _ De K) as K'. cbv zeta in K'.
  pose proof (de_specs _ _ _ _ _ De) as Sp. pose proof (de_side _ _ _ _ _ De) as Sd. pose proof (de_ready _ _ _ _ _ De) as R'. injection Sp as S1 _ S3 S4.
  rewrite D in S1. rewrite Ks in S3. rewrite Iv in S4. destruct (update_provision (ssl e) sd Hsd) as [Pc Pv]. rewrite Pc, Pv in K'. fold (client e) in K'.
  unfold protocol_of in K'. rewrite D in K'. set (e0 := { e with ssl := s' }). assert (Cl : client e0 = client e) by (unfold client; change (ssl e0) with s'; now rewrite Sd).
  assert (K0 : keyed_by (ssl e0) (fst (pair_of (client e0) (next_own sd own) (next_peer sd peer))) (snd (pair_of (client e0) (next_own sd own) (next_peer sd peer)))).
  { rewrite Cl. unfold next_own, next_peer. change (ssl e0) with s'. destruct Hsd as [-> | ->], (client e); exact K'. }
  destruct (keyed_in_place _ _ e0 S1 S3 S4 K0) as [Pl1 Pl2].
  assert (Ei : enc_imp e0 = enc_imp e /\ dec_imp e0 = dec_imp e) by (split; assumption). destruct Ei as [Ei Ej].
  destruct (SetKeysSide_spec sd (next_own sd own) (next_peer sd peer) e0) as (e1 & e' & E' & [V1 V2 (i & j & V3) _ _ V6] & Au' & S);
    [now left | exact S3 | rewrite Ei; apply D1 | rewrite Ej; apply D2 | exact Ok | destruct Au as (Ha & p & Hp & Lp); exists p; change (auth_setup e0) with (auth_setup e); rewrite Ha; now split
    | intros _; split; [eapply direction_room; exact D1 | exact Pl1] | intros _; split; [eapply direction_room; exact D2 | exact Pl2] |].
  injection S as T1 T2 T3 T4. unfold update_keys. rewrite E. cbn [Z.eqb negb]. fold e0. exists e'. split; [exact E' |].
  assert (X1 : encrypt e1 = encrypt e /\ enc_imp e1 = enc_imp e /\ decrypt e1 = decrypt e /\ dec_imp e1 = dec_imp e /\ seqs e1 = seqs e)
    by (split; [exact T2 |]; split; [rewrite <- Ei; unfold enc_imp; now rewrite T1 |]; split; [exact T3 |]; split; [rewrite <- Ej; unfold dec_imp; now rewrite T1 | exact T4]).
  destruct X1 as (X1 & X2 & X3 & X4 & X5). rewrite X1, X2, X5, Q in V1. rewrite X3, X4, X5, Q' in V2. rewrite T1 in V3. change (ssl e0) with s' in V3.
  assert (Sv : serving (next_own sd own) (next_peer sd peer) (if sd =? ENCRYPT_SIDE_ONLY then 0 else q) (if sd =? ENCRYPT_SIDE_ONLY then q' else 0) e').
  { assert (V4 : iv_size (ssl e') = 12) by (rewrite V3; exact S4). destruct Hsd as [-> | ->]; cbn [enc_of dec_of next_own next_peer Z.eqb Pos.eqb negb] in *.
    - destruct V1 as [V1 V1']. destruct V2 as (W1 & W2 & W3). split; try assumption. now rewrite W1, W2.
    - destruct V2 as [V2 V2']. destruct V1 as (W1 & W2 & W3). split; try assumption. now rewrite W1, W2. }
  split; [exact Sv | rewrite V3; now apply ready_with_imp | rewrite V3; exact S1 | rewrite V3; exact S3 |].
  assert (Cl' : client e' = client e0) by (unfold client; rewrite V3; reflexivity). rewrite Cl', V3. exact K0.
Qed.

(** *** Any sequence *)

Lemma endpoint_run_spec m ops : Forall record_op_ok ops -> forall own peer q q' e, working m own peer q q' e ->
  endpoint_run addr_state addr_key addr malloc_enc malloc_dec malloc_poly e ops = rc_run own peer q q' ops.
Proof using L HS H2.
  induction 1 as [| op ops Ho _ IH]; intros own peer q q' e W; [reflexivity |]. pose proof W as [Sv R D Ks K].
  destruct op as [aad text | aad input | sd]; cbn [record_op_ok endpoint_run rc_run] in *.
  - destruct Ho as (Ba & La & Bt & Lt). destruct (seal_record_spec own peer q q' e aad text Sv Ba ltac:(lia) Bt ltac:(lia)) as (e' & -> & Sv' & Es).
    f_equal. apply IH. split; unfold client; rewrite ?Es; assumption.
  - destruct Ho as (Ba & La & Bt & Lt). destruct (open_record_spec own peer q q' e aad input Sv Ba ltac:(lia) Bt ltac:(lia)) as (e' & -> & Sv' & Es).
    change (rc_decrypt peer (nonce_of (rc_iv peer) (TlsSend13.iv_size (S := list Z)) q') aad input) with (unsealed peer (nonce_of (write_iv peer) 12 q') aad input).
    destruct (unsealed _ _ _ _) as [ret out]. f_equal. apply IH. split; unfold client; rewrite ?Es; assumption.
  - destruct (update_keys_spec m own peer q q' sd e W Ho) as (e' & -> & W'). f_equal. rewrite (IH _ _ _ _ _ W').
    destruct Ho as [-> | ->]; reflexivity.
Qed.

(** A connection whose secrets are [own] and [peer], with the keys yet to be set. *)
Record provisionable (m own peer : list Z) e : Prop := {
  pr_ready : ready (ssl e) m;
  pr_tls : dtls (ssl e) = false;
  pr_size : key_size (ssl e) = 32;
  pr_iv : iv_size (ssl e) = 12;
  pr_keyed : keyed_by (ssl e) (fst (pair_of (client e) own peer)) (snd (pair_of (client e) own peer));
  pr_enc : room (encrypt e) malloc_enc;
  pr_dec : room (decrypt e) malloc_dec;
  pr_auth : auth_room e;
  pr_imp : is_bytes (enc_imp e) /\ is_bytes (dec_imp e);
  pr_seqs : keys_ok (seqs e)
}.

Lemma provision_spec m own peer e : provisionable m own peer e ->
  exists e', SetKeysSide malloc_enc malloc_dec malloc_poly ENCRYPT_AND_DECRYPT_SIDE e = (0, e') /\ working m own peer 0 0 e'.
Proof using.
  intros [R D Ks Iv K Re Rd Ra [Bi Bj] Ok]. destruct (keyed_in_place own peer e D Ks Iv K) as [Pl1 Pl2].
  destruct (SetKeysSide_spec ENCRYPT_AND_DECRYPT_SIDE own peer e) as (e1 & e' & E & [[V1 V1'] [V2 V2'] (i & j & V3) _ _ V6] & Au & S);
    [now right | assumption | assumption | assumption | assumption | assumption | now split | now split |].
  injection S as T1 _ _ _. rewrite T1 in V3. exists e'. split; [exact E |].
  split; [| rewrite V3; now apply ready_with_imp | now rewrite V3 | now rewrite V3 | unfold client; rewrite V3; exact K].
  split; try assumption. now rewrite V3.
Qed.

End RecordProofs.

(** ** Two ends *)

(** What one side sends: records and KeyUpdates. *)
Inductive sent_op := Text (aad text : list Z) | Next.

Definition as_sender (op : sent_op) : record_op :=
  match op with Text aad text => Seal aad text | Next => Update ENCRYPT_SIDE_ONLY end.

(** What the other side does with the bytes that come. *)
Definition as_receiver (op : sent_op) (sent : Z * list Z) : record_op :=
  match op with Text aad _ => Unseal aad (snd sent) | Next => Update DECRYPT_SIDE_ONLY end.

Definition as_read (op : sent_op) : Z * list Z := match op with Text _ text => (0, text) | Next => (0, []) end.

Lemma rc_delivers {S} `{RecordCryptoSpec S} ops : forall (own peer peer' : S) q q' r,
  rc_run peer' own r q (zip_with as_receiver ops (rc_run own peer q q' (map as_sender ops))) = map as_read ops.
Proof.
  induction ops as [| [aad text |] ops IH]; intros own peer peer' q q' r; [reflexivity | |].
  - cbn [map as_sender rc_run zip_with as_receiver snd as_read]. rewrite rc_decrypt_encrypt. f_equal. apply IH.
  - cbn [map as_sender rc_run zip_with as_receiver as_read]. f_equal. apply IH.
Qed.

Lemma received_ok {S} `{RecordCryptoSpec S} ops : aead_mac_size (S := S) = 16 -> Forall record_op_ok (map as_sender ops) -> forall (own peer : S) q q',
  Forall record_op_ok (zip_with as_receiver ops (rc_run own peer q q' (map as_sender ops))).
Proof.
  intros Hm. induction ops as [| [aad text |] ops IH]; intros F own peer q q'; cbn [map] in F; [constructor | |];
    apply Forall_cons in F as [F1 F2]; cbn [map as_sender rc_run zip_with as_receiver snd]; (constructor; [| now apply IH]).
  - destruct F1 as (Ba & La & Bt & Lt). split; [exact Ba |]. split; [exact La |]. split; [now apply rc_encrypt_bytes |].
    rewrite rc_encrypt_length, Hm. pose proof (Zlen_nonneg text). lia.
  - now right.
Qed.

(** [C9] The record protection of RFC 8446, 5.2 with ChaCha20-Poly1305, as the code
    does it with its key schedule, its cipher contexts and its counters.  When two
    connections whose secrets agree set their keys, each with memory that held
    anything and each with its own build of Poly1305, every sequence of records
    sealed, records opened and KeyUpdates returns the codes and bytes of
    [rc_run]: each record under the secret and number of its direction, the
    number counting from 0, a KeyUpdate moving one direction to the next secret
    and to number 0; opening a record returns 0 and a text exactly when the record
    is the one that text seals to.  So whatever one end sends, KeyUpdates
    included, the other end, whatever it sends itself, reads as it was. *)
Theorem record_protection {P P' : PolyOps} {L : PolyLaws P} {L' : PolyLaws P'} {H : Hash} {HS : HashSpec H} {T} `{W64 T}
    as_ ak addr me md mp as' ak' addr' me' md' mp' m m' own peer (c : Endpoint (P := P) (T := T)) (v : Endpoint (P := P') (T := T)) :
  provisionable me md mp m own peer c -> provisionable me' md' mp' m' peer own v ->
  exists c1 v1,
    SetKeysSide me md mp ENCRYPT_AND_DECRYPT_SIDE c = (0, c1) /\ SetKeysSide me' md' mp' ENCRYPT_AND_DECRYPT_SIDE v = (0, v1) /\
    (forall ops, Forall record_op_ok ops -> endpoint_run as_ ak addr me md mp c1 ops = rc_run own peer 0 0 ops) /\
    (forall (s n aad x p : list Z), 16 <= Zlen x -> rc_decrypt s n aad x = (0, p) <-> x = rc_encrypt s n aad p) /\
    (forall ops, Forall record_op_ok (map as_sender ops) ->
       endpoint_run as' ak' addr' me' md' mp' v1 (zip_with as_receiver ops (endpoint_run as_ ak addr me md mp c1 (map as_sender ops))) =
       map as_read ops).
Proof.
  intros Pc Pv. destruct (provision_spec me md mp m own peer c Pc) as (c1 & Ec & Wc). destruct (provision_spec me' md' mp' m' peer own v Pv) as (v1 & Ev & Wv).
  exists c1, v1. split; [exact Ec |]. split; [exact Ev |].
  split; [intros ops F; exact (endpoint_run_spec as_ ak addr me md mp m ops F own peer 0 0 c1 Wc) |].
  split; [intros s n aad x p Lx; apply (unsealed_iff s n aad x p); unfold Zlen in Lx; lia |]. intros ops F.
  assert (Hm : aead_mac_size (S := list Z) = 16) by reflexivity.
  rewrite (endpoint_run_spec as_ ak addr me md mp m _ F own peer 0 0 c1 Wc).
  rewrite (endpoint_run_spec as' ak' addr' me' md' mp' m' _ (received_ok ops Hm F own peer 0 0) peer own 0 0 v1 Wv). exact (rc_delivers (S := list Z) ops own peer peer 0 0 0).
Qed.

(** *** With SHA-256, a client on 32-bit words and a server on 64-bit words *)

#[local] Existing Instances TlsKeys13.sha256 TlsKeys13.sha256_laws.

Definition dirty_chacha : ChaCha := mk_chacha (seqZ 100 16) 7 false.

Definition sample_seqs : Keys :=
  {| peer_sequence_number_hi := 0; peer_sequence_number_lo := 5; sequence_number_hi := 0; sequence_number_lo := 7;
     dtls_epoch := 0; dtls_sequence_number_hi := 0; dtls_sequence_number_lo := 0; dtls_prev_sequence_number_hi := 0; dtls_prev_sequence_number_lo := 0;
     curEpoch := 0; curSeq_hi := 0; curSeq_lo := 0; curPeerId := 0 |}.

Definition sample_ssl32 (sd : Z) : Ssl (T := Native.w64wrapper) := { sample_ssl sd (replicate 32 7) with key_size := 32 }.

(** After the traffic keys were derived; the client has contexts, the server only memory for them. *)
Definition sample_end (sd : Z) {P : PolyOps} (ctx : option ChaCha) (auth : option Poly1305) : Endpoint (T := Native.w64wrapper) :=
  {| ssl := (DeriveTls13Keys traffic_key ENCRYPT_AND_DECRYPT_SIDE true (sample_ssl32 sd)).2;
     encrypt := ctx; decrypt := ctx; poly1305 := auth; enc_setup := false; dec_setup := false; auth_setup := false; seqs := sample_seqs |}.

Lemma sample_end_provisionable (sd : Z) {P : PolyOps} (cl : bool) ctx auth me md mp : (sd =? WOLFSSL_CLIENT_END) = cl ->
  room ctx me -> room ctx md -> auth_room mp (sample_end sd ctx auth) ->
  let a := sample_secret clientAppLabel in let b := sample_secret serverAppLabel in
  provisionable me md mp [] (if cl then a else b) (if cl then b else a) (sample_end sd ctx auth).
Proof.
  intros Hc Re Rd Ra a b. unfold sample_end in *. set (s0 := sample_ssl32 sd) in *.
  assert (R : ready s0 []).
  { destruct (sample_ready (replicate 32 7) false sd ltac:(apply (bool_decide_unpack _); vm_compute; exact I) I). constructor; first [assumption | split; discriminate]. }
  destruct (DeriveTls13Keys_derived traffic_key ENCRYPT_AND_DECRYPT_SIDE s0 [] R) as (s' & E & D); [discriminate | discriminate |].
  rewrite E in *. cbn [snd] in *. destruct (derived_both _ _ _ _ D eq_refl eq_refl) as [K _].
  assert (EP : protocol_of s0 = tls13ProtocolLabel) by reflexivity. assert (EM : masterSecret s0 = replicate 48 0) by reflexivity.
  destruct (traffic_secrets s0 []) as [TC TV]. rewrite TC, TV, EP, EM in K.
  pose proof (de_specs _ _ _ _ _ D) as S. pose proof (de_side _ _ _ _ _ D) as Sd. pose proof (de_ready _ _ _ _ _ D) as R'.
  assert (Ec : dtls s' = dtls s0 /\ key_size s' = key_size s0 /\ iv_size s' = iv_size s0) by (injection S; auto). destruct Ec as (E1 & E2 & E3).
  destruct (derive_imp traffic_key _ s0 s' [] R eq_refl ltac:(discriminate) E) as [I1 I2].
  split; cbn [ssl encrypt decrypt]; unfold client, enc_imp, dec_imp; cbn [ssl]; try assumption.
  - rewrite Sd. change (side (conn s0)) with sd. rewrite Hc. destruct cl; exact K.
  - rewrite I1, I2. split; constructor.
  - unfold keys_ok, is_word, sample_seqs. cbn. repeat split; lia.
Qed.

Lemma record_protection_witness :
  exists c1 v1, SetKeysSide None None None ENCRYPT_AND_DECRYPT_SIDE
      (sample_end WOLFSSL_CLIENT_END (P := Poly32) (Some dirty_chacha) (Some (mk_poly (c_setkey []) (replicate 16 3) 5 true))) = (0, c1) /\
    SetKeysSide (Some dirty_chacha) (Some dirty_chacha) (Some (mk_poly (c_setkey []) (replicate 16 9) 0 false)) ENCRYPT_AND_DECRYPT_SIDE
      (sample_end WOLFSSL_SERVER_END (P := Poly64) None None) = (0, v1) /\
    endpoint_run 0 0 0 (Some dirty_chacha) (Some dirty_chacha) (Some (mk_poly (c_setkey []) (replicate 16 9) 0 false)) v1
      (zip_with as_receiver [Text [23; 3; 3; 0; 19] [104; 105; 23]; Next; Text [23; 3; 3; 0; 17] [23]]
        (endpoint_run 0 0 0 None None None c1 (map as_sender [Text [23; 3; 3; 0; 19] [104; 105; 23]; Next; Text [23; 3; 3; 0; 17] [23]]))) =
    [(0, [104; 105; 23]); (0, []); (0, [23])].
Proof.
  destruct (record_protection 0 0 0 None None None 0 0 0 (Some dirty_chacha) (Some dirty_chacha) (Some (mk_poly (c_setkey []) (replicate 16 9) 0 false)) [] []
              (sample_secret clientAppLabel) (sample_secret serverAppLabel)
              (sample_end WOLFSSL_CLIENT_END (P := Poly32) (Some dirty_chacha) (Some (mk_poly (c_setkey []) (replicate 16 3) 5 true)))
              (sample_end WOLFSSL_SERVER_END (P := Poly64) None None)) as (c1 & v1 & Ec & Ev & _ & _ & D).
  - apply (sample_end_provisionable WOLFSSL_CLIENT_END true); [reflexivity | eexists; split; reflexivity.. ].
  - apply (sample_end_provisionable WOLFSSL_SERVER_END false); [reflexivity | eexists; split; reflexivity.. ].
  - exists c1, v1. split; [exact Ec |]. split; [exact Ev |]. apply D. apply (bool_decide_unpack _). vm_compute. exact I.
Defined.
