(* ===== verification/Handshake12.v ===== *)
(** * src/internal.c: the (D)TLS 1.2 handshake message gate

    [SanityCheckMsgReceived] runs on every handshake message (and on
    ChangeCipherSpec, as [change_cipher_hs]) before it is processed: it
    refuses duplicates, messages for the other side and messages out of
    order, and records what has been received in [ssl->msgsReceived].
    [DoHandShakeMsgType_gate] is the part of [DoHandShakeMsgType] up to the
    transcript hash.  The build modelled has client and server, DTLS, PSK,
    session tickets, certificate status requests (v1 and v2) and client
    authentication.

    Each [case] of the C switch is one definition over the C-statement
    notation of the prelude.  The theorems relate the gate to a table of what
    each message requires and excludes, and lift it to traces of accepted
    messages. *)

From S2P Require Import Prelude Tls.

#[local] Open Scope Z_scope.
#[local] Open Scope cstmt_scope.

(** What the check reads of the connection.  [csr_force], [csr2_force] are the
    results of the OCSP lookups [TLSX_CSR_ForceRequest] and
    [TLSX_CSR2_ForceRequest]; [server_hint] is [None] when [ssl->arrays] is
    NULL, else the first byte of [arrays->server_hint]. *)
Record HsOptions := mkHsOptions {
  side : Z; dtls : bool; resuming : bool; verifyPeer : bool;
  havePeerCert : bool; havePeerVerify : bool;
  usingPSK_cipher : bool; usingAnon_cipher : bool;
  kea : KeyExchangeAlgorithm; static_ecdh : bool; server_hint : option Z;
  status_request : bool; status_request_v2 : bool; csr_force : Z; csr2_force : Z;
  ocspEnabled : bool; ocspMustStaple : bool;
  expect_session_ticket : bool; curEpoch : Z;
  handShakeState : Z; serverState : Z; clientState : Z }.

Section Gate.
Variable o : HsOptions.

Definition isServer : bool := side o =? WOLFSSL_SERVER_END.
Definition isClient : bool := side o =? WOLFSSL_CLIENT_END.

Definition psk_kea_cipher : bool :=
  kea_is (kea o) psk_kea || kea_is (kea o) dhe_psk_kea || kea_is (kea o) ecdhe_psk_kea.

Definition check_hello_request : stmt MsgsReceived :=
  IF (fun _ => isServer) RETURN (SIDE_ERROR) ;;
  IF (fun m => got_hello_request m) RETURN (DUPLICATE_MSG_E) ;;
  assign (fun m => { m with got_hello_request := true }).

Definition check_client_hello : stmt MsgsReceived :=
  IF (fun _ => isClient) RETURN (SIDE_ERROR) ;;
  IF (fun m => negb (got_client_hello m =? 0)) RETURN (DUPLICATE_MSG_E) ;;
  assign (fun m => { m with got_client_hello := 1 }).

Definition check_server_hello : stmt MsgsReceived :=
  IF (fun _ => isServer) RETURN (SIDE_ERROR) ;;
  IF (fun m => got_server_hello m) RETURN (DUPLICATE_MSG_E) ;;
  assign (fun m => { m with got_server_hello := true }).

Definition check_hello_verify_request : stmt MsgsReceived :=
  IF (fun _ => isServer) RETURN (SIDE_ERROR) ;;
  IF (fun m => got_hello_verify_request m) RETURN (DUPLICATE_MSG_E) ;;
  IF (fun m => got_hello_retry_request m) RETURN (VERSION_ERROR) ;;
  assign (fun m => { m with got_hello_verify_request := true }).

Definition check_session_ticket : stmt MsgsReceived :=
  IF (fun _ => isServer) RETURN (SIDE_ERROR) ;;
  IF (fun m => got_session_ticket m) RETURN (DUPLICATE_MSG_E) ;;
  IF (fun m => negb (got_server_hello m) || got_change_cipher m || got_finished m ||
               (negb (resuming o) && negb (got_server_hello_done m))) RETURN (OUT_OF_ORDER_E) ;;
  assign (fun m => { m with got_session_ticket := true }).

Definition check_certificate : stmt MsgsReceived :=
  IF (fun m => got_certificate m) RETURN (DUPLICATE_MSG_E) ;;
  assign (fun m => { m with got_certificate := true }) ;;
  WHEN (fun _ => isClient) DO
    IF (fun m => negb (got_server_hello m)) RETURN (OUT_OF_ORDER_E) ;;
    IF (fun m => got_certificate_status m || got_server_key_exchange m ||
                 got_certificate_request m || got_server_hello_done m ||
                 got_change_cipher m || got_finished m) RETURN (OUT_OF_ORDER_E)
  OD ;;
  WHEN (fun _ => isServer) DO
    IF (fun m => got_client_hello m =? 0) RETURN (OUT_OF_ORDER_E) ;;
    IF (fun m => got_client_key_exchange m || got_certificate_verify m ||
                 got_change_cipher m || got_finished m) RETURN (OUT_OF_ORDER_E)
  OD.

Definition check_certificate_status : stmt MsgsReceived :=
  IF (fun _ => isServer) RETURN (SIDE_ERROR) ;;
  IF (fun m => got_certificate_status m) RETURN (DUPLICATE_MSG_E) ;;
  IF (fun m => negb (got_certificate m)) RETURN (OUT_OF_ORDER_E) ;;
  IF (fun m => got_server_key_exchange m) RETURN (OUT_OF_ORDER_E) ;;
  IF (fun m => got_server_key_exchange m || got_certificate_request m ||
               got_server_hello_done m || got_change_cipher m || got_finished m)
    RETURN (OUT_OF_ORDER_E) ;;
  assign (fun m => { m with got_certificate_status := true }).

Definition check_server_key_exchange : stmt MsgsReceived :=
  IF (fun _ => isServer) RETURN (SIDE_ERROR) ;;
  IF (fun m => got_server_key_exchange m) RETURN (DUPLICATE_MSG_E) ;;
  IF (fun m => negb (got_server_hello m)) RETURN (OUT_OF_ORDER_E) ;;
  WHEN (fun m => negb (got_certificate m)) DO
    IF (fun _ => negb psk_kea_cipher && negb (usingAnon_cipher o)) RETURN (OUT_OF_ORDER_E)
  OD ;;
  IF (fun m => got_certificate_request m || got_server_hello_done m ||
               got_change_cipher m || got_finished m) RETURN (OUT_OF_ORDER_E) ;;
  assign (fun m => { m with got_server_key_exchange := true }).

Definition check_certificate_request : stmt MsgsReceived :=
  IF (fun _ => isServer) RETURN (SIDE_ERROR) ;;
  IF (fun m => got_certificate_request m) RETURN (DUPLICATE_MSG_E) ;;
  IF (fun m => negb (got_server_hello m)) RETURN (OUT_OF_ORDER_E) ;;
  IF (fun m => negb (got_certificate m)) RETURN (OUT_OF_ORDER_E) ;;
  IF (fun m => negb (resuming o) && negb (kea_is (kea o) rsa_kea) &&
               (negb (kea_is (kea o) ecc_diffie_hellman_kea) || negb (static_ecdh o)) &&
               negb (kea_is (kea o) ecc_static_diffie_hellman_kea) &&
               negb (got_server_key_exchange m)) RETURN (OUT_OF_ORDER_E) ;;
  IF (fun m => got_server_hello_done m || got_change_cipher m || got_finished m)
    RETURN (OUT_OF_ORDER_E) ;;
  assign (fun m => { m with got_certificate_request := true }).

(** The result [csrRet] of the OCSP lookups made when no CertificateStatus
    came. *)
Definition csr_lookup : Z :=
  let csrRet := if status_request o then csr_force o else 0 in
  if (csrRet =? 0) && status_request_v2 o then csr2_force o else csrRet.

Definition check_server_hello_done : stmt MsgsReceived :=
  IF (fun _ => isServer) RETURN (SIDE_ERROR) ;;
  IF (fun m => got_server_hello_done m) RETURN (DUPLICATE_MSG_E) ;;
  assign (fun m => { m with got_server_hello_done := true }) ;;
  WHEN (fun m => negb (got_certificate m)) DO
    IF (fun _ => negb (psk_kea_cipher || usingAnon_cipher o)) RETURN (OUT_OF_ORDER_E)
  OD ;;
  WHEN (fun m => negb (got_server_key_exchange m)) DO
    IF (fun _ =>
          let pskNoServerHint := kea_is (kea o) psk_kea && bool_decide (server_hint o = Some 0) in
          negb (static_ecdh o || kea_is (kea o) rsa_kea || pskNoServerHint)) RETURN (OUT_OF_ORDER_E)
  OD ;;
  WHEN (fun m => negb (got_certificate_status m)) DO
    IF (fun _ => negb (csr_lookup =? 0) && (ocspEnabled o || ocspMustStaple o)) RETURN (csr_lookup) ;;
    IF (fun _ => negb (status_request o) && negb (status_request_v2 o) && ocspMustStaple o)
      RETURN (OCSP_CERT_UNKNOWN)
  OD ;;
  IF (fun m => got_change_cipher m || got_finished m) RETURN (OUT_OF_ORDER_E).

Definition check_certificate_verify : stmt MsgsReceived :=
  IF (fun _ => isClient) RETURN (SIDE_ERROR) ;;
  IF (fun m => got_certificate_verify m) RETURN (DUPLICATE_MSG_E) ;;
  IF (fun m => negb (got_client_key_exchange m)) RETURN (OUT_OF_ORDER_E) ;;
  IF (fun m => negb (got_certificate m)) RETURN (OUT_OF_ORDER_E) ;;
  IF (fun m => got_change_cipher m || got_finished m) RETURN (OUT_OF_ORDER_E) ;;
  assign (fun m => { m with got_certificate_verify := true }).

Definition check_client_key_exchange : stmt MsgsReceived :=
  IF (fun _ => isClient) RETURN (SIDE_ERROR) ;;
  IF (fun m => got_client_key_exchange m) RETURN (DUPLICATE_MSG_E) ;;
  IF (fun m => got_client_hello m =? 0) RETURN (OUT_OF_ORDER_E) ;;
  IF (fun m => negb (resuming o) && verifyPeer o && negb (usingPSK_cipher o) &&
               negb (usingAnon_cipher o) && negb (got_certificate m)) RETURN (OUT_OF_ORDER_E) ;;
  IF (fun m => got_certificate_verify m || got_change_cipher m || got_finished m)
    RETURN (OUT_OF_ORDER_E) ;;
  assign (fun m => { m with got_client_key_exchange := true }).

Definition check_finished : stmt MsgsReceived :=
  IF (fun m => got_finished m) RETURN (DUPLICATE_MSG_E) ;;
  WHEN (fun _ => dtls o) DO
    IF (fun _ => curEpoch o =? 0) RETURN (SEQUENCE_ERROR)
  OD ;;
  IF (fun m => negb (got_change_cipher m)) RETURN (NO_CHANGE_CIPHER_E) ;;
  assign (fun m => { m with got_finished := true }).

Definition check_change_cipher : stmt MsgsReceived :=
  IF (fun m => got_change_cipher m) RETURN (DUPLICATE_MSG_E) ;;
  WHEN (fun _ => negb (dtls o)) DO assign (fun m => { m with got_change_cipher := true }) OD ;;
  WHEN (fun _ => isClient) DO
    IF (fun m => negb (got_server_hello m)) RETURN (OUT_OF_ORDER_E) ;;
    WHEN (fun _ => negb (resuming o)) DO
      IF (fun m => negb (got_server_hello_done m)) RETURN (OUT_OF_ORDER_E)
    OD ;;
    WHEN (fun _ => expect_session_ticket o) DO
      IF (fun _ => dtls o) RETURN (OUT_OF_ORDER_E) ;;
      ret SESSION_TICKET_EXPECT_E
    OD
  OD ;;
  WHEN (fun _ => isServer) DO
    IF (fun m => got_client_hello m =? 0) RETURN (OUT_OF_ORDER_E) ;;
    IF (fun m => negb (resuming o) && negb (got_client_key_exchange m)) RETURN (OUT_OF_ORDER_E) ;;
    WHEN (fun m => verifyPeer o && havePeerCert o &&
                   (negb (havePeerVerify o) || negb (got_certificate_verify m))) DO
      IF (fun _ => dtls o) RETURN (OUT_OF_ORDER_E) ;;
      ret NO_PEER_VERIFY
    OD
  OD ;;
  WHEN (fun _ => dtls o) DO assign (fun m => { m with got_change_cipher := true }) OD.

Definition dispatch (type : Z) : stmt MsgsReceived :=
  if type =? hello_request then check_hello_request
  else if type =? client_hello then check_client_hello
  else if type =? server_hello then check_server_hello
  else if type =? hello_verify_request then check_hello_verify_request
  else if type =? session_ticket then check_session_ticket
  else if type =? certificate then check_certificate
  else if type =? certificate_status then check_certificate_status
  else if type =? server_key_exchange then check_server_key_exchange
  else if type =? certificate_request then check_certificate_request
  else if type =? server_hello_done then check_server_hello_done
  else if type =? certificate_verify then check_certificate_verify
  else if type =? client_key_exchange then check_client_key_exchange
  else if type =? finished then check_finished
  else if type =? change_cipher_hs then check_change_cipher
  else ret SANITY_MSG_E.

Definition SanityCheckMsgReceived (type : Z) (m : MsgsReceived) : Z * MsgsReceived :=
  run 0 (dispatch type) m.

(** The part of [DoHandShakeMsgType] before the message is hashed and
    processed (build without [HAVE_SECURE_RENEGOTIATION]; HelloRetryRequest
    goes to TLS 1.3).  The list holds the alerts sent, as (level, code). *)
Definition DoHandShakeMsgType_gate (type inOutIdx size totalSz : Z) (m : MsgsReceived)
    : Z * MsgsReceived * list (Z * Z) :=
  if totalSz <? u32 (inOutIdx + size) then (INCOMPLETE_DATA, m, [])
  else
    let '(ret, m) := SanityCheckMsgReceived type m in
    if negb (ret =? 0) then (ret, m, [])
    else if (handShakeState o =? HANDSHAKE_DONE) && (type =? client_hello) && isServer then
      (SECURE_RENEGOTIATION_E, m, [(alert_warning, no_renegotiation)])
    else if (handShakeState o =? HANDSHAKE_DONE) && negb (type =? hello_request) then
      (OUT_OF_ORDER_E, m, [(alert_fatal, unexpected_message)])
    else if isClient && negb (dtls o) && (serverState o =? NULL_STATE) &&
            negb (type =? server_hello) && negb (type =? hello_request) then
      (OUT_OF_ORDER_E, m, [(alert_fatal, unexpected_message)])
    else if isClient && dtls o && (type =? server_hello_done) &&
            (serverState o <? SERVER_HELLO_COMPLETE) then
      (OUT_OF_ORDER_E, m, [(alert_fatal, unexpected_message)])
    else if isServer && (clientState o =? NULL_STATE) && negb (type =? client_hello) then
      (OUT_OF_ORDER_E, m, [(alert_fatal, unexpected_message)])
    else (0, m, []).

End Gate.
(** ** The table of the message flow (RFC 5246, section 7.3) *)

Definition got (m : MsgsReceived) (t : Z) : bool :=
  if t =? hello_request then got_hello_request m
  else if t =? client_hello then negb (got_client_hello m =? 0)
  else if t =? server_hello then got_server_hello m
  else if t =? hello_verify_request then got_hello_verify_request m
  else if t =? hello_retry_request then got_hello_retry_request m
  else if t =? session_ticket then got_session_ticket m
  else if t =? certificate then got_certificate m
  else if t =? certificate_status then got_certificate_status m
  else if t =? server_key_exchange then got_server_key_exchange m
  else if t =? certificate_request then got_certificate_request m
  else if t =? server_hello_done then got_server_hello_done m
  else if t =? certificate_verify then got_certificate_verify m
  else if t =? client_key_exchange then got_client_key_exchange m
  else if t =? finished then got_finished m
  else if t =? change_cipher_hs then got_change_cipher m
  else false.

Definition mark (t : Z) (m : MsgsReceived) : MsgsReceived :=
  if t =? hello_request then { m with got_hello_request := true }
  else if t =? client_hello then { m with got_client_hello := 1 }
  else if t =? server_hello then { m with got_server_hello := true }
  else if t =? hello_verify_request then { m with got_hello_verify_request := true }
  else if t =? session_ticket then { m with got_session_ticket := true }
  else if t =? certificate then { m with got_certificate := true }
  else if t =? certificate_status then { m with got_certificate_status := true }
  else if t =? server_key_exchange then { m with got_server_key_exchange := true }
  else if t =? certificate_request then { m with got_certificate_request := true }
  else if t =? server_hello_done then { m with got_server_hello_done := true }
  else if t =? certificate_verify then { m with got_certificate_verify := true }
  else if t =? client_key_exchange then { m with got_client_key_exchange := true }
  else if t =? finished then { m with got_finished := true }
  else if t =? change_cipher_hs then { m with got_change_cipher := true }
  else m.

(** The messages a client and a server may receive. *)
Definition client_msgs : list Z :=
  [hello_request; server_hello; hello_verify_request; session_ticket; certificate_status;
   server_key_exchange; certificate_request; server_hello_done].
Definition server_msgs : list Z := [client_hello; certificate_verify; client_key_exchange].
Definition common_msgs : list Z := [certificate; finished; change_cipher_hs].
Definition all_msgs : list Z := client_msgs ++ server_msgs ++ common_msgs.

Definition among (t : Z) (l : list Z) : bool := existsb (Z.eqb t) l.

Definition side_ok (o : HsOptions) (t : Z) : bool :=
  among t all_msgs && negb (among t client_msgs && isServer o) &&
  negb (among t server_msgs && isClient o).

Definition opt (b : bool) (l : list Z) : list Z := if b then l else [].

(** The messages that must have come before [t]. *)
Definition requires (o : HsOptions) (t : Z) : list Z :=
  let certless := psk_kea_cipher o || usingAnon_cipher o in
  if t =? session_ticket then server_hello :: opt (negb (resuming o)) [server_hello_done]
  else if t =? certificate then opt (isClient o) [server_hello] ++ opt (isServer o) [client_hello]
  else if t =? certificate_status then [certificate]
  else if t =? server_key_exchange then server_hello :: opt (negb certless) [certificate]
  else if t =? certificate_request then
    [server_hello; certificate] ++
    opt (negb (resuming o || kea_is (kea o) rsa_kea ||
               (kea_is (kea o) ecc_diffie_hellman_kea && static_ecdh o) ||
               kea_is (kea o) ecc_static_diffie_hellman_kea)) [server_key_exchange]
  else if t =? server_hello_done then
    opt (negb certless) [certificate] ++
    opt (negb (static_ecdh o || kea_is (kea o) rsa_kea ||
               (kea_is (kea o) psk_kea && bool_decide (server_hint o = Some 0)))) [server_key_exchange]
  else if t =? certificate_verify then [client_key_exchange; certificate]
  else if t =? client_key_exchange then
    client_hello :: opt (negb (resuming o) && verifyPeer o && negb (usingPSK_cipher o) &&
                         negb (usingAnon_cipher o)) [certificate]
  else if t =? finished then [change_cipher_hs]
  else if t =? change_cipher_hs then
    opt (isClient o) (server_hello :: opt (negb (resuming o)) [server_hello_done]) ++
    opt (isServer o) (client_hello :: opt (negb (resuming o)) [client_key_exchange] ++
                      opt (verifyPeer o && havePeerCert o) [certificate_verify])
  else [].

(** The messages that must not have come before [t]. *)
Definition excludes (o : HsOptions) (t : Z) : list Z :=
  if t =? hello_verify_request then [hello_retry_request]
  else if t =? session_ticket then [change_cipher_hs; finished]
  else if t =? certificate then
    opt (isClient o) [certificate_status; server_key_exchange; certificate_request;
                      server_hello_done; change_cipher_hs; finished] ++
    opt (isServer o) [client_key_exchange; certificate_verify; change_cipher_hs; finished]
  else if t =? certificate_status then
    [server_key_exchange; certificate_request; server_hello_done; change_cipher_hs; finished]
  else if t =? server_key_exchange then
    [certificate_request; server_hello_done; change_cipher_hs; finished]
  else if t =? certificate_request then [server_hello_done; change_cipher_hs; finished]
  else if t =? server_hello_done then [change_cipher_hs; finished]
  else if t =? certificate_verify then [change_cipher_hs; finished]
  else if t =? client_key_exchange then [certificate_verify; change_cipher_hs; finished]
  else [].

(** The conditions that are not about other messages. *)
Definition condition (o : HsOptions) (m : MsgsReceived) (t : Z) : bool :=
  if t =? server_hello_done then
    got_certificate_status m ||
    (((csr_lookup o =? 0) || negb (ocspEnabled o || ocspMustStaple o)) &&
     (status_request o || status_request_v2 o || negb (ocspMustStaple o)))
  else if t =? finished then negb (dtls o) || negb (curEpoch o =? 0)
  else if t =? change_cipher_hs then
    negb (isClient o && expect_session_ticket o) &&
    negb (isServer o && verifyPeer o && havePeerCert o && negb (havePeerVerify o))
  else true.

Definition acceptable (o : HsOptions) (m : MsgsReceived) (t : Z) : bool :=
  side_ok o t && negb (got m t) && forallb (got m) (requires o t) &&
  negb (existsb (got m) (excludes o t)) && condition o m t.

(** ** The gate implements the table *)

(** A check that returns 0 exactly when the table accepts, and then has
    marked the message. *)
Definition agrees (o : HsOptions) (t : Z) (c : stmt MsgsReceived) : Prop :=
  forall m, if acceptable o m t then run 0 c m = (0, mark t m) else (run 0 c m).1 <> 0.

Lemma forallb_opt p b l : forallb p (opt b l) = negb b || forallb p l.
Proof. now destruct b. Qed.

Lemma existsb_opt p b l : existsb p (opt b l) = b && existsb p l.
Proof. now destruct b. Qed.

Lemma run_if b r c (m : MsgsReceived) :
  run 0 (when b (ret r) ;; c) m = if b m then (r, m) else run 0 c m.
Proof. unfold run, seq, when, ret. destruct (b m); reflexivity. Qed.

Lemma run_if_last b r (m : MsgsReceived) :
  run 0 (when b (ret r)) m = if b m then (r, m) else (0, m).
Proof. unfold run, when, ret. destruct (b m); reflexivity. Qed.

Lemma run_assign f c (m : MsgsReceived) : run 0 (assign f ;; c) m = run 0 c (f m).
Proof. reflexivity. Qed.

Lemma run_assign_last f (m : MsgsReceived) : run 0 (assign f) m = (0, f m).
Proof. reflexivity. Qed.

Lemma run_ret r c (m : MsgsReceived) : run 0 (ret r ;; c) m = (r, m).
Proof. reflexivity. Qed.

Lemma run_when b c d (m : MsgsReceived) :
  run 0 (when b c ;; d) m = if b m then run 0 (c ;; d) m else run 0 d m.
Proof. unfold run, seq, when. destruct (b m); reflexivity. Qed.

Lemma run_when_last b c (m : MsgsReceived) :
  run 0 (when b c) m = if b m then run 0 c m else (0, m).
Proof. unfold run, when. destruct (b m); reflexivity. Qed.

Lemma run_assoc c d e (m : MsgsReceived) : run 0 ((c ;; d) ;; e) m = run 0 (c ;; (d ;; e)) m.
Proof. unfold run, seq. destruct (c m) as [m' [r |]]; reflexivity. Qed.

(** Follow the statements, splitting on one guard at a time. *)
#[local] Ltac step_guard :=
  match goal with
  | G : ?b = true |- context [if ?b then _ else _] => rewrite G
  | G : ?b = false |- context [if ?b then _ else _] => rewrite G
  | |- context [run 0 ((_ ;; _) ;; _) _] => rewrite run_assoc
  | |- context [run 0 (when _ (ret _) ;; _) _] => rewrite run_if
  | |- context [run 0 (when _ (ret _)) _] => rewrite run_if_last
  | |- context [run 0 (assign _ ;; _) _] => rewrite run_assign
  | |- context [run 0 (assign _) _] => rewrite run_assign_last
  | |- context [run 0 (ret _ ;; _) _] => rewrite run_ret
  | |- context [run 0 (when _ _ ;; _) _] => rewrite run_when
  | |- context [run 0 (when _ _) _] => rewrite run_when_last
  | |- _ => let E := fresh "G" in
            match goal with
            | |- context [if ?b then run _ _ _ else _] => destruct b eqn:E
            | |- context [if ?b then (_, _) else _] => destruct b eqn:E
            end
  end; cbn -[run csr_lookup kea_is isServer isClient psk_kea_cipher acceptable mark].

(** The table's entry for a message, as a formula over what was received. *)
#[local] Ltac table_in E :=
  unfold acceptable, side_ok, requires, excludes, condition in E;
  cbn [forallb existsb among Z.eqb Pos.eqb got app all_msgs client_msgs server_msgs common_msgs
       hello_request client_hello server_hello hello_verify_request session_ticket certificate
       certificate_status server_key_exchange certificate_request server_hello_done
       certificate_verify client_key_exchange finished change_cipher_hs hello_retry_request] in E;
  do 3 (rewrite ?forallb_app, ?existsb_app, ?forallb_opt, ?existsb_opt in E;
        cbn [forallb existsb] in E).

(** Refute boolean hypotheses: unit propagation, then case splits. *)
#[local] Ltac bool_absurd :=
  repeat match goal with
         | H : true = false |- _ => discriminate H
         | H : false = true |- _ => discriminate H
         | H : ?x = ?x |- _ => clear H
         | H : _ && _ = true |- _ => apply andb_true_iff in H as [? ?]
         | H : _ || _ = false |- _ => apply orb_false_iff in H as [? ?]
         | H : negb _ = true |- _ => apply negb_true_iff in H
         | H : negb _ = false |- _ => apply negb_false_iff in H
         | H : ?x = true, K : context [?x] |- _ => rewrite H in K; cbn [andb orb negb] in K
         | H : ?x = false, K : context [?x] |- _ => rewrite H in K; cbn [andb orb negb] in K
         end;
  rewrite ?andb_false_r, ?orb_false_r, ?andb_true_r, ?orb_true_r in *; cbn [andb orb negb] in *;
  match goal with
  | H : true = false |- _ => discriminate H
  | H : false = true |- _ => discriminate H
  | H : ?x = true, K : ?x = false |- _ => congruence
  | H : _ || _ = true |- _ => apply orb_true_iff in H as [H | H]; bool_absurd
  | H : _ && _ = false |- _ => apply andb_false_iff in H as [H | H]; bool_absurd
  end.

#[local] Ltac agree_leaf :=
  let A := fresh "A" in
  destruct (acceptable _ _ _) eqn:A; try reflexivity; try discriminate;
  try match goal with
      | |- context [csr_lookup _] => solve [intros Hz%Z.eqb_eq; bool_absurd]
      end; exfalso;
  table_in A;
  cbn [got Z.eqb Pos.eqb got_hello_request got_client_hello got_server_hello got_hello_verify_request
       got_session_ticket got_hello_retry_request got_certificate got_certificate_status
       got_server_key_exchange got_certificate_request got_server_hello_done got_certificate_verify
       got_client_key_exchange got_finished got_change_cipher andb orb negb
       hello_request client_hello server_hello hello_verify_request session_ticket certificate
       certificate_status server_key_exchange certificate_request server_hello_done
       certificate_verify client_key_exchange finished change_cipher_hs hello_retry_request] in A;
  bool_absurd.

#[local] Ltac agree :=
  intros [? ? ? ? ? ? ? ? ? ? ? ? ? ? ? ? ? ?]; repeat step_guard; agree_leaf.

Lemma agree_hello_request o : agrees o hello_request (check_hello_request o).
Proof. unfold check_hello_request. agree. Qed.

Lemma agree_client_hello o : agrees o client_hello (check_client_hello o).
Proof. unfold check_client_hello. agree. Qed.

Lemma agree_server_hello o : agrees o server_hello (check_server_hello o).
Proof. unfold check_server_hello. agree. Qed.

Lemma agree_hello_verify_request o : agrees o hello_verify_request (check_hello_verify_request o).
Proof. unfold check_hello_verify_request. agree. Qed.

Lemma agree_session_ticket o : agrees o session_ticket (check_session_ticket o).
Proof. unfold check_session_ticket. agree. Qed.

Lemma agree_certificate o : agrees o certificate (check_certificate o).
Proof. unfold check_certificate. agree. Qed.

Lemma agree_certificate_status o : agrees o certificate_status (check_certificate_status o).
Proof. unfold check_certificate_status. agree. Qed.

Lemma agree_server_key_exchange o : agrees o server_key_exchange (check_server_key_exchange o).
Proof. unfold check_server_key_exchange. agree. Qed.

Lemma agree_certificate_request o : agrees o certificate_request (check_certificate_request o).
Proof. unfold check_certificate_request. agree. Qed.

Lemma agree_server_hello_done o : agrees o server_hello_done (check_server_hello_done o).
Proof.
  unfold check_server_hello_done. intros m.
  destruct (isServer o) eqn:?, (psk_kea_cipher o) eqn:?, (usingAnon_cipher o) eqn:?; revert m; agree.
Qed.

Lemma agree_certificate_verify o : agrees o certificate_verify (check_certificate_verify o).
Proof. unfold check_certificate_verify. agree. Qed.

Lemma agree_client_key_exchange o : agrees o client_key_exchange (check_client_key_exchange o).
Proof. unfold check_client_key_exchange. agree. Qed.

Lemma agree_finished o : agrees o finished (check_finished o).
Proof. unfold check_finished. agree. Qed.

Lemma agree_change_cipher o : agrees o change_cipher_hs (check_change_cipher o).
Proof.
  unfold check_change_cipher. intros m.
  destruct (isServer o) eqn:?, (isClient o) eqn:?, (dtls o) eqn:?, (resuming o) eqn:?; revert m; agree.
Qed.

Lemma sanity_spec o t m :
  if acceptable o m t then SanityCheckMsgReceived o t m = (0, mark t m)
  else (SanityCheckMsgReceived o t m).1 <> 0.
Proof.
  unfold SanityCheckMsgReceived, dispatch.
  destruct (Z.eqb_spec t hello_request) as [-> |]; [exact (agree_hello_request o m) |].
  destruct (Z.eqb_spec t client_hello) as [-> |]; [exact (agree_client_hello o m) |].
  destruct (Z.eqb_spec t server_hello) as [-> |]; [exact (agree_server_hello o m) |].
  destruct (Z.eqb_spec t hello_verify_request) as [-> |]; [exact (agree_hello_verify_request o m) |].
  destruct (Z.eqb_spec t session_ticket) as [-> |]; [exact (agree_session_ticket o m) |].
  destruct (Z.eqb_spec t certificate) as [-> |]; [exact (agree_certificate o m) |].
  destruct (Z.eqb_spec t certificate_status) as [-> |]; [exact (agree_certificate_status o m) |].
  destruct (Z.eqb_spec t server_key_exchange) as [-> |]; [exact (agree_server_key_exchange o m) |].
  destruct (Z.eqb_spec t certificate_request) as [-> |]; [exact (agree_certificate_request o m) |].
  destruct (Z.eqb_spec t server_hello_done) as [-> |]; [exact (agree_server_hello_done o m) |].
  destruct (Z.eqb_spec t certificate_verify) as [-> |]; [exact (agree_certificate_verify o m) |].
  destruct (Z.eqb_spec t client_key_exchange) as [-> |]; [exact (agree_client_key_exchange o m) |].
  destruct (Z.eqb_spec t finished) as [-> |]; [exact (agree_finished o m) |].
  destruct (Z.eqb_spec t change_cipher_hs) as [-> |]; [exact (agree_change_cipher o m) |].
  assert (A : acceptable o m t = false).
  { unfold acceptable, side_ok, among, all_msgs, client_msgs, server_msgs, common_msgs.
    cbn [app existsb]. rewrite !(proj2 (Z.eqb_neq _ _)) by assumption. reflexivity. }
  rewrite A. discriminate.
Qed.

(** ** Traces of accepted messages *)

(** The connection's options may change between messages (the key exchange
    is known after ServerHello, ...), so each message carries its own. *)
Fixpoint accepts (m : MsgsReceived) (l : list (HsOptions * Z)) : option MsgsReceived :=
  match l with
  | [] => Some m
  | (o, t) :: l =>
      match SanityCheckMsgReceived o t m with
      | (0, m) => accepts m l
      | _ => None
      end
  end.

Definition types (l : list (HsOptions * Z)) : list Z := snd <$> l.

Lemma accepts_cons m o t l r : accepts m ((o, t) :: l) = Some r ->
  acceptable o m t = true /\ accepts (mark t m) l = Some r.
Proof.
  cbn [accepts]. pose proof (sanity_spec o t m) as S.
  destruct (SanityCheckMsgReceived o t m) as [c m']. destruct (acceptable o m t).
  - injection S as -> ->. auto.
  - cbn in S. destruct c; [congruence | discriminate | discriminate].
Qed.

Lemma got_mark t t' m : among t all_msgs = true -> got (mark t m) t' = (t =? t') || got m t'.
Proof.
  intros Ht. unfold among in Ht. apply existsb_exists in Ht as (x & Hx & E). apply Z.eqb_eq in E as ->.
  destruct m. cbn in Hx. destruct (Z.eqb_spec x t') as [<- | N]; cbn [orb].
  - repeat destruct Hx as [<- | Hx]; [reflexivity .. | contradiction].
  - unfold got.
    repeat match goal with |- context [if t' =? ?k then _ else _] => destruct (Z.eqb_spec t' k) as [-> |] end;
    try reflexivity; (repeat destruct Hx as [<- | Hx]; [try congruence; reflexivity .. | contradiction]).
Qed.

Lemma acceptable_inv o m t : acceptable o m t = true ->
  side_ok o t = true /\ got m t = false /\
  (forall t', t' ∈ requires o t -> got m t' = true) /\
  (forall t', t' ∈ excludes o t -> got m t' = false) /\ condition o m t = true.
Proof.
  unfold acceptable. rewrite !andb_true_iff, !negb_true_iff, forallb_forall. intros [[[[S G] R] E] C].
  split; [exact S |]. split; [exact G |]. split; [| split; [| exact C]].
  - intros t' H. apply R. now apply list_elem_of_In in H.
  - intros t' H. destruct (got m t') eqn:K; [| reflexivity].
    rewrite <- E. symmetry. apply existsb_exists. exists t'. split; [now apply list_elem_of_In in H | exact K].
Qed.

Lemma side_ok_known o t : side_ok o t = true -> among t all_msgs = true.
Proof. unfold side_ok. rewrite !andb_true_iff. tauto. Qed.

(** The bits of [msgsReceived] are the set of accepted types. *)
Lemma accepts_got l : forall m r, accepts m l = Some r ->
  forall t, got r t = got m t || among t (types l).
Proof.
  induction l as [| [o t] l IH]; intros m r H t'.
  - injection H as <-. unfold types. cbn. now rewrite orb_false_r.
  - apply accepts_cons in H as [A H]. rewrite (IH _ _ H t').
    apply acceptable_inv in A as (S & _). rewrite got_mark by exact (side_ok_known o t S).
    change (among t' (types ((o, t) :: l))) with ((t' =? t) || among t' (types l)).
    rewrite (Z.eqb_sym t t').
    destruct (t' =? t), (got m t'), (among t' (types l)); reflexivity.
Qed.

Lemma accepts_app l1 : forall l2 m r, accepts m (l1 ++ l2) = Some r ->
  exists m', accepts m l1 = Some m' /\ accepts m' l2 = Some r.
Proof.
  induction l1 as [| [o t] l1 IH]; intros l2 m r H; [now exists m |].
  cbn [app accepts] in *. destruct (SanityCheckMsgReceived o t m) as [[] m']; try discriminate.
  now apply IH.
Qed.

Lemma among_spec t l : among t l = true <-> t ∈ l.
Proof.
  unfold among. rewrite existsb_exists. split.
  - intros (x & H & E). apply Z.eqb_eq in E as ->. now apply list_elem_of_In.
  - intros H. exists t. split; [now apply list_elem_of_In in H | apply Z.eqb_refl].
Qed.

(** What the gate guarantees about the message at each position of an
    accepted trace. *)
Lemma accepts_position l1 o t l2 r : accepts no_msgs (l1 ++ ((o, t) :: l2)) = Some r ->
  side_ok o t = true /\ ~ (t ∈ types l1) /\
  (forall t', t' ∈ requires o t -> t' ∈ types l1) /\
  (forall t', t' ∈ excludes o t -> ~ (t' ∈ types l1)).
Proof.
  intros H. apply accepts_app in H as (m & H1 & H2). apply accepts_cons in H2 as [A _].
  pose proof (accepts_got l1 _ _ H1) as G.
  assert (G' : forall x, got m x = true <-> x ∈ types l1).
  { intros x. rewrite G, <- among_spec. replace (got no_msgs x) with false; [reflexivity |].
    unfold got. repeat case_match; reflexivity. }
  apply acceptable_inv in A as (S & N & R & E & _). split; [exact S |]. split.
  - intros K. apply G' in K. congruence.
  - split; intros t' K; [now apply G', R |]. intros K'. apply G' in K'. rewrite E in K' by exact K. discriminate.
Qed.

(** ** Properties *)

(** [SanityCheckMsgReceived] is exactly the message-flow table: it
    returns 0 iff the message suits the side, has not come before, everything
    it requires has come, nothing it excludes has, and the OCSP, epoch and
    ticket conditions hold; it then records this message and nothing else. *)
Theorem SanityCheckMsgReceived_table o t m m' :
  SanityCheckMsgReceived o t m = (0, m') <-> acceptable o m t = true /\ m' = mark t m.
Proof.
  pose proof (sanity_spec o t m) as S. destruct (acceptable o m t).
  - rewrite S. split; [intros [= <-]; auto | intros [_ ->]; reflexivity].
  - split; [intros E; rewrite E in S; now destruct S | intros [? _]; discriminate].
Qed.

(** A check leaves the record of received messages alone or marks the
    message it checks. *)
Definition keeps (t : Z) (c : stmt MsgsReceived) : Prop :=
  forall m, (run 0 c m).2 = m \/ (run 0 c m).2 = mark t m.

#[local] Ltac keep :=
  intros [? ? ? ? ? ? ? ? ? ? ? ? ? ? ? ? ? ?]; repeat step_guard; (left; reflexivity) || (right; reflexivity).

Lemma keeps_dispatch o t : keeps t (dispatch o t).
Proof.
  unfold dispatch.
  destruct (Z.eqb_spec t hello_request) as [-> |]; [unfold check_hello_request; keep |].
  destruct (Z.eqb_spec t client_hello) as [-> |]; [unfold check_client_hello; keep |].
  destruct (Z.eqb_spec t server_hello) as [-> |]; [unfold check_server_hello; keep |].
  destruct (Z.eqb_spec t hello_verify_request) as [-> |]; [unfold check_hello_verify_request; keep |].
  destruct (Z.eqb_spec t session_ticket) as [-> |]; [unfold check_session_ticket; keep |].
  destruct (Z.eqb_spec t certificate) as [-> |]; [unfold check_certificate; keep |].
  destruct (Z.eqb_spec t certificate_status) as [-> |]; [unfold check_certificate_status; keep |].
  destruct (Z.eqb_spec t server_key_exchange) as [-> |]; [unfold check_server_key_exchange; keep |].
  destruct (Z.eqb_spec t certificate_request) as [-> |]; [unfold check_certificate_request; keep |].
  destruct (Z.eqb_spec t server_hello_done) as [-> |]; [unfold check_server_hello_done; keep |].
  destruct (Z.eqb_spec t certificate_verify) as [-> |]; [unfold check_certificate_verify; keep |].
  destruct (Z.eqb_spec t client_key_exchange) as [-> |]; [unfold check_client_key_exchange; keep |].
  destruct (Z.eqb_spec t finished) as [-> |]; [unfold check_finished; keep |].
  destruct (Z.eqb_spec t change_cipher_hs) as [-> |]; [unfold check_change_cipher; keep |].
  left. reflexivity.
Qed.

(** A refused message changes nothing but, at most, its own mark: the
    marks of other messages, on which later checks rely, are never touched;
    a message of unknown type is refused with [SANITY_MSG_E] and leaves no
    mark; a repeated one is refused. *)
Theorem SanityCheckMsgReceived_reject o t m :
  ((SanityCheckMsgReceived o t m).2 = m \/ (SanityCheckMsgReceived o t m).2 = mark t m) /\
  (among t all_msgs = false -> SanityCheckMsgReceived o t m = (SANITY_MSG_E, m)) /\
  (got m t = true -> (SanityCheckMsgReceived o t m).1 <> 0).
Proof.
  split; [exact (keeps_dispatch o t m) |]. split.
  - unfold among, all_msgs, client_msgs, server_msgs, common_msgs. cbn [app existsb].
    rewrite !orb_false_iff. intros H. unfold SanityCheckMsgReceived, dispatch.
    repeat match type of H with _ /\ _ => destruct H as [-> H] end. reflexivity.
  - intros G. pose proof (sanity_spec o t m) as S. unfold acceptable in S. rewrite G in S.
    cbn [negb] in S. now rewrite andb_false_r in S.
Qed.

(** [C29] Over a whole handshake, whatever the connection's options at each
    message: accepted messages never repeat, so at most 14 are accepted; each
    one suits the side, comes after everything it requires and before
    everything that excludes it. *)
Theorem handshake_trace_order l r :
  accepts no_msgs l = Some r ->
  NoDup (types l) /\ (length l <= 14)%nat /\
  forall l1 o t l2, l = l1 ++ ((o, t) :: l2) ->
    side_ok o t = true /\
    (forall t', t' ∈ requires o t -> t' ∈ types l1) /\
    (forall t', t' ∈ excludes o t -> ~ (t' ∈ types l1)).
Proof.
  intros H.
  assert (Nd : NoDup (types l)).
  { apply NoDup_alt. intros i j x Hi Hj. unfold types in *. rewrite list_lookup_fmap in Hi, Hj.
    destruct (l !! i) as [[o t] |] eqn:Li, (l !! j) as [[o' t'] |] eqn:Lj; try discriminate.
    cbn in Hi, Hj. injection Hi as ->. injection Hj as ->.
    assert (D : forall i j o o', l !! i = Some (o, x) -> l !! j = Some (o', x) -> (i < j)%nat -> False).
    { clear - H. intros i j o o' Li Lj Hij. pose proof (take_drop_middle l j _ Lj) as E.
      rewrite <- E in H. apply accepts_position in H as (_ & N & _). apply N.
      unfold types. apply list_elem_of_fmap. exists (o, x). split; [reflexivity |].
      apply (list_elem_of_lookup_2 _ i). now rewrite lookup_take_lt by exact Hij. }
    destruct (lt_eq_lt_dec i j) as [[K | K] | K]; [| exact K |]; exfalso; eauto. }
  split; [exact Nd |]. split.
  - replace (length l) with (length (types l)) by apply length_fmap.
    change 14%nat with (length all_msgs). apply submseteq_length, NoDup_submseteq; [exact Nd |].
    intros x Hx. unfold types in Hx. apply list_elem_of_fmap in Hx as ([o t] & -> & Hx).
    apply list_elem_of_split in Hx as (l1 & l2 & ->). apply accepts_position in H as (S & _).
    apply among_spec. exact (side_ok_known o t S).
  - intros l1 o t l2 ->. apply accepts_position in H as (S & _ & R & E). auto.
Qed.

Lemma handshake_trace_order_witness :
  let o := mkHsOptions WOLFSSL_SERVER_END false false false false false false false
             ecc_diffie_hellman_kea false None false false 0 0 false false false 0 0 0 0 in
  let l := (fun t => (o, t)) <$> [client_hello; client_key_exchange; change_cipher_hs; finished] in
  exists r, accepts no_msgs l = Some r /\ NoDup (types l).
Proof.
  intros o l. destruct (accepts no_msgs l) as [r |] eqn:E; [| vm_compute in E; discriminate].
  exists r. split; [reflexivity | exact (proj1 (handshake_trace_order l r E))].
Defined.

(** [t'] was accepted before [t]. *)
Definition before (t' t : Z) (l : list (HsOptions * Z)) : Prop :=
  exists l1 o l2, l = l1 ++ ((o, t) :: l2) /\ t' ∈ types l1.

Lemma before_elem t' t l : before t' t l -> t' ∈ types l.
Proof.
  intros (l1 & o & l2 & -> & H). unfold types in *. rewrite fmap_app. apply elem_of_app. auto.
Qed.

(** [t] was accepted under the options [o], after the messages [l1]. *)
Definition accepted_at (l1 : list (HsOptions * Z)) (o : HsOptions) (t : Z) (l : list (HsOptions * Z)) : Prop :=
  exists l2, l = l1 ++ ((o, t) :: l2).

Lemma accepted_at_intro l t : t ∈ types l -> exists l1 o, accepted_at l1 o t l.
Proof.
  unfold types. intros H. apply list_elem_of_fmap in H as ([o x] & -> & Hx).
  apply list_elem_of_split in Hx as (l1 & l2 & ->). exists l1, o, l2. reflexivity.
Qed.

(** What the gate checked when it accepted a message. *)
Lemma gate_at l r l1 o t : accepts no_msgs l = Some r -> accepted_at l1 o t l ->
  exists m, accepts no_msgs l1 = Some m /\ (forall x, got m x = true <-> x ∈ types l1) /\
    (forall t', t' ∈ requires o t -> t' ∈ types l1) /\
    (forall t', t' ∈ excludes o t -> ~ (t' ∈ types l1)) /\ condition o m t = true.
Proof.
  intros H (l2 & ->). pose proof (accepts_position _ _ _ _ _ H) as (_ & _ & R & E).
  apply accepts_app in H as (m & H1 & H2). apply accepts_cons in H2 as [A _].
  apply acceptable_inv in A as (_ & _ & _ & _ & C). exists m. split; [exact H1 |]. split; [| auto].
  intros x. rewrite (accepts_got l1 _ _ H1), <- among_spec. replace (got no_msgs x) with false; [reflexivity |].
  unfold got. repeat case_match; reflexivity.
Qed.

(** A received [t'] that [t'] itself could not follow [t] came before it. *)
Lemma excluded_before l r t t' : accepts no_msgs l = Some r -> t ∈ types l -> t' ∈ types l -> t <> t' ->
  (forall l1 o, accepted_at l1 o t' l -> t ∈ excludes o t') -> before t' t l.
Proof.
  intros H Ht Ht' N X. destruct (accepted_at_intro _ _ Ht) as (l1 & o & l2 & E). subst l.
  exists l1, o, l2. split; [reflexivity |]. unfold types in Ht'. rewrite fmap_app, elem_of_app in Ht'.
  destruct Ht' as [| Ht']; [assumption |]. cbn in Ht'. apply elem_of_cons in Ht' as [-> | Ht']; [contradiction |].
  fold (types l2) in Ht'. exfalso. destruct (accepted_at_intro _ _ Ht') as (l3 & o3 & l4 & ->).
  assert (A : accepted_at (l1 ++ (o, t) :: l3) o3 t' (l1 ++ (o, t) :: l3 ++ (o3, t') :: l4))
    by (exists l4; now rewrite <- app_assoc).
  destruct (gate_at _ _ _ _ _ H A) as (_ & _ & _ & _ & E & _). apply (E t); [exact (X _ _ A) |].
  unfold types. rewrite fmap_app. apply elem_of_app. right. left.
Qed.

Lemma accepted_side l l1 o t s : Forall (fun x => side x.1 = s) l -> accepted_at l1 o t l ->
  side o = s /\ Forall (fun x => side x.1 = s) l1.
Proof. intros F (l2 & ->). apply Forall_app in F as [F1 F]. apply Forall_cons_1 in F as [F _]. auto. Qed.

(** A message is accepted at one place only. *)
Lemma unique_prefix l r t x o y l2 o2 z : accepts no_msgs l = Some r ->
  l = x ++ ((o, t) :: y) -> l = l2 ++ ((o2, t) :: z) -> forall u, u ∈ types x -> u ∈ types l2.
Proof.
  intros H E1 E2 u Hu. assert (N1 : ~ (t ∈ types x)) by (rewrite E1 in H; apply accepts_position in H; tauto).
  assert (N2 : ~ (t ∈ types l2)) by (rewrite E2 in H; apply accepts_position in H; tauto).
  assert (E : types x ++ t :: types y = types l2 ++ t :: types z)
    by (unfold types; transitivity (types l); [rewrite E1 | rewrite E2]; unfold types; now rewrite fmap_app).
  apply app_eq_inv in E as [(k & Ek & E) | (k & Ek & E)].
  - destruct k as [| v k]; [rewrite Ek, app_nil_r in Hu; exact Hu |]. injection E as <- E.
    exfalso. apply N1. rewrite Ek. apply elem_of_app. right. left.
  - rewrite Ek. apply elem_of_app. now left.
Qed.

Lemma required_before l r l1 o t t' :
  accepts no_msgs l = Some r -> accepted_at l1 o t l -> t' ∈ requires o t -> before t' t l.
Proof.
  intros H A Hr. destruct (gate_at _ _ _ _ _ H A) as (_ & _ & _ & R & _). destruct A as (l2 & ->).
  exists l1, o, l2. auto.
Qed.

#[local] Ltac in_list :=
  unfold requires, excludes; cbn -[opt isServer isClient elem_of]; cbn [opt negb orb andb app];
  rewrite ?elem_of_app, ?elem_of_cons, ?elem_of_app, ?elem_of_cons; tauto.

(** The Certificate of either side comes before the messages it may not follow. *)
Lemma certificate_first l r t s : accepts no_msgs l = Some r -> Forall (fun x => side x.1 = s) l ->
  certificate ∈ types l -> t ∈ types l ->
  (s = WOLFSSL_SERVER_END /\ t = client_key_exchange \/
   s = WOLFSSL_CLIENT_END /\ t ∈ [certificate_status; server_key_exchange; certificate_request; server_hello_done]) ->
  before certificate t l.
Proof.
  intros H F Hc Ht K. apply (excluded_before l r); auto.
  - destruct K as [[_ ->] | [_ K]]; [discriminate |]. rewrite !elem_of_cons in K.
    destruct K as [-> | [-> | [-> | [-> | K]]]]; [discriminate .. | inversion K].
  - intros l1 o A. destruct (accepted_side _ _ _ _ _ F A) as [So _].
    destruct K as [[-> ->] | [-> K]].
    + assert (Is : isServer o = true) by (unfold isServer; now rewrite So). unfold excludes. cbn -[opt elem_of]. rewrite Is. in_list.
    + assert (Ic : isClient o = true) by (unfold isClient; now rewrite So). unfold excludes. cbn -[opt elem_of]. rewrite Ic.
      repeat (apply elem_of_cons in K as [-> | K]; [in_list |]). inversion K.
Qed.

(** [C7] Full handshake on a server, the options changing from message to message
    as the handlers change them: if the client's Finished is accepted, the
    ChangeCipherSpec came before it and the ClientHello before that.  If no session was
    being resumed at the ChangeCipherSpec, the ClientKeyExchange came before it and after the
    ClientHello, and a server that, at the ClientKeyExchange, verifies its peer
    under a cipher suite that is neither PSK nor anonymous, and is not resuming, already had the
    client's Certificate.  If, at the ChangeCipherSpec, the server verifies
    its peer and has a peer certificate, the CertificateVerify was checked
    and came before it, after the Certificate and the ClientKeyExchange in this order. *)
Theorem server_full_handshake l r :
  accepts no_msgs l = Some r -> Forall (fun x => side x.1 = WOLFSSL_SERVER_END) l -> finished ∈ types l ->
  before change_cipher_hs finished l /\
  exists l1 oc, accepted_at l1 oc change_cipher_hs l /\ client_hello ∈ types l1 /\
    (resuming oc = false ->
       exists l2 ok, accepted_at l2 ok client_key_exchange l1 /\ client_hello ∈ types l2 /\
         (resuming ok = false -> verifyPeer ok = true -> usingPSK_cipher ok = false -> usingAnon_cipher ok = false ->
          before client_hello certificate l2)) /\
    (verifyPeer oc = true -> havePeerCert oc = true -> havePeerVerify oc = true /\
       exists l2 ov, accepted_at l2 ov certificate_verify l1 /\ before client_hello certificate l2 /\
         before certificate client_key_exchange l2).
Proof.
  intros H F Hf. destruct (accepted_at_intro _ _ Hf) as (lf & og & Af).
  assert (B : before change_cipher_hs finished l) by (eapply required_before; eauto; in_list).
  split; [exact B |]. destruct (accepted_at_intro _ _ (before_elem _ _ _ B)) as (l1 & oc & Ac).
  destruct (accepted_side _ _ _ _ _ F Ac) as [Sc F1]. assert (Is : isServer oc = true) by (unfold isServer; now rewrite Sc).
  destruct (gate_at _ _ _ _ _ H Ac) as (m & H1 & G & R & _ & C). exists l1, oc. split; [exact Ac |].
  unfold requires in R. cbn -[opt elem_of] in R. rewrite Is in R. cbn [opt] in R.
  assert (Ch : forall l2 o2 m2, Forall (fun x => side x.1 = WOLFSSL_SERVER_END) l2 -> accepts no_msgs l2 = Some m2 ->
            accepted_at o2.1 o2.2 certificate l2 -> before client_hello certificate l2).
  { intros l2 [l3 o2] m2 F2 H2 A2. destruct (accepted_side _ _ _ _ _ F2 A2) as [S2 _].
    eapply required_before; [exact H2 | exact A2 |]. cbn in S2. unfold requires. cbn -[opt elem_of]. unfold isServer. rewrite S2. in_list. }
  split; [apply R; in_list |]. split.
  - intros Hr. rewrite Hr in R. assert (K : client_key_exchange ∈ types l1) by (apply R; in_list).
    destruct (accepted_at_intro _ _ K) as (l2 & ok & Ak). destruct (gate_at _ _ _ _ _ H1 Ak) as (m2 & H2 & _ & R2 & _).
    destruct (accepted_side _ _ _ _ _ F1 Ak) as [_ F2]. exists l2, ok. split; [exact Ak |]. split; [apply R2; in_list |].
    intros E1 E2 E3 E4. assert (Kc : certificate ∈ types l2) by (apply R2; unfold requires; cbn -[opt elem_of]; rewrite E1, E2, E3, E4; in_list).
    destruct (accepted_at_intro _ _ Kc) as (l3 & o3 & A3). exact (Ch l2 (l3, o3) m2 F2 H2 A3).
  - intros Hv Hc. rewrite Hv, Hc in R. cbn [andb opt] in R. split.
    + unfold condition in C. cbn -[isServer isClient] in C. rewrite Is, Hv, Hc in C. apply andb_true_iff in C as [_ C].
      destruct (havePeerVerify oc); [reflexivity | discriminate].
    + assert (K : certificate_verify ∈ types l1) by (apply R; in_list).
      destruct (accepted_at_intro _ _ K) as (l2 & ov & Av). destruct (gate_at _ _ _ _ _ H1 Av) as (m2 & H2 & _ & R2 & _).
      destruct (accepted_side _ _ _ _ _ F1 Av) as [_ F2]. exists l2, ov. split; [exact Av |].
      assert (Kc : certificate ∈ types l2) by (apply R2; in_list).
      destruct (accepted_at_intro _ _ Kc) as (l3 & o3 & A3). split; [exact (Ch l2 (l3, o3) m2 F2 H2 A3) |].
      apply (certificate_first l2 m2 _ WOLFSSL_SERVER_END); auto. apply R2. in_list.
Qed.

(** Options of a server whose peer certificate, its verification and the client's
    state are set on the way. *)
Definition server_options (cert verify : bool) (client : Z) : HsOptions :=
  mkHsOptions WOLFSSL_SERVER_END false false true cert verify false false
    ecc_diffie_hellman_kea false None false false 0 0 false false false 0 0 0 client.

Lemma server_full_handshake_witness :
  let l := [(server_options false false 0, client_hello); (server_options false false 1, certificate);
            (server_options true false 1, client_key_exchange); (server_options true false 2, certificate_verify);
            (server_options true true 2, change_cipher_hs); (server_options true true 2, finished)] in
  (exists r, accepts no_msgs l = Some r) /\ before change_cipher_hs finished l /\
  exists l1 oc, accepted_at l1 oc change_cipher_hs l /\
    (resuming oc = false -> exists l2 ok, accepted_at l2 ok client_key_exchange l1 /\ client_hello ∈ types l2) /\
    (verifyPeer oc = true -> havePeerCert oc = true -> havePeerVerify oc = true).
Proof.
  intros l.
  assert (F : Forall (fun x => side x.1 = WOLFSSL_SERVER_END) l) by (repeat constructor).
  assert (Hf : finished ∈ types l) by (apply among_spec; reflexivity).
  destruct (accepts no_msgs l) as [r |] eqn:E; [| vm_compute in E; discriminate].
  split; [now exists r |]. destruct (server_full_handshake l r E F Hf) as (B & l1 & oc & A & _ & K & V).
  split; [exact B |]. exists l1, oc. split; [exact A |]. split; [| intros Hv Hc; exact (proj1 (V Hv Hc))].
  intros Hr. destruct (K Hr) as (l2 & ok & Ak & Ch & _). exists l2, ok. split; [exact Ak | exact Ch].
Defined.

(** The suites whose ServerHelloDone needs no ServerKeyExchange before it: static
    ECDH, RSA key transport, and PSK when the server sends no hint. *)
Definition no_server_key_exchange (o : HsOptions) : bool :=
  static_ecdh o || kea_is (kea o) rsa_kea || (kea_is (kea o) psk_kea && bool_decide (server_hint o = Some 0)).

(** [C30] Full handshake on a client, the options changing from message to message:
    if the server's Finished is accepted, the ChangeCipherSpec came before it and the
    ServerHello before that; no session ticket was still due.  If no session was being resumed at the
    ChangeCipherSpec, the ServerHelloDone came before it, and before that: the Certificate, after the
    ServerHello, unless the suite is then a PSK or anonymous one; the
    ServerKeyExchange, after the ServerHello (and the Certificate, with the same
    exemption), unless the suite does without one; the CertificateStatus when stapling is
    required and no status was requested; and every CertificateRequest or
    CertificateStatus received, after the Certificate. *)
Theorem client_full_handshake l r :
  accepts no_msgs l = Some r -> Forall (fun x => side x.1 = WOLFSSL_CLIENT_END) l -> finished ∈ types l ->
  before change_cipher_hs finished l /\
  exists l1 oc, accepted_at l1 oc change_cipher_hs l /\ server_hello ∈ types l1 /\ expect_session_ticket oc = false /\
    (resuming oc = false ->
       exists l2 od, accepted_at l2 od server_hello_done l1 /\
         (psk_kea_cipher od || usingAnon_cipher od = false -> before server_hello certificate l2) /\
         (no_server_key_exchange od = false ->
            exists l3 os, accepted_at l3 os server_key_exchange l2 /\ server_hello ∈ types l3 /\
              (psk_kea_cipher os || usingAnon_cipher os = false -> before server_hello certificate l3)) /\
         (ocspMustStaple od = true -> status_request od || status_request_v2 od = false -> certificate_status ∈ types l2) /\
         forall t, t ∈ types l1 -> t = certificate_request \/ t = certificate_status -> before certificate t l2).
Proof.
  intros H F Hf. destruct (accepted_at_intro _ _ Hf) as (lf & og & Af).
  assert (B : before change_cipher_hs finished l) by (eapply required_before; eauto; in_list).
  split; [exact B |]. destruct (accepted_at_intro _ _ (before_elem _ _ _ B)) as (l1 & oc & Ac).
  destruct (accepted_side _ _ _ _ _ F Ac) as [Sc F1]. assert (Ic : isClient oc = true) by (unfold isClient; now rewrite Sc).
  destruct (gate_at _ _ _ _ _ H Ac) as (m & H1 & _ & R & _ & C). exists l1, oc. split; [exact Ac |].
  unfold requires in R. cbn -[opt elem_of] in R. rewrite Ic in R. cbn [opt] in R. split; [apply R; in_list |]. split.
  { unfold condition in C. cbn -[isServer isClient] in C. rewrite Ic in C. apply andb_true_iff in C as [C _].
    now destruct (expect_session_ticket oc). }
  intros Hr. rewrite Hr in R. assert (K : server_hello_done ∈ types l1) by (apply R; in_list).
  destruct (accepted_at_intro _ _ K) as (l2 & od & Ad). destruct (gate_at _ _ _ _ _ H1 Ad) as (m2 & H2 & G2 & R2 & _ & C2).
  destruct (accepted_side _ _ _ _ _ F1 Ad) as [_ F2]. exists l2, od. split; [exact Ad |].
  assert (Sh : forall l' m', Forall (fun x => side x.1 = WOLFSSL_CLIENT_END) l' -> accepts no_msgs l' = Some m' ->
            certificate ∈ types l' -> before server_hello certificate l').
  { intros l' m' F' H' K'. destruct (accepted_at_intro _ _ K') as (l3 & o3 & A3). destruct (accepted_side _ _ _ _ _ F' A3) as [S3 _].
    eapply required_before; [exact H' | exact A3 |]. unfold requires. cbn -[opt elem_of]. unfold isClient. rewrite S3. in_list. }
  split; [| split; [| split]].
  - intros E. apply (Sh _ m2); auto. apply R2. unfold requires. cbn -[opt elem_of]. rewrite E. in_list.
  - unfold no_server_key_exchange. intros E.
    assert (Ks : server_key_exchange ∈ types l2) by (apply R2; unfold requires; cbn -[opt elem_of]; rewrite E; in_list).
    destruct (accepted_at_intro _ _ Ks) as (l3 & os & As). destruct (gate_at _ _ _ _ _ H2 As) as (m3 & H3 & _ & R3 & _).
    destruct (accepted_side _ _ _ _ _ F2 As) as [_ F3]. exists l3, os. split; [exact As |]. split; [apply R3; in_list |].
    intros E3. apply (Sh _ m3); auto. apply R3. unfold requires. cbn -[opt elem_of]. rewrite E3. in_list.
  - intros Em Es. apply G2. unfold condition in C2. cbn -[got isServer isClient csr_lookup] in C2. rewrite Em in C2.
    change (got_certificate_status m2 || (((csr_lookup od =? 0) || negb (ocspEnabled od || true)) &&
      (status_request od || status_request_v2 od || negb true)) = true) in C2.
    rewrite Es, andb_false_r, orb_false_r in C2. exact C2.
  - intros t Ht Et. assert (T2 : t ∈ types l2).
    { destruct (excluded_before l1 m server_hello_done t H1 K Ht) as (x & o & y & E & Hx).
      - destruct Et as [-> | ->]; discriminate.
      - intros x o _. destruct Et as [-> | ->]; in_list.
      - destruct Ad as (z & E'). exact (unique_prefix l1 m server_hello_done x o y l2 od z H1 E E' t Hx). }
    destruct (accepted_at_intro _ _ T2) as (l3 & o3 & A3).
    eapply required_before; [exact H2 | exact A3 |]. destruct Et as [-> | ->]; in_list.
Qed.

Definition client_options (resuming : bool) (server : Z) : HsOptions :=
  mkHsOptions WOLFSSL_CLIENT_END false resuming true (negb (server =? 0)) false false false
    ecc_diffie_hellman_kea false None false false 0 0 false false false 0 0 server 0.

Lemma client_full_handshake_witness :
  let l := [(client_options true 0, server_hello); (client_options false 1, certificate); (client_options false 2, server_key_exchange);
            (client_options false 2, server_hello_done); (client_options false 3, change_cipher_hs); (client_options false 3, finished)] in
  (exists r, accepts no_msgs l = Some r) /\ before change_cipher_hs finished l /\
  exists l1 oc, accepted_at l1 oc change_cipher_hs l /\
    (resuming oc = false -> exists l2 od, accepted_at l2 od server_hello_done l1 /\
       (psk_kea_cipher od || usingAnon_cipher od = false -> before server_hello certificate l2)).
Proof.
  intros l.
  assert (F : Forall (fun x => side x.1 = WOLFSSL_CLIENT_END) l) by (repeat constructor).
  assert (Hf : finished ∈ types l) by (apply among_spec; reflexivity).
  destruct (accepts no_msgs l) as [r |] eqn:E; [| vm_compute in E; discriminate].
  split; [now exists r |]. destruct (client_full_handshake l r E F Hf) as (B & l1 & oc & A & _ & _ & K).
  split; [exact B |]. exists l1, oc. split; [exact A |].
  intros Hr. destruct (K Hr) as (l2 & od & Ad & Ce & _). exists l2, od. split; [exact Ad | exact Ce].
Defined.

(** A message passes [DoHandShakeMsgType]'s gate exactly when it lies
    within the input, the table accepts it, and the connection is in a state
    for it: not after the handshake except for a HelloRequest, first from the
    server a ServerHello (or HelloRequest), first from the client a
    ClientHello.  A message the table accepts but the state does not is
    refused with exactly one alert, fatal unless it is a renegotiation
    attempt. *)
Theorem DoHandShakeMsgType_gate_spec o type idx size total m :
  let '(r, m', alerts) := DoHandShakeMsgType_gate o type idx size total m in
  let fits := negb (total <? u32 (idx + size)) in
  let state_ok :=
    ((type =? hello_request) || negb (handShakeState o =? HANDSHAKE_DONE)) &&
    negb (isClient o && negb (dtls o) && (serverState o =? NULL_STATE) &&
          negb (type =? server_hello) && negb (type =? hello_request)) &&
    negb (isClient o && dtls o && (type =? server_hello_done) && (serverState o <? SERVER_HELLO_COMPLETE)) &&
    negb (isServer o && (clientState o =? NULL_STATE) && negb (type =? client_hello)) in
  (r = 0 <-> fits = true /\ acceptable o m type = true /\ state_ok = true) /\
  (alerts = [] \/ fits = true /\ acceptable o m type = true /\ state_ok = false /\
     (alerts = [(alert_fatal, unexpected_message)] /\ r = OUT_OF_ORDER_E \/
      alerts = [(alert_warning, no_renegotiation)] /\ r = SECURE_RENEGOTIATION_E)).
Proof.
  unfold DoHandShakeMsgType_gate. pose proof (sanity_spec o type m) as S.
  destruct (total <? u32 (idx + size)); [split; [split; [discriminate | intros (? & _); discriminate] | now left] |].
  destruct (SanityCheckMsgReceived o type m) as [ret m'], (acceptable o m type).
  2: { cbn in S. destruct (Z.eqb_spec ret 0); [contradiction |]. cbn [negb].
       split; [split; [congruence | intros (_ & ? & _); discriminate] | now left]. }
  injection S as -> ->. cbn [Z.eqb negb].
  assert (Hc : (type =? client_hello) = true -> (type =? hello_request) = false)
    by (intros ->%Z.eqb_eq; reflexivity).
  destruct (type =? client_hello); [rewrite (Hc eq_refl) | destruct (type =? hello_request)];
    destruct (handShakeState o =? HANDSHAKE_DONE), (isServer o), (isClient o); cbn [andb orb negb];
    repeat (case_match; simplify_eq; cbn [andb orb negb]); (split; [split; auto; try discriminate |]);
    try (intros (_ & _ & ?); discriminate); auto 10.
Qed.
