(* ===== verification/Handshake13.v ===== *)
(** * src/tls13.c: the TLS 1.3 handshake message gate

    [SanityCheckTls13MsgReceived] runs on every TLS 1.3 (and DTLS 1.3)
    handshake message before it is processed.  Unlike the TLS 1.2 gate it
    decides mostly on [serverState]/[clientState], which the message handlers
    advance; [client_run] pairs the gate with the client's
    state changes.  [DoTls13HandShakeMsgType_gate] is the part of
    [DoTls13HandShakeMsgType] before the message is processed.  The build modelled has client and server, PSK and session
    tickets, early data, post-handshake authentication, certificates with
    external PSKs, QUIC and DTLS 1.3 with connection IDs, and is built
    without [WOLFSSL_TLS13_TICKET_BEFORE_FINISHED]. *)

From Stdlib Require Import Setoid Bool.
From S2P Require Import Prelude Tls.

#[local] Open Scope Z_scope.
#[local] Open Scope cstmt_scope.

Definition CLIENT_HELLO_SENT : Z := 1.
Definition DTLSv1_2_MINOR : Z := 0xfd.
Definition process_early_data : Z := 3.
Definition protocol_version : Z := 70.

(** What the gate reads.  [cid] is [ssl->dtlsCidInfo]: negotiated, and the
    lengths of the receive and transmit IDs (0 for a NULL one). *)
Record Tls13Options := mkTls13 {
  side : Z; dtls : bool; quic : bool;
  serverState : Z; clientState : Z; connectState : Z; handShakeState : Z;
  pskNegotiated : bool; certWithExternPsk : bool;
  verifyPeer : bool; mutualAuth : bool; havePeerCert : bool; havePeerVerify : bool;
  postHandshakeAuth : bool; verifyPostHandshake : bool; certReqCtx : bool;
  earlyData : Z; downgrade : bool; minDowngrade : Z;
  cid : option (bool * Z * Z) }.

Section Gate.
Variable o : Tls13Options.

Definition isServer : bool := side o =? WOLFSSL_SERVER_END.
Definition isClient : bool := side o =? WOLFSSL_CLIENT_END.

(** A PSK handshake in which the server must not send certificates. *)
Definition psk_only : bool := pskNegotiated o && negb (certWithExternPsk o).

Definition check_client_hello : stmt MsgsReceived :=
  IF (fun _ => isClient) RETURN (SIDE_ERROR) ;;
  IF (fun _ => CLIENT_HELLO_COMPLETE <=? clientState o) RETURN (OUT_OF_ORDER_E) ;;
  IF (fun m => got_client_hello m =? 2) RETURN (DUPLICATE_MSG_E) ;;
  IF (fun m => (got_client_hello m =? 1) &&
               negb (serverState o =? SERVER_HELLO_RETRY_REQUEST_COMPLETE)) RETURN (DUPLICATE_MSG_E) ;;
  assign (fun m => { m with got_client_hello := wrap 2 (got_client_hello m + 1) }).

Definition check_server_hello : stmt MsgsReceived :=
  IF (fun _ => isServer) RETURN (SIDE_ERROR) ;;
  IF (fun _ => SERVER_HELLO_COMPLETE <=? serverState o) RETURN (OUT_OF_ORDER_E) ;;
  IF (fun m => got_server_hello m) RETURN (DUPLICATE_MSG_E) ;;
  assign (fun m => { m with got_server_hello := true }).

Definition check_session_ticket : stmt MsgsReceived :=
  IF (fun _ => isServer) RETURN (SIDE_ERROR) ;;
  IF (fun _ => clientState o <? CLIENT_FINISHED_COMPLETE) RETURN (OUT_OF_ORDER_E) ;;
  assign (fun m => { m with got_session_ticket := true }).

Definition check_end_of_early_data : stmt MsgsReceived :=
  IF (fun _ => isClient) RETURN (SIDE_ERROR) ;;
  IF (fun _ => serverState o <? SERVER_FINISHED_COMPLETE) RETURN (OUT_OF_ORDER_E) ;;
  IF (fun _ => CLIENT_FINISHED_COMPLETE <=? clientState o) RETURN (OUT_OF_ORDER_E) ;;
  IF (fun m => got_end_of_early_data m) RETURN (DUPLICATE_MSG_E) ;;
  assign (fun m => { m with got_end_of_early_data := true }).

Definition check_encrypted_extensions : stmt MsgsReceived :=
  IF (fun _ => isServer) RETURN (SIDE_ERROR) ;;
  IF (fun _ => negb (serverState o =? SERVER_HELLO_COMPLETE)) RETURN (OUT_OF_ORDER_E) ;;
  IF (fun m => got_encrypted_extensions m) RETURN (DUPLICATE_MSG_E) ;;
  assign (fun m => { m with got_encrypted_extensions := true }).

Definition check_certificate : stmt MsgsReceived :=
  IF (fun _ => isClient && negb (serverState o =? SERVER_ENCRYPTED_EXTENSIONS_COMPLETE))
    RETURN (OUT_OF_ORDER_E) ;;
  IF (fun _ => isClient && (serverState o =? SERVER_CERT_COMPLETE) && pskNegotiated o &&
               negb (certWithExternPsk o)) RETURN (SANITY_MSG_E) ;;
  IF (fun _ => isServer && negb (clientState o =? CLIENT_HELLO_COMPLETE) &&
               (serverState o <? SERVER_FINISHED_COMPLETE)) RETURN (OUT_OF_ORDER_E) ;;
  IF (fun m => got_certificate m) RETURN (DUPLICATE_MSG_E) ;;
  assign (fun m => { m with got_certificate := true }).

Definition check_certificate_request : stmt MsgsReceived :=
  IF (fun _ => isServer) RETURN (SIDE_ERROR) ;;
  IF (fun _ => negb (serverState o =? SERVER_ENCRYPTED_EXTENSIONS_COMPLETE) &&
               ((serverState o <? SERVER_FINISHED_COMPLETE) ||
                negb (clientState o =? CLIENT_FINISHED_COMPLETE))) RETURN (OUT_OF_ORDER_E) ;;
  IF (fun _ => (SERVER_FINISHED_COMPLETE <=? serverState o) &&
               (clientState o =? CLIENT_FINISHED_COMPLETE) && negb (postHandshakeAuth o))
    RETURN (OUT_OF_ORDER_E) ;;
  IF (fun _ => psk_only) RETURN (SANITY_MSG_E) ;;
  IF (fun m => got_certificate_request m && negb (clientState o =? CLIENT_FINISHED_COMPLETE))
    RETURN (DUPLICATE_MSG_E) ;;
  assign (fun m => { m with got_certificate_request := true }).

Definition check_certificate_verify : stmt MsgsReceived :=
  WHEN (fun _ => isClient) DO
    IF (fun _ => negb (serverState o =? SERVER_CERT_COMPLETE)) RETURN (OUT_OF_ORDER_E) ;;
    IF (fun _ => psk_only) RETURN (SANITY_MSG_E)
  OD ;;
  WHEN (fun _ => isServer) DO
    IF (fun _ => serverState o <? SERVER_FINISHED_COMPLETE) RETURN (OUT_OF_ORDER_E) ;;
    IF (fun _ => clientState o <? CLIENT_HELLO_COMPLETE) RETURN (OUT_OF_ORDER_E) ;;
    IF (fun m => negb (got_certificate m)) RETURN (OUT_OF_ORDER_E)
  OD ;;
  IF (fun m => got_certificate_verify m) RETURN (DUPLICATE_MSG_E) ;;
  assign (fun m => { m with got_certificate_verify := true }).

Definition check_finished : stmt MsgsReceived :=
  WHEN (fun _ => isClient) DO
    IF (fun _ => clientState o <? CLIENT_HELLO_COMPLETE) RETURN (OUT_OF_ORDER_E) ;;
    IF (fun _ =>
          negb (serverState o =?
                (if pskNegotiated o then
                   if certWithExternPsk o then SERVER_CERT_VERIFY_COMPLETE
                   else SERVER_ENCRYPTED_EXTENSIONS_COMPLETE
                 else SERVER_CERT_VERIFY_COMPLETE))) RETURN (OUT_OF_ORDER_E)
  OD ;;
  WHEN (fun _ => isServer) DO
    IF (fun _ => serverState o <? SERVER_FINISHED_COMPLETE) RETURN (OUT_OF_ORDER_E) ;;
    IF (fun _ => clientState o <? CLIENT_HELLO_COMPLETE) RETURN (OUT_OF_ORDER_E) ;;
    IF (fun _ => (earlyData o =? process_early_data) && negb (dtls o) && negb (quic o))
      RETURN (OUT_OF_ORDER_E)
  OD ;;
  WHEN (fun _ => negb (pskNegotiated o) || certWithExternPsk o) DO
    IF (fun m => verifyPeer o &&
                 (negb (verifyPostHandshake o) || (isServer && certReqCtx o)) &&
                 negb (got_certificate m)) RETURN (OUT_OF_ORDER_E) ;;
    IF (fun _ => (mutualAuth o || (isClient && verifyPeer o)) && negb (havePeerCert o))
      RETURN (OUT_OF_ORDER_E) ;;
    IF (fun _ => (mutualAuth o || verifyPeer o) && havePeerCert o && negb (havePeerVerify o))
      RETURN (OUT_OF_ORDER_E)
  OD ;;
  IF (fun m => got_finished m) RETURN (DUPLICATE_MSG_E) ;;
  assign (fun m => { m with got_finished := true }).

Definition check_key_update : stmt MsgsReceived :=
  IF (fun _ => quic o) RETURN (SANITY_MSG_E) ;;
  IF (fun m => negb (got_finished m)) RETURN (OUT_OF_ORDER_E).

Definition check_hello_verify_request : stmt MsgsReceived :=
  IF (fun _ => negb (dtls o)) RETURN (OUT_OF_ORDER_E) ;;
  IF (fun m => got_hello_verify_request m) RETURN (DUPLICATE_MSG_E) ;;
  assign (fun m => { m with got_hello_verify_request := true }) ;;
  IF (fun m => got_hello_retry_request m) RETURN (DUPLICATE_MSG_E) ;;
  IF (fun _ => (SERVER_HELLO_RETRY_REQUEST_COMPLETE <=? serverState o) ||
               negb (connectState o =? CLIENT_HELLO_SENT)) RETURN (OUT_OF_ORDER_E) ;;
  IF (fun _ => isServer) RETURN (SIDE_ERROR) ;;
  IF (fun _ => negb (downgrade o) || (minDowngrade o <? DTLSv1_2_MINOR)) RETURN (VERSION_ERROR).

Definition check_connection_id (request : bool) : stmt MsgsReceived :=
  let '(negotiated, rx, tx) := default (false, 0, 0) (cid o) in
  IF (fun _ => negb (dtls o)) RETURN (SANITY_MSG_E) ;;
  IF (fun _ => negb negotiated) RETURN (SANITY_MSG_E) ;;
  IF (fun _ => negb (handShakeState o =? HANDSHAKE_DONE)) RETURN (OUT_OF_ORDER_E) ;;
  IF (fun _ => if request then rx =? 0 else tx =? 0) RETURN (SANITY_MSG_E).

Definition dispatch (type : Z) : stmt MsgsReceived :=
  if type =? client_hello then check_client_hello
  else if type =? server_hello then check_server_hello
  else if type =? session_ticket then check_session_ticket
  else if type =? end_of_early_data then check_end_of_early_data
  else if type =? encrypted_extensions then check_encrypted_extensions
  else if type =? certificate then check_certificate
  else if type =? certificate_request then check_certificate_request
  else if type =? certificate_verify then check_certificate_verify
  else if type =? finished then check_finished
  else if type =? key_update then check_key_update
  else if type =? hello_verify_request then check_hello_verify_request
  else if type =? request_connection_id then check_connection_id true
  else if type =? new_connection_id then check_connection_id false
  else ret SANITY_MSG_E.

Definition SanityCheckTls13MsgReceived (type : Z) (m : MsgsReceived) : Z * MsgsReceived :=
  run 0 (dispatch type) m.

(** The messages that may come once the handshake is done, and the first
    ones a client takes. *)
Definition after_handshake (type : Z) : bool :=
  (type =? session_ticket) || (type =? certificate_request) || (type =? certificate) ||
  (type =? key_update) || (type =? finished) ||
  (type =? request_connection_id) || (type =? new_connection_id).

Definition first_from_server (type : Z) : bool :=
  (type =? server_hello) || (type =? hello_retry_request) ||
  (dtls o && (type =? hello_verify_request)).

(** The alert sent when the gate refuses. *)
Definition gate_alert (ret : Z) : Z :=
  if ret =? VERSION_ERROR then protocol_version else unexpected_message.

(** The part of [DoTls13HandShakeMsgType] before the message is processed.
    The list holds the alerts sent, as (level, code). *)
Definition DoTls13HandShakeMsgType_gate (type inOutIdx size totalSz : Z) (m : MsgsReceived)
    : Z * MsgsReceived * list (Z * Z) :=
  if totalSz <? u32 (inOutIdx + size) then (INCOMPLETE_DATA, m, [])
  else
    let '(ret, m) := SanityCheckTls13MsgReceived type m in
    if negb (ret =? 0) then (ret, m, [(alert_fatal, gate_alert ret)])
    else if (handShakeState o =? HANDSHAKE_DONE) && negb (after_handshake type) then
      (OUT_OF_ORDER_E, m, [(alert_fatal, unexpected_message)])
    else if isClient && (serverState o =? NULL_STATE) && negb (first_from_server type) then
      (OUT_OF_ORDER_E, m, [(alert_fatal, unexpected_message)])
    else if isServer && (clientState o =? NULL_STATE) && negb (type =? client_hello) then
      (OUT_OF_ORDER_E, m, [(alert_fatal, unexpected_message)])
    else (0, m, []).

End Gate.

(** ** Following the statements of a check *)

(** Turn "the check returned 0" into the guards it passed. *)
#[local] Ltac passed H :=
  repeat (lazymatch type of H with
    | run 0 ((_ ;; _) ;; _) _ = _ => rewrite run0_assoc in H
    | run 0 (when _ (ret _) ;; _) _ = _ =>
        let G := fresh "G" in rewrite run0_if in H by discriminate; destruct H as [G H]; cbv beta in G
    | run 0 (when _ (ret _)) _ = _ =>
        let G := fresh "G" in rewrite run0_if_last in H by discriminate; destruct H as [G H]; cbv beta in G
    | run 0 (assign _ ;; _) _ = _ => rewrite run0_assign in H
    | run 0 (assign _) _ = _ => rewrite run0_assign_last in H
    | run 0 (when _ _ ;; _) _ = _ => rewrite run0_when in H; cbv beta iota in H
    | if ?b then _ else _ => let G := fresh "G" in destruct b eqn:G
    end).

(** ** The client's flight *)

(** Whether a message that the client's handler finished well lets the
    handshake continue; [hrr]: the ServerHello carries the random value that
    marks it as a HelloRetryRequest. *)
Definition hello_retry_check (m : MsgsReceived) (hrr : bool) : Z :=
  if hrr then
    if got_hello_verify_request m then VERSION_ERROR
    else if got_hello_retry_request m then DUPLICATE_MSG_E else 0
  else 0.

Definition hello_retry_marks (m : MsgsReceived) (hrr : bool) : MsgsReceived :=
  if hrr then { { m with got_hello_retry_request := true } with got_server_hello := false } else m.

Definition server_hello_state (hrr : bool) : Z :=
  if hrr then SERVER_HELLO_RETRY_REQUEST_COMPLETE else SERVER_HELLO_COMPLETE.

(** The [serverState] after the other messages of the server's flight. *)
Definition client_next_state (st type : Z) : Z :=
  if type =? encrypted_extensions then SERVER_ENCRYPTED_EXTENSIONS_COMPLETE
  else if type =? certificate then SERVER_CERT_COMPLETE
  else if type =? certificate_verify then SERVER_CERT_VERIFY_COMPLETE
  else if type =? finished then SERVER_FINISHED_COMPLETE
  else st.

Definition client_handler (st : Z) (m : MsgsReceived) (type : Z) (hrr : bool) : Z * (Z * MsgsReceived) :=
  if type =? server_hello then
    let r := hello_retry_check m hrr in
    if r =? 0 then (0, (server_hello_state hrr, hello_retry_marks m hrr)) else (r, (st, m))
  else (0, (client_next_state st type, m)).

(** A message as the client sees it: the options when it arrives, its type
    and whether a ServerHello is a HelloRetryRequest. *)
Abbreviation msg := (Tls13Options * Z * bool)%type.

(** A run of the client over incoming messages: the gate with the current
    [serverState], then the handler; [None] once either refuses. *)
Fixpoint client_run (st : Z) (m : MsgsReceived) (l : list msg) : option (Z * MsgsReceived) :=
  match l with
  | [] => Some (st, m)
  | (o, type, hrr) :: l =>
      match SanityCheckTls13MsgReceived { o with serverState := st } type m with
      | (0, m) =>
          match client_handler st m type hrr with
          | (0, (st, m)) => client_run st m l
          | _ => None
          end
      | _ => None
      end
  end.

Definition types (l : list msg) : list Z := (fun x => x.1.2) <$> l.

(** A TLS 1.3 client in its initial handshake: it has not yet sent its
    Finished, and from the ServerHello on it is settled whether the server
    authenticates by a PSK alone ([psk]). *)
Definition initial_client (psk : bool) (x : msg) : Prop :=
  side x.1.1 = WOLFSSL_CLIENT_END /\ dtls x.1.1 = false /\
  clientState x.1.1 < CLIENT_FINISHED_COMPLETE /\
  (x.1.2 <> server_hello -> psk_only x.1.1 = psk).

(** The message types the gate lets through to such a client, by state. *)
Definition expected (psk : bool) (st : Z) (m : MsgsReceived) (t : Z) : Prop :=
  (t = server_hello /\ st < SERVER_HELLO_COMPLETE) \/
  (t = encrypted_extensions /\ st = SERVER_HELLO_COMPLETE) \/
  (t = certificate_request /\ st = SERVER_ENCRYPTED_EXTENSIONS_COMPLETE /\ psk = false /\
   got_certificate_request m = false) \/
  (t = certificate /\ st = SERVER_ENCRYPTED_EXTENSIONS_COMPLETE) \/
  (t = certificate_verify /\ st = SERVER_CERT_COMPLETE /\ psk = false) \/
  (t = finished /\ st = if psk then SERVER_ENCRYPTED_EXTENSIONS_COMPLETE else SERVER_CERT_VERIFY_COMPLETE) \/
  (t = key_update /\ got_finished m = true).


#[local] Ltac states :=
  unfold NULL_STATE, SERVER_HELLO_RETRY_REQUEST_COMPLETE, SERVER_HELLO_COMPLETE,
    SERVER_ENCRYPTED_EXTENSIONS_COMPLETE, SERVER_CERT_COMPLETE, SERVER_CERT_VERIFY_COMPLETE,
    SERVER_FINISHED_COMPLETE, CLIENT_HELLO_COMPLETE, CLIENT_FINISHED_COMPLETE in *.

(** Read the guards as propositions. *)
#[local] Ltac guards H :=
  rewrite ?andb_false_iff, ?orb_false_iff, ?negb_false_iff, ?negb_true_iff, ?Z.eqb_eq, ?Z.eqb_neq,
    ?Z.leb_gt, ?Z.ltb_ge in H.

Lemma client_gate o st m t m' :
  side o = WOLFSSL_CLIENT_END -> dtls o = false -> clientState o < CLIENT_FINISHED_COMPLETE ->
  SanityCheckTls13MsgReceived { o with serverState := st } t m = (0, m') ->
  expected (psk_only o) st m t.
Proof.
  intros Hs Hd Hc H. unfold SanityCheckTls13MsgReceived, dispatch in H. destruct o as [? ? ? ? ? ? ? pn ce ? ? ? ? ? ? ? ? ? ? ci].
  cbn in Hs, Hd, Hc. subst. unfold psk_only in *. cbn in *. unfold expected.
  repeat match type of H with
         | run 0 (if ?a =? ?b then _ else _) _ = _ => destruct (Z.eqb_spec a b) as [-> |]
         end;
  unfold check_client_hello, check_server_hello, check_session_ticket, check_end_of_early_data,
    check_encrypted_extensions, check_certificate, check_certificate_request, check_certificate_verify,
    check_finished, check_key_update, check_hello_verify_request, check_connection_id, isServer, isClient,
    psk_only in H;
  cbn -[Z.eqb Z.leb Z.ltb run seq when ret assign] in H;
  change (WOLFSSL_CLIENT_END =? WOLFSSL_SERVER_END) with false in H;
  change (WOLFSSL_CLIENT_END =? WOLFSSL_CLIENT_END) with true in H;
  passed H;
  repeat match goal with G : _ = false |- _ => progress (cbn [andb orb negb] in G; guards G) end; states;
  try (exfalso; (discriminate || lia)).
  - left. split; [reflexivity | lia].
  - right; left. auto.
  - do 3 right; left. split; [reflexivity | lia].
  - do 2 right; left. split; [reflexivity |]. split; [destruct G0 as [| [? ?]]; lia |].
    split; [destruct G2 as [-> | ->]; [reflexivity | apply andb_false_r] |].
    destruct G3 as [| ?]; [assumption | lia].
  - do 4 right; left. split; [reflexivity |]. split; [assumption |].
    destruct G0 as [-> | ->]; [reflexivity | apply andb_false_r].
  - do 5 right; left. split; [reflexivity |]. rewrite G0. destruct pn, ce; reflexivity.
  - do 5 right; left. split; [reflexivity |]. rewrite G0. destruct pn, ce; reflexivity.
  - do 6 right. auto.
  - exfalso. destruct (default _ ci) as [[? ?] ?]. passed H. now destruct H.
  - exfalso. destruct (default _ ci) as [[? ?] ?]. passed H. now destruct H.
Qed.

(** How the gate and the handler change the marks the client relies on. *)
Lemma client_marks o st t m m' : SanityCheckTls13MsgReceived { o with serverState := st } t m = (0, m') ->
  (t = finished -> got_finished m' = true) /\ (t <> finished -> got_finished m' = got_finished m) /\
  (t = certificate_request -> got_certificate_request m' = true) /\
  (t <> certificate_request -> got_certificate_request m' = got_certificate_request m) /\
  got_hello_retry_request m' = got_hello_retry_request m.
Proof.
  unfold SanityCheckTls13MsgReceived, dispatch. intros H.
  repeat match type of H with
         | run 0 (if ?a =? ?b then _ else _) _ = _ => destruct (Z.eqb_spec a b) as [-> |]
         end;
  unfold check_client_hello, check_server_hello, check_session_ticket, check_end_of_early_data,
    check_encrypted_extensions, check_certificate, check_certificate_request, check_certificate_verify,
    check_finished, check_key_update, check_hello_verify_request, check_connection_id in H;
  try (destruct (default _ _) as [[? ?] ?]);
  passed H;
  try discriminate H; subst; cbn; repeat split; (discriminate || contradiction || reflexivity || auto).
Qed.

(** One step of a client run, with what the gate and the handler did. *)
Lemma client_run_cons psk x l st m r :
  initial_client psk x -> client_run st m (x :: l) = Some r ->
  expected psk st m x.1.2 /\
  exists m' st' m'', client_run st' m'' l = Some r /\
    client_handler st m' x.1.2 x.2 = (0, (st', m'')) /\
    (x.1.2 = finished -> got_finished m' = true) /\ (x.1.2 <> finished -> got_finished m' = got_finished m) /\
    (x.1.2 = certificate_request -> got_certificate_request m' = true) /\
    (x.1.2 <> certificate_request -> got_certificate_request m' = got_certificate_request m) /\
    got_hello_retry_request m' = got_hello_retry_request m.
Proof.
  destruct x as [[o t] hrr]. unfold initial_client. cbn [client_run fst snd]. intros (Hs & Hd & Hc & Hp) H.
  destruct (SanityCheckTls13MsgReceived _ t m) as [g m'] eqn:E. destruct g; try discriminate.
  pose proof (client_gate o st m t m' Hs Hd Hc E) as G. pose proof (client_marks _ _ _ _ _ E) as M.
  destruct (client_handler st m' t hrr) as [h [st' m'']] eqn:Eh. destruct h; try discriminate.
  split.
  - destruct (Z.eq_dec t server_hello) as [-> | N]; [| now rewrite <- (Hp N)].
    left. repeat destruct G as [G | G]; try exact G; exfalso; destruct G as [G _]; discriminate G.
  - now exists m', st', m''.
Qed.

(** Take one message off a run and keep the cases its state allows. *)
#[local] Ltac step H F :=
  let E := fresh "E" in let x := fresh "x" in let Ht := fresh "Ht" in
  apply Forall_cons_1 in F as [Ht F];
  eapply client_run_cons in H as (E & ? & ? & ? & H & ? & ? & ? & ? & ? & ?); [| exact Ht]; clear Ht;
  match type of E with expected _ _ _ ?x.1.2 => destruct x as [[? ?] ?]; cbn [fst snd] in * end;
  unfold expected in E; repeat destruct E as [E | E]; cbn iota in E; decompose [and] E; clear E; subst;
  repeat match goal with
         | G : ?a <> ?b -> _ |- _ => specialize (G ltac:(discriminate))
         | G : ?a = ?a -> _ |- _ => specialize (G eq_refl)
         end;
  try (exfalso; states; (discriminate || congruence || lia)).

#[local] Ltac handled :=
  match goal with Hh : client_handler _ _ _ _ = _ |- _ => cbn in Hh; injection Hh as <- <- end.

Lemma after_finished psk l m r :
  Forall (initial_client psk) l -> client_run SERVER_FINISHED_COMPLETE m l = Some r ->
  Forall (eq key_update) (types l).
Proof.
  revert m. induction l as [| x l IH]; intros m F H; [constructor |].
  destruct psk; step H F; handled; (constructor; [reflexivity | eapply IH; eassumption]).
Qed.

Lemma finished_next l m r :
  Forall (initial_client false) l -> client_run SERVER_CERT_VERIFY_COMPLETE m l = Some r ->
  got_finished m = false -> finished ∈ types l ->
  exists kus, types l = finished :: kus /\ Forall (eq key_update) kus.
Proof.
  destruct l as [| x l]; intros F H Hf I; [now apply elem_of_nil in I |].
  step H F; handled. exists (types l). split; [reflexivity | eapply after_finished; eassumption].
Qed.

Lemma verify_next l m r :
  Forall (initial_client false) l -> client_run SERVER_CERT_COMPLETE m l = Some r ->
  got_finished m = false -> finished ∈ types l ->
  exists kus, types l = certificate_verify :: finished :: kus /\ Forall (eq key_update) kus.
Proof.
  destruct l as [| x l]; intros F H Hf I; [now apply elem_of_nil in I |].
  step H F; handled. apply elem_of_cons in I as [I | I]; [discriminate |].
  destruct (finished_next l _ r F H) as (kus & Hk & ?); [congruence | assumption |].
  exists kus. split; [| assumption]. cbn. now f_equal.
Qed.

(** After EncryptedExtensions: the certificates, unless a PSK is used. *)
Definition auth_part (psk req : bool) : list Z :=
  if psk then []
  else (if req then [certificate_request] else []) ++ [certificate; certificate_verify].

Lemma certificate_next l m r :
  Forall (initial_client false) l -> client_run SERVER_ENCRYPTED_EXTENSIONS_COMPLETE m l = Some r ->
  got_finished m = false -> finished ∈ types l ->
  exists req kus, (got_certificate_request m = true -> req = false) /\
    types l = auth_part false req ++ finished :: kus /\ Forall (eq key_update) kus.
Proof.
  revert m. induction l as [| x l IH]; intros m F H Hf I; [now apply elem_of_nil in I |].
  step H F; handled; (apply elem_of_cons in I as [I | I]; [discriminate |]).
  - destruct (IH _ F H) as (req & kus & Hr & Hl & ?); [congruence | assumption |].
    rewrite Hr in Hl by assumption. exists true, kus. split; [congruence |].
    split; [| assumption]. cbn. now f_equal.
  - destruct (verify_next l _ r F H) as (kus & Hl & ?); [congruence | assumption |].
    exists false, kus. split; [reflexivity |]. split; [| assumption]. cbn. now f_equal.
Qed.

Lemma auth_next psk l m r :
  Forall (initial_client psk) l -> client_run SERVER_ENCRYPTED_EXTENSIONS_COMPLETE m l = Some r ->
  got_finished m = false -> finished ∈ types l ->
  exists req kus, types l = auth_part psk req ++ finished :: kus /\ Forall (eq key_update) kus.
Proof.
  destruct psk; [| intros; edestruct certificate_next as (req & kus & _ & ?); eauto].
  destruct l as [| x l]; intros F H Hf I; [now apply elem_of_nil in I |].
  step H F; handled.
  - exfalso. apply elem_of_cons in I as [I | I]; [discriminate |].
    destruct l as [| y l]; [now apply elem_of_nil in I |]. step H F.
  - exists false, (types l). split; [reflexivity | eapply after_finished; eassumption].
Qed.

Lemma extensions_next psk l m r :
  Forall (initial_client psk) l -> client_run SERVER_HELLO_COMPLETE m l = Some r ->
  got_finished m = false -> finished ∈ types l ->
  exists req kus, types l = encrypted_extensions :: auth_part psk req ++ finished :: kus /\
    Forall (eq key_update) kus.
Proof.
  destruct l as [| x l]; intros F H Hf I; [now apply elem_of_nil in I |].
  destruct psk; step H F; handled; (apply elem_of_cons in I as [I | I]; [discriminate |]);
    (edestruct auth_next as (req & kus & Hl & ?); [exact F | exact H | congruence | assumption |];
     exists req, kus; split; [cbn; now f_equal | assumption]).
Qed.

(** The flight a client accepts: an optional HelloRetryRequest, then exactly
    these messages in this order. *)
Definition server_flight (hrr psk req : bool) (kus : list Z) : list Z :=
  (if hrr then [server_hello] else []) ++
  [server_hello; encrypted_extensions] ++ auth_part psk req ++ finished :: kus.

Lemma hello_next psk l st m r :
  Forall (initial_client psk) l -> client_run st m l = Some r -> st < SERVER_HELLO_COMPLETE ->
  got_finished m = false -> finished ∈ types l ->
  exists hrr req kus, (got_hello_retry_request m = true -> hrr = false) /\
    types l = server_flight hrr psk req kus /\ Forall (eq key_update) kus.
Proof.
  revert st m. induction l as [| x l IH]; intros st m F H Hst Hf I; [now apply elem_of_nil in I |].
  destruct (decide (x.1.2 = server_hello)) as [Hx |].
  2: { exfalso. destruct psk; step H F; contradiction. }
  unfold types in I. cbn in I. rewrite Hx in I. apply elem_of_cons in I as [I | I]; [discriminate |].
  assert (Ht : forall l', types l = l' -> types (x :: l) = server_hello :: l') by (intros l' <-; unfold types; cbn; now rewrite Hx).
  apply Forall_cons_1 in F as [Hi F].
  eapply client_run_cons in H as (_ & m' & st' & m'' & H & Hh & _ & Hf' & _ & _ & Hr); [| exact Hi].
  rewrite Hx in *. specialize (Hf' ltac:(discriminate)).
  unfold client_handler in Hh. change (server_hello =? server_hello) with true in Hh. cbv iota zeta in Hh.
  destruct (hello_retry_check m' x.2 =? 0) eqn:E; [| injection Hh; intros; lia].
  injection Hh as <- <-. unfold hello_retry_check, server_hello_state, hello_retry_marks in *.
  destruct (x.2).
  - destruct (got_hello_verify_request m'); [discriminate |].
    destruct (got_hello_retry_request m') eqn:Eh; [discriminate |].
    destruct (IH _ _ F H) as (hrr & req & kus & Hn & Hl & ?); [reflexivity | destruct m'; cbn in *; congruence | exact I |].
    rewrite Hn in Hl by (destruct m'; reflexivity). exists true, req, kus. split; [congruence |].
    split; [now apply Ht | assumption].
  - destruct (extensions_next psk l _ r F H) as (req & kus & Hl & ?); [congruence | exact I |].
    exists false, req, kus. split; [reflexivity |]. split; [now apply Ht | assumption].
Qed.

(** [C6] A TLS 1.3 client in its initial handshake only ever reaches a
    Finished through the flight of RFC 8446: at most one HelloRetryRequest,
    ServerHello, EncryptedExtensions, then, unless the server authenticates
    by PSK alone, an optional CertificateRequest, Certificate and
    CertificateVerify, then Finished; and only KeyUpdates follow it.  The
    messages come one by one through the gate and the state changes of their
    handlers. *)
Theorem client_flight psk l r :
  Forall (initial_client psk) l -> client_run NULL_STATE no_msgs l = Some r -> finished ∈ types l ->
  exists hrr req kus, types l = server_flight hrr psk req kus /\ Forall (eq key_update) kus.
Proof.
  intros F H I. edestruct hello_next as (hrr & req & kus & _ & ? & ?);
    [exact F | exact H | reflexivity | reflexivity | exact I |]. now exists hrr, req, kus.
Qed.

(** The options of a client whose peer is authenticated by certificate, or
    by PSK. *)
Definition sample_client (psk : bool) : Tls13Options :=
  mkTls13 WOLFSSL_CLIENT_END false false NULL_STATE CLIENT_HELLO_COMPLETE CLIENT_HELLO_SENT 0
    psk false true false (negb psk) (negb psk) false false false 0 false 0 None.

Definition sample_run (hrr psk req : bool) (kus : list Z) : list msg :=
  (if hrr then [(sample_client psk, server_hello, true)] else []) ++
  ((fun t => (sample_client psk, t, false)) <$> server_flight false psk req kus).

Lemma client_flight_witness :
  exists hrr req kus,
    types (sample_run true false true [key_update]) = server_flight hrr false req kus /\
    Forall (eq key_update) kus.
Proof.
  eapply (client_flight false).
  - repeat constructor.
  - vm_compute. reflexivity.
  - apply list_elem_of_In. vm_compute. tauto.
Defined.

(** ** Flights that are accepted *)

Lemma takes_server_hello o st m :
  side o = WOLFSSL_CLIENT_END -> st < SERVER_HELLO_COMPLETE -> got_server_hello m = false ->
  SanityCheckTls13MsgReceived { o with serverState := st } server_hello m = (0, { m with got_server_hello := true }).
Proof.
  intros Hs Hst Hm. apply Z.leb_gt in Hst. destruct o, m. cbn in Hs, Hm. subst.
  unfold SERVER_HELLO_COMPLETE in Hst. lazy -[Z.leb]. now rewrite Hst.
Qed.

(** What the peer's authentication has left when the client takes the Finished. *)
Definition peer_checked (o : Tls13Options) : Prop :=
  mutualAuth o || verifyPeer o = true -> havePeerCert o = true /\ havePeerVerify o = true.

Lemma takes_finished o psk m :
  side o = WOLFSSL_CLIENT_END -> psk_only o = psk -> CLIENT_HELLO_COMPLETE <= clientState o ->
  (psk = false -> peer_checked o /\ got_certificate m = true) -> got_finished m = false ->
  SanityCheckTls13MsgReceived
    { o with serverState := if psk then SERVER_ENCRYPTED_EXTENSIONS_COMPLETE else SERVER_CERT_VERIFY_COMPLETE } finished m
  = (0, { m with got_finished := true }).
Proof.
  intros Hs Hp Hc Ha Hf. apply Z.ltb_ge in Hc.
  change (run 0 (check_finished { o with serverState := if psk then SERVER_ENCRYPTED_EXTENSIONS_COMPLETE else SERVER_CERT_VERIFY_COMPLETE }) m
          = (0, { m with got_finished := true })).
  destruct o as [? ? ? ? ? ? ? pn ce vp ma pc pv ? vph ? ? ? ? ?], m. unfold psk_only, peer_checked in *. cbn in Hs, Hp, Hc, Ha, Hf. subst.
  destruct (pn && negb ce) eqn:E; [| destruct (Ha eq_refl) as [Hv Hg]; subst; clear Ha];
    (destruct pn, ce; try discriminate E); unfold CLIENT_HELLO_COMPLETE in *; lazy -[Z.ltb]; rewrite Hc; try reflexivity;
    destruct ma, vp; try (destruct (Hv eq_refl) as [-> ->]); destruct vph; reflexivity.
Qed.

(** The other messages of the flight, each in its state. *)
Lemma takes_middle o m :
  side o = WOLFSSL_CLIENT_END ->
  (got_encrypted_extensions m = false ->
   SanityCheckTls13MsgReceived { o with serverState := SERVER_HELLO_COMPLETE } encrypted_extensions m = (0, { m with got_encrypted_extensions := true })) /\
  (psk_only o = false -> got_certificate_request m = false ->
   SanityCheckTls13MsgReceived { o with serverState := SERVER_ENCRYPTED_EXTENSIONS_COMPLETE } certificate_request m
   = (0, { m with got_certificate_request := true })) /\
  (got_certificate m = false ->
   SanityCheckTls13MsgReceived { o with serverState := SERVER_ENCRYPTED_EXTENSIONS_COMPLETE } certificate m = (0, { m with got_certificate := true })) /\
  (psk_only o = false -> got_certificate_verify m = false ->
   SanityCheckTls13MsgReceived { o with serverState := SERVER_CERT_COMPLETE } certificate_verify m = (0, { m with got_certificate_verify := true })) /\
  (forall st, quic o = false -> got_finished m = true ->
   SanityCheckTls13MsgReceived { o with serverState := st } key_update m = (0, m)).
Proof.
  destruct o as [? ? ? ? ? ? ? pn ce ? ? ? ? ? ? ? ? ? ? ?], m. unfold psk_only. cbn. intros ->.
  split; [intros ->; reflexivity |]. split; [intros Hp ->; destruct pn, ce; (discriminate || reflexivity) |].
  split; [intros ->; reflexivity |]. split; [intros Hp ->; destruct pn, ce; (discriminate || reflexivity) |].
  intros st -> ->. reflexivity.
Qed.

(** A client in its handshake, whatever else its options are: it is settled from the
    ServerHello on whether a PSK alone authenticates; at the Finished its
    ClientHello is done and, unless a PSK authenticates, the certificate it requires has been checked by the
    handlers; it is not a QUIC client when a KeyUpdate comes. *)
Definition handshaking_client (psk : bool) (x : msg) : Prop :=
  let o := x.1.1 in
  side o = WOLFSSL_CLIENT_END /\ (x.1.2 <> server_hello -> psk_only o = psk) /\
  (x.1.2 = finished -> CLIENT_HELLO_COMPLETE <= clientState o /\ (psk = false -> peer_checked o)) /\
  (x.1.2 = key_update -> quic o = false).

(** A flight with the marks of a HelloRetryRequest. *)
Definition flight_messages (hrr psk req : bool) (kus : list Z) : list (Z * bool) :=
  (if hrr then [(server_hello, true)] else []) ++ ((fun t => (t, false)) <$> server_flight false psk req kus).

Definition contents (l : list msg) : list (Z * bool) := (fun x => (x.1.2, x.2)) <$> l.

Lemma contents_cons o t h l : contents ((o, t, h) :: l) = (t, h) :: contents l.
Proof. reflexivity. Qed.

Lemma takes_key_updates psk l m kus :
  Forall (handshaking_client psk) l -> contents l = ((fun t => (t, false)) <$> kus) -> Forall (eq key_update) kus ->
  got_finished m = true -> client_run SERVER_FINISHED_COMPLETE m l = Some (SERVER_FINISHED_COMPLETE, m).
Proof.
  intros F E K Hm. revert l F E. induction K as [| k kus <- _ IH]; intros [| [[o t] h] l] F E; try discriminate; [reflexivity |].
  cbn in E. injection E as -> -> E. apply Forall_cons_1 in F as [(Hs & _ & _ & Hq) F]. cbn [client_run].
  destruct (takes_middle o m Hs) as (_ & _ & _ & _ & T). rewrite (T SERVER_FINISHED_COMPLETE (Hq eq_refl) Hm). exact (IH l F E).
Qed.

Lemma client_run_step o t h l st m m1 st' m' :
  SanityCheckTls13MsgReceived { o with serverState := st } t m = (0, m1) ->
  client_handler st m1 t h = (0, (st', m')) -> client_run st m ((o, t, h) :: l) = client_run st' m' l.
Proof. intros E1 E2. cbn [client_run]. now rewrite E1, E2. Qed.

(** Take one message of a flight by its lemma. *)
#[local] Ltac take_msg :=
  match goal with E : contents ?l = _, F : Forall _ ?l |- _ =>
    destruct l as [| [[? ?] ?] l]; [discriminate E |]; rewrite contents_cons in E; injection E as -> -> E;
    apply Forall_cons_1 in F as [(? & ? & ? & _) F]; cbn [fst snd] in *
  end;
  match goal with Hs : side ?o = _ |- context [client_run _ ?m ((?o, _, _) :: _)] =>
    pose proof (takes_middle o m Hs) as (? & ? & ? & ? & _)
  end.

(** From the ServerHello on. *)
Lemma takes_rest psk req l m kus :
  Forall (handshaking_client psk) l ->
  contents l = (fun t => (t, false)) <$> encrypted_extensions :: auth_part psk req ++ finished :: kus ->
  Forall (eq key_update) kus ->
  got_encrypted_extensions m = false -> got_certificate_request m = false -> got_certificate m = false ->
  got_certificate_verify m = false -> got_finished m = false ->
  exists m', client_run SERVER_HELLO_COMPLETE m l = Some (SERVER_FINISHED_COMPLETE, m') /\
    got_finished m' = true /\ got_certificate m' = negb psk /\ got_certificate_verify m' = negb psk /\
    got_certificate_request m' = negb psk && req.
Proof.
  intros F E K M1 M2 M3 M4 M5. destruct m. cbn in M1, M2, M3, M4, M5. subst.
  assert (Fin : forall l' m' st, Forall (handshaking_client psk) l' -> contents l' = (fun t => (t, false)) <$> finished :: kus ->
            st = (if psk then SERVER_ENCRYPTED_EXTENSIONS_COMPLETE else SERVER_CERT_VERIFY_COMPLETE) ->
            (psk = false -> got_certificate m' = true) -> got_finished m' = false ->
            client_run st m' l' = Some (SERVER_FINISHED_COMPLETE, { m' with got_finished := true })).
  { intros l' m' st F' E' -> Hc Hf. take_msg.
    match goal with Hs : side ?o = _, Hp : finished <> _ -> _, Hq : finished = finished -> _ |- _ =>
      destruct (Hq eq_refl) as [Hcs Hpc]; specialize (Hp ltac:(discriminate));
      pose proof (takes_finished o psk m' Hs Hp Hcs ltac:(auto) Hf) as T end.
    erewrite client_run_step; [| exact T | reflexivity].
    apply (takes_key_updates psk l' _ kus); auto; now destruct m'. }
  destruct psk; [| destruct req]; cbn in E.
  - take_msg. erewrite client_run_step; [| eauto | reflexivity]. eexists. split; [apply Fin; auto; discriminate |]. auto.
  - take_msg. erewrite client_run_step; [| eauto | reflexivity].
    take_msg. erewrite client_run_step; [| eauto | reflexivity].
    take_msg. erewrite client_run_step; [| eauto | reflexivity].
    take_msg. erewrite client_run_step; [| eauto | reflexivity]. eexists. split; [apply Fin; auto |]. auto.
  - take_msg. erewrite client_run_step; [| eauto | reflexivity].
    take_msg. erewrite client_run_step; [| eauto | reflexivity].
    take_msg. erewrite client_run_step; [| eauto | reflexivity]. eexists. split; [apply Fin; auto |]. auto.
Qed.

(** [C31] Every flight RFC 8446 allows is accepted to the end, whatever the options of the
    client that bear on it: with or without a HelloRetryRequest, with
    certificates (with or without a CertificateRequest) or with a PSK,
    followed by any number of KeyUpdates.  The options may differ from message to
    message; what is asked of them is a client for which it is settled, after the
    ServerHello, whether a PSK alone authenticates, whose ClientHello is done
    and, if it verifies its peer by certificate, whose handlers have checked that
    when the Finished comes, and which does not use QUIC when a KeyUpdate comes. *)
Theorem client_accepts hrr psk req kus l :
  Forall (handshaking_client psk) l -> contents l = flight_messages hrr psk req kus -> Forall (eq key_update) kus ->
  exists m, client_run NULL_STATE no_msgs l = Some (SERVER_FINISHED_COMPLETE, m) /\
    got_finished m = true /\ got_certificate m = negb psk /\ got_certificate_verify m = negb psk /\
    got_certificate_request m = negb psk && req.
Proof.
  intros F E K. unfold flight_messages in E. destruct hrr; cbn [app] in E.
  - do 2 (take_msg; erewrite client_run_step; [| apply takes_server_hello; [assumption | reflexivity | reflexivity] | reflexivity]).
    apply (takes_rest psk req l _ kus); auto.
  - take_msg. erewrite client_run_step; [| apply takes_server_hello; [assumption | reflexivity | reflexivity] | reflexivity].
    apply (takes_rest psk req l _ kus); auto.
Qed.

Lemma client_accepts_witness :
  let o1 := { { sample_client false with pskNegotiated := true } with havePeerCert := false } in
  let o2 := { { o1 with pskNegotiated := false } with mutualAuth := true } in
  let o3 := { { o2 with havePeerCert := true } with havePeerVerify := true } in
  let l := [(o1, server_hello, true); (o1, server_hello, false); (o2, encrypted_extensions, false); (o2, certificate_request, false);
            (o2, certificate, false); (o3, certificate_verify, false); (o3, finished, false); (o3, key_update, false)] in
  exists m, client_run NULL_STATE no_msgs l = Some (SERVER_FINISHED_COMPLETE, m).
Proof.
  intros o1 o2 o3 l. edestruct (client_accepts true false true [key_update] l) as (m & H & _); [| reflexivity | | now exists m].
  - unfold l, handshaking_client, peer_checked. repeat constructor; try discriminate; auto; contradiction.
  - repeat constructor.
Defined.

(** The three guards on the peer's authentication, as implications. *)
Lemma auth_guards vp vph sc gc ma c hpc hpv :
  (vp && (negb vph || sc) && negb gc) = false -> ((ma || (c && vp)) && negb hpc) = false ->
  ((ma || vp) && hpc && negb hpv) = false ->
  (vp = true -> vph = false \/ sc = true -> gc = true) /\
  ((ma || (c && vp)) = true -> hpc = true /\ hpv = true) /\
  (vp = true -> hpc = true -> hpv = true).
Proof.
  intros H1 H2 H3. split; [| split].
  - intros -> [-> | ->]; destruct gc; [reflexivity | discriminate | reflexivity |].
    now destruct vph.
  - intros E. rewrite E in H2. destruct hpc; [| discriminate]. split; [reflexivity |].
    destruct hpv; [reflexivity |]. destruct ma, vp, c; discriminate.
  - intros -> ->. destruct hpv; [reflexivity | now destruct ma].
Qed.

(** [C32] When a Finished is let through, on either side, the peer's
    authentication is complete: unless a PSK alone authenticates, a server
    or client that verifies its peer has had the peer's Certificate (a
    server that does so after the handshake, once it has asked), mutual
    authentication and a verifying client have the peer's certificate, and
    the owner of a certificate so required has proved possession of its
    key.  A Finished is also the first one, and on a client it comes after
    its ClientHello in the state that the authentication mode calls for, on
    a server after its own Finished and, over TLS, after the end of early
    data. *)
Theorem finished_authenticated o m m' :
  SanityCheckTls13MsgReceived o finished m = (0, m') ->
  m' = { m with got_finished := true } /\ got_finished m = false /\
  (psk_only o = false ->
     (verifyPeer o = true ->
        verifyPostHandshake o = false \/ (isServer o && certReqCtx o) = true -> got_certificate m = true) /\
     ((mutualAuth o || (isClient o && verifyPeer o)) = true -> havePeerCert o = true /\ havePeerVerify o = true) /\
     (verifyPeer o = true -> havePeerCert o = true -> havePeerVerify o = true)) /\
  (isClient o = true -> CLIENT_HELLO_COMPLETE <= clientState o /\
     serverState o = if psk_only o then SERVER_ENCRYPTED_EXTENSIONS_COMPLETE else SERVER_CERT_VERIFY_COMPLETE) /\
  (isServer o = true -> SERVER_FINISHED_COMPLETE <= serverState o /\ CLIENT_HELLO_COMPLETE <= clientState o /\
     (earlyData o = process_early_data -> (dtls o || quic o) = true)).
Proof.
  intros H. unfold SanityCheckTls13MsgReceived in H.
  change (run 0 (check_finished o) m = (0, m')) in H. unfold check_finished in H.
  assert (Hp : psk_only o = negb (negb (pskNegotiated o) || certWithExternPsk o))
    by (unfold psk_only; now destruct (pskNegotiated o), (certWithExternPsk o)).
  destruct (isClient o) eqn:Ec, (isServer o) eqn:Es; passed H; subst m'; rewrite Hp;
    repeat match goal with
           | G : (negb (pskNegotiated o) || certWithExternPsk o) = _ |- _ => rewrite G in *; clear G
           end;
    (split; [reflexivity | split; [assumption | split; [| split]]]); try discriminate; intros _;
    try (apply auth_guards; assumption);
    repeat match goal with G : _ = false |- _ => progress guards G end;
    (split; [assumption |]);
    try (destruct (pskNegotiated o), (certWithExternPsk o); (assumption || discriminate || easy));
    (split; [assumption |]; intros E; rewrite orb_true_iff; tauto).
Qed.

Lemma finished_authenticated_witness :
  let o := { sample_client false with serverState := SERVER_CERT_VERIFY_COMPLETE } in
  let m := { no_msgs with got_certificate := true } in
  (mutualAuth o || (isClient o && verifyPeer o)) = true /\ havePeerCert o = true /\ havePeerVerify o = true.
Proof.
  intros o m. split; [reflexivity |].
  apply (finished_authenticated o m { m with got_finished := true }); reflexivity.
Defined.

(** The guard that refuses a server Certificate in a PSK handshake is
    never reached with the state it tests ([SERVER_CERT_COMPLETE], after the
    state was required to be [SERVER_ENCRYPTED_EXTENSIONS_COMPLETE]): the
    first such Certificate is let through.  It is a dead end, though: the
    client then never takes a Finished. *)
Theorem psk_certificate_let_through :
  (forall o m, side o = WOLFSSL_CLIENT_END -> serverState o = SERVER_ENCRYPTED_EXTENSIONS_COMPLETE ->
     got_certificate m = false ->
     SanityCheckTls13MsgReceived o certificate m = (0, { m with got_certificate := true })) /\
  (forall l r, Forall (initial_client true) l -> client_run NULL_STATE no_msgs l = Some r ->
     certificate ∈ types l -> finished ∉ types l).
Proof.
  split.
  - intros [] [] Hs Hst Hc. cbn in Hs, Hst, Hc. subst. reflexivity.
  - intros l r F H Hc Hf. edestruct hello_next as (hrr & req & kus & _ & E & Hk);
      [exact F | exact H | reflexivity | reflexivity | exact Hf |].
    rewrite E in Hc. unfold server_flight in Hc. rewrite list_elem_of_In in Hc.
    assert (N : ~ In certificate kus)
      by (intros I; rewrite Forall_forall in Hk; discriminate (Hk _ I)).
    destruct hrr; cbn in Hc; repeat destruct Hc as [Hc | Hc]; (discriminate || contradiction).
Qed.

(** The server's gate lets a client Certificate through as soon as the
    ClientHello is processed, also before the server has sent its Finished:
    the two conditions are joined so that either suffices. *)
Theorem server_certificate_early o m :
  side o = WOLFSSL_SERVER_END -> clientState o = CLIENT_HELLO_COMPLETE -> got_certificate m = false ->
  SanityCheckTls13MsgReceived o certificate m = (0, { m with got_certificate := true }).
Proof. destruct o, m; cbn; intros; subst; reflexivity. Qed.

Lemma server_certificate_early_witness :
  let o := { { sample_client false with side := WOLFSSL_SERVER_END } with serverState := SERVER_HELLO_COMPLETE } in
  serverState o < SERVER_FINISHED_COMPLETE /\
  SanityCheckTls13MsgReceived o certificate no_msgs = (0, { no_msgs with got_certificate := true }).
Proof. split; [reflexivity | apply server_certificate_early; reflexivity]. Defined.

(** A TLS 1.3 handshake message reaches its handler exactly when it lies
    within the input, the gate accepts it, and the connection is in a state
    for it: after the handshake only tickets, post-handshake authentication,
    KeyUpdate and connection ID messages, first from the server its hello
    (over DTLS also a HelloVerifyRequest), first from the client a
    ClientHello.  Every message refused for its type or state gets exactly
    one fatal alert: protocol_version for a version error, else
    unexpected_message; a refusal by the gate returns the gate's code. *)
Theorem DoTls13HandShakeMsgType_gate_spec o type idx size total m :
  let '(r, m', alerts) := DoTls13HandShakeMsgType_gate o type idx size total m in
  let fits := negb (total <? u32 (idx + size)) in
  let gate := SanityCheckTls13MsgReceived o type m in
  let state_ok :=
    (after_handshake type || negb (handShakeState o =? HANDSHAKE_DONE)) &&
    negb (isClient o && (serverState o =? NULL_STATE) && negb (first_from_server o type)) &&
    negb (isServer o && (clientState o =? NULL_STATE) && negb (type =? client_hello)) in
  (r = 0 <-> fits = true /\ gate.1 = 0 /\ state_ok = true) /\
  (fits = true -> gate.1 <> 0 -> r = gate.1 /\ alerts = [(alert_fatal, gate_alert r)]) /\
  (fits = true -> gate.1 = 0 -> state_ok = false ->
     r = OUT_OF_ORDER_E /\ alerts = [(alert_fatal, unexpected_message)]) /\
  (r = 0 \/ fits = false -> alerts = []).
Proof.
  unfold DoTls13HandShakeMsgType_gate.
  destruct (total <? u32 (idx + size)); [split; [split; [discriminate | intros (? & _); discriminate] |];
    (split; [| split]); try discriminate; reflexivity |].
  destruct (SanityCheckTls13MsgReceived o type m) as [ret m'].
  destruct (Z.eqb_spec ret 0) as [-> | N]; cbn [negb fst].
  2: { split; [split; [contradiction | intros (_ & ? & _); contradiction] |].
       split; [auto | split; [contradiction |]]. intros [? | ?]; [contradiction | discriminate]. }
  destruct (handShakeState o =? HANDSHAKE_DONE), (after_handshake type), (isClient o), (isServer o),
    (serverState o =? NULL_STATE), (clientState o =? NULL_STATE), (type =? client_hello),
    (first_from_server o type); cbn [andb orb negb]; intuition (discriminate || congruence).
Qed.
