(* ===== verification/TlsRecv13.v ===== *)
(** * src/internal.c, src/tls13.c: receiving TLS 1.3 records

    The record loop [DoProcessReplyEx] with its states, from the socket
    ([GetInputData]) through the record header, decryption ([DecryptTls13])
    and the inner padding to alerts, application data and handshake messages
    ([DoTls13HandShakeMsg], [DoTls13KeyUpdate]), and [ReceiveData] over it.  A read
    outside of the input buffer makes the result [Fault] (or [None]).  The
    handlers of handshake messages other than KeyUpdate are the class
    [Handlers].  Built as [TlsSend13], without session cache, maximum
    fragment extension, read-ahead and extra alerts. *)

From S2P Require Import Prelude Misc W64 Tls TlsSeq TlsSend13 Handshake13.
From stdpp Require Import list relations.

#[local] Open Scope Z_scope.
#[local] Open Scope cword_scope.

(** ** Constants *)

Definition FATAL_ERROR : Z := -313.
Definition ZERO_RETURN : Z := -343.
Definition UNKNOWN_RECORD_TYPE : Z := -311.
Definition SANITY_CIPHER_E : Z := -375.
Definition HANDSHAKE_SIZE_ERROR : Z := -404.
Definition WOLFSSL_SUCCESS : Z := 1.
Definition RECV_OVERFLOW_E : Z := -376.
Definition INVALID_PARAMETER : Z := -425.
Definition ALERT_COUNT_E : Z := -427.
Definition EMPTY_RECORD_LIMIT_E : Z := -518.

Definition invalid_alert : Z := -1.
Definition close_notify : Z := 0.
Definition bad_record_mac : Z := 20.
Definition record_overflow : Z := 22.
Definition handshake_failure : Z := 40.
Definition illegal_parameter : Z := 47.
Definition decode_error : Z := 50.
Definition decrypt_error : Z := 51.
Definition internal_error : Z := 80.
Definition user_canceled : Z := 90.
Definition missing_extension : Z := 109.
Definition bad_certificate_status_response : Z := 113.

Definition MAX_TLS13_PLAIN_SZ : Z := 2 ^ 14 + 1.
Definition MAX_TLS13_ENC_SZ : Z := 2 ^ 14 + 256.
Definition MAX_HANDSHAKE_SZ : Z := 3 + (2048 + 3) * 9.
Definition WOLFSSL_ALERT_COUNT_MAX : Z := 5.
Definition WOLFSSL_MAX_EMPTY_RECORDS : Z := 32.
Definition TLSv1_3_MINOR : Z := 4.
Definition ACCEPT_FIRST_REPLY_DONE : Z := 4.
Definition FIRST_REPLY_DONE : Z := 4.

(** ** Checks on handshake messages as they arrive *)

Definition one_of (types : list Z) (type : Z) : bool := existsb (Z.eqb type) types.

(** [tls13]: at least TLS 1.3; [scr]: a secure renegotiation is going on. *)
Definition MsgCheckEncryption (tls13 scr handShakeDone : bool) (type : Z) (encrypted : bool) : Z :=
  if tls13 then
    if one_of [client_hello; server_hello; hello_verify_request; hello_retry_request; change_cipher_hs] type then
      if encrypted then OUT_OF_ORDER_E else 0
    else if one_of [hello_request; session_ticket; end_of_early_data; encrypted_extensions; certificate;
                    server_key_exchange; certificate_request; server_hello_done; certificate_verify;
                    client_key_exchange; finished; certificate_status; key_update;
                    request_connection_id; new_connection_id] type then
      if negb encrypted then OUT_OF_ORDER_E else 0
    else SANITY_MSG_E
  else
    if type =? client_hello then
      if (scr || handShakeDone) && negb encrypted then OUT_OF_ORDER_E else 0
    else if one_of [server_hello; hello_verify_request; hello_retry_request; certificate; server_key_exchange;
                    certificate_request; server_hello_done; certificate_verify; client_key_exchange;
                    certificate_status; session_ticket; change_cipher_hs] type then
      if scr then if negb encrypted then OUT_OF_ORDER_E else 0
      else if encrypted then OUT_OF_ORDER_E else 0
    else if one_of [hello_request; finished] type then
      if negb encrypted then OUT_OF_ORDER_E else 0
    else SANITY_MSG_E.

(** [last]: the message is the last in its record ([isLastMsg]). *)
Definition MsgCheckBoundary (tls13 : bool) (type : Z) (version_negotiated last : bool) : Z :=
  if version_negotiated then
    if tls13 then
      if one_of [hello_request; client_hello; server_hello; hello_verify_request; hello_retry_request;
                 finished; end_of_early_data] type then
        if negb last then OUT_OF_ORDER_E else 0
      else if one_of [session_ticket; encrypted_extensions; certificate; server_key_exchange;
                      certificate_request; certificate_verify; client_key_exchange; certificate_status;
                      key_update; change_cipher_hs; request_connection_id; new_connection_id] type then 0
      else SANITY_MSG_E
    else
      if one_of [hello_request; client_hello; hello_verify_request] type then
        if negb last then OUT_OF_ORDER_E else 0
      else if one_of [server_hello; session_ticket; end_of_early_data; certificate; server_key_exchange;
                      certificate_request; server_hello_done; certificate_verify; client_key_exchange;
                      finished; certificate_status; change_cipher_hs] type then 0
      else SANITY_MSG_E
  else
    if one_of [hello_request; client_hello; hello_verify_request] type then
      if negb last then OUT_OF_ORDER_E else 0
    else if one_of [server_hello; session_ticket; end_of_early_data; hello_retry_request; encrypted_extensions;
                    certificate; server_key_exchange; certificate_request; server_hello_done;
                    certificate_verify; client_key_exchange; finished; certificate_status; key_update;
                    change_cipher_hs] type then 0
    else SANITY_MSG_E.

Definition TranslateErrorToAlert (err : Z) : Z :=
  if one_of [BUFFER_ERROR; BUFFER_E] err then decode_error
  else if one_of [-424 (* EXT_NOT_ALLOWED *); -342 (* PEER_KEY_ERROR *); -352 (* ECC_PEERKEY_ERROR *);
                  -421 (* BAD_KEY_SHARE_DATA *); -333 (* PSK_KEY_ERROR *); INVALID_PARAMETER;
                  -505 (* HRR_COOKIE_ERROR *); -457 (* DUPLICATE_TLS_EXT_E *)] err then illegal_parameter
  else if err =? -423 (* BAD_BINDER *) then decrypt_error
  else if err =? INCOMPLETE_DATA then missing_extension
  else if one_of [-501 (* MATCH_SUITE_ERROR *); -422 (* MISSING_HANDSHAKE_DATA *); -335 (* PSK_MISSING_ERROR *)] err
  then handshake_failure
  else if err =? VERSION_ERROR then protocol_version
  else if err =? -406 (* BAD_CERTIFICATE_STATUS_ERROR *) then bad_certificate_status_response
  else if one_of [OUT_OF_ORDER_E; DUPLICATE_MSG_E] err then unexpected_message
  else invalid_alert.

(** ** State *)

(** [enum processReply]. *)
Inductive ProcessReply :=
| doProcessInit | getRecordLayerHeader | getData | verifyEncryptedMessage | decryptMessage | verifyMessage
| runProcessingOneRecord | runProcessingOneMessage.

(** The handlers of handshake messages other than KeyUpdate, with the hash of
    the transcript, on a state of their own. *)
Class Handlers (H : Type) := handle_message : Z -> list Z -> H -> Z * H.

(** Handlers return 0 or an error, and never wait for input. *)
Class HandlersSpec (H : Type) `{Handlers H} : Prop := handle_message_code type body h : plain (fst (handle_message type body h)).

(** What one call of [wolfSSLReceive] brings: bytes, nothing yet, a connection reset or
    closed, another error, or a callback that claims more than there was room for. *)
Inductive recv_result := Data (c : list Z) | No_data | Recv_reset | Recv_closed | Recv_error | Recv_overflow.

(** The bytes a script of results brings. *)
Definition net_bytes (l : list recv_result) : list Z := concat ((fun x => match x with Data c => c | _ => [] end) <$> l).

Section Recv.
  Context {S T H : Type} `{RecordCrypto S, W64Ops T, Handlers H}.

(** A handshake message of which the first bytes have come: type, size with the header. *)
Record Pending := { pendingMsgType : Z; pendingMsgSz : Z; pendingMsg : list Z }.

(** What receiving keeps in [WOLFSSL]: [inputBuffer] up to its length, with [idx].
    [net]: what the socket will give. *)
Record Rx := {
  decSecret : S; decryptOn : bool; processReply : ProcessReply;
  inputBuffer : list Z; idx : Z; curSize : Z; curStartIdx : Z;
  curRL_type : Z; curRL_pvMajor : Z; curRL_pvMinor : Z; curRL_length : list Z;
  padSz : Z; encryptSz : Z; decryptedCur : bool;
  pending : option Pending; clearOutputBuffer : list Z;
  last_rx_code : Z; last_rx_level : Z; closeNotify : bool; alertCount : Z; emptyRecordCount : Z;
  opts : Tls13Options; acceptState : Z; handShakeDone : bool; msgsReceived : MsgsReceived;
  hs : H; net : list recv_result
}.

Record Ssl := { tx : Tx S T; rx : Rx }.

(** A step of the record loop: go on, return, or a read outside of the buffer. *)
Inductive flow := Go (s : Ssl) | Ret (code : Z) (s : Ssl) | Fault.

Definition set_rx (s : Ssl) (f : Rx -> Rx) : Ssl := { s with rx := f (rx s) }.

Definition send_alert (severity type : Z) (s : Ssl) : Ssl :=
  { s with tx := snd (SendAlert severity type (tx s)) }.

(** [n] bytes of the input buffer from [i] on. *)
Definition slice (l : list Z) (i n : Z) : option (list Z) :=
  if (0 <=? i) && (0 <=? n) && (i + n <=? Zlen l) then Some (take (Z.to_nat n) (drop (Z.to_nat i) l)) else None.

(** ** Input *)

(** The code, the result it ended with, the rest of the script and the buffer. *)
Fixpoint recv_loop (need : Z) (net : list recv_result) (buf : list Z) : Z * recv_result * list recv_result * list Z :=
  match net with
  | [] => (WANT_READ, No_data, [], buf)
  | Data c :: net =>
      if need <=? Zlen c
      then (0, No_data, match drop (Z.to_nat need) c with [] => net | c => Data c :: net end, buf ++ take (Z.to_nat need) c)
      else recv_loop (need - Zlen c) net (buf ++ c)
  | No_data :: net => (WANT_READ, No_data, net, buf)
  | Recv_overflow :: net => (RECV_OVERFLOW_E, Recv_overflow, net, buf)
  | x :: net => (SOCKET_ERROR_E, x, net, buf)
  end.

(** [GetInputData_ex] without read-ahead. *)
Definition GetInputData (size : Z) (s : Ssl) : Z * Ssl :=
  let r := rx s in
  let usedLength := Zlen (inputBuffer r) - idx r in
  if usedLength <? 0 then (BUFFER_ERROR, s)
  else if size <=? usedLength then (0, s)
  else
    let inSz := size - usedLength in
    let '(ret, why, script, buf) := recv_loop inSz (net r) (drop (Z.to_nat (idx r)) (inputBuffer r)) in
    let s := set_rx s (fun r => { { { r with inputBuffer := buf } with idx := 0 } with net := script }) in
    (ret, match why with
          | Recv_reset => { s with tx := { tx s with connReset := true } }
          | Recv_closed => { s with tx := { tx s with isClosed := true } }
          | _ => s
          end).

(** Bytes handed in by the application, with room for them in the buffer. *)
Definition wolfSSL_inject (data : list Z) (r : Rx) : Z * Rx :=
  if bool_decide (data = []) then (BAD_FUNC_ARG, r)
  else if idx r >? Zlen (inputBuffer r) then (BUFFER_ERROR, r)
  else (WOLFSSL_SUCCESS, { r with inputBuffer := inputBuffer r ++ data }).

(** ** The record header *)

Definition version_mismatch (r : Rx) : bool :=
  negb (curRL_pvMajor r =? SSLv3_MAJOR) ||
  negb (curRL_pvMinor r =? TLSv1_3_MINOR) && negb (curRL_pvMinor r =? TLSv1_2_MINOR).

(** A mismatch that is let through: before the versions are agreed. *)
Definition version_excused (r : Rx) : bool :=
  (side (opts r) =? WOLFSSL_SERVER_END) && (acceptState r <? ACCEPT_FIRST_REPLY_DONE) ||
  (side (opts r) =? WOLFSSL_CLIENT_END) && downgrade (opts r) && (connectState (opts r) <? FIRST_REPLY_DONE) ||
  (side (opts r) =? WOLFSSL_CLIENT_END) && (connectState (opts r) =? CLIENT_HELLO_SENT) &&
  (curRL_type r =? alert) && (curRL_pvMajor r =? SSLv3_MAJOR) && (curRL_pvMinor r <? TLSv1_3_MINOR).

(** [None]: fewer than five bytes in the buffer. *)
Definition GetRecordHeader (r : Rx) : option (Z * Rx) :=
  match slice (inputBuffer r) (idx r) RECORD_HEADER_SZ with
  | Some [type; major; minor; l0; l1] =>
      let r := { { { { { r with curRL_type := type } with curRL_pvMajor := major } with curRL_pvMinor := minor }
                     with curRL_length := [l0; l1] } with idx := idx r + RECORD_HEADER_SZ } in
      let size := Opaque.ato16 [l0; l1] in
      let r := { r with curSize := size } in
      Some (if version_mismatch r && negb (version_excused r) then (VERSION_ERROR, r)
            else if size >? MAX_RECORD_SIZE + MAX_MSG_EXTRA then (LENGTH_ERROR, r)
            else if (size =? 0) && negb (type =? application_data) then (LENGTH_ERROR, r)
            else if one_of [handshake; change_cipher_spec; application_data; alert] type
            then (0, { r with decryptedCur := false })
            else (UNKNOWN_RECORD_TYPE, r))
  | _ => None
  end.

(** ** Decryption *)

(** The code, and the buffer with the text decrypted in place. *)
Definition DecryptTls13 (sz : Z) (aad : list Z) (s : Ssl) : option (Z * Ssl) :=
  if sz <? aead_mac_size then Some (BAD_FUNC_ARG, s)
  else
    let '(nonce, k) := BuildTls13Nonce 0 0 (rc_iv (decSecret (rx s))) iv_size PEER_ORDER (keys (tx s)) in
    let s := { s with tx := { tx s with keys := k } } in
    match slice (inputBuffer (rx s)) (idx (rx s)) sz with
    | None => None
    | Some input =>
        let '(ret, text) := rc_decrypt (decSecret (rx s)) nonce aad input in
        Some (ret, set_rx s (fun r => { r with inputBuffer :=
          take (Z.to_nat (idx r)) (inputBuffer r) ++ text ++ drop (Z.to_nat (idx r + Zlen text)) (inputBuffer r) }))
    end.

Definition SanityCheckCipherText (encryptSz : Z) : Z :=
  if encryptSz <? aead_mac_size then SANITY_CIPHER_E else 0.

Definition DoDecrypt (s : Ssl) : option (Z * Ssl) :=
  let ret := SanityCheckCipherText (curSize (rx s)) in
  if ret <? 0 then Some (ret, s)
  else
    let r := rx s in
    DecryptTls13 (curSize r) ([curRL_type r; curRL_pvMajor r; curRL_pvMinor r] ++ curRL_length r) s.

(** The loop of [removeMsgInnerPadding], from [i] down to the start of the record. *)
Fixpoint skip_padding (n : nat) (buf : list Z) (i start : Z) : Z :=
  match n with
  | O => i
  | Datatypes.S n => if (i >? start) && (rd buf i =? 0) then skip_padding n buf (i - 1) start else i
  end.

Definition removeMsgInnerPadding (s : Ssl) : option (Z * Ssl) :=
  let r := rx s in
  let i := idx r + curSize r -u32 aead_mac_size in
  if (i >? Zlen (inputBuffer r)) || (i =? 0) then Some (BUFFER_ERROR, s)
  else
    let i := skip_padding (Z.to_nat i) (inputBuffer r) (i - 1) (idx r) in
    match slice (inputBuffer r) i 1 with
    | Some [type] =>
        let s := set_rx s (fun r => { r with curRL_type := type }) in
        if type =? 0 then Some (PARSE_ERROR, send_alert alert_fatal unexpected_message s)
        else Some (0, set_rx s (fun r => { r with padSz := idx r + curSize r -u32 i }))
    | _ => None
    end.

(** ** Alerts, ChangeCipherSpec, application data *)

Definition AlertIsExemptUserCanceled (s : Ssl) (code : Z) : bool := decryptedCur (rx s) && (code =? user_canceled).

(** The level or an error, the type, and the state. *)
Definition DoAlert (s : Ssl) : option (Z * Z * Ssl) :=
  let r := rx s in
  if negb (curSize r =? ALERT_SIZE) || (idx r + ALERT_SIZE >? Zlen (inputBuffer r)) then Some (BUFFER_E, internal_error, s)
  else
    match slice (inputBuffer r) (idx r) ALERT_SIZE with
    | Some [level; code] =>
        let s := set_rx s (fun r => { { { r with idx := idx r + ALERT_SIZE } with last_rx_code := code } with last_rx_level := level }) in
        let closed := (level =? alert_fatal) && negb (AlertIsExemptUserCanceled s code) ||
                      negb (code =? close_notify) && negb (code =? user_canceled) in
        let s := if closed then { s with tx := { tx s with isClosed := true } } else s in
        let s := set_rx s (fun r => { r with alertCount := u8 (alertCount r + 1) }) in
        if WOLFSSL_ALERT_COUNT_MAX <=? alertCount (rx s) then Some (ALERT_COUNT_E, code, s)
        else if decryptOn (rx s) && negb (decryptedCur (rx s)) then
          Some (PARSE_ERROR, code, send_alert alert_fatal unexpected_message s)
        else Some (level, code, if code =? close_notify then set_rx s (fun r => { r with closeNotify := true }) else s)
    | _ => None
    end.

Definition DoProcessAlertRecord (s : Ssl) : option (Z * Ssl) :=
  match DoAlert s with
  | None => None
  | Some (ret, type, s) =>
      Some
        (if (ret =? alert_fatal) && negb (AlertIsExemptUserCanceled s type) then (FATAL_ERROR, s)
         else if ret <? 0 then (ret, s)
         else if type =? close_notify then
           (ZERO_RETURN,
            { set_rx s (fun r => { { r with idx := Zlen (inputBuffer r) } with processReply := doProcessInit })
              with tx := { tx s with error := ZERO_RETURN } })
         else if type =? decrypt_error then (FATAL_ERROR, s)
         else if negb (type =? user_canceled) && negb (type =? invalid_alert) then (FATAL_ERROR, s)
         else (0, s))
  end.

Definition DoChangeCipherSpecTls13 (s : Ssl) : option (Z * Ssl) :=
  let r := rx s in
  let refuse (type : Z) (s : Ssl) := Some (UNKNOWN_RECORD_TYPE, send_alert alert_fatal type s) in
  if handShakeState (opts r) =? HANDSHAKE_DONE then refuse unexpected_message s
  else if negb (curSize r =? 1) then refuse unexpected_message s
  else
    match slice (inputBuffer r) (idx r) 1 with
    | Some [b] =>
        if negb (b =? 1) then refuse unexpected_message s
        else
          let s := set_rx s (fun r => { r with idx := idx r + 1 }) in
          if (side (opts r) =? WOLFSSL_SERVER_END) && (got_client_hello (msgsReceived r) =? 0) then refuse unexpected_message s
          else if got_change_cipher (msgsReceived r) then refuse illegal_parameter s
          else
            let s := set_rx s (fun r => { r with msgsReceived := { msgsReceived r with got_change_cipher := true } }) in
            if decryptedCur (rx s) then refuse unexpected_message s else Some (0, s)
    | _ => None
    end.

Definition DoApplicationData (s : Ssl) : option (Z * Ssl) :=
  let r := rx s in
  let dataSz := curSize r in
  if negb (handShakeDone r) then Some (OUT_OF_ORDER_E, send_alert alert_fatal unexpected_message s)
  else if dataSz =? 0 then
    let s := set_rx s (fun r => { r with emptyRecordCount := u8 (emptyRecordCount r + 1) }) in
    if WOLFSSL_MAX_EMPTY_RECORDS <=? emptyRecordCount (rx s) then Some (EMPTY_RECORD_LIMIT_E, s) else Some (0, s)
  else
    match slice (inputBuffer r) (idx r) dataSz with
    | None => None
    | Some data =>
        Some (0, set_rx s (fun r => { { { r with emptyRecordCount := 0 } with idx := idx r + dataSz } with clearOutputBuffer := data }))
    end.

Definition DoProcessAppDataRecord (s : Ssl) : option (Z * Ssl) :=
  if keyUpdateRespond (tx s) then Some (SANITY_MSG_E, s) else DoApplicationData s.

(** ** Handshake messages *)

Definition EarlySanityCheckMsgReceived (type msgSz : Z) (s : Ssl) : Z * Ssl :=
  let r := rx s in
  let version_negotiated := SERVER_HELLO_COMPLETE <=? serverState (opts r) in
  let ret := if version_negotiated then MsgCheckEncryption true false (handShakeDone r) type (decryptedCur r) else 0 in
  let ret := if ret =? 0 then MsgCheckBoundary true type version_negotiated ((idx r - curStartIdx r +u32 msgSz) =? curSize r) else ret in
  (ret, if negb (ret =? 0) then send_alert alert_fatal unexpected_message s else s).

(** [DeriveTls13Keys(update_traffic_key)] and [SetKeysSide] for the reading side. *)
Definition update_decrypt_side (s : Ssl) : Ssl :=
  set_rx { s with tx := { tx s with keys := { { keys (tx s) with peer_sequence_number_hi := 0 } with peer_sequence_number_lo := 0 } } }
    (fun r => { r with decSecret := rc_update (decSecret r) }).

(** The index moves by [totalSz] once the message is found well-formed. *)
Definition DoTls13KeyUpdate (body : list Z) (totalSz : Z) (s : Ssl) : Z * Ssl :=
  if negb (1 =? totalSz) then (BUFFER_E, s)
  else
    let go (s : Ssl) :=
      let s := update_decrypt_side s in
      if keyUpdateRespond (tx s) then
        if Tls13KeyUpdateLimitReached (tx s) then (0, { s with tx := { tx s with keyUpdateRespond := false } })
        else let '(ret, t) := SendTls13KeyUpdate (tx s) in (ret, { s with tx := t })
      else (0, s) in
    if rd body 0 =? update_not_requested then
      go { s with tx := { { tx s with keyUpdateRespond := false } with updateResponseReq := false } }
    else if rd body 0 =? update_requested then go { s with tx := { tx s with keyUpdateRespond := true } }
    else (INVALID_PARAMETER, s).

(** [body]: the message, without its header. *)
Definition DoTls13HandShakeMsgType (body : list Z) (inOutIdx type size totalSz : Z) (s : Ssl) : Z * Ssl :=
  let '(ret, m, alerts) := DoTls13HandShakeMsgType_gate (opts (rx s)) type inOutIdx size totalSz (msgsReceived (rx s)) in
  let s := set_rx s (fun r => { r with msgsReceived := m }) in
  let s := fold_left (fun s a => send_alert (fst a) (snd a) s) alerts s in
  if negb (ret =? 0) then (ret, s)
  else
    let '(ret, s) :=
      if type =? key_update then DoTls13KeyUpdate body size s
      else let '(ret, h) := handle_message type body (hs (rx s)) in (ret, set_rx s (fun r => { r with hs := h })) in
    let alertType := TranslateErrorToAlert ret in
    if negb (alertType =? invalid_alert) && negb (last_tx_level (tx s) =? alert_fatal) then
      let '(tmp, t) := SendAlert alert_fatal alertType (tx s) in
      (if tmp =? SOCKET_ERROR_E then SOCKET_ERROR_E else ret, { s with tx := t })
    else (ret, s).

(** [totalSz]: the end of the record's content. *)
Definition DoTls13HandShakeMsg (totalSz : Z) (s : Ssl) : option (Z * Ssl) :=
  let r := rx s in
  if idx r >? totalSz then Some (BUFFER_ERROR, s)
  else
    let inputLength := totalSz - idx r in
    match pending r with
    | None =>
        let s := set_rx s (fun r => { r with idx := idx r + HANDSHAKE_HEADER_SZ }) in
        if idx (rx s) >? totalSz then Some (PARSE_ERROR, s)
        else
          match slice (inputBuffer r) (idx r) HANDSHAKE_HEADER_SZ with
          | Some [type; b0; b1; b2] =>
              let size := Opaque.c24to32 [b0; b1; b2] in
              let '(ret, s) := EarlySanityCheckMsgReceived type
                (if inputLength >? HANDSHAKE_HEADER_SZ then Z.min (inputLength - HANDSHAKE_HEADER_SZ) size else 0) s in
              if negb (ret =? 0) then Some (ret, s)
              else if size >? MAX_HANDSHAKE_SZ then Some (HANDSHAKE_SIZE_ERROR, s)
              else if inputLength - HANDSHAKE_HEADER_SZ <? size then
                match slice (inputBuffer r) (idx r) inputLength with
                | None => None
                | Some part =>
                    Some (0, set_rx s (fun r' =>
                      { { r' with pending := Some {| pendingMsgType := type; pendingMsgSz := size + HANDSHAKE_HEADER_SZ; pendingMsg := part |} }
                        with idx := idx r' + (inputLength - HANDSHAKE_HEADER_SZ) }))
                end
              else
                match slice (inputBuffer r) (idx r + HANDSHAKE_HEADER_SZ) size with
                | None => None
                | Some body =>
                    let '(ret, s) := DoTls13HandShakeMsgType body (idx r + HANDSHAKE_HEADER_SZ) type size totalSz s in
                    Some (ret, if ret =? 0 then set_rx s (fun r => { r with idx := idx r + size }) else s)
                end
          | _ => None
          end
    | Some p =>
        let inputLength :=
          if inputLength + Zlen (pendingMsg p) >? pendingMsgSz p then pendingMsgSz p - Zlen (pendingMsg p) else inputLength in
        let '(ret, s) := EarlySanityCheckMsgReceived (pendingMsgType p) inputLength s in
        if negb (ret =? 0) then Some (ret, s)
        else
          match slice (inputBuffer r) (idx r) inputLength with
          | None => None
          | Some part =>
              let p := {| pendingMsgType := pendingMsgType p; pendingMsgSz := pendingMsgSz p; pendingMsg := pendingMsg p ++ part |} in
              let s := set_rx s (fun r => { { r with pending := Some p } with idx := idx r + inputLength }) in
              if Zlen (pendingMsg p) =? pendingMsgSz p then
                let '(ret, s) := DoTls13HandShakeMsgType (drop (Z.to_nat HANDSHAKE_HEADER_SZ) (pendingMsg p)) 0 (pendingMsgType p)
                  (pendingMsgSz p - HANDSHAKE_HEADER_SZ) (pendingMsgSz p) s in
                Some (ret, set_rx s (fun r => { r with pending := None }))
              else Some (0, s)
          end
    end.

(** ** The record loop *)

Definition at_state (p : ProcessReply) (s : Ssl) : Ssl := set_rx s (fun r => { r with processReply := p }).

Definition stage_init (s : Ssl) : flow :=
  let '(ret, s) := GetInputData RECORD_HEADER_SZ s in
  if ret <? 0 then Ret ret s else Go s.

Definition stage_header (s : Ssl) : flow :=
  match GetRecordHeader (rx s) with
  | None => Fault
  | Some (ret, r) =>
      let s := { s with rx := r } in
      if negb (ret =? 0) then
        Ret ret
          (if (ret =? VERSION_ERROR) && (side (opts r) =? WOLFSSL_CLIENT_END) then send_alert alert_fatal protocol_version s
           else if ret =? LENGTH_ERROR then send_alert alert_fatal record_overflow s else s)
      else if decryptOn r && negb (one_of [application_data; change_cipher_spec; alert] (curRL_type r)) then
        Ret PARSE_ERROR (send_alert alert_fatal unexpected_message s)
      else Go (at_state getData s)
  end.

Definition too_long (size : Z) : bool :=
  (size >? MAX_TLS13_ENC_SZ) || (aead_mac_size <? size) && (size - aead_mac_size >? MAX_TLS13_PLAIN_SZ).

Definition stage_data (s : Ssl) : flow :=
  let '(ret, s) := GetInputData (curSize (rx s)) s in
  if ret <? 0 then Ret ret s
  else if decryptOn (rx s) && too_long (curSize (rx s)) then Ret BUFFER_ERROR (send_alert alert_fatal record_overflow s)
  else Go (at_state decryptMessage (set_rx s (fun r => { r with padSz := 0 }))).

(** The records that are protected once encryption is on. *)
Definition protected (r : Rx) : bool :=
  decryptOn r && negb (decryptedCur r) && (negb (curRL_type r =? change_cipher_spec) && negb (curRL_type r =? alert)).

Definition stage_decrypt (s : Ssl) : flow :=
  if protected (rx s) then
    match DoDecrypt s with
    | None => Fault
    | Some (ret, s) =>
        if 0 <=? ret then Go (at_state verifyMessage s) else Ret ret (send_alert alert_fatal bad_record_mac s)
    end
  else Go (at_state verifyMessage s).

Definition stage_verify (s : Ssl) : flow :=
  let s := if protected (rx s)
           then set_rx s (fun r => { { { r with padSz := aead_mac_size } with encryptSz := curSize r } with decryptedCur := true })
           else s in
  match (if decryptOn (rx s) && decryptedCur (rx s) then removeMsgInnerPadding s else Some (0, s)) with
  | None => Fault
  | Some (ret, s) =>
      if negb (ret =? 0) then Ret ret s
      else if decryptOn (rx s) && (padSz (rx s) >? curSize (rx s)) then Ret BUFFER_E s
      else
        let s := if decryptOn (rx s) then set_rx s (fun r => { r with curSize := u16 (curSize r - u16 (padSz r)) }) else s in
        Go (at_state runProcessingOneMessage (set_rx s (fun r => { r with curStartIdx := idx r })))
  end.

Definition process_content (s : Ssl) : option (Z * Ssl) :=
  let type := curRL_type (rx s) in
  if type =? handshake then
    let s := set_rx s (fun r => { r with msgsReceived := { msgsReceived r with got_change_cipher := false } }) in
    DoTls13HandShakeMsg (curStartIdx (rx s) + curSize (rx s)) s
  else if type =? change_cipher_spec then DoChangeCipherSpecTls13 s
  else if type =? application_data then DoProcessAppDataRecord s
  else if type =? alert then DoProcessAlertRecord s
  else Some (UNKNOWN_RECORD_TYPE, s).

(** One message; [Go]: there is more in the record or in the buffer. *)
Definition stage_message (s : Ssl) : flow :=
  if Zlen (inputBuffer (rx s)) <=? idx (rx s) then Ret BUFFER_ERROR s
  else
    match process_content s with
    | None => Fault
    | Some (ret, s) =>
        if negb (ret =? 0) then Ret ret s
        else
          let s := at_state doProcessInit s in
          if idx (rx s) - curStartIdx (rx s) <? curSize (rx s) then Go (at_state runProcessingOneMessage s)
          else
            let s := if decryptOn (rx s) then set_rx s (fun r => { r with idx := idx r + padSz r }) else s in
            if Zlen (inputBuffer (rx s)) <=? idx (rx s) then Ret 0 s else Go s
    end.

Definition bind_flow (f : flow) (k : Ssl -> flow) : flow := match f with Go s => k s | _ => f end.

(** One turn of the [for] loop, from the state it is in, falling through to the end. *)
Definition turn (s : Ssl) : flow :=
  match processReply (rx s) with
  | doProcessInit =>
      bind_flow (bind_flow (bind_flow (bind_flow (bind_flow (stage_init s) stage_header) stage_data) stage_decrypt) stage_verify)
        stage_message
  | getRecordLayerHeader =>
      bind_flow (bind_flow (bind_flow (bind_flow (stage_header s) stage_data) stage_decrypt) stage_verify) stage_message
  | getData => bind_flow (bind_flow (bind_flow (stage_data s) stage_decrypt) stage_verify) stage_message
  | verifyEncryptedMessage | decryptMessage => bind_flow (bind_flow (stage_decrypt s) stage_verify) stage_message
  | verifyMessage => bind_flow (stage_verify s) stage_message
  | runProcessingOneRecord | runProcessingOneMessage => stage_message s
  end.

Fixpoint process_loop (fuel : nat) (s : Ssl) : option (option (Z * Ssl)) :=
  match fuel with
  | O => None
  | Datatypes.S fuel =>
      match turn s with
      | Fault => Some None
      | Ret code s => Some (Some (code, s))
      | Go s => process_loop fuel s
      end
  end.

(** The bytes that can still be read. *)
Definition input_left (r : Rx) : nat := length (drop (Z.to_nat (idx r)) (inputBuffer r)) + length (net_bytes (net r)).

(** [DoProcessReplyEx]: [None] out of fuel, [Some None] a fault. *)
Definition DoProcessReply (s : Ssl) : option (option (Z * Ssl)) :=
  let e := error (tx s) in
  if negb (e =? 0) && negb (e =? WANT_READ) && negb (e =? WANT_WRITE) then Some (Some (e, s))
  else
    let '(ret, t) := RetrySendAlert (tx s) in
    let s := { s with tx := t } in
    if negb (ret =? 0) then Some (Some (ret, s)) else process_loop (2 + input_left (rx s)) s.

(** ** Reading *)

(** The [while] loop: the result with which to return, or [None] when there is data. *)
Fixpoint receive_loop (fuel : nat) (s : Ssl) : option (option (option Z * Ssl)) :=
  match fuel with
  | O => None
  | Datatypes.S fuel =>
      if negb (bool_decide (clearOutputBuffer (rx s) = [])) then Some (Some (None, s))
      else
        match DoProcessReply s with
        | None => None
        | Some None => Some None
        | Some (Some (err, s)) =>
            if err <? 0 then
              if err =? ZERO_RETURN then Some (Some (Some 0, { s with tx := { tx s with error := err } }))
              else if (err =? SOCKET_ERROR_E) && (connReset (tx s) || isClosed (tx s)) then
                Some (Some (Some 0, { s with tx := { tx s with error := SOCKET_PEER_CLOSED_E } }))
              else Some (Some (Some err, { s with tx := { tx s with error := err } }))
            else receive_loop fuel s
        end
  end.

(** [ReceiveData] after the handshake, without peeking: the result, the bytes given
    to the application, and the state. *)
Definition ReceiveData (sz : Z) (s : Ssl) : option (option (Z * list Z * Ssl)) :=
  if sz >? INT_MAX then Some (Some (WOLFSSL_FATAL_ERROR, [], s))
  else
    let s := if error (tx s) =? WANT_READ then { s with tx := { tx s with error := 0 } } else s in
    let e := error (tx s) in
    if negb (e =? 0) && negb (e =? WANT_WRITE) then Some (Some (e, [], s))
    else
      match receive_loop (3 + input_left (rx s)) s with
      | None => None
      | Some None => Some None
      | Some (Some (Some ret, s)) => Some (Some (ret, [], s))
      | Some (Some (None, s)) =>
          let size := if sz <? Zlen (clearOutputBuffer (rx s)) then sz else Zlen (clearOutputBuffer (rx s)) in
          let data := take (Z.to_nat size) (clearOutputBuffer (rx s)) in
          Some (Some (size, data, set_rx s (fun r => { r with clearOutputBuffer := drop (Z.to_nat size) (clearOutputBuffer r) })))
      end.

End Recv.

Arguments Rx S H : clear implicits.
Arguments Ssl S T H : clear implicits.

(** ** A connection for witnesses *)

#[export] Instance toy_handlers : Handlers nat := fun _ _ n => (0, S n).

#[export] Instance toy_handlers_spec : HandlersSpec nat.
Proof. intros type body h. split; discriminate. Qed.

(** A client after the handshake. *)
Definition done_options : Tls13Options :=
  mkTls13 WOLFSSL_CLIENT_END false false SERVER_FINISHED_COMPLETE CLIENT_FINISHED_COMPLETE CLIENT_HELLO_SENT HANDSHAKE_DONE
    false false true false true true false false false 0 false 0 None.

Definition fresh_rx_with {S} (k : S) (script : list recv_result) : Rx S nat :=
  {| decSecret := k; decryptOn := true; processReply := doProcessInit;
     inputBuffer := []; idx := 0; curSize := 0; curStartIdx := 0;
     curRL_type := 0; curRL_pvMajor := 0; curRL_pvMinor := 0; curRL_length := [];
     padSz := 0; encryptSz := 0; decryptedCur := false; pending := None; clearOutputBuffer := [];
     last_rx_code := 0; last_rx_level := 0; closeNotify := false; alertCount := 0; emptyRecordCount := 0;
     opts := done_options; acceptState := 0; handShakeDone := true; msgsReceived := { no_msgs with got_finished := true };
     hs := 0%nat; net := script |}.

Definition fresh_rx : list recv_result -> Rx nat nat := fresh_rx_with 0%nat.

Definition fresh_ssl (script : list recv_result) : Ssl nat Native.w64wrapper nat := {| tx := fresh_tx []; rx := fresh_rx script |}.

Definition read {S T H} `{RecordCrypto S, W64Ops T, Handlers H} (sz : Z) (s : Ssl S T H) : Z * list Z * Ssl S T H :=
  match ReceiveData sz s with Some (Some x) => x | _ => (0, [], s) end.

Lemma read_eq {S T H} `{RecordCrypto S, W64Ops T, Handlers H} sz (s : Ssl S T H) :
  match ReceiveData sz s with Some (Some _) => true | _ => false end = true -> ReceiveData sz s = Some (Some (read sz s)).
Proof. unfold read. now destruct (ReceiveData sz s) as [[x |] |]. Qed.

(** What the peer puts on the wire for [data]. *)
Definition wire_of (data : list Z) : list Z := wire (after (SendData data (fresh_tx []))).

(** With several records injected at once, the loop goes on to the next one before
    the application has taken the data of the first, which is lost. *)
Lemma inject_loses_data :
  let sender := after (SendData [4; 5] (after (SendData [1; 2; 3] (fresh_tx [])))) in
  let s := fresh_ssl [] in
  let s := { s with rx := snd (wolfSSL_inject (wire sender) (rx s)) } in
  app_data (hist sender) = [1; 2; 3; 4; 5] /\ fst (read 100 s) = (2, [4; 5]) /\
  fst (read 100 (snd (read 100 s))) = (WANT_READ, []).
Proof. vm_compute. repeat split. Qed.
