(* ===== verification/TlsRecvSafe.v ===== *)
(** * Receiving TLS 1.3 records is memory-safe and terminates

    The invariant of the record loop of [TlsRecv13] between and inside of its
    stages, and [ReceiveData_safe]. *)

From S2P Require Import Prelude Misc W64 Tls TlsSeq TlsSend13 Handshake13 TlsRecv13.
From stdpp Require Import list relations.

#[local] Open Scope Z_scope.
#[local] Open Scope cword_scope.

(** The codes a statement returns with. *)
Definition codes_ok {A} (c : stmt A) : Prop := forall m m' r, c m = (m', Some r) -> plain r.

Section Codes.
  Context {A : Type}.
  Implicit Types c d : stmt A.

Lemma codes_ret r : plain r -> codes_ok (A := A) (ret r).
Proof. intros L m m' r' [= _ <-]. exact L. Qed.

Lemma codes_assign f : codes_ok (A := A) (assign f).
Proof. intros m m' r [=]. Qed.

Lemma codes_seq c d : codes_ok c -> codes_ok d -> codes_ok (Prelude.seq c d).
Proof. intros C D m m' r. unfold Prelude.seq. destruct (c m) as [k [x |]] eqn:E; [intros [= <- <-]; exact (C _ _ _ E) | apply D]. Qed.

Lemma codes_when b c : codes_ok c -> codes_ok (when b c).
Proof. intros C m m' r. unfold when. destruct (b m); [apply C | discriminate]. Qed.

Lemma codes_run c m : codes_ok c -> plain (fst (run 0 c m)).
Proof. intros C. unfold run. destruct (c m) as [k [x |]] eqn:E; [exact (C _ _ _ E) | now split]. Qed.

End Codes.

Create HintDb codes.
#[export] Hint Resolve codes_ret codes_assign codes_seq codes_when : codes.
#[export] Hint Extern 1 (plain _) => split; discriminate : codes.

Lemma SanityCheckTls13MsgReceived_code o type m : plain (fst (SanityCheckTls13MsgReceived o type m)).
Proof.
  apply codes_run. unfold dispatch, check_client_hello, check_server_hello, check_session_ticket, check_end_of_early_data,
    check_encrypted_extensions, check_certificate, check_certificate_request, check_certificate_verify, check_finished,
    check_key_update, check_hello_verify_request, check_connection_id. destruct (default _ _) as [[? ?] ?].
  repeat match goal with |- codes_ok (if ?b then _ else _) => destruct b end; auto 20 with codes.
Qed.

Section Safe.
  Context {S T H : Type} `{RecordCrypto S, W64Ops T, Handlers H}.
  #[local] Abbreviation Rx := (Rx S H).
  #[local] Abbreviation Ssl := (Ssl S T H).
  #[local] Abbreviation flow := (flow (S := S) (T := T) (H := H)).
  Implicit Types (s : Ssl) (r : Rx).

(** ** The stream *)

(** The bytes still to be read: the rest of the buffer, then the socket. *)
Definition stream (r : Rx) : list Z := drop (Z.to_nat (idx r)) (inputBuffer r) ++ net_bytes (net r).

Definition buffered (n : Z) (r : Rx) : Prop := idx r + n <= Zlen (inputBuffer r).

Lemma input_left_stream r : input_left r = length (stream r).
Proof. unfold input_left, stream. now rewrite length_app. Qed.

Lemma net_bytes_data c l : net_bytes (Data c :: l) = c ++ net_bytes l.
Proof. reflexivity. Qed.

Lemma recv_loop_spec : forall script need buf, 0 < need ->
  let '(ret, why, script', buf') := recv_loop need script buf in
  buf' ++ net_bytes script' = buf ++ net_bytes script /\
  (ret = 0 /\ Zlen buf' = Zlen buf + need \/ ret < 0 /\ Zlen buf' < Zlen buf + need).
Proof.
  induction script as [| x script IH]; intros need buf Hn; cbn [recv_loop]; [split; [reflexivity | right; split; [reflexivity | lia]] |].
  destruct x as [c | | | | |]; try (split; [reflexivity | right; split; [reflexivity | lia]]).
  destruct (Z.leb_spec need (Zlen c)) as [L | L].
  - split; [| left; split; [reflexivity | rewrite Zlen_app, Zlen_take; lia]].
    rewrite net_bytes_data, <- app_assoc. f_equal. rewrite <- (take_drop (Z.to_nat need) c) at 3. rewrite <- app_assoc. f_equal.
    now destruct (drop (Z.to_nat need) c).
  - specialize (IH (need - Zlen c) (buf ++ c) ltac:(lia)). destruct (recv_loop _ script _) as [[[ret why] script'] buf'].
    rewrite Zlen_app, <- app_assoc in IH. destruct IH as [W IH]. split; [exact W |]. destruct IH as [[? ?] | [? ?]]; [left | right]; split; (assumption || lia).
Qed.

(** What waiting for [size] bytes changes. *)
Definition got_input (s s' : Ssl) : Prop :=
  error (tx s') = error (tx s) /\ keys (tx s') = keys (tx s) /\ stream (rx s') = stream (rx s) /\
  exists b i n, rx s' = { { { rx s with inputBuffer := b } with idx := i } with net := n }.

(** Input is read as far as asked for and not further. *)
Lemma GetInputData_spec size s : 0 <= idx (rx s) ->
  exists c s', GetInputData size s = (c, s') /\ got_input s s' /\
    (rx s' = rx s /\ (c = BUFFER_ERROR /\ Zlen (inputBuffer (rx s)) < idx (rx s) \/ c = 0 /\ buffered size (rx s)) \/
     idx (rx s) <= Zlen (inputBuffer (rx s)) < idx (rx s) + size /\ idx (rx s') = 0 /\
     (c = 0 /\ Zlen (inputBuffer (rx s')) = size \/ c < 0 /\ Zlen (inputBuffer (rx s')) < size)).
Proof.
  intros Hi. unfold GetInputData, buffered.
  assert (K : got_input s s) by (split; [reflexivity | split; [reflexivity | split; [reflexivity |]]]; exists (inputBuffer (rx s)), (idx (rx s)), (net (rx s)); now destruct (rx s)).
  destruct (Z.ltb_spec (Zlen (inputBuffer (rx s)) - idx (rx s)) 0) as [L | L].
  { exists BUFFER_ERROR, s. split; [reflexivity | split; [exact K | left]]. split; [reflexivity | left; split; [reflexivity | lia]]. }
  destruct (Z.leb_spec size (Zlen (inputBuffer (rx s)) - idx (rx s))) as [E | E].
  { exists 0, s. split; [reflexivity | split; [exact K | left]]. split; [reflexivity | right; split; [reflexivity | lia]]. }
  pose proof (recv_loop_spec (net (rx s)) (size - (Zlen (inputBuffer (rx s)) - idx (rx s))) (drop (Z.to_nat (idx (rx s))) (inputBuffer (rx s))) ltac:(lia)) as R.
  destruct (recv_loop _ _ _) as [[[c why] n] b]. rewrite Zlen_drop in R by lia. destruct R as [W R]. set (s1 := set_rx s _).
  assert (F : forall s', rx s' = rx s1 -> error (tx s') = error (tx s) -> keys (tx s') = keys (tx s) ->
    got_input s s' /\ idx (rx s') = 0 /\ (c = 0 /\ Zlen (inputBuffer (rx s')) = size \/ c < 0 /\ Zlen (inputBuffer (rx s')) < size)).
  { intros s' Er Ee Ek. unfold got_input. rewrite Er. split; [split; [exact Ee | split; [exact Ek | split; [exact W | now exists b, 0, n]]] |].
    split; [reflexivity |]. change (inputBuffer (rx s1)) with b. destruct R as [[? ?] | [? ?]]; [left | right]; split; lia. }
  eexists c, _. split; [reflexivity |]. match goal with |- got_input s ?x /\ _ => destruct (F x) as (F1 & F2 & F3); [destruct why; reflexivity .. |] end.
  split; [exact F1 | right]. split; [lia | split; [exact F2 | exact F3]].
Qed.

(** [None] only outside of the buffer. *)
Lemma slice_some l i n : 0 <= i -> 0 <= n -> i + n <= Zlen l -> slice l i n = Some (take (Z.to_nat n) (drop (Z.to_nat i) l)).
Proof.
  intros. unfold slice. rewrite !(proj2 (Z.leb_le _ _)) by lia. reflexivity.
Qed.

Lemma input_slice_length l i n x : slice l i n = Some x -> Zlen x = n.
Proof.
  unfold slice. destruct ((0 <=? i) && (0 <=? n) && (i + n <=? Zlen l)) eqn:E; [| discriminate]. intros [= <-].
  rewrite !andb_true_iff, !Z.leb_le in E. rewrite Zlen_take; [reflexivity |]. rewrite Zlen_drop; lia.
Qed.

(** ** Safety and termination

    A read outside of the input buffer is a [Fault] in the model, and loops that
    make no progress run out of fuel; neither happens. *)

Record rx_base (r : Rx) : Prop := {
  rb_idx : 0 <= idx r;
  rb_len : Zlen (inputBuffer r) < 2 ^ 31;
  rb_bytes : is_bytes (inputBuffer r);
  rb_net : is_bytes (net_bytes (net r));
  rb_cur : is_word 16 (curSize r);
  rb_pad : 0 <= padSz r;
  rb_pending : forall p, pending r = Some p -> Zlen (pendingMsg p) < pendingMsgSz p
}.

(** What holds in each state of the loop; three of them are passed through and
    never left between calls. *)
Definition rx_state (r : Rx) : Prop :=
  match processReply r with
  | doProcessInit => True
  | getRecordLayerHeader | verifyEncryptedMessage | runProcessingOneRecord => False
  | getData => decryptedCur r = false
  | decryptMessage => decryptedCur r = false /\ buffered (curSize r) r
  | verifyMessage =>
      buffered (curSize r) r /\ (decryptOn r = true -> protected r = true \/ decryptedCur r = true -> aead_mac_size <= curSize r)
  | runProcessingOneMessage =>
      0 <= curStartIdx r <= idx r /\
      (curRL_type r = handshake -> curStartIdx r + curSize r <= Zlen (inputBuffer r)) /\
      (curRL_type r = application_data -> idx r = curStartIdx r /\ buffered (curSize r) r)
  end.

(** The invariant between calls. *)
Definition rx_inv (s : Ssl) : Prop := rx_base (rx s) /\ rx_state (rx s) /\ error (tx s) <= 0.

(** What decreases: the bytes left, and one more inside of a record. *)
Definition measure (r : Rx) : nat :=
  input_left r + match processReply r with doProcessInit => 0 | _ => 1 end.

(** A stage from a state of measure [n]: on [Go], [Q]; on [Ret], the invariant, and progress on success. *)
Definition stage_post (n : nat) (Q : Ssl -> Prop) (f : flow) : Prop :=
  match f with
  | Fault => False
  | Go s => Q s
  | Ret c s => rx_inv s /\ (c < 0 \/ c = 0 /\ (measure (rx s) < n)%nat)
  end.

Lemma bind_flow_post n P Q f k : stage_post n P f -> (forall s, P s -> stage_post n Q (k s)) -> stage_post n Q (bind_flow f k).
Proof. destruct f; cbn; auto. Qed.

(** Between the stages of a turn. *)
Definition at_stage (n : nat) (p : ProcessReply) (s : Ssl) : Prop :=
  rx_inv s /\ processReply (rx s) = p /\ (input_left (rx s) < n)%nat.

Lemma send_alert_rx a b s : rx (send_alert a b s) = rx s.
Proof. reflexivity. Qed.

(** What sending changes of [error], and the codes it returns. *)
Lemma send_loop_code script : forall out taken, plain (fst (fst (fst (fst (send_loop script out taken))))).
Proof. induction script as [| r script IH]; intros [| b out] taken; cbn; try now split. destruct r; cbn; auto; now split. Qed.

Lemma SendBuffered_error (t : Tx S T) : plain (fst (SendBuffered t)) /\ error (snd (SendBuffered t)) = error t.
Proof.
  unfold SendBuffered. pose proof (send_loop_code (sock t) (outputBuffer t) (wire t)) as C.
  destruct (send_loop _ _ _) as [[[[r sc] o] w] b]. split; [exact C | now destruct b].
Qed.

Lemma BuildTls13Message_error a l b (t : Tx S T) : error (snd (BuildTls13Message a l b t)) = error t.
Proof.
  unfold BuildTls13Message, EncryptTls13. destruct (_ >? _); [reflexivity |]. destruct (_ <? _); [reflexivity |].
  destruct (BuildTls13Nonce _ _ _ _ _ _). reflexivity.
Qed.

Lemma SendAlert_ex_error a b (t : Tx S T) : plain (fst (SendAlert_ex a b t)) /\ error (snd (SendAlert_ex a b t)) = error t.
Proof.
  unfold SendAlert_ex. set (t1 := if a =? alert_fatal then _ else _).
  assert (F : error t1 = error t) by (unfold t1; now destruct (a =? alert_fatal)). clearbody t1.
  match goal with |- context [if encryptOn t1 then ?x else ?y] => assert (G : error (snd (if encryptOn t1 then x else y)) = error t1) by (destruct (encryptOn t1); [apply BuildTls13Message_error | reflexivity]); destruct (if encryptOn t1 then x else y) as [[sz o] t2] end.
  cbn [snd] in G. destruct (sz <? 0); [cbn; split; [now split | congruence] |].
  match goal with |- context [SendBuffered ?x] => pose proof (SendBuffered_error x) as B; destruct (SendBuffered x) as [r t3] end.
  cbn in *. split; [apply B | transitivity (error t2); [apply B | congruence]].
Qed.

Lemma RetrySendAlert_error (t : Tx S T) : plain (fst (RetrySendAlert t)) /\ error (snd (RetrySendAlert t)) = error t.
Proof. unfold RetrySendAlert. destruct (_ =? _); [split; [now split | reflexivity] |]. match goal with |- context [SendAlert_ex ?a ?b ?x] => exact (SendAlert_ex_error a b x) end. Qed.

Lemma SendAlert_error a b (t : Tx S T) : error (snd (SendAlert a b t)) = error t.
Proof.
  unfold SendAlert. destruct (negb _); cbn [negb Z.eqb]; [| apply SendAlert_ex_error].
  pose proof (RetrySendAlert_error t) as [_ R]. destruct (RetrySendAlert t) as [r t1]. cbn [snd] in R.
  destruct (negb (r =? 0)); [now destruct (_ || _) | rewrite <- R; apply SendAlert_ex_error].
Qed.

Lemma SendTls13KeyUpdate_error (t : Tx S T) : plain (fst (SendTls13KeyUpdate t)) /\ error (snd (SendTls13KeyUpdate t)) = error t.
Proof.
  unfold SendTls13KeyUpdate. destruct (Tls13KeyUpdateLimitReached t); [split; [now split | reflexivity] |].
  match goal with |- context [BuildTls13Message ?a ?l ?b ?x] => pose proof (BuildTls13Message_error a l b x) as G; destruct (BuildTls13Message a l b x) as [[sz o] t2] end.
  cbn [snd] in G. destruct (sz <? 0); [split; [now split | exact G] |].
  match goal with |- context [SendBuffered ?x] => pose proof (SendBuffered_error x) as [B1 B2]; destruct (SendBuffered x) as [r t3] end.
  cbn in *. destruct (_ && _); (split; [exact B1 || now split | exact (eq_trans B2 G)]).
Qed.

Lemma send_alert_inv a b s : rx_inv s -> rx_inv (send_alert a b s).
Proof.
  intros (B & P & E). split; [exact B | split; [exact P |]]. unfold send_alert. cbn. rewrite SendAlert_error. exact E.
Qed.

Lemma ret_post n Q c s : rx_inv s -> c < 0 -> stage_post n Q (Ret c s).
Proof. intros I L. split; [exact I | now left]. Qed.

Lemma is_bytes_stream r : rx_base r -> is_bytes (stream r).
Proof.
  intros B. apply is_bytes_app. split; [apply Forall_drop |]; apply B.
Qed.

Lemma GetInputData_base size s : rx_base (rx s) -> is_word 16 size ->
  exists c s', GetInputData size s = (c, s') /\ got_input s s' /\ rx_base (rx s') /\ (c < 0 \/ c = 0 /\ buffered size (rx s')).
Proof.
  intros B Hs. destruct (GetInputData_spec size s (rb_idx _ B)) as (c & s' & E & G & D). exists c, s'. split; [exact E | split; [exact G |]].
  destruct D as [[Er D] | (L & Ei & D)].
  - rewrite Er. split; [exact B |]. destruct D as [[-> _] | [-> D]]; [left; reflexivity | right; now split].
  - pose proof (is_bytes_stream (rx s) B) as By. destruct G as (_ & _ & W & b & i & n & Er). rewrite <- W in By.
    destruct B as [B1 B2 B3 B4 B5 B6 B7]. pose proof Hs as [Hs1 Hs2]. unfold stream in By. rewrite Ei in By. apply is_bytes_app in By as [By1 By2].
    change (drop (Z.to_nat 0) (inputBuffer (rx s'))) with (inputBuffer (rx s')) in By1. split.
    + split; try assumption; [lia | destruct D; lia | ..]; rewrite Er; assumption.
    + destruct D as [[-> D] | [D _]]; [right | now left]. split; [reflexivity |]. unfold buffered. lia.
Qed.

Lemma stage_init_post s : rx_inv s -> processReply (rx s) = doProcessInit ->
  stage_post (measure (rx s)) (fun s' => rx_inv s' /\ buffered RECORD_HEADER_SZ (rx s') /\
    (input_left (rx s') <= measure (rx s))%nat /\ processReply (rx s') = doProcessInit)
    (stage_init s).
Proof.
  intros (B & _ & E) P. unfold stage_init.
  destruct (GetInputData_base RECORD_HEADER_SZ s B ltac:(split; unfold RECORD_HEADER_SZ; lia)) as (c & s' & -> & (Ee & _ & W & b & i & n & Er) & B' & C).
  assert (P' : processReply (rx s') = doProcessInit) by (rewrite Er; exact P).
  assert (I : rx_inv s') by (split; [exact B' | split; [unfold rx_state; now rewrite P' | congruence]]).
  destruct C as [C | [-> C]].
  - rewrite (proj2 (Z.ltb_lt _ _) C). now apply ret_post.
  - split; [exact I | split; [exact C | split; [| exact P']]]. unfold measure. rewrite !input_left_stream, W. lia.
Qed.

Lemma stream_length r : rx_base r -> Z.of_nat (input_left r) = Z.max 0 (Zlen (inputBuffer r) - idx r) + Zlen (net_bytes (net r)).
Proof. intros [B _ _ _ _ _ _]. unfold input_left, Zlen. rewrite length_drop. lia. Qed.

Lemma slice_bytes l i n x : is_bytes l -> slice l i n = Some x -> is_bytes x.
Proof. unfold slice. intros B. destruct (_ && _); [| discriminate]. intros [= <-]. now apply Forall_take, Forall_drop. Qed.

(** A read of [n] bytes inside of the buffer. *)
Lemma slice_buffered n r : rx_base r -> 0 <= n -> buffered n r ->
  exists x, slice (inputBuffer r) (idx r) n = Some x /\ Zlen x = n /\ is_bytes x.
Proof.
  intros B Hn L. pose proof (rb_idx r B). eexists. split; [now apply slice_some |].
  split; [| now apply Forall_take, Forall_drop; apply B]. apply (input_slice_length (inputBuffer r) (idx r) n). now apply slice_some.
Qed.

Lemma GetRecordHeader_base r : rx_base r -> buffered RECORD_HEADER_SZ r ->
  exists c r', GetRecordHeader r = Some (c, r') /\ rx_base r' /\ idx r' = idx r + RECORD_HEADER_SZ /\
    inputBuffer r' = inputBuffer r /\ net r' = net r /\ processReply r' = processReply r /\ c <= 0 /\
    (c = 0 -> decryptedCur r' = false).
Proof.
  intros B L. destruct (slice_buffered RECORD_HEADER_SZ r B ltac:(discriminate) L) as (x & E & Lx & Bx). unfold GetRecordHeader.
  rewrite E. destruct x as [| a [| b [| c [| d [| e [| ? ?]]]]]]; try (exfalso; revert Lx; unfold Zlen, RECORD_HEADER_SZ; cbn [length]; lia).
  set (r1 := {_ with curSize := _}).
  assert (B1 : rx_base r1).
  { destruct B as [B1 B2 B3 B4 B5 B6 B7]. split; try assumption; [change (0 <= idx r + 5); lia | apply wrap_is_word; lia]. }
  assert (K : forall c, c < 0 -> exists c' r', Some (c, r1) = Some (c', r') /\ rx_base r' /\ idx r' = idx r + RECORD_HEADER_SZ /\
    inputBuffer r' = inputBuffer r /\ net r' = net r /\ processReply r' = processReply r /\ c' <= 0 /\
    (c' = 0 -> decryptedCur r' = false)).
  { intros c' Hc. exists c', r1. repeat (split; [reflexivity || assumption || lia |]). lia. }
  destruct (version_mismatch r1 && _); [now apply K |]. destruct (_ >? _); [now apply K |]. destruct (_ && _); [now apply K |].
  destruct (one_of _ _); [| now apply K]. exists 0, {r1 with decryptedCur := false}.
  split; [reflexivity | split; [| repeat (split; [reflexivity || lia |]); reflexivity]]. destruct B1. now split.
Qed.

Lemma stage_header_post n s : rx_inv s -> buffered RECORD_HEADER_SZ (rx s) -> (input_left (rx s) <= n)%nat ->
  processReply (rx s) = doProcessInit ->
  stage_post n (at_stage n getData) (stage_header s).
Proof.
  intros (B & _ & E) L M P. unfold stage_header.
  destruct (GetRecordHeader_base (rx s) B L) as (c & r & -> & B' & Ei & Eb & En & Ep & C & D).
  set (s1 := { s with rx := r }).
  assert (G : rx_inv s1) by (split; [exact B' | split; [| exact E]]; unfold rx_state; cbn; now rewrite Ep, P).
  destruct (Z.eqb_spec c 0) as [-> | N]; cbn [negb].
  - destruct (decryptOn r && _); [now apply ret_post; [apply send_alert_inv |] |].
    split; [| split; [reflexivity |]].
    + destruct B'. split; [now split | split; [now apply D | exact E]].
    + pose proof (stream_length _ B) as S1. pose proof (stream_length _ B') as S2.
      change (input_left (rx (at_state getData s1))) with (input_left r). rewrite Ei, Eb, En in S2.
      unfold buffered, RECORD_HEADER_SZ in *. lia.
  - apply ret_post; [| lia]. destruct (_ && _); [now apply send_alert_inv |]. destruct (c =? _); [now apply send_alert_inv | exact G].
Qed.

Lemma stage_data_post n s : at_stage n getData s -> stage_post n (at_stage n decryptMessage) (stage_data s).
Proof.
  intros ((B & P & E) & Q & M). unfold stage_data. unfold rx_state in P. rewrite Q in P.
  destruct (GetInputData_base (curSize (rx s)) s B (rb_cur _ B)) as (c & s' & -> & (Ee & _ & W & b & i & k & Er) & B' & C).
  assert (Q' : processReply (rx s') = getData /\ decryptedCur (rx s') = false /\ curSize (rx s') = curSize (rx s)) by (rewrite Er; repeat split; assumption).
  destruct Q' as (Q' & P' & Cs). rewrite <- Cs in C.
  assert (I : rx_inv s') by (split; [exact B' | split; [unfold rx_state; now rewrite Q' | congruence]]).
  destruct C as [C | [-> C]]; [rewrite (proj2 (Z.ltb_lt _ _) C); now apply ret_post |]. cbn [Z.ltb Z.compare].
  destruct (_ && _); [now apply ret_post; [apply send_alert_inv |] |].
  split; [| split; [reflexivity |]].
  - split; [destruct B'; split; try assumption; discriminate | split; [exact (conj P' C) | apply I]].
  - change (input_left (rx s') < n)%nat. now rewrite input_left_stream, W, <- input_left_stream.
Qed.

Context `{!RecordCryptoSpec S}.

(** Decryption in place keeps the length of the buffer. *)
Lemma DecryptTls13_base sz aad s : rx_base (rx s) -> 0 <= sz -> buffered sz (rx s) ->
  exists c b k, DecryptTls13 sz aad s =
    Some (c, set_rx { s with tx := { tx s with keys := k } } (fun r => { r with inputBuffer := b })) /\
    Zlen b = Zlen (inputBuffer (rx s)) /\ is_bytes b /\ c <= 0 /\ (0 <= c -> aead_mac_size <= sz).
Proof.
  intros B Hs L. unfold DecryptTls13. pose proof (rb_idx _ B) as Hi. pose proof aead_mac_size_range as Ma.
  destruct (Z.ltb_spec sz aead_mac_size) as [C | C].
  { exists BAD_FUNC_ARG, (inputBuffer (rx s)), (keys (tx s)). split; [f_equal; f_equal; destruct s as [t r]; now destruct t, r |].
    split; [reflexivity | split; [apply B | split; [discriminate | unfold BAD_FUNC_ARG; lia]]]. }
  destruct (BuildTls13Nonce _ _ _ _ _ _) as [nonce k]. change (rx { s with tx := { tx s with keys := k } }) with (rx s).
  destruct (slice_buffered sz (rx s) B Hs L) as (x & -> & Lx & Bx).
  assert (Lm : aead_mac_size <= Zlen x) by (rewrite Lx; exact C).
  pose proof (rc_decrypt_length (decSecret (rx s)) nonce aad x Lm) as Lt.
  pose proof (rc_decrypt_bytes (decSecret (rx s)) nonce aad x Bx) as Bt.
  pose proof (rc_decrypt_code (decSecret (rx s)) nonce aad x) as Ct.
  destruct (rc_decrypt _ _ _ _) as [c text]. cbn [fst snd] in *. eexists c, _, k. split; [reflexivity |]. unfold buffered in L.
  change (rx { s with tx := { tx s with keys := k } }) with (rx s). split; [| split; [| split; [apply Ct | intros; exact C]]].
  - pose proof (Zlen_nonneg text). rewrite Lx in Lt. rewrite !Zlen_app, Zlen_take, Zlen_drop by lia. lia.
  - apply is_bytes_app. split; [apply Forall_take, B |]. apply is_bytes_app. split; [exact Bt | apply Forall_drop, B].
Qed.

Lemma input_left_same r r' : Zlen (inputBuffer r') = Zlen (inputBuffer r) -> idx r' = idx r -> net r' = net r ->
  input_left r' = input_left r.
Proof. unfold input_left, Zlen. intros L -> ->. rewrite !length_drop. lia. Qed.

Lemma stage_decrypt_post n s : at_stage n decryptMessage s -> stage_post n (at_stage n verifyMessage) (stage_decrypt s).
Proof.
  intros ((B & P & E) & Q & M). unfold stage_decrypt. unfold rx_state in P. rewrite Q in P. destruct P as [D L].
  destruct (protected (rx s)) eqn:Pr.
  - unfold DoDecrypt, SanityCheckCipherText. destruct (Z.ltb_spec (curSize (rx s)) aead_mac_size) as [Sm | Sm].
    { cbn [Z.ltb Z.compare SANITY_CIPHER_E Z.leb]. apply ret_post; [apply send_alert_inv | reflexivity].
      split; [exact B | split; [unfold rx_state; rewrite Q; now split | exact E]]. }
    cbn [Z.ltb Z.compare].
    destruct (DecryptTls13_base (curSize (rx s)) ([curRL_type (rx s); curRL_pvMajor (rx s); curRL_pvMinor (rx s)] ++ curRL_length (rx s)) s B)
      as (c & b & k & -> & Lb & Bb & C & _); [apply (rb_cur _ B) | exact L |].
    set (s1 := set_rx _ _). assert (B1 : rx_base (rx s1)).
    { destruct B. split; try assumption. change (Zlen b < 2 ^ 31). now rewrite Lb. }
    assert (L1 : buffered (curSize (rx s1)) (rx s1)).
    { unfold buffered in *. change (idx (rx s) + curSize (rx s) <= Zlen b). now rewrite Lb. }
    assert (M1 : input_left (rx s1) = input_left (rx s)) by now apply input_left_same.
    destruct (Z.leb_spec 0 c).
    + split; [| split; [reflexivity | change (input_left (rx s1) < n)%nat; lia]].
      split; [now destruct B1 | split; [split; [exact L1 | intros; exact Sm] | exact E]].
    + apply ret_post; [apply send_alert_inv | lia].
      split; [exact B1 | split; [unfold rx_state; change (processReply (rx s1)) with (processReply (rx s)); rewrite Q; now split | exact E]].
  - split; [| split; [reflexivity | exact M]]. split; [now destruct B | split; [| exact E]].
    split; [exact L |]. intros _ [Pr' | D']; [change (protected (rx s) = true) in Pr' | change (decryptedCur (rx s) = true) in D']; congruence.
Qed.

Lemma skip_padding_range m buf : forall i start, start - 1 <= i -> start - 1 <= skip_padding m buf i start <= i.
Proof.
  induction m as [| m IH]; intros i start L; cbn [skip_padding]; [lia |].
  destruct (Z.gtb_spec i start); cbn [andb]; [| lia]. destruct (rd buf i =? 0); [| lia].
  specialize (IH (i - 1) start ltac:(lia)). lia.
Qed.

(** [removeMsgInnerPadding] stays inside of the record and its header. *)
Lemma removeMsgInnerPadding_base s : rx_base (rx s) -> buffered (curSize (rx s)) (rx s) -> aead_mac_size <= curSize (rx s) ->
  exists c s', removeMsgInnerPadding s = Some (c, s') /\ c <= 0 /\ (error (tx s') = error (tx s)) /\
    exists t p, 0 <= p /\ rx s' = { { rx s with curRL_type := t } with padSz := p }.
Proof.
  intros B L Ma. pose proof B as [B1 B2 B3 B4 B5 B6 B7]. pose proof aead_mac_size_range as Mr. unfold buffered in L.
  unfold removeMsgInnerPadding.
  assert (N : rx s = { { rx s with curRL_type := curRL_type (rx s) } with padSz := padSz (rx s) }) by now destruct (rx s).
  rewrite (wrap_small 32 (idx (rx s) + curSize (rx s) - aead_mac_size)) by (unfold is_word in *; lia).
  destruct (Z.gtb_spec (idx (rx s) + curSize (rx s) - aead_mac_size) (Zlen (inputBuffer (rx s)))) as [G | G]; [lia |].
  destruct (Z.eqb_spec (idx (rx s) + curSize (rx s) - aead_mac_size) 0) as [Z0 | Z0]; cbn [orb].
  { exists BUFFER_ERROR, s. split; [reflexivity | split; [discriminate | split; [reflexivity |]]]. now exists (curRL_type (rx s)), (padSz (rx s)). }
  set (i := skip_padding _ _ _ _).
  assert (Ri : idx (rx s) - 1 <= i <= idx (rx s) + curSize (rx s) - aead_mac_size - 1) by (apply skip_padding_range; lia).
  assert (0 <= i).
  { unfold i. destruct (Z.eq_dec (idx (rx s)) 0) as [I0 |]; [| lia]. subst i. revert Ri. generalize (Z.to_nat (idx (rx s) + curSize (rx s) - aead_mac_size)).
    intros m. rewrite I0. assert (forall m k, 0 <= k -> 0 <= skip_padding m (inputBuffer (rx s)) k 0) as K.
    { clear. induction m as [| m IH]; intros k Hk; cbn [skip_padding]; [exact Hk |]. destruct (Z.gtb_spec k 0); cbn [andb]; [| exact Hk]. destruct (_ =? 0); [apply IH; lia | exact Hk]. }
    intros _. apply K. unfold is_word in *. lia. }
  rewrite slice_some by lia. pose proof (input_slice_length (inputBuffer (rx s)) i 1 _ ltac:(apply slice_some; lia)) as Lx.
  destruct (take _ _) as [| t [| ? ?]]; try (exfalso; revert Lx; unfold Zlen; cbn [length]; lia).
  destruct (t =? 0).
  - exists PARSE_ERROR. eexists. split; [reflexivity |]. split; [discriminate |]. split; [apply SendAlert_error |].
    exists t, (padSz (rx s)). split; [exact B6 |]. rewrite send_alert_rx. unfold set_rx. cbn [rx]. now destruct (rx s).
  - exists 0. eexists. split; [reflexivity |]. split; [lia | split; [reflexivity |]].
    exists t. eexists. split; [| reflexivity]. apply wrap_range. lia.
Qed.

(** The record behind the checks of [verifyMessage]: content and padding are in the buffer. *)
Lemma message_start n s : rx_base (rx s) -> buffered (curSize (rx s)) (rx s) -> error (tx s) <= 0 ->
  (input_left (rx s) < n)%nat -> (decryptOn (rx s) = true -> padSz (rx s) <= curSize (rx s)) ->
  at_stage n runProcessingOneMessage
    (at_state runProcessingOneMessage
       (set_rx (if decryptOn (rx s) then set_rx s (fun r => { r with curSize := u16 (curSize r - u16 (padSz r)) }) else s)
          (fun r => { r with curStartIdx := idx r }))).
Proof.
  intros B L E M Hp. pose proof B as [B1 B2 B3 B4 B5 B6 B7]. unfold buffered in L. set (s2 := at_state _ _).
  assert (F : (is_word 16 (curSize (rx s2)) /\ curSize (rx s2) <= curSize (rx s)) /\ inputBuffer (rx s2) = inputBuffer (rx s) /\
    idx (rx s2) = idx (rx s) /\ net (rx s2) = net (rx s) /\ padSz (rx s2) = padSz (rx s) /\ pending (rx s2) = pending (rx s) /\
    curStartIdx (rx s2) = idx (rx s) /\ error (tx s2) = error (tx s)).
  { unfold s2. destruct (decryptOn (rx s)); (split; [| repeat (split; [reflexivity |]); reflexivity]); [| split; [exact B5 | reflexivity]].
    specialize (Hp eq_refl). pose proof B5 as [C1 C2].
    change (is_word 16 (u16 (curSize (rx s) - u16 (padSz (rx s)))) /\ u16 (curSize (rx s) - u16 (padSz (rx s))) <= curSize (rx s)).
    rewrite (wrap_small 16 (padSz (rx s))) by (unfold is_word; lia). rewrite wrap_small by (unfold is_word; lia). unfold is_word. lia. }
  destruct F as ((Fc & Fl) & Fb & Fi & Fn & Fp & Fe & Fs & Fr).
  split; [| split; [reflexivity |]].
  - split; [split; rewrite ?Fb, ?Fi, ?Fn, ?Fp, ?Fe; assumption | split; [| now rewrite Fr]].
    change (rx_state (rx s2)) with (0 <= curStartIdx (rx s2) <= idx (rx s2) /\
      (curRL_type (rx s2) = handshake -> curStartIdx (rx s2) + curSize (rx s2) <= Zlen (inputBuffer (rx s2))) /\
      (curRL_type (rx s2) = application_data -> idx (rx s2) = curStartIdx (rx s2) /\ buffered (curSize (rx s2)) (rx s2))).
    unfold buffered. rewrite Fb, Fi, Fs. repeat split; lia.
  - rewrite (input_left_same (rx s)); [exact M | congruence ..].
Qed.

Lemma stage_verify_post n s : at_stage n verifyMessage s -> stage_post n (at_stage n runProcessingOneMessage) (stage_verify s).
Proof.
  intros ((B & P & E) & Q & M). unfold stage_verify. unfold rx_state in P. rewrite Q in P. destruct P as [L Ma].
  set (s1 := if protected (rx s) then _ else s).
  assert (F : rx_base (rx s1) /\ buffered (curSize (rx s1)) (rx s1) /\ error (tx s1) <= 0 /\ input_left (rx s1) = input_left (rx s) /\
    processReply (rx s1) = verifyMessage /\ (decryptOn (rx s1) = true -> protected (rx s1) = true \/ decryptedCur (rx s1) = true -> aead_mac_size <= curSize (rx s1))).
  { pose proof aead_mac_size_range. unfold s1. destruct (protected (rx s)) eqn:Pr.
    - split; [destruct B; split; try assumption; change (0 <= aead_mac_size); lia |]. repeat (split; [assumption || reflexivity |]).
      intros D _. apply Ma; [exact D | now left].
    - repeat (split; [assumption || reflexivity |]). intros D C. apply Ma; [exact D | destruct C; [congruence | now right]]. }
  clearbody s1. clear B L Ma E. destruct F as (B & L & E & I & Q1 & Ma). rewrite <- I in M. clear s Q I.
  assert (R : exists c s', (if decryptOn (rx s1) && decryptedCur (rx s1) then removeMsgInnerPadding s1 else Some (0, s1)) = Some (c, s') /\
    c <= 0 /\ error (tx s') = error (tx s1) /\
    (decryptOn (rx s1) = true -> protected (rx s') = true \/ decryptedCur (rx s1) = true -> aead_mac_size <= curSize (rx s1)) /\
    exists t p, 0 <= p /\ rx s' = { { rx s1 with curRL_type := t } with padSz := p }).
  { destruct (decryptOn (rx s1) && decryptedCur (rx s1)) eqn:D.
    - apply andb_true_iff in D as [D C]. destruct (removeMsgInnerPadding_base s1 B L ltac:(auto)) as (c & s' & R1 & R2 & R3 & R4).
      exists c, s'. repeat (split; [assumption || auto |]). exact R4.
    - exists 0, s1. split; [reflexivity | split; [lia | split; [reflexivity | split; [exact Ma |]]]]. exists (curRL_type (rx s1)), (padSz (rx s1)).
      split; [apply (rb_pad _ B) | now destruct (rx s1)]. }
  destruct R as (c & s2 & -> & C & E2 & Ma2 & t & p & Hp & Er). rewrite <- E2 in E. clear E2.
  assert (B2 : rx_base (rx s2)) by (rewrite Er; destruct B; split; assumption).
  assert (L2 : buffered (curSize (rx s2)) (rx s2)) by (rewrite Er; exact L).
  assert (M2 : (input_left (rx s2) < n)%nat) by (rewrite Er; exact M).
  assert (I2 : rx_inv s2).
  { split; [exact B2 | split; [| exact E]]. unfold rx_state. replace (processReply (rx s2)) with verifyMessage by now rewrite Er.
    split; [exact L2 |]. clear - Ma2 Er. rewrite Er in *. exact Ma2. }
  clear Ma Ma2 Er B L M Q1 Hp t p s1. destruct (Z.eqb_spec c 0) as [-> | N]; cbn [negb]; [| apply ret_post; [exact I2 | lia]].
  destruct (decryptOn (rx s2)) eqn:D; cbn [andb].
  - destruct (Z.gtb_spec (padSz (rx s2)) (curSize (rx s2))) as [G | G]; [now apply ret_post |].
    pose proof (message_start n s2 B2 L2 E M2 (fun _ => G)) as K. now rewrite D in K.
  - pose proof (message_start n s2 B2 L2 E M2) as K. rewrite D in K. apply K. discriminate.
Qed.


(** What the content of a record leaves behind. *)
Definition in_record (r : Rx) : Prop :=
  0 <= curStartIdx r <= idx r /\ (curRL_type r = handshake -> curStartIdx r + curSize r <= Zlen (inputBuffer r)).

Definition content_post (s : Ssl) (o : option (Z * Ssl)) : Prop :=
  match o with
  | None => False
  | Some (c, s') =>
      (c < 0 /\ c <> WANT_READ /\ rx_inv s') \/
      (c = 0 /\ rx_base (rx s') /\ error (tx s') <= 0 /\ in_record (rx s') /\
       inputBuffer (rx s') = inputBuffer (rx s) /\ net (rx s') = net (rx s) /\ idx (rx s) <= idx (rx s') /\
       (idx (rx s') - curStartIdx (rx s') < curSize (rx s') -> idx (rx s) < idx (rx s') /\ curRL_type (rx s') <> application_data))
  end.

Definition at_message (s : Ssl) : Prop := rx_inv s /\ processReply (rx s) = runProcessingOneMessage /\ idx (rx s) < Zlen (inputBuffer (rx s)).

Lemma at_message_record s : at_message s -> in_record (rx s) /\
  (curRL_type (rx s) = application_data -> idx (rx s) = curStartIdx (rx s) /\ buffered (curSize (rx s)) (rx s)).
Proof. intros ((_ & P & _) & Q & _). unfold rx_state in P. rewrite Q in P. unfold in_record. tauto. Qed.

(** A refusal that left the record where it was, or moved within one that is neither
    handshake nor application data. *)
Lemma content_refused s s' c : at_message s -> c < 0 -> c <> WANT_READ -> error (tx s') <= 0 ->
  (exists m, rx s' = { rx s with msgsReceived := m }) -> content_post s (Some (c, s')).
Proof.
  intros ((B & P & E) & Q & _) Hc Hw E' (m & Er). left. split; [exact Hc | split; [exact Hw |]]. split; [| split; [| exact E']]; rewrite Er.
  - now destruct B.
  - exact P.
Qed.

Lemma DoChangeCipherSpecTls13_post s : at_message s -> curRL_type (rx s) = change_cipher_spec -> content_post s (DoChangeCipherSpecTls13 s).
Proof.
  intros A T0. pose proof A as ((B & P & E) & Q & L). destruct (at_message_record s A) as [[R1 R2] _]. unfold DoChangeCipherSpecTls13.
  assert (K : forall a, content_post s (Some (UNKNOWN_RECORD_TYPE, send_alert alert_fatal a s))).
  { intros a. apply content_refused; [exact A | reflexivity | discriminate | cbn; rewrite SendAlert_error; exact E |].
    exists (msgsReceived (rx s)). rewrite send_alert_rx. now destruct (rx s). }
  destruct (_ =? HANDSHAKE_DONE); [apply K |]. destruct (Z.eqb_spec (curSize (rx s)) 1) as [C | C]; cbn [negb]; [| apply K].
  destruct (slice_buffered 1 (rx s) B ltac:(lia)) as (x & -> & Lx & _); [unfold buffered; lia |].
  destruct x as [| b [| ? ?]]; try (exfalso; revert Lx; unfold Zlen; cbn [length]; lia).
  destruct (negb (b =? 1)); [apply K |]. set (s1 := set_rx s _).
  assert (B1 : rx_base (rx s1)) by (destruct B as [B1 ? ? ? ? ? ?]; split; try assumption; change (0 <= idx (rx s) + 1); lia).
  assert (K1 : forall s2, (exists m, rx s2 = { rx s1 with msgsReceived := m }) -> error (tx s2) <= 0 ->
    forall a, content_post s (Some (UNKNOWN_RECORD_TYPE, send_alert alert_fatal a s2))).
  { intros s2 (m & Er) E2 a. left. split; [reflexivity | split; [discriminate |]]. apply send_alert_inv. split; [rewrite Er; now destruct B1 | split; [| exact E2]]. rewrite Er.
    unfold rx_state. change (processReply { rx s1 with msgsReceived := m }) with (processReply (rx s)). rewrite Q.
    change (0 <= curStartIdx (rx s) <= idx (rx s) + 1 /\ (curRL_type (rx s) = handshake -> curStartIdx (rx s) + curSize (rx s) <= Zlen (inputBuffer (rx s))) /\
      (curRL_type (rx s) = application_data -> idx (rx s) + 1 = curStartIdx (rx s) /\ buffered (curSize (rx s)) (rx s1))).
    rewrite T0. split; [lia | split; [exact (fun H => R2 ltac:(congruence)) | discriminate]]. }
  destruct (_ && _); [apply K1; [exists (msgsReceived (rx s1)); now destruct (rx s1) | exact E] |].
  destruct (got_change_cipher _); [apply K1; [exists (msgsReceived (rx s1)); now destruct (rx s1) | exact E] |].
  set (s2 := set_rx s1 _). destruct (decryptedCur (rx s2)); [apply K1; [eexists; reflexivity | exact E] |].
  right. split; [reflexivity |]. split; [now destruct B1 | split; [exact E |]].
  change (in_record (rx s2)) with (0 <= curStartIdx (rx s) <= idx (rx s) + 1 /\ (curRL_type (rx s) = handshake -> curStartIdx (rx s) + curSize (rx s) <= Zlen (inputBuffer (rx s)))).
  change (idx (rx s2)) with (idx (rx s) + 1). change (curRL_type (rx s2)) with (curRL_type (rx s)). rewrite T0.
  split; [split; [lia | discriminate] |]. split; [reflexivity | split; [reflexivity | split; [lia |]]]. intros _. split; [lia | discriminate].
Qed.

Lemma DoProcessAppDataRecord_post s : at_message s -> curRL_type (rx s) = application_data -> content_post s (DoProcessAppDataRecord s).
Proof.
  intros A T0. pose proof A as ((B & P & E) & Q & L). destruct (at_message_record s A) as [[R1 _] R]. destruct (R T0) as [R2 R3].
  assert (N : exists m, rx s = { rx s with msgsReceived := m }) by (exists (msgsReceived (rx s)); now destruct (rx s)).
  unfold DoProcessAppDataRecord. destruct (keyUpdateRespond (tx s)); [now apply content_refused; [.. | discriminate | |] |]. unfold DoApplicationData.
  destruct (handShakeDone (rx s)); cbn [negb].
  2: { apply content_refused; [exact A | reflexivity | discriminate | cbn; rewrite SendAlert_error; exact E | exact N]. }
  destruct (Z.eqb_spec (curSize (rx s)) 0) as [C | C].
  - set (s1 := set_rx s _). assert (B1 : rx_base (rx s1)) by (destruct B; now split).
    destruct (_ <=? _).
    + left. split; [reflexivity | split; [discriminate | split; [exact B1 | split; [exact P | exact E]]]].
    + right. split; [reflexivity | split; [exact B1 | split; [exact E |]]].
      split; [split; [exact R1 | intros H'; exfalso; change (curRL_type (rx s) = handshake) in H'; rewrite T0 in H'; discriminate] |].
      split; [reflexivity | split; [reflexivity | split; [reflexivity |]]].
      change (idx (rx s) - curStartIdx (rx s) < curSize (rx s) -> idx (rx s) < idx (rx s) /\ curRL_type (rx s) <> application_data). lia.
  - destruct (slice_buffered (curSize (rx s)) (rx s) B ltac:(apply (rb_cur _ B)) R3) as (x & -> & Lx & Bx).
    set (s1 := set_rx s _). pose proof (rb_cur _ B) as [C1 _].
    right. split; [reflexivity |]. split; [destruct B; split; try assumption; change (0 <= idx (rx s) + curSize (rx s)); lia | split; [exact E |]].
    split; [split; [change (0 <= curStartIdx (rx s) <= idx (rx s) + curSize (rx s)); lia | intros H'; exfalso; change (curRL_type (rx s) = handshake) in H'; rewrite T0 in H'; discriminate] |].
    split; [reflexivity | split; [reflexivity |]].
    change (idx (rx s) <= idx (rx s) + curSize (rx s) /\ (idx (rx s) + curSize (rx s) - curStartIdx (rx s) < curSize (rx s) ->
      idx (rx s) < idx (rx s) + curSize (rx s) /\ curRL_type (rx s) <> application_data)). lia.
Qed.

(** What an alert leaves: two bytes read, or none of it was one. *)
Lemma DoAlert_base s : rx_base (rx s) ->
  exists c t s', DoAlert s = Some (c, t, s') /\ c <> WANT_READ /\ error (tx s') = error (tx s) /\
    (exists i a b n d, rx s' = { { { { { rx s with idx := i } with last_rx_code := a } with last_rx_level := b } with alertCount := n } with closeNotify := d } /\
       (i = idx (rx s) /\ c < 0 \/ i = idx (rx s) + ALERT_SIZE /\ curSize (rx s) = ALERT_SIZE)).
Proof.
  intros B. unfold DoAlert. pose proof (rb_idx _ B) as Hi.
  destruct (Z.eqb_spec (curSize (rx s)) ALERT_SIZE) as [C | C], (Z.gtb_spec (idx (rx s) + ALERT_SIZE) (Zlen (inputBuffer (rx s)))) as [G | G]; cbn [negb orb].
  1, 3, 4: exists BUFFER_E, internal_error, s; split; [reflexivity | split; [discriminate | split; [reflexivity |]]];
    exists (idx (rx s)), (last_rx_code (rx s)), (last_rx_level (rx s)), (alertCount (rx s)), (closeNotify (rx s));
    split; [now destruct (rx s) | left; split; [reflexivity | reflexivity]].
  destruct (slice_buffered ALERT_SIZE (rx s) B ltac:(discriminate) G) as (x & -> & Lx & Bx).
  destruct x as [| level [| code [| ? ?]]]; try (exfalso; revert Lx; unfold Zlen, ALERT_SIZE; cbn [length]; lia).
  set (s1 := set_rx s _). set (s2 := if _ || _ then _ else s1).
  assert (F : rx s2 = rx s1 /\ error (tx s2) = error (tx s)) by (unfold s2; destruct (_ || _); split; reflexivity).
  clearbody s2. destruct F as [Fr Fe]. set (s3 := set_rx s2 _).
  assert (R : forall s', rx s' = rx s3 \/ rx s' = { rx s3 with closeNotify := true } -> exists i a b n d,
    rx s' = { { { { { rx s with idx := i } with last_rx_code := a } with last_rx_level := b } with alertCount := n } with closeNotify := d } /\
    (forall c : Z, i = idx (rx s) /\ c < 0 \/ i = idx (rx s) + ALERT_SIZE /\ curSize (rx s) = ALERT_SIZE)).
  { assert (E3 : rx s3 = { rx s1 with alertCount := u8 (alertCount (rx s2) + 1) }) by (unfold s3, set_rx; cbn [rx]; now rewrite Fr).
    intros s' [-> | ->]; rewrite E3;
      [exists (idx (rx s) + ALERT_SIZE), code, level, (u8 (alertCount (rx s2) + 1)), (closeNotify (rx s))
      | exists (idx (rx s) + ALERT_SIZE), code, level, (u8 (alertCount (rx s2) + 1)), true];
      (split; [unfold s1, set_rx; cbn [rx]; now destruct (rx s) | intros c; now right]). }
  destruct (_ <=? _).
  { exists ALERT_COUNT_E, code, s3. split; [reflexivity | split; [discriminate | split; [exact Fe |]]].
    destruct (R s3 (or_introl eq_refl)) as (i & a & b & n & d & Er & Eo). now exists i, a, b, n, d. }
  destruct (_ && _).
  { eexists PARSE_ERROR, code, _. split; [reflexivity | split; [discriminate | split; [etransitivity; [apply SendAlert_error | exact Fe] |]]].
    destruct (R s3 (or_introl eq_refl)) as (i & a & b & n & d & Er & Eo). now exists i, a, b, n, d. }
  exists level, code. eexists. split; [reflexivity | split; [apply Forall_cons in Bx as [[Bx _] _]; unfold WANT_READ; lia |]].
  destruct (code =? close_notify); (split; [exact Fe |]);
    [destruct (R (set_rx s3 (fun r => { r with closeNotify := true })) (or_intror eq_refl)) as (i & a & b & n & d & Er & Eo)
    | destruct (R s3 (or_introl eq_refl)) as (i & a & b & n & d & Er & Eo)]; now exists i, a, b, n, d.
Qed.

Lemma DoProcessAlertRecord_post s : at_message s -> curRL_type (rx s) = alert -> content_post s (DoProcessAlertRecord s).
Proof.
  intros A T0. pose proof A as ((B & P & E) & Q & L). destruct (at_message_record s A) as [[R1 R2] _]. unfold DoProcessAlertRecord.
  destruct (DoAlert_base s B) as (c & t & s' & -> & Nw & Ee & i & a & b & n & d & Er & Hi).
  assert (Hi' : idx (rx s) <= i) by (unfold ALERT_SIZE in *; lia).
  assert (B' : rx_base (rx s')).
  { rewrite Er. destruct B. split; try assumption. change (0 <= i). lia. }
  assert (P' : in_record (rx s')) by (rewrite Er; split; [change (0 <= curStartIdx (rx s) <= i); lia | exact R2]).
  assert (Bad : forall x, x < 0 -> x <> WANT_READ -> content_post s (Some (x, s'))).
  { intros x Hx Hw. left. split; [exact Hx | split; [exact Hw |]]. split; [exact B' | split; [| congruence]]. unfold rx_state.
    replace (processReply (rx s')) with runProcessingOneMessage by now rewrite Er. destruct P' as [P1 P2].
    split; [exact P1 | split; [exact P2 |]]. intros H'. rewrite Er in H'. change (curRL_type (rx s) = application_data) in H'. rewrite T0 in H'. discriminate. }
  destruct (_ && _); [now apply Bad |]. destruct (Z.ltb_spec c 0) as [N | N]; [now apply Bad |].
  destruct (t =? close_notify).
  { left. split; [reflexivity | split; [discriminate |]]. split; [| split; [exact I | discriminate]]. destruct B'. split; try assumption. apply Zlen_nonneg. }
  destruct (t =? decrypt_error); [now apply Bad |]. destruct (_ && _); [now apply Bad |].
  right. split; [reflexivity | split; [exact B' | split; [congruence | split; [exact P' |]]]]. rewrite Er.
  split; [reflexivity | split; [reflexivity |]]. change (idx (rx s) <= i /\ (i - curStartIdx (rx s) < curSize (rx s) -> idx (rx s) < i /\ curRL_type (rx s) <> application_data)).
  unfold ALERT_SIZE in *. rewrite T0. split; [lia |]. intros _. split; [lia | discriminate].
Qed.

Context `{!HandlersSpec H}.

(** What handlers change of the receiving state. *)
Definition handled (s s' : Ssl) : Prop :=
  error (tx s') = error (tx s) /\
  exists k m h, rx s' = { { { rx s with decSecret := k } with msgsReceived := m } with hs := h }.

Lemma handled_refl s : handled s s.
Proof. split; [reflexivity |]. exists (decSecret (rx s)), (msgsReceived (rx s)), (hs (rx s)). now destruct (rx s). Qed.

Lemma handled_trans s1 s2 s3 : handled s1 s2 -> handled s2 s3 -> handled s1 s3.
Proof.
  intros [E1 (k1 & m1 & h1 & R1)] [E2 (k2 & m2 & h2 & R2)]. split; [congruence |]. exists k2, m2, h2. rewrite R2, R1. reflexivity.
Qed.

Lemma handled_alert a b s : handled s (send_alert a b s).
Proof.
  split; [apply SendAlert_error |]. exists (decSecret (rx s)), (msgsReceived (rx s)), (hs (rx s)). rewrite send_alert_rx. now destruct (rx s).
Qed.

Lemma handled_tx t s : error t = error (tx s) -> handled s { s with tx := t }.
Proof. intros E. split; [exact E |]. exists (decSecret (rx s)), (msgsReceived (rx s)), (hs (rx s)). change (rx s = {{{rx s with decSecret := decSecret (rx s)} with msgsReceived := msgsReceived (rx s)} with hs := hs (rx s)}). now destruct (rx s). Qed.

Lemma DoTls13KeyUpdate_handled body n s : plain (fst (DoTls13KeyUpdate body n s)) /\ handled s (snd (DoTls13KeyUpdate body n s)).
Proof.
  unfold DoTls13KeyUpdate. destruct (negb (1 =? n)); [split; [now split | apply handled_refl] |].
  assert (G : forall t, error t = error (tx s) ->
    let s1 := update_decrypt_side { s with tx := t } in
    let x := if keyUpdateRespond (tx s1) then
               if Tls13KeyUpdateLimitReached (tx s1) then (0, { s1 with tx := { tx s1 with keyUpdateRespond := false } })
               else let '(ret, t) := SendTls13KeyUpdate (tx s1) in (ret, { s1 with tx := t })
             else (0, s1) in plain (fst x) /\ handled s (snd x)).
  { intros t Et s1.
    assert (Hs : forall t', error t' = error (tx s) -> handled s { s1 with tx := t' }).
    { intros t' Et'. split; [exact Et' |]. exists (rc_update (decSecret (rx s))), (msgsReceived (rx s)), (hs (rx s)).
      change ({ rx s with decSecret := rc_update (decSecret (rx s)) } = {{{rx s with decSecret := rc_update (decSecret (rx s))} with msgsReceived := msgsReceived (rx s)} with hs := hs (rx s)}). now destruct (rx s). }
    assert (E1 : error (tx s1) = error (tx s)) by exact Et.
    destruct (keyUpdateRespond (tx s1)); [destruct (Tls13KeyUpdateLimitReached (tx s1)) |].
    - split; [now split | now apply Hs].
    - pose proof (SendTls13KeyUpdate_error (tx s1)) as [C Ek]. destruct (SendTls13KeyUpdate (tx s1)) as [c t1].
      split; [exact C | apply Hs; cbn in *; congruence].
    - split; [now split |]. replace s1 with { s1 with tx := tx s1 } by now destruct s1. now apply Hs. }
  destruct (rd body 0 =? update_not_requested); [apply (G { { tx s with keyUpdateRespond := false } with updateResponseReq := false }); reflexivity |].
  destruct (rd body 0 =? update_requested); [apply (G { tx s with keyUpdateRespond := true }); reflexivity |]. split; [now split | apply handled_refl].
Qed.

Lemma DoTls13HandShakeMsgType_handled body i type size total s :
  let '(c, s') := DoTls13HandShakeMsgType body i type size total s in plain c /\ handled s s'.
Proof.
  unfold DoTls13HandShakeMsgType. set (g := DoTls13HandShakeMsgType_gate _ _ _ _ _ _).
  assert (Cg : plain (fst (fst g))).
  { unfold g, DoTls13HandShakeMsgType_gate. destruct (_ <? _); [now split |].
    pose proof (SanityCheckTls13MsgReceived_code (opts (rx s)) type (msgsReceived (rx s))) as C.
    destruct (SanityCheckTls13MsgReceived _ _ _) as [c m]. destruct (negb (c =? 0)); [exact C |].
    destruct (_ && _); [now split |]. destruct (_ && _); [now split |]. destruct (_ && _); now split. }
  clearbody g. destruct g as [[c m] alerts]. cbn [fst] in Cg.
  assert (F : forall l s1, handled s1 (fold_left (fun s a => send_alert (fst a) (snd a) s) l s1)).
  { induction l as [| [a b] l IH]; intros s1; cbn [fold_left]; [apply handled_refl |].
    eapply handled_trans; [apply handled_alert | apply IH]. }
  set (s1 := fold_left _ _ _). assert (H1' : handled s s1).
  { eapply handled_trans; [| apply F]. split; [reflexivity |]. exists (decSecret (rx s)), m, (hs (rx s)).
    change ({ rx s with msgsReceived := m } = {{{rx s with decSecret := decSecret (rx s)} with msgsReceived := m} with hs := hs (rx s)}). now destruct (rx s). }
  clearbody s1. destruct (negb (c =? 0)); [now split |].
  match goal with |- context [if type =? key_update then ?a else ?b] => set (x := if type =? key_update then a else b) end.
  assert (X : plain (fst x) /\ handled s1 (snd x)).
  { unfold x. destruct (type =? key_update); [apply DoTls13KeyUpdate_handled |].
    pose proof (handle_message_code type body (hs (rx s1))) as Ch. destruct (handle_message type body _) as [c' h]. split; [exact Ch |].
    split; [reflexivity |]. exists (decSecret (rx s1)), (msgsReceived (rx s1)), h.
    change ({ rx s1 with hs := h } = {{{rx s1 with decSecret := decSecret (rx s1)} with msgsReceived := msgsReceived (rx s1)} with hs := h}). now destruct (rx s1). }
  clearbody x. destruct x as [c' s2]. destruct X as [C2 H2']. cbn [fst snd] in *.
  destruct (_ && _); [| split; [exact C2 | eapply handled_trans; eassumption]].
  pose proof (SendAlert_error alert_fatal (TranslateErrorToAlert c') (tx s2)) as Es. destruct (SendAlert _ _ _) as [tmp t]. split.
  - destruct (tmp =? _); [now split | exact C2].
  - eapply handled_trans; [exact H1' |]. eapply handled_trans; [exact H2' | now apply handled_tx].
Qed.

Lemma MsgCheck_code a b c d e f g h : plain (MsgCheckEncryption a b c d e) /\ plain (MsgCheckBoundary f d g h).
Proof.
  unfold MsgCheckEncryption, MsgCheckBoundary.
  split; repeat match goal with |- context [if ?b then _ else _] => destruct b end; now split.
Qed.

Lemma EarlySanityCheckMsgReceived_handled type n s :
  let '(c, s') := EarlySanityCheckMsgReceived type n s in plain c /\ handled s s'.
Proof.
  unfold EarlySanityCheckMsgReceived. cbv zeta. set (c0 := if SERVER_HELLO_COMPLETE <=? _ then _ else 0). set (c1 := if c0 =? 0 then _ else c0).
  assert (C0 : plain c0) by (unfold c0; destruct (_ <=? _); [apply (MsgCheck_code _ _ _ _ _ true true true) | now split]).
  assert (C1 : plain c1) by (unfold c1; destruct (c0 =? 0); [apply (MsgCheck_code true true true _ true) | exact C0]).
  split; [exact C1 |]. destruct (negb _); [apply handled_alert | apply handled_refl].
Qed.

(** The index moved on inside of a handshake record. *)
Definition moved (s s' : Ssl) (i : Z) (p : option Pending) : Prop :=
  error (tx s') = error (tx s) /\
  exists k m h, rx s' = { { { { { rx s with idx := i } with pending := p } with decSecret := k } with msgsReceived := m } with hs := h }.

Lemma moved_handled s s1 s2 i p : moved s s1 i p -> handled s1 s2 -> moved s s2 i p.
Proof. intros [E1 (k & m & h & R1)] [E2 (k2 & m2 & h2 & R2)]. split; [congruence |]. exists k2, m2, h2. now rewrite R2, R1. Qed.

Lemma moved_set s s1 i p f j q : moved s s1 i p ->
  (forall r, idx r = i -> pending r = p -> f r = { { r with idx := j } with pending := q }) -> moved s (set_rx s1 f) j q.
Proof.
  intros [E1 (k & m & h & R1)] F. split; [exact E1 |]. exists k, m, h. unfold set_rx. change (f (rx s1) = {{{{{rx s with idx := j} with pending := q} with decSecret := k} with msgsReceived := m} with hs := h}).
  rewrite F by (now rewrite R1). now rewrite R1.
Qed.

Lemma moved_refl s : moved s s (idx (rx s)) (pending (rx s)).
Proof. split; [reflexivity |]. exists (decSecret (rx s)), (msgsReceived (rx s)), (hs (rx s)). now destruct (rx s). Qed.

Lemma content_moved s s' c i p : at_message s -> curRL_type (rx s) = handshake -> moved s s' i p -> plain c -> idx (rx s) <= i ->
  (forall q, p = Some q -> Zlen (pendingMsg q) < pendingMsgSz q) ->
  (c = 0 -> i - curStartIdx (rx s) < curSize (rx s) -> idx (rx s) < i) -> content_post s (Some (c, s')).
Proof.
  intros A T0 [Ee (k & m & h & Er)] [C Cw] Hi Hp Hc. pose proof A as ((B & P & E) & Q & L). destruct (at_message_record s A) as [[R1 R2] _].
  assert (B' : rx_base (rx s')).
  { rewrite Er. destruct B. split; try assumption. change (0 <= i). lia. }
  assert (I' : in_record (rx s')) by (rewrite Er; split; [change (0 <= curStartIdx (rx s) <= i); lia | exact R2]).
  destruct (Z.eq_dec c 0) as [-> | N].
  - right. split; [reflexivity | split; [exact B' | split; [congruence | split; [exact I' |]]]]. rewrite Er.
    split; [reflexivity | split; [reflexivity | split; [exact Hi |]]].
    change (i - curStartIdx (rx s) < curSize (rx s) -> idx (rx s) < i /\ curRL_type (rx s) <> application_data).
    intros Hl. split; [now apply Hc | rewrite T0; discriminate].
  - left. split; [lia | split; [exact Cw |]]. split; [exact B' | split; [| congruence]]. unfold rx_state.
    replace (processReply (rx s')) with runProcessingOneMessage by now rewrite Er.
    destruct I' as [I1 I2]. split; [exact I1 | split; [exact I2 |]]. intros H'. rewrite Er in H'.
    change (curRL_type (rx s) = application_data) in H'. rewrite T0 in H'. discriminate.
Qed.


(** A message that begins in this record. *)
Lemma DoTls13HandShakeMsg_begin s : at_message s -> curRL_type (rx s) = handshake -> pending (rx s) = None ->
  content_post s (DoTls13HandShakeMsg (curStartIdx (rx s) + curSize (rx s)) s).
Proof.
  intros A T0 Ep. pose proof A as ((B & P & E) & Q & L). destruct (at_message_record s A) as [[R1 R2] _]. specialize (R2 T0).
  pose proof (rb_idx _ B) as Hi. unfold DoTls13HandShakeMsg. rewrite Ep.
  set (total := curStartIdx (rx s) + curSize (rx s)) in *.
  assert (N : forall q, None = Some q -> Zlen (pendingMsg q) < pendingMsgSz q) by discriminate.
  pose proof (moved_refl s) as M0. rewrite Ep in M0.
  destruct (Z.gtb_spec (idx (rx s)) total) as [G | G]; [apply (content_moved s s _ _ _ A T0 M0); [now split | lia | exact N | discriminate] |].
  set (s1 := set_rx s _). set (j := idx (rx s) + HANDSHAKE_HEADER_SZ).
  assert (M1 : moved s s1 j None) by (apply (moved_set s s _ _ _ _ _ M0); intros r -> <-; now destruct r).
  assert (Done : forall c s2, plain c -> c <> 0 -> moved s s2 j None -> content_post s (Some (c, s2)))
    by (intros c s2 Hc Nc M2; apply (content_moved s s2 _ _ _ A T0 M2); [exact Hc | unfold j, HANDSHAKE_HEADER_SZ; lia | exact N | lia]).
  change (idx (rx s1)) with j. destruct (Z.gtb_spec j total) as [G1 | G1]; [now apply Done |].
  destruct (slice_buffered HANDSHAKE_HEADER_SZ (rx s) B ltac:(discriminate)) as (x & -> & Lx & Bx); [unfold buffered; fold j; lia |].
  destruct x as [| type [| b0 [| b1 [| b2 [| ? ?]]]]]; try (exfalso; revert Lx; unfold Zlen, HANDSHAKE_HEADER_SZ; cbn [length]; lia).
  set (size := Opaque.c24to32 _). assert (Hz : 0 <= size).
  { apply Forall_cons in Bx as [_ Bx]. unfold size. apply Z.lor_nonneg. split; [apply Z.lor_nonneg; split; apply wrap_range; lia |].
    apply Forall_cons in Bx as [_ Bx]. apply Forall_cons in Bx as [_ Bx]. apply Forall_cons in Bx as [Bx _]. apply Bx. }
  clearbody size. match goal with |- context [EarlySanityCheckMsgReceived type ?n s1] => pose proof (EarlySanityCheckMsgReceived_handled type n s1) as Ea; destruct (EarlySanityCheckMsgReceived type n s1) as [c s2] end.
  destruct Ea as [C H2']. pose proof (moved_handled _ _ _ _ _ M1 H2') as M2.
  destruct (Z.eqb_spec c 0) as [-> | Nc]; cbn [negb]; [| now apply Done].
  destruct (size >? MAX_HANDSHAKE_SZ); [now apply Done |].
  unfold j, HANDSHAKE_HEADER_SZ in *. destruct (Z.ltb_spec (total - idx (rx s) - 4) size) as [W | W].
  - rewrite slice_some by lia.
    match goal with |- context [@Some Pending ?x] => apply (content_moved s _ _ (idx (rx s) + 4 + (total - idx (rx s) - 4)) (Some x) A T0) end;
      [eapply moved_set; [exact M2 | intros r Ir Pr; rewrite Ir; destruct r; reflexivity] | now split | lia | | intros; lia].
    intros q [= <-]. cbn [pendingMsg pendingMsgSz]. rewrite Zlen_take by (rewrite Zlen_drop by lia; lia). lia.
  - rewrite slice_some by lia. match goal with |- context [DoTls13HandShakeMsgType ?b ?i ?t ?z ?l s2] => pose proof (DoTls13HandShakeMsgType_handled b i t z l s2) as Hh; destruct (DoTls13HandShakeMsgType b i t z l s2) as [c s3] end.
    destruct Hh as [C3 H3']. pose proof (moved_handled _ _ _ _ _ M2 H3') as M3.
    destruct (Z.eqb_spec c 0) as [-> | Nc]; [| now apply Done].
    apply (content_moved s _ _ (idx (rx s) + 4 + size) None A T0); [eapply moved_set; [exact M3 | intros r Ir Pr; rewrite Ir; destruct r; cbn in Pr; subst; reflexivity] | now split | lia | exact N | intros; lia].
Qed.
(** More of a message that began in an earlier record. *)
Lemma DoTls13HandShakeMsg_more s p : at_message s -> curRL_type (rx s) = handshake -> pending (rx s) = Some p ->
  content_post s (DoTls13HandShakeMsg (curStartIdx (rx s) + curSize (rx s)) s).
Proof.
  intros A T0 Ep. pose proof A as ((B & P & E) & Q & L). destruct (at_message_record s A) as [[R1 R2] _]. specialize (R2 T0).
  pose proof (rb_idx _ B) as Hi. pose proof (rb_pending _ B) as Hp. unfold DoTls13HandShakeMsg. rewrite Ep.
  set (total := curStartIdx (rx s) + curSize (rx s)) in *. pose proof (moved_refl s) as M0.
  destruct (Z.gtb_spec (idx (rx s)) total) as [G | G]; [apply (content_moved s s _ _ _ A T0 M0); [now split | lia | exact Hp | discriminate] |].
  specialize (Hp p Ep). set (n := if total - idx (rx s) + Zlen (pendingMsg p) >? pendingMsgSz p then _ else _).
  assert (Hn : 0 <= n <= total - idx (rx s) /\ Zlen (pendingMsg p) + n <= pendingMsgSz p /\ (idx (rx s) < total -> 0 < n)).
  { unfold n. pose proof (Zlen_nonneg (pendingMsg p)). destruct (Z.gtb_spec (total - idx (rx s) + Zlen (pendingMsg p)) (pendingMsgSz p)); lia. }
  clearbody n. pose proof (EarlySanityCheckMsgReceived_handled (pendingMsgType p) n s) as Ea.
  destruct (EarlySanityCheckMsgReceived (pendingMsgType p) n s) as [c s1]. destruct Ea as [C H1'].
  pose proof (moved_handled _ _ _ _ _ M0 H1') as M1.
  destruct (Z.eqb_spec c 0) as [-> | Nc]; cbn [negb].
  2: { apply (content_moved s s1 _ _ _ A T0 M1); [exact C | lia | intros q Eq; rewrite Ep in Eq; now injection Eq as <- | lia]. }
  rewrite slice_some by lia. set (part := take _ _). assert (Lp : Zlen part = n) by (unfold part; apply Zlen_take; rewrite Zlen_drop; lia).
  set (p' := {| pendingMsgType := _ |}). set (s2 := set_rx s1 _).
  assert (M2 : moved s s2 (idx (rx s) + n) (Some p')) by (eapply moved_set; [exact M1 | intros r Ir Pr; rewrite Ir; destruct r; reflexivity]).
  clearbody s2. assert (Lp' : Zlen (pendingMsg p') = Zlen (pendingMsg p) + n) by (change (pendingMsg p') with (pendingMsg p ++ part); rewrite Zlen_app; lia).
  destruct (Z.eqb_spec (Zlen (pendingMsg p')) (pendingMsgSz p')) as [Full | Part].
  - match goal with |- context [DoTls13HandShakeMsgType ?b ?i ?t ?z ?l s2] => pose proof (DoTls13HandShakeMsgType_handled b i t z l s2) as Hh; destruct (DoTls13HandShakeMsgType b i t z l s2) as [c s3] end.
    destruct Hh as [C3 H3']. pose proof (moved_handled _ _ _ _ _ M2 H3') as M3.
    apply (content_moved s _ _ (idx (rx s) + n) None A T0);
      [eapply moved_set; [exact M3 | intros r Ir Pr; rewrite <- Ir; destruct r; reflexivity] | exact C3 | lia | discriminate | lia].
  - apply (content_moved s s2 _ _ _ A T0 M2); [now split | lia | | lia]. intros q [= <-]. rewrite Lp' in *. change (pendingMsgSz p') with (pendingMsgSz p) in *. lia.
Qed.

Lemma process_content_post s : at_message s -> content_post s (process_content s).
Proof.
  intros A. unfold process_content. destruct (Z.eqb_spec (curRL_type (rx s)) handshake) as [T0 |].
  { set (s1 := set_rx s _). assert (A1 : at_message s1).
    { destruct A as ((B & P & E) & Q & L). split; [split; [now destruct B | split; [exact P | exact E]] | split; [exact Q | exact L]]. }
    assert (K : content_post s1 (DoTls13HandShakeMsg (curStartIdx (rx s1) + curSize (rx s1)) s1)).
    { destruct (pending (rx s1)) as [p |] eqn:Ep; [now apply (DoTls13HandShakeMsg_more s1 p) | now apply DoTls13HandShakeMsg_begin]. }
    exact K. }
  destruct (Z.eqb_spec (curRL_type (rx s)) change_cipher_spec); [now apply DoChangeCipherSpecTls13_post |].
  destruct (Z.eqb_spec (curRL_type (rx s)) application_data); [now apply DoProcessAppDataRecord_post |].
  destruct (Z.eqb_spec (curRL_type (rx s)) alert); [now apply DoProcessAlertRecord_post |].
  left. split; [reflexivity | split; [discriminate | apply A]].
Qed.

(** A message, or the end of a record, is progress. *)
Lemma stage_message_post n s : at_stage n runProcessingOneMessage s ->
  stage_post n (fun s' => rx_inv s' /\ (measure (rx s') < n)%nat) (stage_message s).
Proof.
  intros (I & Q & M). unfold stage_message. destruct (Z.leb_spec (Zlen (inputBuffer (rx s))) (idx (rx s))) as [L | L]; [now apply ret_post |].
  pose proof (process_content_post s (conj I (conj Q L))) as K. destruct (process_content s) as [[c s1] |]; [| exact K].
  pose proof I as (B0 & _). pose proof (rb_idx _ B0) as Hi0.
  destruct K as [(C & _ & I1) | (-> & B & E & [R1 R2] & Eb & En & Hi & Hr)]; [rewrite (proj2 (Z.eqb_neq c 0)) by lia; now apply ret_post |].
  cbn [Z.eqb negb]. set (s2 := at_state doProcessInit s1).
  pose proof (stream_length _ B0) as S0. pose proof (stream_length _ B) as S1. rewrite Eb, En in S1.
  destruct (Z.ltb_spec (idx (rx s2) - curStartIdx (rx s2)) (curSize (rx s2))) as [Lt | Ge].
  - change (idx (rx s1) - curStartIdx (rx s1) < curSize (rx s1)) in Lt. destruct (Hr Lt) as [Hj Ha].
    split; [| change (input_left (rx s1) + 1 < n)%nat; lia].
    split; [now destruct B | split; [| exact E]]. split; [exact R1 | split; [exact R2 | intros T0; now destruct Ha]].
  - set (s3 := if decryptOn (rx s2) then _ else s2).
    assert (F : rx_inv s3 /\ processReply (rx s3) = doProcessInit /\ (input_left (rx s3) < n)%nat).
    { pose proof (rb_pad _ B) as Hpad. unfold s3. destruct (decryptOn (rx s2)).
      - set (s4 := set_rx s2 _). assert (B4 : rx_base (rx s4)) by (destruct B; split; try assumption; change (0 <= idx (rx s1) + padSz (rx s1)); lia).
        split; [split; [exact B4 | split; [exact Logic.I | exact E]] | split; [reflexivity |]].
        pose proof (stream_length _ B4) as S4. change (inputBuffer (rx s4)) with (inputBuffer (rx s1)) in S4. change (net (rx s4)) with (net (rx s1)) in S4.
        change (idx (rx s4)) with (idx (rx s1) + padSz (rx s1)) in S4. rewrite Eb, En in S4. lia.
      - split; [split; [now destruct B | split; [exact Logic.I | exact E]] | split; [reflexivity |]]. change (input_left (rx s1) < n)%nat. lia. }
    clearbody s3. destruct F as (I3 & Q3 & M3). assert (Me : (measure (rx s3) < n)%nat) by (unfold measure; rewrite Q3; lia).
    destruct (_ <=? _); [split; [exact I3 | right; now split] | now split].
Qed.

(** From the state it is in, one turn runs the stages that are left. *)
Lemma turn_post s : rx_inv s ->
  stage_post (measure (rx s)) (fun s' => rx_inv s' /\ (measure (rx s') < measure (rx s))%nat) (turn s).
Proof.
  intros I. pose proof I as (B & P & E). set (n := measure (rx s)).
  assert (V : forall f, stage_post n (at_stage n verifyMessage) f ->
    stage_post n (fun s' => rx_inv s' /\ (measure (rx s') < n)%nat) (bind_flow (bind_flow f stage_verify) stage_message)).
  { intros f F. eapply bind_flow_post; [eapply bind_flow_post; [exact F | intros ? K; exact (stage_verify_post n _ K)] | intros ? K; exact (stage_message_post n _ K)]. }
  assert (D : forall f, stage_post n (at_stage n getData) f -> stage_post n (at_stage n verifyMessage) (bind_flow (bind_flow f stage_data) stage_decrypt)).
  { intros f F. eapply bind_flow_post; [eapply bind_flow_post; [exact F | intros ? K; exact (stage_data_post n _ K)] | intros ? K; exact (stage_decrypt_post n _ K)]. }
  assert (M : forall p, processReply (rx s) = p -> p <> doProcessInit -> at_stage n p s).
  { intros p Q N. split; [exact I | split; [exact Q |]]. unfold n, measure. rewrite Q. destruct p; (congruence || lia). }
  unfold turn. unfold rx_state in P. destruct (processReply (rx s)) eqn:Q; try contradiction.
  - apply V, D. eapply bind_flow_post; [exact (stage_init_post s I Q) |]. intros s1 (I1 & L1 & M1 & Q1). now apply stage_header_post.
  - apply V. eapply bind_flow_post; [apply stage_data_post, (M getData); [reflexivity | discriminate] | intros ? K; exact (stage_decrypt_post n _ K)].
  - apply V. apply stage_decrypt_post, M; [reflexivity | discriminate].
  - eapply bind_flow_post; [apply stage_verify_post, (M verifyMessage); [reflexivity | discriminate] | intros ? K; exact (stage_message_post n _ K)].
  - apply stage_message_post, M; [reflexivity | discriminate].
Qed.

Lemma process_loop_post fuel : forall s, rx_inv s -> (measure (rx s) < fuel)%nat ->
  exists c s', process_loop fuel s = Some (Some (c, s')) /\ rx_inv s' /\ (c < 0 \/ c = 0 /\ (measure (rx s') < measure (rx s))%nat).
Proof.
  induction fuel as [| fuel IH]; intros s I L; [lia |]. cbn [process_loop]. pose proof (turn_post s I) as K.
  destruct (turn s) as [s1 | c s1 |]; [| exists c, s1; now split | destruct K]. destruct K as [I1 M1].
  destruct (IH s1 I1 ltac:(lia)) as (c & s2 & E & I2 & D). exists c, s2. split; [exact E | split; [exact I2 |]]. destruct D as [? | [? ?]]; [now left | right; split; [assumption | lia]].
Qed.

Lemma DoProcessReply_post s : rx_inv s ->
  exists c s', DoProcessReply s = Some (Some (c, s')) /\ rx_inv s' /\ (c < 0 \/ c = 0 /\ (measure (rx s') < measure (rx s))%nat).
Proof.
  intros I. pose proof I as (B & P & E). unfold DoProcessReply.
  destruct (Z.eqb_spec (error (tx s)) 0) as [E0 | E0]; cbn [negb andb]; [| destruct (_ && _); [exists (error (tx s)), s; split; [reflexivity | split; [exact I | left; lia]] |]];
    (pose proof (RetrySendAlert_error (tx s)) as [[C _] Et]; destruct (RetrySendAlert (tx s)) as [c t]; cbn [fst snd] in *;
     set (s1 := { s with tx := t }); assert (I1 : rx_inv s1) by (split; [exact B | split; [exact P | change (error t <= 0); lia]]);
     destruct (Z.eqb_spec c 0) as [_ | Nc]; cbn [negb]; [| exists c, s1; split; [reflexivity | split; [exact I1 | left; lia]]];
     refine (process_loop_post (2 + input_left (rx s1)) s1 I1 _); unfold measure; destruct (processReply _); lia).
Qed.

Lemma receive_loop_post fuel : forall s, rx_inv s -> (measure (rx s) + 1 < fuel)%nat ->
  exists o s', receive_loop fuel s = Some (Some (o, s')) /\ rx_inv s' /\ (forall c, o = Some c -> c <= 0) /\
    (o = None -> clearOutputBuffer (rx s') <> []).
Proof.
  induction fuel as [| fuel IH]; intros s I L; [lia |]. cbn [receive_loop].
  case_bool_decide as Hc; cbn [negb]; [| exists None, s; split; [reflexivity | split; [exact I | split; [discriminate | intros; exact Hc]]]].
  destruct (DoProcessReply_post s I) as (c & s1 & -> & I1 & D).
  assert (K : forall e r : Z, e <= 0 -> r <= 0 -> exists o s', Some (Some (Some r, { s1 with tx := { tx s1 with error := e } })) = Some (Some (o, s')) /\
    rx_inv s' /\ (forall c, o = Some c -> c <= 0) /\ (o = None -> clearOutputBuffer (rx s') <> [])).
  { intros e r He Hr. destruct I1 as (B & P & E). eexists (Some r), _. split; [reflexivity |].
    split; [split; [exact B | split; [exact P | exact He]] | split; [intros ? [= <-]; exact Hr | discriminate]]. }
  destruct (Z.ltb_spec c 0) as [N | N].
  - destruct (c =? ZERO_RETURN); [now apply K; lia |]. destruct (_ && _); [now apply K | apply K; lia].
  - apply IH; [exact I1 | lia].
Qed.

(** [C2] Reading never leaves the input buffer and always comes to an end, whatever
    bytes the network delivers in whatever pieces, authentic or not, in every state a
    read can leave behind, with the sender in any state: no header, record, alert,
    padding or fragment of a message is read outside of the buffer, the loops make
    progress with every turn, and the application gets at most what it asked for. *)
Theorem ReceiveData_safe sz s : rx_inv s -> 0 < sz ->
  exists (r : Z) data s', ReceiveData sz s = Some (Some (r, data, s')) /\ rx_inv s' /\ Zlen data <= sz /\
    (0 < r -> r = Zlen data) /\ (r <= 0 -> data = []).
Proof.
  intros I Hs. unfold ReceiveData. destruct (Z.gtb_spec sz INT_MAX).
  { exists WOLFSSL_FATAL_ERROR, [], s. split; [reflexivity | split; [exact I | split; [change (0 <= sz); lia | split; [discriminate | reflexivity]]]]. }
  set (s1 := if error (tx s) =? WANT_READ then _ else s).
  assert (I1 : rx_inv s1).
  { unfold s1. destruct (error (tx s) =? WANT_READ); [| exact I]. destruct I as (B & P & E). split; [exact B | split; [exact P | discriminate]]. }
  clearbody s1. destruct (_ && _) eqn:Ee.
  { exists (error (tx s1)), [], s1. split; [reflexivity | split; [exact I1 | split; [change (0 <= sz); lia | split; [| reflexivity]]]]. destruct I1 as (_ & _ & E). lia. }
  destruct (receive_loop_post (3 + input_left (rx s1)) s1 I1) as (o & s2 & -> & I2 & Oc & On); [unfold measure; destruct (processReply _); lia |].
  destruct o as [c |].
  { exists c, [], s2. specialize (Oc c eq_refl). split; [reflexivity | split; [exact I2 | split; [change (0 <= sz); lia | split; [lia | reflexivity]]]]. }
  specialize (On eq_refl). set (n := if sz <? Zlen (clearOutputBuffer (rx s2)) then _ else _).
  assert (0 < Zlen (clearOutputBuffer (rx s2))) by (destruct (clearOutputBuffer (rx s2)); [congruence | rewrite Zlen_cons; pose proof (Zlen_nonneg l); lia]).
  assert (Hn : 0 < n <= sz /\ n <= Zlen (clearOutputBuffer (rx s2))) by (unfold n; destruct (Z.ltb_spec sz (Zlen (clearOutputBuffer (rx s2)))); lia).
  eexists n, _, _. split; [reflexivity |]. rewrite Zlen_take by lia.
  split; [destruct I2 as (B & P & E); split; [now destruct B | split; [exact P | exact E]] | split; [lia | split; [reflexivity | lia]]].
Qed.

End Safe.

(** ** A connection for the witness *)

Lemma fresh_ssl_inv script : is_bytes (net_bytes script) -> rx_inv (fresh_ssl script).
Proof.
  intros B. split; [| split; [exact Logic.I | discriminate]].
  split; try discriminate; [reflexivity | constructor | exact B | split; [discriminate | reflexivity]].
Qed.

(** Ten bytes sealed by the peer, cut in two by the network; then noise. *)
Lemma ReceiveData_safe_witness :
  let s := fresh_ssl [Data (take 3 (wire_of ten)); No_data; Data (drop 3 (wire_of ten)); Data [23; 3; 3; 0; 1; 9; 9]] in
  let s1 := snd (read 100 s) in
  let s2 := snd (read 100 s1) in
  fst (read 100 s) = (WANT_READ, []) /\ fst (read 100 s1) = (10, ten) /\ fst (read 100 s2) = (VERIFY_MAC_ERROR, []) /\ rx_inv (snd (read 100 s2)).
Proof.
  intros s s1 s2. split; [vm_compute; reflexivity | split; [vm_compute; reflexivity | split; [vm_compute; reflexivity |]]].
  assert (I : rx_inv s) by (apply fresh_ssl_inv; apply (bool_decide_unpack _); vm_compute; exact Logic.I).
  assert (N : forall x : Ssl nat Native.w64wrapper nat, rx_inv x -> rx_inv (snd (read 100 x))).
  { intros x Ix. destruct (ReceiveData_safe 100 x Ix eq_refl) as (r & d & s' & E & I' & _). unfold read. rewrite E. exact I'. }
  exact (N s2 (N s1 (N s I))).
Defined.
