(* ===== verification/TlsChannel13.v ===== *)
(** * The TLS 1.3 record layer as a channel

    What the peer sealed ([TlsSend13]) against what the application reads
    ([TlsRecv13]): whatever bytes the network delivers, as long as none of
    them is a forgery, the application reads the peer's data in order,
    without loss, repetition or change. *)

From S2P Require Import Prelude Misc W64 Tls TlsSeq TlsSend13 Handshake13 TlsRecv13 TlsRecvSafe.
From stdpp Require Import list relations.

#[local] Open Scope Z_scope.
#[local] Open Scope cword_scope.

Section Channel.
  Context {S T H : Type} `{RecordCrypto S, W64Ops T, Handlers H}.
  #[local] Abbreviation Rx := (Rx S H).
  #[local] Abbreviation Ssl := (Ssl S T H).
  Implicit Types (s : Ssl) (r : Rx) (l : list (Sealed S)) (e : Sealed S).

(** ** Positions in the sender's log *)

Lemma chain_det l : forall k q k1 q1 k2 q2, chain k q l k1 q1 -> chain k q l k2 q2 -> k1 = k2 /\ q1 = q2.
Proof.
  induction l as [| e l IH]; cbn [chain]; intros k q k1 q1 k2 q2; [now intros [-> ->] [-> ->] |].
  intros (_ & _ & _ & C1) (_ & _ & _ & C2). destruct (is_key_update e); (eapply IH; eassumption).
Qed.

Lemma chain_split l1 : forall k q l2 k2 q2, chain k q (l1 ++ l2) k2 q2 -> exists k1 q1, chain k q l1 k1 q1 /\ chain k1 q1 l2 k2 q2.
Proof.
  induction l1 as [| e l1 IH]; intros k q l2 k2 q2; cbn [chain app]; [intros C; now exists k, q |].
  intros (E1 & E2 & E3 & C). destruct (is_key_update e) eqn:K; destruct (IH _ _ _ _ _ C) as (k1 & q1 & C1 & C2); now exists k1, q1.
Qed.

Lemma chain_at l k q k1 q1 p e : chain k q l k1 q1 -> l !! p = Some e ->
  chain k q (take p l) (s_secret e) (s_seq e) /\ content_ok (s_type e) (s_content e).
Proof.
  intros C E. rewrite <- (take_drop_middle l p e E) in C. destruct (chain_split _ _ _ _ _ _ C) as (k2 & q2 & C1 & C2).
  cbn [chain] in C2. destruct C2 as (-> & -> & C3 & _). now split.
Qed.

(** No secret and number is used twice, nor left for the next record. *)
Definition unrepeated (l : list (Sealed S)) (k1 : S) (q1 : Z) : Prop :=
  NoDup (((fun e => (s_secret e, s_seq e)) <$> l) ++ [(k1, q1)]).

(** A record under the secret and number of a position is the one at that position. *)
Lemma record_at l k q k1 q1 p e : chain k q l k1 q1 -> unrepeated l k1 q1 -> (p <= length l)%nat ->
  chain k q (take p l) (s_secret e) (s_seq e) -> e ∈ l -> l !! p = Some e.
Proof.
  intros C U L Cp E. apply list_elem_of_lookup in E as [j E]. destruct (chain_at _ _ _ _ _ _ _ C E) as [Cj _].
  unfold unrepeated in U. rewrite NoDup_alt in U.
  set (f := fun e : Sealed S => (s_secret e, s_seq e)) in *.
  assert (Ej : ((f <$> l) ++ [(k1, q1)]) !! j = Some (f e)).
  { rewrite lookup_app_l by (rewrite length_fmap; now apply lookup_lt_Some in E). now rewrite list_lookup_fmap, E. }
  assert (Ep : ((f <$> l) ++ [(k1, q1)]) !! p = Some (f e)).
  { destruct (l !! p) as [e' |] eqn:E'.
    - destruct (chain_at _ _ _ _ _ _ _ C E') as [Cp' _]. destruct (chain_det _ _ _ _ _ _ _ Cp Cp') as [X Y].
      rewrite lookup_app_l by (rewrite length_fmap; now apply lookup_lt_Some in E'). rewrite list_lookup_fmap, E'. cbn. unfold f. now rewrite X, Y.
    - apply lookup_ge_None in E'. assert (p = length l) as -> by lia. rewrite firstn_all in Cp.
      destruct (chain_det _ _ _ _ _ _ _ C Cp) as [-> ->]. rewrite lookup_app_r by now rewrite length_fmap. rewrite length_fmap, Nat.sub_diag. reflexivity. }
  now rewrite (U _ _ _ Ep Ej).
Qed.

Lemma chain_next l k q k1 q1 p e k2 q2 : chain k q l k1 q1 -> l !! p = Some e ->
  (k2, q2) = (if is_key_update e then (rc_update (s_secret e), 0) else (s_secret e, u64 (s_seq e + 1))) ->
  chain k q (take (Datatypes.S p) l) k2 q2.
Proof.
  intros C E N. destruct (chain_at _ _ _ _ _ _ _ C E) as [Cp O]. rewrite (take_S_r _ _ _ E). eapply sealed_chain_app; [exact Cp |].
  cbn [chain]. split; [reflexivity | split; [reflexivity | split; [exact O |]]].
  destruct (is_key_update e); injection N as -> ->; now split.
Qed.

(** ** The reading side's number while sending *)

Section Peer.
  Context `{!RecordCryptoSpec S}.
  Implicit Types t : Tx S T.

Definition peer_kept t t' : Prop := keys_ok (keys t') /\ tls_seq true (keys t') = tls_seq true (keys t).

Lemma BuildTls13Message_peer a (input : list Z) b t : keys_ok (keys t) -> peer_kept t (snd (BuildTls13Message a input b t)).
Proof.
  intros K. unfold BuildTls13Message, EncryptTls13. destruct (_ >? _); [now split |]. destruct (_ <? _); [now split |].
  pose proof (BuildTls13Nonce_spec 0 0 (rc_iv (encSecret t)) iv_size CUR_ORDER (keys t) K (rc_iv_ok _)) as N.
  destruct (BuildTls13Nonce _ _ _ _ _ _) as [nonce k]. destruct N as [_ (K1 & _ & K3)]. now split.
Qed.

Lemma SendBuffered_keys t : keys (snd (SendBuffered t)) = keys t.
Proof. unfold SendBuffered. destruct (send_loop _ _ _) as [[[[r sc] o] w] b]. now destruct b. Qed.

Lemma SendAlert_ex_peer a b t : keys_ok (keys t) -> peer_kept t (snd (SendAlert_ex a b t)).
Proof.
  intros K. unfold SendAlert_ex. set (t1 := if a =? alert_fatal then _ else _).
  assert (F : keys t1 = keys t) by (unfold t1; now destruct (a =? alert_fatal)). clearbody t1.
  match goal with |- context [if encryptOn t1 then ?x else ?y] => assert (G : peer_kept t1 (snd (if encryptOn t1 then x else y))) by (destruct (encryptOn t1); [apply BuildTls13Message_peer; now rewrite F | split; [cbn; now rewrite F | reflexivity]]); destruct (if encryptOn t1 then x else y) as [[sz o] t2] end.
  unfold peer_kept in *. cbn [snd] in G. rewrite F in G. destruct (sz <? 0); [exact G |].
  match goal with |- context [SendBuffered ?x] => pose proof (SendBuffered_keys x) as B; destruct (SendBuffered x) as [r t3] end.
  cbn [snd] in *. change (keys_ok (keys t3) /\ tls_seq true (keys t3) = tls_seq true (keys t)). rewrite B. exact G.
Qed.

Lemma RetrySendAlert_peer t : keys_ok (keys t) -> peer_kept t (snd (RetrySendAlert t)).
Proof.
  intros K. unfold RetrySendAlert. destruct (_ =? _); [now split |].
  match goal with |- context [SendAlert_ex ?a ?b ?x] => exact (SendAlert_ex_peer a b x K) end.
Qed.

Lemma SendTls13KeyUpdate_peer t : keys_ok (keys t) -> peer_kept t (snd (SendTls13KeyUpdate t)).
Proof.
  intros K. unfold SendTls13KeyUpdate. destruct (Tls13KeyUpdateLimitReached t); [now split |].
  match goal with |- context [BuildTls13Message ?a ?l ?b ?x] => pose proof (BuildTls13Message_peer a l b x K) as G; destruct (BuildTls13Message a l b x) as [[sz o] t2] end.
  cbn [snd] in G. destruct (sz <? 0); [exact G |].
  match goal with |- context [SendBuffered ?x] => pose proof (SendBuffered_keys x) as B; destruct (SendBuffered x) as [r t3] end.
  cbn [snd] in B. change (keys t3 = keys t2) in B. assert (P3 : peer_kept t t3) by (unfold peer_kept; rewrite B; exact G).
  destruct (negb (r =? 0) && _); [exact P3 |]. destruct P3 as [K3 Q3]. clear G B K.
  unfold update_encrypt_side, peer_kept, keys_ok, tls_seq, is_word in *. destruct t3 as [ks]. destruct ks. cbn in *. repeat split; lia || tauto.
Qed.

End Peer.

(** ** Receiver against log *)

(** No bytes of the network, read as a record at a position, decrypt to anything but a
    record the peer sealed under that secret and number. *)
Definition unforged (k0 : S) (q0 : Z) (log : list (Sealed S)) (whole : list Z) : Prop :=
  forall p k q pre a c post ret text, (p <= length log)%nat -> chain k0 q0 (take p log) k q ->
    whole = pre ++ a ++ c ++ post -> Zlen a = RECORD_HEADER_SZ ->
    rc_decrypt k (nonce_of (rc_iv k) iv_size q) a c = (ret, text) -> 0 <= ret ->
    exists e, e ∈ log /\ s_secret e = k /\ s_seq e = q /\ text = s_content e ++ [s_type e].

Context `{!RecordCryptoSpec S, !HandlersSpec H}.
Context (k0 : S) (q0 : Z) (log : list (Sealed S)) (k1 : S) (q1 : Z) (whole : list Z).

(** The receiver has opened the first [p] records; [cl]: data not yet given to the application. *)
Record aligned (p : nat) (cl : list Z) (s : Ssl) : Prop := {
  al_pos : (p <= length log)%nat;
  al_chain : chain k0 q0 (take p log) (decSecret (rx s)) (tls_seq true (keys (tx s)));
  al_keys : keys_ok (keys (tx s));
  al_on : decryptOn (rx s) = true;
  al_done : handShakeState (opts (rx s)) = HANDSHAKE_DONE;
  al_pending : pending (rx s) = None;
  al_clear : clearOutputBuffer (rx s) = cl
}.

Definition header (r : Rx) : list Z := [curRL_type r; curRL_pvMajor r; curRL_pvMinor r] ++ curRL_length r.

(** Between records, with at most a part of a header in the buffer; and with a header read. *)
Definition between (p : nat) (cl : list Z) (s : Ssl) : Prop :=
  aligned p cl s /\ processReply (rx s) = doProcessInit /\
  idx (rx s) <= Zlen (inputBuffer (rx s)) <= idx (rx s) + RECORD_HEADER_SZ /\ exists pre, whole = pre ++ stream (rx s).

Definition with_header (p : nat) (cl : list Z) (s : Ssl) : Prop :=
  aligned p cl s /\ processReply (rx s) = getData /\ decryptedCur (rx s) = false /\ Zlen (header (rx s)) = RECORD_HEADER_SZ /\
  idx (rx s) <= Zlen (inputBuffer (rx s)) <= idx (rx s) + curSize (rx s) /\ exists pre, whole = pre ++ header (rx s) ++ stream (rx s).

Definition waiting (p : nat) (cl : list Z) (s : Ssl) : Prop := between p cl s \/ with_header p cl s.

(** How a call of the record loop ends: it fails, it waits for input, or it has opened the
    next record. *)
Definition outcome (p : nat) (cl : list Z) (c : Z) (s : Ssl) : Prop :=
  (c < 0 /\ c <> WANT_READ) \/
  (c = WANT_READ /\ waiting p cl s) \/
  (c = 0 /\ exists e, log !! p = Some e /\
     between (Datatypes.S p) (if s_type e =? application_data then s_content e else cl) s).

Definition stage_sync (p : nat) (cl : list Z) (Q : Ssl -> Prop) (f : flow (S := S) (T := T) (H := H)) : Prop :=
  match f with Go s => Q s | Ret c s => outcome p cl c s | Fault => True end.

Lemma bind_sync p cl P Q f k : stage_sync p cl P f -> (forall s, P s -> stage_sync p cl Q (k s)) -> stage_sync p cl Q (bind_flow f k).
Proof. destruct f; cbn; auto. Qed.

Lemma fail_sync p cl Q c s : c < 0 -> c <> WANT_READ -> stage_sync p cl Q (Ret c s).
Proof. now left. Qed.

Lemma GetInputData_exact size s : 0 <= idx (rx s) -> idx (rx s) <= Zlen (inputBuffer (rx s)) <= idx (rx s) + size ->
  exists c s', GetInputData size s = (c, s') /\ got_input s s' /\
    idx (rx s') <= Zlen (inputBuffer (rx s')) <= idx (rx s') + size /\
    (c < 0 \/ c = 0 /\ Zlen (inputBuffer (rx s')) = idx (rx s') + size).
Proof.
  intros Hi L. destruct (GetInputData_spec size s Hi) as (c & s' & E & G & D). exists c, s'. split; [exact E | split; [exact G |]].
  unfold buffered in D. pose proof (Zlen_nonneg (inputBuffer (rx s'))). destruct D as [[-> D] | (_ & -> & D)]; lia.
Qed.

Lemma aligned_input p cl s s' : aligned p cl s -> got_input s s' -> aligned p cl s'.
Proof.
  intros [A1 A2 A3 A4 A5 A6 A7] (_ & Ek & _ & b & i & n & Er). split; rewrite ?Ek, ?Er; assumption.
Qed.

(** With the whole header in the buffer. *)
Definition header_in (p : nat) (cl : list Z) (s : Ssl) : Prop :=
  aligned p cl s /\ processReply (rx s) = doProcessInit /\ Zlen (inputBuffer (rx s)) = idx (rx s) + RECORD_HEADER_SZ /\
  exists pre, whole = pre ++ stream (rx s).

Lemma stage_init_sync p cl s : rx_inv s -> between p cl s -> stage_sync p cl (header_in p cl) (stage_init s).
Proof.
  intros (B & _ & _) (A & Q & L & pre & W). unfold stage_init.
  destruct (GetInputData_exact RECORD_HEADER_SZ s (rb_idx _ B) L) as (c & s' & -> & G & Hl & C).
  pose proof (aligned_input p cl s s' A G) as A'. destruct G as (_ & _ & St & b & i & n & Er). rewrite <- St in W.
  assert (Q' : processReply (rx s') = doProcessInit) by (rewrite Er; exact Q).
  destruct C as [C | [-> C]].
  - rewrite (proj2 (Z.ltb_lt c 0) C). destruct (Z.eq_dec c WANT_READ) as [-> | N]; [| now apply fail_sync].
    right. left. split; [reflexivity | left]. split; [exact A' | split; [exact Q' | split; [exact Hl | now exists pre]]].
  - split; [exact A' | split; [exact Q' | split; [exact C | now exists pre]]].
Qed.

(** The record in the buffer, behind its header. *)
Definition record_in (p : nat) (cl : list Z) (s : Ssl) : Prop :=
  aligned p cl s /\ decryptedCur (rx s) = false /\ Zlen (header (rx s)) = RECORD_HEADER_SZ /\ padSz (rx s) = 0 /\
  Zlen (inputBuffer (rx s)) = idx (rx s) + curSize (rx s) /\ exists pre, whole = pre ++ header (rx s) ++ stream (rx s).

Lemma stage_header_sync p cl s : rx_inv s -> header_in p cl s -> stage_sync p cl (with_header p cl) (stage_header s).
Proof.
  intros (B & _ & _) (A & Q & L & pre & W). unfold stage_header.
  destruct (slice_buffered RECORD_HEADER_SZ (rx s) B ltac:(discriminate)) as (x & E & Lx & Bx); [unfold buffered; lia |].
  unfold GetRecordHeader. rewrite E.
  destruct x as [| a [| b [| c [| d [| e [| ? ?]]]]]]; try (exfalso; revert Lx; unfold Zlen, RECORD_HEADER_SZ; cbn [length]; lia).
  set (r1 := {_ with curSize := _}).
  assert (F : forall c (r : Rx), c < 0 -> c <> WANT_READ -> stage_sync p cl (with_header p cl)
    (let s := { s with rx := r } in
     if negb (c =? 0) then
       Ret c (if (c =? VERSION_ERROR) && (side (opts r) =? WOLFSSL_CLIENT_END) then send_alert alert_fatal protocol_version s
              else if c =? LENGTH_ERROR then send_alert alert_fatal record_overflow s else s)
     else if decryptOn r && negb (one_of [application_data; change_cipher_spec; alert] (curRL_type r)) then
       Ret PARSE_ERROR (send_alert alert_fatal unexpected_message s)
     else Go (at_state getData s))).
  { intros c' r Hc Hw. cbv zeta. rewrite (proj2 (Z.eqb_neq c' 0)) by lia. now apply fail_sync. }
  destruct (version_mismatch r1 && _); [now apply F |]. destruct (_ >? _); [now apply F |]. destruct (_ && _); [now apply F |].
  destruct (one_of _ a); [| now apply F]. clear F. cbn [Z.eqb negb]. set (r2 := { r1 with decryptedCur := false }).
  destruct (decryptOn r2 && _); [now apply fail_sync |]. set (s2 := at_state getData _).
  assert (St : stream (rx s) = [a; b; c; d; e] ++ stream (rx s2)).
  { unfold stream. change (net (rx s2)) with (net (rx s)). change (inputBuffer (rx s2)) with (inputBuffer (rx s)).
    change (idx (rx s2)) with (idx (rx s) + RECORD_HEADER_SZ). pose proof (rb_idx _ B) as Hi.
    rewrite slice_some in E by (unfold RECORD_HEADER_SZ in *; lia). injection E as E.
    rewrite <- (take_drop (Z.to_nat RECORD_HEADER_SZ) (drop (Z.to_nat (idx (rx s))) (inputBuffer (rx s)))), E, drop_drop, <- app_assoc.
    do 3 f_equal. unfold RECORD_HEADER_SZ. lia. }
  split; [destruct A; now split | split; [reflexivity | split; [reflexivity | split; [reflexivity |]]]].
  split; [| exists pre; rewrite W, St; reflexivity].
  change (idx (rx s) + RECORD_HEADER_SZ <= Zlen (inputBuffer (rx s)) <= idx (rx s) + RECORD_HEADER_SZ + Opaque.ato16 [d; e]).
  pose proof (wrap_range 16 (Z.lor (Z.shiftl (rd [d; e] 0) 8) (rd [d; e] 1)) ltac:(lia)). unfold Opaque.ato16. lia.
Qed.

Lemma stage_data_sync p cl s : rx_inv s -> with_header p cl s -> stage_sync p cl (record_in p cl) (stage_data s).
Proof.
  intros (B & _ & _) (A & Q & D & Lh & L & pre & W). unfold stage_data.
  destruct (GetInputData_exact (curSize (rx s)) s (rb_idx _ B) L) as (c & s' & -> & G & Hl & C).
  pose proof (aligned_input p cl s s' A G) as A'. destruct G as (_ & _ & St & b & i & n & Er).
  assert (F : processReply (rx s') = getData /\ decryptedCur (rx s') = false /\ header (rx s') = header (rx s) /\ curSize (rx s') = curSize (rx s))
    by (rewrite Er; repeat split; assumption).
  destruct F as (Q' & D' & Eh & Ec). rewrite <- St, <- Eh in W. rewrite <- Eh in Lh. rewrite <- Ec in *.
  destruct C as [C | [-> C]].
  - rewrite (proj2 (Z.ltb_lt c 0) C). destruct (Z.eq_dec c WANT_READ) as [-> | N]; [| now apply fail_sync].
    right. left. split; [reflexivity | right].
    split; [exact A' | split; [exact Q' | split; [exact D' | split; [exact Lh | split; [exact Hl | now exists pre]]]]].
  - cbn [Z.ltb Z.compare]. destruct (_ && _); [now apply fail_sync |].
    split; [destruct A'; now split | split; [exact D' | split; [exact Lh | split; [reflexivity | split; [exact C | exists pre; exact W]]]]].
Qed.

Context (Chain : chain k0 q0 log k1 q1) (Unrepeated : unrepeated log k1 q1) (Unforged : unforged k0 q0 log whole).

(** The next record is decrypted and not yet acted on. *)
Record opened (p : nat) (cl : list Z) (e : Sealed S) (s : Ssl) : Prop := {
  op_record : log !! p = Some e;
  op_secret : s_secret e = decSecret (rx s);
  op_seq : tls_seq true (keys (tx s)) = u64 (s_seq e + 1);
  op_keys : keys_ok (keys (tx s));
  op_on : decryptOn (rx s) = true;
  op_done : handShakeState (opts (rx s)) = HANDSHAKE_DONE;
  op_pending : pending (rx s) = None;
  op_clear : clearOutputBuffer (rx s) = cl;
  op_rest : exists pre, whole = pre ++ net_bytes (net (rx s))
}.

(** The bytes of the input buffer from [idx] on begin with [l]. *)
Definition holds_at (l : list Z) (r : Rx) : Prop := exists rest, drop (Z.to_nat (idx r)) (inputBuffer r) = l ++ rest.

(** A record that came in the clear, although encryption is on. *)
Definition in_clear (s : Ssl) : Prop :=
  decryptOn (rx s) = true /\ decryptedCur (rx s) = false /\ handShakeState (opts (rx s)) = HANDSHAKE_DONE /\
  (curRL_type (rx s) = change_cipher_spec \/ curRL_type (rx s) = alert).

Definition decrypted (p : nat) (cl : list Z) (s : Ssl) : Prop :=
  (exists e, opened p cl e s /\ protected (rx s) = true /\ curSize (rx s) = Zlen (s_content e) + 1 + aead_mac_size /\
     Zlen (inputBuffer (rx s)) = idx (rx s) + curSize (rx s) /\ holds_at (s_content e ++ [s_type e]) (rx s)) \/
  in_clear s.

Lemma drop_take_app {A} n (l t rest : list A) : (n <= length l)%nat -> drop n (take n l ++ t ++ rest) = t ++ rest.
Proof. intros L. rewrite drop_app_length'; [reflexivity |]. rewrite length_take. lia. Qed.

Lemma DecryptTls13_sync p cl s : rx_inv s -> record_in p cl s -> protected (rx s) = true -> aead_mac_size <= curSize (rx s) ->
  exists c s', DecryptTls13 (curSize (rx s)) (header (rx s)) s = Some (c, s') /\ c <> WANT_READ /\ (0 <= c -> decrypted p cl s').
Proof.
  intros (B & _ & _) (A & D & Lh & Pd & L & pre & W) Pr Ma. unfold DecryptTls13. pose proof (rb_idx _ B) as Hi.
  pose proof aead_mac_size_range as Mr. destruct A as [A1 A2 A3 A4 A5 A6 A7].
  destruct (Z.ltb_spec (curSize (rx s)) aead_mac_size); [lia |].
  pose proof (BuildTls13Nonce_spec 0 0 (rc_iv (decSecret (rx s))) iv_size PEER_ORDER (keys (tx s)) A3 (rc_iv_ok _)) as N.
  destruct (BuildTls13Nonce _ _ _ _ _ _) as [nonce k]. cbn [fst snd] in N. destruct N as [-> (K1 & K2 & _)].
  change (PEER_ORDER =? PEER_ORDER) with true in *. change (rx { s with tx := { tx s with keys := k } }) with (rx s).
  destruct (slice_buffered (curSize (rx s)) (rx s) B ltac:(lia)) as (x & Ex & Lx & Bx); [unfold buffered; lia |]. rewrite Ex.
  rewrite slice_some in Ex by lia. injection Ex as Ex.
  assert (Wx : whole = pre ++ header (rx s) ++ x ++ net_bytes (net (rx s))).
  { rewrite W. unfold stream. rewrite <- Ex. rewrite take_ge; [reflexivity |]. rewrite length_drop. unfold Zlen in *. lia. }
  assert (Lm : aead_mac_size <= Zlen x) by lia.
  pose proof (rc_decrypt_length (decSecret (rx s)) (nonce_of (rc_iv (decSecret (rx s))) iv_size (tls_seq true (keys (tx s)))) (header (rx s)) x Lm) as Lt.
  pose proof (rc_decrypt_code (decSecret (rx s)) (nonce_of (rc_iv (decSecret (rx s))) iv_size (tls_seq true (keys (tx s)))) (header (rx s)) x) as [_ Nw].
  destruct (rc_decrypt _ _ _ _) as [c text] eqn:Ed. cbn [fst snd] in *. eexists c, _. split; [reflexivity | split; [exact Nw |]]. intros Hc.
  destruct (Unforged p _ _ _ _ _ _ _ _ A1 A2 Wx Lh Ed Hc) as (e & Ee & Es & Eq & Et).
  rewrite <- Es, <- Eq in A2. pose proof (record_at log k0 q0 k1 q1 p e Chain Unrepeated A1 A2 Ee) as Ep.
  left. exists e. split; [split; try assumption | split; [exact Pr | split; [| split]]].
  - change (tls_seq true k = u64 (s_seq e + 1)). now rewrite K2, Eq.
  - exists (pre ++ header (rx s) ++ x). change (whole = (pre ++ header (rx s) ++ x) ++ net_bytes (net (rx s))). now rewrite Wx, <- !app_assoc.
  - change (curSize (rx s) = Zlen (s_content e) + 1 + aead_mac_size). rewrite Et, Zlen_app in Lt. change (Zlen [s_type e]) with 1 in Lt. lia.
  - unfold set_rx. cbn [rx inputBuffer idx curSize].
    pose proof (Zlen_nonneg text). change (Zlen (take (Z.to_nat (idx (rx s))) (inputBuffer (rx s)) ++ text ++ drop (Z.to_nat (idx (rx s) + Zlen text)) (inputBuffer (rx s))) = idx (rx s) + curSize (rx s)).
    rewrite !Zlen_app, Zlen_take, Zlen_drop by lia. lia.
  - eexists. rewrite <- Et. apply (drop_take_app (Z.to_nat (idx (rx s)))). change (Z.to_nat (idx (rx s)) <= length (inputBuffer (rx s)))%nat. unfold Zlen in *. lia.
Qed.

Lemma stage_decrypt_sync p cl s : rx_inv s -> record_in p cl s -> stage_sync p cl (decrypted p cl) (stage_decrypt s).
Proof.
  intros I R. unfold stage_decrypt. destruct (protected (rx s)) eqn:Pr.
  - unfold DoDecrypt, SanityCheckCipherText. destruct (Z.ltb_spec (curSize (rx s)) aead_mac_size) as [Sm | Sm]; [now left |].
    cbn [Z.ltb Z.compare]. destruct (DecryptTls13_sync p cl s I R Pr Sm) as (c & s' & E & Nw & Hd).
    change ([curRL_type (rx s); curRL_pvMajor (rx s); curRL_pvMinor (rx s)] ++ curRL_length (rx s)) with (header (rx s)). rewrite E.
    destruct (Z.leb_spec 0 c) as [C | C]; [| now apply fail_sync]. specialize (Hd C).
    destruct Hd as [(e & O & Rest) | Cl]; [left; exists e; split; [destruct O; now split | exact Rest] | right; exact Cl].
  - destruct R as (A & D & _). right. unfold protected in Pr. destruct A as [_ _ _ A4 A5 _ _].
    rewrite A4, D in Pr. cbn [andb negb] in Pr. split; [exact A4 | split; [exact D | split; [exact A5 |]]].
    change (curRL_type (rx s) = change_cipher_spec \/ curRL_type (rx s) = alert).
    destruct (Z.eqb_spec (curRL_type (rx s)) change_cipher_spec), (Z.eqb_spec (curRL_type (rx s)) alert); auto. discriminate.
Qed.

Lemma content_type_ok t c : content_ok t c -> (t = application_data \/ t = alert \/ t = handshake) /\ 0 < Zlen c <= MAX_RECORD_SIZE.
Proof.
  intros C. destruct C as [d B L | a b Ha Hb | b Hb | type body Ht N B L].
  - split; [now left | exact L].
  - split; [auto | split; [reflexivity | discriminate]].
  - split; [auto | split; [reflexivity | discriminate]].
  - split; [auto |]. unfold whole_message. rewrite Zlen_cons, Zlen_app. change (Zlen (be_bytes 3 (Zlen body))) with 3.
    pose proof (Zlen_nonneg body). unfold HANDSHAKE_HEADER_SZ in L. lia.
Qed.

Lemma opened_content p cl e s : opened p cl e s -> content_ok (s_type e) (s_content e).
Proof. intros O. exact (proj2 (chain_at _ _ _ _ _ _ _ Chain (op_record _ _ _ _ O))). Qed.

Lemma rd_holds (l : list Z) r i : 0 <= idx r -> holds_at l r -> 0 <= i < Zlen l -> rd (inputBuffer r) (idx r + i) = rd l i.
Proof. intros Hi (rest & E) L. rewrite <- rd_drop by lia. rewrite E. now apply rd_app_l. Qed.

Lemma slice_holds (l : list Z) r n : 0 <= idx r -> holds_at l r -> 0 <= n <= Zlen l -> idx r + n <= Zlen (inputBuffer r) ->
  slice (inputBuffer r) (idx r) n = Some (take (Z.to_nat n) l).
Proof. intros Hi (rest & E) L Ln. rewrite slice_some by lia. rewrite E, take_app_le by (unfold Zlen in *; lia). reflexivity. Qed.

(** The type found behind content without padding. *)
Lemma removeMsgInnerPadding_exact content type s : rx_base (rx s) -> holds_at (content ++ [type]) (rx s) -> type <> 0 ->
  curSize (rx s) = Zlen content + 1 + aead_mac_size -> Zlen (inputBuffer (rx s)) = idx (rx s) + curSize (rx s) ->
  removeMsgInnerPadding s = Some (0, set_rx s (fun r => { { r with curRL_type := type } with padSz := aead_mac_size + 1 })).
Proof.
  intros B Hd Nz Hc L. pose proof (rb_idx _ B) as Hi. pose proof (rb_len _ B) as Hl. pose proof aead_mac_size_range as Mr. pose proof (Zlen_nonneg content).
  unfold removeMsgInnerPadding. rewrite (wrap_small 32 (_ - aead_mac_size)) by (unfold is_word; lia).
  replace (idx (rx s) + curSize (rx s) - aead_mac_size) with (idx (rx s) + Zlen content + 1) by lia.
  destruct (Z.gtb_spec (idx (rx s) + Zlen content + 1) (Zlen (inputBuffer (rx s)))); [lia |].
  destruct (Z.eqb_spec (idx (rx s) + Zlen content + 1) 0); [lia |]. cbn [orb].
  replace (idx (rx s) + Zlen content + 1 - 1) with (idx (rx s) + Zlen content) by lia.
  assert (Rt : rd (inputBuffer (rx s)) (idx (rx s) + Zlen content) = type).
  { rewrite (rd_holds _ _ _ Hi Hd) by (rewrite Zlen_app; change (Zlen [type]) with 1; lia). apply rd_app_end. }
  assert (Sk : skip_padding (Z.to_nat (idx (rx s) + Zlen content + 1)) (inputBuffer (rx s)) (idx (rx s) + Zlen content) (idx (rx s)) = idx (rx s) + Zlen content).
  { replace (Z.to_nat (idx (rx s) + Zlen content + 1)) with (Datatypes.S (Z.to_nat (idx (rx s) + Zlen content))) by lia.
    cbn [skip_padding]. rewrite Rt, (proj2 (Z.eqb_neq _ _) Nz), andb_false_r. reflexivity. }
  rewrite Sk. assert (Sl : slice (inputBuffer (rx s)) (idx (rx s) + Zlen content) 1 = Some [type]).
  { rewrite slice_some by lia. destruct Hd as (rest & E). rewrite Z2Nat.inj_add, <- drop_drop, E, <- app_assoc by lia.
    unfold Zlen. rewrite Nat2Z.id, drop_app_length. reflexivity. }
  rewrite Sl, (proj2 (Z.eqb_neq _ _) Nz).
  assert (Pd : idx (rx s) + curSize (rx s) -u32 (idx (rx s) + Zlen content) = aead_mac_size + 1) by (rewrite wrap_small; unfold is_word; lia).
  rewrite <- Pd. reflexivity.
Qed.

(** Content and padding told apart. *)
Definition message_in (p : nat) (cl : list Z) (s : Ssl) : Prop :=
  (exists e, opened p cl e s /\ decryptedCur (rx s) = true /\ curRL_type (rx s) = s_type e /\ curSize (rx s) = Zlen (s_content e) /\
     curStartIdx (rx s) = idx (rx s) /\ Zlen (inputBuffer (rx s)) = idx (rx s) + curSize (rx s) + padSz (rx s) /\
     0 < padSz (rx s) /\ holds_at (s_content e) (rx s)) \/
  in_clear s.

Lemma stage_verify_sync p cl s : rx_inv s -> decrypted p cl s -> stage_sync p cl (message_in p cl) (stage_verify s).
Proof.
  intros (B & _ & _) Dc. unfold stage_verify. pose proof aead_mac_size_range as Mr. destruct Dc as [(e & O & Pr & Hc & L & Hd) | (C1 & C2 & C3 & C4)].
  - rewrite Pr. set (s1 := set_rx s _). pose proof (op_on _ _ _ _ O) as On.
    destruct (content_type_ok _ _ (opened_content _ _ _ _ O)) as (Ty & Lc). pose proof (rb_cur _ B) as [_ Cb].
    change (decryptOn (rx s1)) with (decryptOn (rx s)). change (decryptedCur (rx s1)) with true. rewrite On. cbn [andb].
    assert (B1 : rx_base (rx s1)) by (destruct B; split; try assumption; change (0 <= aead_mac_size); lia).
    rewrite (removeMsgInnerPadding_exact (s_content e) (s_type e) s1 B1 Hd) by (assumption || (destruct Ty as [-> | [-> | ->]]; discriminate)).
    cbn [Z.eqb negb]. set (s2 := set_rx s1 _). change (decryptOn (rx s2)) with (decryptOn (rx s)). rewrite On. cbn [andb].
    change (padSz (rx s2)) with (aead_mac_size + 1). change (curSize (rx s2)) with (curSize (rx s)).
    destruct (Z.gtb_spec (aead_mac_size + 1) (curSize (rx s))); [lia |]. left. exists e. split; [destruct O; now split |].
    assert (Cs : u16 (curSize (rx s) - u16 (aead_mac_size + 1)) = Zlen (s_content e))
      by (rewrite (wrap_small 16 (aead_mac_size + 1)) by (unfold is_word; lia); rewrite wrap_small; unfold is_word; lia).
    split; [reflexivity | split; [reflexivity | split; [exact Cs | split; [reflexivity | split; [| split]]]]].
    + change (Zlen (inputBuffer (rx s)) = idx (rx s) + u16 (curSize (rx s) - u16 (aead_mac_size + 1)) + (aead_mac_size + 1)). rewrite Cs. lia.
    + change (0 < aead_mac_size + 1). lia.
    + destruct Hd as (rest & Hd). exists ([s_type e] ++ rest). rewrite app_assoc. exact Hd.
  - assert (Pr : protected (rx s) = false) by (unfold protected; rewrite C1, C2; destruct C4 as [-> | ->]; reflexivity).
    rewrite Pr, C1, C2. cbn [andb Z.eqb negb]. rewrite C1. cbn [andb]. destruct (_ >? _); [now apply fail_sync |].
    right. split; [exact C1 | split; [exact C2 | split; [exact C3 | exact C4]]].
Qed.

(** ** Messages that are accepted *)

Lemma EarlySanityCheckMsgReceived_zero type n s s' : EarlySanityCheckMsgReceived type n s = (0, s') -> s' = s.
Proof.
  unfold EarlySanityCheckMsgReceived. cbv zeta. match goal with |- (?c, _) = _ -> _ => set (c0 := c) end.
  intros [= E <-]. now rewrite E.
Qed.

Lemma DoTls13KeyUpdate_zero body n s s' : keys_ok (keys (tx s)) -> DoTls13KeyUpdate body n s = (0, s') ->
  rx s' = { rx s with decSecret := rc_update (decSecret (rx s)) } /\ keys_ok (keys (tx s')) /\ tls_seq true (keys (tx s')) = 0.
Proof.
  intros K. unfold DoTls13KeyUpdate. destruct (negb (1 =? n)); [discriminate |].
  assert (G : forall t, keys t = keys (tx s) ->
    let s1 := update_decrypt_side { s with tx := t } in
    (if keyUpdateRespond (tx s1) then
       if Tls13KeyUpdateLimitReached (tx s1) then (0, { s1 with tx := { tx s1 with keyUpdateRespond := false } })
       else let '(ret, t) := SendTls13KeyUpdate (tx s1) in (ret, { s1 with tx := t })
     else (0, s1)) = (0, s') ->
    rx s' = { rx s with decSecret := rc_update (decSecret (rx s)) } /\ keys_ok (keys (tx s')) /\ tls_seq true (keys (tx s')) = 0).
  { intros t Et s1.
    assert (P1 : keys_ok (keys (tx s1)) /\ tls_seq true (keys (tx s1)) = 0).
    { unfold s1, update_decrypt_side, set_rx. cbn [tx keys]. rewrite <- Et in K. clear - K. destruct t as [k]. destruct k.
      unfold keys_ok, tls_seq, is_word in *. cbn in *. repeat split; lia || tauto. }
    destruct (keyUpdateRespond (tx s1)); [destruct (Tls13KeyUpdateLimitReached (tx s1)) |].
    - intros [= <-]. split; [reflexivity | exact P1].
    - pose proof (SendTls13KeyUpdate_peer (tx s1) (proj1 P1)) as P2. destruct (SendTls13KeyUpdate (tx s1)) as [c t1].
      intros [= -> <-]. split; [reflexivity |]. destruct P2 as [P2 P3]. cbn [snd] in *. split; [exact P2 | exact (eq_trans P3 (proj2 P1))].
    - intros [= <-]. split; [reflexivity | exact P1]. }
  destruct (rd body 0 =? update_not_requested); [apply (G { { tx s with keyUpdateRespond := false } with updateResponseReq := false }); reflexivity |].
  destruct (rd body 0 =? update_requested); [apply (G { tx s with keyUpdateRespond := true }); reflexivity | discriminate].
Qed.

Lemma gate_zero o type i n total m m' al : DoTls13HandShakeMsgType_gate o type i n total m = (0, m', al) -> al = [].
Proof.
  unfold DoTls13HandShakeMsgType_gate. destruct (_ <? _); [discriminate |]. destruct (SanityCheckTls13MsgReceived _ _ _) as [c k].
  destruct (Z.eqb_spec c 0) as [-> | N]; cbn [negb]; [| intros [= -> _ _]; congruence].
  destruct (_ && _); [discriminate |]. destruct (_ && _); [discriminate |]. destruct (_ && _); [discriminate | now intros [= _ <-]].
Qed.

Lemma DoTls13HandShakeMsgType_zero body i type n total s s' : DoTls13HandShakeMsgType body i type n total s = (0, s') ->
  exists m, let s1 := set_rx s (fun r => { r with msgsReceived := m }) in
    if type =? key_update then DoTls13KeyUpdate body n s1 = (0, s')
    else exists h, s' = set_rx s1 (fun r => { r with hs := h }).
Proof.
  unfold DoTls13HandShakeMsgType. destruct (DoTls13HandShakeMsgType_gate _ _ _ _ _ _) as [[c m] al] eqn:G.
  destruct (Z.eqb_spec c 0) as [-> | N]; cbn [negb]; [| intros [= -> _]; congruence].
  apply gate_zero in G as ->. cbn [fold_left]. intros E. exists m. cbv zeta. set (s1 := set_rx s _) in *.
  assert (F : forall (x : Z * Ssl), (let '(ret, s) := x in
      if negb (TranslateErrorToAlert ret =? invalid_alert) && negb (last_tx_level (tx s) =? alert_fatal) then
        let '(tmp, t) := SendAlert alert_fatal (TranslateErrorToAlert ret) (tx s) in
        (if tmp =? SOCKET_ERROR_E then SOCKET_ERROR_E else ret, { s with tx := t })
      else (ret, s)) = (0, s') -> x = (0, s')).
  { intros [ret s2]. destruct (Z.eq_dec ret 0) as [-> | N]; [tauto |].
    destruct (_ && _); [| intros [= -> _]; congruence]. destruct (SendAlert _ _ _) as [tmp t].
    destruct (tmp =? _); [discriminate | intros [= E0 _]; congruence]. }
  apply F in E. destruct (type =? key_update); [exact E |].
  destruct (handle_message type body (hs (rx s1))) as [ret h]. injection E as _ <-. now exists h.
Qed.

(** ** The content of a record *)

(** The content is used up and the receiver is at the next position. *)
Record consumed (p : nat) (cl : list Z) (s s' : Ssl) : Prop := {
  co_aligned : aligned (Datatypes.S p) cl s';
  co_idx : idx (rx s') = idx (rx s) + curSize (rx s);
  co_same : inputBuffer (rx s') = inputBuffer (rx s) /\ net (rx s') = net (rx s) /\ curSize (rx s') = curSize (rx s) /\
            curStartIdx (rx s') = curStartIdx (rx s) /\ padSz (rx s') = padSz (rx s)
}.

(** At the next position, under the same secret or the next one. *)
Lemma aligned_next p cl e s cl' s' : opened p cl e s ->
  (if is_key_update e then decSecret (rx s') = rc_update (decSecret (rx s)) /\ tls_seq true (keys (tx s')) = 0
   else decSecret (rx s') = decSecret (rx s) /\ tls_seq true (keys (tx s')) = tls_seq true (keys (tx s))) ->
  keys_ok (keys (tx s')) -> decryptOn (rx s') = decryptOn (rx s) -> opts (rx s') = opts (rx s) -> pending (rx s') = None ->
  clearOutputBuffer (rx s') = cl' -> aligned (Datatypes.S p) cl' s'.
Proof.
  intros [O1 O2 O3 O4 O5 O6 O7 O8 O9] N K Eo Ep Epn Ec. split; try congruence.
  - apply lookup_lt_Some in O1. lia.
  - eapply (chain_next log); [exact Chain | exact O1 |]. destruct (is_key_update e); destruct N as [-> ->]; congruence.
Qed.

Lemma not_key_update e : s_type e <> handshake -> is_key_update e = false.
Proof. intros N. unfold is_key_update. now rewrite (proj2 (Z.eqb_neq _ _) N). Qed.

Lemma app_content p cl e s s' : rx_inv s -> opened p cl e s -> s_type e = application_data -> curSize (rx s) = Zlen (s_content e) ->
  idx (rx s) + curSize (rx s) <= Zlen (inputBuffer (rx s)) -> holds_at (s_content e) (rx s) ->
  DoProcessAppDataRecord s = Some (0, s') -> consumed p (s_content e) s s'.
Proof.
  intros (B & _) O Ty Hc L Hd. unfold DoProcessAppDataRecord. destruct (keyUpdateRespond (tx s)); [discriminate |]. unfold DoApplicationData.
  destruct (negb _); [discriminate |]. destruct (content_type_ok _ _ (opened_content _ _ _ _ O)) as (_ & Lc).
  rewrite (proj2 (Z.eqb_neq (curSize (rx s)) 0)) by lia.
  rewrite (slice_holds (s_content e) (rx s) (curSize (rx s)) (rb_idx _ B) Hd) by lia.
  rewrite take_ge by (unfold Zlen in *; lia). intros [= <-].
  split; [| reflexivity | repeat split]. apply (aligned_next p cl e s); try reflexivity; try apply O.
  rewrite (not_key_update e) by (rewrite Ty; discriminate). now split.
Qed.

Lemma DoAlert_protected s c t s' : decryptedCur (rx s) = true -> DoAlert s = Some (c, t, s') -> keys (tx s') = keys (tx s).
Proof.
  intros D. unfold DoAlert. destruct (_ || _); [now intros [= _ _ <-] |]. destruct (slice _ _ _) as [[| l [| k [| ? ?]]] |]; try discriminate.
  set (s1 := set_rx s _). match goal with |- context [if ?b then { s1 with tx := _ } else s1] => set (s2 := if b then { s1 with tx := { tx s1 with isClosed := true } } else s1);
    assert (F : keys (tx s2) = keys (tx s) /\ rx s2 = rx s1) by (unfold s2; destruct b; split; reflexivity) end.
  clearbody s2. destruct F as [Fk Fr]. set (s3 := set_rx s2 _).
  assert (D3 : decryptedCur (rx s3) = true) by (unfold s3, set_rx; cbn [rx]; change (decryptedCur (rx s2) = true); now rewrite Fr).
  destruct (_ <=? _); [now intros [= _ _ <-] |]. rewrite D3. cbn [negb]. rewrite andb_false_r. intros [= _ _ <-].
  destruct (k =? close_notify); exact Fk.
Qed.

Lemma alert_content p cl e s s' : rx_inv s -> opened p cl e s -> s_type e = alert -> decryptedCur (rx s) = true ->
  DoProcessAlertRecord s = Some (0, s') -> consumed p cl s s'.
Proof.
  intros (B & _) O Ty D. unfold DoProcessAlertRecord. destruct (DoAlert_base s B) as (c & t & s1 & E & _ & _ & i & a & b & n & d & Er & Hi).
  pose proof (DoAlert_protected s c t s1 D E) as Ek. rewrite E. destruct (_ && _); [discriminate |].
  destruct (Z.ltb_spec c 0) as [N | N]; [intros [= -> _]; lia |]. destruct (t =? close_notify); [discriminate |].
  destruct (t =? decrypt_error); [discriminate |]. destruct (_ && _); [discriminate |]. intros [= <-].
  destruct Hi as [[_ Hi] | [Hi Hc]]; [lia |].
  split; [| rewrite Er, Hc; exact Hi | rewrite Er; repeat split].
  apply (aligned_next p cl e s); try (rewrite Er; try reflexivity; apply O); try exact O.
  - rewrite (not_key_update e) by (rewrite Ty; discriminate). rewrite Er, Ek. now split.
  - rewrite Ek. apply O.
Qed.

(** A message that fills its record goes to its handler whole. *)
Lemma DoTls13HandShakeMsg_whole type body s s' : rx_inv s -> pending (rx s) = None -> Zlen body <= MAX_RECORD_SIZE ->
  curSize (rx s) = Zlen body + HANDSHAKE_HEADER_SZ -> curStartIdx (rx s) = idx (rx s) ->
  idx (rx s) + curSize (rx s) <= Zlen (inputBuffer (rx s)) -> holds_at (whole_message type body) (rx s) ->
  DoTls13HandShakeMsg (curStartIdx (rx s) + curSize (rx s)) s = Some (0, s') ->
  exists s1, DoTls13HandShakeMsgType body (idx (rx s) + HANDSHAKE_HEADER_SZ) type (Zlen body) (curStartIdx (rx s) + curSize (rx s))
    (set_rx s (fun r => { r with idx := idx r + HANDSHAKE_HEADER_SZ })) = (0, s1) /\
    s' = set_rx s1 (fun r => { r with idx := idx r + Zlen body }).
Proof.
  intros (B & _) Pn Lb Hc Hs L Hd. pose proof (rb_idx _ B) as Hi. pose proof (Zlen_nonneg body) as Nb. unfold DoTls13HandShakeMsg. rewrite Pn, Hs, Hc.
  unfold HANDSHAKE_HEADER_SZ, MAX_RECORD_SIZE in *. destruct (Z.gtb_spec (idx (rx s)) (idx (rx s) + (Zlen body + 4))); [lia |].
  set (s1 := set_rx s _). change (idx (rx s1)) with (idx (rx s) + 4).
  destruct (Z.gtb_spec (idx (rx s) + 4) (idx (rx s) + (Zlen body + 4))); [lia |].
  assert (Lw : Zlen (whole_message type body) = 4 + Zlen body) by (unfold whole_message; rewrite Zlen_cons, Zlen_app; change (Zlen (be_bytes 3 (Zlen body))) with 3; lia).
  rewrite (slice_holds (whole_message type body) (rx s) 4 Hi Hd) by lia.
  set (b := be_bytes 3 (Zlen body)). assert (Eb : exists b0 b1 b2, b = [b0; b1; b2] /\ is_word 8 b0 /\ is_word 8 b1 /\ is_word 8 b2 /\ be_value [b0; b1; b2] = Zlen body).
  { pose proof (be_bytes_length 3 (Zlen body)) as Ln. pose proof (be_bytes_is_bytes 3 (Zlen body)) as Bn. fold b in Ln, Bn.
    pose proof (be_value_bytes 3 (Zlen body)) as Vn. fold b in Vn. rewrite wrap_small in Vn by (unfold is_word; cbn; lia).
    destruct b as [| b0 [| b1 [| b2 [| ? ?]]]]; try discriminate Ln. exists b0, b1, b2.
    apply Forall_cons in Bn as [? Bn]. apply Forall_cons in Bn as [? Bn]. apply Forall_cons in Bn as [? _]. repeat (split; [reflexivity || assumption |]). exact Vn. }
  destruct Eb as (b0 & b1 & b2 & Eb & W0 & W1 & W2 & V). unfold whole_message. fold b. rewrite Eb.
  change (take (Z.to_nat 4) (type :: [b0; b1; b2] ++ body)) with [type; b0; b1; b2]. cbv iota.
  change (Opaque.c24to32 [b0; b1; b2]) with (Opaque.ato24 [b0; b1; b2]). rewrite (ato24_be b0 b1 b2 []), V by assumption.
  match goal with |- context [EarlySanityCheckMsgReceived type ?n s1] => destruct (EarlySanityCheckMsgReceived type n s1) as [c s2] eqn:Ea end.
  destruct (Z.eqb_spec c 0) as [-> | N]; cbn [negb]; [| intros [= -> _]; congruence]. apply EarlySanityCheckMsgReceived_zero in Ea as ->.
  destruct (Z.gtb_spec (Zlen body) MAX_HANDSHAKE_SZ); [unfold MAX_HANDSHAKE_SZ in *; lia |].
  destruct (Z.ltb_spec (idx (rx s) + (Zlen body + 4) - idx (rx s) - 4) (Zlen body)); [lia |].
  assert (Hb : slice (inputBuffer (rx s)) (idx (rx s) + 4) (Zlen body) = Some body).
  { rewrite slice_some by lia. destruct Hd as (rest & Hd). rewrite Z2Nat.inj_add, <- drop_drop, Hd by lia. unfold whole_message. fold b. rewrite Eb.
    change (drop (Z.to_nat 4) ((type :: [b0; b1; b2] ++ body) ++ rest)) with (body ++ rest). unfold Zlen. rewrite Nat2Z.id. now rewrite take_app_length. }
  rewrite Hb. destruct (DoTls13HandShakeMsgType _ _ _ _ _ _) as [c s2] eqn:Eh. destruct (Z.eqb_spec c 0) as [-> | N]; [| intros [= -> _]; congruence].
  intros [= <-]. now exists s2.
Qed.

Lemma handshake_content p cl e s s' : rx_inv s -> opened p cl e s -> s_type e = handshake -> curSize (rx s) = Zlen (s_content e) ->
  curStartIdx (rx s) = idx (rx s) -> idx (rx s) + curSize (rx s) <= Zlen (inputBuffer (rx s)) -> holds_at (s_content e) (rx s) ->
  DoTls13HandShakeMsg (curStartIdx (rx s) + curSize (rx s)) s = Some (0, s') -> consumed p cl s s'.
Proof.
  intros I O Ty Hc Hs L Hd E.
  assert (M : exists type body, s_content e = whole_message type body /\ Zlen body <= MAX_RECORD_SIZE /\ is_key_update e = (type =? key_update)).
  { pose proof (opened_content _ _ _ _ O) as C. unfold is_key_update. rewrite Ty in *. cbn [Z.eqb Pos.eqb handshake andb].
    inversion C as [| | b Hb | type body Ht N Bb Lb]; subst; [exists key_update, [b] | exists type, body]; (split; [easy | split; [| reflexivity]]); unfold MAX_RECORD_SIZE, HANDSHAKE_HEADER_SZ in *; [discriminate | lia]. }
  destruct M as (type & body & Ec & Lb & Ek). rewrite Ec in *.
  assert (Lw : Zlen (whole_message type body) = Zlen body + HANDSHAKE_HEADER_SZ)
    by (unfold whole_message, HANDSHAKE_HEADER_SZ; rewrite Zlen_cons, Zlen_app; change (Zlen (be_bytes 3 (Zlen body))) with 3; lia).
  destruct (DoTls13HandShakeMsg_whole type body s s' I (op_pending _ _ _ _ O) Lb ltac:(congruence) Hs L Hd E) as (s2 & Eh & ->).
  apply DoTls13HandShakeMsgType_zero in Eh as (m & Eh). cbv zeta in Eh. pose proof O as [O1 O2 O3 O4 O5 O6 O7 O8 O9].
  destruct (type =? key_update).
  - set (s1 := set_rx _ _) in Eh. destruct (DoTls13KeyUpdate_zero body (Zlen body) s1 s2 O4 Eh) as (Er & K2 & Q2).
    split; [| unfold set_rx; cbn [rx]; change (idx (rx s2) + Zlen body = idx (rx s) + curSize (rx s)); rewrite Er, Hc, Lw; change (idx (rx s) + HANDSHAKE_HEADER_SZ + Zlen body = idx (rx s) + (Zlen body + HANDSHAKE_HEADER_SZ)); lia
            | unfold set_rx; cbn [rx]; rewrite Er; repeat split].
    apply (aligned_next p cl e s); unfold set_rx; cbn [rx tx]; rewrite ?Er; try assumption; try reflexivity.
    rewrite Ek. split; [reflexivity | exact Q2].
  - destruct Eh as (h & ->). split; [| change (idx (rx s) + HANDSHAKE_HEADER_SZ + Zlen body = idx (rx s) + curSize (rx s)); rewrite Hc, Lw; lia | repeat split].
    apply (aligned_next p cl e s); try assumption; try reflexivity. rewrite Ek. now split.
Qed.

Lemma in_clear_alert s s' : in_clear s -> rx_base (rx s) -> DoProcessAlertRecord s <> Some (0, s').
Proof.
  intros (C1 & C2 & _) B. unfold DoProcessAlertRecord.
  assert (N : forall c t s1, DoAlert s = Some (c, t, s1) -> c < 0).
  { intros c t s1. unfold DoAlert. destruct (_ || _); [now intros [= <- _ _] |]. destruct (slice _ _ _) as [[| l [| k [| ? ?]]] |]; try discriminate.
    set (s2 := set_rx s _). match goal with |- context [if ?b then { s2 with tx := _ } else s2] => set (s3 := if b then { s2 with tx := { tx s2 with isClosed := true } } else s2);
      assert (F : rx s3 = rx s2) by (unfold s3; destruct b; reflexivity) end.
    clearbody s3. set (s4 := set_rx s3 _).
    assert (D : decryptOn (rx s4) = true /\ decryptedCur (rx s4) = false) by (unfold s4, set_rx; cbn [rx]; change (decryptOn (rx s3) = true /\ decryptedCur (rx s3) = false); rewrite F; now split).
    destruct (_ <=? _); [now intros [= <- _ _] |]. destruct D as [-> ->]. cbn [negb andb]. now intros [= <- _ _]. }
  destruct (DoAlert s) as [[[c t] s1] |]; [| discriminate]. specialize (N c t s1 eq_refl).
  destruct (_ && _); [discriminate |]. destruct (Z.ltb_spec c 0); [intros [= -> _]; lia | lia].
Qed.

(** What an accepted record comes to. *)
Lemma process_content_sync p cl s s' : rx_inv s -> message_in p cl s -> process_content s = Some (0, s') ->
  exists e, opened p cl e s /\ consumed p (if s_type e =? application_data then s_content e else cl) s s' /\
    curStartIdx (rx s) = idx (rx s) /\ Zlen (inputBuffer (rx s)) = idx (rx s) + curSize (rx s) + padSz (rx s).
Proof.
  intros I [(e & O & D & Et & Hc & Hs & L & Hp & Hd) | Cl] E.
  - exists e. split; [exact O | split; [| split; [exact Hs | exact L]]]. unfold process_content in E.
    assert (Le : idx (rx s) + curSize (rx s) <= Zlen (inputBuffer (rx s))) by lia.
    destruct (content_type_ok _ _ (opened_content _ _ _ _ O)) as ([Ty | [Ty | Ty]] & _); rewrite Et, Ty in E; rewrite Ty; cbv beta iota zeta delta [Z.eqb Pos.eqb application_data alert handshake change_cipher_spec] in E |- *.
    + now apply (app_content p cl).
    + now apply (alert_content p cl e).
    + set (s1 := set_rx s _) in E. assert (I1 : rx_inv s1) by (destruct I as (B & P & Er); split; [now destruct B | split; [exact P | exact Er]]).
      assert (O1 : opened p cl e s1) by (destruct O; now split).
      destruct (handshake_content p cl e s1 s' I1 O1 Ty Hc Hs Le Hd E) as [C1 C2 C3]. now split.
  - exfalso. unfold process_content in E. pose proof Cl as (C1 & C2 & C3 & [Ty | Ty]); rewrite Ty in E; cbv beta iota zeta delta [Z.eqb Pos.eqb application_data alert handshake change_cipher_spec] in E.
    + unfold DoChangeCipherSpecTls13 in E. rewrite C3 in E. discriminate.
    + revert E. apply in_clear_alert; [exact Cl | apply I].
Qed.

Lemma stage_message_sync p cl s : rx_inv s -> processReply (rx s) = runProcessingOneMessage -> message_in p cl s ->
  stage_sync p cl (fun _ => False) (stage_message s).
Proof.
  intros I Q M. unfold stage_message. destruct (Z.leb_spec (Zlen (inputBuffer (rx s))) (idx (rx s))) as [L | L]; [now apply fail_sync |].
  pose proof (process_content_post s (conj I (conj Q L))) as K. destruct (process_content s) as [[c s1] |] eqn:E; [| destruct K].
  destruct (Z.eq_dec c 0) as [-> | N].
  2: { rewrite (proj2 (Z.eqb_neq c 0) N). cbn [negb]. destruct K as [(C & Nw & _) | (C & _)]; [now apply fail_sync | contradiction]. }
  clear K. destruct (process_content_sync p cl s s1 I M E) as (e & O & C & Hs & Hl). cbn [Z.eqb negb].
  destruct C as [A Ci (Cb & Cn & Cc & Cs & Cp)]. set (s2 := at_state doProcessInit s1).
  change (idx (rx s2)) with (idx (rx s1)). change (curStartIdx (rx s2)) with (curStartIdx (rx s1)). change (curSize (rx s2)) with (curSize (rx s1)).
  rewrite Ci, Cs, Cc, Hs. destruct (Z.ltb_spec (idx (rx s) + curSize (rx s) - idx (rx s)) (curSize (rx s))); [lia |].
  change (decryptOn (rx s2)) with (decryptOn (rx s1)). rewrite (al_on _ _ _ A). set (s3 := set_rx s2 _).
  assert (E3 : idx (rx s3) = Zlen (inputBuffer (rx s3))).
  { change (idx (rx s1) + padSz (rx s1) = Zlen (inputBuffer (rx s1))). rewrite Ci, Cp, Cb. lia. }
  rewrite <- E3, Z.leb_refl. right. right. split; [reflexivity |]. exists e. split; [apply O |].
  split; [destruct A; now split | split; [reflexivity | split; [unfold RECORD_HEADER_SZ; lia |]]].
  destruct (op_rest _ _ _ _ O) as (pre & W). exists pre. rewrite W. f_equal. unfold stream. rewrite drop_ge by (rewrite E3; unfold Zlen; lia).
  change (net_bytes (net (rx s)) = net_bytes (net (rx s1))). now rewrite Cn.
Qed.

(** ** Turns of the loop, and reads *)

(** A stage that keeps the invariant, followed by a stage of the receiver in step. *)
Definition both (p : nat) (cl : list Z) (Q : Ssl -> Prop) (f : flow (S := S) (T := T) (H := H)) : Prop :=
  match f with Fault => False | Go s => rx_inv s /\ Q s | Ret c s => rx_inv s /\ outcome p cl c s end.

Lemma both_intro n p cl (P Q : Ssl -> Prop) f : stage_post n P f -> (forall s, P s -> rx_inv s) -> stage_sync p cl Q f -> both p cl (fun s => P s /\ Q s) f.
Proof. destruct f; cbn; [auto | tauto | tauto]. Qed.

Lemma both_bind n p cl (P Q R : Ssl -> Prop) f k : both p cl Q f ->
  (forall s, rx_inv s -> Q s -> stage_post n P (k s)) -> (forall s, P s -> rx_inv s) ->
  (forall s, rx_inv s -> Q s -> stage_sync p cl R (k s)) -> both p cl (fun s => P s /\ R s) (bind_flow f k).
Proof.
  intros F Kp Pi Ks. destruct f as [s | c s |]; cbn [bind_flow]; [| exact F | exact F]. destruct F as [I F].
  apply (both_intro n); auto.
Qed.

Lemma at_stage_inv n q s : at_stage n q s -> rx_inv s.
Proof. now intros (I & _). Qed.

Lemma turn_sync p cl s : rx_inv s -> waiting p cl s -> both p cl (fun _ => False) (turn s).
Proof.
  intros I W. set (n := measure (rx s)).
  assert (End_ : forall f, both p cl (fun s => at_stage n getData s /\ with_header p cl s) f ->
    both p cl (fun _ => False) (bind_flow (bind_flow (bind_flow (bind_flow f stage_data) stage_decrypt) stage_verify) stage_message)).
  { intros f F.
    assert (F1 : both p cl (fun s => at_stage n decryptMessage s /\ record_in p cl s) (bind_flow f stage_data))
      by (apply (both_bind n _ _ _ _ _ _ _ F); [intros ? ? [A _]; now apply stage_data_post | apply at_stage_inv | intros ? J [_ A]; now apply stage_data_sync]).
    assert (F2 : both p cl (fun s => at_stage n verifyMessage s /\ decrypted p cl s) (bind_flow (bind_flow f stage_data) stage_decrypt))
      by (apply (both_bind n _ _ _ _ _ _ _ F1); [intros ? ? [A _]; now apply stage_decrypt_post | apply at_stage_inv | intros ? J [_ A]; now apply stage_decrypt_sync]).
    assert (F3 : both p cl (fun s => at_stage n runProcessingOneMessage s /\ message_in p cl s) (bind_flow (bind_flow (bind_flow f stage_data) stage_decrypt) stage_verify))
      by (apply (both_bind n _ _ _ _ _ _ _ F2); [intros ? ? [A _]; now apply stage_verify_post | apply at_stage_inv | intros ? J [_ A]; now apply stage_verify_sync]).
    pose proof (both_bind n p cl (fun s => rx_inv s /\ (measure (rx s) < n)%nat) _ (fun _ => False) _ stage_message F3) as F4.
    assert (F5 : forall g, both p cl (fun s => (rx_inv s /\ (measure (rx s) < n)%nat) /\ False) g -> both p cl (fun _ => False) g) by (intros [| |]; cbn; tauto).
    apply F5, F4; [intros ? ? [A _]; now apply stage_message_post | tauto | intros ? J [(_ & Q & _) A]; now apply stage_message_sync]. }
  unfold turn. destruct W as [B | B].
  - pose proof B as (_ & Q & _). rewrite Q. apply End_.
    assert (F0 : both p cl _ (stage_init s)) by (eapply (both_intro n); [exact (stage_init_post s I Q) | intros ? (J & _); exact J | exact (stage_init_sync p cl s I B)]).
    apply (both_bind n _ _ _ _ _ _ _ F0); [| apply at_stage_inv | intros ? J [_ A]; now apply stage_header_sync].
    intros s1 J [(_ & L & M & Q1) _]. now apply stage_header_post.
  - pose proof B as (_ & Q & _). rewrite Q.
    specialize (End_ (Go s)). cbn [bind_flow] in End_. apply End_. split; [exact I |]. split; [| exact B]. split; [exact I | split; [exact Q |]].
    unfold n, measure. rewrite Q. lia.
Qed.

(** The receiver in step between calls. *)
Definition in_step (p : nat) (cl : list Z) (s : Ssl) : Prop := rx_inv s /\ waiting p cl s.

(** A change of the sending side that leaves the number of the reading side alone. *)
Lemma in_step_tx p cl t s : in_step p cl s -> peer_kept (tx s) t -> error t <= 0 -> in_step p cl { s with tx := t }.
Proof.
  intros [(B & P & _) W] [K Q] E. split; [split; [exact B | split; [exact P | exact E]] |].
  destruct W as [(A & W) | (A & W)]; [left | right]; (split; [| exact W]);
    (destruct A; split; try assumption; change (chain k0 q0 (take p log) (decSecret (rx s)) (tls_seq true (keys t))); now rewrite Q).
Qed.

Lemma DoProcessReply_sync p cl s : in_step p cl s ->
  exists c s', DoProcessReply s = Some (Some (c, s')) /\ rx_inv s' /\ outcome p cl c s'.
Proof.
  intros St. pose proof St as [I W]. pose proof I as (B & P & E). unfold DoProcessReply.
  assert (K : keys_ok (keys (tx s))) by (destruct W as [(A & _) | (A & _)]; apply A).
  destruct (negb (error (tx s) =? 0) && _ && _) eqn:Ee.
  { exists (error (tx s)), s. split; [reflexivity | split; [exact I | left]].
    apply andb_true_iff in Ee as [Ee _]. apply andb_true_iff in Ee as [E1 E2]. apply negb_true_iff, Z.eqb_neq in E1, E2. split; [lia | exact E2]. }
  pose proof (RetrySendAlert_error (tx s)) as [[C Cw] Et]. pose proof (RetrySendAlert_peer (tx s) K) as Pk.
  destruct (RetrySendAlert (tx s)) as [c t]. cbn [fst snd] in *.
  pose proof (in_step_tx p cl t s St Pk ltac:(lia)) as [I1 W1]. set (s1 := { s with tx := t }) in *.
  destruct (Z.eqb_spec c 0) as [_ | N]; cbn [negb]; [| exists c, s1; split; [reflexivity | split; [exact I1 | left; split; [lia | exact Cw]]]].
  pose proof (turn_sync p cl s1 I1 W1) as Tu. cbn [Nat.add process_loop]. destruct (turn s1) as [s2 | d s2 |]; [destruct Tu as [_ []] | | destruct Tu].
  exists d, s2. now split.
Qed.

(** [d] given to the application so far, [cl] kept for it: the data of the first [p] records. *)
Definition delivered (d : list Z) (p : nat) (cl : list Z) : Prop := d ++ cl = app_data (take p log).

Lemma delivered_next d p e : delivered d p [] -> log !! p = Some e ->
  delivered d (Datatypes.S p) (if s_type e =? application_data then s_content e else []).
Proof.
  unfold delivered. intros D E. rewrite (take_S_r _ _ _ E), app_data_app, <- D, app_nil_r. f_equal.
  destruct (Z.eqb_spec (s_type e) application_data) as [Ty | Ty]; [now rewrite app_data_one | now rewrite app_data_none by now repeat constructor].
Qed.

Lemma receive_loop_sync d fuel : forall p cl s o s', in_step p cl s -> delivered d p cl ->
  receive_loop fuel s = Some (Some (o, s')) -> (forall c, o = Some c -> c = WANT_READ) ->
  exists p' cl', in_step p' cl' s' /\ delivered d p' cl' /\ (o = None -> clearOutputBuffer (rx s') = cl').
Proof.
  induction fuel as [| fuel IH]; intros p cl s o s' St D; [discriminate |]. cbn [receive_loop].
  assert (Ecl : clearOutputBuffer (rx s) = cl) by (destruct St as [_ [(A & _) | (A & _)]]; apply A).
  case_bool_decide as Hc; cbn [negb].
  2: { intros [= <- <-] _. exists p, cl. now split. }
  rewrite Hc in Ecl. subst cl. destruct (DoProcessReply_sync p [] s St) as (c & s1 & -> & I1 & Out).
  destruct Out as [[C Nw] | [[-> W] | (-> & e & Er & W)]].
  - rewrite (proj2 (Z.ltb_lt c 0) C). destruct (c =? ZERO_RETURN).
    { intros [= <- <-] Hw. specialize (Hw 0 eq_refl). discriminate. }
    destruct (_ && _); intros [= <- <-] Hw; [specialize (Hw 0 eq_refl); discriminate | specialize (Hw c eq_refl); contradiction].
  - cbn [Z.ltb Z.compare WANT_READ]. change (WANT_READ =? ZERO_RETURN) with false. change (WANT_READ =? SOCKET_ERROR_E) with false. cbn [andb].
    intros [= <- <-] _. exists p, []. split; [| split; [exact D | discriminate]]. apply in_step_tx; [now split | | discriminate].
    destruct W as [(A & _) | (A & _)]; (split; [apply A | reflexivity]).
  - cbn [Z.ltb Z.compare]. intros E Hw. eapply IH; [split; [exact I1 | left; exact W] | exact (delivered_next d p e D Er) | exact E | exact Hw].
Qed.

Lemma ReceiveData_sync d p cl sz s (r : Z) x s' : 0 < sz -> in_step p cl s -> delivered d p cl ->
  ReceiveData sz s = Some (Some (r, x, s')) -> 0 < r \/ r = WANT_READ ->
  exists p' cl', in_step p' cl' s' /\ delivered (d ++ x) p' cl'.
Proof.
  intros Hz St D. unfold ReceiveData. destruct (Z.gtb_spec sz INT_MAX); [intros [= <- _ _] [|]; discriminate |].
  set (s1 := if error (tx s) =? WANT_READ then _ else s).
  assert (St1 : in_step p cl s1).
  { unfold s1. destruct (error (tx s) =? WANT_READ); [| exact St]. apply in_step_tx; [exact St | | discriminate].
    destruct St as [_ [(A & _) | (A & _)]]; (split; [apply A | reflexivity]). }
  assert (Ne : error (tx s1) <> WANT_READ) by (unfold s1; destruct (Z.eqb_spec (error (tx s)) WANT_READ); [discriminate | assumption]).
  clearbody s1. destruct (_ && _).
  { intros [= <- _ _]. destruct St1 as [(_ & _ & E) _]. intros [|]; [lia | contradiction]. }
  destruct (receive_loop_post (3 + input_left (rx s1)) s1 (proj1 St1)) as (o & s2 & E & _ & Oc & _); [unfold measure; destruct (processReply _); lia |].
  rewrite E. destruct o as [c |].
  - intros [= <- <- <-] Hr. specialize (Oc c eq_refl).
    destruct (receive_loop_sync d _ p cl s1 _ s2 St1 D E) as (p' & cl' & St2 & D2 & _); [intros ? [= <-]; lia |].
    exists p', cl'. rewrite app_nil_r. now split.
  - intros [= <- <- <-] _. destruct (receive_loop_sync d _ p cl s1 _ s2 St1 D E) as (p' & cl' & St2 & D2 & Ec); [discriminate |].
    specialize (Ec eq_refl). rewrite Ec. set (n := if sz <? Zlen cl' then sz else Zlen cl').
    exists p', (drop (Z.to_nat n) cl'). split; [| unfold delivered; rewrite <- app_assoc, take_drop; exact D2].
    destruct St2 as [(B & P & Er) W]. split; [split; [now destruct B | split; [exact P | exact Er]] |].
    destruct W as [(A & W) | (A & W)]; [left | right]; (split; [| exact W]); destruct A; (split; try assumption; now rewrite <- Ec).
Qed.

End Channel.

(** ** Reading *)

Section Reads.
  Context {S T H : Type} `{RecordCrypto S, W64Ops T, Handlers H}.
  #[local] Abbreviation Ssl := (Ssl S T H).

(** What the application reads with [wolfSSL_read] while it goes well or has to
    wait, with anything done on the sending side in between. *)
Inductive reads : Ssl -> list Z -> Ssl -> Prop :=
| reads_done s : reads s [] s
| reads_call sz r x s s1 d s2 : 0 < sz -> ReceiveData sz s = Some (Some (r, x, s1)) -> 0 < r \/ r = WANT_READ ->
    reads s1 d s2 -> reads s (x ++ d) s2
| reads_other t s d s2 : peer_kept (tx s) t -> error t <= 0 -> reads { s with tx := t } d s2 -> reads s d s2.

(** A receiver after the handshake, with the secret and number the peer starts from. *)
Record ready (k0 : S) (q0 : Z) (s : Ssl) : Prop := {
  rd_inv : rx_inv s;
  rd_start : processReply (rx s) = doProcessInit /\ inputBuffer (rx s) = [] /\ idx (rx s) = 0;
  rd_secret : decSecret (rx s) = k0 /\ tls_seq true (keys (tx s)) = q0 /\ keys_ok (keys (tx s));
  rd_on : decryptOn (rx s) = true;
  rd_done : handShakeState (opts (rx s)) = HANDSHAKE_DONE;
  rd_empty : pending (rx s) = None /\ clearOutputBuffer (rx s) = []
}.

Context `{!RecordCryptoSpec S, !HandlersSpec H}.

Lemma reads_sync k0 q0 log k1 q1 whole s d s' : chain k0 q0 log k1 q1 -> unrepeated log k1 q1 -> unforged k0 q0 log whole ->
  reads s d s' -> forall d0 p cl, in_step k0 q0 log whole p cl s -> delivered log d0 p cl ->
  exists p' cl', in_step k0 q0 log whole p' cl' s' /\ delivered log (d0 ++ d) p' cl'.
Proof.
  intros C U F Rd. induction Rd as [s | sz r x s s1 d s2 Hz E Hr _ IH | t1 s d s2 Pk He _ IH]; intros d0 p cl St D.
  - exists p, cl. rewrite app_nil_r. now split.
  - destruct (ReceiveData_sync k0 q0 log k1 q1 whole C U F d0 p cl sz s r x s1 Hz St D E Hr) as (p' & cl' & St' & D').
    rewrite app_assoc. exact (IH _ _ _ St' D').
  - exact (IH d0 p cl (in_step_tx _ _ _ _ _ _ _ _ St Pk He) D).
Qed.

Lemma ready_in_step k0 q0 log s : ready k0 q0 s -> in_step k0 q0 log (net_bytes (net (rx s))) 0 [] s.
Proof.
  intros [I (R1 & R2 & R3) (R4 & R5 & R6) R7 R8 (R9 & R10)]. split; [exact I | left].
  split; [split; try assumption; [lia | now split] | split; [exact R1 |]]. unfold stream. rewrite R2, R3.
  split; [split; [reflexivity | discriminate] | now exists []].
Qed.

(** [C1] End to end: the peer sealed the records of its log, in any interleaving of its
    operations ([sender_trace]); the network delivers whatever it likes, none of it
    forged.  Then what the application has read, with what is kept for it, is exactly
    the application data of the first so many records the peer sealed: nothing lost,
    repeated, reordered or changed, across key updates, whatever is read
    and written in between. *)
Theorem channel_integrity b k0 q0 (t : Tx S T) (s : Ssl) d s' : sender_ok b k0 q0 t ->
  unrepeated (hist t) (encSecret t) (tls_seq false (keys t)) -> ready k0 q0 s ->
  unforged k0 q0 (hist t) (net_bytes (net (rx s))) -> reads s d s' ->
  exists p, d ++ clearOutputBuffer (rx s') = app_data (take p (hist t)).
Proof.
  intros Sn U R F Rd. pose proof (so_chain _ _ _ _ Sn) as C.
  destruct (reads_sync k0 q0 _ _ _ _ s d s' C U F Rd [] 0%nat [] (ready_in_step _ _ _ _ R) eq_refl) as (p & cl & [_ W] & D).
  exists p. rewrite <- D. cbn [app]. f_equal. destruct W as [(A & _) | (A & _)]; apply A.
Qed.

End Reads.

(** ** Deciding whether bytes hold a forgery *)

Section Decide.
  Context {S : Type} `{RecordCrypto S, !EqDecision S}.

(** The secret and number at each position of a log. *)
Fixpoint positions (k : S) (q : Z) (l : list (Sealed S)) : list (S * Z) :=
  match l with
  | [] => [(k, q)]
  | e :: l => (k, q) :: (if is_key_update e then positions (rc_update k) 0 l else positions k (u64 (q + 1)) l)
  end.

Lemma chain_positions l : forall p k q k' q', chain k q (take p l) k' q' -> (p <= length l)%nat -> (k', q') ∈ positions k q l.
Proof.
  induction l as [| e l IH]; intros p k q k' q' C L; cbn [positions].
  - rewrite take_nil in C. destruct C as [-> ->]. apply list_elem_of_here.
  - destruct p as [| p]; [destruct C as [-> ->]; apply list_elem_of_here |]. cbn [take chain] in C. destruct C as (_ & _ & _ & C).
    apply list_elem_of_further. cbn [length] in L. destruct (is_key_update e); (eapply IH; [exact C | lia]).
Qed.

(** Every record that could be read from the bytes. *)
Definition segments (whole : list Z) : list (list Z * list Z) :=
  flat_map (fun i => (fun j => (take 5 (drop i whole), take j (drop (i + 5) whole))) <$> List.seq 0 (Datatypes.S (length whole - (i + 5)))) (List.seq 0 (Datatypes.S (length whole))).

Lemma segments_complete whole pre a c post : whole = pre ++ a ++ c ++ post -> Zlen a = RECORD_HEADER_SZ -> (a, c) ∈ segments whole.
Proof.
  intros W L. assert (La : length a = 5%nat) by (unfold Zlen, RECORD_HEADER_SZ in L; lia).
  unfold segments. apply list_elem_of_In, in_flat_map. exists (length pre). split.
  - apply in_seq. rewrite W, length_app. lia.
  - apply list_elem_of_In, list_elem_of_fmap. exists (length c). split; [| apply list_elem_of_In, in_seq; rewrite W, !length_app; lia].
    rewrite (Nat.add_comm (length pre) 5), <- La. rewrite W. f_equal.
    + now rewrite drop_app_length, take_app_length.
    + rewrite Nat.add_comm, <- drop_drop, drop_app_length, drop_app_length. now rewrite take_app_length.
Qed.

Definition unforged_b (k0 : S) (q0 : Z) (log : list (Sealed S)) (whole : list Z) : bool :=
  forallb (fun '(k, q) =>
    forallb (fun '(a, c) =>
      let '(ret, text) := rc_decrypt k (nonce_of (rc_iv k) iv_size q) a c in
      (ret <? 0) ||
      existsb (fun e => bool_decide (s_secret e = k) && (s_seq e =? q) && bool_decide (text = s_content e ++ [s_type e])) log)
      (segments whole)) (positions k0 q0 log).

Lemma unforged_b_sound k0 q0 log whole : unforged_b k0 q0 log whole = true -> unforged k0 q0 log whole.
Proof.
  intros U p k q pre a c post ret text L C W La Ed Hr. unfold unforged_b in U. rewrite forallb_forall in U.
  specialize (U (k, q) (proj1 (list_elem_of_In _ _) (chain_positions log p k0 q0 k q C L))). cbv beta iota in U.
  rewrite forallb_forall in U. specialize (U (a, c) (proj1 (list_elem_of_In _ _) (segments_complete whole pre a c post W La))). cbv beta iota in U.
  rewrite Ed in U. apply orb_true_iff in U as [U | U]; [apply Z.ltb_lt in U; lia |].
  apply existsb_exists in U as (e & Ee & U). apply andb_true_iff in U as [U U3]. apply andb_true_iff in U as [U1 U2].
  exists e. split; [now apply list_elem_of_In |]. apply bool_decide_eq_true in U1, U3. apply Z.eqb_eq in U2. now split.
Qed.

End Decide.

(** ** A cipher with a tag, for witnesses

    The text in clear with a checksum of secret, nonce, additional data and text; secrets
    are counted. *)

Definition checksum (l : list Z) : Z := fold_left (fun x b => Z.land (x * 31 + b + 1) 0xffffffff) l 0.

Definition tag_of (k : Z) (n a p : list Z) : list Z := be_bytes 4 (checksum (k :: n ++ a ++ p)).

#[export] Instance tagged_crypto : RecordCrypto Z := {|
  rc_encrypt k n a p := p ++ tag_of k n a p;
  rc_decrypt k n a c :=
    let p := take (length c - 4) c in
    (if bool_decide (drop (length c - 4) c = tag_of k n a p) then 0 else VERIFY_MAC_ERROR, p);
  rc_iv _ := replicate 12 0;
  rc_update k := k + 1;
  iv_size := 12;
  aead_mac_size := 4
|}.

#[export] Instance tagged_crypto_spec : RecordCryptoSpec Z.
Proof.
  split; cbn [rc_encrypt rc_decrypt rc_iv iv_size aead_mac_size tagged_crypto].
  - intros. now rewrite Zlen_app.
  - intros k n a p B. apply is_bytes_app. split; [exact B | apply be_bytes_is_bytes].
  - intros k n a p. rewrite length_app. change (length (tag_of k n a p)) with 4%nat. rewrite Nat.add_sub.
    rewrite take_app_length, drop_app_length. now rewrite bool_decide_eq_true_2.
  - intros k n a c L. cbn [snd]. unfold Zlen in *. rewrite length_take. lia.
  - intros k n a c B. cbn [snd]. now apply Forall_take.
  - intros k n a c. cbn [fst]. destruct (bool_decide _); split; discriminate.
  - intros k. split; [repeat constructor; discriminate | discriminate].
  - lia.
Qed.

Definition tagged_ssl (script : list recv_result) : Ssl Z Native.w64wrapper nat :=
  {| tx := fresh_tx_with 0 []; rx := fresh_rx_with 0 script |}.

(** The peer writes, updates its key and writes again. *)
Definition peer_session : Tx Z Native.w64wrapper := Eval vm_compute in
  let next (o : option (Z * Tx Z Native.w64wrapper)) := match o with Some (_, t) => t | None => fresh_tx_with 0 [] end in
  next (SendData [3] (snd (SendTls13KeyUpdate (next (SendData [1; 2] (fresh_tx_with 0 [])))))).

Lemma peer_session_ok : sender_ok wolfssl_aes_gcm 0 0 peer_session.
Proof.
  split.
  - split; [repeat split; discriminate | split; [reflexivity | split; [constructor | reflexivity]]].
  - exists 0. repeat split; discriminate.
  - reflexivity.
  - split; [reflexivity | split; [reflexivity | split; [apply ok_data; [repeat constructor; discriminate | split; [reflexivity | discriminate]] |]]].
    split; [reflexivity | split; [reflexivity | split; [apply (ok_key_update 1); now right |]]].
    split; [reflexivity | split; [reflexivity | split; [apply ok_data; [repeat constructor; discriminate | split; [reflexivity | discriminate]] |]]].
    split; reflexivity.
  - vm_compute. reflexivity.
  - repeat constructor; intros _ _; reflexivity.
Qed.

Lemma tagged_ready script : is_bytes (net_bytes script) -> ready 0 0 (tagged_ssl script).
Proof.
  intros B. split; try reflexivity; [| now repeat split | | now split].
  - split; [| split; [exact I | discriminate]]. split; try discriminate; [reflexivity | constructor | exact B | split; [discriminate | reflexivity]].
  - split; [reflexivity | split; [reflexivity | repeat split; discriminate]].
Qed.

(** Everything the peer sent arrives cut in pieces, followed by its first record again. *)
Lemma channel_integrity_witness :
  let w := wire peer_session in
  let s := tagged_ssl [Data (take 7 w); No_data; Data (drop 7 w); Data (take 12 w)] in
  let s1 := snd (read 100 s) in
  let s2 := snd (read 100 s1) in
  let s3 := snd (read 100 s2) in
  reads s [1; 2; 3] s3 /\ fst (read 100 s3) = (VERIFY_MAC_ERROR, []) /\
  exists p, [1; 2; 3] ++ clearOutputBuffer (rx s3) = app_data (take p (hist peer_session)).
Proof.
  intros w s s1 s2 s3.
  assert (R : reads s [1; 2; 3] s3).
  { apply (reads_call 100 WANT_READ [] s s1 [1; 2; 3] s3); [reflexivity | | now right |].
    { rewrite read_eq by (vm_compute; reflexivity). vm_compute. reflexivity. }
    apply (reads_call 100 2 [1; 2] s1 s2 [3] s3); [reflexivity | | now left |].
    { rewrite read_eq by (vm_compute; reflexivity). vm_compute. reflexivity. }
    apply (reads_call 100 1 [3] s2 s3 [] s3); [reflexivity | | now left | apply reads_done].
    rewrite read_eq by (vm_compute; reflexivity). vm_compute. reflexivity. }
  split; [exact R | split; [vm_compute; reflexivity |]].
  apply (channel_integrity wolfssl_aes_gcm 0 0 peer_session s [1; 2; 3] s3 peer_session_ok).
  - apply (bool_decide_unpack _). vm_compute. exact I.
  - apply tagged_ready, (bool_decide_unpack _). vm_compute. exact I.
  - apply unforged_b_sound. vm_compute. reflexivity.
  - exact R.
Defined.
