(* ===== verification/DtlsCid.v ===== *)
(** * src/dtls.c, src/dtls13.c: DTLS connection IDs

    Each side may ask its peer to put a connection ID into every record it
    sends: [rx] is the ID this side wants to receive, [tx] the one the peer
    asked for.  The IDs travel in the connection_id extension (RFC 9146) and,
    over DTLS 1.3, in NewConnectionId messages (RFC 9147).  The model starts
    from a non-NULL [ssl]; the extension list is represented by whether it
    holds the connection_id extension and its [resp] flag. *)

From stdpp Require Import relations.
From S2P Require Import Prelude Misc Tls.

#[local] Open Scope Z_scope.

Definition DTLS_CID_MAX_SIZE : Z := 10.
Definition DTLS_CID_ERROR : Z := -454.
Definition UNSUPPORTED_EXTENSION : Z := -429.
Definition INVALID_PARAMETER : Z := -425.
Definition WOLFSSL_SUCCESS : Z := 1.
Definition WOLFSSL_FAILURE : Z := 0.
Definition cid_immediate : Z := 0.
Definition cid_spare : Z := 1.
Definition dtls12_cid : Z := 25.
Definition DTLS_RECORD_HEADER_SZ : Z := 13.
Definition DTLS13_FIXED_BITS_MASK : Z := 0xe0.
Definition DTLS13_FIXED_BITS : Z := 0x20.
Definition DTLS13_CID_BIT : Z := 0x10.

(** A [ConnectionID] is its [length] bytes. *)
Record CIDInfo := mkCID { tx : option (list Z); rx : option (list Z); negotiated : bool }.

Record DtlsCid := mkDtlsCid {
  side : Z; serverState : Z; scr : bool; useDtlsCID : bool;
  dtlsCidInfo : option CIDInfo; cidExt : option bool; recordSzOverhead : Z }.

Definition set_info (s : DtlsCid) (i : CIDInfo) : DtlsCid := { s with dtlsCidInfo := Some i }.

(** ** Reading the IDs *)

Definition DtlsCidGetInfo (s : DtlsCid) : option CIDInfo := dtlsCidInfo s.

Definition DtlsCidGetSize (s : DtlsCid) (isRx : bool) : Z * Z :=
  match DtlsCidGetInfo s with
  | None => (WOLFSSL_FAILURE, 0)
  | Some info =>
      match (if isRx then rx info else tx info) with
      | None => (WOLFSSL_SUCCESS, 0)
      | Some id => (WOLFSSL_SUCCESS, Zlen id)
      end
  end.

(** The bytes copied to the start of the caller's buffer. *)
Definition DtlsCidGet (s : DtlsCid) (bufferSz : Z) (isRx : bool) : Z * list Z :=
  match DtlsCidGetInfo s with
  | None => (WOLFSSL_FAILURE, [])
  | Some info =>
      match (if isRx then rx info else tx info) with
      | None => (WOLFSSL_SUCCESS, [])
      | Some id =>
          if Zlen id =? 0 then (WOLFSSL_SUCCESS, [])
          else if bufferSz <? Zlen id then (LENGTH_ERROR, [])
          else (WOLFSSL_SUCCESS, id)
      end
  end.

Definition wolfSSL_dtls_cid_is_enabled (s : DtlsCid) : bool := bool_decide (is_Some (DtlsCidGetInfo s)).

Definition DtlsGetCidTxSize (s : DtlsCid) : Z :=
  let '(ret, cidSz) := DtlsCidGetSize s false in
  if negb (ret =? WOLFSSL_SUCCESS) then 0 else u8 cidSz.

Definition DtlsGetCidRxSize (s : DtlsCid) : Z :=
  let '(ret, cidSz) := DtlsCidGetSize s true in
  if negb (ret =? WOLFSSL_SUCCESS) then 0 else u8 cidSz.

(** Whether the record at [input] starts with the ID this side wants. *)
Definition DtlsCIDCheck (s : DtlsCid) (input : list Z) : bool :=
  match DtlsCidGetInfo s with
  | Some (mkCID _ (Some id) _) =>
      if Zlen id =? 0 then false
      else if Zlen input <? Zlen id then false
      else bool_decide (take (length id) input = id)
  | _ => false
  end.

(** ** Setting the IDs *)

(** [alloc]: whether the allocations succeed; [push]: the result of
    [TLSX_Push]. *)
Definition TLSX_ConnectionID_Use (alloc : bool) (push : Z) (s : DtlsCid) : Z * DtlsCid :=
  match cidExt s with
  | Some _ => (0, s)
  | None =>
      if negb alloc then (MEMORY_ERROR, s)
      else if negb (push =? 0) then (push, { s with dtlsCidInfo := None })
      else (0, { set_info s (mkCID None None false) with cidExt := Some false })
  end.

Definition wolfSSL_dtls_cid_use (alloc : bool) (push : Z) (s : DtlsCid) : Z * DtlsCid :=
  let s := { s with useDtlsCID := true } in
  let '(ret, s) := TLSX_ConnectionID_Use alloc push s in
  if negb (ret =? 0) then (ret, s) else (WOLFSSL_SUCCESS, s).

(** [cid]: [None] for a NULL pointer. *)
Definition wolfSSL_dtls_cid_set (alloc : bool) (s : DtlsCid) (cid : option (list Z)) (size : Z)
    : Z * DtlsCid :=
  if negb (useDtlsCID s) then (WOLFSSL_FAILURE, s)
  else
    match DtlsCidGetInfo s with
    | None => (WOLFSSL_FAILURE, s)
    | Some info =>
        if bool_decide (is_Some (rx info)) then (WOLFSSL_FAILURE, s)
        else if size =? 0 then (WOLFSSL_SUCCESS, s)
        else
          match cid with
          | None => (BAD_FUNC_ARG, s)
          | Some cid =>
              if DTLS_CID_MAX_SIZE <? size then (LENGTH_ERROR, s)
              else if negb alloc then (MEMORY_ERROR, s)
              else (WOLFSSL_SUCCESS, set_info s { info with rx := Some (take (Z.to_nat size) cid) })
          end
    end.

Definition DtlsCidReplaceTx (alloc : bool) (s : DtlsCid) (cid : option (list Z)) : Z * DtlsCid :=
  match cid with
  | None => (BAD_FUNC_ARG, s)
  | Some cid =>
      if Zlen cid =? 0 then (BAD_FUNC_ARG, s)
      else if DTLS_CID_MAX_SIZE <? Zlen cid then (LENGTH_ERROR, s)
      else
        match DtlsCidGetInfo s with
        | None => (BAD_STATE_E, s)
        | Some info =>
            if negb alloc then (MEMORY_ERROR, s)
            else (0, { set_info s { info with tx := Some cid } with recordSzOverhead := 0 })
        end
  end.

(** ** The connection_id extension *)

Definition TLSX_ConnectionID_Write (s : DtlsCid) : list Z :=
  match dtlsCidInfo s with
  | None => []
  | Some info => match rx info with None => [0] | Some id => u8 (Zlen id) :: id end
  end.

Definition TLSX_ConnectionID_GetSize (s : DtlsCid) : Z :=
  match dtlsCidInfo s with
  | None => 0
  | Some info => match rx info with None => 1 | Some id => 1 + Zlen id end
  end.

Definition TLSX_ConnectionID_Parse (alloc : bool) (s : DtlsCid) (input : list Z) (isRequest : bool)
    : Z * DtlsCid :=
  match cidExt s with
  | None => (if isRequest then 0 else UNSUPPORTED_EXTENSION, s)
  | Some resp =>
      if Zlen input <? 1 then (BUFFER_ERROR, s)
      else
        let cidSz := rd input 0 in
        if Zlen input <? cidSz + 1 then (BUFFER_ERROR, s)
        else
          let cid := take (Z.to_nat cidSz) (drop 1 input) in
          match DtlsCidGetInfo s with
          | None => (BAD_STATE_E, s)
          | Some info =>
              let checked :=
                if bool_decide (is_Some (tx info)) || negotiated info then
                  if negb (side s =? WOLFSSL_SERVER_END) &&
                     negb (serverState s =? SERVER_HELLO_RETRY_REQUEST_COMPLETE) && negb (scr s)
                  then inl BAD_STATE_E
                  else
                    match tx info with
                    | None => inl BAD_STATE_E
                    | Some id =>
                        if negb (cidSz =? Zlen id) || negb (bool_decide (id = cid))
                        then inl DTLS_CID_ERROR else inr s
                    end
                else if 0 <? cidSz then
                  if negb alloc then inl MEMORY_ERROR
                  else inr { set_info s { info with tx := Some cid } with recordSzOverhead := 0 }
                else inr s in
              match checked with
              | inl e => (e, s)
              | inr s =>
                  let s := { s with dtlsCidInfo := (fun i : CIDInfo => { i with negotiated := true }) <$> dtlsCidInfo s } in
                  (0, if isRequest then { s with cidExt := Some true } else s)
              end
          end
  end.

(** [TLSX_Remove] frees the extension, and with it the IDs. *)
Definition DtlsCIDOnExtensionsParsed (s : DtlsCid) : DtlsCid :=
  match DtlsCidGetInfo s with
  | None => s
  | Some info =>
      if negb (negotiated info) then
        match cidExt s with
        | None => s
        | Some _ => { { s with dtlsCidInfo := None } with cidExt := None }
        end
      else s
  end.

(** ** Records and messages that carry IDs *)

Definition Dtls13IsUnifiedHeader (b : Z) : bool :=
  if (b =? alert) || (b =? handshake) || (b =? ack) then false
  else Z.land b DTLS13_FIXED_BITS_MASK =? DTLS13_FIXED_BITS.

Definition Dtls13UnifiedHeaderCIDPresent (flags : Z) : bool :=
  Dtls13IsUnifiedHeader flags && negb (Z.land flags DTLS13_CID_BIT =? 0).

(** The offset of the ID in a datagram; [None] for NULL. *)
Definition wolfSSL_dtls_cid_parse (msg : list Z) (cidSz : Z) : option Z :=
  if (cidSz =? 0) || (Zlen msg <? u32 (1 + cidSz)) then None
  else if rd msg 0 =? dtls12_cid then
    if Zlen msg <? u32 (DTLS_RECORD_HEADER_SZ + cidSz) then None else Some (1 + 2 + 2 + 2 + 4)
  else if Dtls13UnifiedHeaderCIDPresent (rd msg 0) then
    if Zlen msg <? u32 (1 + cidSz) then None else Some 1
  else None.

Definition DoDtls13RequestConnectionId (size : Z) : Z * Z :=
  if negb (size =? 1) then (BUFFER_ERROR, 0) else (0, size).

(** The walk over the [cids] vector: the first ID that can be used, or
    [None] for a malformed vector. *)
Fixpoint cid_walk (fuel : nat) (cids : list Z) (newCid : option (list Z)) : option (option (list Z)) :=
  match fuel, cids with
  | _, [] => Some newCid
  | O, _ => None
  | S fuel, cidLen :: rest =>
      if Zlen rest <? cidLen then None
      else
        let id := take (Z.to_nat cidLen) rest in
        let newCid :=
          match newCid with
          | None => if (0 <? cidLen) && (cidLen <=? DTLS_CID_MAX_SIZE) then Some id else None
          | Some _ => newCid
          end in
        cid_walk fuel (drop (Z.to_nat cidLen) rest) newCid
  end.

(** [input] starts at [*inOutIdx] and holds the [size] bytes of the message;
    returns the code, the new state and how far [*inOutIdx] moved. *)
Definition DoDtls13NewConnectionId (alloc : bool) (s : DtlsCid) (input : list Z) (size : Z)
    : Z * DtlsCid * Z :=
  if size <? 2 + 1 then (BUFFER_ERROR, s, 0)
  else
    let cidsLen := Opaque.ato16 input in
    if negb (u32 (cidsLen + 2 + 1) =? size) then (BUFFER_ERROR, s, 0)
    else
      let cids := take (Z.to_nat cidsLen) (drop 2 input) in
      match cid_walk (length cids) cids None with
      | None => (BUFFER_ERROR, s, 0)
      | Some newCid =>
          let usage := rd input (2 + cidsLen) in
          if negb (usage =? cid_immediate) && negb (usage =? cid_spare) then (INVALID_PARAMETER, s, 0)
          else if usage =? cid_immediate then
            match newCid with
            | None => (INVALID_PARAMETER, s, 0)
            | Some _ =>
                let '(ret, s) := DtlsCidReplaceTx alloc s newCid in
                if negb (ret =? 0) then (ret, s, 0) else (0, s, 2 + cidsLen + 1)
            end
          else (0, s, 2 + cidsLen + 1)
      end.

(** ** Well-formed IDs *)

Definition id_ok (max : Z) (id : list Z) : Prop := 1 <= Zlen id <= max /\ is_bytes id.

(** The IDs exist exactly while the extension does; an ID is never empty
    (none is NULL), the one this side asked for fits [DTLS_CID_MAX_SIZE] and
    the peer's fits a byte. *)
Definition cid_ok (s : DtlsCid) : Prop :=
  (is_Some (dtlsCidInfo s) <-> is_Some (cidExt s)) /\
  forall i, dtlsCidInfo s = Some i ->
    (forall id, rx i = Some id -> id_ok DTLS_CID_MAX_SIZE id) /\
    (forall id, tx i = Some id -> id_ok 255 id).

(** What the application, the peer and the allocator can do to the IDs. *)
Inductive cid_step : DtlsCid -> DtlsCid -> Prop :=
| step_use alloc push s : cid_step s (wolfSSL_dtls_cid_use alloc push s).2
| step_set alloc s cid size :
    (forall c, cid = Some c -> is_bytes c /\ size <= Zlen c) -> 0 <= size ->
    cid_step s (wolfSSL_dtls_cid_set alloc s cid size).2
| step_parse alloc s input isRequest :
    is_bytes input -> cid_step s (TLSX_ConnectionID_Parse alloc s input isRequest).2
| step_parsed s : cid_step s (DtlsCIDOnExtensionsParsed s)
| step_new alloc s input size :
    is_bytes input -> size <= Zlen input -> cid_step s (DoDtls13NewConnectionId alloc s input size).1.2.

(** ** The vector of IDs *)

Definition cids_bytes (l : list (list Z)) : list Z := concat ((fun id => Zlen id :: id) <$> l).

Definition usable (id : list Z) : bool := (0 <? Zlen id) && (Zlen id <=? DTLS_CID_MAX_SIZE).

Definition first_usable (l : list (list Z)) : option (list Z) := head (filter (fun id => usable id = true) l).

Lemma first_usable_cons id l :
  first_usable (id :: l) = if usable id then Some id else first_usable l.
Proof.
  unfold first_usable. rewrite filter_cons. destruct (decide _) as [E | E]; [now rewrite E |].
  apply not_true_is_false in E. now rewrite E.
Qed.

Lemma cid_walk_encoded n l nc :
  Forall (fun id => Zlen id <= 255 /\ is_bytes id) l -> (length (cids_bytes l) <= n)%nat ->
  cid_walk n (cids_bytes l) nc = Some (match nc with None => first_usable l | _ => nc end).
Proof.
  intros Hl. revert n nc. induction Hl as [| id l [Hid _] Hl IH]; intros n nc Hn.
  - destruct n, nc; reflexivity.
  - change (cids_bytes (id :: l)) with (Zlen id :: id ++ cids_bytes l) in *. cbn [length] in Hn.
    destruct n as [| n]; [lia |]. cbn [cid_walk]. rewrite length_app in Hn.
    destruct (Z.ltb_spec (Zlen (id ++ cids_bytes l)) (Zlen id)); [unfold Zlen in *; rewrite length_app in *; lia |].
    replace (Z.to_nat (Zlen id)) with (length id) by (unfold Zlen; lia).
    rewrite take_app_length, drop_app_length, IH by lia. f_equal.
    rewrite first_usable_cons. unfold usable. destruct nc; [reflexivity | now destruct ((0 <? Zlen id) && (Zlen id <=? DTLS_CID_MAX_SIZE))].
Qed.

Lemma cid_walk_inv n c nc r :
  is_bytes c -> cid_walk n c nc = Some r ->
  exists l, c = cids_bytes l /\ Forall (fun id => Zlen id <= 255 /\ is_bytes id) l /\
    r = match nc with None => first_usable l | _ => nc end.
Proof.
  revert c nc. induction n as [| n IH]; intros [| b rest] nc Hc E; try discriminate E.
  1, 2: (injection E as <-; exists []; split; [reflexivity | split; [constructor | now destruct nc]]).
  cbn [cid_walk] in E. destruct (Z.ltb_spec (Zlen rest) b) as [| Hb]; [discriminate |].
  apply Forall_cons_1 in Hc as [Hb8 Hr]. unfold is_word in Hb8.
  set (id := take (Z.to_nat b) rest) in *.
  assert (Lid : Zlen id = b) by (unfold id, Zlen in *; rewrite length_take; lia).
  apply IH in E as (l & Hl & Fl & ->); [| now apply Forall_drop].
  exists (id :: l). split; [| split].
  - change (cids_bytes (id :: l)) with (Zlen id :: id ++ cids_bytes l). rewrite Lid, <- Hl. f_equal.
    unfold id. now rewrite take_drop.
  - constructor; [| exact Fl]. split; [lia | now apply Forall_take].
  - rewrite first_usable_cons. unfold usable. rewrite Lid. destruct nc; [reflexivity | now destruct ((0 <? b) && (b <=? DTLS_CID_MAX_SIZE))].
Qed.

Lemma first_usable_ok l id :
  Forall (fun id => Zlen id <= 255 /\ is_bytes id) l -> first_usable l = Some id ->
  id_ok DTLS_CID_MAX_SIZE id.
Proof.
  intros Fl E. unfold first_usable in E. apply head_Some_elem_of in E.
  apply list_elem_of_filter in E as [U I]. destruct (proj1 (list.Forall_forall _ _) Fl id I) as [_ B].
  unfold usable in U. apply andb_true_iff in U as [U1 U2]. split; [lia | exact B].
Qed.

(** Facts about the operations, for a side whose IDs are well formed. *)
Lemma replace_ok s info id :
  dtlsCidInfo s = Some info -> id_ok DTLS_CID_MAX_SIZE id ->
  DtlsCidReplaceTx true s (Some id)
  = (0, { set_info s { info with tx := Some id } with recordSzOverhead := 0 }).
Proof.
  intros Hi [Hl _]. unfold DtlsCidReplaceTx, DtlsCidGetInfo. rewrite Hi.
  destruct (Z.eqb_spec (Zlen id) 0); [lia |]. destruct (Z.ltb_spec DTLS_CID_MAX_SIZE (Zlen id)); [lia | reflexivity].
Qed.

Lemma set_tx_ok s info id n :
  cid_ok s -> dtlsCidInfo s = Some info -> id_ok 255 id ->
  cid_ok { set_info s { info with tx := Some id } with recordSzOverhead := n }.
Proof.
  intros [He Hi] E Hid. split; cbn.
  - rewrite <- He, E. split; intros _; eauto.
  - intros i [= <-]. destruct (Hi _ E) as [Hr _]. split; [exact Hr | now intros id' [= <-]].
Qed.

Lemma parse_ok alloc s input q : is_bytes input -> cid_ok s -> cid_ok (TLSX_ConnectionID_Parse alloc s input q).2.
Proof.
  intros Hb Hs. unfold TLSX_ConnectionID_Parse, DtlsCidGetInfo.
  destruct (cidExt s) as [rsp |] eqn:Ex; [| exact Hs].
  destruct (Z.ltb_spec (Zlen input) 1); [exact Hs |].
  destruct (Z.ltb_spec (Zlen input) (rd input 0 + 1)); [exact Hs |].
  destruct (dtlsCidInfo s) as [info |] eqn:Ei; [| exact Hs].
  assert (G : forall s', cid_ok s' -> cidExt s' = Some rsp ->
    cid_ok (let s0 := { s' with dtlsCidInfo := (fun i : CIDInfo => { i with negotiated := true }) <$> dtlsCidInfo s' } in
            if q then { s0 with cidExt := Some true } else s0)).
  { intros s' [He Hi] Ex'. cbn. destruct (dtlsCidInfo s') as [i' |] eqn:E'.
    2: { exfalso. rewrite Ex' in He. destruct (proj2 He ltac:(eauto)) as [? ?]. congruence. }
    destruct q; (split; cbn; [rewrite ?Ex'; split; eauto |]; intros ? [= <-]; exact (Hi _ eq_refl)). }
  destruct (bool_decide _ || _).
  - repeat case_match; try exact Hs; simplify_eq; now apply G.
  - destruct (Z.ltb_spec 0 (rd input 0)); [destruct alloc |]; cbn [negb snd]; try exact Hs; [| now apply G].
    apply G; [| exact Ex]. apply set_tx_ok; auto. split; [| now apply Forall_take, Forall_drop].
    pose proof (rd_is_word 8 input 0 ltac:(lia) Hb) as Hw. unfold is_word in Hw.
    unfold Zlen in *. rewrite length_take, length_drop. lia.
Qed.

Lemma new_ok alloc s input size :
  is_bytes input -> size <= Zlen input -> cid_ok s -> cid_ok (DoDtls13NewConnectionId alloc s input size).1.2.
Proof.
  intros Hb Hz Hs. unfold DoDtls13NewConnectionId.
  destruct (size <? 2 + 1); [exact Hs |]. destruct (negb _); [exact Hs |]. cbv zeta.
  destruct (cid_walk _ _ None) as [nc |] eqn:E; [| exact Hs].
  destruct (negb _ && negb _); [exact Hs |]. destruct (_ =? cid_immediate); [| exact Hs].
  destruct nc as [id |]; [| exact Hs].
  apply cid_walk_inv in E as (l & _ & Fl & E); [| now apply Forall_take, Forall_drop].
  symmetry in E. apply first_usable_ok in E as [Hl Hbid]; [| exact Fl].
  destruct (DtlsCidReplaceTx alloc s (Some id)) as [ret s'] eqn:Er.
  assert (cid_ok s') as Hs'; [| now destruct (negb (ret =? 0))].
  unfold DtlsCidReplaceTx, DtlsCidGetInfo in Er.
  repeat case_match; simplify_eq; auto. apply set_tx_ok; auto.
  split; [unfold DTLS_CID_MAX_SIZE in Hl; lia | exact Hbid].
Qed.

Lemma step_ok s s' : cid_step s s' -> cid_ok s -> cid_ok s'.
Proof.
  intros [alloc push s1 | alloc s1 cid size Hc Hz | alloc s1 input q Hb | s1 | alloc s1 input size Hb Hz] Hs.
  - destruct s1 as [sd ss sc us info ext rs], Hs as [He Hi]. unfold wolfSSL_dtls_cid_use, TLSX_ConnectionID_Use.
    cbn in *. destruct ext as [rsp |]; cbn; [split; [exact He | exact Hi] |].
    destruct alloc; cbn; [| split; [exact He | exact Hi]].
    destruct (push =? 0) eqn:Ep; cbn; [| rewrite Ep; cbn; split; cbn; [split; intros [? ?]; discriminate | discriminate]].
    split; cbn; [split; eauto |]. intros i [= <-]. split; discriminate.
  - unfold wolfSSL_dtls_cid_set, DtlsCidGetInfo. destruct (useDtlsCID s1); [| exact Hs]. cbn [negb].
    destruct (dtlsCidInfo s1) as [info |] eqn:Ei; [| exact Hs]. destruct (bool_decide _); [exact Hs |].
    destruct (Z.eqb_spec size 0); [exact Hs |]. destruct cid as [c |]; [| exact Hs].
    destruct (Z.ltb_spec DTLS_CID_MAX_SIZE size); [exact Hs |]. destruct alloc; [| exact Hs].
    destruct (Hc c eq_refl) as [Hb Hl]. destruct Hs as [He Hi]. split; cbn; [rewrite <- He, Ei; split; eauto |].
    intros i [= <-]. split; cbn; [intros id [= <-] | exact (proj2 (Hi _ Ei))].
    split; [| now apply Forall_take]. unfold Zlen in *. rewrite length_take. lia.
  - now apply parse_ok.
  - unfold DtlsCIDOnExtensionsParsed, DtlsCidGetInfo. destruct (dtlsCidInfo s1) as [info |] eqn:Ei; [| exact Hs].
    destruct (negotiated info); [exact Hs |]. destruct (cidExt s1) eqn:Ex; [| exact Hs]. cbn.
    split; cbn; [split; intros [? ?]; discriminate | discriminate].
  - now apply new_ok.
Qed.

(** A connection before [wolfSSL_dtls_cid_use]. *)
Definition initial (s : DtlsCid) : Prop := dtlsCidInfo s = None /\ cidExt s = None.

(** [C34] Whatever the application, the peer and the allocator do, the IDs
    stay well formed: they exist exactly while the extension does, an ID
    that is set is not empty, the ID asked for fits the 10 bytes the record
    buffers allow and the peer's ID fits the length byte. *)
Theorem cid_invariant s s' : initial s -> rtc cid_step s s' -> cid_ok s'.
Proof.
  intros [Hi He] R. assert (Hs : cid_ok s).
  { split; [rewrite Hi, He; split; intros [? ?]; discriminate | rewrite Hi; discriminate]. }
  clear Hi He. induction R as [| s1 s2 s3 St _ IH]; [exact Hs | apply IH; eapply step_ok; eauto].
Qed.

Definition fresh (sd : Z) : DtlsCid := mkDtlsCid sd NULL_STATE false false None None 0.

Definition with_cid (sd : Z) (cid : list Z) : DtlsCid :=
  (wolfSSL_dtls_cid_set true (wolfSSL_dtls_cid_use true 0 (fresh sd)).2 (Some cid) (Zlen cid)).2.

Lemma cid_invariant_witness : cid_ok (with_cid WOLFSSL_CLIENT_END [1; 2; 3]).
Proof.
  apply (cid_invariant (fresh WOLFSSL_CLIENT_END)); [split; reflexivity |].
  eapply rtc_l; [apply (step_use true 0) |]. eapply rtc_l; [| apply rtc_refl].
  apply (step_set true _ (Some [1; 2; 3]) 3); [| lia].
  intros c [= <-]. split; [repeat constructor; lia | reflexivity].
Defined.

(** ** Negotiation *)

Definition my_id (s : DtlsCid) : list Z := default [] (dtlsCidInfo s ≫= rx).
Definition peer_id (s : DtlsCid) : list Z := default [] (dtlsCidInfo s ≫= tx).

(** A side that offers IDs and has not yet heard from its peer. *)
Definition offering (s : DtlsCid) : Prop :=
  cid_ok s /\ exists r, dtlsCidInfo s = Some (mkCID None r false).

Lemma parse_offer s p q :
  offering s -> cid_ok p -> is_Some (dtlsCidInfo p) ->
  exists s', TLSX_ConnectionID_Parse true s (TLSX_ConnectionID_Write p) q = (0, s') /\
    peer_id s' = my_id p /\ my_id s' = my_id s /\ is_Some (dtlsCidInfo s') /\
    (negotiated <$> dtlsCidInfo s') = Some true.
Proof.
  intros [[He _] (r & Ei)] [_ Hp] [ip Ep]. unfold TLSX_ConnectionID_Parse, TLSX_ConnectionID_Write, DtlsCidGetInfo.
  destruct s as [sd ss sc us inf ext rs]. cbn in Ei, He. subst inf. rewrite Ep. cbn.
  destruct ext as [rsp |]; [| exfalso; destruct (proj1 He ltac:(eauto)); discriminate].
  destruct (Hp _ Ep) as [Hr _]. unfold my_id at 1. rewrite Ep. cbn.
  destruct (rx ip) as [id |] eqn:Er; cbn.
  - destruct (Hr _ eq_refl) as [Hl Hb]. unfold DTLS_CID_MAX_SIZE in Hl.
    assert (E8 : u8 (Zlen id) = Zlen id) by (apply wrap_small; unfold is_word; lia).
    change (rd (u8 (Zlen id) :: id) 0) with (u8 (Zlen id)). rewrite E8.
    destruct (Z.ltb_spec (Zlen (Zlen id :: id)) 1); [unfold Zlen in *; cbn in *; lia |].
    destruct (Z.ltb_spec (Zlen (Zlen id :: id)) (Zlen id + 1)); [unfold Zlen in *; cbn in *; lia |].
    destruct (Z.ltb_spec 0 (Zlen id)); [| lia].
    eexists. split; [reflexivity |]. cbn [drop skipn].
    replace (Z.to_nat (Zlen id)) with (length id) by (unfold Zlen; lia). rewrite firstn_all.
    unfold peer_id, my_id. destruct q; cbn; eauto.
  - change (Zlen [0] <? 1) with false. change (Zlen [0] <? rd [0] 0 + 1) with false. cbn.
    eexists. split; [reflexivity |]. unfold peer_id, my_id. destruct q; cbn; eauto.
Qed.

(** The extension exchange gives each side the ID the other asked for:
    the server parses the client's offer, the client the server's answer,
    and then each side sends the ID the other receives; a record that starts
    with the agreed ID passes the receiver's check (when it asked for one). *)
Theorem cid_negotiation c v :
  offering c -> offering v ->
  exists v' c', TLSX_ConnectionID_Parse true v (TLSX_ConnectionID_Write c) true = (0, v') /\
    TLSX_ConnectionID_Parse true c (TLSX_ConnectionID_Write v') false = (0, c') /\
    peer_id v' = my_id c' /\ peer_id c' = my_id v' /\ my_id v' = my_id v /\ my_id c' = my_id c /\
    (forall rest, my_id v <> [] -> DtlsCIDCheck v' (peer_id c' ++ rest) = true) /\
    (forall rest, my_id c <> [] -> DtlsCIDCheck c' (peer_id v' ++ rest) = true).
Proof.
  intros Hc Hv. pose proof Hc as [Hc' (rc & Ec)]. pose proof Hv as [Hv' _].
  destruct (parse_offer v c true Hv Hc' ltac:(rewrite Ec; eauto)) as (v' & Pv & Tv & Mv & Iv & _).
  assert (Ov : cid_ok v').
  { pose proof (parse_ok true v (TLSX_ConnectionID_Write c) true) as P. rewrite Pv in P. apply P; [| exact Hv'].
    unfold TLSX_ConnectionID_Write. rewrite Ec. cbn. destruct rc as [id |] eqn:Er; [| repeat constructor; lia].
    constructor; [apply wrap_is_word; lia | exact (proj2 (proj1 (proj2 Hc' _ Ec) id eq_refl))]. }
  destruct (parse_offer c v' false Hc Ov Iv) as (c' & Pc & Tc & Mc & Ic & _).
  exists v', c'. split; [exact Pv | split; [exact Pc |]].
  split; [congruence | split; [congruence | split; [exact Mv | split; [exact Mc |]]]].
  assert (K : forall s rest, my_id s <> [] -> DtlsCIDCheck s (my_id s ++ rest) = true).
  { intros s rest. unfold my_id, DtlsCIDCheck, DtlsCidGetInfo.
    destruct (dtlsCidInfo s) as [[t [id |] n] |]; cbn; try congruence. intros N.
    destruct (Z.eqb_spec (Zlen id) 0); [destruct id; [contradiction | unfold Zlen in *; cbn in *; lia] |].
    destruct (Z.ltb_spec (Zlen (id ++ rest)) (Zlen id)); [unfold Zlen in *; rewrite length_app in *; lia |].
    rewrite take_app_length. now apply bool_decide_eq_true. }
  split; intros rest N; [rewrite Tc | rewrite Tv, <- Mc]; apply K; congruence.
Qed.

Lemma with_cid_offering sd cid :
  id_ok DTLS_CID_MAX_SIZE cid -> offering (with_cid sd cid) /\ my_id (with_cid sd cid) = cid.
Proof.
  intros [Hl Hb]. unfold with_cid. unfold wolfSSL_dtls_cid_use. cbn. unfold wolfSSL_dtls_cid_set. cbn.
  destruct (Z.eqb_spec (Zlen cid) 0); [lia |].
  destruct (Z.ltb_spec DTLS_CID_MAX_SIZE (Zlen cid)); [lia |]. cbn.
  replace (Z.to_nat (Zlen cid)) with (length cid) by (unfold Zlen; lia). rewrite take_ge by lia.
  split; [| reflexivity]. split; [| eauto]. split; cbn; [split; eauto |].
  intros i [= <-]. split; cbn; [intros id [= <-]; now split | discriminate].
Qed.

Lemma cid_negotiation_witness :
  let c := with_cid WOLFSSL_CLIENT_END [7; 8] in let v := with_cid WOLFSSL_SERVER_END [9] in
  exists v' c', TLSX_ConnectionID_Parse true v (TLSX_ConnectionID_Write c) true = (0, v') /\
    TLSX_ConnectionID_Parse true c (TLSX_ConnectionID_Write v') false = (0, c') /\
    peer_id v' = my_id c' /\ peer_id c' = my_id v'.
Proof.
  intros c v. destruct (cid_negotiation c v) as (v' & c' & ? & ? & ? & ? & _).
  - apply with_cid_offering. split; [vm_compute; split; congruence | repeat constructor; lia].
  - apply with_cid_offering. split; [vm_compute; split; congruence | repeat constructor; lia].
  - now exists v', c'.
Defined.

(** ** NewConnectionId *)

Definition new_cid_message (l : list (list Z)) (usage : Z) : list Z :=
  be_bytes 2 (Zlen (cids_bytes l)) ++ cids_bytes l ++ [usage].

Lemma new_cid_parts l usage (n := Zlen (cids_bytes l)) :
  n < 2 ^ 16 ->
  Zlen (new_cid_message l usage) = 2 + n + 1 /\
  Opaque.ato16 (new_cid_message l usage) = n /\
  take (Z.to_nat n) (drop 2 (new_cid_message l usage)) = cids_bytes l /\
  rd (new_cid_message l usage) (2 + n) = usage.
Proof.
  intros Hn. assert (L2 : length (be_bytes 2 n) = 2%nat) by apply be_bytes_length.
  assert (Hn0 : 0 <= n) by (unfold n, Zlen; lia). unfold new_cid_message. fold n.
  assert (D : drop 2 (be_bytes 2 n ++ cids_bytes l ++ [usage]) = cids_bytes l ++ [usage])
    by (rewrite <- L2 at 1; apply drop_app_length).
  assert (Nn : Z.to_nat n = length (cids_bytes l)) by (unfold n, Zlen; lia).
  split; [unfold Zlen; rewrite !length_app, L2; cbn; unfold n, Zlen; lia |].
  split; [| split; [rewrite D, Nn; apply take_app_length |]].
  - assert (T2 : take 2 (be_bytes 2 n ++ cids_bytes l ++ [usage]) = be_bytes 2 n)
      by (rewrite <- L2 at 1; apply take_app_length).
    rewrite ato16_take, T2.
    + rewrite be_value_bytes. apply wrap_small. unfold is_word. cbn. lia.
    + rewrite T2. apply be_bytes_is_bytes.
    + rewrite length_app, L2. lia.
  - unfold rd. rewrite lookup_app_r by lia. rewrite lookup_app_r by lia. rewrite L2.
    replace (Z.to_nat (2 + n) - 2 - length (cids_bytes l))%nat with 0%nat by lia. reflexivity.
Qed.

(** The message of [cids] bytes that [DoDtls13NewConnectionId] reads. *)
Lemma new_cid_split input n :
  is_bytes input -> 3 <= Zlen input -> Opaque.ato16 input + 2 + 1 = Zlen input -> n = Opaque.ato16 input ->
  input = be_bytes 2 n ++ take (Z.to_nat n) (drop 2 input) ++ [rd input (2 + n)].
Proof.
  intros Hb H3 Hl ->. set (n := Opaque.ato16 input) in *.
  assert (E2 : be_bytes 2 n = take 2 input).
  { unfold n. rewrite ato16_take by (try apply Forall_take; auto; unfold Zlen in *; lia).
    replace 2%nat with (length (take 2 input)) at 1 by (rewrite length_take; unfold Zlen in *; lia).
    apply be_bytes_value. now apply Forall_take. }
  rewrite E2. rewrite <- (take_drop 2 input) at 1. f_equal.
  rewrite <- (take_drop (Z.to_nat n) (drop 2 input)) at 1. f_equal. rewrite drop_drop.
  assert (0 <= n) by (unfold n; rewrite ato16_take by (try apply Forall_take; auto; unfold Zlen in *; lia); apply le_value_nonneg, Forall_rev, Forall_take, Hb).
  replace (2 + Z.to_nat n)%nat with (Z.to_nat (2 + n)) by lia.
  rewrite (drop_S input (rd input (2 + n)) (Z.to_nat (2 + n))) by (apply lookup_rd; unfold Zlen in *; lia).
  rewrite drop_ge by (unfold Zlen in *; lia). reflexivity.
Qed.

(** A NewConnectionId message is taken exactly when it is the encoding
    of a list of IDs and a usage: for a spare ID nothing changes, for an
    immediate one the first ID of 1 to 10 bytes replaces the one in use, and
    without one, or with another usage, the message is refused; whatever the
    bytes, an accepted message is such an encoding and is consumed to its
    end. *)
Theorem NewConnectionId_exact s info input size :
  cid_ok s -> dtlsCidInfo s = Some info -> is_bytes input -> size = Zlen input ->
  (forall l usage, Forall (fun id => Zlen id <= 255 /\ is_bytes id) l -> Zlen (cids_bytes l) < 2 ^ 16 ->
     input = new_cid_message l usage ->
     DoDtls13NewConnectionId true s input size =
       if usage =? cid_spare then (0, s, size)
       else if usage =? cid_immediate then
         match first_usable l with
         | None => (INVALID_PARAMETER, s, 0)
         | Some id => (0, { set_info s { info with tx := Some id } with recordSzOverhead := 0 }, size)
         end
       else (INVALID_PARAMETER, s, 0)) /\
  (forall s' n, DoDtls13NewConnectionId true s input size = (0, s', n) ->
     n = size /\ exists l usage, input = new_cid_message l usage /\
       (usage = cid_immediate \/ usage = cid_spare) /\
       Forall (fun id => Zlen id <= 255 /\ is_bytes id) l).
Proof.
  intros Hs Ei Hb ->. unfold DoDtls13NewConnectionId. split.
  - intros l usage Fl Hn Em. destruct (new_cid_parts l usage Hn) as (Pl & Pa & Pt & Pu).
    rewrite <- Em in Pl, Pa, Pt, Pu. rewrite Pa, Pt, Pu.
    assert (0 <= Zlen (cids_bytes l)) by (unfold Zlen; lia).
    destruct (Z.ltb_spec (Zlen input) (2 + 1)); [lia |].
    replace (u32 (Zlen (cids_bytes l) + 2 + 1)) with (Zlen input) by (rewrite wrap_small; [lia | unfold is_word; lia]).
    rewrite Z.eqb_refl. cbn [negb]. cbv zeta. rewrite cid_walk_encoded by auto.
    destruct (Z.eqb_spec usage cid_spare) as [-> |]; [cbn; do 2 f_equal; lia |].
    destruct (Z.eqb_spec usage cid_immediate) as [-> |]; [| reflexivity]. cbn [negb andb].
    destruct (first_usable l) as [id |] eqn:Ef; [| reflexivity].
    rewrite (replace_ok s info id Ei) by (eapply first_usable_ok; eauto). cbn. do 2 f_equal. lia.
  - intros s' n E. destruct (Z.ltb_spec (Zlen input) (2 + 1)); [discriminate |].
    assert (W : is_word 16 (Opaque.ato16 input)).
    { rewrite ato16_take by (try apply Forall_take; auto; unfold Zlen in *; lia). apply (be_value_is_word 16); [now apply Forall_take |].
      unfold Zlen at 1. rewrite length_take. unfold Zlen in *. lia. }
    unfold is_word in W. destruct (Z.eqb_spec (u32 (Opaque.ato16 input + 2 + 1)) (Zlen input)) as [Eq |]; [| discriminate].
    rewrite wrap_small in Eq by (unfold is_word; lia). cbn [negb] in E. cbv zeta in E.
    destruct (cid_walk _ _ None) as [nc |] eqn:Ec; [| discriminate].
    apply cid_walk_inv in Ec as (l & El & Fl & ->); [| now apply Forall_take, Forall_drop].
    pose proof (new_cid_split input _ Hb ltac:(lia) Eq eq_refl) as Es. rewrite El in Es.
    assert (Zlen (cids_bytes l) = Opaque.ato16 input).
    { rewrite <- El. unfold Zlen in *. rewrite length_take, length_drop. lia. }
    set (u := rd input (2 + Opaque.ato16 input)) in *.
    destruct (Z.eqb_spec u cid_immediate) as [Hu |]; [| destruct (Z.eqb_spec u cid_spare) as [Hu |]]; cbn [negb andb] in E.
    + destruct (first_usable l) as [id |] eqn:Ef; [| discriminate].
      rewrite (replace_ok s info id Ei) in E by (eapply first_usable_ok; eauto). cbn in E. injection E as _ <-.
      split; [lia |]. exists l, u. unfold new_cid_message. repeat split; auto; congruence.
    + injection E as _ <-. split; [lia |]. exists l, u. unfold new_cid_message. repeat split; auto; congruence.
    + discriminate.
Qed.

Lemma NewConnectionId_exact_witness :
  DoDtls13NewConnectionId true (with_cid WOLFSSL_CLIENT_END [1]) (new_cid_message [[]; [5; 6]] 0) 7
  = (0, { set_info (with_cid WOLFSSL_CLIENT_END [1]) (mkCID (Some [5; 6]) (Some [1]) false) with recordSzOverhead := 0 }, 7).
Proof.
  destruct (NewConnectionId_exact (with_cid WOLFSSL_CLIENT_END [1]) (mkCID None (Some [1]) false)
              (new_cid_message [[]; [5; 6]] 0) 7) as [E _].
  - apply with_cid_offering. split; [vm_compute; split; congruence | repeat constructor; lia].
  - reflexivity.
  - vm_compute. repeat constructor; congruence.
  - reflexivity.
  - apply (E [[]; [5; 6]] 0); [repeat constructor; vm_compute; congruence | reflexivity | reflexivity].
Defined.

(** A peer may use an empty ID (it sends none); its extension is then
    accepted once, but refused with [BAD_STATE_E] when it comes again in a
    second ClientHello, although nothing changed: the code takes a NULL
    [tx] for impossible once the extension is negotiated. *)
Theorem empty_cid_twice s r :
  side s = WOLFSSL_SERVER_END -> is_Some (cidExt s) -> dtlsCidInfo s = Some (mkCID None r false) ->
  exists s', TLSX_ConnectionID_Parse true s [0] true = (0, s') /\ side s' = WOLFSSL_SERVER_END /\
    (TLSX_ConnectionID_Parse true s' [0] true).1 = BAD_STATE_E.
Proof.
  intros Hs [rsp Ex] Ei. destruct s as [sd ss sc us inf ext rs]. cbn in *. subst.
  eexists. split; [reflexivity |]. split; reflexivity.
Qed.

Lemma empty_cid_twice_witness :
  exists s', TLSX_ConnectionID_Parse true (with_cid WOLFSSL_SERVER_END [1]) [0] true = (0, s') /\
    side s' = WOLFSSL_SERVER_END /\ (TLSX_ConnectionID_Parse true s' [0] true).1 = BAD_STATE_E.
Proof. eapply (empty_cid_twice _ (Some [1])); [reflexivity | exists false; reflexivity | reflexivity]. Defined.
