(* ===== verification/Dtls13Record.v ===== *)
(** * src/dtls13.c: the DTLS 1.3 record header

    The unified header carries the low bits of the epoch, an optional
    connection ID, 8 or 16 bits of the record number and an optional length.
    The record number is masked with a block derived from the ciphertext that
    follows ([Dtls13GetRnMask]; the block cipher is the parameter [rn_mask]).
    [Dtls13CheckEpoch] decides in which epochs a handshake message may
    arrive. *)

From S2P Require Import Prelude Misc W64 DtlsWindow Tls Dtls13Epoch DtlsCid.

#[local] Open Scope Z_scope.

Definition DTLS13_SEQ_LEN_BIT : Z := 0x08.
Definition DTLS13_LEN_BIT : Z := 0x04.
Definition DTLS13_LEN_SIZE : Z := 2.
Definition DTLS13_HDR_FLAGS_SIZE : Z := 1.
Definition DTLS13_SEQ_16_LEN : Z := 2.
Definition DTLS13_SEQ_8_LEN : Z := 1.
Definition DTLS13_UNIFIED_HEADER_SIZE : Z := 5.
Definition DTLS13_MIN_CIPHERTEXT : Z := 16.
Definition DTLS13_RN_MASK_SIZE : Z := 16.
Definition DTLS_HANDSHAKE_HEADER_SZ : Z := 12.
Definition DTLS_MAJOR : Z := 0xfe.
Definition DTLSv1_2_MINOR : Z := 0xfd.
Definition DTLS13_EPOCH_HANDSHAKE : Z := 2.
Definition DTLS13_EPOCH_TRAFFIC0 : Z := 3.

(** Does a handshake message of this type go out encrypted? *)
Definition Dtls13TypeIsEncrypted (t : Z) : bool :=
  if (t =? hello_request) || (t =? hello_verify_request) || (t =? client_hello) ||
     (t =? hello_retry_request) || (t =? server_hello) then false
  else if (t =? encrypted_extensions) || (t =? session_ticket) || (t =? end_of_early_data) ||
          (t =? certificate) || (t =? server_key_exchange) || (t =? certificate_request) ||
          (t =? server_hello_done) || (t =? certificate_verify) || (t =? client_key_exchange) ||
          (t =? finished) || (t =? certificate_status) || (t =? key_update) ||
          (t =? request_connection_id) || (t =? new_connection_id) || (t =? change_cipher_hs) ||
          (t =? message_hash) || (t =? no_shake) then true
  else false.

Definition Dtls13GetRlHeaderLength (c : DtlsCid) (isEncrypted : bool) : Z :=
  if negb isEncrypted then DTLS_RECORD_HEADER_SZ
  else u16 (DTLS13_UNIFIED_HEADER_SIZE + DtlsGetCidTxSize c).

Definition Dtls13GetHeadersLength (c : DtlsCid) (type : Z) : Z :=
  u16 (Dtls13GetRlHeaderLength c (Dtls13TypeIsEncrypted type) + DTLS_HANDSHAKE_HEADER_SZ).

Definition Dtls13MinimumRecordLength (c : DtlsCid) : Z :=
  Dtls13GetRlHeaderLength c true + DTLS13_MIN_CIPHERTEXT.

Definition Dtls13GetUnifiedHeaderSize (c : DtlsCid) (flags : Z) : Z :=
  let size := u16 (1 + DtlsGetCidRxSize c + 1) in
  let size := if negb (Z.land flags DTLS13_SEQ_LEN_BIT =? 0) then u16 (size + 1) else size in
  if negb (Z.land flags DTLS13_LEN_BIT =? 0) then u16 (size + 2) else size.

Section Record13.
Context {T : Type} `{W64 T}.

(** [null_cipher]: [bulk_cipher_algorithm == wolfssl_cipher_null].
    [rn_mask]: the mask for a ciphertext, or the error of the cipher, for
    each direction ([true]: PROTECT).  [addr_seq], [addr_mask]: the
    addresses of the two operands of [xorbuf]. *)
Variable null_cipher : bool.
Variables addr_seq addr_mask : Z.
Variable rn_mask : bool -> list Z -> Z + list Z.

(** ** Sending *)

(** Flags and ID bytes of the header under construction. *)
Definition Dtls13AddCID (c : DtlsCid) (flags : Z) : Z + Z * list Z :=
  if negb (wolfSSL_dtls_cid_is_enabled c) then inr (flags, [])
  else
    let cidSz := DtlsGetCidTxSize c in
    if cidSz =? 0 then inr (flags, [])
    else
      let flags := Z.lor flags DTLS13_CID_BIT in
      let '(ret, id) := DtlsCidGet c cidSz false in
      if negb (ret =? WOLFSSL_SUCCESS) then inl ret else inr (flags, id).

(** The header bytes written at [out]. *)
Definition Dtls13RlAddCiphertextHeader (c : DtlsCid) (s : Dtls13) (length : Z) : Z + list Z :=
  match dtls13EncryptEpoch s ≫= (dtls13Epochs s !!.) with
  | None => inl BAD_STATE_E
  | Some e =>
      let flags := Z.lor DTLS13_FIXED_BITS (Dtls13GetEpochBits (epochNumber e)) in
      match Dtls13AddCID c flags with
      | inl ret => inl ret
      | inr (flags, id) =>
          let flags := Z.lor flags DTLS13_SEQ_LEN_BIT in
          let flags := Z.lor flags DTLS13_LEN_BIT in
          let seqNumber := u16 (w64GetLow32 (nextSeqNumber e)) in
          inr (flags :: id ++ Opaque.c16toa seqNumber ++ Opaque.c16toa length)
      end
  end.

(** [seq] points [off] bytes into [buf]. *)
Definition Dtls13EncryptDecryptRecordNumber (protect : bool) (buf : list Z) (off SeqLength : Z)
    (ciphertext : list Z) : Z + list Z :=
  if null_cipher then inr buf
  else
    match rn_mask protect ciphertext with
    | inl ret => inl ret
    | inr mask =>
        inr (take (Z.to_nat off) buf ++
             Buf.xorbuf addr_seq addr_mask (drop (Z.to_nat off) buf) mask (Z.to_nat SeqLength))
    end.

Definition Dtls13EncryptRecordNumber (c : DtlsCid) (hdr : list Z) (recordLength : Z) : Z + list Z :=
  if null_cipher then inr hdr
  else if recordLength <? Dtls13MinimumRecordLength c then inl BUFFER_ERROR
  else
    let hasLen := negb (Z.land (rd hdr 0) DTLS13_LEN_BIT =? 0) in
    let seqLength := if hasLen then DTLS13_SEQ_16_LEN else DTLS13_SEQ_8_LEN in
    let cidSz := DtlsGetCidTxSize c in
    let hdrLength := 1 + seqLength + cidSz in
    let hdrLength := if hasLen then hdrLength + DTLS13_LEN_SIZE else hdrLength in
    Dtls13EncryptDecryptRecordNumber true hdr (1 + cidSz) seqLength (drop (Z.to_nat hdrLength) hdr).

(** ** Receiving *)

(** The new value of [idx]. *)
Definition Dtls13UnifiedHeaderParseCID (c : DtlsCid) (flags : Z) (input : list Z) (idx : Z) : Z + Z :=
  if negb (Z.land flags DTLS13_CID_BIT =? 0) then
    if negb (wolfSSL_dtls_cid_is_enabled c) then inl DTLS_CID_ERROR
    else if negb (DtlsCIDCheck c (drop (Z.to_nat idx) input)) then inl DTLS_CID_ERROR
    else
      let '(ret, cidSz) := DtlsCidGetSize c true in
      if negb (ret =? WOLFSSL_SUCCESS) then inl ret else inr (u16 (idx + u16 cidSz))
  else if wolfSSL_dtls_cid_is_enabled c then
    let '(ret, cidSz) := DtlsCidGetSize c true in
    if negb (ret =? WOLFSSL_SUCCESS) then inl ret
    else if negb (cidSz =? 0) then inl DTLS_CID_ERROR else inr idx
  else inr idx.

(** [input] is the received datagram.  Like the C code, the function unmasks
    the record number in the input buffer, which it returns. *)
Definition Dtls13ParseUnifiedRecordLayer (c : DtlsCid) (input : list Z)
    : Z + Dtls13UnifiedHdrInfo * list Z :=
  let inputSize := Zlen input in
  if inputSize <? DTLS13_HDR_FLAGS_SIZE then inl BAD_FUNC_ARG
  else
    let flags := rd input 0 in
    match Dtls13UnifiedHeaderParseCID c flags input DTLS13_HDR_FLAGS_SIZE with
    | inl ret => inl ret
    | inr idx =>
        let seqNum := idx in
        let seqLen := if negb (Z.land flags DTLS13_SEQ_LEN_BIT =? 0) then DTLS13_SEQ_16_LEN
                      else DTLS13_SEQ_8_LEN in
        let hasLength := negb (Z.land flags DTLS13_LEN_BIT =? 0) in
        let epochBits := Z.land flags EE_MASK in
        let idx := u16 (idx + seqLen) in
        if inputSize <? idx then inl BUFFER_ERROR
        else if hasLength && (inputSize <? idx + DTLS13_LEN_SIZE) then inl BUFFER_ERROR
        else
          let recordLength := if hasLength then Opaque.ato16 (drop (Z.to_nat idx) input)
                              else u16 (inputSize - idx) in
          let idx := if hasLength then u16 (idx + DTLS13_LEN_SIZE) else idx in
          let unmasked :=
            if null_cipher then inr input
            else if recordLength <? DTLS13_RN_MASK_SIZE then inl LENGTH_ERROR
            else if inputSize <? idx + DTLS13_RN_MASK_SIZE then inl BUFFER_ERROR
            else Dtls13EncryptDecryptRecordNumber false input seqNum seqLen (drop (Z.to_nat idx) input) in
          match unmasked with
          | inl ret => inl ret
          | inr input =>
              inr (if seqLen =? DTLS13_SEQ_16_LEN
                   then mkHdrInfo recordLength (rd input (seqNum + 1)) (rd input seqNum) true epochBits
                   else mkHdrInfo recordLength (rd input seqNum) 0 false epochBits, input)
          end
    end.

(** ** Epochs of handshake messages *)

(** [tls13]: [IsAtLeastTLSv1_3(ssl->version)].  The second component is the
    alert sent, if any. *)
Definition Dtls13CheckEpoch (tls13 : bool) (s : Dtls13) (serverState : Z) (type : Z) : Z * list (Z * Z) :=
  let plainEpoch := w64From32 0 0 in
  let hsEpoch := w64From32 0 DTLS13_EPOCH_HANDSHAKE in
  let t0Epoch := w64From32 0 DTLS13_EPOCH_TRAFFIC0 in
  let cur := curEpoch64 s in
  let hs_or_plain :=
    if negb (w64Equal cur hsEpoch) then
      if (Dtls13Epoch.side s =? WOLFSSL_CLIENT_END) && (serverState <? SERVER_HELLO_COMPLETE) then
        if negb (w64Equal cur plainEpoch) then SANITY_MSG_E else 0
      else SANITY_MSG_E
    else 0 in
  if negb tls13 then (0, [])
  else if (type =? client_hello) || (type =? server_hello) || (type =? hello_verify_request) ||
          (type =? hello_retry_request) || (type =? hello_request) then
    (if negb (w64Equal cur plainEpoch) then SANITY_MSG_E else 0, [])
  else if (type =? encrypted_extensions) || (type =? server_key_exchange) ||
          (type =? server_hello_done) || (type =? client_key_exchange) then (hs_or_plain, [])
  else if (type =? certificate_request) || (type =? certificate) || (type =? certificate_verify) ||
          (type =? finished) then
    (if negb (handShakeDone s) then hs_or_plain
     else if negb (w64GTE cur hsEpoch) then SANITY_MSG_E else 0, [])
  else if (type =? certificate_status) || (type =? change_cipher_hs) || (type =? key_update) ||
          (type =? session_ticket) || (type =? request_connection_id) || (type =? new_connection_id) then
    (if negb (w64GTE cur t0Epoch) then SANITY_MSG_E else 0, [])
  else if type =? end_of_early_data then (SANITY_MSG_E, [(alert_fatal, unexpected_message)])
  else (SANITY_MSG_E, []).

(** ** Plaintext records and handshake headers *)

(** [seq] of [Dtls13GetSeq]: its halves, and the state after the increment. *)
Definition Dtls13RlAddPlaintextHeader (s : Dtls13) (content_type length : Z) : Z * list Z * Dtls13 :=
  let '(ret, seq, s) := Dtls13GetSeq s CUR_ORDER true in
  if negb (ret =? 0) then (ret, [content_type; DTLS_MAJOR; DTLSv1_2_MINOR], s)
  else
    let '(hi, lo) := default (0, 0) seq in
    (0, [content_type; DTLS_MAJOR; DTLSv1_2_MINOR] ++ Opaque.c16toa (u16 (Z.shiftr hi 16)) ++
        Opaque.c16toa (u16 hi) ++ Opaque.c32toa lo ++ Opaque.c16toa length, s).

Definition Dtls13HandshakeAddHeaderFrag (dtls_handshake_number msg_type frag_offset frag_length msg_length : Z)
    : list Z :=
  u8 msg_type :: Opaque.c32to24 msg_length ++ Opaque.c16toa dtls_handshake_number ++
  Opaque.c32to24 frag_offset ++ Opaque.c32to24 frag_length.

Definition Dtls13HandshakeAddHeader (dtls_handshake_number msg_type length : Z) : list Z :=
  Dtls13HandshakeAddHeaderFrag dtls_handshake_number msg_type 0 length length.

End Record13.

(** ** The unified header round trip *)

Lemma xorbuf_prefix ab am b rest m n :
  is_bytes b -> is_bytes rest -> is_bytes m -> (n <= length b)%nat -> (n <= length m)%nat ->
  Buf.xorbuf ab am (b ++ rest) m n = Buf.xorbuf ab am b m n ++ rest.
Proof.
  intros. rewrite !xorbuf_zip by (try apply is_bytes_app; auto; rewrite ?length_app; lia).
  rewrite take_app_le, drop_app_le by lia. now rewrite <- app_assoc.
Qed.

(** The flag byte of a header that is sent. *)
Definition unified_flags (bits : Z) (cid : bool) : Z :=
  Z.lor (Z.lor (let f := Z.lor DTLS13_FIXED_BITS bits in if cid then Z.lor f DTLS13_CID_BIT else f)
           DTLS13_SEQ_LEN_BIT) DTLS13_LEN_BIT.

Lemma unified_flags_bits bits cid (f := unified_flags bits cid) :
  0 <= bits <= 3 ->
  is_word 8 f /\ Z.land f EE_MASK = bits /\ (Z.land f DTLS13_CID_BIT =? 0) = negb cid /\
  (Z.land f DTLS13_SEQ_LEN_BIT =? 0) = false /\ (Z.land f DTLS13_LEN_BIT =? 0) = false /\
  Dtls13IsUnifiedHeader f = true.
Proof.
  intros Hb. assert (bits = 0 \/ bits = 1 \/ bits = 2 \/ bits = 3) as C by lia.
  destruct C as [-> | [-> | [-> | ->]]]; destruct cid; vm_compute; repeat split; congruence.
Qed.

Section RoundTrip.
Context {T : Type} `{W64 T}.
Variable null_cipher : bool.
Variables addr_tx addr_rx mask_tx mask_rx : Z.
Variable rn_mask : bool -> list Z -> Z + list Z.

(** The sender's and the receiver's record number keys are the same, and the
    mask is a function of the first 16 bytes of the ciphertext. *)
Variable mask : list Z -> list Z.
Hypothesis mask_ok : forall c, is_bytes c -> length c = 16%nat -> is_bytes (mask c) /\ length (mask c) = 16%nat.
Hypothesis rn_mask_ok : forall d c, (16 <= length c)%nat -> rn_mask d c = inr (mask (take 16 c)).

Lemma add_header (c : DtlsCid) (s : Dtls13) i e n :
  cid_ok c -> dtls13EncryptEpoch s = Some i -> dtls13Epochs s !! i = Some e ->
  Dtls13RlAddCiphertextHeader c s n
  = inr (unified_flags (Dtls13GetEpochBits (epochNumber e)) (negb (Zlen (peer_id c) =? 0)) ::
         peer_id c ++ Opaque.c16toa (u16 (w64GetLow32 (nextSeqNumber e))) ++ Opaque.c16toa n).
Proof.
  intros [_ Hc] Ei Ee. unfold Dtls13RlAddCiphertextHeader, Dtls13AddCID, wolfSSL_dtls_cid_is_enabled, DtlsGetCidTxSize,
    DtlsCidGetSize, DtlsCidGet, DtlsCidGetInfo, peer_id.
  rewrite Ei. cbn. rewrite Ee. destruct (dtlsCidInfo c) as [info |] eqn:Ec; cbn; [| reflexivity].
  destruct (tx info) as [id |] eqn:Et; cbn; [| reflexivity].
  destruct (proj2 (Hc _ eq_refl) _ Et) as [Hl Hb].
  rewrite (wrap_small 8) by (unfold is_word; lia). destruct (Z.eqb_spec (Zlen id) 0); [lia |]. cbn.
  rewrite Z.ltb_irrefl. reflexivity.
Qed.

Lemma peer_id_ok c : cid_ok c -> 0 <= Zlen (peer_id c) <= 255 /\ is_bytes (peer_id c).
Proof.
  intros [_ Hc]. unfold peer_id. destruct (dtlsCidInfo c) as [info |] eqn:Ec; cbn; [| split; [now cbn | constructor]].
  destruct (tx info) as [id |] eqn:Et; cbn; [| split; [now cbn | constructor]].
  destruct (proj2 (Hc _ eq_refl) _ Et) as [Hl Hb]. split; [lia | exact Hb].
Qed.

Lemma tx_size c : cid_ok c -> DtlsGetCidTxSize c = Zlen (peer_id c).
Proof.
  intros [_ Hc]. unfold DtlsGetCidTxSize, DtlsCidGetSize, DtlsCidGetInfo, peer_id.
  destruct (dtlsCidInfo c) as [info |] eqn:Ec; cbn; [| reflexivity].
  destruct (tx info) as [id |] eqn:Et; cbn; [| reflexivity].
  destruct (proj2 (Hc _ eq_refl) _ Et) as [Hl _]. apply wrap_small. unfold is_word; lia.
Qed.

Lemma parse_cid v input id rest f :
  cid_ok v -> id = my_id v -> input = f :: id ++ rest ->
  (Z.land f DTLS13_CID_BIT =? 0) = (Zlen id =? 0) ->
  Dtls13UnifiedHeaderParseCID v f input DTLS13_HDR_FLAGS_SIZE = inr (1 + Zlen id).
Proof.
  intros [_ Hv] -> -> Hf. unfold Dtls13UnifiedHeaderParseCID. rewrite Hf.
  unfold wolfSSL_dtls_cid_is_enabled, DtlsCIDCheck, DtlsCidGetSize, DtlsCidGetInfo, my_id.
  destruct (dtlsCidInfo v) as [[t [id |] ng] |] eqn:Ev; cbn; try reflexivity.
  destruct (proj1 (Hv _ eq_refl) id eq_refl) as [Hl _]. unfold DTLS_CID_MAX_SIZE in Hl.
  destruct (Z.eqb_spec (Zlen id) 0); [lia |]. cbn.
  change (drop (Z.to_nat DTLS13_HDR_FLAGS_SIZE) (f :: id ++ rest)) with (id ++ rest).
  destruct (Z.ltb_spec (Zlen (id ++ rest)) (Zlen id)); [unfold Zlen in *; rewrite length_app in *; lia |].
  rewrite take_app_length, bool_decide_eq_true_2 by reflexivity. cbn.
  f_equal. unfold DTLS13_HDR_FLAGS_SIZE. rewrite (wrap_small 16 (Zlen id)), wrap_small; [reflexivity | |];
    unfold is_word; lia.
Qed.

Lemma c16_bytes x : is_bytes (Opaque.c16toa x) /\ length (Opaque.c16toa x) = 2%nat.
Proof. rewrite c16toa_be. split; [apply be_bytes_is_bytes | apply be_bytes_length]. Qed.

Lemma c16_len x : length (Opaque.c16toa x) = 2%nat.
Proof. apply c16_bytes. Qed.

Lemma drop_record k f id x y body :
  k = 1 + 2 + Zlen id + DTLS13_LEN_SIZE ->
  drop (Z.to_nat k) (f :: id ++ Opaque.c16toa x ++ Opaque.c16toa y ++ body) = body.
Proof.
  intros ->. unfold DTLS13_LEN_SIZE.
  replace (Z.to_nat (1 + 2 + Zlen id + 2)) with (S (length id + (2 + 2))) by (unfold Zlen; lia).
  cbn [drop skipn]. rewrite drop_app_add, drop_app_add' by (symmetry; apply c16_bytes).
  apply drop_app_length'. symmetry. apply c16_bytes.
Qed.

(** The bytes of a record before its number is masked, and the record. *)
Definition plain_record (bits : Z) (id : list Z) (q n : Z) (body : list Z) : list Z :=
  unified_flags bits (negb (Zlen id =? 0)) :: id ++ Opaque.c16toa q ++ Opaque.c16toa n ++ body.

Definition masked (addr am : Z) (id seq m : list Z) (f : Z) : list Z :=
  f :: id ++ (if null_cipher then seq else Buf.xorbuf addr am seq m 2).

Lemma mask_record d a am id seq n m f ct :
  (null_cipher = false -> rn_mask d ct = inr m) -> n = 1 + Zlen id ->
  Dtls13EncryptDecryptRecordNumber null_cipher a am rn_mask d (f :: id ++ seq) n 2 ct
  = inr (masked a am id seq m f).
Proof.
  intros Hm ->. unfold Dtls13EncryptDecryptRecordNumber, masked.
  destruct null_cipher; [reflexivity |]. rewrite Hm by reflexivity. f_equal.
  replace (Z.to_nat (1 + Zlen id)) with (S (length id)) by (unfold Zlen; lia). cbn [take drop firstn skipn].
  now rewrite take_app_length, drop_app_length.
Qed.

Lemma enc_record c bits q n body :
  cid_ok c -> is_bytes body -> 16 <= Zlen body -> 0 <= bits <= 3 ->
  Dtls13EncryptRecordNumber null_cipher addr_tx mask_tx rn_mask c (plain_record bits (peer_id c) q n body)
    (Zlen (plain_record bits (peer_id c) q n body))
  = inr (masked addr_tx mask_tx (peer_id c) (Opaque.c16toa q ++ Opaque.c16toa n ++ body) (mask (take 16 body))
           (unified_flags bits (negb (Zlen (peer_id c) =? 0)))).
Proof.
  intros Hc Hb Hl Hbits. unfold Dtls13EncryptRecordNumber. set (id := peer_id c).
  pose proof (unified_flags_bits bits (negb (Zlen id =? 0)) Hbits) as (_ & _ & _ & _ & FL & _).
  assert (L : Zlen (plain_record bits id q n body) = 5 + Zlen id + Zlen body).
  { unfold plain_record, Zlen. cbn [length]. rewrite !length_app, !c16_len. lia. }
  pose proof (peer_id_ok c Hc) as [Hid _]. fold id in Hid.
  unfold masked. destruct null_cipher eqn:En; [reflexivity |].
  unfold Dtls13MinimumRecordLength, Dtls13GetRlHeaderLength. cbn [negb]. rewrite tx_size, L by exact Hc. fold id.
  rewrite wrap_small by (unfold is_word, DTLS13_UNIFIED_HEADER_SIZE; lia).
  unfold DTLS13_UNIFIED_HEADER_SIZE, DTLS13_MIN_CIPHERTEXT.
  destruct (Z.ltb_spec (5 + Zlen id + Zlen body) (5 + Zlen id + 16)); [lia |].
  change (rd (plain_record bits id q n body) 0) with (unified_flags bits (negb (Zlen id =? 0))).
  rewrite FL. cbn [negb]. unfold plain_record.
  pose proof (mask_record true addr_tx mask_tx id (Opaque.c16toa q ++ Opaque.c16toa n ++ body) (1 + Zlen id)
    (mask (take 16 body)) (unified_flags bits (negb (Zlen id =? 0)))) as M. unfold masked in M. rewrite En in M.
  apply M; [| reflexivity]. intros _. rewrite rn_mask_ok.
  - rewrite drop_record by reflexivity. reflexivity.
  - rewrite drop_record by reflexivity. unfold Zlen in Hl. lia.
Qed.

(** The two bytes of a masked number leave the rest of the record alone. *)
Lemma masked_app a am id seq m f rest :
  is_bytes seq -> is_bytes rest -> is_bytes m -> (2 <= length seq)%nat -> (2 <= length m)%nat ->
  masked a am id seq m f ++ rest = masked a am id (seq ++ rest) m f.
Proof.
  intros. unfold masked. cbn [app]. rewrite <- app_assoc. do 2 f_equal.
  destruct null_cipher; [reflexivity |]. now rewrite xorbuf_prefix.
Qed.

Lemma masked_shape a am id q n body m f :
  is_bytes body -> is_bytes m -> (2 <= length m)%nat ->
  exists x2, length x2 = 2%nat /\
    masked a am id (Opaque.c16toa q ++ Opaque.c16toa n ++ body) m f = f :: id ++ x2 ++ Opaque.c16toa n ++ body.
Proof.
  intros Hb Hm Hl. unfold masked. destruct (c16_bytes q) as [Bq Lq], (c16_bytes n) as [Bn Ln].
  destruct null_cipher; [now exists (Opaque.c16toa q) |].
  rewrite xorbuf_zip by (rewrite ?is_bytes_app, ?length_app; auto; lia).
  rewrite drop_app_length' by auto. eexists. split; [| reflexivity].
  rewrite length_zip_with, !length_take, length_app. lia.
Qed.

Lemma unmask a am b bm id seq m f rd_ct :
  is_bytes seq -> is_bytes m -> (2 <= length seq)%nat -> (2 <= length m)%nat ->
  (null_cipher = false -> rn_mask false rd_ct = inr m) ->
  Dtls13EncryptDecryptRecordNumber null_cipher b bm rn_mask false (masked a am id seq m f) (1 + Zlen id) 2 rd_ct
  = inr (f :: id ++ seq).
Proof.
  intros Hs Hm Ls Lm Hr. unfold masked at 1.
  rewrite (mask_record _ _ _ _ _ _ m) by auto. unfold masked. do 3 f_equal.
  destruct null_cipher; [reflexivity |]. now apply xorbuf_twice.
Qed.

Lemma my_id_ok v : cid_ok v -> 0 <= Zlen (my_id v) <= 10 /\ DtlsGetCidRxSize v = Zlen (my_id v).
Proof.
  intros [_ Hv]. unfold my_id, DtlsGetCidRxSize, DtlsCidGetSize, DtlsCidGetInfo.
  destruct (dtlsCidInfo v) as [[t [id |] ng] |] eqn:Ec; cbn; try (split; [now cbn | reflexivity]).
  destruct (proj1 (Hv _ eq_refl) _ eq_refl) as [Hl _]. unfold DTLS_CID_MAX_SIZE in Hl.
  split; [lia | apply wrap_small; unfold is_word; lia].
Qed.

Lemma ato16_c16 n rest : is_word 16 n -> Opaque.ato16 (Opaque.c16toa n ++ rest) = n.
Proof.
  intros Hn. destruct (c16_bytes n) as [Bn Ln].
  assert (E : take 2 (Opaque.c16toa n ++ rest) = Opaque.c16toa n) by now apply take_app_length'.
  rewrite ato16_take; rewrite ?E; [| exact Bn | rewrite length_app; lia].
  rewrite c16toa_be, be_value_bytes. now apply wrap_small.
Qed.

Lemma parse_record v bits q n body rest m (id := my_id v) (f := unified_flags bits (negb (Zlen id =? 0)))
    (input := masked addr_tx mask_tx id (Opaque.c16toa q ++ Opaque.c16toa n ++ body ++ rest) m f) :
  cid_ok v -> 0 <= bits <= 3 -> is_word 16 q -> is_word 16 n -> is_bytes body -> is_bytes rest -> is_bytes m ->
  16 <= Zlen body -> 16 <= n -> (2 <= length m)%nat -> Zlen input < 2 ^ 16 ->
  (null_cipher = false -> rn_mask false (body ++ rest) = inr m) ->
  Dtls13ParseUnifiedRecordLayer null_cipher addr_rx mask_rx rn_mask v input
  = inr (mkHdrInfo n (q mod 256) (q / 256) true bits, plain_record bits id q n (body ++ rest)).
Proof.
  intros Hv Hbits Hq Hn Hb Hr Hm Lb H16 Lm Hz Hmask. unfold Dtls13ParseUnifiedRecordLayer.
  destruct (unified_flags_bits bits (negb (Zlen id =? 0)) Hbits) as (_ & FE & FC & FS & FL & _). fold f in FE, FC, FS, FL.
  destruct (my_id_ok v Hv) as [Hid _]. fold id in Hid.
  destruct (masked_shape addr_tx mask_tx id q n (body ++ rest) m f) as (x2 & Lx & Ein);
    [now apply is_bytes_app | exact Hm | exact Lm |]. fold input in Ein.
  assert (Li : Zlen input = 5 + Zlen id + Zlen body + Zlen rest).
  { rewrite Ein. unfold Zlen. cbn [length]. rewrite !length_app, c16_len. lia. }
  replace (rd input 0) with f by (rewrite Ein; reflexivity).
  assert (0 <= Zlen rest) by (unfold Zlen; lia).
  destruct (Z.ltb_spec (Zlen input) DTLS13_HDR_FLAGS_SIZE); [unfold DTLS13_HDR_FLAGS_SIZE in *; lia |].
  rewrite (parse_cid v input id (x2 ++ Opaque.c16toa n ++ body ++ rest) f Hv eq_refl Ein)
    by (rewrite FC; apply negb_involutive).
  rewrite FS, FL, FE. cbn [negb andb]. unfold DTLS13_SEQ_16_LEN, DTLS13_LEN_SIZE, DTLS13_RN_MASK_SIZE.
  rewrite (wrap_small 16 (1 + Zlen id + 2)) by (unfold is_word; lia).
  rewrite (wrap_small 16 (1 + Zlen id + 2 + 2)) by (unfold is_word; lia).
  destruct (Z.ltb_spec (Zlen input) (1 + Zlen id + 2)); [lia |].
  destruct (Z.ltb_spec (Zlen input) (1 + Zlen id + 2 + 2)); [lia |].
  assert (D1 : drop (Z.to_nat (1 + Zlen id + 2)) input = Opaque.c16toa n ++ body ++ rest).
  { rewrite Ein. replace (Z.to_nat (1 + Zlen id + 2)) with (S (length id + length x2)) by (unfold Zlen; lia).
    cbn [drop skipn]. now rewrite drop_app_add, drop_app_length. }
  assert (D2 : drop (Z.to_nat (1 + Zlen id + 2 + 2)) input = body ++ rest).
  { replace (Z.to_nat (1 + Zlen id + 2 + 2)) with (Z.to_nat (1 + Zlen id + 2) + 2)%nat by lia.
    rewrite <- drop_drop, D1. apply drop_app_length'. symmetry. apply c16_len. }
  rewrite D1, D2, ato16_c16 by exact Hn. cbv zeta.
  assert (U : Dtls13EncryptDecryptRecordNumber null_cipher addr_rx mask_rx rn_mask false input (1 + Zlen id) 2 (body ++ rest)
              = inr (plain_record bits id q n (body ++ rest))).
  { apply (unmask addr_tx mask_tx addr_rx mask_rx id _ m f); [| exact Hm | | exact Lm | exact Hmask].
    - rewrite !is_bytes_app. repeat split; auto; apply c16_bytes.
    - rewrite length_app, c16_len. lia. }
  destruct (Z.ltb_spec n 16); [lia |]. destruct (Z.ltb_spec (Zlen input) (1 + Zlen id + 2 + 2 + 16)); [lia |].
  assert (E : (if null_cipher then inr input
    else Dtls13EncryptDecryptRecordNumber null_cipher addr_rx mask_rx rn_mask false input (1 + Zlen id) 2 (body ++ rest))
    = inr (plain_record bits id q n (body ++ rest))).
  { rewrite U. destruct null_cipher eqn:En; [| reflexivity]. f_equal. unfold input, masked, plain_record. now rewrite En. }
  rewrite E. change (2 =? 2) with true. cbv iota.
  assert (R : forall k, 0 <= k < 2 -> rd (plain_record bits id q n (body ++ rest)) (1 + Zlen id + k) = rd (Opaque.c16toa q) k).
  { intros k Hk. unfold plain_record, rd. replace (Z.to_nat (1 + Zlen id + k)) with (S (length id + Z.to_nat k)) by (unfold Zlen; lia).
    match goal with |- context [(?x :: ?l) !! S ?m] => change ((x :: l) !! S m) with (l !! m) end.
    rewrite lookup_app_r, lookup_app_l by (rewrite ?c16_len; lia). do 2 f_equal. lia. }
  pose proof (R 0 ltac:(lia)) as R0. rewrite Z.add_0_r in R0. rewrite R0, (R 1 ltac:(lia)).
  f_equal. f_equal. f_equal.
  - change (rd (Opaque.c16toa q) 1) with (u8 (Z.land q 0xff)). now rewrite land_ff_u8.
  - change (rd (Opaque.c16toa q) 0) with (u8 (Z.land (Z.shiftr q 8) 0xff)).
    rewrite land_ff_u8, Z.shiftr_div_pow2 by lia. unfold is_word in Hq. word_lia.
Qed.
End RoundTrip.

(** [C33] Header round trip: a record of 16 bytes or more that the sender
    frames and whose number it masks is recognised by the receiver as a
    unified header of the right size and parsed back exactly: its length,
    the low 16 bits of its number and the epoch bits are those of the sender,
    and the buffer is unmasked; for every connection ID agreed on (or none),
    every pointer alignment of the xor, with or without record number
    encryption, and whatever follows in the datagram.  The two sides share
    the record number key ([rn_mask] is the same function [mask] of the first
    16 ciphertext bytes in both directions). *)
Theorem unified_header_roundtrip {T : Type} `{W64 T} null_cipher a_tx a_rx m_tx m_rx rn_mask mask
    (c v : DtlsCid) (s : Dtls13) i e body rest :
  (forall b, is_bytes b -> length b = 16%nat -> is_bytes (mask b) /\ length (mask b) = 16%nat) ->
  (forall d b, (16 <= length b)%nat -> rn_mask d b = inr (mask (take 16 b))) ->
  cid_ok c -> cid_ok v -> peer_id c = my_id v ->
  dtls13EncryptEpoch s = Some i -> dtls13Epochs s !! i = Some e ->
  is_bytes body -> is_bytes rest -> 16 <= Zlen body ->
  DTLS13_UNIFIED_HEADER_SIZE + Zlen (peer_id c) + Zlen body + Zlen rest < 2 ^ 16 ->
  let q := u16 (w64GetLow32 (nextSeqNumber e)) in
  exists hdr record,
    Dtls13RlAddCiphertextHeader c s (Zlen body) = inr hdr /\
    Zlen hdr = Dtls13GetRlHeaderLength c true /\
    Dtls13EncryptRecordNumber null_cipher a_tx m_tx rn_mask c (hdr ++ body) (Zlen (hdr ++ body)) = inr record /\
    Dtls13IsUnifiedHeader (rd record 0) = true /\
    Dtls13GetUnifiedHeaderSize v (rd record 0) = Zlen hdr /\
    Dtls13ParseUnifiedRecordLayer null_cipher a_rx m_rx rn_mask v (record ++ rest)
    = inr (mkHdrInfo (Zlen body) (q mod 256) (q / 256) true (Dtls13GetEpochBits (epochNumber e)),
           hdr ++ body ++ rest).
Proof.
  intros Mk Rk Hc Hv Ecv Ei Ee Hb Hr H16 Hz q.
  set (bits := Dtls13GetEpochBits (epochNumber e)). set (id := peer_id c) in *.
  assert (Hbits : 0 <= bits <= 3).
  { unfold bits, Dtls13GetEpochBits, EE_MASK. rewrite (Z.land_ones _ 2) by lia.
    pose proof (Z.mod_pos_bound (w64GetLow32 (epochNumber e)) (2 ^ 2)). lia. }
  destruct (my_id_ok v Hv) as [Hid Sid]. rewrite <- Ecv in Hid, Sid. fold id in Hid, Sid.
  assert (0 <= Zlen rest) by (unfold Zlen; lia).
  unfold DTLS13_UNIFIED_HEADER_SIZE in Hz.
  set (f := unified_flags bits (negb (Zlen id =? 0))).
  set (hdr := f :: id ++ Opaque.c16toa q ++ Opaque.c16toa (Zlen body)).
  assert (Pl : forall l, hdr ++ l = plain_record bits id q (Zlen body) l)
    by (intros l; unfold hdr, plain_record; cbn; now rewrite <- !app_assoc).
  assert (Lh : Zlen hdr = 5 + Zlen id) by (unfold hdr, Zlen; cbn [length]; rewrite !length_app, !c16_len; lia).
  destruct (Mk (take 16 body)) as [Mb Ml]; [now apply Forall_take | rewrite length_take; unfold Zlen in H16; lia |].
  destruct (unified_flags_bits bits (negb (Zlen id =? 0)) Hbits) as (_ & _ & _ & FS & FL & FU). fold f in FS, FL, FU.
  exists hdr. eexists. split; [now apply (add_header c s i e) |].
  split; [unfold Dtls13GetRlHeaderLength; cbn [negb]; rewrite tx_size by exact Hc; rewrite wrap_small;
          [exact Lh | unfold is_word, DTLS13_UNIFIED_HEADER_SIZE; fold id; lia] |].
  split; [rewrite Pl; unfold id; apply (enc_record null_cipher a_tx m_tx rn_mask mask Rk); auto |]. fold id f.
  split; [exact FU |]. split.
  - unfold masked. cbn [rd lookup list_lookup Z.to_nat default]. change (rd (f :: _) 0) with f.
    unfold Dtls13GetUnifiedHeaderSize. rewrite FS, FL, Sid. cbn [negb].
    rewrite (wrap_small 16 (1 + Zlen id + 1)), (wrap_small 16 (1 + Zlen id + 1 + 1)), wrap_small
      by (unfold is_word; lia). lia.
  - rewrite Pl. rewrite masked_app; [| | exact Hr | exact Mb | rewrite !length_app, c16_len; lia | lia].
    2: { rewrite !is_bytes_app. repeat split; auto; apply c16_bytes. }
    rewrite <- !app_assoc. unfold f. rewrite Ecv. fold (my_id v).
    apply parse_record; auto; try lia; try (apply wrap_is_word; lia).
    + unfold is_word. lia.
    + destruct (masked_shape null_cipher a_tx m_tx (my_id v) q (Zlen body) (body ++ rest) (mask (take 16 body))
                  (unified_flags bits (negb (Zlen (my_id v) =? 0)))) as (x2 & Lx & ->);
        [now apply is_bytes_app | exact Mb | lia |].
      rewrite <- Ecv. fold id. unfold Zlen in *. cbn [length]. rewrite !length_app, c16_len. lia.
    + intros _. rewrite Rk by (rewrite length_app; unfold Zlen in H16; lia).
      rewrite take_app_le by (unfold Zlen in H16; lia). reflexivity.
Qed.

Definition sample_mask (b : list Z) : list Z := (fun x => Z.lxor x 0x5a) <$> b.
Definition sample_tx : DtlsCid :=
  mkDtlsCid WOLFSSL_CLIENT_END SERVER_HELLO_COMPLETE false true (Some (mkCID (Some [9; 8]) None true)) (Some true) 0.

Lemma unified_header_roundtrip_witness :
  let body := replicate 16 7 in
  exists hdr record,
    Dtls13RlAddCiphertextHeader sample_tx sample13 (Zlen body) = inr hdr /\
    Dtls13EncryptRecordNumber false 0 0 (fun _ b => inr (sample_mask (take 16 b))) sample_tx (hdr ++ body)
      (Zlen (hdr ++ body)) = inr record /\ record <> hdr ++ body.
Proof.
  intros body.
  destruct (unified_header_roundtrip false 0 0 0 0 (fun _ b => inr (sample_mask (take 16 b))) sample_mask
              sample_tx (with_cid WOLFSSL_SERVER_END [9; 8]) sample13 3 (blank_epoch true (Native.mk 4)) body [1; 2; 3])
    as (hdr & record & E1 & _ & E2 & _).
  - intros b Hb Hl. unfold sample_mask. rewrite length_fmap. split; [| exact Hl]. apply Forall_fmap.
    refine (Forall_impl _ _ Hb). intros x Hx. cbn. apply lxor_is_word; [lia | exact Hx | unfold is_word; lia].
  - reflexivity.
  - split; cbn; [split; eauto |]. intros i [= <-]. split; cbn; [discriminate |].
    intros id [= <-]. split; [vm_compute; split; congruence | repeat constructor; lia].
  - apply with_cid_offering. split; [vm_compute; split; congruence | repeat constructor; lia].
  - reflexivity.
  - reflexivity.
  - reflexivity.
  - repeat constructor; lia.
  - repeat constructor; lia.
  - vm_compute; congruence.
  - reflexivity.
  - exists hdr, record. split; [exact E1 | split; [exact E2 |]]. revert E1 E2. vm_compute.
    intros [= <-] [= <-]. discriminate.
Defined.

(** The rule by which [Dtls13CheckEpoch] treats a message type. *)
Inductive epoch_rule := Clear | Handshake | Auth | Traffic | Never.

Definition rule_of (t : Z) : epoch_rule :=
  if (t =? client_hello) || (t =? server_hello) || (t =? hello_verify_request) ||
     (t =? hello_retry_request) || (t =? hello_request) then Clear
  else if (t =? encrypted_extensions) || (t =? server_key_exchange) ||
          (t =? server_hello_done) || (t =? client_key_exchange) then Handshake
  else if (t =? certificate_request) || (t =? certificate) || (t =? certificate_verify) ||
          (t =? finished) then Auth
  else if (t =? certificate_status) || (t =? change_cipher_hs) || (t =? key_update) ||
          (t =? session_ticket) || (t =? request_connection_id) || (t =? new_connection_id) then Traffic
  else Never.

(** The epochs a rule allows. *)
Definition rule_allows (r : epoch_rule) (early_client done : bool) (n : Z) : Prop :=
  let hs := n = 2 \/ early_client = true /\ n = 0 in
  match r with
  | Clear => n = 0
  | Handshake => hs
  | Auth => if done then 2 <= n else hs
  | Traffic => 3 <= n
  | Never => False
  end.

Lemma check_epoch_rule {T : Type} `{W64 T} (s : Dtls13) ss t :
  w64_ok (curEpoch64 s) ->
  (Dtls13CheckEpoch true s ss t).1 = 0 <->
  rule_allows (rule_of t) ((Dtls13Epoch.side s =? WOLFSSL_CLIENT_END) && (ss <? SERVER_HELLO_COMPLETE))
    (handShakeDone s) (w64_val (curEpoch64 s)).
Proof.
  intros Ho. set (n := w64_val (curEpoch64 s)).
  assert (F : forall k, is_word 32 k -> w64_ok (w64From32 (T := T) 0 k) /\ w64_val (w64From32 (T := T) 0 k) = k)
    by (intros k Hk; apply w64From32_val; [now split | exact Hk]).
  assert (Eq : forall k, is_word 32 k -> w64Equal (curEpoch64 s) (w64From32 0 k) = (n =? k)).
  { intros k Hk. destruct (F k Hk) as [O V]. now rewrite w64Equal_val, V. }
  assert (Ge : forall k, is_word 32 k -> w64GTE (curEpoch64 s) (w64From32 0 k) = (k <=? n)).
  { intros k Hk. destruct (F k Hk) as [O V]. now rewrite w64GTE_val, V. }
  unfold Dtls13CheckEpoch, DTLS13_EPOCH_HANDSHAKE, DTLS13_EPOCH_TRAFFIC0, rule_of.
  rewrite !Eq, !Ge by (unfold is_word; lia). cbn [negb]. clearbody n.
  assert (E : SANITY_MSG_E <> 0) by discriminate.
  generalize ((Dtls13Epoch.side s =? WOLFSSL_CLIENT_END) && (ss <? SERVER_HELLO_COMPLETE)). intros early.
  match goal with |- context [if ?b then Clear else _] => destruct b end.
  { cbn. destruct (Z.eqb_spec n 0); cbn; intuition. }
  match goal with |- context [if ?b then Handshake else _] => destruct b end.
  { cbn. destruct (Z.eqb_spec n 2), early, (Z.eqb_spec n 0); cbn; intuition discriminate. }
  match goal with |- context [if ?b then Auth else _] => destruct b end.
  { cbn. destruct (handShakeDone s); cbn.
    - destruct (Z.leb_spec 2 n); cbn; intuition (discriminate || lia).
    - destruct (Z.eqb_spec n 2), early, (Z.eqb_spec n 0); cbn; intuition discriminate. }
  match goal with |- context [if ?b then Traffic else _] => destruct b end.
  { cbn. destruct (Z.leb_spec 3 n); cbn; intuition (discriminate || lia). }
  destruct (t =? end_of_early_data); cbn; intuition discriminate.
Qed.

(** A message type falls under a rule by whether it is sent encrypted. *)
Lemma rule_encrypted t :
  (rule_of t = Clear -> Dtls13TypeIsEncrypted t = false) /\
  (Dtls13TypeIsEncrypted t = true -> rule_of t <> Clear) /\
  (rule_of t <> Clear -> rule_of t <> Never -> Dtls13TypeIsEncrypted t = true) /\
  (rule_of t = Handshake ->
     t = encrypted_extensions \/ t = server_key_exchange \/ t = server_hello_done \/ t = client_key_exchange).
Proof.
  unfold rule_of, Dtls13TypeIsEncrypted.
  repeat match goal with
  | |- context [t =? ?k] => destruct (Z.eqb_spec t k) as [-> | ?]; [cbn; intuition discriminate | cbn [orb]]
  end; intuition discriminate.
Qed.

(** What the epoch of a handshake message guarantees, for messages of
    DTLS 1.3: one that is sent in the clear is only taken from epoch 0; one
    that is sent encrypted is never taken from the early-data epoch 1, and
    from epoch 0 only by a client that does not know the version yet (no
    ServerHello so far), never once the handshake is done or on a server;
    KeyUpdate, session tickets and connection ID messages need a traffic
    epoch.  Conversely every message type of the protocol, EndOfEarlyData
    excepted, is taken from the epoch its sender uses: 0 in the clear, 2 in
    the handshake, 3 and up after it. *)
Theorem Dtls13CheckEpoch_protects {T : Type} `{W64 T} (s : Dtls13) ss t (n := w64_val (curEpoch64 s)) :
  w64_ok (curEpoch64 s) ->
  ((Dtls13CheckEpoch true s ss t).1 = 0 ->
     (Dtls13TypeIsEncrypted t = false -> n = 0) /\
     (Dtls13TypeIsEncrypted t = true -> n <> 1 /\
        (n = 0 -> Dtls13Epoch.side s = WOLFSSL_CLIENT_END /\ ss < SERVER_HELLO_COMPLETE)) /\
     (Dtls13TypeIsEncrypted t = true -> handShakeDone s = true -> n = 0 ->
        t = encrypted_extensions \/ t = server_key_exchange \/ t = server_hello_done \/ t = client_key_exchange) /\
     (t = key_update \/ t = session_ticket \/ t = request_connection_id \/ t = new_connection_id -> 3 <= n)) /\
  (Dtls13TypeIsEncrypted t = false -> In t [client_hello; server_hello; hello_verify_request; hello_retry_request; hello_request] ->
     n = 0 -> (Dtls13CheckEpoch true s ss t).1 = 0) /\
  (In t [encrypted_extensions; certificate_request; certificate; certificate_verify; finished] -> n = 2 ->
     (Dtls13CheckEpoch true s ss t).1 = 0) /\
  (In t [key_update; session_ticket; request_connection_id; new_connection_id] \/
   In t [certificate_request; certificate; certificate_verify; finished] /\ handShakeDone s = true -> 3 <= n ->
     (Dtls13CheckEpoch true s ss t).1 = 0).
Proof.
  intros Ho. rewrite !(check_epoch_rule s ss t Ho). fold n.
  destruct (rule_encrypted t) as (R1 & R2 & R3 & R4).
  split; [| split; [| split]].
  - intros A. assert (K : t = key_update \/ t = session_ticket \/ t = request_connection_id \/
                         t = new_connection_id -> rule_of t = Traffic)
      by (intros [-> | [-> | [-> | ->]]]; reflexivity).
    assert (C : Dtls13TypeIsEncrypted t = false -> rule_of t = Clear \/ rule_of t = Never)
      by (destruct (rule_of t); auto; intros; exfalso; rewrite R3 in *; discriminate).
    destruct (Z.eqb_spec (Dtls13Epoch.side s) WOLFSSL_CLIENT_END), (Z.ltb_spec ss SERVER_HELLO_COMPLETE),
      (rule_of t), (handShakeDone s); cbn in A; intuition (discriminate || congruence || lia).
  - intros _ I Hn. cbn in I. repeat destruct I as [<- | I]; try contradiction; exact Hn.
  - intros I Hn. cbn in I. repeat destruct I as [<- | I]; try contradiction; cbn; destruct (handShakeDone s); lia.
  - intros [I | [I Hd]] Hn; cbn in I; repeat destruct I as [<- | I]; try contradiction; cbn; rewrite ?Hd; lia.
Qed.

Lemma Dtls13CheckEpoch_protects_witness :
  (Dtls13CheckEpoch true sample13 SERVER_FINISHED_COMPLETE finished).1 = 0 /\
  (Dtls13CheckEpoch true { sample13 with curEpoch64 := Native.mk 1 } SERVER_FINISHED_COMPLETE finished).1 <> 0.
Proof.
  split.
  - destruct (Dtls13CheckEpoch_protects sample13 SERVER_FINISHED_COMPLETE finished) as (_ & _ & P & _);
      [vm_compute; split; congruence | apply P; [cbn; tauto | reflexivity]].
  - intros A. apply (Dtls13CheckEpoch_protects { sample13 with curEpoch64 := Native.mk 1 }) in A;
      [| vm_compute; split; congruence].
    now apply (proj1 (proj1 (proj2 A) eq_refl)).
Defined.

(** The sizes [wolfSSL_dtls_cid_parse] relies on: in a datagram that
    starts with a unified header carrying an ID of the size asked for, it
    finds the ID right behind the flags; in any datagram the range it returns
    lies within it. *)
Theorem cid_parse_in_bounds msg cidSz off :
  0 <= cidSz < 2 ^ 31 -> wolfSSL_dtls_cid_parse msg cidSz = Some off ->
  0 < off /\ off + cidSz <= Zlen msg /\
  (rd msg 0 <> dtls12_cid -> off = 1 /\ Dtls13UnifiedHeaderCIDPresent (rd msg 0) = true).
Proof.
  intros Hc. unfold wolfSSL_dtls_cid_parse, DTLS_RECORD_HEADER_SZ.
  rewrite !wrap_small by (unfold is_word; lia).
  destruct (Z.eqb_spec cidSz 0); [discriminate |]. destruct (Z.ltb_spec (Zlen msg) (1 + cidSz)); [discriminate |].
  cbn [orb]. destruct (Z.eqb_spec (rd msg 0) dtls12_cid).
  - destruct (Z.ltb_spec (Zlen msg) (13 + cidSz)); [discriminate |]. intros [= <-]. repeat split; try lia; contradiction.
  - destruct (Dtls13UnifiedHeaderCIDPresent (rd msg 0)); [| discriminate]. intros [= <-]. repeat split; lia.
Qed.

Lemma cid_parse_in_bounds_witness : 1 + 2 <= Zlen [0x30; 7; 8; 0; 0].
Proof. apply (cid_parse_in_bounds [0x30; 7; 8; 0; 0] 2 1); [lia | reflexivity]. Defined.
