(* ===== verification/Dtls13Ack.v ===== *)
(** * src/dtls13.c: DTLS 1.3 acknowledgements and retransmission

    A receiver collects the numbers of the handshake records it has seen in a
    sorted list and sends them in an ACK message; a sender keeps every record
    of its flight in a queue until an ACK (or the next flight) covers it.

    The retransmission queue is a linked list with a tail pointer
    [rtxRecordTailPtr] to the [next] field (or the list head) where the next
    record goes.  Records carry their address, a pointer to a [next] field is
    the address of its record ([None] for the head), and a store through such
    a pointer replaces everything behind it; so a stale tail pointer would
    lose records, which the theorems exclude.

    The locks of [WOLFSSL_RW_THREADED] and the shared state of
    [HAVE_WRITE_DUP] are not part of the build modelled. *)

From S2P Require Import Prelude Misc W64 DtlsWindow Tls Dtls13Epoch DtlsCid Dtls13Record.
From stdpp Require Import sorting.
From Stdlib Require Import Bool.

#[local] Open Scope Z_scope.

Definition DTLS13_ACK_MAX_RECORDS : Z := 128.
Definition DTLS13_MAX_ACK_RECORDS : Z := 512.
Definition DTLS13_RN_SIZE : Z := 16.
Definition DTLS13_RETRANS_RN_SIZE : Z := 3.
Definition DTLS13_MIN_RTX_INTERVAL : Z := 1000.
Definition DTLS13_HANDSHAKE_HEADER_SZ : Z := 12.
Definition WAIT_FINISHED_ACK : Z := 11.
Definition CLIENT_HELLO_SENT : Z := 1.
Definition HELLO_AGAIN_REPLY : Z := 3.
Definition WANT_WRITE : Z := -327.
Definition DECRYPT_ERROR : Z := -312.

Section Rtx.
Context {T : Type} `{W64 T}.

(** [data] holds the [length] bytes of the fragment; [seqs] the cells of
    [seq] written so far. *)
Record Dtls13RtxRecord := mkRtxRecord {
  addr : Z; handshakeType : Z; repoch : T; seqs : list T; rnIdx : Z; data : list Z }.

Record Dtls13Rtx := mkRtx {
  rtxRecords : list Dtls13RtxRecord; rtxRecordTailPtr : option Z;
  seenRecords : list (T * T); seenRecordsCount : Z;
  lastRtx : Z; sendAcks : bool; retransmit : bool }.

(** ** The list of record numbers to acknowledge *)

(** The scan for the place of a new record: [None] if it is there already,
    else how many cells were visited, those before the place and those from
    it on. *)
Fixpoint ack_scan (epoch seq : T) (cur : list (T * T)) (count : Z) (prev : list (T * T))
    : option (Z * list (T * T) * list (T * T)) :=
  match cur with
  | [] => Some (count, prev, [])
  | (e, q) :: next =>
      let count := count + 1 in
      if w64Equal e epoch && w64Equal q seq then None
      else if w64LT epoch e || (w64Equal epoch e && w64LT seq q) then Some (count, prev, cur)
      else ack_scan epoch seq next count (prev ++ [(e, q)])
  end.

(** [alloc]: whether [Dtls13NewRecordNumber] gets its memory. *)
Definition Dtls13RtxAddAck (alloc : bool) (s : Dtls13Rtx) (epoch seq : T) : Z * Dtls13Rtx :=
  if DTLS13_ACK_MAX_RECORDS <=? seenRecordsCount s then (0, s)
  else
    match ack_scan epoch seq (seenRecords s) 0 [] with
    | None => (0, s)
    | Some (count, prev, cur) =>
        if DTLS13_MAX_ACK_RECORDS <=? count then (0, s)
        else if negb alloc then (MEMORY_E, s)
        else
          let s := { s with seenRecords := prev ++ (epoch, seq) :: cur } in
          (0, { s with seenRecordsCount := u16 (seenRecordsCount s + 1) })
    end.

Definition Dtls13RtxFlushAcks (s : Dtls13Rtx) : Dtls13Rtx :=
  { { s with seenRecords := [] } with seenRecordsCount := 0 }.

Fixpoint ack_remove (epoch seq : T) (l : list (T * T)) : option (list (T * T)) :=
  match l with
  | [] => None
  | (e, q) :: l =>
      if w64Equal e epoch && w64Equal q seq then Some l
      else (cons (e, q)) <$> ack_remove epoch seq l
  end.

Definition Dtls13RtxRemoveCurAck (s : Dtls13Rtx) (curEpoch64 curSeq : T) : Dtls13Rtx :=
  match ack_remove curEpoch64 curSeq (seenRecords s) with
  | None => s
  | Some l =>
      let s := { s with seenRecords := l } in
      if 0 <? seenRecordsCount s then { s with seenRecordsCount := seenRecordsCount s - 1 } else s
  end.

(** ** The ACK message *)

(** The loop over the list; [None] when it outgrows [msgSz]. *)
Fixpoint write_records (l : list (T * T)) (msgSz written : Z) (out : list Z) : option (Z * list Z) :=
  match l with
  | [] => Some (written, out)
  | (e, q) :: l =>
      if msgSz <? written + DTLS13_RN_SIZE then None
      else write_records l msgSz (written + DTLS13_RN_SIZE) (out ++ c64toa e ++ c64toa q)
  end.

(** [encrypting]: [ssl->dtls13EncryptEpoch != NULL]; [avail]: the result of
    [CheckAvailableSize].  The bytes written after the record header. *)
Definition Dtls13WriteAckMessage (encrypting : bool) (avail : Z) (l : list (T * T)) (recordsCount : Z)
    : Z + list Z :=
  if negb encrypting then inl BAD_STATE_E
  else if DTLS13_ACK_MAX_RECORDS <? recordsCount then inl BUFFER_E
  else
    let msgSz := u16 (DTLS13_RN_SIZE * recordsCount) in
    if negb (avail =? 0) then inl avail
    else
      match write_records l msgSz 0 (Opaque.c16toa msgSz) with
      | None => inl BUFFER_E
      | Some (written, out) => if negb (written =? msgSz) then inl BUFFER_E else inr out
      end.

(** The record numbers an ACK body holds. *)
Fixpoint read_records (n : nat) (ackMessage : list Z) : list (T * T) :=
  match n with
  | O => []
  | S n => (ato64 ackMessage, ato64 (drop 8 ackMessage)) :: read_records n (drop 16 ackMessage)
  end.

(** The checks that open [DoDtls13Ack], and the numbers its loop visits. *)
Definition parse_ack (input : list Z) : Z + Z * list (T * T) :=
  if Zlen input <? 2 then inl BUFFER_ERROR
  else
    let length := Opaque.ato16 input in
    if Zlen input <? 2 + length then inl BUFFER_ERROR
    else if negb (length mod DTLS13_RN_SIZE =? 0) then inl PARSE_ERROR
    else inr (length + 2, read_records (Z.to_nat (length / DTLS13_RN_SIZE)) (drop 2 input)).

(** ** The retransmission queue *)

(** [*ptr = list]. *)
Fixpoint store_after (a : Z) (l tl : list Dtls13RtxRecord) : list Dtls13RtxRecord :=
  match l with
  | [] => []
  | r :: l => if addr r =? a then r :: tl else r :: store_after a l tl
  end.

Definition store (ptr : option Z) (l tl : list Dtls13RtxRecord) : list Dtls13RtxRecord :=
  match ptr with None => tl | Some a => store_after a l tl end.

Definition Dtls13RtxAddRecord (s : Dtls13Rtx) (r : Dtls13RtxRecord) : Dtls13Rtx :=
  let s := { s with rtxRecords := store (rtxRecordTailPtr s) (rtxRecords s) [r] } in
  { s with rtxRecordTailPtr := Some (addr r) }.

(** [next] is the list behind [r]. *)
Definition Dtls13RtxRecordUnlink (s : Dtls13Rtx) (prevNext : option Z) (next : list Dtls13RtxRecord)
    : Dtls13Rtx :=
  let s := match next with [] => { s with rtxRecordTailPtr := prevNext } | _ => s end in
  { s with rtxRecords := store prevNext (rtxRecords s) next }.

(** The walks of the code: the first record [f] holds of, with the pointer to
    it and what follows. *)
Fixpoint rtx_find (f : Dtls13RtxRecord -> bool) (prevNext : option Z) (l : list Dtls13RtxRecord)
    : option (option Z * Dtls13RtxRecord * list Dtls13RtxRecord) :=
  match l with
  | [] => None
  | r :: l => if f r then Some (prevNext, r, l) else rtx_find f (Some (addr r)) l
  end.

Definition Dtls13RtxIsTrackedByRn (r : Dtls13RtxRecord) (epoch seq : T) : bool :=
  w64Equal (repoch r) epoch &&
  existsb (fun q => w64Equal q seq) (take (Z.to_nat (rnIdx r)) (seqs r)).

Definition Dtls13RtxRemoveRecord (s : Dtls13Rtx) (epoch seq : T) : Dtls13Rtx :=
  match rtx_find (fun r => Dtls13RtxIsTrackedByRn r epoch seq) None (rtxRecords s) with
  | None => s
  | Some (prevNext, _, next) => Dtls13RtxRecordUnlink s prevNext next
  end.

Fixpoint flush_loop (keep : Dtls13RtxRecord -> bool) (prevNext : option Z) (l : list Dtls13RtxRecord)
    : list Dtls13RtxRecord * option Z :=
  match l with
  | [] => ([], prevNext)
  | r :: l =>
      if keep r then let '(l, p) := flush_loop keep (Some (addr r)) l in (r :: l, p)
      else flush_loop keep prevNext l
  end.

Definition Dtls13RtxFlushBuffered (s : Dtls13Rtx) (keepNewSessionTicket : bool) : Dtls13Rtx :=
  let '(l, p) := flush_loop (fun r => keepNewSessionTicket && (handshakeType r =? session_ticket)) None
                   (rtxRecords s) in
  { { s with rtxRecords := l } with rtxRecordTailPtr := p }.

Definition Dtls13RtxMoveToEndOfList (s : Dtls13Rtx) (prevNext : option Z) (r : Dtls13RtxRecord)
    (next : list Dtls13RtxRecord) : Dtls13Rtx :=
  match next with
  | [] => s
  | _ => Dtls13RtxAddRecord (Dtls13RtxRecordUnlink s prevNext next) r
  end.

Definition Dtls13RtxRecordMatchesReqCtx (r : Dtls13RtxRecord) (ctx : list Z) : bool :=
  let ctxLen := Zlen ctx in
  if negb (handshakeType r =? certificate_request) then false
  else if Zlen (data r) <? u16 (DTLS13_HANDSHAKE_HEADER_SZ + 1 + ctxLen) then false
  else if negb (rd (data r) DTLS13_HANDSHAKE_HEADER_SZ =? ctxLen) then false
  else bool_decide (take (length ctx) (drop 13 (data r)) = ctx).

Definition Dtls13RtxProcessingCertificate (s : Dtls13Rtx) (input : list Z) : Z * Dtls13Rtx :=
  if Zlen input <=? 1 then (BAD_FUNC_ARG, s)
  else
    let ctxLength := rd input 0 in
    if Zlen input <? ctxLength + 1 then (BAD_FUNC_ARG, s)
    else
      match rtx_find (fun r => Dtls13RtxRecordMatchesReqCtx r (take (Z.to_nat ctxLength) (drop 1 input)))
              None (rtxRecords s) with
      | None => (0, s)
      | Some (prevNext, _, next) => (0, Dtls13RtxRecordUnlink s prevNext next)
      end.

(** [Dtls13SaveOrFlushClientHello]: the new queue, and the ClientHello kept
    for a downgrade. *)
Definition Dtls13SaveOrFlushClientHello (s : Dtls13Rtx) (side connectState : Z) (downgrade : bool)
    (minDowngrade : Z) (saved : option (list Z)) : Dtls13Rtx * option (list Z) :=
  if (side =? WOLFSSL_CLIENT_END) && (CLIENT_HELLO_SENT <=? connectState) &&
     (connectState <=? HELLO_AGAIN_REPLY) then
    match rtx_find (fun r => handshakeType r =? client_hello) None (rtxRecords s) with
    | None => (s, saved)
    | Some (prevNext, r, next) =>
        (Dtls13RtxRecordUnlink s prevNext next,
         if downgrade && (DTLSv1_2_MINOR <=? minDowngrade) then Some (data r) else saved)
    end
  else (s, saved).

(** ** Retransmission *)

(** The record number of a transmission joins those the record is tracked
    by. *)
Definition track (r : Dtls13RtxRecord) (seq : T) : Dtls13RtxRecord :=
  let r := if DTLS13_RETRANS_RN_SIZE <=? rnIdx r then { r with rnIdx := 0 } else r in
  let i := Z.to_nat (rnIdx r) in
  let r := { r with seqs := if (i <? length (seqs r))%nat then <[i := seq]> (seqs r) else seqs r ++ [seq] } in
  { r with rnIdx := u8 (rnIdx r + 1) }.

Definition set_record (a : Z) (r' : Dtls13RtxRecord) (l : list Dtls13RtxRecord) : list Dtls13RtxRecord :=
  (fun r => if addr r =? a then r' else r) <$> l.

Section Send.
(** What retransmission uses of the rest of the connection: the connection
    ID, [MAX_MSG_EXTRA], [CheckAvailableSize] (growing the output buffer),
    [Dtls13SendFragment] (encryption and output; it advances the send
    counter) and [SetKeysSide]. *)
Variable cid : DtlsCid.
Variable MAX_MSG_EXTRA : Z.
Variable checkAvailableSize : Z -> Z.
Variable sendFragment : Dtls13 (T := T) -> Dtls13RtxRecord -> bool -> Z * Dtls13 (T := T).
Variable setKeysSide : KeyMaterial -> Z -> Z.
Variable groupMessages : bool.

Definition encrypt_epoch (s : Dtls13 (T := T)) : option (Dtls13Epoch (T := T)) := dtls13EncryptEpoch s ≫= (dtls13Epochs s !!.).

(** Records go out under the keys of their own epoch. *)
Definition rtx_use_epoch (s : Dtls13 (T := T)) (n : T) : Z * Dtls13 (T := T) :=
  let same := match encrypt_epoch s with Some e => w64Equal (epochNumber e) n | None => false end in
  if same then (0, s) else Dtls13SetEpochKeys setKeysSide s n ENCRYPT_SIDE_ONLY.

Fixpoint rtx_send (todo : list Dtls13RtxRecord) (prevNext : option Z) (x : Dtls13Rtx) (s : Dtls13 (T := T))
    : Z * Dtls13Rtx * Dtls13 (T := T) :=
  match todo with
  | [] => (0, x, s)
  | r :: next =>
      let isLast := match next with [] => true | _ => false end in
      let protected := negb (w64IsZero (repoch r)) in
      let headerLength := Dtls13GetRlHeaderLength cid protected in
      let sendSz := Zlen (data r) + headerLength + (if protected then MAX_MSG_EXTRA else 0) in
      if 0xffff <? sendSz then (BUFFER_E, x, s)
      else
        let ret := checkAvailableSize sendSz in
        if negb (ret =? 0) then (ret, x, s)
        else
          let '(ret, s) := rtx_use_epoch s (repoch r) in
          if negb (ret =? 0) then (ret, x, s)
          else
            let seq := match encrypt_epoch s with Some e => nextSeqNumber e | None => w64Zero end in
            let '(ret, s) := sendFragment s r (isLast || negb groupMessages) in
            if negb (ret =? 0) && negb (ret =? WANT_WRITE) then (ret, x, s)
            else
              let r := track r seq in
              let x := { x with rtxRecords := set_record (addr r) r (rtxRecords x) } in
              if ret =? WANT_WRITE then (ret, Dtls13RtxMoveToEndOfList x prevNext r next, s)
              else rtx_send next (Some (addr r)) x s
  end.

Definition Dtls13RtxSendBuffered (now : Z) (x : Dtls13Rtx) (s : Dtls13 (T := T)) : Z * Dtls13Rtx * Dtls13 (T := T) :=
  if now - lastRtx x <? DTLS13_MIN_RTX_INTERVAL then (0, x, s)
  else
    let x := { x with lastRtx := now } in
    rtx_send (rtxRecords x) None x s.

End Send.

(** ** Processing an ACK *)

Record AckState := mkAckState {
  conn : Dtls13 (T := T); rtx : Dtls13Rtx; connectState : Z; ackServerState : Z;
  dtls13WaitKeyUpdateAck : bool }.

Section Ack.
(** [deriveTls13Keys]: the key schedule, which updates [ssl->keys]. *)
Variable deriveTls13Keys : KeyMaterial -> Z * KeyMaterial.
Variable setKeysSide : KeyMaterial -> Z -> Z.

Definition Dtls13KeyUpdateAckReceived (s : Dtls13 (T := T)) : Z * Dtls13 (T := T) :=
  let newEpoch := dtls13Epoch s in
  let '(ret, k) := deriveTls13Keys (keys s) in
  let s := { s with keys := k } in
  if negb (ret =? 0) then (ret, s)
  else
    let newEpoch := w64Increment newEpoch in
    if w64IsZero newEpoch then (BAD_STATE_E, s)
    else if w64GT newEpoch (w64From32 0x0000FFFF 0xFFFFFFFF) then (BAD_STATE_E, s)
    else
      let s := { s with dtls13Epoch := newEpoch } in
      Dtls13SetEpochKeys setKeysSide s (dtls13Epoch s) ENCRYPT_SIDE_ONLY.

Definition Dtls13RtxHasKeyUpdateBuffered (x : Dtls13Rtx) : bool :=
  existsb (fun r => handshakeType r =? key_update) (rtxRecords x).

Definition DoDtls13KeyUpdateAck (a : AckState) : Z * AckState :=
  if negb (Dtls13RtxHasKeyUpdateBuffered (rtx a)) then
    let a := { a with dtls13WaitKeyUpdateAck := false } in
    let '(ret, s) := Dtls13KeyUpdateAckReceived (conn a) in
    (ret, { a with conn := s })
  else (0, a).

(** Returns the code, the state and [*processedSize]. *)
Definition DoDtls13Ack (a : AckState) (input : list Z) : Z * AckState * Z :=
  match parse_ack input with
  | inl e => (e, a, 0)
  | inr (processed, acks) =>
      let x := foldl (fun x '(e, q) => Dtls13RtxRemoveRecord x e q) (rtx a) acks in
      let a := { a with rtx := x } in
      let a := if (Dtls13Epoch.side (conn a) =? WOLFSSL_CLIENT_END) && (connectState a =? WAIT_FINISHED_ACK) &&
                  bool_decide (rtxRecords x = [])
               then { a with ackServerState := SERVER_FINISHED_ACKED } else a in
      let '(ret, a) := if dtls13WaitKeyUpdateAck a then DoDtls13KeyUpdateAck a else (0, a) in
      if negb (ret =? 0) then (ret, a, 0)
      else
        (0, match rtxRecords (rtx a) with
            | [] => a
            | _ => { a with rtx := { rtx a with retransmit := true } }
            end, processed)
  end.

End Ack.

(** ** Limits on failed decryptions *)

Inductive bulk_cipher := wolfssl_aes_gcm | wolfssl_chacha | wolfssl_aes_ccm | wolfssl_aes_ccm_8
  | wolfssl_cipher_null | other_cipher.

(** Hard limit and key update limit. *)
Definition aead_limits (c : bulk_cipher) : option (T * T) :=
  match c with
  | wolfssl_aes_gcm | wolfssl_chacha => Some (w64From32 (Z.shiftl 1 3) 0, w64From32 (Z.shiftl 1 2) 0)
  | wolfssl_aes_ccm_8 => Some (w64From32 0 (Z.shiftl 1 6), w64From32 0 (Z.shiftl 1 5))
  | wolfssl_aes_ccm => Some (w64From32 0 0x00B504F3, w64From32 0 0x005A8279)
  | wolfssl_cipher_null | other_cipher => None
  end.

(** [updateResponseReq] is read; the last component is what
    [dtls13DoKeyUpdate]/[dtls13InvalidateBefore] become, if they are set. *)
Definition Dtls13CheckAEADFailLimit (c : bulk_cipher) (updateResponseReq : bool) (s : Dtls13 (T := T))
    : Z * Dtls13 (T := T) * option T :=
  match c with
  | wolfssl_cipher_null => (0, s, None)
  | _ =>
      match aead_limits c with
      | None => (DECRYPT_ERROR, s, None)
      | Some (hardLimit, keyUpdateLimit) =>
          match dtls13DecryptEpoch s with
          | None => (BAD_STATE_E, s, None)
          | Some i =>
              let s := set_epoch s i (fun e => { e with dropCount := w64Increment (dropCount e) }) in
              let count := match dtls13Epochs s !! i with Some e => dropCount e | None => w64Zero end in
              if w64GT count hardLimit then (DECRYPT_ERROR, s, None)
              else if w64GT count keyUpdateLimit then
                (0, s, if negb updateResponseReq then Some (w64Increment (dtls13PeerEpoch s)) else None)
              else (0, s, None)
          end
      end
  end.

End Rtx.

Arguments Dtls13Rtx : clear implicits.
Arguments Dtls13RtxRecord : clear implicits.
Arguments AckState : clear implicits.

(** ** The list of numbers to acknowledge is a bounded sorted set *)

Section AckList.
Context {T : Type} `{W64 T}.
Implicit Types (x y : T * T) (l : list (T * T)).

Definition rn_ok x : Prop := w64_ok x.1 /\ w64_ok x.2.

Definition ack_lt x y : Prop :=
  w64_val x.1 < w64_val y.1 \/ w64_val x.1 = w64_val y.1 /\ w64_val x.2 < w64_val y.2.

Record ack_ok (s : Dtls13Rtx T) : Prop := {
  ack_sorted : StronglySorted ack_lt (seenRecords s);
  ack_numbers : Forall rn_ok (seenRecords s);
  ack_count : seenRecordsCount s = Zlen (seenRecords s);
  ack_bound : Zlen (seenRecords s) <= DTLS13_ACK_MAX_RECORDS }.

Lemma rn_eqb x y : rn_ok x -> rn_ok y -> w64Equal x.1 y.1 && w64Equal x.2 y.2 = true <-> x = y.
Proof.
  intros [Ox1 Ox2] [Oy1 Oy2]. rewrite !w64Equal_val by assumption. rewrite andb_true_iff, !Z.eqb_eq.
  destruct x, y; cbn in *. split; [| now intros [= -> ->]].
  intros [E1 E2]. f_equal; now apply w64_inj.
Qed.

Lemma rn_ltb x y : rn_ok x -> rn_ok y ->
  w64LT x.1 y.1 || (w64Equal x.1 y.1 && w64LT x.2 y.2) = true <-> ack_lt x y.
Proof.
  intros [Ox1 Ox2] [Oy1 Oy2]. rewrite !w64LT_val, w64Equal_val by assumption.
  rewrite orb_true_iff, andb_true_iff, !Z.ltb_lt, Z.eqb_eq. reflexivity.
Qed.

Lemma ack_total x y : rn_ok x -> rn_ok y -> x <> y -> ~ ack_lt x y -> ack_lt y x.
Proof.
  intros Hx Hy N L. unfold ack_lt in *.
  destruct (Z.lt_trichotomy (w64_val x.1) (w64_val y.1)) as [? | [E1 | ?]]; [tauto | | tauto].
  destruct (Z.lt_trichotomy (w64_val x.2) (w64_val y.2)) as [? | [E2 | ?]]; [tauto | | right; split; [now symmetry | assumption]].
  destruct N. apply (rn_eqb x y Hx Hy). destruct Hx, Hy. rewrite !w64Equal_val by assumption.
  rewrite andb_true_iff, !Z.eqb_eq. now split.
Qed.

Lemma ack_lt_trans x y z : ack_lt x y -> ack_lt y z -> ack_lt x z.
Proof. unfold ack_lt. lia. Qed.

Lemma ack_lt_irrefl x : ~ ack_lt x x.
Proof. unfold ack_lt. lia. Qed.

(** What the scan finds: the number itself, or the place that keeps the list
    sorted. *)
Lemma ack_scan_spec e q cur count prev :
  rn_ok (e, q) -> Forall rn_ok cur -> StronglySorted ack_lt cur ->
  match ack_scan e q cur count prev with
  | None => (e, q) ∈ cur
  | Some (c, p, rest) =>
      ~ ((e, q) ∈ cur) /\ count <= c <= count + Zlen cur /\
      exists p', p = prev ++ p' /\ cur = p' ++ rest /\
        Forall (fun x => ack_lt x (e, q)) p' /\ Forall (ack_lt (e, q)) rest
  end.
Proof.
  intros Hn. revert count prev. induction cur as [| [e' q'] cur IH]; intros count prev Hc Hs; cbn [ack_scan].
  - split; [apply not_elem_of_nil |]. split; [unfold Zlen; cbn; lia |]. exists []. rewrite app_nil_r. repeat split; constructor.
  - apply Forall_cons in Hc as [Hx Hc]. apply StronglySorted_cons in Hs as [Hlt Hs].
    pose proof (rn_eqb (e', q') (e, q) Hx Hn) as Eq. cbn [fst snd] in Eq.
    destruct (w64Equal e' e && w64Equal q' q).
    + apply elem_of_cons. left. symmetry. now apply Eq.
    + assert (N : (e, q) <> (e', q')) by (intros [= -> ->]; discriminate (proj2 Eq eq_refl)).
      pose proof (rn_ltb (e, q) (e', q') Hn Hx) as Lt. cbn [fst snd] in Lt.
      destruct (w64LT e e' || (w64Equal e e' && w64LT q q')).
      * assert (L : ack_lt (e, q) (e', q')) by now apply Lt.
        assert (Fl : Forall (ack_lt (e, q)) ((e', q') :: cur)).
        { constructor; [exact L |]. eapply Forall_impl; [exact Hlt |]. intros y Hy. eapply ack_lt_trans; eauto. }
        split; [| split].
        -- intros I. exact (ack_lt_irrefl _ (proj1 (Forall_forall _ _) Fl _ I)).
        -- unfold Zlen. cbn [length]. lia.
        -- exists []. rewrite app_nil_r. repeat split; [constructor | exact Fl].
      * assert (L : ack_lt (e', q') (e, q)) by (apply ack_total; auto; intros C; now apply Lt in C).
        specialize (IH (count + 1) (prev ++ [(e', q')]) Hc Hs).
        destruct (ack_scan e q cur (count + 1) (prev ++ [(e', q')])) as [[[c p] rest] |].
        -- destruct IH as (I & B & p' & -> & -> & F1 & F2). split; [| split].
           ++ rewrite not_elem_of_cons. now split.
           ++ unfold Zlen in *. cbn [length]. lia.
           ++ exists ((e', q') :: p'). rewrite <- app_assoc. repeat split; auto.
        -- now apply elem_of_cons; right.
Qed.

Lemma empty_acks_ok (s : Dtls13Rtx T) : seenRecords s = [] -> seenRecordsCount s = 0 -> ack_ok s.
Proof. intros E C. split; rewrite E; try constructor; [exact C | now unfold Zlen, DTLS13_ACK_MAX_RECORDS; cbn]. Qed.

Lemma add_ack_ok s p rest e q :
  ack_ok s -> rn_ok (e, q) -> seenRecords s = p ++ rest -> seenRecordsCount s < DTLS13_ACK_MAX_RECORDS ->
  Forall (fun x => ack_lt x (e, q)) p -> Forall (ack_lt (e, q)) rest ->
  ack_ok { { s with seenRecords := p ++ (e, q) :: rest } with seenRecordsCount := u16 (seenRecordsCount s + 1) }.
Proof.
  destruct s as [rr tp sr sc lr sa rt]. intros [So No Co Bo] Hn Es Hf F1 F2. cbn in *. subst sr.
  apply StronglySorted_app in So as (Sx & S1 & S2). apply Forall_app in No as [N1 N2].
  assert (L : Zlen (p ++ (e, q) :: rest) = sc + 1)
    by (rewrite Co; unfold Zlen; rewrite !length_app; cbn; lia).
  unfold DTLS13_ACK_MAX_RECORDS in *. split; cbn.
  - apply StronglySorted_app. split; [| split; [exact S1 | apply StronglySorted_cons; auto]].
    intros x y Hx Hy. apply elem_of_cons in Hy as [-> | Hy]; [exact (proj1 (Forall_forall _ _) F1 _ Hx) | auto].
  - apply Forall_app. split; [exact N1 | constructor; assumption].
  - rewrite L. apply wrap_small. unfold is_word, Zlen in *. lia.
  - rewrite L. unfold DTLS13_ACK_MAX_RECORDS. lia.
Qed.

(** The list of records to acknowledge is a strictly sorted set of at
    most 128 numbers, counted by [seenRecordsCount].  Adding a number
    preserves that; it inserts the number exactly when the list is not full
    and does not hold it, leaves the list alone otherwise, and fails only
    when it needs memory and gets none. *)
Theorem Dtls13RtxAddAck_spec alloc (s : Dtls13Rtx T) e q :
  ack_ok s -> rn_ok (e, q) ->
  let '(r, s') := Dtls13RtxAddAck alloc s e q in
  ack_ok s' /\
  (seenRecordsCount s = DTLS13_ACK_MAX_RECORDS \/ (e, q) ∈ seenRecords s -> r = 0 /\ s' = s) /\
  (seenRecordsCount s < DTLS13_ACK_MAX_RECORDS -> ~ ((e, q) ∈ seenRecords s) ->
     if alloc then r = 0 /\ Permutation (seenRecords s') ((e, q) :: seenRecords s) /\
                   s' = { { s with seenRecords := seenRecords s' } with seenRecordsCount := seenRecordsCount s + 1 }
     else r = MEMORY_E /\ s' = s).
Proof.
  intros Hs Hn. pose proof Hs as [So No Co Bo]. unfold Dtls13RtxAddAck.
  destruct (Z.leb_spec DTLS13_ACK_MAX_RECORDS (seenRecordsCount s)).
  { split; [exact Hs | split; [auto |]]. intros; lia. }
  pose proof (ack_scan_spec e q (seenRecords s) 0 [] Hn No So) as Sc.
  destruct (ack_scan e q (seenRecords s) 0 []) as [[[c p] rest] |].
  2: { split; [exact Hs | split; [auto |]]. intros; contradiction. }
  destruct Sc as (I & B & p' & -> & Es & F1 & F2). cbn [app] in *.
  unfold DTLS13_ACK_MAX_RECORDS, DTLS13_MAX_ACK_RECORDS in *.
  destruct (Z.leb_spec 512 c); [lia |].
  destruct alloc; cbn [negb].
  - assert (Ok := add_ack_ok s p' rest e q Hs Hn Es ltac:(assumption) F1 F2).
    split; [exact Ok | split; [intros [? | ?]; [lia | contradiction] |]]. intros _ _.
    split; [reflexivity |]. split.
    + cbn [seenRecords]. rewrite Es. symmetry. apply Permutation_middle.
    + destruct s. cbn in *. rewrite wrap_small by (unfold is_word, Zlen in *; lia). reflexivity.
  - split; [exact Hs | split; [intros [? | ?]; [lia | contradiction] | auto]].
Qed.

Lemma ack_remove_spec e q l :
  rn_ok (e, q) -> Forall rn_ok l ->
  match ack_remove e q l with
  | None => ~ ((e, q) ∈ l)
  | Some l' => exists p r, l = p ++ (e, q) :: r /\ l' = p ++ r
  end.
Proof.
  intros Hn. induction l as [| [e' q'] l IH]; intros Hl; cbn [ack_remove]; [apply not_elem_of_nil |].
  apply Forall_cons in Hl as [Hx Hl]. pose proof (rn_eqb (e', q') (e, q) Hx Hn) as Eq. cbn [fst snd] in Eq.
  destruct (w64Equal e' e && w64Equal q' q).
  - exists [], l. rewrite (proj1 Eq eq_refl). auto.
  - specialize (IH Hl). destruct (ack_remove e q l) as [l' |]; cbn.
    + destruct IH as (p & r & -> & ->). now exists ((e', q') :: p), r.
    + intros [[= -> ->] | I]%elem_of_cons; [discriminate (proj2 Eq eq_refl) | contradiction].
Qed.

(** [Dtls13RtxRemoveCurAck] takes the current record out of the list and
    nothing else, keeping it a counted sorted set. *)
Theorem Dtls13RtxRemoveCurAck_spec (s : Dtls13Rtx T) e q :
  ack_ok s -> rn_ok (e, q) ->
  let s' := Dtls13RtxRemoveCurAck s e q in
  ack_ok s' /\ rtxRecords s' = rtxRecords s /\
  (forall x, x ∈ seenRecords s' <-> x ∈ seenRecords s /\ x <> (e, q)).
Proof.
  destruct s as [rr tp sr sc lr sa rt].
  intros Hs Hn. pose proof Hs as [So No Co Bo]. unfold Dtls13RtxRemoveCurAck. cbv zeta. cbn in *.
  pose proof (ack_remove_spec e q sr Hn No) as R.
  destruct (ack_remove e q sr) as [l' |].
  2: { split; [exact Hs | split; [reflexivity |]]. intros x. split; [intros I; split; [exact I | now intros ->] | tauto]. }
  destruct R as (p & r & Es & ->).
  assert (Lc : 0 < sc) by (rewrite Co, Es; unfold Zlen; rewrite length_app; cbn; lia).
  destruct (Z.ltb_spec 0 sc); [| lia]. subst sr. apply StronglySorted_app in So as (Sx & S1 & S2).
  apply StronglySorted_cons in S2 as [F2 S2]. apply Forall_app in No as [N1 [_ N2]%Forall_cons].
  split; [split; cbn | split; [reflexivity |]].
  - apply StronglySorted_app. split; [| auto]. intros x y Hx Hy. apply Sx; [exact Hx | now right].
  - now apply Forall_app.
  - rewrite Co. unfold Zlen. rewrite !length_app. cbn. lia.
  - unfold Zlen in *. rewrite length_app in *. cbn in *. lia.
  - intros x. cbn. rewrite !elem_of_app, elem_of_cons. split.
    + intros [I | I]; (split; [tauto |]); intros ->.
      * apply (ack_lt_irrefl (e, q)). apply Sx; [exact I | now left].
      * apply (ack_lt_irrefl (e, q)). exact (proj1 (Forall_forall _ _) F2 _ I).
    + intuition.
Qed.

(** ** The ACK message *)

Definition records_bytes l : list Z := concat ((fun x => be_bytes 8 (w64_val x.1) ++ be_bytes 8 (w64_val x.2)) <$> l).

Lemma records_bytes_length l : length (records_bytes l) = (16 * length l)%nat.
Proof.
  induction l as [| x l IH]; [reflexivity |]. unfold records_bytes in *. cbn [fmap list_fmap concat length].
  rewrite !length_app, !be_bytes_length, IH. lia.
Qed.

Lemma records_bytes_bytes l : is_bytes (records_bytes l).
Proof.
  induction l as [| x l IH]; [constructor |]. unfold records_bytes in *. cbn [fmap list_fmap concat].
  rewrite !is_bytes_app. repeat split; auto using be_bytes_is_bytes.
Qed.

Lemma write_records_spec l msgSz w out :
  Forall rn_ok l -> w + 16 * Zlen l <= msgSz ->
  write_records l msgSz w out = Some (w + 16 * Zlen l, out ++ records_bytes l).
Proof.
  intros Hl. revert w out. induction Hl as [| [e q] l [He Hq] Hl IH]; intros w out Hw; cbn [write_records].
  - unfold Zlen. cbn. now rewrite Z.add_0_r, app_nil_r.
  - unfold DTLS13_RN_SIZE. unfold Zlen in *. cbn [length] in *.
    destruct (Z.ltb_spec msgSz (w + 16)); [lia |]. rewrite IH by lia. f_equal. f_equal; [lia |].
    cbn [fst snd] in *. rewrite !c64toa_val by assumption. unfold records_bytes. cbn [fmap list_fmap concat fst snd].
    now rewrite <- !app_assoc.
Qed.

Lemma ato64_be n rest :
  w64_ok n -> is_bytes rest -> ato64 (be_bytes 8 (w64_val n) ++ rest) = n.
Proof.
  intros Hn Hr. assert (L : length (be_bytes 8 (w64_val n)) = 8%nat) by apply be_bytes_length.
  destruct (ato64_val (T := T) (be_bytes 8 (w64_val n) ++ rest)) as [O V].
  - apply is_bytes_app. auto using be_bytes_is_bytes.
  - rewrite length_app. lia.
  - apply w64_inj; [exact O | exact Hn |]. rewrite V, take_app_length' by auto.
    rewrite be_value_bytes. apply wrap_small. now apply w64_range.
Qed.

Lemma read_records_spec l rest :
  Forall rn_ok l -> is_bytes rest -> read_records (length l) (records_bytes l ++ rest) = l.
Proof.
  intros Hl Hr. induction Hl as [| [e q] l [He Hq] Hl IH]; [reflexivity |].
  cbn [length read_records fst snd] in *. unfold records_bytes. cbn [fmap list_fmap concat fst snd].
  fold (records_bytes l). rewrite <- !app_assoc.
  assert (Hb : is_bytes (records_bytes l ++ rest)) by (apply is_bytes_app; auto using records_bytes_bytes).
  assert (L : forall n : T, length (be_bytes 8 (w64_val n)) = 8%nat) by (intros; apply be_bytes_length).
  rewrite ato64_be by (auto; apply is_bytes_app; auto using be_bytes_is_bytes).
  rewrite (drop_app_length' _ _ 8) by auto. rewrite ato64_be by auto. f_equal.
  change 16%nat with (8 + 8)%nat. rewrite <- drop_drop, !drop_app_length' by auto. exact IH.
Qed.

(** The message written from a list, read back by a peer. *)
Lemma ack_message s :
  ack_ok s ->
  exists msg, Dtls13WriteAckMessage true 0 (seenRecords s) (seenRecordsCount s) = inr msg /\
    is_bytes msg /\ Zlen msg = 2 + 16 * Zlen (seenRecords s) /\
    forall rest, is_bytes rest -> parse_ack (msg ++ rest) = inr (Zlen msg, seenRecords s).
Proof.
  intros [So No Co Bo]. set (l := seenRecords s) in *. unfold DTLS13_ACK_MAX_RECORDS in Bo.
  assert (0 <= Zlen l) by (unfold Zlen; lia). set (n := 16 * Zlen l).
  exists (be_bytes 2 n ++ records_bytes l).
  assert (L2 : length (be_bytes 2 n) = 2%nat) by apply be_bytes_length.
  assert (Lm : Zlen (be_bytes 2 n ++ records_bytes l) = 2 + n)
    by (unfold Zlen at 1; rewrite length_app, L2, records_bytes_length; unfold n, Zlen; lia).
  split; [| split; [| split; [exact Lm |]]].
  - unfold Dtls13WriteAckMessage, DTLS13_ACK_MAX_RECORDS. cbn [negb]. rewrite Co.
    destruct (Z.ltb_spec 128 (Zlen l)); [lia |].
    rewrite wrap_small by (unfold is_word, DTLS13_RN_SIZE; lia).
    change (DTLS13_RN_SIZE * Zlen l) with n. cbn [Z.eqb negb].
    rewrite write_records_spec by (auto; unfold n; lia). rewrite Z.eqb_refl, c16toa_be. reflexivity.
  - apply is_bytes_app. auto using be_bytes_is_bytes, records_bytes_bytes.
  - intros rest Hr. unfold parse_ack.
    assert (T2 : take 2 ((be_bytes 2 n ++ records_bytes l) ++ rest) = be_bytes 2 n)
      by (rewrite <- app_assoc; now apply take_app_length').
    assert (Lr : Zlen ((be_bytes 2 n ++ records_bytes l) ++ rest) = 2 + n + Zlen rest)
      by (unfold Zlen in *; rewrite length_app; lia).
    assert (0 <= Zlen rest) by (unfold Zlen; lia).
    rewrite ato16_take; rewrite ?T2; [| apply be_bytes_is_bytes | unfold Zlen in *; lia].
    rewrite be_value_bytes, wrap_small by (unfold is_word, n; cbn; lia). rewrite Lr.
    destruct (Z.ltb_spec (2 + n + Zlen rest) 2); [lia |].
    destruct (Z.ltb_spec (2 + n + Zlen rest) (2 + n)); [lia |].
    assert (Q : n / DTLS13_RN_SIZE = Zlen l /\ n mod DTLS13_RN_SIZE = 0)
      by (unfold n, DTLS13_RN_SIZE; rewrite Z.mul_comm; split; [apply Z.div_mul | apply Z.mod_mul]; lia).
    destruct Q as [-> ->]. cbn [Z.eqb negb]. rewrite Lm. f_equal. f_equal; [lia |].
    rewrite <- app_assoc, drop_app_length' by auto. unfold Zlen. rewrite Nat2Z.id. now apply read_records_spec.
Qed.

End AckList.

(** ** The pointers of the retransmission queue *)

Section Queue.
Context {T : Type} `{W64 T}.
Implicit Types (r : Dtls13RtxRecord T) (l : list (Dtls13RtxRecord T)).

(** The pointer behind the last record of a prefix of the queue. *)
Definition ptr_of l : option Z := addr <$> last l.

Definition rtx_ok (s : Dtls13Rtx T) : Prop :=
  NoDup (addr <$> rtxRecords s) /\ rtxRecordTailPtr s = ptr_of (rtxRecords s).

Lemma ptr_of_snoc l r : ptr_of (l ++ [r]) = Some (addr r).
Proof. unfold ptr_of. now rewrite last_snoc. Qed.

Lemma store_after_app a l r k tl :
  addr r = a -> ~ (a ∈ addr <$> l) -> store_after a (l ++ r :: k) tl = l ++ r :: tl.
Proof.
  intros E. induction l as [| x l IH]; cbn; intros N.
  - destruct (Z.eqb_spec (addr r) a); [reflexivity | contradiction].
  - apply not_elem_of_cons in N as [N1 N2]. destruct (Z.eqb_spec (addr x) a); [congruence |]. now rewrite IH.
Qed.

Lemma store_ptr l k tl : NoDup (addr <$> l ++ k) -> store (ptr_of l) (l ++ k) tl = l ++ tl.
Proof.
  destruct l as [| r l _] using rev_ind; [reflexivity |].
  rewrite ptr_of_snoc. rewrite !fmap_app, <- app_assoc. cbn. intros N.
  apply NoDup_app in N as (_ & N & _). rewrite <- !app_assoc. cbn.
  apply store_after_app; [reflexivity |]. intros I. apply (N _ I). now left.
Qed.

Lemma rtx_find_spec f prev l :
  match rtx_find f prev l with
  | None => Forall (fun r => f r = false) l
  | Some (p, r, next) =>
      exists pre, l = pre ++ r :: next /\ f r = true /\ Forall (fun r => f r = false) pre /\
        p = match ptr_of pre with Some a => Some a | None => prev end
  end.
Proof.
  revert prev. induction l as [| x l IH]; intros prev; cbn [rtx_find]; [constructor |].
  destruct (f x) eqn:E; [exists []; repeat split; auto |].
  specialize (IH (Some (addr x))). destruct (rtx_find f (Some (addr x)) l) as [[[p r] next] |].
  - destruct IH as (pre & -> & Hf & Fp & ->). exists (x :: pre). repeat split; auto.
    unfold ptr_of. rewrite last_cons. now destruct (last pre).
  - now constructor.
Qed.

Lemma unlink_ok s pre r next :
  rtx_ok s -> rtxRecords s = pre ++ r :: next ->
  let s' := Dtls13RtxRecordUnlink s (ptr_of pre) next in rtx_ok s' /\ rtxRecords s' = pre ++ next.
Proof.
  destruct s as [rr tp sr sc lr sa rt]. intros [N E]. cbn in *. intros ->.
  assert (Rr : store (ptr_of pre) (pre ++ r :: next) next = pre ++ next) by now apply store_ptr.
  assert (Nd : NoDup (addr <$> pre ++ next)).
  { rewrite fmap_app in *. cbn in N. apply NoDup_app in N as (N1 & N2 & N3). apply NoDup_cons in N3 as [_ N3].
    apply NoDup_app. split; [exact N1 | split; [| exact N3]]. intros a Ia Ib. apply (N2 a Ia). now right. }
  destruct next as [| x next]; cbn; rewrite Rr; (split; [split |]); auto; cbn.
  - now rewrite app_nil_r.
  - rewrite E. unfold ptr_of. rewrite !last_app_cons. cbn. now destruct next.
Qed.

Lemma remove_where_ok s f :
  rtx_ok s ->
  let s' := match rtx_find f None (rtxRecords s) with
            | None => s
            | Some (prevNext, _, next) => Dtls13RtxRecordUnlink s prevNext next
            end in
  rtx_ok s' /\ exists pre next,
    rtxRecords s' = pre ++ next /\ Forall (fun r => f r = false) pre /\
    (rtxRecords s = pre ++ next /\ next = [] \/ exists r, f r = true /\ rtxRecords s = pre ++ r :: next).
Proof.
  intros Hs. pose proof (rtx_find_spec f None (rtxRecords s)) as F.
  destruct (rtx_find f None (rtxRecords s)) as [[[p r] next] |]; cbv zeta.
  - destruct F as (pre & E & Hf & Fp & ->).
    replace (match ptr_of pre with Some a => Some a | None => None end) with (ptr_of pre) by now destruct (ptr_of pre).
    destruct (unlink_ok s pre r next Hs E) as [Ok E']. split; [exact Ok |]. exists pre, next. eauto 6.
  - split; [exact Hs |]. exists (rtxRecords s), []. rewrite app_nil_r. auto.
Qed.

Lemma add_record_ok s r :
  rtx_ok s -> ~ (addr r ∈ addr <$> rtxRecords s) ->
  rtx_ok (Dtls13RtxAddRecord s r) /\ rtxRecords (Dtls13RtxAddRecord s r) = rtxRecords s ++ [r].
Proof.
  destruct s as [rr tp sr sc lr sa rt]. intros [N E] F. cbn -[ptr_of] in *. subst tp.
  assert (Rr : store (ptr_of rr) rr [r] = rr ++ [r])
    by (rewrite <- (app_nil_r rr) at 2; apply store_ptr; now rewrite app_nil_r).
  unfold Dtls13RtxAddRecord, rtx_ok. cbn -[store ptr_of]. rewrite Rr.
  split; [split |]; [| now rewrite ptr_of_snoc | reflexivity].
  rewrite fmap_app. apply NoDup_app. split; [exact N |]. split; [| apply NoDup_singleton].
  intros a I J. cbn in J. apply list_elem_of_singleton in J as ->. contradiction.
Qed.

Lemma flush_loop_spec keep prev l :
  flush_loop keep prev l =
  (filter (fun r => keep r = true) l,
   match ptr_of (filter (fun r => keep r = true) l) with Some a => Some a | None => prev end).
Proof.
  revert prev. induction l as [| r l IH]; intros prev; cbn [flush_loop]; [reflexivity |].
  rewrite filter_cons. destruct (keep r) eqn:E.
  - rewrite IH, decide_True by reflexivity. f_equal. unfold ptr_of. rewrite last_cons. now destruct (last _).
  - rewrite IH, decide_False by discriminate. reflexivity.
Qed.

Lemma flush_ok s k :
  rtx_ok s ->
  rtx_ok (Dtls13RtxFlushBuffered s k) /\
  rtxRecords (Dtls13RtxFlushBuffered s k) = filter (fun r => k && (handshakeType r =? session_ticket) = true) (rtxRecords s).
Proof.
  destruct s as [rr tp sr sc lr sa rt]. intros [N E]. unfold Dtls13RtxFlushBuffered. rewrite flush_loop_spec.
  set (l := filter _ _). assert (Sl : sublist l rr) by apply sublist_filter. cbn -[ptr_of] in *.
  split; [split; cbn -[ptr_of] |]; auto.
  - eapply sublist_NoDup; [exact N |]. now apply fmap_sublist.
  - now destruct (ptr_of (filter _ rr)).
Qed.

Lemma move_to_end_ok s pre r next :
  rtx_ok s -> rtxRecords s = pre ++ r :: next ->
  let s' := Dtls13RtxMoveToEndOfList s (ptr_of pre) r next in
  rtx_ok s' /\ rtxRecords s' = pre ++ next ++ [r].
Proof.
  intros Hs E. destruct next as [| x next]; [now split |].
  destruct (unlink_ok s pre r (x :: next) Hs E) as [Ok E']. unfold Dtls13RtxMoveToEndOfList.
  destruct (add_record_ok _ r Ok) as [Ok2 E2].
  - rewrite E'. destruct Hs as [N _]. rewrite E, fmap_app in N. rewrite fmap_app. cbn in *.
    apply NoDup_app in N as (_ & N2 & N3). apply NoDup_cons in N3 as [N3 _].
    rewrite elem_of_app. intros [I | I]; [apply (N2 _ I); now left | contradiction].
  - split; [exact Ok2 |]. rewrite E2, E', <- app_assoc. reflexivity.
Qed.
End Queue.

Section Tracking.
Context {T : Type} `{W64 T}.
Implicit Types (r : Dtls13RtxRecord T) (l : list (Dtls13RtxRecord T)).

(** What a retransmission must not change of a record. *)
Definition core r : Z * Z * T * list Z := (addr r, handshakeType r, repoch r, data r).

Lemma core_track r seq : core (track r seq) = core r.
Proof. unfold track, core. destruct (_ <=? _), r; reflexivity. Qed.

Lemma addr_track r seq : addr (track r seq) = addr r.
Proof. pose proof (core_track r seq) as E. unfold core in E. congruence. Qed.

Lemma set_record_app pre r r' next :
  addr r' = addr r -> NoDup (addr <$> pre ++ r :: next) ->
  set_record (addr r') r' (pre ++ r :: next) = pre ++ r' :: next.
Proof.
  intros -> N. unfold set_record. rewrite fmap_app in N. rewrite fmap_app. cbn in N |- *.
  apply NoDup_app in N as (_ & N1 & [N2 _]%NoDup_cons). rewrite Z.eqb_refl.
  assert (K : forall l, ~ (addr r ∈ addr <$> l) -> (fun x => if addr x =? addr r then r' else x) <$> l = l).
  { intros l Nl. induction l as [| x l IH]; [reflexivity |]. cbn in *. apply not_elem_of_cons in Nl as [Nx Nl].
    rewrite IH by exact Nl. destruct (Z.eqb_spec (addr x) (addr r)); congruence. }
  rewrite !K; [reflexivity | exact N2 |]. intros I. apply (N1 _ I). now left.
Qed.

(** Renumbering a record in place keeps the queue. *)
Lemma track_in_place (x : Dtls13Rtx T) pre r next seq :
  rtx_ok x -> rtxRecords x = pre ++ r :: next ->
  let x1 := { x with rtxRecords := set_record (addr (track r seq)) (track r seq) (rtxRecords x) } in
  rtx_ok x1 /\ rtxRecords x1 = pre ++ track r seq :: next.
Proof.
  intros Hx E. cbv zeta. set (x1 := { x with rtxRecords := _ }).
  assert (E1 : rtxRecords x1 = pre ++ track r seq :: next).
  { transitivity (set_record (addr (track r seq)) (track r seq) (rtxRecords x)); [reflexivity |].
    rewrite E. apply set_record_app; [apply addr_track |]. rewrite <- E. apply Hx. }
  assert (A1 : addr <$> rtxRecords x1 = addr <$> rtxRecords x)
    by (rewrite E1, E, !fmap_app, !fmap_cons; now rewrite addr_track).
  split; [| exact E1]. destruct Hx as [N P]. split; [now rewrite A1 |].
  replace (rtxRecordTailPtr x1) with (rtxRecordTailPtr x) by (destruct x; reflexivity). rewrite P.
  unfold ptr_of. rewrite <- !fmap_last. now rewrite A1.
Qed.
End Tracking.

(** ** The queue the pointers implement

    Every operation on the linked list is an operation on the sequence of
    records: appending, dropping the first record a predicate holds of, and
    keeping the records a predicate holds of; a retransmission gives the
    records it sends a further number, in place, and moves the one that blocks
    to the end. *)

Section Refinement.
Context {T : Type} `{W64 T}.

(** What a retransmission uses of the rest of the connection. *)
Variable cid : DtlsCid.
Variable MAX_MSG_EXTRA : Z.
Variable checkAvailableSize : Z -> Z.
Variable sendFragment : Dtls13 (T := T) -> Dtls13RtxRecord T -> bool -> Z * Dtls13 (T := T).
Variable setKeysSide : KeyMaterial -> Z -> Z.
Variable groupMessages : bool.

#[local] Abbreviation send := (rtx_send cid MAX_MSG_EXTRA checkAvailableSize sendFragment setKeysSide groupMessages).

Fixpoint drop_first {A} (f : A -> bool) (l : list A) : list A :=
  match l with
  | [] => []
  | r :: l => if f r then l else r :: drop_first f l
  end.

(** One transmission: nothing goes out, or the record gets the number [seq] and
    the transport takes it or blocks. *)
Definition attempt (s : Dtls13 (T := T)) (r : Dtls13RtxRecord T) (isLast : bool) : option (T * bool * Dtls13 (T := T)) :=
  let sendSz := Zlen (data r) + Dtls13GetRlHeaderLength cid (negb (w64IsZero (repoch r))) +
                (if negb (w64IsZero (repoch r)) then MAX_MSG_EXTRA else 0) in
  if (0xffff <? sendSz) || negb (checkAvailableSize sendSz =? 0) then None
  else
    let '(ret, s) := rtx_use_epoch setKeysSide s (repoch r) in
    if negb (ret =? 0) then None
    else
      let '(ret, s') := sendFragment s r (isLast || negb groupMessages) in
      if (ret =? 0) || (ret =? WANT_WRITE)
      then Some (match encrypt_epoch s with Some e => nextSeqNumber e | None => w64Zero end, ret =? WANT_WRITE, s')
      else None.

Fixpoint resend (done todo : list (Dtls13RtxRecord T)) (s : Dtls13 (T := T)) : list (Dtls13RtxRecord T) :=
  match todo with
  | [] => done
  | r :: next =>
      match attempt s r (bool_decide (next = [])) with
      | None => done ++ todo
      | Some (seq, true, _) => done ++ next ++ [track r seq]
      | Some (seq, false, s) => resend (done ++ [track r seq]) next s
      end
  end.

Inductive rtx_op :=
| OpAdd (r : Dtls13RtxRecord T)
| OpAcked (epoch seq : T)
| OpFlush (keepNewSessionTicket : bool)
| OpCertificate (input : list Z)
| OpServerHello (side connectState : Z) (downgrade : bool) (minDowngrade : Z)
| OpRetransmit (now : Z) (s : Dtls13 (T := T)).

Definition exec (x : Dtls13Rtx T) (o : rtx_op) : Dtls13Rtx T :=
  match o with
  | OpAdd r => Dtls13RtxAddRecord x r
  | OpAcked e q => Dtls13RtxRemoveRecord x e q
  | OpFlush k => Dtls13RtxFlushBuffered x k
  | OpCertificate input => (Dtls13RtxProcessingCertificate x input).2
  | OpServerHello sd c d m => (Dtls13SaveOrFlushClientHello x sd c d m None).1
  | OpRetransmit now s =>
      (Dtls13RtxSendBuffered cid MAX_MSG_EXTRA checkAvailableSize sendFragment setKeysSide groupMessages now x s).1.2
  end.

(** The abstract queue: its records, and the time of the last retransmission. *)
Definition queue_abs (x : Dtls13Rtx T) : Z * list (Dtls13RtxRecord T) := (lastRtx x, rtxRecords x).

Definition exec_spec (a : Z * list (Dtls13RtxRecord T)) (o : rtx_op) : Z * list (Dtls13RtxRecord T) :=
  let '(last, l) := a in
  match o with
  | OpAdd r => (last, l ++ [r])
  | OpAcked e q => (last, drop_first (fun r => Dtls13RtxIsTrackedByRn r e q) l)
  | OpFlush k => (last, filter (fun r => k && (handshakeType r =? session_ticket) = true) l)
  | OpCertificate input =>
      (last, if (1 <? Zlen input) && (rd input 0 + 1 <=? Zlen input)
             then drop_first (fun r => Dtls13RtxRecordMatchesReqCtx r (take (Z.to_nat (rd input 0)) (drop 1 input))) l
             else l)
  | OpServerHello sd c _ _ =>
      (last, if (sd =? WOLFSSL_CLIENT_END) && (CLIENT_HELLO_SENT <=? c) && (c <=? HELLO_AGAIN_REPLY)
             then drop_first (fun r => handshakeType r =? client_hello) l else l)
  | OpRetransmit now s =>
      if now - last <? DTLS13_MIN_RTX_INTERVAL then (last, l) else (now, resend [] l s)
  end.

(** A new record is at an address of its own. *)
Definition op_ok (l : list (Dtls13RtxRecord T)) (o : rtx_op) : Prop :=
  match o with OpAdd r => ~ (addr r ∈ addr <$> l) | _ => True end.

Lemma drop_first_app {A} (f : A -> bool) pre next :
  Forall (fun r => f r = false) pre -> drop_first f (pre ++ next) = pre ++ drop_first f next.
Proof. induction 1 as [| x l E _ IH]; [reflexivity |]. cbn. now rewrite E, IH. Qed.

Lemma remove_where_spec f (s : Dtls13Rtx T) :
  rtx_ok s ->
  let s' := match rtx_find f None (rtxRecords s) with
            | None => s
            | Some (prevNext, _, next) => Dtls13RtxRecordUnlink s prevNext next
            end in
  rtx_ok s' /\ rtxRecords s' = drop_first f (rtxRecords s).
Proof.
  intros Hs. destruct (remove_where_ok s f Hs) as (Ok & pre & next & E & F & [[E0 ->] | (r & Hr & E0)]);
    cbv zeta in *; (split; [exact Ok |]); rewrite E, E0, drop_first_app by exact F; [reflexivity |].
  cbn. now rewrite Hr.
Qed.

Lemma unlink_last (x : Dtls13Rtx T) p next : lastRtx (Dtls13RtxRecordUnlink x p next) = lastRtx x.
Proof. now destruct x, next. Qed.

Lemma add_last (x : Dtls13Rtx T) r : lastRtx (Dtls13RtxAddRecord x r) = lastRtx x.
Proof. now destruct x. Qed.

Lemma remove_where_abs f (x : Dtls13Rtx T) :
  rtx_ok x ->
  let x' := match rtx_find f None (rtxRecords x) with
            | None => x
            | Some (prevNext, _, next) => Dtls13RtxRecordUnlink x prevNext next
            end in
  rtx_ok x' /\ queue_abs x' = (lastRtx x, drop_first f (rtxRecords x)).
Proof.
  intros Hs. destruct (remove_where_spec f x Hs) as [Ok E]. split; [exact Ok |]. unfold queue_abs. rewrite E. f_equal.
  destruct (rtx_find f None (rtxRecords x)) as [[[? ?] ?] |]; [apply unlink_last | reflexivity].
Qed.

(** The walk over the pointers performs the abstract retransmission. *)
Lemma send_resend todo done x s :
  rtx_ok x -> rtxRecords x = done ++ todo ->
  let '(_, x', _) := send todo (ptr_of done) x s in
  rtx_ok x' /\ queue_abs x' = (lastRtx x, resend done todo s).
Proof.
  unfold queue_abs. revert done x s. induction todo as [| r next IH]; intros done x s Hx E; cbn [rtx_send resend].
  { rewrite E, app_nil_r. auto. }
  unfold attempt. destruct (0xffff <? _); cbn [orb]; [rewrite E; auto |].
  destruct (checkAvailableSize _ =? 0); cbn [negb]; [| rewrite E; auto].
  destruct (rtx_use_epoch setKeysSide s (repoch r)) as [ret1 s1]. destruct (ret1 =? 0); cbn [negb]; [| rewrite E; auto].
  replace (bool_decide (next = [])) with (match next with [] => true | _ => false end) by now destruct next.
  set (seq := match encrypt_epoch s1 with Some e => nextSeqNumber e | None => w64Zero end).
  destruct (sendFragment s1 r _) as [ret2 s2].
  destruct (track_in_place x done r next seq Hx E) as [Ok1 E1]. cbv zeta in *.
  set (x1 := { x with rtxRecords := _ }) in *. assert (L1 : lastRtx x1 = lastRtx x) by (destruct x; reflexivity).
  destruct (Z.eqb_spec ret2 0) as [-> | N0]; cbn [negb andb orb]; [| destruct (Z.eqb_spec ret2 WANT_WRITE) as [-> | N2]; cbn [negb]].
  - change (0 =? WANT_WRITE) with false. cbv iota.
    specialize (IH (done ++ [track r seq]) x1 s2 Ok1). rewrite <- app_assoc in IH. specialize (IH E1).
    rewrite ptr_of_snoc, L1 in IH. exact IH.
  - destruct (move_to_end_ok x1 done (track r seq) next Ok1 E1) as [Ok2 E2]. cbv zeta in *. split; [exact Ok2 |].
    rewrite E2, <- L1. f_equal. unfold Dtls13RtxMoveToEndOfList. destruct next; [reflexivity |].
    now rewrite add_last, unlink_last.
  - rewrite E. auto.
Qed.

Lemma exec_ok x o :
  rtx_ok x -> op_ok (rtxRecords x) o ->
  rtx_ok (exec x o) /\ queue_abs (exec x o) = exec_spec (queue_abs x) o.
Proof.
  intros Hs Ho. destruct o; cbn [exec exec_spec queue_abs op_ok] in *.
  - destruct (add_record_ok x r Hs Ho) as [Ok E]. split; [exact Ok |]. unfold queue_abs. rewrite E. now destruct x.
  - now apply remove_where_abs.
  - destruct (flush_ok x keepNewSessionTicket Hs) as [Ok E]. split; [exact Ok |]. unfold queue_abs. rewrite E. f_equal.
    unfold Dtls13RtxFlushBuffered. destruct (flush_loop _ _ _). now destruct x.
  - unfold Dtls13RtxProcessingCertificate.
    destruct (Z.leb_spec (Zlen input) 1), (Z.ltb_spec 1 (Zlen input)); try lia; [now split |]. cbn [andb].
    destruct (Z.ltb_spec (Zlen input) (rd input 0 + 1)), (Z.leb_spec (rd input 0 + 1) (Zlen input)); try lia; [now split |].
    destruct (remove_where_abs (fun r => Dtls13RtxRecordMatchesReqCtx r (take (Z.to_nat (rd input 0)) (drop 1 input))) x Hs) as [Ok E].
    cbv zeta in *. now destruct (rtx_find _ None (rtxRecords x)) as [[[? ?] ?] |].
  - unfold Dtls13SaveOrFlushClientHello. destruct (_ && _ && _); [| now split].
    destruct (remove_where_abs (fun r => handshakeType r =? client_hello) x Hs) as [Ok E]. cbv zeta in *.
    now destruct (rtx_find _ None (rtxRecords x)) as [[[? ?] ?] |].
  - unfold Dtls13RtxSendBuffered. destruct (now - lastRtx x <? _); [now split |].
    set (x1 := { x with lastRtx := now }). assert (Hx1 : rtx_ok x1) by (destruct x; exact Hs).
    pose proof (send_resend (rtxRecords x1) [] x1 s Hx1 eq_refl) as P. change (ptr_of []) with (@None Z) in P.
    destruct (send (rtxRecords x1) None x1 s) as [[ret x'] s']. exact P.
Qed.

Fixpoint ops_ok (a : Z * list (Dtls13RtxRecord T)) (ops : list rtx_op) : Prop :=
  match ops with
  | [] => True
  | o :: ops => op_ok a.2 o /\ ops_ok (exec_spec a o) ops
  end.

(** [C15] The linked retransmission queue, with its tail pointer, refines the
    sequence of its records: over any sequence of the operations that change
    it (a record is sent; an ACK, the next flight, the certificate answering a
    request or a ServerHello arrives; the queue is retransmitted, whatever
    the buffer, the cipher and the transport answer, a record on which the transport
    blocks being unlinked and appended again) the records are
    those of the abstract sequence and the tail pointer still points behind
    the last one, so no record is ever lost or duplicated. *)
Theorem rtx_queue_refines x ops :
  rtx_ok x -> ops_ok (queue_abs x) ops ->
  rtx_ok (foldl exec x ops) /\ queue_abs (foldl exec x ops) = foldl exec_spec (queue_abs x) ops.
Proof.
  revert x. induction ops as [| o ops IH]; intros x Hs; [now split |]. intros [Ho Hops].
  destruct (exec_ok x o Hs Ho) as [Ok E]. cbn [foldl]. rewrite <- E. apply IH; [exact Ok | now rewrite E].
Qed.

End Refinement.

Section Acks.
Context {T : Type} `{W64 T}.

(** ** What an ACK removes *)

Definition covered (acks : list (T * T)) (r : Dtls13RtxRecord T) : bool :=
  existsb (fun x => Dtls13RtxIsTrackedByRn r x.1 x.2) acks.

(** Every record number belongs to at most one record of the queue. *)
Definition numbers_unique (l : list (Dtls13RtxRecord T)) : Prop :=
  forall r1 r2 e q, r1 ∈ l -> r2 ∈ l ->
    Dtls13RtxIsTrackedByRn r1 e q = true -> Dtls13RtxIsTrackedByRn r2 e q = true -> r1 = r2.

Lemma filter_all {A} (P : A -> Prop) `{forall x, Decision (P x)} (l : list A) :
  (forall x, x ∈ l -> P x) -> filter P l = l.
Proof.
  induction l as [| x l IH]; intros F; [reflexivity |]. rewrite filter_cons_True by (apply F; now left).
  f_equal. apply IH. intros y Hy. apply F. now right.
Qed.

Lemma drop_first_filter l e q :
  NoDup l -> numbers_unique l ->
  drop_first (fun r => Dtls13RtxIsTrackedByRn r e q) l =
  filter (fun r => Dtls13RtxIsTrackedByRn r e q = false) l.
Proof.
  induction l as [| r l IH]; intros N U; [reflexivity |]. cbn [drop_first]. rewrite filter_cons.
  apply NoDup_cons in N as [Nr N].
  destruct (Dtls13RtxIsTrackedByRn r e q) eqn:E.
  - rewrite decide_False by discriminate. symmetry. apply filter_all.
    intros x Hx. destruct (Dtls13RtxIsTrackedByRn x e q) eqn:Ex; [| reflexivity].
    destruct Nr. rewrite (U r x e q); auto; now constructor.
  - rewrite decide_True by reflexivity. f_equal. apply IH; [exact N |].
    intros r1 r2 e' q' I1 I2. apply U; now constructor.
Qed.

(** The parts of the retransmission state an ACK does not touch. *)
Definition same_rest (s s' : Dtls13Rtx T) : Prop :=
  seenRecords s' = seenRecords s /\ seenRecordsCount s' = seenRecordsCount s /\
  lastRtx s' = lastRtx s /\ sendAcks s' = sendAcks s /\ retransmit s' = retransmit s.

Lemma remove_record_rest s e q : same_rest s (Dtls13RtxRemoveRecord s e q).
Proof.
  unfold Dtls13RtxRemoveRecord, same_rest. destruct (rtx_find _ _ _) as [[[p r] [| x next]] |];
    destruct s; cbn; auto.
Qed.

Lemma acked_all acks s :
  rtx_ok s -> numbers_unique (rtxRecords s) ->
  let s' := foldl (fun x '(e, q) => Dtls13RtxRemoveRecord x e q) s acks in
  rtx_ok s' /\ rtxRecords s' = filter (fun r => covered acks r = false) (rtxRecords s) /\ same_rest s s'.
Proof.
  revert s. induction acks as [| [e q] acks IH]; intros s Hs U; cbn [foldl].
  - split; [exact Hs | split; [| now repeat split]]. symmetry. now apply filter_all.
  - assert (N : NoDup (rtxRecords s)) by (apply (NoDup_fmap_1 addr), Hs).
    destruct (remove_where_spec (fun r => Dtls13RtxIsTrackedByRn r e q) s Hs) as [Ok E]. cbv zeta in Ok, E.
    fold (Dtls13RtxRemoveRecord s e q) in Ok, E. rewrite drop_first_filter in E by assumption.
    destruct (IH (Dtls13RtxRemoveRecord s e q) Ok) as (Ok' & E' & R').
    { rewrite E. intros r1 r2 e' q' I1 I2. apply list_elem_of_filter in I1 as [_ I1], I2 as [_ I2]. now apply U. }
    split; [exact Ok' | split].
    + rewrite E', E, list_filter_filter. apply list_filter_iff. intros r. unfold covered. cbn.
      rewrite orb_false_iff. tauto.
    + pose proof (remove_record_rest s e q) as R. unfold same_rest in *.
      destruct R as (? & ? & ? & ? & ?), R' as (? & ? & ? & ? & ?). repeat split; congruence.
Qed.

(** What [DoDtls13Ack] does with the numbers of a well-formed message, when
    no KeyUpdate waits for its ACK. *)
Lemma do_ack derive keysSide a input n acks :
  rtx_ok (rtx a) -> numbers_unique (rtxRecords (rtx a)) -> dtls13WaitKeyUpdateAck a = false ->
  parse_ack input = inr (n, acks) ->
  let left := filter (fun r => covered acks r = false) (rtxRecords (rtx a)) in
  exists a', DoDtls13Ack derive keysSide a input = (0, a', n) /\
    rtx_ok (rtx a') /\ rtxRecords (rtx a') = left /\ conn a' = conn a /\
    seenRecords (rtx a') = seenRecords (rtx a) /\
    retransmit (rtx a') = (retransmit (rtx a) || negb (bool_decide (left = []))) /\
    ackServerState a' =
      (if (Dtls13Epoch.side (conn a) =? WOLFSSL_CLIENT_END) && (connectState a =? WAIT_FINISHED_ACK) &&
          bool_decide (left = []) then SERVER_FINISHED_ACKED else ackServerState a).
Proof.
  intros Hs U Hw Hp left. unfold DoDtls13Ack. rewrite Hp.
  destruct (acked_all acks (rtx a) Hs U) as (Ok & E & R). cbv zeta in *. fold left in E.
  set (x := foldl _ (rtx a) acks) in *. destruct R as (R1 & _ & _ & _ & R5).
  rewrite E. destruct a as [cn rx cs ss wk]. cbn in *. subst wk. destruct x as [rr tp sr sc lr sa rt]. cbn in *. subst.
  destruct ((Dtls13Epoch.side cn =? WOLFSSL_CLIENT_END) && (cs =? WAIT_FINISHED_ACK));
    destruct left as [| r l] eqn:El; cbn; eexists; repeat split; try apply Ok; cbn;
    rewrite ?orb_false_r, ?orb_true_r; reflexivity.
Qed.

(** [C35] Acknowledgement from end to end: the receiver writes the list of the
    records it has seen into an ACK, which fits the record; the sender, given
    that message (with anything behind it), consumes exactly its length and
    removes from its retransmission queue exactly the records of which the
    receiver has seen some transmission the sender still tracks, keeping the
    others in order.  If nothing is left, a client that waits for the ACK of
    its Finished completes its handshake; if something is, it is scheduled
    for retransmission. *)
Theorem ack_end_to_end derive keysSide (recv : Dtls13Rtx T) a :
  ack_ok recv -> rtx_ok (rtx a) -> numbers_unique (rtxRecords (rtx a)) -> dtls13WaitKeyUpdateAck a = false ->
  exists msg, Dtls13WriteAckMessage true 0 (seenRecords recv) (seenRecordsCount recv) = inr msg /\
    Zlen msg <= 2 + DTLS13_RN_SIZE * DTLS13_ACK_MAX_RECORDS /\
    forall rest, is_bytes rest ->
    let left := filter (fun r => covered (seenRecords recv) r = false) (rtxRecords (rtx a)) in
    exists a', DoDtls13Ack derive keysSide a (msg ++ rest) = (0, a', Zlen msg) /\
      rtx_ok (rtx a') /\ rtxRecords (rtx a') = left /\ conn a' = conn a /\
      retransmit (rtx a') = (retransmit (rtx a) || negb (bool_decide (left = []))) /\
      ackServerState a' =
        (if (Dtls13Epoch.side (conn a) =? WOLFSSL_CLIENT_END) && (connectState a =? WAIT_FINISHED_ACK) &&
            bool_decide (left = []) then SERVER_FINISHED_ACKED else ackServerState a).
Proof.
  intros Hr Ha U Hw. destruct (ack_message recv Hr) as (msg & Hm & _ & Lm & Hp).
  exists msg. split; [exact Hm |]. split; [rewrite Lm; pose proof (ack_bound recv Hr); unfold DTLS13_RN_SIZE; lia |].
  intros rest Hb left. destruct (do_ack derive keysSide a (msg ++ rest) (Zlen msg) (seenRecords recv) Ha U Hw (Hp rest Hb))
    as (a' & ? & ? & ? & ? & _ & ? & ?). exists a'. auto 10.
Qed.
End Acks.

Definition sample_record (a t : Z) (e : Z) (qs : list Z) : Dtls13RtxRecord Native.w64wrapper :=
  mkRtxRecord a t (Native.mk e) (Native.mk <$> qs) (Zlen qs) [1; 2; 3].

Definition sample_rtx : Dtls13Rtx Native.w64wrapper :=
  mkRtx [sample_record 100 certificate 2 [1; 5]; sample_record 200 finished 2 [2]] (Some 200)
    [(Native.mk 2, Native.mk 4); (Native.mk 2, Native.mk 5)] 2 0 false false.

Lemma sample_rtx_ok : rtx_ok sample_rtx /\ ack_ok sample_rtx.
Proof.
  split; [split; [| reflexivity] |].
  - apply (bool_decide_unpack _). vm_compute. exact I.
  - split; [| | reflexivity | vm_compute; congruence].
    + apply StronglySorted_cons. split; [| apply StronglySorted_cons; split; constructor].
      apply Forall_singleton. right. vm_compute. now split.
    + repeat apply Forall_cons_2; try apply Forall_nil_2; repeat split; vm_compute; congruence.
Qed.

Lemma Dtls13RtxAddAck_spec_witness :
  (Dtls13RtxAddAck true sample_rtx (Native.mk 2) (Native.mk 4)).1 = 0 /\
  ack_ok (Dtls13RtxAddAck true sample_rtx (Native.mk 1) (Native.mk 9)).2.
Proof.
  split.
  - pose proof (Dtls13RtxAddAck_spec true sample_rtx (Native.mk 2) (Native.mk 4) (proj2 sample_rtx_ok)
      ltac:(split; vm_compute; split; congruence)) as P.
    destruct (Dtls13RtxAddAck true sample_rtx (Native.mk 2) (Native.mk 4)) as [r s']. destruct P as (_ & P & _).
    apply P. right. now left.
  - pose proof (Dtls13RtxAddAck_spec true sample_rtx (Native.mk 1) (Native.mk 9) (proj2 sample_rtx_ok)
      ltac:(split; vm_compute; split; congruence)) as P.
    destruct (Dtls13RtxAddAck true sample_rtx (Native.mk 1) (Native.mk 9)) as [r s']. exact (proj1 P).
Defined.

Lemma Dtls13RtxRemoveCurAck_spec_witness :
  ack_ok (Dtls13RtxRemoveCurAck sample_rtx (Native.mk 2) (Native.mk 4)).
Proof.
  apply (Dtls13RtxRemoveCurAck_spec sample_rtx (Native.mk 2) (Native.mk 4) (proj2 sample_rtx_ok)).
  split; vm_compute; split; congruence.
Defined.

Lemma rtx_queue_refines_witness :
  let exec := exec (DtlsCid.fresh WOLFSSL_CLIENT_END) 0 (fun _ => 0) (fun s r _ => (if addr r =? 200 then WANT_WRITE else 0, s)) (fun _ _ => 0) true in
  addr <$> rtxRecords (foldl exec sample_rtx
    [OpAdd (sample_record 300 key_update 3 [0]); OpRetransmit 5000 sample13; OpAdd (sample_record 400 key_update 3 [1]);
     OpRetransmit 5999 sample13; OpAcked (Native.mk 3) (Native.mk 0)])
  = [100; 200; 400].
Proof.
  intros exec.
  pose proof (proj2 (rtx_queue_refines (DtlsCid.fresh WOLFSSL_CLIENT_END) 0 (fun _ => 0) (fun s r _ => (if addr r =? 200 then WANT_WRITE else 0, s)) (fun _ _ => 0) true sample_rtx
    [OpAdd (sample_record 300 key_update 3 [0]); OpRetransmit 5000 sample13; OpAdd (sample_record 400 key_update 3 [1]);
     OpRetransmit 5999 sample13; OpAcked (Native.mk 3) (Native.mk 0)]
    (proj1 sample_rtx_ok) ltac:(split; [| split; [exact I | split; [| split; [exact I | split; exact I]]]];
      apply (bool_decide_unpack _); vm_compute; exact I))) as E.
  apply (f_equal snd) in E. cbn [queue_abs snd] in E. fold exec in E. rewrite E. vm_compute. reflexivity.
Defined.

Lemma ack_end_to_end_witness :
  exists msg a', Dtls13WriteAckMessage true 0 (seenRecords sample_rtx) 2 = inr msg /\
    DoDtls13Ack (fun k => (0, k)) (fun _ _ => 0) (mkAckState sample13 sample_rtx 0 0 false) (msg ++ [])
    = (0, a', Zlen msg) /\ addr <$> rtxRecords (rtx a') = [200].
Proof.
  destruct (ack_end_to_end (fun k => (0, k)) (fun _ _ => 0) sample_rtx (mkAckState sample13 sample_rtx 0 0 false))
    as (msg & Hm & _ & Hr); [apply sample_rtx_ok | apply sample_rtx_ok | | reflexivity |].
  - assert (D : forall e q, Dtls13RtxIsTrackedByRn (sample_record 100 certificate 2 [1; 5]) e q = true ->
                Dtls13RtxIsTrackedByRn (sample_record 200 finished 2 [2]) e q = true -> False).
    { intros [e] [q].
      change ((2 =? e) && ((1 =? q) || ((5 =? q) || false)) = true -> (2 =? e) && ((2 =? q) || false) = true -> False).
      destruct (Z.eqb_spec 2 q); [subst q |]; now destruct (2 =? e). }
    intros r1 r2 e q I1 I2. cbn in I1, I2. rewrite !elem_of_cons in I1, I2.
    destruct I1 as [-> | [-> | I1]], I2 as [-> | [-> | I2]]; try inversion I1; try inversion I2; auto;
      intros T1 T2; destruct (D e q); assumption.
  - destruct (Hr [] ltac:(constructor)) as (a' & E & _ & L & _). exists msg, a'.
    split; [exact Hm | split; [exact E |]]. rewrite L. reflexivity.
Defined.

(** ** Retransmission *)

Section Retransmit.
Context {T : Type} `{W64 T}.
Implicit Types (r : Dtls13RtxRecord T) (l : list (Dtls13RtxRecord T)).

Section Env.
Variable cid : DtlsCid.
Variable MAX_MSG_EXTRA : Z.
Variable checkAvailableSize : Z -> Z.
Variable sendFragment : Dtls13 (T := T) -> Dtls13RtxRecord T -> bool -> Z * Dtls13 (T := T).
Variable setKeysSide : KeyMaterial -> Z -> Z.
Variable groupMessages : bool.

#[local] Abbreviation send := (rtx_send cid MAX_MSG_EXTRA checkAvailableSize sendFragment setKeysSide groupMessages).

Lemma rtx_send_ok todo done x s :
  rtx_ok x -> rtxRecords x = done ++ todo ->
  let '(ret, x', s') := send todo (ptr_of done) x s in
  rtx_ok x' /\ seenRecords x' = seenRecords x /\
  (Permutation (core <$> rtxRecords x') (core <$> rtxRecords x)) /\
  (ret <> WANT_WRITE -> core <$> rtxRecords x' = core <$> rtxRecords x).
Proof.
  revert done x s. induction todo as [| r next IH]; intros done x s Hx E; cbn [rtx_send]; [auto |].
  assert (Unch : rtx_ok x /\ seenRecords x = seenRecords x /\
    Permutation (core <$> rtxRecords x) (core <$> rtxRecords x) /\
    (forall ret, ret <> WANT_WRITE -> core <$> rtxRecords x = core <$> rtxRecords x)) by auto.
  destruct (0xffff <? _); [intuition |]. destruct (negb (checkAvailableSize _ =? 0)); [intuition |].
  destruct (rtx_use_epoch setKeysSide s (repoch r)) as [ret1 s1].
  destruct (negb (ret1 =? 0)); [intuition |].
  set (seq := match encrypt_epoch s1 with Some e => nextSeqNumber e | None => w64Zero end).
  destruct (sendFragment s1 r _) as [ret2 s2]. destruct (negb (ret2 =? 0) && negb (ret2 =? WANT_WRITE)); [intuition |].
  destruct (track_in_place x done r next seq Hx E) as [Ok1 E1]. cbv zeta in *. set (x1 := { x with rtxRecords := _ }) in *.
  assert (C1 : core <$> rtxRecords x1 = core <$> rtxRecords x)
    by (rewrite E1, E, !fmap_app, !fmap_cons; now rewrite core_track).
  assert (S1 : seenRecords x1 = seenRecords x) by (destruct x; reflexivity).
  destruct (Z.eqb_spec ret2 WANT_WRITE) as [-> | N2].
  - destruct (move_to_end_ok x1 done (track r seq) next Ok1 E1) as [Ok2 E2]. split; [exact Ok2 |].
    split; [rewrite <- S1; destruct next, x; reflexivity |]. split; [| contradiction].
    rewrite <- C1, E1, E2. apply fmap_Permutation. rewrite app_assoc, (Permutation_app_comm (done ++ next)). cbn.
    now rewrite Permutation_middle.
  - specialize (IH (done ++ [track r seq]) x1 s2 Ok1). rewrite <- app_assoc in IH. specialize (IH E1).
    rewrite ptr_of_snoc in IH. destruct (send next (Some (addr (track r seq))) x1 s2) as [[ret x'] s'].
    destruct IH as (Ok & Sn & P & C). rewrite C1 in P, C. rewrite S1 in Sn. auto.
Qed.
End Env.
End Retransmit.

Section Limits.
Context {T : Type} `{W64 T}.

(** Retransmission loses nothing: whatever the environment answers
    (buffer, cipher, transport), the queue keeps its structure and every
    record keeps its type, epoch and fragment; the order changes only when
    the transport would block, and then the record being sent goes to the
    end; the list of records to acknowledge is untouched.  Within a second of
    the last retransmission nothing happens at all. *)
Theorem Dtls13RtxSendBuffered_keeps cid extra avail (send : Dtls13 (T := T) -> Dtls13RtxRecord T -> bool -> Z * Dtls13 (T := T))
    keysSide group now (x : Dtls13Rtx T) s :
  rtx_ok x ->
  let '(ret, x', s') := Dtls13RtxSendBuffered cid extra avail send keysSide group now x s in
  rtx_ok x' /\ seenRecords x' = seenRecords x /\
  Permutation (core <$> rtxRecords x') (core <$> rtxRecords x) /\
  (ret <> WANT_WRITE -> core <$> rtxRecords x' = core <$> rtxRecords x) /\
  (now - lastRtx x < DTLS13_MIN_RTX_INTERVAL -> ret = 0 /\ x' = x /\ s' = s).
Proof.
  intros Hx. unfold Dtls13RtxSendBuffered. destruct (Z.ltb_spec (now - lastRtx x) DTLS13_MIN_RTX_INTERVAL); [auto 10 |].
  set (x1 := { x with lastRtx := now }).
  assert (Hx1 : rtx_ok x1) by (destruct x; exact Hx).
  pose proof (rtx_send_ok cid extra avail send keysSide group (rtxRecords x1) [] x1 s Hx1 eq_refl) as P.
  change (ptr_of []) with (@None Z) in P.
  destruct (rtx_send _ _ _ _ _ _ (rtxRecords x1) None x1 s) as [[ret x'] s'].
  destruct P as (Ok & Sn & P & C). destruct x. cbn in Sn, P, C.
  split; [exact Ok | split; [exact Sn | split; [exact P | split; [exact C |]]]]. intros B. exfalso. lia.
Qed.

Lemma w64Equal_refl (q : T) : w64_ok q -> w64Equal q q = true.
Proof. intros Hq. rewrite w64Equal_val by assumption. apply Z.eqb_refl. Qed.

(** The cells of a record's number ring are used in order. *)
Definition ring_ok (r : Dtls13RtxRecord T) : Prop :=
  w64_ok (repoch r) /\ Forall w64_ok (seqs r) /\ 0 <= rnIdx r <= Zlen (seqs r) /\
  Zlen (seqs r) <= DTLS13_RETRANS_RN_SIZE.

(** A record is always tracked by the number of its latest
    transmission, in a ring of three numbers that stays within its bounds;
    but when the ring wraps, at the fourth transmission, the two numbers
    before it, which are still in the ring, are no longer looked at, so an
    ACK for one of them is ignored. *)
Theorem track_latest r q :
  ring_ok r -> w64_ok q ->
  ring_ok (track r q) /\ Dtls13RtxIsTrackedByRn (track r q) (repoch r) q = true /\
  (rnIdx r = DTLS13_RETRANS_RN_SIZE ->
     Zlen (seqs (track r q)) = DTLS13_RETRANS_RN_SIZE /\
     forall q', Dtls13RtxIsTrackedByRn (track r q) (repoch r) q' = w64Equal q q').
Proof.
  destruct r as [ad ht ep sq ix dt]. unfold ring_ok, DTLS13_RETRANS_RN_SIZE. cbn.
  intros (He & Hs & Hi & Hz) Hq. unfold track, DTLS13_RETRANS_RN_SIZE. cbn.
  destruct (Z.leb_spec 3 ix); cbn.
  - assert (ix = 3) as -> by lia. destruct sq as [| a [| b [| c [| d sq]]]]; unfold Zlen in *; cbn in *; try lia.
    apply Forall_cons in Hs as [_ Hs]. unfold Dtls13RtxIsTrackedByRn. change (Z.to_nat (u8 (0 + 1))) with 1%nat.
    change (u8 (0 + 1)) with 1. cbn. rewrite w64Equal_refl by assumption. cbn.
    split; [| split; [change (w64Equal q q || false = true); now rewrite w64Equal_refl |]].
    + split; [exact He | split; [now constructor |]]. change (0 <= 1 <= 3 /\ 3 <= 3). lia.
    + intros _. split; [reflexivity |]. intros q'. change (w64Equal q q' || false = w64Equal q q'). apply orb_false_r.
  - assert (E : u8 (ix + 1) = ix + 1) by (apply wrap_small; unfold is_word; lia). rewrite E.
    set (sq' := if (Z.to_nat ix <? length sq)%nat then <[Z.to_nat ix:=q]> sq else sq ++ [q]).
    assert (L : Zlen sq' = Z.max (Zlen sq) (ix + 1) /\ Forall w64_ok sq' /\ sq' !! Z.to_nat ix = Some q).
    { unfold sq', Zlen in *. destruct (Nat.ltb_spec (Z.to_nat ix) (length sq)).
      - rewrite length_insert. split; [lia | split; [now apply Forall_insert |]]. rewrite list_lookup_insert. now rewrite decide_True.
      - assert (Z.to_nat ix = length sq) as -> by lia. rewrite length_app, lookup_app_r, Nat.sub_diag by lia. cbn.
        split; [lia | split; [| reflexivity]]. apply Forall_app. auto. }
    destruct L as (Lz & Lf & Ll). split; [| split; [| lia]].
    + split; [exact He | split; [exact Lf |]]. unfold Zlen in *. cbn in *. fold sq'. lia.
    + unfold Dtls13RtxIsTrackedByRn. cbn. rewrite w64Equal_refl by assumption. cbn.
      apply existsb_exists. exists q. split; [| now apply w64Equal_refl].
      apply list_elem_of_In, list_elem_of_lookup. exists (Z.to_nat ix). rewrite lookup_take.
      rewrite decide_True by lia. exact Ll.
Qed.

Lemma SetEpochKeys_epoch keysSide (s : Dtls13 (T := T)) n sd :
  dtls13Epoch (Dtls13SetEpochKeys keysSide s n sd).2 = dtls13Epoch s.
Proof.
  unfold Dtls13SetEpochKeys. destruct (side_flags s sd) as [[[cw sw] en] de].
  destruct (Dtls13GetEpoch s n) as [i |]; [| reflexivity]. destruct (dtls13Epochs s !! i) as [e |]; [| reflexivity].
  destruct (_ && _); [reflexivity |]. destruct en, de, (w64IsZero n), s; reflexivity.
Qed.

(** ** The epoch after an acknowledged KeyUpdate *)

(** An acknowledged KeyUpdate moves the sending epoch by exactly one and
    never beyond 2^48 - 1: the epoch is advanced only if the key derivation
    succeeds and the next number is in range, and then the keys of the new
    epoch are installed; otherwise the epoch, its table and the encryption
    keys in use are left alone. *)
Theorem KeyUpdate_epoch derive keysSide (s : Dtls13 (T := T)) :
  w64_ok (dtls13Epoch s) ->
  let '(ret, s') := Dtls13KeyUpdateAckReceived derive keysSide s in
  let '(dret, k) := derive (keys s) in
  w64_ok (dtls13Epoch s') /\
  if (dret =? 0) && (w64_val (dtls13Epoch s) <? 2 ^ 48 - 1)
  then w64_val (dtls13Epoch s') = w64_val (dtls13Epoch s) + 1 /\
       (ret, s') = Dtls13SetEpochKeys keysSide { { s with keys := k } with dtls13Epoch := dtls13Epoch s' }
                     (dtls13Epoch s') ENCRYPT_SIDE_ONLY
  else ret = (if dret =? 0 then BAD_STATE_E else dret) /\ ret <> 0 /\ s' = { s with keys := k }.
Proof.
  intros He. unfold Dtls13KeyUpdateAckReceived. destruct (derive (keys s)) as [dret k].
  destruct (w64Increment_val _ He) as [Io Iv]. pose proof (w64_range _ He) as R. unfold is_word in R.
  set (s1 := { s with keys := k }). assert (Ed : dtls13Epoch s1 = dtls13Epoch s) by (destruct s; reflexivity).
  destruct (Z.eqb_spec dret 0) as [-> | N]; cbn [negb andb]; [| rewrite Ed; auto].
  rewrite w64IsZero_val, w64GT_val by (try apply w64From32_val; try assumption; split; vm_compute; congruence).
  rewrite (proj2 (w64From32_val 0x0000FFFF 0xFFFFFFFF ltac:(split; vm_compute; congruence) ltac:(split; vm_compute; congruence))), Iv.
  change (0x0000FFFF * 2 ^ 32 + 0xFFFFFFFF) with (2 ^ 48 - 1).
  destruct (Z.ltb_spec (w64_val (dtls13Epoch s)) (2 ^ 48 - 1)).
  - assert (E : u64 (w64_val (dtls13Epoch s) + 1) = w64_val (dtls13Epoch s) + 1)
      by (apply wrap_small; unfold is_word; lia). rewrite E.
    destruct (Z.eqb_spec (w64_val (dtls13Epoch s) + 1) 0); [lia |].
    destruct (Z.ltb_spec (2 ^ 48 - 1) (w64_val (dtls13Epoch s) + 1)); [lia |].
    set (s2 := { s1 with dtls13Epoch := w64Increment (dtls13Epoch s) }).
    pose proof (SetEpochKeys_epoch keysSide s2 (dtls13Epoch s2) ENCRYPT_SIDE_ONLY) as K.
    destruct (Dtls13SetEpochKeys keysSide s2 (dtls13Epoch s2) ENCRYPT_SIDE_ONLY) as [ret s'] eqn:Es. cbn in K.
    assert (E2 : dtls13Epoch s2 = w64Increment (dtls13Epoch s)) by (unfold s2, s1; destruct s; reflexivity).
    rewrite E2 in *. rewrite K, Iv, E. split; [exact Io | split; [reflexivity | now symmetry]].
  - assert (B : (u64 (w64_val (dtls13Epoch s) + 1) =? 0) || (2 ^ 48 - 1 <? u64 (w64_val (dtls13Epoch s) + 1)) = true).
    { destruct (Z.eq_dec (w64_val (dtls13Epoch s)) (2 ^ 64 - 1)) as [-> | N]; [reflexivity |].
      rewrite (wrap_small 64) by (unfold is_word; lia). apply orb_true_iff. right. apply Z.ltb_lt. lia. }
    apply orb_true_iff in B as [-> | ->]; [rewrite Ed; now repeat split |].
    destruct (_ =? 0); rewrite Ed; now repeat split.
Qed.

(** ** The limit on failed decryptions *)

(** The nominal limits as numbers. *)
Definition fail_limits (c : bulk_cipher) : option (Z * Z) :=
  match c with
  | wolfssl_aes_gcm | wolfssl_chacha => Some (2 ^ 35, 2 ^ 34)
  | wolfssl_aes_ccm_8 => Some (2 ^ 6, 2 ^ 5)
  | wolfssl_aes_ccm => Some (11863283, 5931641)
  | wolfssl_cipher_null | other_cipher => None
  end.

Lemma aead_limits_spec c :
  match aead_limits (T := T) c, fail_limits c with
  | Some (h, k), Some (zh, zk) => w64_ok h /\ w64_ok k /\ w64_val h = zh /\ w64_val k = zk
  | None, None => True
  | _, _ => False
  end.
Proof.
  destruct c; cbn -[Z.mul Z.pow Z.add]; try exact I;
    repeat match goal with |- context [w64From32 ?a ?b] =>
      let P := fresh "P" in
      pose proof (w64From32_val a b ltac:(split; vm_compute; congruence) ltac:(split; vm_compute; congruence)) as P;
      destruct P; generalize dependent (w64From32 a b); intros end; auto.
Qed.

(** [n] decryptions in a row fail: what the last one returns, the state it
    leaves, and the key update it asks for. *)
Fixpoint fail_run (c : bulk_cipher) (upd : bool) (n : nat) (s : Dtls13 (T := T))
    : Z * Dtls13 (T := T) * option T :=
  match n with
  | O => (0, s, None)
  | S n => Dtls13CheckAEADFailLimit c upd (fail_run c upd n s).1.2
  end.

Definition drop_count (s : Dtls13 (T := T)) (i : nat) : option Z :=
  w64_val <$> (dropCount <$> dtls13Epochs s !! i).

Lemma fail_step c upd (s : Dtls13 (T := T)) i e h k :
  fail_limits c = Some (h, k) -> dtls13DecryptEpoch s = Some i -> dtls13Epochs s !! i = Some e ->
  w64_ok (dropCount e) -> w64_val (dropCount e) < 2 ^ 64 - 1 ->
  let n := w64_val (dropCount e) + 1 in
  exists s' e', dtls13DecryptEpoch s' = Some i /\ dtls13PeerEpoch s' = dtls13PeerEpoch s /\
    dtls13Epochs s' !! i = Some e' /\ w64_ok (dropCount e') /\ w64_val (dropCount e') = n /\
    Dtls13CheckAEADFailLimit c upd s =
      (if h <? n then DECRYPT_ERROR else 0, s',
       if (k <? n) && (n <=? h) && negb upd then Some (w64Increment (dtls13PeerEpoch s)) else None).
Proof.
  intros Hc Hd He Ho Hn. cbv zeta.
  pose proof (aead_limits_spec c) as L. rewrite Hc in L.
  unfold Dtls13CheckAEADFailLimit. destruct (aead_limits (T := T) c) as [[hl kl] |] eqn:El; [| contradiction].
  destruct L as (Oh & Ok & Eh & Ek). rewrite Hd.
  set (s' := set_epoch s i _). destruct (w64Increment_val _ Ho) as [Io Iv].
  pose proof (w64_range _ Ho) as R. unfold is_word in R. rewrite wrap_small in Iv by (unfold is_word; lia).
  assert (E : dtls13Epochs s' !! i = Some { e with dropCount := w64Increment (dropCount e) })
    by (unfold s'; rewrite set_epoch_lookup, decide_True, He; reflexivity).
  rewrite E. exists s', { e with dropCount := w64Increment (dropCount e) }.
  replace (dropCount { e with dropCount := w64Increment (dropCount e) }) with (w64Increment (dropCount e))
    by (destruct e; reflexivity).
  assert (Ep : dtls13PeerEpoch s' = dtls13PeerEpoch s) by (destruct s; reflexivity). rewrite Ep.
  split; [destruct s; exact Hd |]. repeat (split; [auto; fail |]).
  rewrite !w64GT_val, Eh, Ek, Iv by assumption.
  destruct c; try discriminate Hc;
    destruct (Z.ltb_spec h (w64_val (dropCount e) + 1)), (Z.leb_spec (w64_val (dropCount e) + 1) h); try lia;
    rewrite ?andb_false_r; try reflexivity;
    destruct (Z.ltb_spec k (w64_val (dropCount e) + 1)), upd; reflexivity.
Qed.

(** The count of failed decryptions is exact: in an epoch that starts
    counting at zero, of any run of records that fail to decrypt the [n]-th
    closes the connection exactly when [n] exceeds the hard limit of the
    cipher (2^35, 2^6 or 11863283 records), and asks for a key update exactly
    when [n] has passed half of it and no update is pending already. *)
Theorem AEADFailLimit_exact c upd (s : Dtls13 (T := T)) i e h k n :
  fail_limits c = Some (h, k) -> dtls13DecryptEpoch s = Some i -> dtls13Epochs s !! i = Some e ->
  w64_ok (dropCount e) -> w64_val (dropCount e) = 0 -> Z.of_nat n < 2 ^ 64 -> (0 < n)%nat ->
  let '(ret, s', upd') := fail_run c upd n s in
  ret = (if h <? Z.of_nat n then DECRYPT_ERROR else 0) /\ drop_count s' i = Some (Z.of_nat n) /\
  upd' = (if (k <? Z.of_nat n) && (Z.of_nat n <=? h) && negb upd
          then Some (w64Increment (dtls13PeerEpoch s)) else None).
Proof.
  intros Hc Hd He Ho Hz Hn Hp.
  assert (Inv : forall m, Z.of_nat m < 2 ^ 64 -> exists e', let s' := (fail_run c upd m s).1.2 in
    dtls13DecryptEpoch s' = Some i /\ dtls13PeerEpoch s' = dtls13PeerEpoch s /\ dtls13Epochs s' !! i = Some e' /\
    w64_ok (dropCount e') /\ w64_val (dropCount e') = Z.of_nat m).
  { induction m as [| m IH]; intros Hm; [exists e; auto |].
    destruct IH as (e' & D & P & E & O & V); [lia |].
    destruct (fail_step c upd _ i e' h k Hc D E O) as (s' & e2 & D2 & P2 & E2 & O2 & V2 & Es); [lia |].
    exists e2. cbn [fail_run]. rewrite Es. cbn. repeat split; auto; [congruence | lia]. }
  destruct n as [| n]; [lia |]. destruct (Inv n) as (e' & D & P & E & O & V); [lia |].
  destruct (fail_step c upd _ i e' h k Hc D E O) as (s' & e2 & D2 & P2 & E2 & O2 & V2 & Es); [lia |].
  cbn [fail_run]. rewrite Es, P, V. replace (Z.of_nat n + 1) with (Z.of_nat (S n)) by lia.
  split; [reflexivity | split; [| reflexivity]]. unfold drop_count. rewrite E2. cbn. f_equal. lia.
Qed.
End Limits.

(** A transport that would block on the first record. *)
Lemma Dtls13RtxSendBuffered_keeps_witness :
  let send (s : Dtls13 (T := Native.w64wrapper)) (_ : Dtls13RtxRecord Native.w64wrapper) (_ : bool) := (WANT_WRITE, s) in
  let '(ret, x, _) := Dtls13RtxSendBuffered (DtlsCid.fresh WOLFSSL_CLIENT_END) 100 (fun _ => 0) send (fun _ _ => 0)
                        false 5000 sample_rtx sample13 in
  ret = WANT_WRITE /\ rtx_ok x /\ addr <$> rtxRecords x = [200; 100].
Proof.
  cbv zeta. pose proof (Dtls13RtxSendBuffered_keeps (DtlsCid.fresh WOLFSSL_CLIENT_END) 100 (fun _ => 0)
    (fun s _ _ => (WANT_WRITE, s)) (fun _ _ => 0) false 5000 sample_rtx sample13 (proj1 sample_rtx_ok)) as P.
  destruct (Dtls13RtxSendBuffered _ _ _ _ _ _ _ _ _) as [[ret x] s'] eqn:E.
  destruct P as (Ok & _). vm_compute in E. injection E as <- <- _.
  split; [reflexivity | split; [exact Ok | reflexivity]].
Defined.

Lemma track_latest_witness :
  let r := track (sample_record 100 certificate 2 [1; 5; 6]) (Native.mk 7) in
  Dtls13RtxIsTrackedByRn r (Native.mk 2) (Native.mk 7) = true /\
  seqs r = Native.mk <$> [7; 5; 6] /\ Dtls13RtxIsTrackedByRn r (Native.mk 2) (Native.mk 6) = false.
Proof.
  destruct (track_latest (sample_record 100 certificate 2 [1; 5; 6]) (Native.mk 7)) as (_ & L & W);
    [| split; vm_compute; congruence |].
  - split; [split; vm_compute; congruence |]. split; [repeat constructor; vm_compute; congruence |].
    vm_compute. repeat split; congruence.
  - split; [exact L | split; [reflexivity |]]. exact (proj2 (W eq_refl) (Native.mk 6)).
Defined.

Lemma KeyUpdate_epoch_witness :
  (Dtls13KeyUpdateAckReceived (fun k => (0, k)) (fun _ _ => 0) sample13).1 = BAD_STATE_E /\
  w64_val (dtls13Epoch (Dtls13KeyUpdateAckReceived (fun k => (0, k)) (fun _ _ => 0) sample13).2) = 5.
Proof.
  assert (O : w64_ok (dtls13Epoch sample13)) by (split; vm_compute; congruence).
  pose proof (KeyUpdate_epoch (fun k => (0, k)) (fun _ _ => 0) sample13 O) as P.
  destruct (Dtls13KeyUpdateAckReceived _ _ sample13) as [ret s'] eqn:E. cbn [fst snd].
  destruct P as (_ & P & _). split; [vm_compute in E; injection E as <- _; reflexivity | exact P].
Defined.

Lemma AEADFailLimit_exact_witness :
  let '(r1, _, u1) := fail_run wolfssl_aes_ccm_8 false 64 sample13 in
  let '(r2, _, u2) := fail_run wolfssl_aes_ccm_8 false 65 sample13 in
  r1 = 0 /\ u1 <> None /\ r2 = DECRYPT_ERROR /\ u2 = None.
Proof.
  assert (O : w64_ok (dropCount (blank_epoch true (Native.mk 2)))) by (split; vm_compute; congruence).
  pose proof (fun n => AEADFailLimit_exact wolfssl_aes_ccm_8 false sample13 1 (blank_epoch true (Native.mk 2)) 64 32 n
    eq_refl eq_refl eq_refl O eq_refl) as P.
  pose proof (P 64%nat ltac:(lia) ltac:(lia)) as P1. pose proof (P 65%nat ltac:(lia) ltac:(lia)) as P2.
  destruct (fail_run wolfssl_aes_ccm_8 false 64 sample13) as [[r1 s1] u1].
  destruct (fail_run wolfssl_aes_ccm_8 false 65 sample13) as [[r2 s2] u2].
  destruct P1 as (-> & _ & ->), P2 as (-> & _ & ->). repeat split. vm_compute. discriminate.
Defined.
