(* ===== verification/DtlsFrag.v ===== *)
(** * src/internal.c: reassembly of DTLS handshake messages

    A handshake message may arrive in fragments: in any order, repeated,
    overlapping, or forged.  [DtlsMsg] collects what has arrived of one
    message in a list of buckets, sorted by offset and separated by gaps;
    [DtlsMsgSet] adds a fragment, growing and joining buckets in place
    ([DtlsMsgCombineFragBuckets]), and once everything has arrived the one
    bucket left becomes the message.  [DtlsMsgStore] keeps the messages that
    are not complete, or not yet due, in a list.

    The copies are those of the source: a write or read outside of its buffer
    is the value [None], so that a theorem that the result is [Some] shows
    that the code stays within its buffers.  The list of buckets is a list;
    [alloc] says whether [XMALLOC]/[XREALLOC] succeed and [junk] is what the
    memory gained by [XREALLOC] holds. *)

From S2P Require Import Prelude Misc Tls.
From stdpp Require Import list sorting.
From Stdlib Require Import Bool.

#[local] Open Scope Z_scope.
#[local] Open Scope cword_scope.

Definition DTLS_FRAG_POOL_SZ : Z := 10.
Definition DTLS_POOL_SZ : Z := 20.

(** ** Memory *)

(** [XMEMCPY]/[XMEMMOVE] to position [pos] of a buffer. *)
Definition mem_write (b : list Z) (pos : Z) (d : list Z) : option (list Z) :=
  if (0 <=? pos) && (pos + Zlen d <=? Zlen b)
  then Some (take (Z.to_nat pos) b ++ d ++ drop (Z.to_nat (pos + Zlen d)) b) else None.

(** The [n] bytes from position [pos] on. *)
Definition mem_read (b : list Z) (pos n : Z) : option (list Z) :=
  if (0 <=? pos) && (0 <=? n) && (pos + n <=? Zlen b)
  then Some (take (Z.to_nat n) (drop (Z.to_nat pos) b)) else None.

Definition xrealloc (junk : nat -> Z) (b : list Z) (n : Z) : list Z :=
  take (Z.to_nat n) (b ++ (junk <$> List.seq 0%nat (Z.to_nat n))).

(** ** The data *)

Record DtlsFragBucket := mkBucket { offset : Z; sz : Z; buf : list Z }.

(** [full]: once the message is complete, the twelve bytes before [fullMsg]
    and the bytes from [fullMsg] on. *)
Record DtlsMsg := mkMsg {
  full : option (list Z * list Z); fragBucketList : list DtlsFragBucket; bytesReceived : Z;
  epoch : Z; mseq : Z; msz : Z; mtype : Z; fragBucketListCount : Z; ready : bool; encrypted : bool }.

Definition bucket_end (b : DtlsFragBucket) : Z := offset b +u32 sz b.

(** [DtlsMsgNew] for a received message ([tx] is 0). *)
Definition DtlsMsgNew (sz : Z) : DtlsMsg := mkMsg None [] 0 0 0 sz no_shake 0 false false.

Definition DtlsMsgCreateFragBucket (alloc : bool) (off : Z) (data : list Z) (dataSz : Z)
    : option (option DtlsFragBucket) :=
  if negb alloc then Some None
  else d ← mem_read data 0 dataSz; Some (Some (mkBucket off dataSz d)).

(** [toFree]: the buckets between [cur] and [next]; [nextl]: those from
    [next] on.  [Some None] is the NULL of a failed allocation; otherwise
    the new list from [cur] on, what [bytesReceived] gains, and how much
    [fragBucketListCount] drops. *)
Definition DtlsMsgCombineFragBuckets (alloc : bool) (junk : nat -> Z) (cur : DtlsFragBucket)
    (toFree nextl : list DtlsFragBucket) (off : Z) (data : list Z) (dataSz : Z)
    : option (option (list DtlsFragBucket * Z * Z)) :=
  let next := default cur (head nextl) in
  let offsetEnd := off +u32 dataSz in
  let newOffset := Z.min (offset cur) off in
  let combineNext := match nextl with [] => false | n :: _ => offset n <=? offsetEnd end in
  let newOffsetEnd := if combineNext then bucket_end next else Z.max (bucket_end cur) offsetEnd in
  let newSz := newOffsetEnd -u32 newOffset in
  let isCur := negb combineNext || (sz next <=? sz cur) in
  if negb alloc then Some None
  else
    let nb := xrealloc junk (buf (if isCur then cur else next)) newSz in
    let curBuf := if isCur then nb else buf cur in
    let nextBuf := if isCur then buf next else nb in
    nb ← (if combineNext then d ← mem_read nextBuf 0 (sz next); mem_write nb (offset next -u32 newOffset) d
          else Some nb);
    let curBuf := if isCur then nb else curBuf in
    let newOffsetEnd := if combineNext then offset next else newOffsetEnd in
    nb ← (if newOffset =? off then
            if newOffsetEnd <=? offsetEnd then
              d ← mem_read data 0 (Z.min dataSz (newOffsetEnd -u32 newOffset)); mem_write nb 0 d
            else
              let skipInCur := offsetEnd -u32 offset cur in
              d ← mem_read curBuf skipInCur (sz cur -u32 skipInCur);
              nb ← mem_write nb dataSz d;
              d ← mem_read data 0 dataSz;
              mem_write nb 0 d
          else
            let curOffsetEnd := bucket_end cur in
            nb ← (if isCur then Some nb else d ← mem_read curBuf 0 (sz cur); mem_write nb 0 d);
            d ← mem_read data (curOffsetEnd -u32 off) (newOffsetEnd -u32 curOffsetEnd);
            mem_write nb (sz cur) d);
    let overlapSz := foldl (fun n b => n +u32 sz b) (sz cur) toFree in
    let overlapSz := if combineNext then overlapSz +u32 sz next else overlapSz in
    Some (Some (mkBucket newOffset newSz nb :: (if combineNext then tail nextl else nextl),
                newSz -u32 overlapSz, Zlen toFree + c_bool combineNext)).

Definition DtlsMsgAssembleCompleteMessage (m : DtlsMsg) : DtlsMsg :=
  match fragBucketList m with
  | b :: _ =>
      if negb (fragBucketListCount m =? 1) || negb (offset b =? 0) || negb (sz b =? msz m) then m
      else
        let hdr := mtype m :: Opaque.c32to24 (msz m) ++ Opaque.c16toa (u16 (mseq m)) ++
                   Opaque.c32to24 0 ++ Opaque.c32to24 (msz m) in
        { { { { m with full := Some (hdr, buf b) } with ready := true } with fragBucketList := [] }
          with fragBucketListCount := 0 }
  | [] => m
  end.

(** The scan for the bucket a fragment goes to: the buckets passed, those
    from the one found on, and whether that one has all of the fragment. *)
Fixpoint find_bucket (fragOffset fragOffsetEnd : Z) (prev l : list DtlsFragBucket)
    : list DtlsFragBucket * list DtlsFragBucket * bool :=
  match l with
  | [] => (prev, [], false)
  | cur :: rest =>
      let curEnd := offset cur +u32 sz cur in
      if (offset cur <=? fragOffset) && (fragOffsetEnd <=? curEnd) then (prev, l, true)
      else if fragOffset <=? curEnd then (prev, l, false)
      else find_bucket fragOffset fragOffsetEnd (prev ++ [cur]) rest
  end.

(** The buckets after the one found that the fragment covers. *)
Fixpoint skip_covered (fragOffsetEnd : Z) (passed l : list DtlsFragBucket)
    : list DtlsFragBucket * list DtlsFragBucket :=
  match l with
  | [] => (passed, [])
  | next :: rest =>
      if (offset next +u32 sz next) <=? fragOffsetEnd then skip_covered fragOffsetEnd (passed ++ [next]) rest
      else (passed, l)
  end.

(** The buckets after the fragment has been stored: the code, the buckets,
    [bytesReceived] and [fragBucketListCount]. *)
Definition store_fragment (alloc : bool) (junk : nat -> Z) (l : list DtlsFragBucket) (received count : Z)
    (data : list Z) (fragOffset fragSz : Z) : option (Z * list DtlsFragBucket * Z * Z) :=
  let fragOffsetEnd := fragOffset +u32 fragSz in
  let '(prev, rest, done) := find_bucket fragOffset fragOffsetEnd [] l in
  if done then Some (0, l, received, count)
  else
    match rest with
    | [] =>
        if DTLS_FRAG_POOL_SZ <=? count then Some (DTLS_TOO_MANY_FRAGMENTS_E, l, received, count)
        else
          b ← DtlsMsgCreateFragBucket alloc fragOffset data fragSz;
          Some (match b with
                | None => (0, l, received, count)
                | Some b => (0, prev ++ [b], received +u32 fragSz, u8 (count + 1))
                end)
    | cur :: after =>
        if fragOffsetEnd <? offset cur then
          if DTLS_FRAG_POOL_SZ <=? count then Some (DTLS_TOO_MANY_FRAGMENTS_E, l, received, count)
          else
            b ← DtlsMsgCreateFragBucket alloc fragOffset data fragSz;
            Some (match b with
                  | None => (0, l, received, count)
                  | Some b => (0, prev ++ b :: cur :: after, received +u32 fragSz, u8 (count + 1))
                  end)
        else
          let '(toFree, nextl) := skip_covered fragOffsetEnd [] after in
          r ← DtlsMsgCombineFragBuckets alloc junk cur toFree nextl fragOffset data fragSz;
          Some (match r with
                | None => (0, l, received, count)
                | Some (l', gain, freed) => (0, prev ++ l', received +u32 gain, u8 (count - freed))
                end)
    end.

(** [data]: the bytes from the pointer to the end of its buffer. *)
Definition DtlsMsgSet (alloc : bool) (junk : nat -> Z) (m : DtlsMsg) (seq ep : Z) (data : list Z) (type : Z)
    (fragOffset fragSz totalLen : Z) (enc : bool) : option (Z * DtlsMsg) :=
  if negb (msz m =? totalLen) || (totalLen <? (fragOffset +u32 fragSz)) then Some (BAD_FUNC_ARG, m)
  else if ready m then Some (0, m)
  else
    let typed := negb (mtype m =? no_shake) in
    if typed && (negb (mtype m =? type) || negb (epoch m =? ep) || negb (mseq m =? seq))
    then Some (SEQUENCE_ERROR, m)
    else
      let m := if typed then { m with encrypted := encrypted m && enc }
               else { { { { m with mtype := type } with epoch := ep } with mseq := seq } with encrypted := enc } in
      match fragBucketList m with
      | [] =>
          b ← DtlsMsgCreateFragBucket alloc fragOffset data fragSz;
          Some (match b with
                | None => (MEMORY_ERROR, m)
                | Some b =>
                    let m := { { { m with fragBucketList := [b] } with bytesReceived := fragSz }
                               with fragBucketListCount := u8 (fragBucketListCount m + 1) } in
                    (0, if bytesReceived m =? msz m then DtlsMsgAssembleCompleteMessage m else m)
                end)
      | l =>
          r ← store_fragment alloc junk l (bytesReceived m) (fragBucketListCount m) data fragOffset fragSz;
          let '(ret, l, received, count) := r in
          let m := { { { m with fragBucketList := l } with bytesReceived := received }
                     with fragBucketListCount := count } in
          Some (if negb (ret =? 0) then (ret, m)
                else (0, if bytesReceived m =? msz m then DtlsMsgAssembleCompleteMessage m else m))
      end.

(** ** The list of messages *)

(** The message found, between those before and behind it. *)
Fixpoint find_from (prev l : list DtlsMsg) (ep seq : Z) : option (list DtlsMsg * DtlsMsg * list DtlsMsg) :=
  match l with
  | [] => None
  | m :: l => if negb ((epoch m =? ep) && (mseq m =? seq)) then find_from (prev ++ [m]) l ep seq else Some (prev, m, l)
  end.

Definition DtlsMsgFind (head : list DtlsMsg) (ep seq : Z) := find_from [] head ep seq.

Definition goes_before (item cur : DtlsMsg) : bool := (epoch item <=? epoch cur) && (mseq item <? mseq cur).

(** The walk of [DtlsMsgInsert] from the second message on. *)
Fixpoint insert_walk (item : DtlsMsg) (l : list DtlsMsg) : list DtlsMsg :=
  match l with
  | [] => [item]
  | cur :: rest => if goes_before item cur then item :: cur :: rest else cur :: insert_walk item rest
  end.

Definition DtlsMsgInsert (head : list DtlsMsg) (item : DtlsMsg) : list DtlsMsg :=
  match head with
  | [] => [item]
  | h :: rest =>
      if goes_before item h then item :: h :: rest
      else match rest with
           | [] => [h; item]
           | _ => h :: insert_walk item rest
           end
  end.

(** [dtls_rx_msg_list] and [dtls_rx_msg_list_sz]; [rx_error]: the code put
    into [ssl->error]. *)
Record RxList := mkRx { rx_list : list DtlsMsg; rx_sz : Z; rx_error : Z }.

(** [newMsg]: whether [DtlsMsgNew] gets its memory. *)
Definition DtlsMsgStore (newMsg alloc : bool) (junk : nat -> Z) (x : RxList) (ep seq : Z) (data : list Z)
    (dataSz type fragOffset fragSz : Z) (enc : bool) : option RxList :=
  match DtlsMsgFind (rx_list x) ep seq with
  | Some (prev, cur, rest) =>
      r ← DtlsMsgSet alloc junk cur seq ep data type fragOffset fragSz dataSz enc;
      Some { x with rx_list := prev ++ r.2 :: rest }
  | None =>
      if negb newMsg then Some { x with rx_error := MEMORY_E }
      else
        r ← DtlsMsgSet alloc junk (DtlsMsgNew dataSz) seq ep data type fragOffset fragSz dataSz enc;
        Some (if r.1 <? 0 then x
              else mkRx (DtlsMsgInsert (rx_list x) r.2) (rx_sz x +u32 1) (rx_error x))
  end.

(** ** Lemmas on the copies *)

Lemma write_ok b pos d : 0 <= pos -> pos + Zlen d <= Zlen b ->
  exists b', mem_write b pos d = Some b' /\ Zlen b' = Zlen b /\
    forall i, 0 <= i < Zlen b -> rd b' i = if (pos <=? i) && (i <? pos + Zlen d) then rd d (i - pos) else rd b i.
Proof.
  intros Hp Hl. pose proof (Zlen_nonneg d). unfold mem_write.
  destruct (Z.leb_spec 0 pos); [| lia]. destruct (Z.leb_spec (pos + Zlen d) (Zlen b)); [| lia]. cbn [andb].
  eexists. split; [reflexivity |]. rewrite !Zlen_app, Zlen_take, Zlen_drop by lia. split; [lia |]. intros i Hi.
  rewrite rd_app, Zlen_take by lia. destruct (Z.ltb_spec i pos), (Z.leb_spec pos i); try lia; cbn [andb].
  - apply rd_take. lia.
  - rewrite rd_app by lia. destruct (Z.ltb_spec (i - pos) (Zlen d)), (Z.ltb_spec i (pos + Zlen d)); try lia.
    rewrite rd_drop by lia. f_equal. lia.
Qed.

Lemma read_ok b pos n : 0 <= pos -> 0 <= n -> pos + n <= Zlen b ->
  exists d, mem_read b pos n = Some d /\ Zlen d = n /\ forall i, 0 <= i < n -> rd d i = rd b (pos + i).
Proof.
  intros Hp Hn Hl. unfold mem_read.
  destruct (Z.leb_spec 0 pos), (Z.leb_spec 0 n), (Z.leb_spec (pos + n) (Zlen b)); try lia. cbn [andb].
  eexists. split; [reflexivity |]. split; [rewrite Zlen_take; [reflexivity |]; rewrite Zlen_drop; lia |].
  intros i Hi. rewrite rd_take, rd_drop by lia. reflexivity.
Qed.

Lemma xrealloc_ok junk b n : 0 <= n ->
  Zlen (xrealloc junk b n) = n /\ forall i, 0 <= i < n -> i < Zlen b -> rd (xrealloc junk b n) i = rd b i.
Proof.
  intros Hn. unfold xrealloc. split.
  - apply Zlen_take. rewrite Zlen_app. pose proof (Zlen_nonneg b).
    unfold Zlen at 2. rewrite length_fmap, length_seq. lia.
  - intros i Hi Hb. rewrite rd_take by lia. rewrite rd_app by lia. now destruct (Z.ltb_spec i (Zlen b)); [| lia].
Qed.

(** ** Buckets *)

(** Buckets are sorted by offset and separated by gaps. *)
Fixpoint chain (lo : Z) (l : list DtlsFragBucket) : Prop :=
  match l with
  | [] => True
  | b :: l => lo < offset b /\ 0 <= sz b /\ Zlen (buf b) = sz b /\ chain (offset b + sz b) l
  end.

Definition ends_by (n : Z) (l : list DtlsFragBucket) : Prop := Forall (fun b => offset b + sz b <= n) l.

(** The byte at a position of the message, if it has arrived. *)
Fixpoint byte_at (l : list DtlsFragBucket) (p : Z) : option Z :=
  match l with
  | [] => None
  | b :: l => if (offset b <=? p) && (p <? offset b + sz b) then Some (rd (buf b) (p - offset b)) else byte_at l p
  end.

Definition sizes (l : list DtlsFragBucket) : Z := foldr (fun b n => sz b + n) 0 l.

Definition small (n : Z) : Prop := 0 <= n < 2 ^ 24.

#[local] Ltac u32s :=
  repeat match goal with
  | |- context [wrap 32 ?x] => rewrite (wrap_small 32 x) by (unfold is_word, small in *; lia)
  end.

(** What the joined bucket holds. *)
Definition joined_byte (cur : DtlsFragBucket) (next : option DtlsFragBucket) (off dataSz : Z) (data : list Z) (p : Z) : Z :=
  match next with
  | Some n =>
      if offset n <=? p then rd (buf n) (p - offset n)
      else if offset cur <? off then
        if p <? offset cur + sz cur then rd (buf cur) (p - offset cur) else rd data (p - off)
      else rd data (p - off)
  | None =>
      if offset cur <? off then
        if p <? offset cur + sz cur then rd (buf cur) (p - offset cur) else rd data (p - off)
      else if p <? off + dataSz then rd data (p - off) else rd (buf cur) (p - offset cur)
  end.

Definition bucket_ok (b : DtlsFragBucket) : Prop := 0 <= offset b /\ 0 <= sz b /\ Zlen (buf b) = sz b.

(** The end of the last bucket. *)
Definition chain_end (lo : Z) (l : list DtlsFragBucket) : Z := foldl (fun _ b => offset b + sz b) lo l.

Lemma chain_app lo l k : chain lo (l ++ k) <-> chain lo l /\ chain (chain_end lo l) k.
Proof. revert lo. induction l as [| b l IH]; intros lo; cbn; [tauto |]. rewrite IH. tauto. Qed.

Lemma chain_end_bound lo l : chain lo l -> ends_by (chain_end lo l) l /\ lo <= chain_end lo l.
Proof.
  unfold chain_end. revert lo. induction l as [| b l IH]; intros lo; cbn; [intros _; split; [constructor | lia] |].
  intros (? & ? & ? & C). destruct (IH _ C) as [F M]. split; [constructor; [exact M | exact F] | lia].
Qed.

Lemma chain_weaken lo lo' l : lo' <= lo -> chain lo l -> chain lo' l.
Proof. destruct l as [| b l]; cbn; [tauto |]. intros ? (? & ? & ? & ?). repeat split; auto; lia. Qed.

Lemma chain_sizes lo n l : chain lo l -> ends_by n l -> lo <= n -> lo + sizes l + Zlen l <= n /\ 0 <= sizes l.
Proof.
  revert lo. induction l as [| b l IH]; intros lo C E L; [unfold Zlen; cbn; lia |].
  destruct C as (C1 & C2 & _ & C). apply Forall_cons in E as [Eb E]. specialize (IH _ C E Eb).
  unfold Zlen in *. cbn [sizes foldr length]. fold (sizes l). lia.
Qed.

Lemma foldl_sizes l a : 0 <= a -> Forall (fun b => 0 <= sz b) l -> a + sizes l < 2 ^ 32 ->
  foldl (fun n b => n +u32 sz b) a l = a + sizes l.
Proof.
  revert a. induction l as [| b l IH]; intros a Ha F B; cbn in *; [lia |].
  apply Forall_cons in F as [Fb F]. assert (0 <= sizes l) by (clear -F; induction F; cbn; [lia |]; fold (sizes l); lia).
  fold (sizes l) in *. rewrite wrap_small by (unfold is_word; lia). rewrite IH; auto; lia.
Qed.

Lemma chain_nonneg lo l : chain lo l -> Forall (fun b => 0 <= sz b) l.
Proof. revert lo. induction l as [| b l IH]; intros lo C; constructor; destruct C as (? & ? & ? & ?); eauto. Qed.

(** Writing a block that was read: the two steps of a copy. *)
Lemma copy_ok src from n b pos :
  0 <= from -> 0 <= n -> from + n <= Zlen src -> 0 <= pos -> pos + n <= Zlen b ->
  exists d b', mem_read src from n = Some d /\ mem_write b pos d = Some b' /\ Zlen b' = Zlen b /\
    forall i, 0 <= i < Zlen b ->
      rd b' i = if (pos <=? i) && (i <? pos + n) then rd src (from + (i - pos)) else rd b i.
Proof.
  intros Hf Hn Hs Hp Hb. destruct (read_ok src from n Hf Hn Hs) as (d & Ed & Ld & Rd).
  destruct (write_ok b pos d Hp ltac:(lia)) as (b' & Eb & Lb & Rb). exists d, b'.
  repeat (split; [assumption |]). intros i Hi. rewrite Rb, Ld by assumption.
  destruct (Z.leb_spec pos i), (Z.ltb_spec i (pos + n)); cbn [andb]; try reflexivity. rewrite Rd by lia. reflexivity.
Qed.

#[local] Ltac copy :=
  match goal with |- context [mem_read ?s ?f ?n] =>
    match goal with |- context [mem_write ?b ?p] =>
      let d := fresh "d" in let b' := fresh "b" in let E := fresh "E" in let E' := fresh "E" in
      let L := fresh "L" in let R := fresh "R" in
      destruct (copy_ok s f n b p) as (d & b' & E & E' & L & R); [lia .. |];
      rewrite E; cbn [mbind option_bind]; rewrite E'; cbn [mbind option_bind]; clear E E'
    end
  end.

#[local] Ltac cmp :=
  repeat match goal with
  | |- context [?a <=? ?b] => destruct (Z.leb_spec a b); try lia
  | |- context [?a <? ?b] => destruct (Z.ltb_spec a b); try lia
  | |- context [?a =? ?b] => destruct (Z.eqb_spec a b); try lia
  end.

Record combinable (total : Z) (cur : DtlsFragBucket) (toFree nextl : list DtlsFragBucket) (off dsz : Z) : Prop := {
  comb_cur : bucket_ok cur;
  comb_total : small total;
  comb_off : 0 <= off /\ 0 <= dsz /\ off + dsz <= total;
  comb_touch : off <= offset cur + sz cur /\ offset cur <= off + dsz;
  comb_more : off < offset cur \/ offset cur + sz cur < off + dsz;
  comb_chain : chain (offset cur + sz cur) (toFree ++ nextl);
  comb_ends : ends_by total (cur :: toFree ++ nextl);
  comb_free : Forall (fun b => offset b + sz b <= off + dsz) toFree;
  comb_next : match nextl with [] => True | n :: _ => off + dsz < offset n + sz n end }.

Definition joins (off dsz : Z) (nextl : list DtlsFragBucket) : option DtlsFragBucket :=
  match nextl with
  | n :: _ => if offset n <=? off + dsz then Some n else None
  | [] => None
  end.

Lemma next_after total cur toFree n after off dsz :
  combinable total cur toFree (n :: after) off dsz ->
  offset cur + sz cur + sizes toFree < offset n /\ 0 <= sizes toFree /\ 0 <= sz n /\ Zlen (buf n) = sz n /\ offset n + sz n <= total.
Proof.
  intros C. pose proof (comb_chain _ _ _ _ _ _ C) as Ch. pose proof (comb_ends _ _ _ _ _ _ C) as Ee.
  apply Forall_cons in Ee as [Ec Ee]. apply Forall_app in Ee as [Ef En]. apply Forall_cons in En as [En _].
  apply chain_app in Ch as [C1 C2].
  destruct C2 as (O & S & L & _).
  destruct (chain_end_bound _ _ C1) as [F M]. pose proof (chain_sizes _ _ _ C1 F M) as K. pose proof (Zlen_nonneg toFree). repeat split; auto; lia.
Qed.

(** Evaluates the buffer that a sequence of copies produced at a position. *)
#[local] Ltac bytes :=
  repeat (cbn [andb];
    match goal with
    | R : forall i, _ -> rd ?b i = _ |- context [rd ?b ?i] => rewrite (R i) by lia
    | R : forall i, _ -> _ -> rd ?b i = _ |- context [rd ?b ?i] => rewrite (R i) by lia
    | |- context [?a <=? ?b] => destruct (Z.leb_spec a b); try lia
    | |- context [?a <? ?b] => destruct (Z.ltb_spec a b); try lia
    end);
  try (f_equal; lia).

#[local] Ltac joined :=
  eexists _, _; split; [repeat (f_equal; try lia) |]; unfold bucket_ok; cbn [offset sz buf];
  split; [repeat split; lia |]; split; [lia |]; split; [lia |]; split; [u32s; first [lia | f_equal; lia] |];
  intros p Hp; unfold joined_byte; bytes.


#[local] Ltac grow :=
  unfold id; cbv beta iota; u32s;
  match goal with |- context [xrealloc ?junk ?b ?n] =>
    destruct (xrealloc_ok junk b n) as [L0 R0]; [lia |]; generalize dependent (xrealloc junk b n); intros nb0 L0 R0;
    cbn [mbind option_bind]
  end.

Lemma combine_ok junk total cur toFree nextl off data dsz :
  combinable total cur toFree nextl off dsz -> dsz <= Zlen data ->
  let next := joins off dsz nextl in
  exists nb gain,
    DtlsMsgCombineFragBuckets true junk cur toFree nextl off data dsz =
      Some (Some (nb :: (match next with Some _ => tail nextl | None => nextl end), gain,
                  Zlen toFree + (match next with Some _ => 1 | None => 0 end))) /\
    bucket_ok nb /\ offset nb = Z.min (offset cur) off /\
    offset nb + sz nb = (match next with Some n => offset n + sz n | None => Z.max (offset cur + sz cur) (off + dsz) end) /\
    gain = u32 (sz nb - (sz cur + sizes toFree + (match next with Some n => sz n | None => 0 end))) /\
    forall p, offset nb <= p < offset nb + sz nb ->
      rd (buf nb) (p - offset nb) = joined_byte cur next off dsz data p.
Proof.
  intros C Hd next. pose proof (comb_cur _ _ _ _ _ _ C) as (O1 & O2 & O3).
  pose proof (comb_total _ _ _ _ _ _ C) as Ht. unfold small in Ht.
  destruct (comb_off _ _ _ _ _ _ C) as (D1 & D2 & D3), (comb_touch _ _ _ _ _ _ C) as (T1 & T2).
  pose proof (comb_more _ _ _ _ _ _ C) as T3. pose proof (comb_ends _ _ _ _ _ _ C) as Ee.
  apply Forall_cons in Ee as [Ec Ee]. apply Forall_app in Ee as [Ef _].
  assert (Fs : foldl (fun n b => n +u32 sz b) (sz cur) toFree = sz cur + sizes toFree /\ 0 <= sizes toFree < 2 ^ 24).
  { pose proof (comb_chain _ _ _ _ _ _ C) as Ch. apply chain_app in Ch as [Ch _].
    pose proof (chain_sizes _ total _ Ch Ef Ec). pose proof (Zlen_nonneg toFree).
    split; [apply foldl_sizes; [lia | eauto using chain_nonneg | lia] | lia]. }
  destruct Fs as [Fs Fb].
  unfold DtlsMsgCombineFragBuckets. rewrite Fs. cbn [negb]. unfold bucket_end.
  destruct nextl as [| n after]; [| destruct (next_after _ _ _ _ _ _ _ C) as (N1 & N2 & N3 & N4 & N5);
                                    pose proof (comb_next _ _ _ _ _ _ C) as N6; cbn in N6];
    cbn [head default from_option id joins] in *; u32s; [subst next | destruct (Z.leb_spec (offset n) (off + dsz)); subst next];
    cbn [c_bool negb orb andb].
  - grow. cmp; u32s; repeat copy; joined.
  - unfold id. destruct (Z.leb_spec (sz n) (sz cur)); grow; copy; cmp; u32s; repeat copy; joined.
  - unfold id. destruct (Z.leb_spec (offset n) (off + dsz)); [lia |]. grow. cmp; u32s; repeat copy; joined.
Qed.

(** ** Storing a fragment *)

Lemma sizes_app l k : sizes (l ++ k) = sizes l + sizes k.
Proof. unfold sizes. induction l as [| b l IH]; [reflexivity |]. cbn in *. rewrite IH. lia. Qed.

Lemma byte_at_app l k p : byte_at (l ++ k) p = match byte_at l p with Some x => Some x | None => byte_at k p end.
Proof. induction l as [| b l IH]; [reflexivity |]. cbn. now destruct (_ && _). Qed.

Lemma byte_at_below lo l p : chain lo l -> p <= lo -> byte_at l p = None.
Proof.
  revert lo. induction l as [| b l IH]; intros lo; [reflexivity |]. intros (? & ? & ? & C) Hp. cbn.
  destruct (Z.leb_spec (offset b) p); [lia |]. cbn. apply (IH _ C). lia.
Qed.

Lemma byte_at_beyond n l p : ends_by n l -> n <= p -> byte_at l p = None.
Proof.
  induction 1 as [| b l Hb _ IH]; intros Hp; [reflexivity |]. cbn.
  destruct (Z.ltb_spec p (offset b + sz b)); [lia |]. rewrite andb_false_r. now apply IH.
Qed.

Definition in_frag (off n p : Z) : Prop := off <= p < off + n.

(** What storing a fragment does to the bytes that have arrived. *)
Definition stored (l l' : list DtlsFragBucket) (off n : Z) (data : list Z) : Prop :=
  forall p,
    (in_frag off n p -> byte_at l' p = Some (rd data (p - off)) \/ is_Some (byte_at l p) /\ byte_at l' p = byte_at l p) /\
    (~ in_frag off n p -> byte_at l' p = byte_at l p).

Record store_ok (total : Z) (l : list DtlsFragBucket) : Prop := {
  store_chain : chain (-1) l;
  store_ends : ends_by total l;
  store_count : Zlen l <= DTLS_FRAG_POOL_SZ }.

Lemma find_bucket_spec fo fe prev l :
  exists p rest done, find_bucket fo fe prev l = (prev ++ p, rest, done) /\ l = p ++ rest /\
    (ends_by (2 ^ 31) l -> Forall (fun b => 0 <= offset b /\ 0 <= sz b) l ->
     Forall (fun b => offset b + sz b < fo) p /\
     match rest with
     | [] => done = false
     | cur :: _ => if done then offset cur <= fo /\ fe <= offset cur + sz cur
                   else fo <= offset cur + sz cur /\ (fo < offset cur \/ offset cur + sz cur < fe)
     end).
Proof.
  revert prev. induction l as [| b l IH]; intros prev; cbn [find_bucket].
  - exists [], [], false. rewrite app_nil_r. split; [reflexivity | split; [reflexivity |]]. auto.
  - assert (U : ends_by (2 ^ 31) (b :: l) -> Forall (fun b => 0 <= offset b /\ 0 <= sz b) (b :: l) ->
       offset b +u32 sz b = offset b + sz b).
    { intros [E _]%Forall_cons [P _]%Forall_cons. apply wrap_small. unfold is_word. lia. }
    destruct ((offset b <=? fo) && (fe <=? offset b +u32 sz b)) eqn:A.
    + exists [], (b :: l), true. rewrite app_nil_r. split; [reflexivity | split; [reflexivity |]].
      intros E P. rewrite (U E P) in A. apply andb_true_iff in A. split; [constructor | lia].
    + destruct (Z.leb_spec fo (offset b +u32 sz b)) as [B | B].
      * exists [], (b :: l), false. rewrite app_nil_r. split; [reflexivity | split; [reflexivity |]].
        intros E P. rewrite (U E P) in A, B. apply andb_false_iff in A. split; [constructor | lia].
      * destruct (IH (prev ++ [b])) as (p & rest & done & -> & -> & S). exists (b :: p), rest, done.
        rewrite <- app_assoc. split; [reflexivity | split; [reflexivity |]]. intros E P. rewrite (U E P) in B.
        apply Forall_cons in E as [_ E], P as [_ P]. destruct (S E P) as [F R]. split; [constructor; [lia | exact F] | exact R].
Qed.

Lemma skip_covered_spec fe passed l :
  exists p rest, skip_covered fe passed l = (passed ++ p, rest) /\ l = p ++ rest /\
    (ends_by (2 ^ 31) l -> Forall (fun b => 0 <= offset b /\ 0 <= sz b) l ->
     Forall (fun b => offset b + sz b <= fe) p /\
     match rest with [] => True | n :: _ => fe < offset n + sz n end).
Proof.
  revert passed. induction l as [| b l IH]; intros passed; cbn [skip_covered].
  - exists [], []. rewrite app_nil_r. auto.
  - assert (U : ends_by (2 ^ 31) (b :: l) -> Forall (fun b => 0 <= offset b /\ 0 <= sz b) (b :: l) ->
       offset b +u32 sz b = offset b + sz b).
    { intros [E _]%Forall_cons [P _]%Forall_cons. apply wrap_small. unfold is_word. lia. }
    destruct (Z.leb_spec (offset b +u32 sz b) fe) as [B | B].
    + destruct (IH (passed ++ [b])) as (p & rest & -> & -> & S). exists (b :: p), rest.
      rewrite <- app_assoc. split; [reflexivity | split; [reflexivity |]]. intros E P. rewrite (U E P) in B.
      apply Forall_cons in E as [_ E], P as [_ P]. destruct (S E P) as [F R]. split; [constructor; [lia | exact F] | exact R].
    + exists [], (b :: l). rewrite app_nil_r. split; [reflexivity | split; [reflexivity |]].
      intros E P. rewrite (U E P) in B. split; [constructor | exact B].
Qed.

Lemma chain_bounds lo l : -1 <= lo -> chain lo l -> Forall (fun b => 0 <= offset b /\ 0 <= sz b) l.
Proof.
  revert lo. induction l as [| b l IH]; intros lo Hl C; [constructor |]. destruct C as (? & ? & ? & C).
  constructor; [lia |]. eapply IH; [| exact C]. lia.
Qed.

Lemma chain_end_lt lo l n : lo < n -> Forall (fun b => offset b + sz b < n) l -> chain_end lo l < n.
Proof.
  unfold chain_end. revert lo. induction l as [| b l IH]; intros lo Hl F; [exact Hl |].
  apply Forall_cons in F as [Fb F]. now apply IH.
Qed.

(** The buckets around the place of a fragment. *)
Lemma insert_ok total prev rest off n data d :
  store_ok total (prev ++ rest) -> Zlen (prev ++ rest) < DTLS_FRAG_POOL_SZ ->
  0 <= off -> 0 <= n -> off + n <= total -> Zlen d = n -> (forall i, 0 <= i < n -> rd d i = rd data i) ->
  Forall (fun b => offset b + sz b < off) prev ->
  match rest with [] => True | b :: _ => off + n < offset b end ->
  store_ok total (prev ++ mkBucket off n d :: rest) /\
  stored (prev ++ rest) (prev ++ mkBucket off n d :: rest) off n data.
Proof.
  intros [C E K] Kn Ho Hn Ht Ld Rd Fp Hr. apply chain_app in C as [C1 C2]. apply Forall_app in E as [E1 E2].
  assert (Hb : chain (off + n) rest) by (destruct rest; cbn in *; tauto).
  split; [split |].
  - apply chain_app. split; [exact C1 |]. split; [apply chain_end_lt; [cbn; lia | exact Fp] |].
    cbn. auto.
  - apply Forall_app. split; [exact E1 | constructor; [exact Ht | exact E2]].
  - unfold Zlen in *. rewrite !length_app in *. cbn. lia.
  - intros p. rewrite !byte_at_app. cbn [byte_at offset sz buf]. unfold in_frag.
    assert (P1 : off <= p -> byte_at prev p = None).
    { intros Hp. eapply byte_at_beyond; [| exact Hp]. eapply Forall_impl; [exact Fp |]. cbn. intros; lia. }
    destruct (Z.leb_spec off p), (Z.ltb_spec p (off + n)); cbn [andb]; (split; [intros Hp; try lia | intros Hp; try lia; try reflexivity]).
    left. rewrite P1 by lia. f_equal. apply Rd. lia.
Qed.

Lemma chain_end_below lo n l : chain lo l -> chain_end lo l < n -> Forall (fun b => offset b + sz b < n) l.
Proof.
  intros C Hn. destruct (chain_end_bound _ _ C) as [F _]. eapply Forall_impl; [exact F |]. cbn. intros; lia.
Qed.

Lemma Forall_end_min l a b :
  Forall (fun x => offset x + sz x < a) l -> Forall (fun x => offset x + sz x < b) l ->
  Forall (fun x => offset x + sz x < Z.min a b) l.
Proof. intros F. induction F; intros G; [constructor |]. apply Forall_cons in G as [? G]. constructor; [lia | auto]. Qed.

#[local] Ltac bytes_at :=
  split; intros ?;
  repeat (cbn [andb];
    match goal with
    | Q : ?P -> byte_at ?l ?p = None |- context [byte_at ?l ?p] => rewrite Q by lia
    | |- context [?a <=? ?b] => destruct (Z.leb_spec a b); try lia
    | |- context [?a <? ?b] => destruct (Z.ltb_spec a b); try lia
    end);
  first [left; reflexivity | right; split; [eexists; reflexivity | reflexivity] | reflexivity | idtac].

Lemma join_ok total prev cur toFree nextl off n data nb gain :
  let l := prev ++ cur :: toFree ++ nextl in
  let next := joins off n nextl in
  let l' := prev ++ nb :: (match next with Some _ => tail nextl | None => nextl end) in
  store_ok total l -> combinable total cur toFree nextl off n ->
  Forall (fun b => offset b + sz b < off) prev ->
  bucket_ok nb -> offset nb = Z.min (offset cur) off ->
  offset nb + sz nb = (match next with Some n => offset n + sz n | None => Z.max (offset cur + sz cur) (off + n) end) ->
  gain = u32 (sz nb - (sz cur + sizes toFree + (match next with Some n => sz n | None => 0 end))) ->
  (forall p, offset nb <= p < offset nb + sz nb -> rd (buf nb) (p - offset nb) = joined_byte cur next off n data p) ->
  store_ok total l' /\ stored l l' off n data /\ sizes l +u32 gain = sizes l' /\
  Zlen l' = Zlen l - (Zlen toFree + match next with Some _ => 1 | None => 0 end).
Proof.
  intros l next l' S Co Fp (B1 & B2 & B3) Ob Eb Eg Hb.
  destruct S as [C E K]. unfold l in C, E, K. apply chain_app in C as [C1 (Cc & Cs & Cl & C2)].
  apply Forall_app in E as [E1 E2]. pose proof E2 as Ee. apply Forall_cons in Ee as [Ec Ee]. apply Forall_app in Ee as [Ef En].
  pose proof C2 as C2'. apply chain_app in C2' as [C3 C4]. destruct (chain_end_bound _ _ C3) as [F3 M3].
  destruct (comb_off _ _ _ _ _ _ Co) as (D1 & D2 & D3), (comb_touch _ _ _ _ _ _ Co) as (T1 & T2).
  pose proof (comb_total _ _ _ _ _ _ Co) as Ht. unfold small in Ht.
  set (rest := match next with Some _ => tail nextl | None => nextl end) in *.
  assert (N : match next with
              | Some n' => exists after, nextl = n' :: after /\ rest = after /\ chain_end (offset cur + sz cur) toFree < offset n' <= off + n /\
                             off + n < offset n' + sz n' /\ Zlen (buf n') = sz n'
              | None => rest = nextl /\ match nextl with [] => True | n' :: _ => off + n < offset n' end
              end).
  { unfold rest, next, joins. destruct nextl as [| n' after]; [auto |]. destruct (Z.leb_spec (offset n') (off + n)); [| split; auto].
    exists after. pose proof (comb_next _ _ _ _ _ _ Co) as H1. destruct C4 as (? & ? & ? & _). cbn in H1.
    split; [reflexivity | split; [reflexivity |]]. auto. }
  assert (P1 : forall p, offset nb <= p -> byte_at prev p = None).
  { intros p Hp. destruct (Z.le_gt_cases off p) as [Hq | Hq].
    - eapply byte_at_beyond; [| exact Hq]. eapply Forall_impl; [exact Fp |]. cbn. intros; lia.
    - destruct (chain_end_bound _ _ C1) as [F1 _]. eapply byte_at_beyond; [exact F1 |]. lia. }
  assert (R : chain (offset nb + sz nb) rest /\ ends_by total rest /\ offset nb + sz nb <= total /\
              sizes nextl = (match next with Some n' => sz n' | None => 0 end) + sizes rest /\
              Zlen nextl = (match next with Some _ => 1 | None => 0 end) + Zlen rest).
  { rewrite Eb. destruct next as [n' |].
    - destruct N as (after & -> & -> & _). apply Forall_cons in En as [En1 En2]. destruct C4 as (_ & _ & _ & C4).
      split; [exact C4 | split; [exact En2 | split; [exact En1 | split; [reflexivity |]]]]. unfold Zlen. cbn. lia.
    - destruct N as [-> N]. split; [| split; [exact En | split; [lia | split; [lia | lia]]]].
      destruct nextl as [| n' after]; [exact I |]. cbn in *. intuition lia. }
  destruct R as (R1 & R2 & R3 & R4 & R5).
  assert (S' : store_ok total l').
  { split.
    - apply chain_app. split; [exact C1 | split; [| auto]].
      apply chain_end_lt; [lia |]. rewrite Ob. apply Forall_end_min; [| exact Fp]. exact (chain_end_below _ _ _ C1 Cc).
    - apply Forall_app. split; [exact E1 | constructor; [exact R3 | exact R2]].
    - unfold l'. rewrite !Zlen_app, !Zlen_cons, Zlen_app in *. pose proof (Zlen_nonneg toFree). destruct next; lia. }
  split; [exact S' |]. split; [| split].
  - intros p. unfold l, l'. rewrite !byte_at_app. cbn [byte_at]. rewrite byte_at_app. unfold in_frag.
    destruct (Z.leb_spec (offset nb) p), (Z.ltb_spec p (offset nb + sz nb)); cbn [andb].
    + rewrite (P1 p) by assumption. rewrite Hb by lia. unfold joined_byte.
      assert (Lf : Forall (fun b => offset b + sz b <= off + n) toFree) by apply (comb_free _ _ _ _ _ _ Co).
      destruct next as [n' |].
      * destruct N as (after & -> & -> & N1 & N2 & N3). cbn [byte_at].
        assert (Q : offset n' <= p -> byte_at toFree p = None) by (intros Q; eapply byte_at_beyond; [exact F3 | lia]).
        bytes_at.
      * destruct N as [-> N]. bytes_at.
    + rewrite (P1 p) by assumption. assert (Q : chain_end (offset cur + sz cur) toFree <= p ->
        byte_at toFree p = None) by (intros Q; eapply byte_at_beyond; [exact F3 | exact Q]).
      assert (Lf : Forall (fun b => offset b + sz b <= off + n) toFree) by apply (comb_free _ _ _ _ _ _ Co).
      assert (Q' : off + n <= p -> byte_at toFree p = None)
        by (intros Q'; eapply byte_at_beyond; [exact Lf | exact Q']).
      destruct next as [n' |].
      * destruct N as (after & -> & -> & N1 & N2 & N3). cbn [byte_at]. bytes_at.
      * destruct N as [-> N]. bytes_at.
    + assert (Z1 : byte_at rest p = None) by (eapply byte_at_below; [exact R1 | lia]).
      assert (Z2 : byte_at toFree p = None) by (eapply byte_at_below; [exact C3 | lia]).
      assert (Z3 : byte_at nextl p = None) by (eapply byte_at_below; [exact C4 | lia]).
      rewrite Z1, Z2, Z3. bytes_at.
    + lia.
  - rewrite Eg, u32_add_r. unfold l, l'. rewrite !sizes_app. cbn [sizes foldr]. fold (sizes (toFree ++ nextl)) (sizes rest).
    rewrite sizes_app, R4. pose proof (chain_sizes (-1) total l' (store_chain _ _ S') (store_ends _ _ S') ltac:(lia)) as B.
    unfold l' in B. rewrite sizes_app in B. cbn [sizes foldr] in B. fold (sizes rest) in B. pose proof (Zlen_nonneg l').
    unfold l' in *. rewrite wrap_small by (unfold is_word; lia). lia.
  - unfold l, l'. rewrite !Zlen_app, !Zlen_cons, Zlen_app. lia.
Qed.

Lemma create_ok off data n : 0 <= n <= Zlen data ->
  exists d, DtlsMsgCreateFragBucket true off data n = Some (Some (mkBucket off n d)) /\
    Zlen d = n /\ forall i, 0 <= i < n -> rd d i = rd data i.
Proof.
  intros Hn. unfold DtlsMsgCreateFragBucket. cbn [negb].
  destruct (read_ok data 0 n) as (d & -> & L & R); [lia .. |]. exists d. auto.
Qed.

Lemma not_empty_app {A} (l k : list A) x : l ++ x :: k <> [].
Proof. now destruct l. Qed.

(** What a fragment in range does to well-formed buckets. *)
Definition fragment_effect (alloc : bool) (total : Z) (l : list DtlsFragBucket) (off n : Z) (data : list Z)
    (ret : Z) (l' : list DtlsFragBucket) : Prop :=
  store_ok total l' /\ (l <> [] -> l' <> []) /\
  (ret = DTLS_TOO_MANY_FRAGMENTS_E /\ l' = l /\ Zlen l = DTLS_FRAG_POOL_SZ \/
   ret = 0 /\ (alloc = false /\ l' = l \/ stored l l' off n data)).

Lemma stored_covered b p rest off n data :
  chain (-1) (p ++ b :: rest) -> offset b <= off -> off + n <= offset b + sz b ->
  stored (p ++ b :: rest) (p ++ b :: rest) off n data.
Proof.
  intros C Ho Hn q. split; [| reflexivity]. intros Q. right. split; [| reflexivity]. unfold in_frag in Q.
  rewrite byte_at_app. destruct (byte_at p q); [now eexists |]. cbn.
  destruct (Z.leb_spec (offset b) q), (Z.ltb_spec q (offset b + sz b)); try lia. now eexists.
Qed.

Lemma store_fragment_ok alloc junk total l data off n :
  store_ok total l -> small total -> 0 <= off -> 0 <= n -> off + n <= total -> n <= Zlen data ->
  exists ret l', store_fragment alloc junk l (sizes l) (Zlen l) data off n = Some (ret, l', sizes l', Zlen l') /\
    fragment_effect alloc total l off n data ret l'.
Proof.
  intros S Ht Ho Hn Hs Hd. pose proof S as [C E K]. unfold small in Ht.
  pose proof (chain_sizes (-1) total l C E ltac:(lia)) as Bs. pose proof (Zlen_nonneg l).
  unfold store_fragment. u32s.
  destruct (find_bucket_spec off (off + n) [] l) as (p & rest & done & -> & El & F). cbn [app].
  destruct F as [Fp Fr].
  { eapply Forall_impl; [exact E |]. cbn. intros; lia. }
  { eapply chain_bounds; [| exact C]. lia. }
  assert (Keep : forall a : bool, a = alloc -> a = false -> fragment_effect alloc total l off n data 0 l)
    by (intros a -> ->; split; [exact S | split; [auto | right; auto]]).
  destruct rest as [| cur after].
  - subst done. rewrite app_nil_r in El. subst p. destruct (Z.leb_spec DTLS_FRAG_POOL_SZ (Zlen l)).
    { exists DTLS_TOO_MANY_FRAGMENTS_E, l. split; [reflexivity | split; [exact S | split; [auto | left]]]. unfold DTLS_FRAG_POOL_SZ in *. repeat split; lia. }
    destruct alloc; [| exists 0, l; split; [reflexivity | eauto]].
    destruct (create_ok off data n) as (d & -> & Ld & Rd); [lia |]. cbn [mbind option_bind].
    destruct (insert_ok total l [] off n data d) as [S' St]; rewrite ?app_nil_r; auto.
    exists 0, (l ++ [mkBucket off n d]). rewrite app_nil_r in St. split; [| split; [exact S' | split; [intros _; apply not_empty_app | right; auto]]].
    rewrite sizes_app, Zlen_app. cbn [sizes foldr sz]. do 2 f_equal; [f_equal |]; rewrite ?wrap_small; unfold is_word, DTLS_FRAG_POOL_SZ in *;
      change (Zlen [mkBucket off n d]) with 1; lia.
  - destruct done.
    + exists 0, l. split; [reflexivity |]. split; [exact S | split; [auto | right; split; [reflexivity | right]]].
      subst l. now apply stored_covered.
    + destruct (Z.ltb_spec (off + n) (offset cur)) as [Lt | Ge].
      * destruct (Z.leb_spec DTLS_FRAG_POOL_SZ (Zlen l)).
        { exists DTLS_TOO_MANY_FRAGMENTS_E, l. split; [reflexivity | split; [exact S | split; [auto | left]]]. unfold DTLS_FRAG_POOL_SZ in *. repeat split; lia. }
        destruct alloc; [| exists 0, l; split; [reflexivity | eauto]].
        destruct (create_ok off data n) as (d & -> & Ld & Rd); [lia |]. cbn [mbind option_bind].
        subst l. destruct (insert_ok total p (cur :: after) off n data d) as [S' St]; auto.
        exists 0, (p ++ mkBucket off n d :: cur :: after). split; [| split; [exact S' | split; [intros _; apply not_empty_app | right; auto]]].
        rewrite !sizes_app, !Zlen_app, !Zlen_cons in *. cbn [sizes foldr sz] in *. fold (sizes after) in *. do 2 f_equal; [f_equal |];
          rewrite ?wrap_small; unfold is_word, DTLS_FRAG_POOL_SZ in *; lia.
      * pose proof C as C'. rewrite El in C'. apply chain_app in C' as [C1 (Cc & Cs & Cl & C2)].
        pose proof E as E'. rewrite El in E'. apply Forall_app in E' as [_ E2].
        apply Forall_cons in E2 as [Ec Ea].
        pose proof (chain_end_bound _ _ C1) as [_ M1].
        destruct (skip_covered_spec (off + n) [] after) as (toFree & nextl & -> & Ea' & Sk). cbn [app].
        destruct Sk as [Sf Sn].
        { eapply Forall_impl; [exact Ea |]. cbn. intros; lia. }
        { eapply chain_bounds; [| exact C2]. lia. }
        subst after. assert (Co : combinable total cur toFree nextl off n).
        { split; auto; [repeat split; auto; lia | split; lia | lia | now constructor]. }
        destruct alloc; [| exists 0, l; split; [reflexivity | eauto]].
        destruct (combine_ok junk total cur toFree nextl off data n Co Hd) as (nb & gain & -> & B & Ob & Eb & Eg & Rb).
        cbn [mbind option_bind]. rewrite El in S.
        destruct (join_ok total p cur toFree nextl off n data nb gain S Co Fp B Ob Eb Eg Rb) as (S' & St & Z1 & Z2).
        set (l' := p ++ nb :: _) in *. exists 0, l'.
        split; [| split; [exact S' | split; [intros _; unfold l'; apply not_empty_app | right; split; [reflexivity | right; now rewrite El]]]].
        rewrite <- El in Z1, Z2. rewrite Z1. do 2 f_equal.
        assert (Zlen l' = u8 (Zlen l - (Zlen toFree + match joins off n nextl with Some _ => 1 | None => 0 end))) as <-; [| reflexivity].
        rewrite <- Z2, wrap_small; [reflexivity |]. pose proof (store_count _ _ S'). pose proof (Zlen_nonneg l').
        unfold is_word, DTLS_FRAG_POOL_SZ in *. lia.
Qed.

(** ** A message *)

Lemma complete_one total l : store_ok total l -> small total -> sizes l = total -> l <> [] ->
  exists b, l = [mkBucket 0 total b] /\ Zlen b = total.
Proof.
  intros [C E _] Ht Hs Hn. unfold small in Ht. pose proof (chain_sizes (-1) total l C E ltac:(lia)) as B.
  destruct l as [| [o n b] [| b2 l]]; [contradiction | |]; [| rewrite !Zlen_cons in B; pose proof (Zlen_nonneg l); lia].
  destruct C as (C1 & C2 & C3 & _). apply Forall_cons in E as [E _]. cbn in *. exists b. split; [| lia].
  assert (o = 0) as -> by lia. assert (n = total) as -> by lia. reflexivity.
Qed.

Lemma covered_complete total l : store_ok total l -> small total -> l <> [] ->
  (forall p, 0 <= p < total -> is_Some (byte_at l p)) -> sizes l = total.
Proof.
  intros [C E _] Ht Hn Cv. unfold small in Ht. destruct l as [| b l]; [contradiction |].
  destruct C as (C1 & C2 & C3 & C). apply Forall_cons in E as [Eb E]. cbn [sizes foldr]. fold (sizes l).
  assert (O : offset b = 0).
  { destruct (Z.eq_dec (offset b) 0); [assumption |]. destruct (Cv 0 ltac:(lia)) as [x Hx]. cbn in Hx.
    destruct (Z.leb_spec (offset b) 0); [lia |]. cbn in Hx. rewrite (byte_at_below (offset b + sz b) l) in Hx by (auto; lia). discriminate. }
  assert (T : offset b + sz b = total).
  { destruct (Z.eq_dec (offset b + sz b) total); [assumption |]. destruct (Cv (offset b + sz b) ltac:(lia)) as [x Hx]. cbn in Hx.
    destruct (Z.ltb_spec (offset b + sz b) (offset b + sz b)); [lia |]. rewrite andb_false_r in Hx.
    rewrite (byte_at_below (offset b + sz b) l) in Hx by (auto; lia). discriminate. }
  pose proof (chain_sizes _ total l C E Eb). pose proof (Zlen_nonneg l). lia.
Qed.

Record msg_ok (m : DtlsMsg) : Prop := {
  msg_small : small (msz m);
  msg_state :
    if ready m then exists hdr b, full m = Some (hdr, b) /\ Zlen b = msz m
    else full m = None /\ store_ok (msz m) (fragBucketList m) /\
         fragBucketListCount m = Zlen (fragBucketList m) /\ bytesReceived m = sizes (fragBucketList m) /\
         (fragBucketList m <> [] -> bytesReceived m <> msz m) }.

(** The byte of the message at a position, if it has arrived. *)
Definition got (m : DtlsMsg) (p : Z) : option Z :=
  match full m with
  | Some (_, b) => if (0 <=? p) && (p <? msz m) then Some (rd b p) else None
  | None => byte_at (fragBucketList m) p
  end.

Definition header (m : DtlsMsg) : list Z :=
  mtype m :: Opaque.c32to24 (msz m) ++ Opaque.c16toa (u16 (mseq m)) ++ Opaque.c32to24 0 ++ Opaque.c32to24 (msz m).

(** Only a message that has nothing yet takes its identity from a fragment. *)
Definition same_message (m : DtlsMsg) (seq ep type : Z) : bool :=
  (mtype m =? no_shake) || ((mtype m =? type) && (epoch m =? ep) && (mseq m =? seq)).

Definition taken (m m' : DtlsMsg) (off n : Z) (data : list Z) : Prop :=
  forall p,
    (in_frag off n p -> got m' p = Some (rd data (p - off)) \/ is_Some (got m p) /\ got m' p = got m p) /\
    (~ in_frag off n p -> got m' p = got m p).

Lemma assemble_eq m b :
  fragBucketList m = [mkBucket 0 (msz m) b] -> fragBucketListCount m = 1 ->
  DtlsMsgAssembleCompleteMessage m =
  mkMsg (Some (header m, b)) [] (bytesReceived m) (epoch m) (mseq m) (msz m) (mtype m) 0 true (encrypted m).
Proof.
  intros El Ec. unfold DtlsMsgAssembleCompleteMessage. rewrite El, Ec. cbn [offset sz buf]. rewrite !Z.eqb_refl.
  destruct m. reflexivity.
Qed.

(** The message after its buckets changed. *)
Lemma finish_ok (m : DtlsMsg) l :
  small (msz m) -> ready m = false -> full m = None -> store_ok (msz m) l -> l <> [] ->
  fragBucketList m = l -> bytesReceived m = sizes l -> fragBucketListCount m = Zlen l ->
  let m' := if bytesReceived m =? msz m then DtlsMsgAssembleCompleteMessage m else m in
  msg_ok m' /\ (forall p, got m' p = byte_at l p) /\ msz m' = msz m /\ mtype m' = mtype m /\ mseq m' = mseq m /\ epoch m' = epoch m /\
  (ready m' = true <-> (forall p, 0 <= p < msz m -> is_Some (byte_at l p))) /\
  (ready m' = true -> exists b, full m' = Some (header m', b)).
Proof.
  intros Hm Hr Hf S Hl <- Br Bc. cbv zeta. destruct (Z.eqb_spec (bytesReceived m) (msz m)) as [Eq | Ne].
  - destruct (complete_one _ _ S Hm ltac:(congruence) Hl) as (b & El & Lb).
    rewrite (assemble_eq m b El) by (rewrite Bc, El; reflexivity). rewrite El.
    split; [split; [exact Hm |]; cbn [ready full msz]; eauto |].
    split; [intros p; unfold got; cbn -[rd]; rewrite ?Z.sub_0_r; reflexivity |].
    do 4 (split; [reflexivity |]). split; [split; [intros _ p Hp | auto] |].
    + cbn -[rd Z.add]. cmp. cbn [andb]. eexists. reflexivity.
    + intros _. exists b. reflexivity.
  - split; [split; [exact Hm | rewrite Hr; auto] |]. split; [intros p; unfold got; now rewrite Hf |].
    do 4 (split; [reflexivity |]). rewrite Hr. split; [| discriminate]. split; [discriminate |].
    intros Cv. destruct Ne. rewrite Br. now apply covered_complete.
Qed.

(** The message with the identity of its first fragment. *)
Definition adopt (m : DtlsMsg) (seq ep type : Z) (enc : bool) : DtlsMsg :=
  if negb (mtype m =? no_shake) then { m with encrypted := encrypted m && enc }
  else { { { { m with mtype := type } with epoch := ep } with mseq := seq } with encrypted := enc }.

Lemma adopt_rest m seq ep type enc :
  let m' := adopt m seq ep type enc in
  msz m' = msz m /\ ready m' = ready m /\ full m' = full m /\ fragBucketList m' = fragBucketList m /\
  bytesReceived m' = bytesReceived m /\ fragBucketListCount m' = fragBucketListCount m.
Proof. unfold adopt. destruct m as [? ? ? ? ? ? ty]. cbn. destruct (negb (ty =? no_shake)); cbn; auto 10. Qed.

Lemma adopt_identity m seq ep type enc : same_message m seq ep type = true ->
  let m' := adopt m seq ep type enc in mtype m' = type /\ mseq m' = seq /\ epoch m' = ep.
Proof.
  unfold same_message, adopt. destruct m as [? ? ? e s ? ty]. cbn. destruct (Z.eqb_spec ty no_shake); cbn; auto.
  rewrite !andb_true_iff, !Z.eqb_eq. tauto.
Qed.

(** The bucket list of a fragment that is taken. *)
Lemma put_ok (m : DtlsMsg) l :
  small (msz m) -> ready m = false -> full m = None -> store_ok (msz m) l -> l <> [] ->
  let m1 := { { { m with fragBucketList := l } with bytesReceived := sizes l } with fragBucketListCount := Zlen l } in
  let m' := if bytesReceived m1 =? msz m1 then DtlsMsgAssembleCompleteMessage m1 else m1 in
  msg_ok m' /\ (forall p, got m' p = byte_at l p) /\ msz m' = msz m /\ mtype m' = mtype m /\ mseq m' = mseq m /\ epoch m' = epoch m /\
  (ready m' = true <-> (forall p, 0 <= p < msz m -> is_Some (byte_at l p))) /\
  (ready m' = true -> exists b, full m' = Some (header m', b)).
Proof.
  intros Hm Hr Hf S Hl m1 m'.
  pose proof (finish_ok m1 l) as F. destruct m. apply F; auto.
Qed.

Lemma with_same (m : DtlsMsg) :
  { { { m with fragBucketList := fragBucketList m } with bytesReceived := bytesReceived m }
    with fragBucketListCount := fragBucketListCount m } = m.
Proof. now destruct m. Qed.

(** The message [m'] after a fragment of [m] in range. *)
Definition outcome (alloc : bool) (m : DtlsMsg) (seq ep type off n : Z) (data : list Z) (ret : Z) (m' : DtlsMsg) : Prop :=
  msg_ok m' /\ msz m' = msz m /\ mtype m' = type /\ mseq m' = seq /\ epoch m' = ep /\
  ((ret = DTLS_TOO_MANY_FRAGMENTS_E \/ alloc = false) /\ ready m' = false /\ (forall p, got m' p = got m p) \/
   ret = 0 /\ taken m m' off n data /\
   (ready m' = true <-> (forall p, 0 <= p < msz m -> is_Some (got m' p))) /\
   (ready m' = true -> exists b, full m' = Some (header m', b))).

Lemma DtlsMsgSet_ok alloc junk m seq ep data type off n totalLen enc :
  msg_ok m -> small off -> small n -> n <= Zlen data ->
  exists ret m', DtlsMsgSet alloc junk m seq ep data type off n totalLen enc = Some (ret, m') /\
    if negb ((msz m =? totalLen) && (off + n <=? totalLen)) then ret = BAD_FUNC_ARG /\ m' = m
    else if ready m then ret = 0 /\ m' = m
    else if negb (same_message m seq ep type) then ret = SEQUENCE_ERROR /\ m' = m
    else outcome alloc m seq ep type off n data ret m'.
Proof.
  intros Hm Ho Hn Hd. pose proof Hm as [Sm St]. unfold small in Sm, Ho, Hn.
  unfold DtlsMsgSet. u32s.
  rewrite negb_andb, Z.leb_antisym, negb_involutive.
  destruct (negb (msz m =? totalLen) || (totalLen <? off + n)) eqn:G; [exists BAD_FUNC_ARG, m; auto |].
  apply orb_false_iff in G as [G1 G2]. apply negb_false_iff, Z.eqb_eq in G1. apply Z.ltb_ge in G2. subst totalLen.
  destruct (ready m) eqn:Er; [exists 0, m; auto |]. destruct St as (Hf & So & Hc & Hb & Hne).
  assert (Same : negb (mtype m =? no_shake) && (negb (mtype m =? type) || negb (epoch m =? ep) || negb (mseq m =? seq))
                 = negb (same_message m seq ep type)) by (unfold same_message; destruct (_ =? no_shake), (_ =? type), (_ =? ep), (_ =? seq); reflexivity).
  rewrite Same. destruct (negb (same_message m seq ep type)) eqn:Es; [exists SEQUENCE_ERROR, m; auto |].
  apply negb_false_iff in Es.
  fold (adopt m seq ep type enc).
  destruct (adopt_rest m seq ep type enc) as (A1 & A2 & A3 & A4 & A5 & A6).
  destruct (adopt_identity m seq ep type enc Es) as (A7 & A8 & A9).
  set (a := adopt m seq ep type enc) in *.
  assert (Ga : forall p, got a p = got m p) by (intros p; unfold got; now rewrite A3, A1, A4).
  assert (Ha : msg_ok a) by (split; [now rewrite A1 | rewrite A2, Er, A3, A4, A5, A6, A1; auto]).
  assert (Gm : forall p, got m p = byte_at (fragBucketList m) p) by (intros p; unfold got; now rewrite Hf).
  assert (Take : forall l, store_ok (msz m) l -> l <> [] -> stored (fragBucketList m) l off n data ->
    let m1 := { { { a with fragBucketList := l } with bytesReceived := sizes l } with fragBucketListCount := Zlen l } in
    let m' := if bytesReceived m1 =? msz m1 then DtlsMsgAssembleCompleteMessage m1 else m1 in
    outcome alloc m seq ep type off n data 0 m').
  { intros l Sl Nl Sd m1 m'. destruct (put_ok a l) as (K1 & K2 & K3 & K4 & K5 & K6 & K7 & K8); rewrite ?A1, ?A2, ?A3; auto.
    fold m1 m' in K1, K2, K3, K4, K5, K6, K7, K8. split; [exact K1 | split; [congruence |]].
    do 3 (split; [congruence |]). right. split; [reflexivity |]. split; [| split; [| exact K8]].
    - intros p. rewrite !K2, !Gm. apply Sd.
    - rewrite K7, A1. split; intros C p Hp; [rewrite K2 | rewrite <- K2]; auto. }
  assert (Left : forall ret a', ret = DTLS_TOO_MANY_FRAGMENTS_E \/ alloc = false -> msg_ok a' -> msz a' = msz m ->
    mtype a' = type -> mseq a' = seq -> epoch a' = ep -> ready a' = false -> (forall p, got a' p = got m p) ->
    outcome alloc m seq ep type off n data ret a')
    by (intros; split; [assumption | split; [assumption |]]; auto 10).
  rewrite A4. destruct (fragBucketList m) as [| b0 l0] eqn:El.
  - destruct alloc.
    + destruct (create_ok off data n) as (d & -> & Ld & Rd); [lia |]. cbn [mbind option_bind].
      destruct (insert_ok (msz m) [] [] off n data d) as [S' St]; auto; try lia.
      { reflexivity. }
      eexists 0, _. split; [| exact (Take [mkBucket off n d] S' ltac:(discriminate) St)].
      rewrite A6, Hc. cbn [sizes foldr sz]. rewrite Z.add_0_r. reflexivity.
    + exists MEMORY_ERROR, a. split; [reflexivity |]. apply Left; auto; congruence.
  - destruct (store_fragment_ok alloc junk (msz m) (b0 :: l0) data off n) as (ret & l' & Es' & S' & Nl & Ef); auto; try lia.
    rewrite A5, A6, Hb, Hc, Es'. cbn [mbind option_bind]. specialize (Nl ltac:(discriminate)).
    destruct Ef as [(-> & -> & _) | (-> & [(-> & ->) | St])].
    + rewrite <- Hb, <- Hc, <- A4, <- A5, <- A6, with_same. exists DTLS_TOO_MANY_FRAGMENTS_E, a. split; [reflexivity |].
      apply Left; auto; congruence.
    + rewrite <- Hb, <- Hc, <- A4, <- A5, <- A6, with_same. exists 0, a. cbn [Z.eqb negb].
      rewrite A1, A5. destruct (Z.eqb_spec (bytesReceived m) (msz m)) as [Q |]; [now destruct (Hne ltac:(discriminate)) |].
      split; [reflexivity |]. apply Left; auto; congruence.
    + eexists 0, _. split; [reflexivity |]. exact (Take l' S' Nl St).
Qed.

(** [C17] Taking a fragment of a handshake message, whatever its offset,
    size and content and whatever the allocator answers: no byte outside a
    buffer is read or written, the buckets stay sorted, disjoint and at most
    ten, and the bytes held stay those received.  A fragment that does not
    fit the message, or belongs to another one, is refused without a trace; one
    that fits adds exactly its range (unless the pool is full or memory is
    short), where two fragments disagree one of the two bytes is kept; and the
    message is complete exactly when no byte is missing. *)
Theorem DtlsMsgSet_exact alloc junk m seq ep data type off n totalLen enc :
  msg_ok m -> small off -> small n -> n <= Zlen data ->
  exists ret m', DtlsMsgSet alloc junk m seq ep data type off n totalLen enc = Some (ret, m') /\
    if negb ((msz m =? totalLen) && (off + n <=? totalLen)) then ret = BAD_FUNC_ARG /\ m' = m
    else if ready m then ret = 0 /\ m' = m
    else if negb (same_message m seq ep type) then ret = SEQUENCE_ERROR /\ m' = m
    else outcome alloc m seq ep type off n data ret m'.
Proof. apply DtlsMsgSet_ok. Qed.

(** ** The store of messages *)

Section Store.
Implicit Types (m : DtlsMsg) (x : RxList).

Lemma find_spec acc head ep seq :
  match find_from acc head ep seq with
  | None => Forall (fun m => ~ (epoch m = ep /\ mseq m = seq)) head
  | Some (prev, m, rest) => exists p, prev = acc ++ p /\ head = p ++ m :: rest /\ epoch m = ep /\ mseq m = seq
  end.
Proof.
  revert acc. induction head as [| m l IH]; intros acc; cbn [find_from]; [constructor |].
  destruct (Z.eqb_spec (epoch m) ep), (Z.eqb_spec (mseq m) seq); cbn [negb andb].
  1: exists []; rewrite app_nil_r; auto.
  all: specialize (IH (acc ++ [m])); destruct (find_from _ l ep seq) as [[[prev m'] rest] |];
    [destruct IH as (p & -> & -> & ?); exists (m :: p); rewrite <- app_assoc; auto | constructor; [tauto | exact IH]].
Qed.

Lemma insert_elems head m (a : DtlsMsg) : a ∈ DtlsMsgInsert head m <-> a = m \/ a ∈ head.
Proof.
  assert (W : forall l, a ∈ insert_walk m l <-> a = m \/ a ∈ l).
  { induction l as [| c l IH]; cbn; [rewrite list_elem_of_singleton, elem_of_nil; tauto |].
    destruct (goes_before m c); rewrite !elem_of_cons, ?IH; rewrite ?elem_of_cons; tauto. }
  destruct head as [| h [| c l]]; cbn -[insert_walk]; [rewrite list_elem_of_singleton, elem_of_nil; tauto | |];
    destruct (goes_before m h); rewrite !elem_of_cons, ?W, ?elem_of_cons, ?elem_of_nil; tauto.
Qed.

(** [DtlsMsgInsert] puts the message before the first one it goes before. *)
Lemma insert_eq head m : DtlsMsgInsert head m = insert_walk m head.
Proof. destruct head as [| h [| c l]]; cbn; [reflexivity | |]; now destruct (goes_before m h). Qed.

Definition key m : Z * Z := (epoch m, mseq m).

Definition key_before (a b : Z * Z) : bool := (a.1 <=? b.1) && (a.2 <? b.2).

(** The list holds each message once, and none behind one it goes before. *)
Record listed (l : list DtlsMsg) : Prop := {
  listed_ok : Forall msg_ok l;
  listed_once : NoDup (key <$> l);
  listed_order : StronglySorted (fun a b => key_before b a = false) (key <$> l) }.

Lemma insert_key_elem head m k : k ∈ key <$> DtlsMsgInsert head m <-> k = key m \/ k ∈ key <$> head.
Proof.
  rewrite !list_elem_of_fmap. setoid_rewrite insert_elems. split.
  - intros (a & -> & [-> | Ha]); eauto.
  - intros [-> | (a & -> & Ha)]; eauto.
Qed.

Lemma insert_listed head m : listed head -> msg_ok m -> ~ (key m ∈ key <$> head) -> listed (DtlsMsgInsert head m).
Proof.
  intros [Lo L1 Lr] Hm Hn. rewrite insert_eq. split.
  - apply Forall_forall. intros a Ha. rewrite <- insert_eq in Ha. apply insert_elems in Ha as [-> | Ha]; [exact Hm |].
    exact (proj1 (Forall_forall _ _) Lo _ Ha).
  - clear Lo Lr. induction head as [| h l IH]; cbn [insert_walk fmap list_fmap] in *; [apply NoDup_singleton |].
    apply not_elem_of_cons in Hn as [Hn1 Hn2]. destruct (goes_before m h); [constructor; [apply not_elem_of_cons |]; auto |].
    apply NoDup_cons in L1 as [L1 L2]. constructor; [| now apply IH].
    rewrite <- insert_eq. rewrite insert_key_elem. intros [E | E]; [now destruct Hn1 | now destruct L1].
  - clear Lo L1 Hn. induction head as [| h l IH]; cbn [insert_walk fmap list_fmap] in *; [repeat constructor |].
    apply StronglySorted_cons in Lr as [F S]. destruct (goes_before m h) eqn:G.
    + cbn. apply StronglySorted_cons. split; [| apply StronglySorted_cons; auto].
      constructor; [unfold key_before, goes_before, key in *; cbn; lia |].
      eapply Forall_impl; [exact F |]. unfold key_before, goes_before, key in *. cbn. intros a Ha. lia.
    + cbn. apply StronglySorted_cons. split; [| now apply IH]. apply Forall_forall. intros k Hk.
      rewrite <- insert_eq in Hk. apply insert_key_elem in Hk as [-> | Hk]; [exact G |].
      exact (proj1 (Forall_forall _ _) F _ Hk).
Qed.

Lemma new_msg_ok n : small n -> msg_ok (DtlsMsgNew n).
Proof.
  intros Hn. split; [exact Hn |]. cbn. split; [reflexivity | split; [| split; [reflexivity | split; [reflexivity | now intros []]]]].
  split; cbn; [exact I | constructor | unfold Zlen, DTLS_FRAG_POOL_SZ; cbn; lia].
Qed.

Lemma set_key alloc junk m seq ep data type off n total enc ret m' :
  msg_ok m -> small off -> small n -> n <= Zlen data -> key m = (ep, seq) ->
  DtlsMsgSet alloc junk m seq ep data type off n total enc = Some (ret, m') -> msg_ok m' /\ key m' = key m.
Proof.
  intros Hm Ho Hn Hd [= <- <-] E.
  destruct (DtlsMsgSet_ok alloc junk m (mseq m) (epoch m) data type off n total enc Hm Ho Hn Hd) as (r & m2 & E2 & O).
  rewrite E in E2. injection E2 as <- <-.
  destruct (negb _); [destruct O as [_ ->]; auto |]. destruct (ready m); [destruct O as [_ ->]; auto |].
  destruct (negb _); [destruct O as [_ ->]; auto |].
  destruct O as (O1 & _ & _ & O2 & O3 & _). split; [exact O1 |]. unfold key. congruence.
Qed.

(** Storing a fragment changes at most the message it belongs to. *)
Lemma store_listed new alloc junk x ep seq data size type off n enc :
  listed (rx_list x) -> small size -> small off -> small n -> n <= Zlen data ->
  exists x', DtlsMsgStore new alloc junk x ep seq data size type off n enc = Some x' /\
    listed (rx_list x') /\
    (forall a, a ∈ rx_list x' -> a ∈ rx_list x \/
      exists m ret, (m ∈ rx_list x /\ key m = (ep, seq) \/ m = DtlsMsgNew size /\ 0 <= ret) /\
        DtlsMsgSet alloc junk m seq ep data type off n size enc = Some (ret, a)).
Proof.
  intros L Hs Ho Hn Hd. pose proof L as [Lo L1 Lr]. unfold DtlsMsgStore, DtlsMsgFind.
  pose proof (find_spec [] (rx_list x) ep seq) as F.
  destruct (find_from [] (rx_list x) ep seq) as [[[prev m] rest] |].
  - destruct F as (p & -> & E & E1 & E2). cbn [app].
    assert (Hm : m ∈ rx_list x) by (rewrite E; apply elem_of_app; right; now left).
    assert (Om : msg_ok m) by exact (proj1 (Forall_forall _ _) Lo _ Hm).
    assert (Km : key m = (ep, seq)) by (unfold key; congruence).
    destruct (DtlsMsgSet_ok alloc junk m seq ep data type off n size enc Om Ho Hn Hd) as (ret & m' & Es & _).
    destruct (set_key _ _ _ _ _ _ _ _ _ _ _ _ _ Om Ho Hn Hd Km Es) as [Om' Km']. rewrite Es. cbn [mbind option_bind snd].
    eexists. split; [reflexivity |].
    assert (Ek : key <$> p ++ m' :: rest = key <$> rx_list x) by (rewrite E, !fmap_app; cbn; now rewrite Km').
    replace (rx_list { x with rx_list := p ++ m' :: rest }) with (p ++ m' :: rest) by (destruct x; reflexivity).
    split; [split |].
    + rewrite E in Lo. apply Forall_app in Lo as [Lp Lm]. apply Forall_cons in Lm as [_ Lm].
      apply Forall_app. split; [exact Lp | now constructor].
    + now rewrite Ek.
    + now rewrite Ek.
    + intros a Ha. apply elem_of_app in Ha as [Ha | Ha]; [left; rewrite E; apply elem_of_app; auto |].
      apply elem_of_cons in Ha as [-> | Ha]; [right; exists m, ret; auto |].
      left. rewrite E. apply elem_of_app. right. now right.
  - destruct new; cbn [negb].
    + pose proof (new_msg_ok size Hs) as Om.
      destruct (DtlsMsgSet_ok alloc junk (DtlsMsgNew size) seq ep data type off n size enc Om Ho Hn Hd) as (ret & m' & Es & O).
      rewrite Es. cbn [mbind option_bind fst snd]. eexists. split; [reflexivity |].
      destruct (Z.ltb_spec ret 0) as [Lt | Ge]; [split; [exact L | auto] |].
      assert (Omk : msg_ok m' /\ key m' = (ep, seq)).
      { revert O. cbn [msz ready DtlsMsgNew]. rewrite Z.eqb_refl. cbn [andb].
        destruct (negb (off + n <=? size)); [intros [-> _]; unfold BAD_FUNC_ARG in Ge; lia |].
        change (same_message (DtlsMsgNew size) seq ep type) with true. cbn [negb].
        intros (O1 & _ & _ & O2 & O3 & _). split; [exact O1 | unfold key; congruence]. }
      destruct Omk as [Om' Km']. cbn [rx_list]. split.
      * apply insert_listed; auto. rewrite Km', list_elem_of_fmap. intros (a & Ka & Ia).
        apply (proj1 (Forall_forall _ _) F _ Ia). unfold key in Ka. now injection Ka as -> ->.
      * intros a Ha. apply insert_elems in Ha as [-> | Ha]; [right | left; exact Ha].
        exists (DtlsMsgNew size), ret. auto.
    + eexists. split; [reflexivity |]. destruct x. cbn. auto.
Qed.
End Store.

(** Two fragments that overlap, the second before the first. *)
Lemma DtlsMsgSet_exact_witness :
  let m1 := mkMsg None [mkBucket 2 3 [3; 4; 5]] 3 1 7 5 certificate 1 false false in
  exists m2, DtlsMsgSet true (fun _ => 0) m1 7 1 [1; 2; 3] certificate 0 3 5 false = Some (0, m2) /\
    msg_ok m2 /\ ready m2 = true /\ full m2 = Some ([11; 0; 0; 5; 0; 7; 0; 0; 0; 0; 0; 5], [1; 2; 3; 4; 5]).
Proof.
  intros m1. destruct (DtlsMsgSet_exact true (fun _ => 0) m1 7 1 [1; 2; 3] certificate 0 3 5 false) as (ret & m2 & E & O).
  - split; [split; cbn; lia |]. cbn. split; [reflexivity | split; [| split; [reflexivity | split; [reflexivity | lia]]]].
    split; [cbn; repeat split; lia | repeat constructor; cbn; lia | unfold Zlen, DTLS_FRAG_POOL_SZ; cbn; lia].
  - split; lia.
  - split; lia.
  - unfold Zlen. cbn. lia.
  - exists m2. assert (E' := E). vm_compute in E. injection E as <- Em. split; [exact E' |].
    split; [exact (proj1 O) |]. subst m2. split; reflexivity.
Defined.
