(* ===== verification/DtlsRecv.v ===== *)
(** * src/dtls13.c: receiving the fragments of DTLS 1.3 handshake messages

    [_Dtls13HandshakeRecv] takes one fragment off the wire: it drops what is
    a retransmission, processes a message that arrives whole and in order at
    once, and leaves everything else to reassembly (DtlsFrag), from where
    [Dtls13ProcessBufferedMessages] takes the messages that have become due.

    What the file owns is the number of the message expected next and the
    list of stored messages; the rest of the connection ([Rest]) is seen
    through the class [Connection], whose operations stand for the parts of
    the handshake that are modelled elsewhere or not at all: the early checks,
    the handler of a complete message, alerts and the cookie check. *)

From S2P Require Import Prelude Misc W64 DtlsWindow Tls Dtls13Epoch DtlsCid Dtls13Record Dtls13Ack DtlsFrag.
From stdpp Require Import list sorting.
From Stdlib Require Import Bool.

#[local] Open Scope Z_scope.
#[local] Open Scope cword_scope.

Definition TLS13_ACCEPT_FIRST_REPLY_DONE : Z := 4.
Definition HANDSHAKE_SIZE_ERROR : Z := -404.
Definition WC_PENDING_E : Z := -108.
Definition WOLFSSL_FATAL_ERROR : Z := -1.

(** The options and counters the code reads. *)
Record Options := mkOptions {
  tls13 : bool;                      (* IsAtLeastTLSv1_3(ssl->version) *)
  curRLMajor : Z; curRLMinor : Z; versionMajor : Z; versionMinor : Z;
  acceptState : Z; oconnectState : Z; oserverState : Z;
  dtlsStateful : bool; dtls13ChFrag : bool; seenUnifiedHdr : bool; dtls13SendMoreAcks : bool;
  downgrade : bool; minDowngrade : Z;
  encryptionOn : bool;               (* IsEncryptionOn(ssl, 0) *)
  decryptedCur : bool; asyncDevice : bool }.

Section Recv.
Context {T : Type} `{W64 T} {A : Type}.

(** The rest of the connection: [appData] is what no code here looks at. *)
Record Rest := mkRest {
  opts : Options; dtls : Dtls13 (T := T); rtxq : Dtls13Rtx T; savedHello : option (list Z);
  txList : list DtlsMsg; appData : A }.

Record Recv := mkRecv {
  rest : Rest; expected : Z; peerNumber : Z; ownNumber : Z; rx : RxList }.

Class Connection := {
  MAX_HANDSHAKE_SZ : Z;
  (** [EarlySanityCheckMsgReceived] *)
  early_sanity : Rest -> Z -> Z -> Z * Rest;
  (** [MsgCheckEncryption] *)
  check_encryption : Rest -> Z -> bool -> Z;
  send_alert : Rest -> Z -> Z -> Rest;
  (** [DoTls13HandShakeMsgType] on a message of a type; [DoHandShakeMsgType],
      which counts the messages itself and so takes and returns [expected].
      The second component is how far the handler moved the index. *)
  do_tls13 : Rest -> Z -> list Z -> Z * Z * Rest;
  do_tls12 : Rest -> Z -> Z -> list Z -> Z * Z * Rest * Z;
  (** [DoClientHelloStateless]: the code and [tls13] *)
  stateless_hello : Rest -> list Z -> Z * bool * Rest;
  chGoodCb : option (Rest -> Z * Rest) }.
Context `{Connection}.

(** ** The handshake header *)

(** The code, and type, size, message number, fragment offset and length. *)
Definition GetDtlsHandShakeHeader (o : Options) (input : list Z) : Z * option (Z * Z * Z * Z * Z) :=
  if Zlen input <? DTLS_HANDSHAKE_HEADER_SZ then (BUFFER_E, None)
  else
    let type := rd input 0 in
    let h := (type, Opaque.c24to32 (drop 1 input), Opaque.ato16 (drop 4 input), Opaque.c24to32 (drop 6 input),
              Opaque.c24to32 (drop 9 input)) in
    if negb (curRLMajor o =? versionMajor o) ||
       (negb (tls13 o) && negb (curRLMinor o =? versionMinor o)) ||
       (tls13 o && negb (curRLMinor o =? DTLSv1_2_MINOR)) then
      if negb (type =? client_hello) && negb (type =? hello_verify_request) && negb (type =? server_hello)
      then (VERSION_ERROR, Some h) else (0, Some h)
    else (0, Some h).

(** ** Acknowledgement and retransmission on receipt *)

Definition Dtls13RtxMsgNeedsAck (sd hs : Z) : bool :=
  ((sd =? WOLFSSL_SERVER_END) && (hs =? finished)) || (hs =? session_ticket) || (hs =? key_update) ||
  (hs =? request_connection_id) || (hs =? new_connection_id).

Definition Dtls13MsgWasProcessed (s : Recv) (hs : Z) : Recv :=
  let s := if dtlsStateful (opts (rest s)) then { s with expected := u16 (expected s + 1) } else s in
  { s with rest := { rest s with rtxq := { rtxq (rest s) with
      sendAcks := Dtls13RtxMsgNeedsAck (Dtls13Epoch.side (dtls (rest s))) hs } } }.

Definition Dtls13DetectDisruption (s : Recv) (fragOffset : Z) : bool :=
  if peerNumber s <? expected s then false
  else if expected s <? peerNumber s then true
  else if fragOffset =? 0 then false
  else
    match rx_list (rx s) with
    | [] => true
    | m :: _ =>
        match last (fragBucketList m) with
        | Some b => negb (offset b +u32 sz b =? fragOffset)
        | None => false
        end
    end.

Definition DtlsMsgPoolReset (r : Rest) : Rest :=
  { { r with txList := [] } with rtxq := Dtls13RtxFlushBuffered (rtxq r) true }.

Definition Dtls13RtxMsgRecvd (s : Recv) (hs fragOffset : Z) : Recv :=
  let o := opts (rest s) in
  let s :=
    if negb (handShakeDone (dtls (rest s))) && (expected s <=? peerNumber s) then
      let r := rest s in
      let r := if hs =? server_hello then
                 let '(q, saved) := Dtls13SaveOrFlushClientHello (rtxq r) (Dtls13Epoch.side (dtls r)) (oconnectState o)
                                      (downgrade o) (minDowngrade o) (savedHello r) in
                 { { r with rtxq := q } with savedHello := saved }
               else r in
      let r := if (SERVER_HELLO_COMPLETE <=? oserverState o) || seenUnifiedHdr o then DtlsMsgPoolReset r else r in
      { s with rest := r }
    else s in
  let s :=
    if peerNumber s <? expected s then
      let q := { rtxq (rest s) with retransmit := true } in
      let q := match seenRecords q with [] => q | _ => { q with sendAcks := true } end in
      { s with rest := { rest s with rtxq := q } }
    else s in
  let s :=
    if (peerNumber s =? expected s) && handShakeDone (dtls (rest s)) && (hs =? certificate_request) then
      { s with rest := { rest s with rtxq := Dtls13RtxRemoveCurAck (rtxq (rest s)) (curEpoch64 (dtls (rest s)))
                                               (curSeq (dtls (rest s))) } }
    else s in
  if dtls13SendMoreAcks o && Dtls13DetectDisruption s fragOffset
  then { s with rest := { rest s with rtxq := { rtxq (rest s) with sendAcks := true } } } else s.

Definition Dtls13AcceptFragmented (r : Rest) (type : Z) : bool :=
  encryptionOn (opts r) ||
  ((Dtls13Epoch.side (dtls r) =? WOLFSSL_CLIENT_END) && (type =? server_hello)) ||
  ((Dtls13Epoch.side (dtls r) =? WOLFSSL_SERVER_END) && (type =? client_hello) &&
   dtls13ChFrag (opts r) && dtlsStateful (opts r)).

(** ** The messages that are due *)

Definition Dtls13NextMessageComplete (s : Recv) : bool :=
  match rx_list (rx s) with
  | [] => false
  | m :: _ => ready m && (mseq m =? expected s)
  end.

(** The bytes from [fullMsg] on. *)
Definition fullMsg (m : DtlsMsg) : list Z := default [] (snd <$> full m).

Definition drop_head (s : Recv) : Recv :=
  { s with rx := mkRx (tail (rx_list (rx s))) (rx_sz (rx s) -u32 1) (rx_error (rx s)) }.

(** One message; [true]: go on with the next.  The last component is the
    message, if it counts as processed. *)
Definition process_one (s : Recv) (m : DtlsMsg) : Z * Recv * bool * list (Z * Z * list Z) :=
  if negb (expected s =? mseq m) then (0, s, false, [])
  else if negb (ready m) then (0, s, false, [])
  else
    let ret := check_encryption (rest s) (mtype m) (encrypted m) in
    if negb (ret =? 0) then (ret, { s with rest := send_alert (rest s) alert_fatal unexpected_message }, false, [])
    else
      let was13 := tls13 (opts (rest s)) in
      let '(ret, _, r, n) := if was13 then (do_tls13 (rest s) (mtype m) (fullMsg m), expected s)
                          else do_tls12 (rest s) (expected s) (mtype m) (fullMsg m) in
      let s := { { s with rest := r } with expected := n } in
      let now13 := tls13 (opts r) in
      if (ret =? 0) || (ret =? WANT_WRITE) ||
         ((mtype m =? certificate_request) && handShakeDone (dtls r) && (ret =? WC_PENDING_E)) then
        let s := if now13 then Dtls13MsgWasProcessed s (mtype m)
                 else if was13 then { s with expected := u16 (expected s + 1) } else s in
        (ret, drop_head s, ret =? 0, [(mseq m, mtype m, fullMsg m)])
      else (ret, s, false, []).

(** The loop ends because every round takes a message off the list. *)
Fixpoint process_loop (l : list DtlsMsg) (s : Recv) : Z * Recv * list (Z * Z * list Z) :=
  match l with
  | [] => (0, s, [])
  | m :: l =>
      let '(ret, s, more, out) := process_one s m in
      if more then let '(ret, s, out') := process_loop l s in (ret, s, out ++ out') else (ret, s, out)
  end.

Definition Dtls13ProcessBufferedMessages (s : Recv) : Z * Recv * list (Z * Z * list Z) :=
  process_loop (rx_list (rx s)) s.

(** ** One fragment *)

(** What the allocator does for one fragment: [DtlsMsgNew], the buckets, and
    what grown memory holds. *)
Record Memory := mkMemory { newMsg : bool; newBucket : bool; junk : nat -> Z }.

(** [input] is what is left of the record.  The code, [*processedSize], the
    state and the messages processed; [None] is an access outside a buffer. *)
Definition _Dtls13HandshakeRecv (mem : Memory) (s : Recv) (input : list Z)
    : option (Z * Z * Recv * list (Z * Z * list Z)) :=
  let size := Zlen input in
  match GetDtlsHandShakeHeader (opts (rest s)) input with
  | (_, None) => Some (PARSE_ERROR, 0, s, [])
  | (ret, Some (type, messageLength, number, fragOff, fragLength)) =>
      let s := { s with peerNumber := number } in
      let idx := DTLS_HANDSHAKE_HEADER_SZ in
      let processed := idx +u32 fragLength in
      if negb (ret =? 0) then Some (PARSE_ERROR, 0, s, [])
      else
      let '(ret, r) := early_sanity (rest s) type processed in
      let s := { s with rest := r } in
      if negb (ret =? 0) then Some (ret, 0, s, [])
      else
      let '(ret, alerts) := Dtls13CheckEpoch (tls13 (opts r)) (dtls r) (oserverState (opts r)) type in
      let s := { s with rest := foldl (fun r '(lvl, d) => send_alert r lvl d) (rest s) alerts } in
      if negb (ret =? 0) then Some (ret, 0, s, [])
      else
      let o := opts (rest s) in
      let first := (Dtls13Epoch.side (dtls (rest s)) =? WOLFSSL_SERVER_END) &&
                   (acceptState o <? TLS13_ACCEPT_FIRST_REPLY_DONE) in
      if first && negb (type =? client_hello) then Some (0, size, s, [])
      else
      let s := if first && negb (dtlsStateful o) then
                 let d := dtls (rest s) in
                 { { { s with expected := peerNumber s } with ownNumber := peerNumber s }
                   with rest := { rest s with dtls := set_epoch d 0 (fun e => { e with nextSeqNumber := curSeq d }) } }
               else s in
      if size <? processed then Some (INCOMPLETE_DATA, 0, s, [])
      else if MAX_HANDSHAKE_SZ <? messageLength then
        if encryptionOn o then Some (HANDSHAKE_SIZE_ERROR, 0, s, []) else Some (0, processed, s, [])
      else if messageLength <? (fragOff +u32 fragLength) then Some (BUFFER_ERROR, 0, s, [])
      else
      let s := Dtls13RtxMsgRecvd s type fragOff in
      if peerNumber s <? expected s then Some (0, processed, s, [])
      else
      let isFirst := fragOff =? 0 in
      let isComplete := isFirst && (fragLength =? messageLength) in
      let body := drop (Z.to_nat idx) input in
      (* [inl]: what is returned at once; [inr]: go on *)
      let accept :=
        if negb isComplete && negb (Dtls13AcceptFragmented (rest s) type) then
          let o := opts (rest s) in
          if dtls13ChFrag o && negb (dtlsStateful o) && isFirst && (type =? client_hello) then
            let '(ret, is13, r) := stateless_hello (rest s) (take (Z.to_nat fragLength) body) in
            let s := { s with rest := r } in
            if (ret =? 0) && is13 then
              match chGoodCb with
              | None => inr s
              | Some cb =>
                  let '(cbret, r) := cb (rest s) in
                  if cbret <? 0 then inl (WOLFSSL_FATAL_ERROR, 0, { s with rest := r }) else inr { s with rest := r }
              end
            else inl (0, processed, s)
          else inl (0, processed, s)
        else inr s in
      match accept with
      | inl (ret, n, s) => Some (ret, n, s, [])
      | inr s =>
          if negb isComplete || (expected s <? peerNumber s) || asyncDevice (opts (rest s)) then
            if rx_sz (rx s) <? DTLS_POOL_SZ then
              x ← DtlsMsgStore (newMsg mem) (newBucket mem) (junk mem) (rx s)
                    (u16 (w64GetLow32 (curEpoch64 (dtls (rest s))))) (peerNumber s) body messageLength type
                    fragOff fragLength (decryptedCur (opts (rest s)));
              let s := { s with rx := x } in
              if Dtls13NextMessageComplete s
              then let '(ret, s, out) := Dtls13ProcessBufferedMessages s in Some (ret, processed, s, out)
              else Some (0, processed, s, [])
            else Some (DTLS_TOO_MANY_FRAGMENTS_E, 0, s, [])
          else
            msg ← mem_read body 0 messageLength;
            let '(ret, moved, r) := do_tls13 (rest s) type msg in
            let s := { s with rest := r } in
            if negb (ret =? 0) then Some (ret, idx +u32 moved, s, [])
            else
              let out := [(peerNumber s, type, msg)] in
              let s := Dtls13MsgWasProcessed s type in
              if Dtls13NextMessageComplete s
              then let '(ret, s, out') := Dtls13ProcessBufferedMessages s in
                   Some (ret, idx +u32 moved, s, out ++ out')
              else Some (0, idx +u32 moved, s, out)
      end
  end.
End Recv.

(** ** In order, once, and unchanged *)

Section Delivery.
Context {T : Type} `{W64 T} {A : Type} `{C : Connection (T := T) (A := A)}.
Implicit Types (s : Recv (T := T) (A := A)) (r : Rest (T := T) (A := A)) (m : DtlsMsg).

(** The messages of the peer, by number: epoch, type and bytes. *)
Variable peer : Z -> option (Z * Z * list Z).

(** The peer's messages have numbers below 2^16 - 1, and their bytes fit the
    24-bit length. *)
Hypothesis peer_number : forall n, is_Some (peer n) -> 0 <= n < 65535.

(** What the handlers leave alone: the connection stays one of DTLS 1.3 in
    its stateful part, and the epoch of the record is not theirs. *)
Definition stays r : Prop := tls13 (opts r) = true /\ dtlsStateful (opts r) = true.

Definition leaves r r' : Prop :=
  (stays r -> stays r') /\ curEpoch64 (dtls r') = curEpoch64 (dtls r).

Class Handlers : Prop := {
  early_sanity_leaves r t n : leaves r (early_sanity r t n).2;
  send_alert_leaves r l d : leaves r (send_alert r l d);
  do_tls13_stays r t msg : stays r -> stays (do_tls13 r t msg).2;
  stateless_hello_leaves r h : leaves r (stateless_hello r h).2;
  chGoodCb_leaves cb r : chGoodCb = Some cb -> leaves r (cb r).2 }.
Context `{Handlers}.

(** A stored message of which every byte is one of the peer's message. *)
Definition of_peer m : Prop :=
  exists ty body, peer (mseq m) = Some (epoch m, ty, body) /\ mtype m = ty /\ msz m = Zlen body /\
    forall p v, got m p = Some v -> v = rd body p.

(** A record of epoch [ep] that holds a fragment of a message of the peer, of
    any length and offset. *)
Definition fragment_of_peer (ep : Z) (input : list Z) : Prop :=
  exists body, peer (Opaque.ato16 (drop 4 input)) = Some (ep, rd input 0, body) /\
    Opaque.c24to32 (drop 1 input) = Zlen body /\
    forall i, 0 <= i < Opaque.c24to32 (drop 9 input) -> rd input (12 + i) = rd body (Opaque.c24to32 (drop 6 input) + i).

(** [out]: the messages with numbers from [e] on, up to [e']. *)
Definition delivers (e : Z) (out : list (Z * Z * list Z)) (e' : Z) : Prop :=
  e' = e + Zlen out /\
  forall i x, out !! i = Some x -> exists ep ty body, peer (e + Z.of_nat i) = Some (ep, ty, body) /\ x = (e + Z.of_nat i, ty, body).

Lemma delivers_nil e : delivers e [] e.
Proof. split; [unfold Zlen; cbn; lia | intros i x Hx; discriminate]. Qed.

Lemma delivers_one e ep ty body : peer e = Some (ep, ty, body) -> delivers e [(e, ty, body)] (e + 1).
Proof.
  intros Hp. split; [reflexivity |]. intros [| i] x Hx; [| discriminate]. injection Hx as <-.
  rewrite Z.add_0_r. eauto.
Qed.

Lemma delivers_app e o e1 o' e2 : delivers e o e1 -> delivers e1 o' e2 -> delivers e (o ++ o') e2.
Proof.
  intros [-> D1] [-> D2]. split; [rewrite Zlen_app; lia |]. intros i x Hx. apply lookup_app_Some in Hx as [Hx | [Hi Hx]]; [eauto |].
  destruct (D2 _ _ Hx) as (ep & ty & body & E & ->). exists ep, ty, body. unfold Zlen in *.
  replace (e + Z.of_nat i) with (e + Z.of_nat (length o) + Z.of_nat (i - length o)) by lia. auto.
Qed.

(** What every step of reassembly preserves: the store is well-formed, even
    under forged fragments; and as long as the fragments are the peer's, what
    is processed is the peer's next messages. *)
Definition honest s : Prop := stays (rest s) /\ Forall of_peer (rx_list (rx s)).

Definition step_ok s out s' : Prop :=
  listed (rx_list (rx s')) /\ (honest s -> honest s' /\ delivers (expected s) out (expected s')).

Lemma peer_bytes m : msg_ok m -> of_peer m -> ready m = true ->
  exists ep, peer (mseq m) = Some (ep, mtype m, fullMsg m).
Proof.
  intros Hm (ty & body & Hp & <- & Hs & Hb) Hr. exists (epoch m). rewrite Hp. repeat f_equal.
  destruct Hm as [_ St]. rewrite Hr in St. destruct St as (hdr & b & Hf & Lb).
  unfold fullMsg. rewrite Hf. cbn. apply list_ext_rd; [congruence |]. intros i Hi. symmetry. apply Hb.
  unfold got. rewrite Hf. destruct (Z.leb_spec 0 i), (Z.ltb_spec i (msz m)); try lia. reflexivity.
Qed.

Lemma was_processed s hs :
  rx (Dtls13MsgWasProcessed s hs) = rx s /\ opts (rest (Dtls13MsgWasProcessed s hs)) = opts (rest s) /\
  (stays (rest s) -> expected (Dtls13MsgWasProcessed s hs) = u16 (expected s + 1)).
Proof.
  unfold Dtls13MsgWasProcessed, stays. destruct s as [[o d q sh tl a] e pn on x]. cbn.
  destruct (dtlsStateful o); cbn; repeat split; auto. intros [_ ?]; discriminate.
Qed.

Lemma listed_tail m l : listed (m :: l) -> msg_ok m /\ listed l.
Proof.
  intros [Lo L1 Lr]. apply Forall_cons in Lo as [Lm Lo]. apply NoDup_cons in L1 as [_ L1].
  apply StronglySorted_cons in Lr as [_ Lr]. split; [exact Lm | now split].
Qed.

(** A step that only changes the rest of the connection. *)
Lemma step_stay s s' : listed (rx_list (rx s)) -> rx s' = rx s ->
  (stays (rest s) -> stays (rest s') /\ expected s' = expected s) -> step_ok s [] s'.
Proof.
  intros L Er Hs. split; [now rewrite Er |]. intros [St F]. destruct (Hs St) as [St' ->].
  split; [split; [exact St' | now rewrite Er] | apply delivers_nil].
Qed.

Lemma set_parts' s r :
  let s' := { s with rest := r } in rest s' = r /\ peerNumber s' = peerNumber s /\ expected s' = expected s /\ rx s' = rx s.
Proof. destruct s. cbn. auto. Qed.

Lemma drop_head_parts s :
  rest (drop_head s) = rest s /\ expected (drop_head s) = expected s /\ rx_list (rx (drop_head s)) = tail (rx_list (rx s)).
Proof. destruct s. cbn. auto. Qed.

Lemma set_parts s r n :
  let s' := { { s with rest := r } with expected := n } in rest s' = r /\ expected s' = n /\ rx s' = rx s.
Proof. destruct s. cbn. auto. Qed.

(** A message that counts as processed leaves the list. *)
Lemma step_processed s s' m l :
  listed (rx_list (rx s)) -> rx_list (rx s) = m :: l -> rx_list (rx s') = l -> expected s = mseq m -> ready m = true ->
  (stays (rest s) -> stays (rest s') /\ expected s' = u16 (expected s + 1)) ->
  step_ok s [(mseq m, mtype m, fullMsg m)] s'.
Proof.
  intros L E E' Ex Er Hs. rewrite E in L. destruct (listed_tail m l L) as [Om Ll]. split; [now rewrite E' |].
  intros [St F]. rewrite E in F. apply Forall_cons in F as [Fm Fl]. destruct (Hs St) as [St' Ee].
  split; [split; [exact St' | now rewrite E'] |]. destruct (peer_bytes m Om Fm Er) as [ep Hp].
  rewrite Ee, Ex, wrap_small.
  - eapply delivers_one. exact Hp.
  - pose proof (peer_number (mseq m) ltac:(eauto)). unfold is_word. lia.
Qed.

Lemma process_one_ok s m l :
  listed (rx_list (rx s)) -> rx_list (rx s) = m :: l ->
  let '(_, s', more, out) := process_one s m in
  step_ok s out s' /\ (more = true -> rx_list (rx s') = l).
Proof.
  intros L E. unfold process_one.
  destruct (Z.eqb_spec (expected s) (mseq m)) as [Ex | _]; cbn [negb]; [| split; [now apply step_stay | discriminate]].
  destruct (ready m) eqn:Er; cbn [negb]; [| split; [now apply step_stay | discriminate]].
  destruct (negb (check_encryption (rest s) (mtype m) (encrypted m) =? 0)).
  { split; [| discriminate]. apply step_stay; auto. intros St. destruct s; cbn in *. split; [now apply send_alert_leaves | reflexivity]. }
  set (done := if tls13 (opts (rest s)) then _ else _).
  assert (Hd : stays (rest s) -> stays done.1.2 /\ done.2 = expected s).
  { intros St. unfold done. rewrite (proj1 St). cbn [fst snd]. split; [| reflexivity].
    destruct (do_tls13 (rest s) (mtype m) (fullMsg m)) as [[ret mv] r] eqn:Ed. cbn.
    pose proof (do_tls13_stays (rest s) (mtype m) (fullMsg m) St) as K. now rewrite Ed in K. }
  destruct done as [[[ret mv] r] n]. cbn [fst snd] in Hd.
  destruct (set_parts s r n) as (S1 & S2 & S3). set (s1 := { { s with rest := r } with expected := n }) in *.
  destruct ((ret =? 0) || (ret =? WANT_WRITE) || _).
  - set (s2 := if tls13 (opts r) then _ else _).
    assert (P : rx s2 = rx s /\ (stays (rest s) -> stays (rest s2) /\ expected s2 = u16 (expected s + 1))).
    { unfold s2. destruct (was_processed s1 (mtype m)) as (W1 & W2 & W3). destruct (tls13 (opts r)) eqn:Tr.
      - split; [congruence |]. intros St. destruct (Hd St) as [Sr En]. unfold stays in *. rewrite W2, W3, S1, S2, En by now rewrite S1. auto.
      - split; [destruct (tls13 (opts (rest s))); [destruct s1; cbn in *; congruence | congruence] |].
        intros St. destruct (Hd St) as [[Sr _] _]. congruence. }
    destruct P as [P1 P2], (drop_head_parts s2) as (D1 & D2 & D3).
    assert (D4 : rx_list (rx (drop_head s2)) = l) by now rewrite D3, P1, E.
    split; [| auto]. apply (step_processed _ _ m l); auto; now rewrite D1, D2.
  - split; [| discriminate]. apply step_stay; [exact L | exact S3 |]. intros St. rewrite S1, S2. now apply Hd.
Qed.

Lemma step_trans s o s1 o' s2 : step_ok s o s1 -> step_ok s1 o' s2 -> step_ok s (o ++ o') s2.
Proof.
  intros [_ A1] [L2 A2]. split; [exact L2 |]. intros Hs. destruct (A1 Hs) as [Hs1 D1], (A2 Hs1) as [Hs2 D2].
  split; [exact Hs2 |]. eapply delivers_app; eauto.
Qed.

Lemma process_loop_ok l s :
  listed (rx_list (rx s)) -> rx_list (rx s) = l ->
  let '(_, s', out) := process_loop l s in step_ok s out s'.
Proof.
  revert s. induction l as [| m l IH]; intros s L E; cbn [process_loop]; [now apply step_stay |].
  pose proof (process_one_ok s m l L E) as P. destruct (process_one s m) as [[[ret s1] more] out]. destruct P as [P1 P2].
  destruct more; [| exact P1]. specialize (P2 eq_refl).
  specialize (IH s1 (proj1 P1) P2). destruct (process_loop l s1) as [[ret' s2] out']. eapply step_trans; eauto.
Qed.

(** ** One fragment *)

(** [s1] is [s] further on in the code that looks at a fragment of message
    [n]: nothing has been stored or processed. *)
Definition along s n s1 : Prop :=
  rx s1 = rx s /\ peerNumber s1 = n /\ (stays (rest s) -> stays (rest s1) /\ expected s1 = expected s) /\
  curEpoch64 (dtls (rest s1)) = curEpoch64 (dtls (rest s)).

Definition outcome_ok s input (res : option (Z * Z * Recv * list (Z * Z * list Z))) : Prop :=
  match res with
  | None => False
  | Some (_, _, s', out) =>
      listed (rx_list (rx s')) /\
      (honest s -> fragment_of_peer (u16 (w64GetLow32 (curEpoch64 (dtls (rest s))))) input ->
       honest s' /\ delivers (expected s) out (expected s'))
  end.

Lemma along_stop s n s1 input ret k : listed (rx_list (rx s)) -> along s n s1 ->
  outcome_ok s input (Some (ret, k, s1, [])).
Proof.
  intros L (E1 & _ & E3 & _). split; [now rewrite E1 |]. intros Hs _.
  destruct (step_stay s s1 L E1 E3) as [_ P]. exact (P Hs).
Qed.

Lemma along_rest s n s1 r : along s n s1 -> leaves (rest s1) r -> along s n { s1 with rest := r }.
Proof.
  intros (E1 & E2 & E3 & E4) [L1 L2]. destruct s1. unfold along in *. cbn in *. repeat split; auto; try congruence.
  - apply L1, E3. assumption.
  - apply L1, E3. assumption.
  - now apply E3.
Qed.

Lemma leaves_refl r : leaves r r.
Proof. now split. Qed.

Lemma leaves_trans r1 r2 r3 : leaves r1 r2 -> leaves r2 r3 -> leaves r1 r3.
Proof. intros [A1 B1] [A2 B2]. split; [auto | congruence]. Qed.

Lemma leaves_same r r' : opts r' = opts r -> dtls r' = dtls r -> leaves r r'.
Proof. unfold leaves, stays. intros -> ->. auto. Qed.

Lemma msg_recvd_along s n s1 hs off : along s n s1 -> along s n (Dtls13RtxMsgRecvd s1 hs off).
Proof.
  intros Al. unfold Dtls13RtxMsgRecvd.
  set (o := opts (rest s1)).
  assert (P : forall r, opts r = opts (rest s1) -> dtls r = dtls (rest s1) -> along s n { s1 with rest := r })
    by (intros r E1 E2; apply along_rest; [exact Al | now apply leaves_same]).
  set (s2 := if negb _ && _ then _ else s1).
  assert (A2 : along s n s2).
  { unfold s2. destruct (_ && _); [| exact Al]. apply P; [unfold DtlsMsgPoolReset |];
      destruct (Dtls13SaveOrFlushClientHello _ _ _ _ _ _), (hs =? server_hello), (_ || _), (rest s1); reflexivity. }
  clearbody s2. clear P Al.
  set (s3 := if peerNumber s2 <? expected s2 then _ else s2).
  assert (A3 : along s n s3).
  { unfold s3. destruct (_ <? _); [| exact A2]. apply along_rest; [exact A2 |]. apply leaves_same; destruct (rest s2); reflexivity. }
  clearbody s3. clear A2.
  set (s4 := if _ && _ && _ then _ else s3).
  assert (A4 : along s n s4).
  { unfold s4. destruct (_ && _ && _); [| exact A3]. apply along_rest; [exact A3 |]. apply leaves_same; destruct (rest s3); reflexivity. }
  clearbody s4. destruct (_ && _); [| exact A4]. apply along_rest; [exact A4 |]. apply leaves_same; destruct (rest s4); reflexivity.
Qed.

Lemma alerts_leave r l : leaves r (foldl (fun r '(lvl, d) => send_alert r lvl d) r l).
Proof.
  revert r. induction l as [| [a b] l IH]; intros r; [apply leaves_refl |].
  eapply leaves_trans; [apply send_alert_leaves | apply IH].
Qed.

Lemma c24to32_small c : is_bytes c -> small (Opaque.c24to32 c).
Proof.
  intros Hc. assert (B : forall i, is_word 8 (rd c i)) by (intros i; apply rd_is_word; [lia | exact Hc]).
  assert (E : is_word 24 (Opaque.c24to32 c)); [| exact E].
  unfold Opaque.c24to32. apply lor_is_word; [lia | apply lor_is_word; [lia | |] |].
  - destruct (B 0). rewrite wrap_small; rewrite Z.shiftl_mul_pow2 by lia; unfold is_word; lia.
  - destruct (B 1). rewrite wrap_small; rewrite Z.shiftl_mul_pow2 by lia; unfold is_word; lia.
  - destruct (B 2). unfold is_word; lia.
Qed.

(** The message a fragment of the peer goes to is still of the peer. *)
Lemma set_of_peer alloc junk m seq ep data type off n enc body ret m' :
  msg_ok m -> small off -> small n -> n <= Zlen data -> off + n <= Zlen body -> small (Zlen body) ->
  peer seq = Some (ep, type, body) -> (forall i, 0 <= i < n -> rd data i = rd body (off + i)) ->
  (of_peer m /\ key m = (ep, seq) \/ m = DtlsMsgNew (Zlen body)) ->
  DtlsMsgSet alloc junk m seq ep data type off n (Zlen body) enc = Some (ret, m') -> of_peer m'.
Proof.
  intros Om Ho Hn Hd Hf Hb Hp Hbytes Hm E.
  destruct (DtlsMsgSet_ok alloc junk m seq ep data type off n (Zlen body) enc Om Ho Hn Hd) as (r & m2 & E2 & O).
  rewrite E in E2. injection E2 as <- <-.
  assert (Sz : msz m = Zlen body /\ same_message m seq ep type = true /\ (ready m = true -> of_peer m) /\
    (forall p v, got m p = Some v -> v = rd body p)).
  { destruct Hm as [[(ty & b & Hpm & Ht & Hs & Hg) [= Ke Ks]] | ->]; [| repeat split; discriminate].
    rewrite Ks, Ke, Hp in Hpm. injection Hpm as <- <-. split; [exact Hs | split; [| split; [intros _; exists type, body; rewrite Ks, Ke; auto | exact Hg]]].
    unfold same_message. rewrite Ht, Ke, Ks, !Z.eqb_refl. apply orb_true_r. }
  destruct Sz as (Sz & Same & Rd & Hg). rewrite Sz, Z.eqb_refl in O. cbn [andb] in O.
  destruct (Z.leb_spec (off + n) (Zlen body)); [cbn [negb] in O | lia].
  destruct (ready m) eqn:Er; [destruct O as [_ ->]; auto |].
  rewrite Same in O. cbn [negb] in O. destruct O as (_ & Oz & Ot & Os & Oe & O).
  exists type, body. rewrite Os, Oe. split; [exact Hp | split; [exact Ot | split; [congruence |]]].
  intros p v Hv. destruct O as [(_ & _ & G) | (_ & Tk & _)]; [rewrite G in Hv; eauto |].
  destruct (Tk p) as [T1 T2]. destruct (decide (off <= p < off + n)) as [I | I].
  - destruct (T1 I) as [G | [_ G]]; rewrite G in Hv; [injection Hv as <- | eauto].
    rewrite Hbytes by lia. f_equal. lia.
  - rewrite (T2 I) in Hv. eauto.
Qed.

Lemma recv_store mem s n s1 ty size off len body e enc :
  listed (rx_list (rx s)) -> along s n s1 -> small size -> small off -> small len -> len <= Zlen body -> off + len <= size ->
  exists x, DtlsMsgStore (newMsg mem) (newBucket mem) (junk mem) (rx s1) e n body size ty off len enc = Some x /\
    listed (rx_list x) /\
    (Forall of_peer (rx_list (rx s)) ->
     (exists b, peer n = Some (e, ty, b) /\ size = Zlen b /\ forall i, 0 <= i < len -> rd body i = rd b (off + i)) ->
     Forall of_peer (rx_list x)).
Proof.
  intros L (E1 & _) Hs Ho Hl Hb Hf. rewrite E1.
  destruct (store_listed (newMsg mem) (newBucket mem) (junk mem) (rx s) e n body size ty off len enc L Hs Ho Hl Hb)
    as (x & -> & Lx & Ex).
  exists x. split; [reflexivity | split; [exact Lx |]]. intros F (b & Hp & -> & Hbytes). apply Forall_forall. intros a Ia.
  destruct (Ex a Ia) as [Ia' | (m & ret & Hm & Es)]; [exact (proj1 (Forall_forall _ _) F _ Ia') |].
  eapply set_of_peer; [| exact Ho | exact Hl | exact Hb | exact Hf | exact Hs | exact Hp | exact Hbytes | | exact Es].
  - destruct Hm as [[Im _] | [-> _]]; [exact (proj1 (Forall_forall _ _) (listed_ok _ L) _ Im) | now apply new_msg_ok].
  - destruct Hm as [[Im Km] | [-> _]]; [left; split; [exact (proj1 (Forall_forall _ _) F _ Im) | exact Km] | auto].
Qed.

(** The fields of a handshake header. *)
Definition hd_type (input : list Z) : Z := rd input 0.
Definition hd_length (input : list Z) : Z := Opaque.c24to32 (drop 1 input).
Definition hd_number (input : list Z) : Z := Opaque.ato16 (drop 4 input).
Definition hd_offset (input : list Z) : Z := Opaque.c24to32 (drop 6 input).
Definition hd_size (input : list Z) : Z := Opaque.c24to32 (drop 9 input).

(** The fragment is inside the record and inside its message, and the
    message is not an old one. *)
Record fits s input : Prop := {
  fits_record : 12 + hd_size input <= Zlen input;
  fits_message : hd_offset input + hd_size input <= hd_length input;
  fits_small : small (hd_length input) /\ small (hd_offset input) /\ small (hd_size input);
  fits_due : stays (rest s) -> expected s <= hd_number input }.

(** Processing of what has become due, after [out]. *)
Definition go_on s (k : Z) (out : list (Z * Z * list Z)) : option (Z * Z * Recv * list (Z * Z * list Z)) :=
  if Dtls13NextMessageComplete s
  then let '(ret, s, out') := Dtls13ProcessBufferedMessages s in Some (ret, k, s, out ++ out')
  else Some (0, k, s, out).

(** What can become of a record: it is dropped or refused, its fragment is
    stored, or it is a whole message that is due. *)
Inductive received mem s input : option (Z * Z * Recv * list (Z * Z * list Z)) -> Prop :=
| received_dropped ret k s1 :
    along s (hd_number input) s1 -> received mem s input (Some (ret, k, s1, []))
| received_early ret k :
    received mem s input (Some (ret, k, s, []))
| received_stored k s1 :
    along s (hd_number input) s1 -> fits s input ->
    received mem s input
      (x ← DtlsMsgStore (newMsg mem) (newBucket mem) (junk mem) (rx s1) (u16 (w64GetLow32 (curEpoch64 (dtls (rest s)))))
             (hd_number input) (drop 12 input) (hd_length input) (hd_type input) (hd_offset input) (hd_size input)
             (decryptedCur (opts (rest s1)));
       go_on { s1 with rx := x } k [])
| received_whole s1 (msg : list Z) ret k r :
    along s (hd_number input) s1 -> fits s input ->
    (stays (rest s) -> hd_number input = expected s) -> hd_offset input = 0 -> hd_size input = hd_length input ->
    Zlen msg = hd_length input -> (forall i, 0 <= i < hd_length input -> rd msg i = rd input (12 + i)) ->
    (stays (rest s1) -> stays r) ->
    received mem s input
      (let s2 := { s1 with rest := r } in
       if negb (ret =? 0) then Some (ret, k, s2, [])
       else go_on (Dtls13MsgWasProcessed s2 (hd_type input)) k [(hd_number input, hd_type input, msg)]).

Lemma recv_cases mem s input : is_bytes input -> received mem s input (_Dtls13HandshakeRecv mem s input).
Proof.
  intros Hi. unfold _Dtls13HandshakeRecv, GetDtlsHandShakeHeader.
  assert (A0 : forall n, along s n { s with peerNumber := n }) by (intros n; destruct s; split; [reflexivity | split; [reflexivity | split; [auto | reflexivity]]]).
  destruct (Z.ltb_spec (Zlen input) DTLS_HANDSHAKE_HEADER_SZ) as [Sh | Lg].
  { apply received_early. }
  set (ty := rd input 0). set (len := Opaque.c24to32 (drop 1 input)). set (n := Opaque.ato16 (drop 4 input)).
  set (off := Opaque.c24to32 (drop 6 input)). set (flen := Opaque.c24to32 (drop 9 input)).
  assert (Sm : small len /\ small off /\ small flen)
    by (split; [| split]; apply c24to32_small; now apply Forall_drop). destruct Sm as (Slen & Soff & Sflen).
  set (hdr := if negb (curRLMajor _ =? _) || _ || _ then _ else _).
  assert (Eh : exists c, hdr = (c, Some (ty, len, n, off, flen))) by (unfold hdr; destruct (_ || _ || _); [destruct (_ && _ && _) |]; eauto).
  destruct Eh as [c ->]. specialize (A0 n). set (s0 := { s with peerNumber := n }) in *. clearbody s0.
  destruct (negb (c =? 0)); [eapply received_dropped; eauto |].
  pose proof (early_sanity_leaves (rest s0) ty (DTLS_HANDSHAKE_HEADER_SZ +u32 flen)) as Hes.
  destruct (early_sanity (rest s0) ty _) as [c1 r1]. cbn in Hes.
  pose proof (along_rest _ _ _ _ A0 Hes) as A1. set (s1 := { s0 with rest := r1 }) in *. clearbody s1.
  destruct (negb (c1 =? 0)); [eapply received_dropped; eauto |].
  destruct (Dtls13CheckEpoch _ _ _ _) as [c2 al].
  pose proof (along_rest _ _ _ _ A1 (alerts_leave (rest s1) al)) as A2. set (s2 := { s1 with rest := _ }) in *. clearbody s2.
  destruct (negb (c2 =? 0)); [eapply received_dropped; eauto |].
  assert (Efl : (DTLS_HANDSHAKE_HEADER_SZ +u32 flen) = 12 + flen) by (apply wrap_small; unfold is_word, small, DTLS_HANDSHAKE_HEADER_SZ in *; lia).
  assert (Eof : (off +u32 flen) = off + flen) by (apply wrap_small; unfold is_word, small in *; lia).
  rewrite Efl, Eof. change (Z.to_nat DTLS_HANDSHAKE_HEADER_SZ) with 12%nat.
  destruct (_ && negb (ty =? client_hello)); [eapply received_dropped; eauto |].
  set (s3 := if _ && negb (dtlsStateful _) then _ else s2).
  assert (A3 : along s n s3).
  { unfold s3. destruct (_ && negb (dtlsStateful (opts (rest s2)))) eqn:Sf; [| exact A2].
    apply andb_true_iff in Sf as [_ Sf]. apply negb_true_iff in Sf.
    destruct A2 as (E1 & E2 & E3 & E4). destruct s2 as [[o d q sh tl ap] e pn on x], d. unfold along, stays in *. cbn in *.
    split; [exact E1 | split; [exact E2 | split; [| exact E4]]]. intros St. destruct (E3 St) as [[_ F] _]. congruence. }
  clearbody s3. clear A0 A1 A2 Hes.
  destruct (Z.ltb_spec (Zlen input) (12 + flen)) as [Sh | Fits0]; [eapply received_dropped; eauto |].
  destruct (MAX_HANDSHAKE_SZ <? len); [destruct (encryptionOn _); eapply received_dropped; eauto |].
  destruct (Z.ltb_spec len (off + flen)) as [Out | In]; [eapply received_dropped; eauto |].
  pose proof (msg_recvd_along _ _ _ ty off A3) as A4. set (s4 := Dtls13RtxMsgRecvd s3 ty off) in *. clearbody s4. clear A3.
  destruct (Z.ltb_spec (peerNumber s4) (expected s4)) as [Old | Due]; [eapply received_dropped; eauto |].
  assert (Due' : stays (rest s) -> expected s <= n).
  { destruct A4 as (_ & <- & E3 & _). intros St. destruct (E3 St) as [_ <-]. exact Due. }
  set (acc := if negb ((off =? 0) && _) && _ then _ else inr s4).
  assert (Hacc : match acc with inl (_, _, s5) => along s n s5 | inr s5 => along s n s5 end).
  { unfold acc. destruct (negb ((off =? 0) && (flen =? len)) && negb (Dtls13AcceptFragmented (rest s4) ty)); [| exact A4].
    destruct (_ && _ && _ && _); [| exact A4].
    pose proof (stateless_hello_leaves (rest s4) (take (Z.to_nat flen) (drop 12 input))) as Hl.
    destruct (stateless_hello (rest s4) _) as [[c3 is13] r3]. cbn in Hl.
    pose proof (along_rest _ _ _ _ A4 Hl) as A5. destruct ((c3 =? 0) && is13); [| exact A5].
    set (s5 := { s4 with rest := r3 }) in *. destruct chGoodCb as [cb |] eqn:Ecb; [| exact A5].
    pose proof (chGoodCb_leaves cb (rest s5) Ecb) as Hc. destruct (cb (rest s5)) as [c4 r4]. cbn in Hc.
    pose proof (along_rest _ _ _ _ A5 Hc) as A6. now destruct (c4 <? 0). }
  destruct acc as [[[c3 k] s5] | s5]; [eapply received_dropped; eauto |]. clear A4. pose proof Hacc as (B1 & B2 & B3 & B4).
  assert (Lb : Zlen (drop 12 input) = Zlen input - 12) by (apply (Zlen_drop input 12); unfold DTLS_HANDSHAKE_HEADER_SZ in Lg; lia).
  assert (Fits : fits s input) by (split; [exact Fits0 | exact In | auto | exact Due']).
  destruct (_ || _ || _) eqn:Stored.
  - destruct (rx_sz (rx s5) <? DTLS_POOL_SZ); [| eapply received_dropped; eauto].
    rewrite B2, B4.
    exact (received_stored mem s input _ s5 Hacc Fits).
  - apply orb_false_iff in Stored as [Stored _]. apply orb_false_iff in Stored as [Whole InOrder].
    apply negb_false_iff, andb_true_iff in Whole as [V1 V2]. apply Z.eqb_eq in V1, V2. apply Z.ltb_ge in InOrder.
    destruct (read_ok (drop 12 input) 0 len) as (msg & -> & Lm & Rm); [unfold small in *; lia .. |]. cbn [mbind option_bind].
    pose proof (do_tls13_stays (rest s5) ty msg) as Hd. destruct (do_tls13 (rest s5) ty msg) as [[c6 moved] r6]. cbn in Hd.
    rewrite (proj1 (proj2 (set_parts' s5 r6))), B2.
    apply (received_whole mem s input s5 msg c6 _ r6); auto.
    + intros St. specialize (Due' St). destruct (B3 St) as [_ Ee]. change (hd_number input) with n in *. lia.
    + intros i Hi'. change (hd_length input) with len in *. rewrite Rm by lia. apply (rd_drop input 12 i); lia.
Qed.

(** ** Safety *)

Lemma go_on_ok s s6 k out0 input :
  listed (rx_list (rx s6)) ->
  (honest s -> fragment_of_peer (u16 (w64GetLow32 (curEpoch64 (dtls (rest s))))) input ->
     honest s6 /\ delivers (expected s) out0 (expected s6)) ->
  outcome_ok s input (go_on s6 k out0).
Proof.
  intros L6 H6. unfold go_on. destruct (Dtls13NextMessageComplete s6); [| split; [exact L6 | exact H6]].
  unfold Dtls13ProcessBufferedMessages. pose proof (process_loop_ok (rx_list (rx s6)) s6 L6 eq_refl) as P.
  destruct (process_loop _ s6) as [[c7 s7] out]. split; [exact (proj1 P) |]. intros Hs Fr.
  destruct (H6 Hs Fr) as [Hs6 D6], (proj2 P Hs6) as [Hs7 D7]. split; [exact Hs7 |]. eapply delivers_app; eauto.
Qed.

Lemma fragment_bytes ep input : fragment_of_peer ep input -> 12 + hd_size input <= Zlen input ->
  exists b, peer (hd_number input) = Some (ep, hd_type input, b) /\ hd_length input = Zlen b /\
    forall i, 0 <= i < hd_size input -> rd (drop 12 input) i = rd b (hd_offset input + i).
Proof.
  intros (b & P1 & P2 & P3) Hf. exists b. split; [exact P1 | split; [exact P2 |]].
  intros i Hi. rewrite <- P3 by exact Hi. apply (rd_drop input 12 i); lia.
Qed.

Lemma recv_ok mem s input : is_bytes input -> listed (rx_list (rx s)) -> outcome_ok s input (_Dtls13HandshakeRecv mem s input).
Proof.
  intros Hi L. destruct (recv_cases mem s input Hi) as [ret k s1 Al | ret k | k s1 Al Fi | s1 msg ret k r Al Fi Hn Ho Hz Lm Rm Sr].
  - eapply along_stop; eauto.
  - split; [exact L |]. intros Hs _. split; [exact Hs | apply delivers_nil].
  - destruct (fits_small _ _ Fi) as (Sl & So & Ss). pose proof (fits_record _ _ Fi) as Fr.
    assert (Lb : Zlen (drop 12 input) = Zlen input - 12)
      by (apply (Zlen_drop input 12); unfold small in Ss; lia).
    destruct (recv_store mem s (hd_number input) s1 (hd_type input) (hd_length input) (hd_offset input) (hd_size input)
      (drop 12 input) (u16 (w64GetLow32 (curEpoch64 (dtls (rest s))))) (decryptedCur (opts (rest s1))) L Al Sl So Ss
      ltac:(lia) (fits_message _ _ Fi)) as (x & -> & Lx & Fx).
    cbn [mbind option_bind]. apply go_on_ok; [destruct s1; exact Lx |]. intros [St F] Fp. destruct Al as (_ & _ & B3 & _), (B3 St) as [St1 Ee].
    split; [| destruct s1; cbn in *; rewrite Ee; apply delivers_nil].
    split; [destruct s1; exact St1 |]. destruct s1; cbn. apply Fx; [exact F |]. now apply fragment_bytes.
  - cbv zeta. destruct Al as (B1 & _ & B3 & _). destruct (set_parts' s1 r) as (E1 & _ & E3 & E4).
    set (s2 := { s1 with rest := r }) in *. clearbody s2.
    destruct (negb (ret =? 0)).
    { split; [rewrite E4, B1; exact L |]. intros [St F] _. destruct (B3 St) as [St1 Ee].
      split; [split; [rewrite E1; auto | now rewrite E4, B1] | rewrite E3, Ee; apply delivers_nil]. }
    destruct (was_processed s2 (hd_type input)) as (W1 & W2 & W3).
    apply go_on_ok; [now rewrite W1, E4, B1 |]. intros [St F] Fr. destruct (B3 St) as [St1 Ee].
    destruct (fragment_bytes _ _ Fr (fits_record _ _ Fi)) as (b & P1 & P2 & P3).
    assert (St2 : stays (rest s2)) by (rewrite E1; auto).
    split; [split; [unfold stays in *; now rewrite W2 | now rewrite W1, E4, B1] |].
    rewrite (W3 St2), E3, Ee, (Hn St).
    pose proof (peer_number (hd_number input) ltac:(eauto)) as Pn. rewrite (Hn St) in Pn.
    rewrite wrap_small by (unfold is_word; lia).
    replace msg with b; [eapply delivers_one; rewrite <- (Hn St); exact P1 |]. apply list_ext_rd; [congruence |].
    intros i Hi'. rewrite Rm by lia. symmetry. rewrite <- (rd_drop input 12 i) by lia. change (Z.to_nat 12) with 12%nat.
    rewrite P3 by lia. f_equal. lia.
Qed.

(** A record that arrives: what the rest of the connection is by then, what
    the allocator does, and the bytes. *)
Definition arrival : Type := Rest (T := T) (A := A) * Memory * list Z.

Fixpoint recv_run (l : list arrival) s : option (Recv * list (Z * Z * list Z)) :=
  match l with
  | [] => Some (s, [])
  | (r, mem, input) :: l =>
      match _Dtls13HandshakeRecv mem { s with rest := r } input with
      | None => None
      | Some (_, _, s, out) => '(s', out') ← recv_run l s; Some (s', out ++ out')
      end
  end.

Definition arrival_of_peer (a : arrival) : Prop :=
  let '(r, _, input) := a in stays r /\ fragment_of_peer (u16 (w64GetLow32 (curEpoch64 (dtls r)))) input.

(** [C16] Ordered, exact delivery.  Whatever records arrive, forged ones
    included, and whatever the allocator and the handlers answer, reassembly
    never reads or writes outside its buffers and keeps its store well-formed.
    And if every fragment is one of a message of the peer, of any size, in
    any order, repeated or lost, the messages processed are exactly the
    peer's, byte for byte, each once and in the order of their numbers,
    starting with the one expected. *)
Theorem ordered_delivery l s :
  listed (rx_list (rx s)) -> Forall (fun a : arrival => is_bytes a.2) l ->
  exists s' out, recv_run l s = Some (s', out) /\ listed (rx_list (rx s')) /\
    (Forall of_peer (rx_list (rx s)) -> Forall arrival_of_peer l -> delivers (expected s) out (expected s')).
Proof.
  revert s. induction l as [| [[r mem] input] l IH]; intros s L Hb; cbn [recv_run].
  { exists s, []. split; [reflexivity | split; [exact L | intros; apply delivers_nil]]. }
  apply Forall_cons in Hb as [Hi Hb]. destruct (set_parts' s r) as (E1 & _ & E3 & E4). set (s0 := { s with rest := r }) in *.
  pose proof (recv_ok mem s0 input Hi ltac:(now rewrite E4)) as O.
  destruct (_Dtls13HandshakeRecv mem s0 input) as [[[[ret k] s1] out] |]; [| contradiction]. destruct O as [L1 O].
  destruct (IH s1 L1 Hb) as (s2 & out' & -> & L2 & D2). cbn [mbind option_bind].
  exists s2, (out ++ out'). split; [reflexivity | split; [exact L2 |]]. intros F Fr.
  apply Forall_cons in Fr as [[St Fi] Fr]. rewrite <- E1 in St, Fi.
  destruct (O ltac:(split; [exact St | now rewrite E4]) Fi) as [[_ F1] D1]. rewrite <- E3.
  eapply delivers_app; [exact D1 |]. now apply D2.
Qed.
End Delivery.

Section Stale.
Context {T : Type} `{W64 T} {A : Type} `{C : Connection (T := T) (A := A)} `{Handlers (T := T) (A := A)}.
Implicit Types (s : Recv (T := T) (A := A)).

(** ** A partial message left behind *)

(** The message at the head of the store is one that is already past. *)
Definition stale s : Prop := exists h t, rx_list (rx s) = h :: t /\ mseq h < expected s.

Lemma stale_not_complete s : stale s -> Dtls13NextMessageComplete s = false.
Proof.
  intros (h & t & E & Lt). unfold Dtls13NextMessageComplete. rewrite E.
  destruct (Z.eqb_spec (mseq h) (expected s)); [lia | apply andb_false_r].
Qed.

Lemma store_head new alloc junk x ep seq data size type off n enc x' h t :
  listed (rx_list x) -> small size -> small off -> small n -> n <= Zlen data ->
  rx_list x = h :: t -> mseq h < seq ->
  DtlsMsgStore new alloc junk x ep seq data size type off n enc = Some x' ->
  exists t', rx_list x' = h :: t'.
Proof.
  intros L Hs Ho Hn Hd E Lt. unfold DtlsMsgStore, DtlsMsgFind. rewrite E. cbn [find_from].
  destruct (Z.eqb_spec (mseq h) seq); [lia |]. rewrite andb_false_r. cbn [negb app].
  pose proof (find_spec [h] t ep seq) as F. destruct (find_from [h] t ep seq) as [[[prev m] rest] |].
  - destruct F as (p & -> & -> & _). destruct (DtlsMsgSet _ _ _ _ _ _ _ _ _ _ _) as [[r m'] |]; cbn [mbind option_bind]; [| intros ?; discriminate].
    intros [= <-]. destruct x. cbn. eauto.
  - destruct (negb new); [intros [= <-]; destruct x; cbn in *; eauto |].
    destruct (DtlsMsgSet _ _ _ _ _ _ _ _ _ _ _) as [[r m'] |] eqn:Es; cbn [mbind option_bind fst snd]; [| intros ?; discriminate].
    destruct (r <? 0) eqn:Er; intros [= <-]; [eauto |].
    destruct (DtlsMsgSet_ok alloc junk (DtlsMsgNew size) seq ep data type off n size enc (new_msg_ok size Hs) Ho Hn Hd) as (r2 & m2 & E2 & O).
    rewrite Es in E2. injection E2 as <- <-. revert O. cbn [msz ready DtlsMsgNew]. rewrite Z.eqb_refl. cbn [andb].
    destruct (negb (off + n <=? size)); [intros [-> _]; discriminate |].
    change (same_message (DtlsMsgNew size) seq ep type) with true. cbn [negb]. intros (_ & _ & _ & O3 & _).
    cbn [rx_list]. replace (goes_before m' h) with false by (unfold goes_before; rewrite O3; destruct (Z.ltb_spec seq (mseq h)); [lia | now rewrite andb_false_r]).
    destruct t; eauto.
Qed.

Lemma stale_step mem s input : is_bytes input -> listed (rx_list (rx s)) -> stays (rest s) -> stale s -> 0 <= expected s < 65535 ->
  match _Dtls13HandshakeRecv mem s input with
  | None => False
  | Some (_, _, s', out) => stale s' /\ expected s' = expected s + Zlen out /\
      (out = [] \/ exists msg, out = [(hd_number input, hd_type input, msg)] /\ hd_offset input = 0 /\ hd_size input = hd_length input)
  end.
Proof.
  intros Hi L St (h & t & Eh & Lt) B.
  assert (Go : forall s6 k out0, stale s6 -> go_on s6 k out0 = Some (0, k, s6, out0))
    by (intros s6 k out0 S6; unfold go_on; now rewrite stale_not_complete).
  destruct (recv_cases mem s input Hi) as [ret k s1 Al | ret k | k s1 Al Fi | s1 msg ret k r Al Fi Hn Ho Hz Lm Rm Sr];
    [| split; [exists h, t; auto | split; [unfold Zlen; cbn; lia | auto]] | |]; destruct Al as (B1 & _ & B3 & _), (B3 St) as [St1 Ee].
  - split; [exists h, t; rewrite B1, Ee; auto | split; [unfold Zlen; cbn; lia | auto]].
  - destruct (fits_small _ _ Fi) as (Sl & So & Ss). pose proof (fits_record _ _ Fi) as Fr.
    assert (Lb : Zlen (drop 12 input) = Zlen input - 12) by (apply (Zlen_drop input 12); unfold small in Ss; lia).
    assert (Fb : hd_size input <= Zlen (drop 12 input)) by lia. rewrite B1.
    destruct (store_listed (newMsg mem) (newBucket mem) (junk mem) (rx s) (u16 (w64GetLow32 (curEpoch64 (dtls (rest s))))) (hd_number input)
      (drop 12 input) (hd_length input) (hd_type input) (hd_offset input) (hd_size input) (decryptedCur (opts (rest s1))) L Sl So Ss Fb)
      as (x & Ex & _). rewrite Ex. cbn [mbind option_bind].
    pose proof (fits_due _ _ Fi St) as Due. assert (Lt2 : mseq h < hd_number input) by lia.
    destruct (store_head _ _ _ _ _ _ _ _ _ _ _ _ x h t L Sl So Ss Fb Eh Lt2 Ex) as [t' Et].
    set (s6 := { s1 with rx := x }). assert (E6 : rx s6 = x /\ expected s6 = expected s) by (rewrite <- Ee; destruct s1; auto).
    destruct E6 as [E6 E7]. assert (S6 : stale s6) by (exists h, t'; rewrite E6, E7; auto).
    rewrite Go by exact S6. split; [exact S6 | split; [rewrite E7; unfold Zlen; cbn; lia | auto]].
  - cbv zeta. destruct (set_parts' s1 r) as (E1 & _ & E3 & E4). set (s2 := { s1 with rest := r }) in *. clearbody s2.
    destruct (negb (ret =? 0)).
    { split; [exists h, t; rewrite E4, B1, E3, Ee; auto | split; [unfold Zlen; cbn; lia | auto]]. }
    destruct (was_processed s2 (hd_type input)) as (W1 & _ & W3).
    assert (Ex : expected (Dtls13MsgWasProcessed s2 (hd_type input)) = expected s + 1).
    { rewrite W3, E3, Ee by (rewrite E1; auto). apply wrap_small. unfold is_word. lia. }
    assert (S6 : stale (Dtls13MsgWasProcessed s2 (hd_type input))) by (exists h, t; rewrite W1, E4, B1, Ex; split; [exact Eh | lia]).
    rewrite Go by exact S6. split; [exact S6 | split; [exact Ex |]]. right. eauto.
Qed.

(** [C36] A message of which some fragments were stored and which then arrives
    whole, in one record, is processed but stays in the store.  As its number
    is past, it never leaves it, and whatever arrives afterwards, no stored
    message is processed any more: only those that arrive whole and in order
    are, so a message the peer always sends in fragments never gets through. *)
Theorem stale_head_blocks l s :
  listed (rx_list (rx s)) -> stale s -> 0 <= expected s -> expected s + Zlen l < 65535 ->
  Forall (fun a : arrival (T := T) (A := A) => stays a.1.1 /\ is_bytes a.2) l ->
  exists s' out, recv_run l s = Some (s', out) /\ stale s' /\
    Forall (fun x => exists a, a ∈ l /\ hd_number a.2 = x.1.1 /\ hd_offset a.2 = 0 /\ hd_size a.2 = hd_length a.2) out.
Proof.
  revert s. induction l as [| [[r mem] input] l IH]; intros s L Sl B0 B1 F; cbn [recv_run]; [eauto |].
  apply Forall_cons in F as [[St Hi] F]. rewrite Zlen_cons in B1. pose proof (Zlen_nonneg l).
  destruct (set_parts' s r) as (E1 & _ & E3 & E4). set (s0 := { s with rest := r }) in *.
  assert (L0 : listed (rx_list (rx s0))) by now rewrite E4.
  pose proof (recv_ok (fun _ => None) (fun n E => match is_Some_None E with end) mem s0 input Hi L0) as O.
  pose proof (stale_step mem s0 input Hi L0 ltac:(now rewrite E1) ltac:(unfold stale; now rewrite E4, E3) ltac:(lia)) as P.
  destruct (_Dtls13HandshakeRecv mem s0 input) as [[[[ret k] s1] out] |]; [| contradiction].
  destruct O as [L1 _], P as (S1 & Ee & Ho).
  assert (Zlen out <= 1) by (destruct Ho as [-> | (msg & -> & _)]; unfold Zlen; cbn; lia). pose proof (Zlen_nonneg out).
  destruct (IH s1 L1 S1 ltac:(lia) ltac:(lia) F) as (s2 & out' & -> & S2 & F2). cbn [mbind option_bind].
  exists s2, (out ++ out'). split; [reflexivity | split; [exact S2 |]]. apply Forall_app. split.
  - destruct Ho as [-> | (msg & -> & Hz)]; [constructor |]. constructor; [| constructor].
    exists (r, mem, input). cbn. split; [now left | tauto].
  - eapply Forall_impl; [exact F2 |]. cbn. intros x (a & Ia & Ha). exists a. split; [now right | exact Ha].
Qed.
End Stale.

(** ** Sample runs *)

Section Samples.

Definition sample_options : Options :=
  mkOptions true 254 253 254 252 5 5 3 true false true false false 0 true true false.

Definition sample_rest : Rest (T := Native.w64wrapper) (A := unit) :=
  mkRest sample_options sample13 (mkRtx [] None [] 0 0 false false) None [] tt.

#[local] Instance sample_connection : Connection (T := Native.w64wrapper) (A := unit) := {
  MAX_HANDSHAKE_SZ := 20000;
  early_sanity r _ _ := (0, r);
  check_encryption _ _ _ := 0;
  send_alert r _ _ := r;
  do_tls13 r _ msg := (0, Zlen msg, r);
  do_tls12 r n _ msg := (0, Zlen msg, r, n);
  stateless_hello r _ := (0, false, r);
  chGoodCb := None }.

#[local] Instance sample_handlers : Handlers (T := Native.w64wrapper) (A := unit).
Proof. split; try (intros; apply leaves_refl); auto; intros; discriminate. Qed.

Definition sample_recv (n : Z) (l : list DtlsMsg) : Recv (T := Native.w64wrapper) (A := unit) :=
  mkRecv sample_rest n 0 0 (mkRx l (Zlen l) 0).

Definition frag_bytes (number type total off : Z) (body : list Z) : list Z :=
  type :: be_bytes 3 total ++ be_bytes 2 number ++ be_bytes 3 off ++ be_bytes 3 (Zlen body) ++ body.

Definition sample_peer (n : Z) : option (Z * Z * list Z) :=
  if n =? 5 then Some (2, certificate, [10; 11; 12; 13; 14])
  else if n =? 6 then Some (2, certificate_verify, [20; 21; 22]) else None.

Definition sample_arrivals : list arrival :=
  (fun i => (sample_rest, mkMemory true true (fun _ => 0), i)) <$>
  [frag_bytes 6 certificate_verify 3 0 [20; 21]; frag_bytes 5 certificate 5 2 [12; 13; 14];
   frag_bytes 6 certificate_verify 3 1 [21; 22]; frag_bytes 5 certificate 5 0 [10; 11; 12];
   frag_bytes 5 certificate 5 0 [10; 11; 12; 13; 14]].

Lemma sample_of_peer : Forall (arrival_of_peer sample_peer) sample_arrivals.
Proof.
  unfold arrival_of_peer. repeat apply Forall_cons_2; try apply Forall_nil_2;
    (split; [now split |]; eexists; split; [reflexivity | split; [reflexivity |]]; intros i Hi;
     match type of Hi with 0 <= i < ?e => let v := eval vm_compute in e in change (0 <= i < v) in Hi end;
     assert (i = 0 \/ i = 1 \/ i = 2 \/ i = 3 \/ i = 4) as D by lia;
     repeat (destruct D as [-> | D]; [reflexivity || (exfalso; lia) |]); subst; reflexivity || (exfalso; lia)).
Qed.

Lemma sample_bytes : Forall (fun a : arrival => is_bytes a.2) sample_arrivals.
Proof. repeat apply Forall_cons_2; try apply Forall_nil_2; cbn; repeat apply Forall_cons_2; try apply Forall_nil_2; split; vm_compute; congruence. Qed.

Lemma sample_number n : is_Some (sample_peer n) -> 0 <= n < 65535.
Proof. unfold sample_peer. destruct (Z.eqb_spec n 5), (Z.eqb_spec n 6); try lia. intros [x Hx]. discriminate. Qed.

Lemma ordered_delivery_witness :
  exists s', recv_run sample_arrivals (sample_recv 5 []) =
    Some (s', [(5, certificate, [10; 11; 12; 13; 14]); (6, certificate_verify, [20; 21; 22])]) /\
    delivers sample_peer 5 [(5, certificate, [10; 11; 12; 13; 14]); (6, certificate_verify, [20; 21; 22])] (expected s').
Proof.
  destruct (ordered_delivery sample_peer sample_number sample_arrivals (sample_recv 5 [])) as (s' & out & E & _ & D).
  - split; cbn; constructor.
  - exact sample_bytes.
  - specialize (D (Forall_nil_2 _) sample_of_peer). exists s'.
    assert (Eo : snd <$> recv_run sample_arrivals (sample_recv 5 []) =
      Some [(5, certificate, [10; 11; 12; 13; 14]); (6, certificate_verify, [20; 21; 22])]) by (vm_compute; reflexivity).
    rewrite E in Eo. injection Eo as ->. split; [exact E | exact D].
Defined.

(** Message 5 left half behind; message 6 arrives in two fragments. *)
Definition stale_msg : DtlsMsg := mkMsg None [mkBucket 0 2 [10; 11]] 2 2 5 5 certificate 1 false true.

Lemma stale_head_blocks_witness :
  let l := (fun i => (sample_rest, mkMemory true true (fun _ => 0), i)) <$>
    [frag_bytes 6 certificate_verify 3 0 [20; 21]; frag_bytes 6 certificate_verify 3 2 [22]] in
  exists s', recv_run l (sample_recv 6 [stale_msg]) = Some (s', []) /\ stale s' /\
    (exists m, m ∈ rx_list (rx s') /\ mseq m = expected s' /\ ready m = true).
Proof.
  intros l. destruct (stale_head_blocks l (sample_recv 6 [stale_msg])) as (s' & out & E & S & _).
  - split; cbn; [repeat constructor; cbn; try lia | apply NoDup_singleton | repeat constructor].
    all: unfold DTLS_FRAG_POOL_SZ, Zlen; cbn; lia.
  - exists stale_msg, []. split; [reflexivity | cbn; lia].
  - cbn. lia.
  - vm_compute. reflexivity.
  - repeat apply Forall_cons_2; try apply Forall_nil_2; (split; [now split |]); cbn;
      repeat apply Forall_cons_2; try apply Forall_nil_2; split; vm_compute; congruence.
  - assert (Eo : recv_run l (sample_recv 6 [stale_msg]) = Some (s', out)) by exact E.
    vm_compute in E. injection E as Es Eout. subst out. exists s'. split; [exact Eo | split; [exact S |]].
    subst s'. eexists. split; [cbn; right; now left | split; reflexivity].
Defined.
End Samples.
